(* ===== verification/_CoqProject ===== *)
-Q . S2P
Prelude.v
CStr.v
PosixFile.v
Db.v
DbLayout.v
DbInv.v
DbOps.v
DbSem.v
DbSpec.v
DbScan.v
DbProps.v
DList.v
Jobs.v
Queue.v
QueueSpec.v
QueueProps.v
Rwlock.v
Foo.v
FooSpec.v
FooProps.v
Sock.v
Endian.v
PrintReq.v
PrintClient.v
Ipp.v
PrinterStatus.v
Printd.v
PrintdSpec.v
PrintdRestart.v
PrintdPrint.v
PrintdProps.v
Semaph.v
SemaphProps.v
FdPass.v
FdPassSpec.v
OpenArgs.v
OpenArgsSpec.v
OpenConn.v
OpenServer.v
OpenClient.v
OpenProps.v
OpenLoop.v
OpenPoll.v
OpenDaemon.v
DaemonProps.v
Fmemopen.v
FmemProps.v
Barrier.v
BarrierProps.v
Ftw.v
FtwProps.v
Aio.v
AioProps.v
Tty.v
TtyProps.v
Err.v
ErrProps.v
Fds.v
Popen.v
PopenProps.v
Daemonize.v
DaemonizeProps.v
TellWait.v
TellWaitProps.v
Signals.v
SignalsProps.v
AbortProps.v
Sigset.v
Servers.v
ServersProps.v
PtyLoop.v
PtyLoopProps.v
Pty.v
PtyProps.v
Timeout.v
Ttyname.v
Getenv.v
Condvar.v
SemPair.v
Pollmsg.v
