(* ===== verification/Prelude.v ===== *)
(** * A verification library for the APUE program collection

    The repository holds the programs of "Advanced Programming in the UNIX Environment":
    a library (src/lib) and programs that use it.  This development models the parts that
    have logic of their own, routine by routine, and proves what makes them correct.  The
    properties are numbered C1 to C40 in the order of their importance; the number stands
    in front of the theorem.

    ** Conventions

    - A routine of C is a program [prog S A] (Prelude): a function from the state of the
      component to an [outcome], which is a result with a new state ([Done]), the end of
      the process in err_dump, err_sys, err_quit, exit or by a signal ([Fatal]), undefined
      behaviour ([Undef]: an access out of bounds, freed memory, an uninitialised variable,
      a lock used wrongly) or the end of a loop's fuel ([NoFuel]).  A theorem that says
      [Done] says that nothing of the rest happens.
    - Loops that are not structural have fuel, computed from the state: the length of the
      index file for a hash chain of db.c ([chain_fuel]: each record has a byte of its
      own), the objects in memory for the chains of Foo ([chain_bound]), the bytes and
      segments left to receive for recv_fd ([recv_fuel]), the bytes left to write for
      writen, the connections that wait for the loops on accept, the script of a process
      for waitpid, 32 rounds for a delay that is doubled up to the range of an int, the
      directories for the list of ttyname.  In each the theorems are equations with [Done],
      so the fuel is enough; where a loop of the code really does not end (printer_status,
      sleep(0)) that is a theorem.
    - Integers are [Z] and are wrapped to their width where the code can overflow
      ([wrap_s], [wrap_u]); a byte is an [ascii]; a C string is the bytes before the first
      NUL ([CStr.cstr]).  Memory with addresses is a finite map (DList, Foo, Printd).
    - System calls and the C library are not under src/.  Their results are arguments or
      part of the state (how much a write takes, which call fails, the address malloc
      returns); files, sockets, descriptor tables, System V semaphores, signals and the
      calls' documented effect on them are small models (PosixFile, Sock, FdPass, Fds,
      Semaph, Signals).
    - Threads and processes interleave: steps are an inductive relation or a partial
      function of a schedule, invariants are shown by induction on the reachable states.
      A section under a lock is one step; where a signal can interrupt a system call,
      entering and leaving it are two.

    ** Parts

    Shared: Prelude (programs, record update, integers), CStr (strings, ctype, atol, fgets,
    printf of numbers), PosixFile (regular files), DList (doubly linked lists in memory,
    with the interface [Node] for the structures that are linked), Sock (connections,
    lib/readn.c, lib/writen.c, treadn of printer/util.c), Endian (htonl and its kin), Fds
    (descriptor tables).

    Database, db/db.c.  Db has every function of the file over [dbw]: two files with
    their offsets, the locks held, the DB structure, errno.  DbLayout describes the bytes
    of well-formed files, DbInv the chains of records, DbOps what the internal routines do
    there, DbSem and DbSpec the map that is stored and how each operation changes it,
    DbScan db_open and the sequential read, DbProps the properties: any sequence of
    calls behaves like a finite map (C1), db_store on each of its branches (C2; db_fetch,
    db_delete, rejected arguments and a key that overflows the buffer are lemmas),
    always as far as the C library goes along: deleting a record calls sprintf with its own
    destination as argument, undefined in C, and the class Libc says what the library does,
    persistence over close and open (C5), the enumeration (C6).  The bound 9660 of C1
    keeps all offsets within seven digits (PTR_MAX).

    Job queues, threads/queue.c and threads/rwlock.c.  Jobs has the structure and the list
    operations, Queue the routines, the workers and main as steps, QueueSpec the
    invariant, QueueProps the properties (memory safety C3, order C7, and as lemmas
    the routines and a lost wakeup), Rwlock the second program (C18), up to the end of its
    input, where main frees the queue under its workers.

    Reference counts, threads/mutex2.c, mutex3.c and spinlock.c.  Foo has the three
    variants over one hash table in memory, FooSpec the well-formed chains, FooProps that
    the count is the number of references under every interleaving (C11; a lemma for
    the other two).

    Printing, printer/.  PrintReq (messages, configuration), PrintClient (print.c), Ipp
    (the IPP and HTTP headers), PrinterStatus (the printer's answer), Printd (the daemon:
    client threads, queue, spool directory, printer thread, restart), PrintdSpec,
    PrintdRestart and PrintdPrint (lemmas), PrintdProps (properties).  For a client that
    is alone a job is accepted with all that arrived before the first silence, error or end,
    or rejected without a trace (C4), and after a crash at any system call the restart queues
    it whole or not at all (C8), print and printd agree (C9), a round of the printer
    thread drops a job only when its document cannot be opened (C10), what the printer gets (C19), the reading of its answer (C20),
    the IPP header (C38, C39); job numbers, the list of workers and the configuration are
    lemmas.

    Semaphores, lib/semaph.c.  Semaph has the routines as trees of system calls over a
    model of semop, semget and semctl with SEM_UNDO; SemaphProps the invariant of any
    number of processes below BIGCOUNT (C12) and two races.

    Open server, ipc2/opend, ipc2/open, ipc2/open_server and lib/.  FdPass (send_fd, send_err,
    recv_fd), OpenArgs (buf_args in both versions), OpenServer (clients, requests, the
    select loop), OpenPoll (the poll loop), OpenClient (csopen), OpenConn (serv_listen,
    serv_accept, cli_conn), OpenDaemon (ipc2/open_server, a second server); FdPassSpec and
    OpenArgsSpec hold lemmas, OpenProps, OpenLoop, OpenPoll, OpenConn and DaemonProps the
    properties: opening through the server (C13), the invariant of the loop (C14), the second
    server against the first (C37).  What the servers leave undefined is undefined in the
    model (a message used as a format, FD_SET beyond FD_SETSIZE, the name of a client's
    socket in eight bytes), and the properties say where that is.

    Pseudo terminals, lib/ptyopen.c, lib/ptyfork.c and pty/.  Pty has opening, forking, the
    driver and main; each process that comes out of a fork is a run of the routine with the
    value fork returns there.  PtyProps: which descriptors, terminal and settings each of the
    three processes has, whatever call fails (C16).  PtyLoop has the two processes of loop with
    the user, the slave and SIGTERM as moves; PtyLoopProps the invariant and the bound on the
    moves (C15), and four schedules in which bytes or signals are lost.

    Terminals: Tty and TtyProps (lib/ttymodes.c, set_noecho of pty/main.c, termios/getpass.c:
    a mode is entered completely or not at all, C24); Ttyname
    (termios/ttyname.c against a search of /dev level by level, C36).

    Signals: Signals has a model of actions, masks, pending signals and the alarm of one
    process, driven by a script of what happens during each system call, and on top of it
    signal, signal_intr and sleep of lib/, both versions of system and abort.  SignalsProps
    (system C26, sleep C27), AbortProps (abort C28), Sigset (signals/setops.c: insertion,
    removal and membership of a finite set).

    Processes: Popen and PopenProps (lib/popen.c, lib/openmax.c, C25), Daemonize and
    DaemonizeProps (the three versions of daemonize, C29; the lock file of daemons/init.c,
    C30), TellWait and TellWaitProps (TELL and WAIT with signals and with pipes, ipc1/devzero.c,
    C31).

    Network: Servers has initserver in three versions, the loops that accept and answer, the
    servers that wait for several sockets with select, and the client that connects with
    exponential backoff; ServersProps their properties (C32, C33).  The class [Service] is what the
    loops rely on in the routine that answers a connection.

    Others: Fmemopen and FmemProps (exercises/fmemopen.c, C21); Ftw and FtwProps (filedir/ftw8.c:
    the walk visits the files of a tree in preorder, those that cannot be read twice, C22); Aio and AioProps (advio/rot13c2.c: however
    the requests complete, C23); Err and ErrProps (lib/error.c, errorlog.c, strerror.c, C40);
    Timeout (threadctl/timeout.c, detach.c, C35); Condvar
    (threads/condvar.c: no wakeup is lost, C34); Getenv
    (threadctl/getenv1.c, getenv2.c, getenv3.c against a reference); SemPair
    (exercises/test_15.15.c: parent and child take turns with semaphores, and the SEM_UNDO
    that can leave the parent waiting); Pollmsg (exercises/pollmsg2.c and
    ipc2/pollmsg.c: each message is printed once and in order); Barrier and BarrierProps (threads/barrier.c, C17:
    the size of the ranges is a parameter, heapsort(3) a function that sorts by the
    comparison it is given; at most 35 steps, three for each of eight threads and eleven
    for main).

    ** Not modelled

    - The part of each main that reads options, asks for the host name or prints messages;
      main of ipc2/opend, ipc2/open and ipc2/open_server, of db/t4.c and threadctl/timeout.c.
    - pthread_create and pthread_mutex_init that fail in the programs of threads/; signals in
      programs that do not wait for them; the handler for SIGCHLD and an execl that fails in
      the uptime servers.
    - standards/: generated by awk, one printf for each limit or option of the platform.
    - The branches for Solaris and BSD.
    - The programs of the other directories demonstrate one call each: fork, exec, wait,
      times and limits (proc/, environ/), single file calls (fileio/, filedir/, stdio/,
      datafiles/), FIFOs, shared memory and message queues (ipc1/, ipc2/), record locks and
      mmap (advio/), handlers and masks (signals/), thread attributes (threadctl/).  Their
      behaviour is that of the call, which is not under src/.  ipc2/opend.fe and open.fe run the
      routines of the open server in a process of its own for one client.

    Candidates that remain: ipc1/slock.c, ipc2/sendfd2.c and recvfd2.c, sockets/ruptime-dg.c and ruptimed-dg.c, advio/mcopy2.c. *)
From Stdlib Require Import Ascii ZArith Lia.
From stdpp Require Import base strings gmap option list.

(** ** Scope, notations and automation *)

Declare Scope apue_scope.
Delimit Scope apue_scope with apue.
Global Open Scope apue_scope.
Global Open Scope Z_scope.

Create HintDb apue discriminated.
Create Rewrite HintDb len.

(** A C [char] is an 8-bit unit; a byte sequence is a list of them. *)
Abbreviation char := Ascii.ascii.
Abbreviation bytes := (list Ascii.ascii).

(** The value of a byte seen through [unsigned char]. *)
Definition char_u (c : char) : Z := Z.of_N (Ascii.N_of_ascii c).

(** The value of a byte seen through a (signed) [char], as on the platforms
    the code targets. *)
Definition char_s (c : char) : Z :=
  let u := char_u c in if u <? 128 then u else u - 256.

(** Storing an integer into a [char]: reduction modulo 256. *)
Definition to_char (z : Z) : char := Ascii.ascii_of_N (Z.to_N (z mod 256)).

Definition NUL : char := to_char 0.

(** String literals of the source as byte sequences. *)
Definition str (s : string) : bytes := String.list_ascii_of_string s.

(** ** Record update

    A structure declares once how it is rebuilt from its fields ([rebuild]);
    [r <| f := v |>] then replaces one field. *)
Class Rebuild (R : Type) := rebuild : R → R.
Class Update {R T : Type} (f : R → T) := update : (T → T) → R → R.
Arguments update {R T} f {_} _ !_ / : assert.

Ltac solve_update :=
  match goal with
  | |- @Update ?R ?T ?f =>
      let e := eval unfold rebuild in (rebuild : R → R) in
      let e := lazymatch e with @rebuild _ ?i => eval unfold i in i | _ => e end in
      let e := eval hnf in e in
      let p := eval pattern f in e in
      lazymatch p with
      | (λ _, ?c) _ => fail "no field" f
      | ?b _ =>
          let g := eval cbv beta in (λ (h : T → T) (r : R), b (λ r', h (f r')) r) in
          exact g
      end
  end.

#[export] Hint Extern 1 (Update _) => solve_update : typeclass_instances.

#[warnings="-postfix-notation-not-level-1"]
Notation "r <| f := v |>" := (update f (λ _, v) r)
  (at level 12, f at next level, left associativity) : apue_scope.
#[warnings="-postfix-notation-not-level-1"]
Notation "r <| f ::= h |>" := (update f h r)
  (at level 12, f at next level, left associativity) : apue_scope.

(** ** Machine integers *)

Definition wrap_u (w z : Z) : Z := z mod 2 ^ w.
Definition wrap_s (w z : Z) : Z :=
  let m := z mod 2 ^ w in if m <? 2 ^ (w - 1) then m else m - 2 ^ w.

(** ** Programs: state, termination of the process, undefined behaviour *)

(** How the process ends: by an error routine of lib/error.c, exit or a signal. *)
Inductive fatal : Type :=
  | ErrDump (msg : string)   (* abort() with a core dump *)
  | ErrSys (msg : string)    (* exit(1), errno printed *)
  | ErrQuit (msg : string)   (* exit(1) *)
  | Exit (code : Z)          (* exit(code) *)
  | Killed (signo : Z).      (* a signal whose action is the default one *)

Inductive outcome (S A : Type) : Type :=
  | Done (a : A) (s : S)       (* the routine returned [a] *)
  | Fatal (e : fatal) (s : S)  (* the process terminated in state [s] *)
  | Undef (s : S)              (* the C program has no defined behaviour *)
  | NoFuel.                    (* the fuel of a loop of the model ran out *)
Arguments Done {S A} a s.
Arguments Fatal {S A} e s.
Arguments Undef {S A} s.
Arguments NoFuel {S A}.

Definition prog (S A : Type) : Type := S → outcome S A.

Global Instance prog_ret {S} : MRet (prog S) := λ A a s, Done a s.
Global Instance prog_bind {S} : MBind (prog S) := λ A B k m s,
  match m s with
  | Done a s' => k a s'
  | Fatal e s' => Fatal e s'
  | Undef s' => Undef s'
  | NoFuel => NoFuel
  end.

Section prog_ops.
Context {S : Type}.

Definition get : prog S S := λ s, Done s s.
Definition gets {A} (f : S → A) : prog S A := λ s, Done (f s) s.
Definition modify (f : S → S) : prog S unit := λ s, Done tt (f s).
Definition die {A} (e : fatal) : prog S A := λ s, Fatal e s.
Definition undefined {A} : prog S A := λ s, Undef s.

(** [check b e]: the guard [if (!b) err_...();] of the source. *)
Definition check (b : bool) (e : fatal) : prog S unit :=
  if b then mret tt else die e.

(** [defined b]: the statement is only defined when [b] holds. *)
Definition defined (b : bool) : prog S unit :=
  if b then mret tt else undefined.

Lemma bind_done {A B} (m : prog S A) (k : A → prog S B) s a s' :
  m s = Done a s' → (m ≫= k) s = k a s'.
Proof. unfold mbind, prog_bind. by intros ->. Qed.

Lemma bind_eq {A B} (m m' : prog S A) (k : A → prog S B) s s' :
  m s = m' s' → (m ≫= k) s = (m' ≫= k) s'.
Proof. unfold mbind, prog_bind. by intros ->. Qed.

Lemma bind_assoc {A B C} (m : prog S A) (f : A → prog S B) (g : B → prog S C) s :
  ((m ≫= f) ≫= g) s = (m ≫= (λ a, f a ≫= g)) s.
Proof. unfold mbind, prog_bind. by destruct (m s). Qed.

Lemma bind_gets {A B} (f : S → A) (k : A → prog S B) s :
  (gets f ≫= k) s = k (f s) s.
Proof. done. Qed.

Lemma bind_modify {B} (f : S → S) (k : unit → prog S B) s :
  (modify f ≫= k) s = k tt (f s).
Proof. done. Qed.

Lemma bind_ret {A B} (a : A) (k : A → prog S B) s :
  ((mret a : prog S A) ≫= k) s = k a s.
Proof. done. Qed.

Lemma bind_check_true {B} b e (k : unit → prog S B) s :
  b = true → (check b e ≫= k) s = k tt s.
Proof. by intros ->. Qed.

Lemma bind_defined_true {B} b (k : unit → prog S B) s :
  b = true → (defined b ≫= k) s = k tt s.
Proof. by intros ->. Qed.
End prog_ops.

(** ** Lists *)

(** Membership in a list that is written out. *)
Ltac in_list := first [left | right; in_list].

(** In a list without duplicates an element splits the list in one way. *)
Lemma nodup_split {A} (l1 l2 l1' l2' : list A) x :
  NoDup (l1 ++ x :: l2) → l1 ++ x :: l2 = l1' ++ x :: l2' → l1 = l1' ∧ l2 = l2'.
Proof.
  revert l1'. induction l1 as [|y l1 IH]; intros [|y' l1']; simpl; intros Hnd E.
  - by injection E.
  - injection E as -> ->. exfalso. apply NoDup_cons in Hnd as [Hx _].
    apply Hx, elem_of_app. right. left.
  - injection E as -> <-. exfalso. apply NoDup_cons in Hnd as [Hx _].
    apply Hx, elem_of_app. right. left.
  - apply NoDup_cons in Hnd as [_ Hnd]. injection E as -> E.
    by destruct (IH l1' Hnd E) as [-> ->].
Qed.

(** A sum over a list one element of which is replaced. *)
Lemma sum_insert {A} (f : A → nat) (l : list A) i x y : l !! i = Some x →
  (sum_list_with f (<[i := y]> l) + f x = sum_list_with f l + f y)%nat.
Proof.
  revert i. induction l as [|a l IH]; intros [|i] Hi; try done; simpl in *.
  - injection Hi as ->. lia.
  - specialize (IH i Hi). lia.
Qed.
