(* ===== verification/CStr.v ===== *)
(** * C strings: the part of <string.h>, <ctype.h>, <stdlib.h> and <stdio.h>
    that the programs use on byte buffers.

    A buffer is a list of bytes; the C string it holds is the prefix before the
    first NUL.  [dec], [rjust] are the conversions "%d"/"%lld" and "%*d" of
    printf, [atol] and [atoi] the decimal parsers. *)
From Stdlib Require Import Ascii ZArith Lia.
From stdpp Require Import base strings gmap option list.
From S2P Require Import Prelude.

Definition SPACE : char := " "%char.
Definition NEWLINE : char := to_char 10.

(** ** Character classes *)

Definition isdigit (c : char) : bool := (48 <=? char_u c) && (char_u c <=? 57).
Definition isspace (c : char) : bool :=
  (char_u c =? 32) || ((9 <=? char_u c) && (char_u c <=? 13)).
Definition isupper (c : char) : bool := (65 <=? char_u c) && (char_u c <=? 90).
Definition islower (c : char) : bool := (97 <=? char_u c) && (char_u c <=? 122).
Definition isalpha (c : char) : bool := isupper c || islower c.
Definition tolower (c : char) : char :=
  if isupper c then to_char (char_u c + 32) else c.

(** ** The string held by a buffer *)

Fixpoint cstr (b : bytes) : bytes :=
  match b with
  | [] => []
  | c :: b' => if decide (c = NUL) then [] else c :: cstr b'
  end.

(** A byte sequence that is the contents of a C string. *)
Definition no_nul (s : bytes) : Prop := NUL ∉ s.
Global Instance no_nul_dec s : Decision (no_nul s).
Proof. unfold no_nul. apply _. Defined.

Definition strlen (b : bytes) : nat := length (cstr b).

(** [strcmp(a, b) == 0]. *)
Definition streq (a b : bytes) : bool := bool_decide (cstr a = cstr b).

(** [strchr(b + from, c)] as an index into the buffer, for [c] other than
    NUL. *)
Fixpoint strchr (b : bytes) (c : char) : option nat :=
  match b with
  | [] => None
  | x :: b' =>
      if decide (x = NUL) then None
      else if decide (x = c) then Some 0%nat
      else S <$> strchr b' c
  end.

Definition strchr_from (b : bytes) (from : nat) (c : char) : option nat :=
  (λ i, (from + i)%nat) <$> strchr (drop from b) c.

(** [strncmp(a, b, n) == 0]: equality of the first [n] characters, stopping at
    a NUL common to both. *)
Fixpoint strneq (n : nat) (a b : bytes) : bool :=
  match n with
  | O => true
  | S n' =>
      match a, b with
      | x :: a', y :: b' =>
          if decide (x = y) then if decide (x = NUL) then true else strneq n' a' b'
          else false
      | [], y :: _ => bool_decide (y = NUL)
      | x :: _, [] => bool_decide (x = NUL)
      | [], [] => true
      end
  end.

(** ** Decimal conversions *)

Definition digit_char (d : Z) : char := to_char (48 + d).

Fixpoint dec_loop (fuel : nat) (n : Z) (acc : bytes) : bytes :=
  match fuel with
  | O => acc
  | S f =>
      let acc' := digit_char (n mod 10) :: acc in
      if n <? 10 then acc' else dec_loop f (n / 10) acc'
  end.

(** The digits of [n]: at most as many decimal digits as binary ones. *)
Definition udec (n : Z) : bytes := dec_loop (S (Z.to_nat (Z.log2 n))) n [].

Definition dec (n : Z) : bytes :=
  if n <? 0 then "-"%char :: udec (- n) else udec n.

(** "%*d": pad on the left with blanks to the given width. *)
Definition rjust (w : nat) (s : bytes) : bytes := replicate (w - length s) SPACE ++ s.

Fixpoint digits_val (acc : Z) (s : bytes) : Z :=
  match s with
  | c :: s' => if isdigit c then digits_val (10 * acc + (char_u c - 48)) s' else acc
  | [] => acc
  end.

Fixpoint skip_space (s : bytes) : bytes :=
  match s with
  | c :: s' => if isspace c then skip_space s' else s
  | [] => []
  end.

Definition strtol10 (s : bytes) : Z :=
  match skip_space s with
  | c :: s' =>
      if decide (c = "-"%char) then - digits_val 0 s'
      else if decide (c = "+"%char) then digits_val 0 s'
      else digits_val 0 (c :: s')
  | [] => 0
  end.

(** strtol clamps to the range of [long]; [atoi] truncates the result to
    [int]. *)
Definition atol (s : bytes) : Z := Z.max (- 2 ^ 63) (Z.min (2 ^ 63 - 1) (strtol10 s)).
Definition atoi (s : bytes) : Z := wrap_s 32 (atol s).

(** ** Writing into a buffer *)

(** [blit b off s] overwrites [s] at offset [off] of [b]; a gap past the end
    is filled with NUL bytes, as a write past the end of a file does. *)
Definition blit {A} (fill : A) (b : list A) (off : nat) (s : list A) : list A :=
  take off b ++ replicate (off - length b) fill ++ s ++ drop (off + length s) b.

Definition put_at (b : bytes) (off : nat) (s : bytes) : bytes := blit NUL b off s.
Definition set_at (b : bytes) (off : nat) (c : char) : bytes := put_at b off [c].

(** The bytes [off, off + n) of a buffer. *)
Definition slice {A} (off n : nat) (b : list A) : list A := take n (drop off b).

(** ** Lemmas: character values *)

Lemma char_u_range c : 0 <= char_u c < 256.
Proof.
  unfold char_u. pose proof (Ascii.N_ascii_bounded c). lia.
Qed.

Lemma char_u_to_char z : char_u (to_char z) = z mod 256.
Proof.
  unfold char_u, to_char. pose proof (Z.mod_pos_bound z 256).
  rewrite Ascii.N_ascii_embedding; lia.
Qed.

Lemma to_char_u c : to_char (char_u c) = c.
Proof.
  unfold to_char, char_u. pose proof (char_u_range c). unfold char_u in *.
  rewrite Z.mod_small by lia. rewrite N2Z.id. apply Ascii.ascii_N_embedding.
Qed.

Lemma char_u_inj a b : char_u a = char_u b → a = b.
Proof. intros H. by rewrite <- (to_char_u a), <- (to_char_u b), H. Qed.

Lemma char_u_digit d : 0 <= d < 10 → char_u (digit_char d) = 48 + d.
Proof. intros. unfold digit_char. rewrite char_u_to_char, Z.mod_small; lia. Qed.

Lemma isdigit_digit d : 0 <= d < 10 → isdigit (digit_char d) = true.
Proof. intros. unfold isdigit. rewrite char_u_digit by lia. lia. Qed.

(** ** Lemmas: decimal printing and parsing *)

Lemma dec_loop_app f n acc : dec_loop f n acc = dec_loop f n [] ++ acc.
Proof.
  revert n acc. induction f as [|f IH]; intros n acc; simpl; [done|].
  case_match; [done|]. rewrite IH. rewrite (IH _ [_]). by rewrite <- app_assoc.
Qed.

Lemma log2_div10 n : 10 <= n → Z.log2 (n / 10) < Z.log2 n.
Proof.
  intros. pose proof (Z.div_mod n 10). pose proof (Z.mod_pos_bound n 10).
  assert (Hl : Z.log2 (2 * (n / 10)) <= Z.log2 n) by (apply Z.log2_le_mono; lia).
  rewrite Z.log2_double in Hl by lia. lia.
Qed.

Lemma dec_loop_fuel f g n :
  0 <= n → (Z.to_nat (Z.log2 n) < f)%nat → (Z.to_nat (Z.log2 n) < g)%nat →
  dec_loop f n [] = dec_loop g n [].
Proof.
  revert g n. induction f as [|f IH]; intros [|g] n Hn Hf Hg; try lia; simpl.
  destruct (n <? 10) eqn:E; [done|].
  rewrite dec_loop_app, (dec_loop_app g). f_equal.
  pose proof (log2_div10 n ltac:(lia)).
  pose proof (Z.log2_nonneg n). pose proof (Z.log2_nonneg (n / 10)).
  apply IH; [apply Z.div_pos; lia | lia | lia].
Qed.

(** The recursive equation of decimal printing. *)
Lemma udec_eq n :
  0 <= n →
  udec n = if n <? 10 then [digit_char n] else udec (n / 10) ++ [digit_char (n mod 10)].
Proof.
  intros Hn. unfold udec at 1. simpl.
  destruct (n <? 10) eqn:E; [by rewrite Z.mod_small by lia|].
  rewrite dec_loop_app. f_equal. unfold udec.
  pose proof (log2_div10 n ltac:(lia)).
  pose proof (Z.log2_nonneg n). pose proof (Z.log2_nonneg (n / 10)).
  apply dec_loop_fuel; [apply Z.div_pos; lia | lia | lia].
Qed.

(** Induction along the recursion of [udec]. *)
Lemma udec_ind (P : Z → Prop) :
  (∀ n, 0 <= n < 10 → P n) →
  (∀ n, 10 <= n → P (n / 10) → P n) →
  ∀ n, 0 <= n → P n.
Proof.
  intros H0 H1 n Hn. revert Hn. pattern n. apply (well_founded_induction (Z.lt_wf 0)).
  clear n. intros n IH Hn. destruct (decide (n < 10)).
  - apply H0. lia.
  - apply H1; [lia|]. apply IH.
    + pose proof (Z.div_pos n 10). pose proof (Z.div_lt n 10). lia.
    + apply Z.div_pos; lia.
Qed.

Lemma udec_digits n : 0 <= n → Forall (λ c, isdigit c = true) (udec n).
Proof.
  revert n. apply udec_ind; intros n Hn; rewrite (udec_eq n) by lia.
  - rewrite (proj2 (Z.ltb_lt n 10)) by lia. repeat constructor. apply isdigit_digit; lia.
  - intros IH. rewrite (proj2 (Z.ltb_ge n 10)) by lia. apply Forall_app. split; [done|].
    repeat constructor. apply isdigit_digit. apply Z.mod_pos_bound; lia.
Qed.

Lemma udec_length_le n k :
  0 <= n < 10 ^ Z.of_nat k → (1 <= k)%nat → (length (udec n) <= k)%nat.
Proof.
  intros [Hn Hk] H1. revert k Hk H1.
  refine (udec_ind (λ n, ∀ k, n < 10 ^ Z.of_nat k → (1 <= k)%nat →
    (length (udec n) <= k)%nat) _ _ n Hn); clear n Hn; intros n Hn.
  - intros k Hk H1. rewrite (udec_eq n) by lia. rewrite (proj2 (Z.ltb_lt n 10)) by lia.
    simpl. lia.
  - intros IH k Hk H1. rewrite (udec_eq n) by lia. rewrite (proj2 (Z.ltb_ge n 10)) by lia.
    rewrite length_app. simpl. destruct k as [|k]; [lia|].
    destruct (decide (k = 0%nat)) as [->|]; [simpl in Hk; lia|].
    assert (length (udec (n / 10)) <= k)%nat; [|lia].
    apply IH; [|lia]. apply Z.div_lt_upper_bound; [lia|].
    by rewrite Nat2Z.inj_succ, Z.pow_succ_r in Hk by lia.
Qed.

Lemma udec_length_pos n : 0 <= n → (1 <= length (udec n))%nat.
Proof.
  intros. rewrite (udec_eq n) by lia. case_match; simpl; [lia|].
  rewrite length_app; simpl; lia.
Qed.

(** Text after a number: it must not continue the number. *)
Definition not_digit_first (s : bytes) : Prop :=
  match s with c :: _ => isdigit c = false | [] => True end.

Lemma digits_val_stop a s : not_digit_first s → digits_val a s = a.
Proof. destruct s as [|c s]; simpl; [done|]. by intros ->. Qed.

Lemma digits_val_app a s1 s2 :
  Forall (λ c, isdigit c = true) s1 →
  digits_val a (s1 ++ s2) = digits_val (digits_val a s1) s2.
Proof.
  intros H. revert a. induction H as [|c s1 Hc _ IH]; intros a; simpl; [done|].
  by rewrite Hc.
Qed.

Lemma digits_val_udec n : 0 <= n → digits_val 0 (udec n) = n.
Proof.
  revert n. apply udec_ind; intros n Hn; rewrite (udec_eq n) by lia.
  - rewrite (proj2 (Z.ltb_lt n 10)) by lia. simpl.
    rewrite isdigit_digit, char_u_digit by lia. lia.
  - intros IH. rewrite (proj2 (Z.ltb_ge n 10)) by lia.
    rewrite digits_val_app by (apply udec_digits, Z.div_pos; lia). rewrite IH. simpl.
    pose proof (Z.mod_pos_bound n 10). pose proof (Z.div_mod n 10).
    rewrite isdigit_digit, char_u_digit by lia. lia.
Qed.

Lemma isdigit_not_space c : isdigit c = true → isspace c = false.
Proof. unfold isdigit, isspace. lia. Qed.

Lemma skip_space_replicate k s : skip_space (replicate k SPACE ++ s) = skip_space s.
Proof. by induction k. Qed.

Lemma strtol10_digits s1 s2 :
  Forall (λ c, isdigit c = true) s1 → s1 ≠ [] →
  strtol10 (s1 ++ s2) = digits_val 0 (s1 ++ s2).
Proof.
  intros H Hne. destruct s1 as [|c s1]; [done|]. inversion H as [|? ? Hc _]; subst.
  unfold strtol10. simpl. rewrite isdigit_not_space by done.
  by rewrite !decide_False by (intros ->; discriminate Hc).
Qed.

Lemma strtol10_rjust w n s :
  0 <= n → not_digit_first s → strtol10 (rjust w (udec n) ++ s) = n.
Proof.
  intros Hn Hs. unfold rjust. rewrite <- app_assoc.
  unfold strtol10. rewrite skip_space_replicate.
  fold (strtol10 (udec n ++ s)). rewrite strtol10_digits.
  - rewrite digits_val_app by by apply udec_digits.
    rewrite digits_val_udec by done. by apply digits_val_stop.
  - by apply udec_digits.
  - pose proof (udec_length_pos n Hn). by destruct (udec n); simpl in *; [lia|].
Qed.

(** Parsing a printed number gives the number back. *)
Lemma atol_rjust w n s :
  0 <= n < 2 ^ 63 → not_digit_first s → atol (rjust w (dec n) ++ s) = n.
Proof.
  intros Hn Hs. unfold atol, dec. rewrite (proj2 (Z.ltb_ge n 0)) by lia.
  rewrite strtol10_rjust by (done || lia). lia.
Qed.

Lemma atol_dec n s :
  0 <= n < 2 ^ 63 → not_digit_first s → atol (dec n ++ s) = n.
Proof. intros. by apply (atol_rjust 0). Qed.

Lemma length_rjust w s : length (rjust w s) = Nat.max w (length s).
Proof. unfold rjust. rewrite length_app, length_replicate. lia. Qed.

Lemma length_rjust_dec w n :
  0 <= n < 10 ^ Z.of_nat w → (1 <= w)%nat → length (rjust w (dec n)) = w.
Proof.
  intros. rewrite length_rjust. unfold dec. rewrite (proj2 (Z.ltb_ge n 0)) by lia.
  pose proof (udec_length_le n w). lia.
Qed.

Lemma isdigit_ne c d : isdigit c = true → isdigit d = false → c ≠ d.
Proof. congruence. Qed.

Lemma udec_not_in c n : 0 <= n → isdigit c = false → c ∉ udec n.
Proof.
  intros Hn Hc Hin. pose proof (udec_digits n Hn) as HF.
  rewrite Forall_forall in HF.
  specialize (HF _ Hin). simpl in HF. congruence.
Qed.

Lemma dec_not_in c n : 0 <= n → isdigit c = false → c ∉ dec n.
Proof. intros. unfold dec. rewrite (proj2 (Z.ltb_ge n 0)) by lia. by apply udec_not_in. Qed.

(** ** Lemmas: strings in buffers *)

Lemma no_nul_nil : no_nul [].
Proof. unfold no_nul. apply not_elem_of_nil. Qed.

Lemma no_nul_cons c s : no_nul (c :: s) ↔ c ≠ NUL ∧ no_nul s.
Proof. unfold no_nul. rewrite not_elem_of_cons. split; intros [? ?]; auto. Qed.

Lemma no_nul_app s1 s2 : no_nul (s1 ++ s2) ↔ no_nul s1 ∧ no_nul s2.
Proof. unfold no_nul. rewrite not_elem_of_app. done. Qed.

Lemma no_nul_take n s : no_nul s → no_nul (take n s).
Proof. intros Hs Hin. apply Hs. rewrite <- (take_drop n s). apply elem_of_app. by left. Qed.
Lemma no_nul_drop n s : no_nul s → no_nul (drop n s).
Proof. intros Hs Hin. apply Hs. rewrite <- (take_drop n s). apply elem_of_app. by right. Qed.

Lemma no_nul_replicate n c : c ≠ NUL → no_nul (replicate n c).
Proof. intros Hc H. apply elem_of_replicate in H as [? _]. congruence. Qed.

Lemma no_nul_dec_str n : 0 <= n → no_nul (dec n).
Proof. intros. by apply dec_not_in. Qed.

Lemma cstr_app s r : no_nul s → cstr (s ++ NUL :: r) = s.
Proof.
  induction s as [|c s IH]; simpl; [done|]. intros [Hc Hs]%no_nul_cons.
  rewrite decide_False by done. by rewrite IH.
Qed.

Lemma cstr_id s : no_nul s → cstr s = s.
Proof.
  induction s as [|c s IH]; simpl; [done|]. intros [Hc Hs]%no_nul_cons.
  rewrite decide_False by done. by rewrite IH.
Qed.

Lemma no_nul_cstr s : no_nul (cstr s).
Proof.
  induction s as [|c s IH]; simpl; [apply no_nul_nil|].
  case_decide; [apply no_nul_nil|]. by apply no_nul_cons.
Qed.

(** Overwriting the string of a buffer with as many blanks. *)
(** ** Lines *)

(** fgets: the next at most [n] characters up to and including a newline. *)
Fixpoint fgets (n : nat) (b : bytes) : bytes * bytes :=
  match n, b with
  | S n', c :: b' =>
      if decide (c = NEWLINE) then ([c], b')
      else let '(l, r) := fgets n' b' in (c :: l, r)
  | _, _ => ([], b)
  end.

Lemma fgets_line n l r : NEWLINE ∉ l → (length l < n)%nat → fgets n (l ++ NEWLINE :: r) = (l ++ [NEWLINE], r).
Proof.
  revert n. induction l as [|c l IH]; intros [|n] Hl Hn; simpl in *; try lia.
  - done.
  - apply not_elem_of_cons in Hl as [Hc Hl]. rewrite decide_False by done. by rewrite IH by (done || lia).
Qed.

Lemma cstr_take n s : cstr (take n s) = take n (cstr s).
Proof.
  revert n. induction s as [|c s IH]; intros [|n]; simpl; [done..|].
  destruct (decide (c = NUL)); [by rewrite take_nil|]. simpl. by rewrite IH.
Qed.

Lemma cstr_split b : NUL ∈ b → ∃ r, b = cstr b ++ NUL :: r.
Proof.
  induction b as [|c b IH]; [by intros ?%not_elem_of_nil|]. intros H. simpl.
  destruct (decide (c = NUL)) as [->|Hc]; [by exists b|].
  apply elem_of_cons in H as [<-|H]; [done|]. destruct (IH H) as [r Hr]. exists r. simpl. by rewrite <- Hr.
Qed.

Lemma cstr_blank b : cstr (put_at b 0 (replicate (strlen b) SPACE)) = replicate (strlen b) SPACE.
Proof.
  unfold strlen, put_at, blit. simpl. rewrite length_replicate.
  induction b as [|c b IH]; simpl; [done|]. case_decide; simpl; [by rewrite decide_True|].
  by f_equal.
Qed.

Lemma strchr_hit s c r : no_nul s → c ∉ s → c ≠ NUL →
  strchr (s ++ c :: r) c = Some (length s).
Proof.
  intros Hs Hc Hn. induction s as [|x s IH]; simpl.
  - by rewrite decide_False, decide_True by done.
  - apply no_nul_cons in Hs as [? ?]. apply not_elem_of_cons in Hc as [? ?].
    rewrite !decide_False by done. by rewrite IH.
Qed.

Lemma strchr_miss s c r : no_nul s → c ∉ s → strchr (s ++ NUL :: r) c = None.
Proof.
  intros Hs Hc. induction s as [|x s IH]; simpl; [done|].
  apply no_nul_cons in Hs as [? ?]. apply not_elem_of_cons in Hc as [? ?].
  rewrite !decide_False by done. by rewrite IH.
Qed.

Lemma strchr_from_hit pre s c r : no_nul s → c ∉ s → c ≠ NUL →
  strchr_from (pre ++ s ++ c :: r) (length pre) c = Some (length pre + length s)%nat.
Proof.
  intros. unfold strchr_from. rewrite drop_app_length. by rewrite strchr_hit.
Qed.

Lemma strchr_from_miss pre s c r : no_nul s → c ∉ s →
  strchr_from (pre ++ s ++ NUL :: r) (length pre) c = None.
Proof.
  intros. unfold strchr_from. rewrite drop_app_length. by rewrite strchr_miss.
Qed.

(** ** Lemmas: overwriting and reading parts of a buffer *)

Section blit.
Context {A : Type} (fill : A).
Implicit Types b s a c m : list A.

Lemma blit_split a m c s off :
  length a = off → length m = length s → blit fill (a ++ m ++ c) off s = a ++ s ++ c.
Proof.
  intros <- Hm. unfold blit. rewrite take_app_length. f_equal.
  rewrite length_app. replace (_ - _)%nat with 0%nat by lia. simpl. f_equal.
  rewrite drop_app. rewrite drop_ge by lia. simpl.
  rewrite drop_app_length' by lia. done.
Qed.

Lemma blit_prefix m c s : length m = length s → blit fill (m ++ c) 0 s = s ++ c.
Proof. intros. by apply (blit_split [] m c s). Qed.

Lemma blit_end b s off : length b = off → blit fill b off s = b ++ s.
Proof.
  intros <-. unfold blit. rewrite firstn_all. f_equal.
  rewrite Nat.sub_diag. simpl. rewrite drop_ge by lia. by rewrite app_nil_r.
Qed.

Lemma length_blit b off s :
  length (blit fill b off s) = Nat.max (length b) (off + length s).
Proof.
  unfold blit. rewrite !length_app, length_take, length_replicate, length_drop. lia.
Qed.

Lemma slice_split a m c off n :
  length a = off → length m = n → slice off n (a ++ m ++ c) = m.
Proof.
  intros <- <-. unfold slice. rewrite drop_app_length. by rewrite take_app_length.
Qed.

Lemma slice_all b n : (length b <= n)%nat → slice 0 n b = b.
Proof. intros. unfold slice. rewrite drop_0. by apply take_ge. Qed.
End blit.

Lemma put_at_split a m c s off :
  length a = off → length m = length s → put_at (a ++ m ++ c) off s = a ++ s ++ c.
Proof. apply blit_split. Qed.

Lemma put_at_0 b s : put_at b 0 s = s ++ drop (length s) b.
Proof. unfold put_at, blit. by rewrite take_0. Qed.

Lemma set_at_split a x c y off :
  length a = off → set_at (a ++ x :: c) off y = a ++ y :: c.
Proof. intros. by apply (put_at_split a [x] c [y]). Qed.

#[export] Hint Resolve no_nul_nil no_nul_cstr no_nul_dec_str : apue.
#[export] Hint Rewrite @length_app @length_cons @length_replicate @length_take
  @length_drop @length_rjust : len.

(** A constant string without NULs. *)
Ltac no_nul_const := apply (bool_decide_unpack (no_nul _)); vm_compute; exact I.
