(* ===== verification/PosixFile.v ===== *)
(** * Regular files: what open(2), lseek(2), read(2), write(2) and fcntl(2)
    record locks do for the programs of the collection.

    A descriptor on a regular file is the file's bytes and the current offset.
    The calls follow POSIX for regular files with room on the device: a read
    returns the bytes available from the offset on, a write past the end first
    fills the gap with NUL bytes, a seek to a negative offset fails. *)
From Stdlib Require Import Ascii ZArith Lia.
From stdpp Require Import base strings gmap option list.
From S2P Require Import Prelude CStr.

Record file := File { fdata : bytes; fpos : Z }.

Inductive whence := SEEK_SET | SEEK_CUR | SEEK_END.
Global Instance whence_eq_dec : EqDecision whence.
Proof. solve_decision. Defined.

Definition fsize (f : file) : Z := Z.of_nat (length (fdata f)).

(** lseek: the new offset, or -1 with the offset unchanged. *)
Definition f_lseek (off : Z) (wh : whence) (f : file) : Z * file :=
  let p := match wh with
           | SEEK_SET => off
           | SEEK_CUR => fpos f + off
           | SEEK_END => fsize f + off
           end in
  if p <? 0 then (-1, f) else (p, File (fdata f) p).

(** read (and readv into consecutive buffers): the bytes read. *)
Definition f_read (n : Z) (f : file) : bytes * file :=
  let b := slice (Z.to_nat (fpos f)) (Z.to_nat n) (fdata f) in
  (b, File (fdata f) (fpos f + Z.of_nat (length b))).

(** write (and writev of consecutive buffers): the count written. *)
Definition f_write (s : bytes) (f : file) : Z * file :=
  let n := Z.of_nat (length s) in
  (n, File (put_at (fdata f) (Z.to_nat (fpos f)) s) (fpos f + n)).

(** The types of files in st_mode. *)
Definition S_IFMT : Z := 61440.
Definition S_IFSOCK : Z := 49152.
Definition S_IFLNK : Z := 40960.
Definition S_IFREG : Z := 32768.
Definition S_IFBLK : Z := 24576.
Definition S_IFDIR : Z := 16384.
Definition S_IFCHR : Z := 8192.
Definition S_IFIFO : Z := 4096.

(** ** The directory: path names to contents, and open(2) on it *)

Record oflags := OFlags { o_creat : bool; o_trunc : bool; o_excl : bool }.

Definition fs := gmap bytes bytes.

(** [open]: [None] when the call fails (no such file without O_CREAT, or the
    file exists and O_EXCL is given with O_CREAT). *)
Definition f_open (d : gmap bytes bytes) (path : bytes) (fl : oflags) :
    option (file * gmap bytes bytes) :=
  match d !! path with
  | Some b =>
      if o_creat fl && o_excl fl then None
      else let b' := if o_trunc fl then [] else b in
           Some (File b' 0, <[path := b']> d)
  | None => if o_creat fl then Some (File [] 0, <[path := []]> d) else None
  end.

(** ** Lemmas *)

Lemma f_lseek_set off f : 0 <= off → f_lseek off SEEK_SET f = (off, File (fdata f) off).
Proof. intros. unfold f_lseek. by rewrite (proj2 (Z.ltb_ge off 0)) by lia. Qed.

Lemma f_lseek_cur f : 0 <= fpos f → f_lseek 0 SEEK_CUR f = (fpos f, f).
Proof.
  intros. unfold f_lseek. rewrite Z.add_0_r, (proj2 (Z.ltb_ge _ 0)) by lia.
  by destruct f.
Qed.

Lemma f_lseek_end f : f_lseek 0 SEEK_END f = (fsize f, File (fdata f) (fsize f)).
Proof.
  unfold f_lseek. rewrite Z.add_0_r. unfold fsize.
  by rewrite (proj2 (Z.ltb_ge _ 0)) by lia.
Qed.

(** Reading the middle part [m] of a file. *)
Lemma f_read_split a m c n :
  n = Z.of_nat (length m) →
  f_read n (File (a ++ m ++ c) (Z.of_nat (length a)))
  = (m, File (a ++ m ++ c) (Z.of_nat (length a + length m))).
Proof.
  intros ->. unfold f_read. simpl. rewrite !Nat2Z.id.
  rewrite slice_split by done. f_equal. f_equal. lia.
Qed.

Lemma f_read_eof a n : f_read n (File a (Z.of_nat (length a))) = ([], File a (Z.of_nat (length a))).
Proof.
  unfold f_read. simpl. rewrite Nat2Z.id. unfold slice. rewrite drop_all.
  rewrite take_nil. simpl. by rewrite Z.add_0_r.
Qed.

(** Overwriting the middle part of a file with bytes of the same length. *)
Lemma f_write_split a m c s :
  length m = length s →
  f_write s (File (a ++ m ++ c) (Z.of_nat (length a)))
  = (Z.of_nat (length s), File (a ++ s ++ c) (Z.of_nat (length a + length s))).
Proof.
  intros Hm. unfold f_write. simpl. rewrite Nat2Z.id.
  rewrite put_at_split by done. f_equal. f_equal. lia.
Qed.

Lemma f_write_end a s :
  f_write s (File a (Z.of_nat (length a)))
  = (Z.of_nat (length s), File (a ++ s) (Z.of_nat (length a + length s))).
Proof.
  unfold f_write. simpl. rewrite Nat2Z.id. unfold put_at. rewrite blit_end by done.
  f_equal. f_equal. lia.
Qed.
