(* ===== verification/Db.v ===== *)
(** * The database library, db/db.c: data and operations.

    One Definition or Fixpoint per function of db.c.  A [dbw] is everything one
    open handle can reach: the index and data files with the descriptor's
    offset, the record locks the process holds, the DB structure and errno. *)
From Stdlib Require Import Ascii ZArith Lia.
From stdpp Require Import base strings gmap option list.
From S2P Require Import Prelude CStr PosixFile.

(** ** Constants (db.c, apue_db.h) *)

Definition IDXLEN_SZ : nat := 4.
Definition SEP : char := ":"%char.
Definition PTR_SZ : nat := 7.
Definition PTR_MAX : Z := 9999999.
Definition NHASH_DEF : Z := 137.
Definition FREE_OFF : Z := 0.
Definition HASH_OFF : Z := Z.of_nat PTR_SZ.

Definition DB_INSERT : Z := 1.
Definition DB_REPLACE : Z := 2.
Definition DB_STORE : Z := 3.
Definition IDXLEN_MIN : Z := 6.
Definition IDXLEN_MAX : Z := 1024.
Definition DATLEN_MIN : Z := 2.
Definition DATLEN_MAX : Z := 1024.

Definition EINVAL : Z := 22.
Definition ENOENT : Z := 2.

(** ** State *)

(** The DB structure; [idxbuf] and [datbuf] are the contents of the malloc'ed
    buffers. *)
Record DB := mkDB {
  idxbuf : bytes;
  datbuf : bytes;
  name : bytes;
  idxoff : Z;
  idxlen : Z;
  datoff : Z;
  datlen : Z;
  ptrval : Z;
  ptroff : Z;
  chainoff : Z;
  hashoff : Z;
  nhash : Z;
  cnt_delok : Z;
  cnt_delerr : Z;
  cnt_fetchok : Z;
  cnt_fetcherr : Z;
  cnt_nextrec : Z;
  cnt_stor1 : Z;
  cnt_stor2 : Z;
  cnt_stor3 : Z;
  cnt_stor4 : Z;
  cnt_storerr : Z }.

#[export] Instance DB_rebuild : Rebuild DB := λ d,
  mkDB (idxbuf d) (datbuf d) (name d) (idxoff d) (idxlen d) (datoff d) (datlen d)
    (ptrval d) (ptroff d) (chainoff d) (hashoff d) (nhash d) (cnt_delok d)
    (cnt_delerr d) (cnt_fetchok d) (cnt_fetcherr d) (cnt_nextrec d) (cnt_stor1 d)
    (cnt_stor2 d) (cnt_stor3 d) (cnt_stor4 d) (cnt_storerr d).

(** The two descriptors of a handle. *)
Inductive fdsel := IDX | DAT.
Global Instance fdsel_eq_dec : EqDecision fdsel.
Proof. solve_decision. Defined.

Inductive locktype := RDLCK | WRLCK.
Global Instance locktype_eq_dec : EqDecision locktype.
Proof. solve_decision. Defined.

(** A record lock held by the process: file, type, first byte and length
    (0: to the end of the file). *)
Record flock := Flock { l_file : fdsel; l_type : locktype; l_start : Z; l_len : Z }.
Global Instance flock_eq_dec : EqDecision flock.
Proof. solve_decision. Defined.

Record dbw := mkW {
  w_idx : file;
  w_dat : file;
  w_locks : list flock;
  w_db : DB;
  w_errno : Z }.

#[export] Instance dbw_rebuild : Rebuild dbw := λ w,
  mkW (w_idx w) (w_dat w) (w_locks w) (w_db w) (w_errno w).

(** ** System calls on the handle's descriptors *)

Definition dbget {A} (f : DB → A) : prog dbw A := gets (λ w, f (w_db w)).
Definition dbset (f : DB → DB) : prog dbw unit := modify (λ w, w <| w_db ::= f |>).
Definition set_errno (e : Z) : prog dbw unit := modify (λ w, w <| w_errno := e |>).

Definition on_fd (s : fdsel) (f : file → file) (w : dbw) : dbw :=
  match s with IDX => w <| w_idx ::= f |> | DAT => w <| w_dat ::= f |> end.
Definition the_fd (s : fdsel) (w : dbw) : file :=
  match s with IDX => w_idx w | DAT => w_dat w end.

Definition lseek (s : fdsel) (off : Z) (wh : whence) : prog dbw Z := λ w,
  let '(r, f) := f_lseek off wh (the_fd s w) in Done r (on_fd s (λ _, f) w).
Definition read (s : fdsel) (n : Z) : prog dbw bytes := λ w,
  let '(b, f) := f_read n (the_fd s w) in Done b (on_fd s (λ _, f) w).
Definition write (s : fdsel) (b : bytes) : prog dbw Z := λ w,
  let '(r, f) := f_write b (the_fd s w) in Done r (on_fd s (λ _, f) w).

(** F_SETLKW, once granted: the range is locked with the new type. *)
Definition lock_reg (s : fdsel) (ty : locktype) (off len : Z) : prog dbw unit :=
  modify (λ w, w <| w_locks ::= λ ls,
    Flock s ty off len ::
    filter (λ l, ¬ (l_file l = s ∧ l_start l = off ∧ l_len l = len)) ls |>).
Definition un_lock (s : fdsel) (off len : Z) : prog dbw unit :=
  modify (λ w, w <| w_locks ::=
    filter (λ l, ¬ (l_file l = s ∧ l_start l = off ∧ l_len l = len)) |>).
Definition writew_lock (s : fdsel) := lock_reg s WRLCK.
Definition readw_lock (s : fdsel) := lock_reg s RDLCK.

(** ** _db_hash *)

Fixpoint hash_loop (i hval : Z) (key : bytes) : Z :=
  match key with
  | [] => hval
  | c :: key' => hash_loop (i + 1) (wrap_u 64 (hval + wrap_s 32 (char_s c * i))) key'
  end.

Definition _db_hash (d : DB) (key : bytes) : Z := hash_loop 1 0 (cstr key) mod nhash d.

(** ** Chain pointers *)

Definition _db_readptr (offset : Z) : prog dbw Z :=
  p ← lseek IDX offset SEEK_SET;
  check (negb (p =? -1)) (ErrDump "_db_readptr: lseek error to ptr field") ;;
  b ← read IDX (Z.of_nat PTR_SZ);
  check (Z.of_nat (length b) =? Z.of_nat PTR_SZ)
    (ErrDump "_db_readptr: read error of ptr field") ;;
  mret (atol (b ++ [NUL])).

Definition _db_writeptr (offset ptrval : Z) : prog dbw unit :=
  check ((0 <=? ptrval) && (ptrval <=? PTR_MAX)) (ErrQuit "_db_writeptr: invalid ptr") ;;
  p ← lseek IDX offset SEEK_SET;
  check (negb (p =? -1)) (ErrDump "_db_writeptr: lseek error to ptr field") ;;
  n ← write IDX (take PTR_SZ (rjust PTR_SZ (dec ptrval)));
  check (n =? Z.of_nat PTR_SZ) (ErrDump "_db_writeptr: write error of ptr field").

(** ** _db_readidx *)

(** The part after the length field: read the record into [idxbuf], replace the
    newline and the separators by NUL and parse the data offset and length. *)
Definition readidx_body : prog dbw unit :=
  len ← dbget idxlen;
  b ← read IDX len;
  dbset (λ d, d <| idxbuf ::= λ buf, put_at buf 0 b |>) ;;
  check (Z.of_nat (length b) =? len) (ErrDump "_db_readidx: read error of index record") ;;
  buf ← dbget idxbuf;
  let last := Z.to_nat (len - 1) in
  check (bool_decide (buf !! last = Some NEWLINE)) (ErrDump "_db_readidx: missing newline") ;;
  let buf := set_at buf last NUL in
  dbset (λ d, d <| idxbuf := buf |>) ;;
  match strchr_from buf 0 SEP with
  | None => die (ErrDump "_db_readidx: missing first separator")
  | Some i1 =>
      let buf := set_at buf i1 NUL in
      dbset (λ d, d <| idxbuf := buf |>) ;;
      let ptr1 := S i1 in
      match strchr_from buf ptr1 SEP with
      | None => die (ErrDump "_db_readidx: missing second separator")
      | Some i2 =>
          let buf := set_at buf i2 NUL in
          let ptr2 := S i2 in
          dbset (λ d, d <| idxbuf := buf |>) ;;
          check (bool_decide (strchr_from buf ptr2 SEP = None))
            (ErrDump "_db_readidx: too many separators") ;;
          let doff := atol (drop ptr1 buf) in
          dbset (λ d, d <| datoff := doff |>) ;;
          check (0 <=? doff) (ErrDump "_db_readidx: starting offset < 0") ;;
          let dlen := wrap_u 64 (atol (drop ptr2 buf)) in
          dbset (λ d, d <| datlen := dlen |>) ;;
          check ((0 <? dlen) && (dlen <=? DATLEN_MAX)) (ErrDump "_db_readidx: invalid length")
      end
  end.

Definition _db_readidx (offset : Z) : prog dbw Z :=
  p ← lseek IDX offset (if offset =? 0 then SEEK_CUR else SEEK_SET);
  dbset (λ d, d <| idxoff := p |>) ;;
  check (negb (p =? -1)) (ErrDump "_db_readidx: lseek error") ;;
  hd ← read IDX (Z.of_nat (PTR_SZ + IDXLEN_SZ));
  if negb (Z.of_nat (length hd) =? Z.of_nat (PTR_SZ + IDXLEN_SZ)) then
    if (Z.of_nat (length hd) =? 0) && (offset =? 0) then mret (-1)
    else die (ErrDump "_db_readidx: readv error of index record")
  else
    let pv := atol (take PTR_SZ hd ++ [NUL]) in
    dbset (λ d, d <| ptrval := pv |>) ;;
    let len := wrap_u 64 (atoi (drop PTR_SZ hd ++ [NUL])) in
    dbset (λ d, d <| idxlen := len |>) ;;
    check ((IDXLEN_MIN <=? len) && (len <=? IDXLEN_MAX)) (ErrDump "_db_readidx: invalid length") ;;
    readidx_body ;;
    mret pv.

(** ** _db_readdat *)

Definition _db_readdat : prog dbw bytes :=
  off ← dbget datoff;
  p ← lseek DAT off SEEK_SET;
  check (negb (p =? -1)) (ErrDump "_db_readdat: lseek error") ;;
  len ← dbget datlen;
  b ← read DAT len;
  dbset (λ d, d <| datbuf ::= λ buf, put_at buf 0 b |>) ;;
  check (Z.of_nat (length b) =? len) (ErrDump "_db_readdat: read error") ;;
  buf ← dbget datbuf;
  let last := Z.to_nat (len - 1) in
  check (bool_decide (buf !! last = Some NEWLINE)) (ErrDump "_db_readdat: missing newline") ;;
  dbset (λ d, d <| datbuf := set_at buf last NUL |>) ;;
  buf ← dbget datbuf;
  mret (cstr buf).

(** ** Writing records *)

(** The C library's sprintf when a string it is given is the destination itself:
    [true] for a library that has read the string before it is overwritten; the
    language leaves the case undefined ([false]). *)
Class Libc := sprintf_self : bool.

Section writing.
Context `{Libc}.

Definition _db_writedat (data : bytes) (offset : Z) (wh : whence) : prog dbw unit :=
  (if decide (wh = SEEK_END) then writew_lock DAT 0 0 else mret tt) ;;
  p ← lseek DAT offset wh;
  dbset (λ d, d <| datoff := p |>) ;;
  check (negb (p =? -1)) (ErrDump "_db_writedat: lseek error") ;;
  let len := Z.of_nat (strlen data) + 1 in
  dbset (λ d, d <| datlen := len |>) ;;
  n ← write DAT (cstr data ++ [NEWLINE]);
  check (n =? len) (ErrDump "_db_writedat: writev error of data record") ;;
  (if decide (wh = SEEK_END) then un_lock DAT 0 0 else mret tt).

(** The size of the malloc'ed [idxbuf]. *)
Definition IDXBUF_SZ : Z := IDXLEN_MAX + 2.

(** The argument [key] of _db_writeidx: a string of the caller, or [db->idxbuf], the
    buffer the record is formatted into (_db_dodelete). *)
Inductive keyarg := KeyStr (k : bytes) | KeyBuf.

Definition key_bytes (k : keyarg) (d : DB) : bytes :=
  match k with KeyStr s => s | KeyBuf => idxbuf d end.

(** sprintf with a string that lies in its destination is undefined in C: unless the
    library is known to read it first, the call leaves the defined behaviour. *)
Definition key_defined (k : keyarg) : bool :=
  match k with KeyStr _ => true | KeyBuf => sprintf_self end.

Definition _db_writeidx (key : keyarg) (offset : Z) (wh : whence) (pv : Z) : prog dbw unit :=
  dbset (λ d, d <| ptrval := pv |>) ;;
  check ((0 <=? pv) && (pv <=? PTR_MAX)) (ErrQuit "_db_writeidx: invalid ptr") ;;
  doff ← dbget datoff;
  dlen ← dbget datlen;
  k ← dbget (key_bytes key);
  defined (key_defined key) ;;
  let rec := cstr k ++ [SEP] ++ dec doff ++ [SEP] ++ dec dlen ++ [NEWLINE] in
  defined (Z.of_nat (length rec) + 1 <=? IDXBUF_SZ) ;;
  dbset (λ d, d <| idxbuf ::= λ buf, put_at buf 0 (rec ++ [NUL]) |>) ;;
  buf ← dbget idxbuf;
  let len := Z.of_nat (strlen buf) in
  check ((IDXLEN_MIN <=? len) && (len <=? IDXLEN_MAX)) (ErrDump "_db_writeidx: invalid length") ;;
  let asciiptrlen := rjust PTR_SZ (dec pv) ++ rjust IDXLEN_SZ (dec len) in
  nh ← dbget nhash;
  let lockoff := (nh + 1) * Z.of_nat PTR_SZ + 1 in
  (if decide (wh = SEEK_END) then writew_lock IDX lockoff 0 else mret tt) ;;
  p ← lseek IDX offset wh;
  dbset (λ d, d <| idxoff := p |>) ;;
  check (negb (p =? -1)) (ErrDump "_db_writeidx: lseek error") ;;
  n ← write IDX (take (PTR_SZ + IDXLEN_SZ) asciiptrlen ++ take (Z.to_nat len) buf);
  check (n =? Z.of_nat (PTR_SZ + IDXLEN_SZ) + len)
    (ErrDump "_db_writeidx: writev error of index record") ;;
  (if decide (wh = SEEK_END) then un_lock IDX lockoff 0 else mret tt).

(** ** _db_find_and_lock *)

(** The walk along a hash chain.  The fuel bounds the number of records
    visited. *)
Fixpoint find_loop (fuel : nat) (key : bytes) (offset : Z) : prog dbw Z :=
  if offset =? 0 then mret 0
  else match fuel with
  | O => λ _, NoFuel
  | S f =>
      nextoffset ← _db_readidx offset;
      buf ← dbget idxbuf;
      if streq buf key then mret offset
      else dbset (λ d, d <| ptroff := offset |>) ;; find_loop f key nextoffset
  end.

(** Enough for any chain without a cycle: its records start at distinct bytes
    of the index file. *)
Definition chain_fuel (w : dbw) : nat := S (length (fdata (w_idx w))).

Definition _db_find_and_lock (key : bytes) (writelock : bool) : prog dbw Z :=
  dbset (λ d, d <| chainoff := _db_hash d key * Z.of_nat PTR_SZ + hashoff d |>) ;;
  dbset (λ d, d <| ptroff := chainoff d |>) ;;
  co ← dbget chainoff;
  (if writelock then writew_lock IDX co 1 else readw_lock IDX co 1) ;;
  po ← dbget ptroff;
  offset ← _db_readptr po;
  fuel ← gets chain_fuel;
  offset ← find_loop fuel key offset;
  mret (if offset =? 0 then -1 else 0).

(** ** db_fetch *)

Definition cnt_inc (n : Z) : Z := wrap_u 64 (n + 1).

Definition db_fetch (key : bytes) : prog dbw (option bytes) :=
  r ← _db_find_and_lock key false;
  ptr ← (if r <? 0 then
           dbset (λ d, d <| cnt_fetcherr ::= cnt_inc |>) ;; mret None
         else
           p ← _db_readdat;
           dbset (λ d, d <| cnt_fetchok ::= cnt_inc |>) ;; mret (Some p));
  co ← dbget chainoff;
  un_lock IDX co 1 ;;
  mret ptr.

(** ** db_delete *)

Definition _db_dodelete : prog dbw unit :=
  dlen ← dbget datlen;
  dbset (λ d, d <| datbuf ::= λ buf,
    put_at buf 0 (replicate (Z.to_nat (dlen - 1)) SPACE ++ [NUL]) |>) ;;
  dbset (λ d, d <| idxbuf ::= λ buf, put_at buf 0 (replicate (strlen buf) SPACE) |>) ;;
  writew_lock IDX FREE_OFF 1 ;;
  dbuf ← dbget datbuf;
  doff ← dbget datoff;
  _db_writedat dbuf doff SEEK_SET ;;
  freeptr ← _db_readptr FREE_OFF;
  saveptr ← dbget ptrval;
  ioff ← dbget idxoff;
  _db_writeidx KeyBuf ioff SEEK_SET freeptr ;;
  ioff ← dbget idxoff;
  _db_writeptr FREE_OFF ioff ;;
  po ← dbget ptroff;
  _db_writeptr po saveptr ;;
  un_lock IDX FREE_OFF 1.

Definition db_delete (key : bytes) : prog dbw Z :=
  r ← _db_find_and_lock key true;
  rc ← (if r =? 0 then
          _db_dodelete ;;
          dbset (λ d, d <| cnt_delok ::= cnt_inc |>) ;; mret 0
        else
          dbset (λ d, d <| cnt_delerr ::= cnt_inc |>) ;; mret (-1));
  co ← dbget chainoff;
  un_lock IDX co 1 ;;
  mret rc.

(** ** _db_findfree *)

(** The walk along the free list: the offset of the first record of matching
    sizes (0: none) and the offset of the pointer to it. *)
Fixpoint findfree_loop (fuel : nat) (keylen : nat) (dlen saveoffset offset : Z) :
    prog dbw (Z * Z) :=
  if offset =? 0 then mret (0, saveoffset)
  else match fuel with
  | O => λ _, NoFuel
  | S f =>
      nextoffset ← _db_readidx offset;
      buf ← dbget idxbuf;
      dl ← dbget datlen;
      if bool_decide (strlen buf = keylen) && (dl =? dlen) then mret (offset, saveoffset)
      else findfree_loop f keylen dlen offset nextoffset
  end.

Definition _db_findfree (keylen : nat) (dlen : Z) : prog dbw Z :=
  writew_lock IDX FREE_OFF 1 ;;
  offset ← _db_readptr FREE_OFF;
  fuel ← gets chain_fuel;
  '(offset, saveoffset) ← findfree_loop fuel keylen dlen FREE_OFF offset;
  rc ← (if offset =? 0 then mret (-1)
        else
          pv ← dbget ptrval;
          _db_writeptr saveoffset pv ;; mret 0);
  un_lock IDX FREE_OFF 1 ;;
  mret rc.

(** ** db_store *)

(** The new record goes to the front of the hash chain. *)
Definition store_append (key data : bytes) (pv : Z) : prog dbw unit :=
  _db_writedat data 0 SEEK_END ;;
  _db_writeidx (KeyStr key) 0 SEEK_END pv ;;
  co ← dbget chainoff;
  ioff ← dbget idxoff;
  _db_writeptr co ioff.

Definition store_reuse (key data : bytes) (pv : Z) : prog dbw unit :=
  doff ← dbget datoff;
  _db_writedat data doff SEEK_SET ;;
  ioff ← dbget idxoff;
  _db_writeidx (KeyStr key) ioff SEEK_SET pv ;;
  co ← dbget chainoff;
  ioff ← dbget idxoff;
  _db_writeptr co ioff.

Definition store_notfound (key data : bytes) (flag : Z) : prog dbw Z :=
  if flag =? DB_REPLACE then
    dbset (λ d, d <| cnt_storerr ::= cnt_inc |>) ;;
    set_errno ENOENT ;;
    mret (-1)
  else
    co ← dbget chainoff;
    pv ← _db_readptr co;
    r ← _db_findfree (strlen key) (Z.of_nat (strlen data) + 1);
    (if r <? 0 then
       store_append key data pv ;;
       dbset (λ d, d <| cnt_stor1 ::= cnt_inc |>)
     else
       store_reuse key data pv ;;
       dbset (λ d, d <| cnt_stor2 ::= cnt_inc |>)) ;;
    mret 0.

Definition store_found (key data : bytes) (flag : Z) : prog dbw Z :=
  if flag =? DB_INSERT then
    dbset (λ d, d <| cnt_storerr ::= cnt_inc |>) ;;
    mret 1
  else
    dl ← dbget datlen;
    (if negb (Z.of_nat (strlen data) + 1 =? dl) then
       _db_dodelete ;;
       co ← dbget chainoff;
       pv ← _db_readptr co;
       store_append key data pv ;;
       dbset (λ d, d <| cnt_stor3 ::= cnt_inc |>)
     else
       doff ← dbget datoff;
       _db_writedat data doff SEEK_SET ;;
       dbset (λ d, d <| cnt_stor4 ::= cnt_inc |>)) ;;
    mret 0.

Definition db_store (key data : bytes) (flag : Z) : prog dbw Z :=
  if negb (flag =? DB_INSERT) && negb (flag =? DB_REPLACE) && negb (flag =? DB_STORE) then
    set_errno EINVAL ;; mret (-1)
  else
    let dlen := Z.of_nat (strlen data) + 1 in
    check (negb ((dlen <? DATLEN_MIN) || (DATLEN_MAX <? dlen)))
      (ErrDump "db_store: invalid data length") ;;
    r ← _db_find_and_lock key true;
    rc ← (if r <? 0 then store_notfound key data flag else store_found key data flag);
    co ← dbget chainoff;
    un_lock IDX co 1 ;;
    mret rc.
End writing.

(** ** db_rewind, db_nextrec *)

Definition db_rewind : prog dbw unit :=
  nh ← dbget nhash;
  let offset := (nh + 1) * Z.of_nat PTR_SZ in
  p ← lseek IDX (offset + 1) SEEK_SET;
  dbset (λ d, d <| idxoff := p |>) ;;
  check (negb (p =? -1)) (ErrDump "db_rewind: lseek error").

(** The key of a deleted record consists of blanks only. *)
Definition all_blank (s : bytes) : bool := forallb (λ c, bool_decide (c = SPACE)) s.

Fixpoint nextrec_loop (fuel : nat) : prog dbw bool :=
  match fuel with
  | O => λ _, NoFuel
  | S f =>
      r ← _db_readidx 0;
      if r <? 0 then mret false
      else
        buf ← dbget idxbuf;
        if all_blank (cstr buf) then nextrec_loop f else mret true
  end.

(** The key and the data of the next record, [None] at the end. *)
Definition db_nextrec : prog dbw (option (bytes * bytes)) :=
  readw_lock IDX FREE_OFF 1 ;;
  fuel ← gets chain_fuel;
  found ← nextrec_loop fuel;
  r ← (if found : bool then
         kbuf ← dbget idxbuf;
         ptr ← _db_readdat;
         dbset (λ d, d <| cnt_nextrec ::= cnt_inc |>) ;;
         mret (Some (cstr kbuf, ptr))
       else mret None);
  un_lock IDX FREE_OFF 1 ;;
  mret r.

(** ** db_open, db_close *)

Definition _db_alloc : DB :=
  mkDB (replicate (Z.to_nat (IDXLEN_MAX + 2)) NUL) (replicate (Z.to_nat (DATLEN_MAX + 2)) NUL)
    [] 0 0 0 0 0 0 0 0 0 0 0 0 0 0 0 0 0 0 0.

(** The initial contents of an index file: the free list pointer, the hash
    table and a newline. *)
Definition init_hash : bytes :=
  concat (replicate (Z.to_nat (NHASH_DEF + 1)) (rjust PTR_SZ (dec 0))) ++ [NEWLINE].

Definition idx_name (pathname : bytes) : bytes := pathname ++ str ".idx".
Definition dat_name (pathname : bytes) : bytes := pathname ++ str ".dat".

(** [db_open]: [None] when one of the files cannot be opened.  The directory
    is changed by open(2) whether or not the handle is returned. *)
Definition db_open (d : gmap bytes bytes) (pathname : bytes) (fl : oflags) :
    option (outcome dbw unit) * gmap bytes bytes :=
  let db := _db_alloc <| nhash := NHASH_DEF |> <| hashoff := HASH_OFF |> in
  let r1 := f_open d (idx_name pathname) fl in
  let d1 := match r1 with Some (_, d') => d' | None => d end in
  let db := db <| name := dat_name pathname |> in
  let r2 := f_open d1 (dat_name pathname) fl in
  let d2 := match r2 with Some (_, d') => d' | None => d1 end in
  match r1, r2 with
  | Some (idx, _), Some (dat, _) =>
      let init : prog dbw unit :=
        (if o_creat fl && o_trunc fl then
           writew_lock IDX 0 0 ;;
           sz ← gets (λ w, fsize (w_idx w));
           (if sz =? 0 then
              n ← write IDX init_hash;
              check (n =? Z.of_nat (length init_hash))
                (ErrDump "db_open: index file init write error")
            else mret tt) ;;
           un_lock IDX 0 0
         else mret tt) ;;
        db_rewind in
      (Some (init (mkW idx dat [] db 0)), d2)
  | _, _ => (None, d2)
  end.

(** Closing: what the files of the handle hold stays in the directory. *)
Definition db_close (d : gmap bytes bytes) (pathname : bytes) (w : dbw) : gmap bytes bytes :=
  <[dat_name pathname := fdata (w_dat w)]> (<[idx_name pathname := fdata (w_idx w)]> d).
