(* ===== verification/DbLayout.v ===== *)
(** * The bytes of a database: the index and data files as the encoding of a
    list of records, and what the byte-level routines of db.c do to it.

    [enc_idx hdr recs] is the index file with the pointers [hdr] (free list
    pointer, then the hash table) and the records [recs] in file order;
    [enc_dats recs] is the data file.  The lemmas say that reading a pointer or
    record field of db.c reads the corresponding field of the list, and that a
    write updates exactly that field. *)
From Stdlib Require Import Ascii ZArith Lia.
From stdpp Require Import base strings gmap option list.
From S2P Require Import Prelude CStr PosixFile Db.

(** ** Layout *)

Record irec := mkRec { r_ptr : Z; r_key : bytes; r_datoff : Z; r_data : bytes }.
#[export] Instance irec_rebuild : Rebuild irec := λ r,
  mkRec (r_ptr r) (r_key r) (r_datoff r) (r_data r).

Definition enc_ptr (p : Z) : bytes := rjust PTR_SZ (dec p).
Definition r_datlen (r : irec) : Z := Z.of_nat (length (r_data r)) + 1.
Definition enc_body (r : irec) : bytes :=
  r_key r ++ [SEP] ++ dec (r_datoff r) ++ [SEP] ++ dec (r_datlen r) ++ [NEWLINE].
Definition enc_tail (r : irec) : bytes :=
  rjust IDXLEN_SZ (dec (Z.of_nat (length (enc_body r)))) ++ enc_body r.
Definition enc_rec (r : irec) : bytes := enc_ptr (r_ptr r) ++ enc_tail r.
Definition enc_dat (r : irec) : bytes := r_data r ++ [NEWLINE].

Definition enc_idx (hdr : list Z) (recs : list irec) : bytes :=
  concat (enc_ptr <$> hdr) ++ [NEWLINE] ++ concat (enc_rec <$> recs).
Definition enc_dats (recs : list irec) : bytes := concat (enc_dat <$> recs).

Definition NPTR : nat := 138.
Definition HDR : nat := 967.

(** The index file offset of record [i], and the data file offset. *)
Definition rec_off (recs : list irec) (i : nat) : nat :=
  HDR + length (concat (enc_rec <$> take i recs)).
Definition dat_off (recs : list irec) (i : nat) : nat := length (enc_dats (take i recs)).

(** Where a pointer is stored: in a slot of the header or in a record. *)
Inductive ploc := HdrLoc (j : nat) | RecLoc (i : nat).
Definition loc_off (recs : list irec) (l : ploc) : nat :=
  match l with HdrLoc j => (PTR_SZ * j)%nat | RecLoc i => rec_off recs i end.
Definition loc_get (hdr : list Z) (recs : list irec) (l : ploc) : option Z :=
  match l with HdrLoc j => hdr !! j | RecLoc i => r_ptr <$> recs !! i end.
Definition set_hdr (hdr : list Z) (l : ploc) (p : Z) : list Z :=
  match l with HdrLoc j => <[j := p]> hdr | RecLoc _ => hdr end.
Definition set_recs (recs : list irec) (l : ploc) (p : Z) : list irec :=
  match l with
  | HdrLoc _ => recs
  | RecLoc i =>
      match recs !! i with Some r => <[i := r <| r_ptr := p |>]> recs | None => recs end
  end.

(** ** Well-formed contents *)

Definition ptr_ok (p : Z) : Prop := 0 <= p <= PTR_MAX.

Record rec_ok (r : irec) : Prop := {
  rok_ptr : ptr_ok (r_ptr r);
  rok_key : no_nul (r_key r);
  rok_sep : SEP ∉ r_key r;
  rok_datoff : 0 <= r_datoff r < 2 ^ 63;
  rok_data : no_nul (r_data r);
  rok_datlen : r_datlen r <= DATLEN_MAX;
  rok_len : IDXLEN_MIN <= Z.of_nat (length (enc_body r)) <= IDXLEN_MAX }.

Record shape (hdr : list Z) (recs : list irec) : Prop := {
  sh_len : length hdr = NPTR;
  sh_hdr : Forall ptr_ok hdr;
  sh_recs : Forall rec_ok recs }.

(** ** Splitting a concatenation at an element *)

Section concat.
Context {A B : Type} (f : A → list B).

Lemma concat_split l i x : l !! i = Some x →
  concat (f <$> l) = concat (f <$> take i l) ++ f x ++ concat (f <$> drop (S i) l).
Proof.
  intros H. rewrite <- (take_drop_middle l i x H) at 1.
  rewrite fmap_app, concat_app. done.
Qed.

Lemma concat_insert l i y : (i < length l)%nat →
  concat (f <$> <[i := y]> l) = concat (f <$> take i l) ++ f y ++ concat (f <$> drop (S i) l).
Proof.
  intros H. rewrite (concat_split _ i y) by by apply list_lookup_insert_eq.
  rewrite take_insert_ge by lia. rewrite drop_insert_lt by lia. done.
Qed.

Lemma concat_take_insert l i j y : length (f y) = length (from_option f [] (l !! i)) →
  length (concat (f <$> take j (<[i := y]> l))) = length (concat (f <$> take j l)).
Proof.
  intros Hl. destruct (decide (i < length l)%nat) as [Hi|]; cycle 1.
  { by rewrite list_insert_ge by lia. }
  destruct (decide (i < j)%nat).
  - apply lookup_lt_is_Some in Hi as [x Hx]. rewrite Hx in Hl. simpl in Hl.
    assert (Hi : (i < length (take j l))%nat)
      by (apply lookup_lt_Some in Hx; rewrite length_take; lia).
    rewrite take_insert_lt by lia. rewrite concat_insert by done.
    rewrite (concat_split (take j l) i x) by by rewrite lookup_take_lt.
    rewrite !length_app. lia.
  - by rewrite take_insert_ge by lia.
Qed.

Lemma concat_take_S l i x : l !! i = Some x →
  length (concat (f <$> take (S i) l)) = (length (concat (f <$> take i l)) + length (f x))%nat.
Proof.
  intros H. rewrite (take_S_r l i x) by done. rewrite fmap_app, concat_app, length_app.
  simpl. by rewrite app_nil_r.
Qed.

Lemma concat_take_mono l i j : (i <= j)%nat →
  (length (concat (f <$> take i l)) <= length (concat (f <$> take j l)))%nat.
Proof.
  intros Hij. replace (take i l) with (take i (take j l)) by (rewrite take_take; f_equal; lia).
  rewrite <- (take_drop i (take j l)) at 2.
  rewrite fmap_app, concat_app, length_app. lia.
Qed.
End concat.

(** ** Lengths *)

Lemma enc_ptr_length p : ptr_ok p → length (enc_ptr p) = PTR_SZ.
Proof.
  unfold ptr_ok, PTR_MAX. intros. apply length_rjust_dec; [|unfold PTR_SZ; lia].
  change (10 ^ Z.of_nat PTR_SZ) with 10000000. lia.
Qed.

Lemma enc_hdr_length hdr : Forall ptr_ok hdr →
  length (concat (enc_ptr <$> hdr)) = (PTR_SZ * length hdr)%nat.
Proof.
  induction 1 as [|p hdr Hp _ IH]; [done|]. csimpl.
  rewrite length_app, enc_ptr_length, IH by done. unfold PTR_SZ. simpl. lia.
Qed.

Lemma idxlen_length n : 0 <= n <= IDXLEN_MAX → length (rjust IDXLEN_SZ (dec n)) = IDXLEN_SZ.
Proof.
  unfold IDXLEN_MAX. intros. apply length_rjust_dec; [|unfold IDXLEN_SZ; lia].
  change (10 ^ Z.of_nat IDXLEN_SZ) with 10000. lia.
Qed.

Lemma enc_rec_length r : rec_ok r →
  length (enc_rec r) = (PTR_SZ + IDXLEN_SZ + length (enc_body r))%nat.
Proof.
  intros [Hp _ _ _ _ _ Hl]. unfold enc_rec, enc_tail.
  rewrite !length_app, enc_ptr_length, idxlen_length; [lia| |done].
  unfold IDXLEN_MIN, IDXLEN_MAX in *. lia.
Qed.

Lemma hdr_off hdr recs i : shape hdr recs →
  length (concat (enc_ptr <$> hdr) ++ [NEWLINE] ++ concat (enc_rec <$> take i recs))
  = rec_off recs i.
Proof.
  intros [Hn Hh _]. rewrite !length_app, enc_hdr_length, Hn by done. done.
Qed.

Lemma enc_idx_length hdr recs : shape hdr recs →
  length (enc_idx hdr recs) = rec_off recs (length recs).
Proof. intros H. rewrite <- (hdr_off hdr) by done. by rewrite firstn_all. Qed.

(** ** Pointers *)

Lemma set_ptr_ok r p : rec_ok r → ptr_ok p → rec_ok (r <| r_ptr := p |>).
Proof. intros [] ?. by split. Qed.

Lemma shape_get hdr recs l p : shape hdr recs → loc_get hdr recs l = Some p → ptr_ok p.
Proof.
  intros [_ Hh Hr]. destruct l as [j|i]; simpl.
  - intros. by eapply Forall_lookup_1.
  - intros (r & Hi & ->)%fmap_Some. by eapply Forall_lookup_1 in Hr as [].
Qed.

Lemma shape_set hdr recs l p : shape hdr recs → ptr_ok p →
  shape (set_hdr hdr l p) (set_recs recs l p).
Proof.
  intros [Hn Hh Hr] Hp. destruct l as [j|i]; simpl; split; try done.
  - by rewrite length_insert.
  - by apply Forall_insert.
  - case_match eqn:E; [|done]. apply Forall_insert; [done|].
    apply set_ptr_ok; [|done]. by eapply Forall_lookup_1.
Qed.

(** The bytes around a pointer field. *)
Lemma loc_split hdr recs l p : shape hdr recs → loc_get hdr recs l = Some p →
  ∃ a c, enc_idx hdr recs = a ++ enc_ptr p ++ c ∧ length a = loc_off recs l ∧
    ∀ p', enc_idx (set_hdr hdr l p') (set_recs recs l p') = a ++ enc_ptr p' ++ c.
Proof.
  intros Hs Hg. unfold enc_idx. destruct l as [j|i]; simpl in *.
  - exists (concat (enc_ptr <$> take j hdr)),
      (concat (enc_ptr <$> drop (S j) hdr) ++ [NEWLINE] ++ concat (enc_rec <$> recs)).
    split; [by rewrite (concat_split _ _ _ _ Hg), <- !app_assoc|]. split.
    + destruct Hs as [_ Hh _]. rewrite enc_hdr_length by by apply Forall_take.
      rewrite length_take. apply lookup_lt_Some in Hg. by rewrite Nat.min_l by lia.
    + intros p'. rewrite concat_insert by by eapply lookup_lt_Some.
      by rewrite <- !app_assoc.
  - apply fmap_Some in Hg as (r & Hi & ->).
    exists (concat (enc_ptr <$> hdr) ++ [NEWLINE] ++ concat (enc_rec <$> take i recs)),
      (enc_tail r ++ concat (enc_rec <$> drop (S i) recs)).
    split; [|split].
    + rewrite (concat_split _ _ _ _ Hi). unfold enc_rec at 2. by rewrite <- !app_assoc.
    + by apply hdr_off.
    + intros p'. rewrite Hi. rewrite concat_insert by by eapply lookup_lt_Some.
      unfold enc_rec at 2. by rewrite <- !app_assoc.
Qed.

Lemma not_digit_nul : not_digit_first [NUL].
Proof. done. Qed.

Lemma atol_enc_ptr p : ptr_ok p → atol (enc_ptr p ++ [NUL]) = p.
Proof. unfold ptr_ok, PTR_MAX. intros. apply atol_rjust; [lia|done]. Qed.

(** ** The system calls, on a file split into parts *)

Definition with_fd (s : fdsel) (f : file) (w : dbw) : dbw := on_fd s (λ _, f) w.

Lemma the_fd_with s f w : the_fd s (with_fd s f w) = f.
Proof. by destruct s. Qed.

Lemma with_fd_with s f g w : with_fd s f (with_fd s g w) = with_fd s f w.
Proof. by destruct s. Qed.

Lemma seek_set {B} s off w (k : Z → prog dbw B) : 0 <= off →
  (lseek s off SEEK_SET ≫= k) w = k off (with_fd s (File (fdata (the_fd s w)) off) w).
Proof.
  intros. erewrite bind_done; [done|]. unfold lseek. by rewrite f_lseek_set.
Qed.

Lemma seek_end {B} s w (k : Z → prog dbw B) :
  (lseek s 0 SEEK_END ≫= k) w
  = k (fsize (the_fd s w)) (with_fd s (File (fdata (the_fd s w)) (fsize (the_fd s w))) w).
Proof. erewrite bind_done; [done|]. unfold lseek. by rewrite f_lseek_end. Qed.

Lemma read_part {B} s n w (k : bytes → prog dbw B) a m c :
  the_fd s w = File (a ++ m ++ c) (Z.of_nat (length a)) → n = Z.of_nat (length m) →
  (read s n ≫= k) w
  = k m (with_fd s (File (a ++ m ++ c) (Z.of_nat (length a + length m))) w).
Proof.
  intros Hf Hn. erewrite bind_done; [done|]. unfold read. by rewrite Hf, f_read_split.
Qed.

Lemma write_part {B} s w (k : Z → prog dbw B) a m c b :
  the_fd s w = File (a ++ m ++ c) (Z.of_nat (length a)) → length m = length b →
  (write s b ≫= k) w
  = k (Z.of_nat (length b))
      (with_fd s (File (a ++ b ++ c) (Z.of_nat (length a + length b))) w).
Proof.
  intros Hf Hn. erewrite bind_done; [done|]. unfold write. by rewrite Hf, f_write_split.
Qed.

Lemma write_end {B} s w (k : Z → prog dbw B) a b :
  the_fd s w = File a (Z.of_nat (length a)) →
  (write s b ≫= k) w
  = k (Z.of_nat (length b)) (with_fd s (File (a ++ b) (Z.of_nat (length a + length b))) w).
Proof.
  intros Hf. erewrite bind_done; [done|]. unfold write. by rewrite Hf, f_write_end.
Qed.

Lemma read_at_eof {B} s n w (k : bytes → prog dbw B) a :
  the_fd s w = File a (Z.of_nat (length a)) → (read s n ≫= k) w = k [] w.
Proof.
  intros Hf. erewrite bind_done; [done|]. unfold read. rewrite Hf, f_read_eof, <- Hf.
  by destruct s, w.
Qed.

Lemma nat_not_m1 n : negb (Z.of_nat n =? -1) = true.
Proof. destruct (Z.eqb_spec (Z.of_nat n) (-1)); [lia|done]. Qed.

(** [_db_readptr] returns the stored pointer. *)
Lemma readptr_spec w hdr recs l p :
  fdata (w_idx w) = enc_idx hdr recs → shape hdr recs → loc_get hdr recs l = Some p →
  _db_readptr (Z.of_nat (loc_off recs l)) w
  = Done p (with_fd IDX (File (enc_idx hdr recs) (Z.of_nat (loc_off recs l + PTR_SZ))) w).
Proof.
  intros Hw Hs Hg. pose proof (shape_get _ _ _ _ Hs Hg) as Hp.
  destruct (loc_split _ _ _ _ Hs Hg) as (a & c & Ha & <- & _).
  unfold _db_readptr. rewrite seek_set by lia.
  rewrite bind_check_true by apply nat_not_m1.
  erewrite read_part;
    [|by rewrite the_fd_with; simpl; rewrite Hw, Ha|by rewrite enc_ptr_length].
  rewrite bind_check_true by by rewrite enc_ptr_length, Z.eqb_refl.
  unfold mret, prog_ret. rewrite atol_enc_ptr, with_fd_with, enc_ptr_length by done.
  by rewrite Ha.
Qed.

(** [_db_writeptr] replaces the stored pointer and nothing else. *)
Lemma writeptr_spec w hdr recs l p p' :
  fdata (w_idx w) = enc_idx hdr recs → shape hdr recs → loc_get hdr recs l = Some p →
  ptr_ok p' →
  _db_writeptr (Z.of_nat (loc_off recs l)) p' w
  = Done tt (with_fd IDX (File (enc_idx (set_hdr hdr l p') (set_recs recs l p'))
                               (Z.of_nat (loc_off recs l + PTR_SZ))) w).
Proof.
  intros Hw Hs Hg Hp'. pose proof (shape_get _ _ _ _ Hs Hg) as Hp.
  destruct (loc_split _ _ _ _ Hs Hg) as (a & c & Ha & <- & Hset).
  unfold _db_writeptr. rewrite bind_check_true by (unfold ptr_ok in Hp'; lia).
  rewrite seek_set by lia. rewrite bind_check_true by apply nat_not_m1.
  change (rjust PTR_SZ (dec p')) with (enc_ptr p').
  rewrite take_ge by by rewrite enc_ptr_length.
  erewrite write_part;
    [|by rewrite the_fd_with; simpl; rewrite Hw, Ha|by rewrite !enc_ptr_length].
  unfold check. rewrite enc_ptr_length, Z.eqb_refl by done.
  unfold mret, prog_ret. by rewrite with_fd_with, Hset.
Qed.

(** ** Index records *)

Lemma bind_dbset {B} f (k : unit → prog dbw B) w :
  (dbset f ≫= k) w = k tt (w <| w_db ::= f |>).
Proof. done. Qed.
Lemma bind_dbget {A B} (f : DB → A) (k : A → prog dbw B) w :
  (dbget f ≫= k) w = k (f (w_db w)) w.
Proof. done. Qed.

(** The part of the buffer that follows the string. *)
Definition after (b s : bytes) : bytes := drop (length s) b.

Lemma put_at_head b s : put_at b 0 s = s ++ after b s.
Proof. apply put_at_0. Qed.

Lemma drop_pre {A} (pre : list A) x l : drop (S (length pre)) (pre ++ x :: l) = l.
Proof. change (pre ++ x :: l) with (pre ++ [x] ++ l). rewrite app_assoc.
  rewrite drop_app_length' by (rewrite length_app; simpl; lia). done. Qed.

Lemma wrap_u_small w z : 0 <= z < 2 ^ w → wrap_u w z = z.
Proof. apply Z.mod_small. Qed.

Lemma wrap_s_small w z : 0 <= z < 2 ^ (w - 1) → 0 < w → wrap_s w z = z.
Proof.
  intros [H0 H1] Hw. unfold wrap_s.
  assert (2 ^ w = 2 * 2 ^ (w - 1)) by (rewrite <- Z.pow_succ_r by lia; f_equal; lia).
  rewrite Z.mod_small by lia. by rewrite (proj2 (Z.ltb_lt _ _)) by lia.
Qed.

(** The three fields of a record with the separators replaced. *)
Definition split_buf (r : irec) (rest : bytes) : bytes :=
  r_key r ++ NUL :: dec (r_datoff r) ++ NUL :: dec (r_datlen r) ++ NUL :: rest.

Lemma enc_body_snoc r : enc_body r =
  (r_key r ++ SEP :: dec (r_datoff r) ++ SEP :: dec (r_datlen r)) ++ [NEWLINE].
Proof. unfold enc_body. simpl. rewrite <- !app_assoc. simpl. by rewrite <- app_assoc. Qed.

Lemma datlen_pos r : 1 <= r_datlen r.
Proof. unfold r_datlen. lia. Qed.

Lemma sep_not_digit : isdigit SEP = false.
Proof. done. Qed.

(** Scanning the record finds the separators and leaves [split_buf]. *)
Lemma scan_record r rest : rec_ok r →
  let buf0 := enc_body r ++ rest in
  let last := Z.to_nat (Z.of_nat (length (enc_body r)) - 1) in
  buf0 !! last = Some NEWLINE ∧
  ∃ i1 i2,
    strchr_from (set_at buf0 last NUL) 0 SEP = Some i1 ∧
    strchr_from (set_at (set_at buf0 last NUL) i1 NUL) (S i1) SEP = Some i2 ∧
    set_at (set_at (set_at buf0 last NUL) i1 NUL) i2 NUL = split_buf r rest ∧
    strchr_from (split_buf r rest) (S i2) SEP = None ∧
    atol (drop (S i1) (split_buf r rest)) = r_datoff r ∧
    atol (drop (S i2) (split_buf r rest)) = r_datlen r.
Proof.
  intros [_ Hk Hs Ho _ Hd _] buf0 last.
  set (k := r_key r) in *. set (o := dec (r_datoff r)). set (l := dec (r_datlen r)).
  assert (Hlen : 1 <= r_datlen r < 2 ^ 63)
    by (pose proof (datlen_pos r); unfold DATLEN_MAX in Hd; lia).
  assert (Ho' : no_nul o ∧ SEP ∉ o) by (split; apply dec_not_in; (lia || done)).
  assert (Hl' : no_nul l ∧ SEP ∉ l) by (split; apply dec_not_in; (lia || done)).
  destruct Ho' as [Ho1 Ho2], Hl' as [Hl1 Hl2].
  set (pre := k ++ SEP :: o ++ SEP :: l) in *.
  assert (Hb : buf0 = pre ++ NEWLINE :: rest).
  { unfold buf0. rewrite enc_body_snoc. by rewrite <- app_assoc. }
  assert (Hlast : last = length pre).
  { unfold last. rewrite enc_body_snoc, length_app. simpl. unfold pre, k, o, l. lia. }
  rewrite Hb, Hlast, set_at_split by done.
  split; [by apply list_lookup_middle|].
  exists (length k), (length (k ++ [NUL]) + length o)%nat.
  assert (E1 : pre ++ NUL :: rest = k ++ SEP :: (o ++ SEP :: l ++ NUL :: rest)).
  { unfold pre. rewrite <- !app_assoc. simpl. by rewrite <- app_assoc. }
  assert (E2 : set_at (pre ++ NUL :: rest) (length k) NUL
               = (k ++ [NUL]) ++ o ++ SEP :: (l ++ NUL :: rest)).
  { rewrite E1, set_at_split by done. by rewrite <- app_assoc. }
  assert (E3 : set_at ((k ++ [NUL]) ++ o ++ SEP :: (l ++ NUL :: rest))
                 (length (k ++ [NUL]) + length o) NUL = split_buf r rest).
  { rewrite app_assoc, set_at_split by by rewrite length_app.
    unfold split_buf. by rewrite <- !app_assoc. }
  assert (HS : S (length k) = length (k ++ [NUL])) by (rewrite length_app; simpl; lia).
  rewrite E2, E3. split; [rewrite E1; by apply (strchr_from_hit [])|].
  split; [rewrite HS; by apply strchr_from_hit|]. split; [done|].
  assert (E4 : split_buf r rest = (k ++ NUL :: o ++ [NUL]) ++ l ++ NUL :: rest).
  { unfold split_buf. rewrite <- !app_assoc. simpl. by rewrite <- app_assoc. }
  assert (HS2 : S (length (k ++ [NUL]) + length o) = length (k ++ NUL :: o ++ [NUL])).
  { rewrite !length_app. simpl. rewrite length_app. simpl. lia. }
  rewrite HS2. split; [rewrite E4; by apply strchr_from_miss|].
  split.
  - unfold split_buf. rewrite drop_pre. apply atol_dec; [lia|done].
  - rewrite E4, drop_app_length. apply atol_dec; [lia|done].
Qed.

(** The DB structure after reading record [r] at offset [off]. *)
Definition read_db (off : nat) (r : irec) (rest : bytes) (d : DB) : DB :=
  d <| idxoff := Z.of_nat off |> <| ptrval := r_ptr r |>
    <| idxlen := Z.of_nat (length (enc_body r)) |>
    <| idxbuf := split_buf r rest |>
    <| datoff := r_datoff r |> <| datlen := r_datlen r |>.

Lemma cstr_split_buf r rest : rec_ok r → cstr (split_buf r rest) = r_key r.
Proof. intros [_ Hk _ _ _ _ _]. by apply cstr_app. Qed.

Lemma readidx_body_spec w r a c :
  rec_ok r → w_idx w = File (a ++ enc_body r ++ c) (Z.of_nat (length a)) →
  idxlen (w_db w) = Z.of_nat (length (enc_body r)) →
  readidx_body w
  = Done tt (with_fd IDX (File (a ++ enc_body r ++ c)
                 (Z.of_nat (length a + length (enc_body r)))) w
       <| w_db ::= λ d, d <| idxbuf := split_buf r (after (idxbuf (w_db w)) (enc_body r)) |>
            <| datoff := r_datoff r |> <| datlen := r_datlen r |> |>).
Proof.
  intros Hr Hf Hl. pose proof Hr as [_ _ _ Ho _ Hd _].
  destruct (scan_record r (after (idxbuf (w_db w)) (enc_body r)) Hr)
    as (Hnl & i1 & i2 & H1 & H2 & H3 & H4 & H5 & H6).
  unfold readidx_body. rewrite bind_dbget, Hl.
  erewrite read_part; [|by rewrite <- Hf|done].
  rewrite bind_dbset, bind_check_true by by rewrite Z.eqb_refl.
  rewrite bind_dbget. simpl. rewrite put_at_head.
  rewrite bind_check_true by by apply bool_decide_eq_true.
  rewrite bind_dbset. rewrite H1. rewrite bind_dbset. rewrite H2, H3.
  rewrite bind_dbset, bind_check_true by by apply bool_decide_eq_true.
  rewrite H5, H6, bind_dbset, bind_check_true by lia.
  pose proof (datlen_pos r). unfold DATLEN_MAX in *.
  rewrite wrap_u_small by lia. rewrite bind_dbset.
  unfold check. rewrite (proj2 (andb_true_iff _ _)) by lia.
  by destruct w as [? ? ? [] ?].
Qed.

(** The bytes around index record [i]. *)
Lemma rec_split hdr recs i r : shape hdr recs → recs !! i = Some r →
  ∃ a c, enc_idx hdr recs = a ++ enc_rec r ++ c ∧ length a = rec_off recs i ∧
    (length a + length (enc_rec r))%nat = rec_off recs (S i) ∧
    ∀ r', enc_idx hdr (<[i := r']> recs) = a ++ enc_rec r' ++ c.
Proof.
  intros Hs Hi. exists (concat (enc_ptr <$> hdr) ++ [NEWLINE] ++ concat (enc_rec <$> take i recs)),
    (concat (enc_rec <$> drop (S i) recs)).
  unfold enc_idx. split; [|split; [|split]].
  - by rewrite (concat_split _ _ _ _ Hi), <- !app_assoc.
  - by apply hdr_off.
  - rewrite hdr_off by done. unfold rec_off. rewrite (concat_take_S _ _ _ _ Hi). lia.
  - intros r'. rewrite concat_insert by by eapply lookup_lt_Some. by rewrite <- !app_assoc.
Qed.

Lemma rec_off_pos recs i : (HDR <= rec_off recs i)%nat.
Proof. unfold rec_off. lia. Qed.

Lemma readidx_hd r : rec_ok r →
  let hd := enc_ptr (r_ptr r) ++ rjust IDXLEN_SZ (dec (Z.of_nat (length (enc_body r)))) in
  length hd = (PTR_SZ + IDXLEN_SZ)%nat ∧
  atol (take PTR_SZ hd ++ [NUL]) = r_ptr r ∧
  wrap_u 64 (atoi (drop PTR_SZ hd ++ [NUL])) = Z.of_nat (length (enc_body r)).
Proof.
  intros [Hp _ _ _ _ _ Hl] hd. unfold IDXLEN_MIN, IDXLEN_MAX in Hl. split; [|split].
  - unfold hd. rewrite length_app, enc_ptr_length, idxlen_length by (done || unfold IDXLEN_MAX; lia).
    done.
  - unfold hd. rewrite take_app_length' by by rewrite enc_ptr_length. by apply atol_enc_ptr.
  - unfold hd. rewrite drop_app_length' by by rewrite enc_ptr_length.
    unfold atoi. rewrite atol_rjust by (lia || done).
    rewrite wrap_s_small by lia. apply wrap_u_small. lia.
Qed.

(** [_db_readidx], at a given offset or (offset 0) at the current one. *)
Lemma readidx_spec w hdr recs i r off :
  fdata (w_idx w) = enc_idx hdr recs → shape hdr recs → recs !! i = Some r →
  off = Z.of_nat (rec_off recs i) ∨ off = 0 ∧ fpos (w_idx w) = Z.of_nat (rec_off recs i) →
  _db_readidx off w
  = Done (r_ptr r)
      (with_fd IDX (File (enc_idx hdr recs) (Z.of_nat (rec_off recs (S i)))) w
         <| w_db ::= read_db (rec_off recs i) r (after (idxbuf (w_db w)) (enc_body r)) |>).
Proof.
  intros Hw Hs Hi Hoff. assert (Hr : rec_ok r) by (by eapply Forall_lookup_1; [apply Hs|]).
  destruct (rec_split _ _ _ _ Hs Hi) as (a & c & Ha & Hla & Hlen & _).
  unfold _db_readidx.
  assert (Hseek : ∀ (k : Z → prog dbw Z),
    (lseek IDX off (if off =? 0 then SEEK_CUR else SEEK_SET) ≫= k) w
    = k (Z.of_nat (length a)) (with_fd IDX (File (enc_idx hdr recs) (Z.of_nat (length a))) w)).
  { intros k. destruct Hoff as [->|[-> Hpos]].
    - pose proof (rec_off_pos recs i). unfold HDR in *.
      rewrite (proj2 (Z.eqb_neq _ 0)) by lia. rewrite seek_set by lia. simpl. by rewrite Hla, Hw.
    - erewrite bind_done; [done|]. unfold lseek. simpl.
      rewrite f_lseek_cur by lia. rewrite Hpos, <- Hla. destruct w as [[] ? ? ? ?]; simpl in *.
      by rewrite <- Hw, Hpos, Hla. }
  rewrite Hseek, bind_dbset, bind_check_true by apply nat_not_m1.
  destruct (readidx_hd r Hr) as (Hh1 & Hh2 & Hh3).
  set (hd := enc_ptr (r_ptr r) ++ rjust IDXLEN_SZ _) in *.
  assert (Ha' : enc_idx hdr recs = a ++ hd ++ (enc_body r ++ c)).
  { rewrite Ha. unfold enc_rec, enc_tail, hd. by rewrite <- !app_assoc. }
  rewrite (read_part IDX _ _ _ a hd (enc_body r ++ c)); cycle 1.
  { transitivity (File (enc_idx hdr recs) (Z.of_nat (length a))); [done|by rewrite Ha']. }
  { by rewrite Hh1. }
  rewrite Hh1, Z.eqb_refl. cbv [negb]. rewrite bind_dbset, Hh3, bind_dbset, Hh2.
  pose proof (rok_len r Hr) as Hl. rewrite bind_check_true by lia.
  erewrite bind_done; cycle 1.
  { apply (readidx_body_spec _ r (a ++ hd) c); [done| |done].
    transitivity (File (a ++ hd ++ enc_body r ++ c)
      (Z.of_nat (length a + (PTR_SZ + IDXLEN_SZ)))); [done|].
    rewrite <- app_assoc, length_app, Hh1. done. }
  unfold mret, prog_ret. f_equal. rewrite <- app_assoc, <- Ha', <- Hlen, enc_rec_length by done.
  rewrite length_app, Hh1, <- Hla, <- (Nat.add_assoc (length a)).
  by destruct w as [? ? ? [] ?].
Qed.

(** At the end of the index file [_db_readidx] (from the current offset) reports
    the end of file. *)
Lemma readidx_eof w :
  fpos (w_idx w) = fsize (w_idx w) →
  _db_readidx 0 w = Done (-1) (w <| w_db ::= λ d, d <| idxoff := fsize (w_idx w) |> |>).
Proof.
  intros Hpos. unfold _db_readidx. destruct w as [[b p] ? ? [] ?].
  unfold fsize in *. simpl in *. subst p.
  erewrite bind_done; cycle 1.
  { unfold lseek. simpl. rewrite f_lseek_cur by (simpl; lia). done. }
  rewrite bind_dbset, bind_check_true by apply nat_not_m1.
  by erewrite read_at_eof.
Qed.

(** ** The data file *)

Lemma dat_split recs i r : recs !! i = Some r →
  ∃ a c, enc_dats recs = a ++ enc_dat r ++ c ∧ length a = dat_off recs i ∧
    ∀ r', enc_dats (<[i := r']> recs) = a ++ enc_dat r' ++ c.
Proof.
  intros Hi. unfold enc_dats.
  exists (concat (enc_dat <$> take i recs)), (concat (enc_dat <$> drop (S i) recs)).
  split; [by apply concat_split|]. split; [done|].
  intros r'. by rewrite concat_insert by by eapply lookup_lt_Some.
Qed.

Lemma enc_dat_length r : Z.of_nat (length (enc_dat r)) = r_datlen r.
Proof. unfold enc_dat, r_datlen. rewrite length_app. simpl. lia. Qed.

(** [_db_readdat] returns the data of the record the DB structure points at. *)
Lemma readdat_spec w recs i r :
  fdata (w_dat w) = enc_dats recs → recs !! i = Some r → rec_ok r →
  datoff (w_db w) = Z.of_nat (dat_off recs i) → datlen (w_db w) = r_datlen r →
  _db_readdat w
  = Done (r_data r)
      (with_fd DAT (File (enc_dats recs) (Z.of_nat (dat_off recs i + length (enc_dat r)))) w
         <| w_db ::= λ d, d <| datbuf := r_data r ++ NUL :: after (datbuf (w_db w)) (enc_dat r) |> |>).
Proof.
  intros Hw Hi Hr Ho Hl. destruct (dat_split _ _ _ Hi) as (a & c & Ha & Hla & _).
  unfold _db_readdat. rewrite bind_dbget, Ho, seek_set by lia.
  rewrite bind_check_true by apply nat_not_m1. rewrite bind_dbget.
  assert (Hdl : datlen (w_db (with_fd DAT (File (fdata (the_fd DAT w))
    (Z.of_nat (dat_off recs i))) w)) = r_datlen r) by done. rewrite Hdl.
  rewrite (read_part DAT _ _ _ a (enc_dat r) c); cycle 1.
  { rewrite the_fd_with. simpl. by rewrite Hw, Ha, Hla. }
  { by rewrite enc_dat_length. }
  rewrite bind_dbset, bind_check_true by by rewrite enc_dat_length, Z.eqb_refl.
  rewrite bind_dbget.
  assert (Hb : ∀ b, put_at b 0 (enc_dat r) = r_data r ++ NEWLINE :: after b (enc_dat r)).
  { intros b. rewrite put_at_head. unfold enc_dat at 1. by rewrite <- app_assoc. }
  assert (Hlast : Z.to_nat (r_datlen r - 1) = length (r_data r)) by (unfold r_datlen; lia).
  rewrite Hlast. rewrite bind_check_true; cycle 1.
  { apply bool_decide_eq_true. simpl. rewrite Hb. by apply list_lookup_middle. }
  rewrite bind_dbset, bind_dbget. unfold mret, prog_ret. simpl.
  rewrite Hb, set_at_split, cstr_app by (done || apply Hr).
  rewrite Ha, Hla. by destruct w as [? ? ? [] ?].
Qed.

Lemma written_all data :
  (Z.of_nat (length (cstr data ++ [NEWLINE])) =? Z.of_nat (strlen data) + 1) = true.
Proof. apply Z.eqb_eq. unfold strlen. rewrite length_app. cbn [length]. lia. Qed.

(** Overwriting the data of record [i] with data of the same length. *)
Lemma writedat_set_spec w recs i r data :
  fdata (w_dat w) = enc_dats recs → recs !! i = Some r →
  length (cstr data) = length (r_data r) →
  _db_writedat data (Z.of_nat (dat_off recs i)) SEEK_SET w
  = Done tt
      (with_fd DAT (File (enc_dats (<[i := r <| r_data := cstr data |>]> recs))
                     (Z.of_nat (dat_off recs i + length (enc_dat r)))) w
         <| w_db ::= λ d, d <| datoff := Z.of_nat (dat_off recs i) |>
                            <| datlen := r_datlen r |> |>).
Proof.
  intros Hw Hi Hl. destruct (dat_split _ _ _ Hi) as (a & c & Ha & Hla & Hset).
  unfold _db_writedat. rewrite !decide_False by done. rewrite bind_ret, seek_set by lia.
  rewrite bind_dbset, bind_check_true by apply nat_not_m1. cbv zeta. rewrite bind_dbset.
  assert (Hlen : length (cstr data ++ [NEWLINE]) = length (enc_dat r)).
  { unfold enc_dat. rewrite !length_app. lia. }
  rewrite (write_part DAT _ _ a (enc_dat r) c); cycle 1.
  { transitivity (File (fdata (w_dat w)) (Z.of_nat (dat_off recs i))); [done|].
    by rewrite Hw, Ha, Hla. }
  { done. }
  rewrite bind_check_true by apply written_all.
  unfold mret, prog_ret. rewrite Hset, Hlen, Hla. unfold enc_dat at 3. simpl.
  assert (Hsl : Z.of_nat (strlen data) + 1 = r_datlen r) by (unfold strlen, r_datlen; lia).
  rewrite Hsl. by destruct w as [? ? ? [] ?].
Qed.

(** ** Locks *)

(** The lock described by file, first byte and length is not held. *)
Definition unheld (s : fdsel) (off len : Z) (ls : list flock) : Prop :=
  ∀ l, l ∈ ls → ¬ (l_file l = s ∧ l_start l = off ∧ l_len l = len).

Lemma filter_unheld s off len ls : unheld s off len ls →
  filter (λ l, ¬ (l_file l = s ∧ l_start l = off ∧ l_len l = len)) ls = ls.
Proof.
  induction ls as [|x ls IH]; intros Hl; [done|].
  rewrite filter_cons_True by (apply Hl; set_solver).
  f_equal. apply IH. intros l Hin. apply Hl. set_solver.
Qed.

(** Locking a range that was not held and unlocking it again. *)
Lemma unlock_lock s ty off len ls : unheld s off len ls →
  filter (λ l, ¬ (l_file l = s ∧ l_start l = off ∧ l_len l = len))
    (Flock s ty off len ::
     filter (λ l, ¬ (l_file l = s ∧ l_start l = off ∧ l_len l = len)) ls) = ls.
Proof.
  intros Hl. rewrite filter_cons_False by (intros H; by apply H).
  by do 2 rewrite (filter_unheld s off len ls) by done.
Qed.

(** Appending data at the end of the data file, under the lock of the whole
    file. *)
Lemma writedat_end_spec w data :
  unheld DAT 0 0 (w_locks w) →
  _db_writedat data 0 SEEK_END w
  = Done tt
      (with_fd DAT (File (fdata (w_dat w) ++ cstr data ++ [NEWLINE])
                     (fsize (w_dat w) + Z.of_nat (length (cstr data ++ [NEWLINE])))) w
         <| w_db ::= λ d, d <| datoff := fsize (w_dat w) |>
                            <| datlen := Z.of_nat (length (cstr data)) + 1 |> |>).
Proof.
  intros Hlk. unfold _db_writedat. rewrite !decide_True by done.
  unfold writew_lock at 1, lock_reg. rewrite bind_modify, seek_end, bind_dbset.
  unfold fsize at 2. rewrite bind_check_true by apply nat_not_m1. cbv zeta. rewrite bind_dbset.
  erewrite (write_end DAT); cycle 1.
  { transitivity (File (fdata (w_dat w)) (fsize (w_dat w))); [done|]. done. }
  rewrite bind_check_true by apply written_all.
  unfold un_lock, modify.
  destruct w as [? ? lk [] ?]. simpl in *. f_equal. f_equal.
  - f_equal. unfold fsize. simpl. lia.
  - by apply unlock_lock.
Qed.

(** ** Writing index records *)

Lemma enc_body_no_nul r : rec_ok r → no_nul (enc_body r).
Proof.
  intros [_ Hk _ Ho _ _ _]. pose proof (datlen_pos r). unfold enc_body.
  repeat (rewrite no_nul_app; split); try done;
    try (apply no_nul_dec_str; lia); by apply (bool_decide_unpack _).
Qed.

(** The DB structure after writing record [r] at offset [off]. *)
Definition written_db (off : nat) (r : irec) (d : DB) : DB :=
  d <| ptrval := r_ptr r |> <| idxbuf := enc_body r ++ NUL :: after (idxbuf d) (enc_body r ++ [NUL]) |>
    <| idxoff := Z.of_nat off |>.

(** What the routine has computed before it takes the lock and seeks. *)
Lemma writeidx_front `{Libc} w key off wh r :
  rec_ok r → key_defined key = true → cstr (key_bytes key (w_db w)) = r_key r → datoff (w_db w) = r_datoff r → datlen (w_db w) = r_datlen r →
  _db_writeidx key off wh (r_ptr r) w
  = (let lockoff := (nhash (w_db w) + 1) * Z.of_nat PTR_SZ + 1 in
     (if decide (wh = SEEK_END) then writew_lock IDX lockoff 0 else mret tt) ;;
     p ← lseek IDX off wh;
     dbset (λ d, d <| idxoff := p |>) ;;
     check (negb (p =? -1)) (ErrDump "_db_writeidx: lseek error") ;;
     n ← write IDX (enc_rec r);
     check (n =? Z.of_nat (length (enc_rec r)))
       (ErrDump "_db_writeidx: writev error of index record") ;;
     (if decide (wh = SEEK_END) then un_lock IDX lockoff 0 else mret tt))
    (w <| w_db ::= λ d, d <| ptrval := r_ptr r |>
         <| idxbuf := enc_body r ++ NUL :: after (idxbuf d) (enc_body r ++ [NUL]) |> |>).
Proof.
  intros Hr Hkd Hk Ho Hl. pose proof Hr as [Hp _ _ _ _ _ Hlen].
  unfold _db_writeidx. rewrite bind_dbset.
  rewrite bind_check_true by (unfold ptr_ok in Hp; lia). rewrite !bind_dbget.
  set (w1 := w <| w_db ::= λ d, d <| ptrval := r_ptr r |> |>).
  assert (E1 : datoff (w_db w1) = r_datoff r) by done.
  assert (E2 : datlen (w_db w1) = r_datlen r) by done.
  assert (E3 : key_bytes key (w_db w1) = key_bytes key (w_db w)) by by destruct key.
  rewrite E1, E2, E3, Hk, bind_defined_true by done. cbv zeta. fold (enc_body r).
  unfold IDXLEN_MIN, IDXLEN_MAX in Hlen.
  rewrite bind_defined_true by (unfold IDXBUF_SZ, IDXLEN_MAX; lia).
  rewrite bind_dbset, bind_dbget.
  assert (Hb : ∀ b, put_at b 0 (enc_body r ++ [NUL])
    = enc_body r ++ NUL :: after b (enc_body r ++ [NUL])).
  { intros b. rewrite put_at_head. by rewrite <- app_assoc. }
  assert (Hbuf : idxbuf (w_db (w1 <| w_db ::= λ d, d <| idxbuf ::=
      λ buf, put_at buf 0 (enc_body r ++ [NUL]) |> |>))
    = enc_body r ++ NUL :: after (idxbuf (w_db w)) (enc_body r ++ [NUL])) by apply Hb.
  rewrite Hbuf. unfold strlen. rewrite cstr_app by by apply enc_body_no_nul.
  rewrite bind_check_true by (unfold IDXLEN_MIN, IDXLEN_MAX; lia).
  rewrite bind_dbget. fold (enc_ptr (r_ptr r)). rewrite Nat2Z.id.
  assert (Hrec : take (PTR_SZ + IDXLEN_SZ)
      (enc_ptr (r_ptr r) ++ rjust IDXLEN_SZ (dec (Z.of_nat (length (enc_body r)))))
    ++ take (length (enc_body r)) (enc_body r ++ NUL :: after (idxbuf (w_db w)) (enc_body r ++ [NUL]))
    = enc_rec r).
  { rewrite take_ge, take_app_length; [|by apply Nat.eq_le_incl, (readidx_hd r Hr)].
    unfold enc_rec, enc_tail. by rewrite <- app_assoc. }
  rewrite Hrec, <- Nat2Z.inj_add, <- (enc_rec_length r Hr).
  f_equal. unfold w1. destruct w as [? ? ? [] ?]. cbn -[put_at]. by rewrite Hb.
Qed.

(** Rewriting record [i] in place. *)
Lemma writeidx_set_spec `{Libc} w hdr recs i r r' key :
  fdata (w_idx w) = enc_idx hdr recs → shape hdr recs → recs !! i = Some r →
  rec_ok r' → length (enc_body r') = length (enc_body r) →
  key_defined key = true → cstr (key_bytes key (w_db w)) = r_key r' → datoff (w_db w) = r_datoff r' → datlen (w_db w) = r_datlen r' →
  _db_writeidx key (Z.of_nat (rec_off recs i)) SEEK_SET (r_ptr r') w
  = Done tt (with_fd IDX (File (enc_idx hdr (<[i := r']> recs))
                           (Z.of_nat (rec_off recs (S i)))) w
               <| w_db ::= written_db (rec_off recs i) r' |>).
Proof.
  intros Hw Hs Hi Hr' Hlen Hkd Hk Ho Hl.
  assert (Hr : rec_ok r) by (by eapply Forall_lookup_1; [apply Hs|]).
  destruct (rec_split _ _ _ _ Hs Hi) as (a & c & Ha & Hla & Hend & Hset).
  assert (Hel : length (enc_rec r) = length (enc_rec r')) by (rewrite !enc_rec_length by done; lia).
  rewrite writeidx_front by done. cbv zeta. rewrite !decide_False by done.
  rewrite bind_ret, seek_set by lia.
  rewrite bind_dbset, bind_check_true by apply nat_not_m1.
  rewrite (write_part IDX _ _ a (enc_rec r) c (enc_rec r')); [|  |done]; cycle 1.
  { transitivity (File (fdata (w_idx w)) (Z.of_nat (rec_off recs i))); [done|].
    by rewrite Hw, Ha, Hla. }
  rewrite bind_check_true by by rewrite Z.eqb_refl.
  unfold mret, prog_ret. rewrite Hset, <- Hend, Hel, Hla.
  by destruct w as [? ? ? [] ?].
Qed.

Lemma enc_idx_snoc hdr recs r : enc_idx hdr (recs ++ [r]) = enc_idx hdr recs ++ enc_rec r.
Proof.
  unfold enc_idx. rewrite fmap_app, concat_app. simpl. by rewrite app_nil_r, <- !app_assoc.
Qed.

(** Appending a record, under the lock of the record area. *)
Lemma writeidx_end_spec `{Libc} w hdr recs r key :
  fdata (w_idx w) = enc_idx hdr recs → shape hdr recs → rec_ok r →
  key_defined key = true → cstr (key_bytes key (w_db w)) = r_key r →
  datoff (w_db w) = r_datoff r → datlen (w_db w) = r_datlen r →
  unheld IDX ((nhash (w_db w) + 1) * Z.of_nat PTR_SZ + 1) 0 (w_locks w) →
  _db_writeidx key 0 SEEK_END (r_ptr r) w
  = Done tt (with_fd IDX (File (enc_idx hdr (recs ++ [r]))
                   (fsize (w_idx w) + Z.of_nat (length (enc_rec r)))) w
               <| w_db ::= written_db (rec_off recs (length recs)) r |>).
Proof.
  intros Hw Hs Hr Hkd Hk Ho Hl Hlk. rewrite writeidx_front by done. cbv zeta.
  rewrite !decide_True by done. unfold writew_lock, lock_reg.
  rewrite bind_modify, seek_end, bind_dbset. unfold fsize at 2.
  rewrite bind_check_true by apply nat_not_m1.
  rewrite (write_end IDX _ _ (fdata (w_idx w))) by done.
  rewrite bind_check_true by by rewrite Z.eqb_refl.
  unfold un_lock, modify. rewrite enc_idx_snoc, <- Hw, <- (enc_idx_length hdr) by done.
  rewrite <- Hw. destruct w as [? ? lk [] ?]. unfold fsize. simpl in *. f_equal. f_equal.
  - f_equal. lia.
  - by apply unlock_lock.
Qed.
