(* ===== verification/DbInv.v ===== *)
(** * The invariant of a database: chains of records.

    [chains] lists, for the free list (index 0) and for each bucket of the hash
    table (index S h), the numbers of the records on it in chain order.
    [linkwf] says that the pointers stored in the header and in the records link
    exactly these chains and that every record is on exactly one of them;
    [keywf] that free records have blank keys and that the records of a bucket
    have the bucket's hash and pairwise different keys.  The lemmas of the last
    part are the steps the operations are made of: taking a record off a chain,
    rewriting it, appending one, pushing it on the front of a chain. *)
From Stdlib Require Import Ascii ZArith Lia.
From stdpp Require Import base strings gmap option list.
From S2P Require Import Prelude CStr PosixFile Db DbLayout.

(** ** Linked segments *)

(** The pointer to the first record of [l], [q] when [l] is empty. *)
Definition first (recs : list irec) (l : list nat) (q : Z) : Z :=
  match l with [] => q | i :: _ => Z.of_nat (rec_off recs i) end.

Fixpoint lseg (recs : list irec) (l : list nat) (q : Z) : Prop :=
  match l with
  | [] => True
  | i :: l' => (∃ r, recs !! i = Some r ∧ r_ptr r = first recs l' q) ∧ lseg recs l' q
  end.

(** Where the pointer to the rest of chain [c] after the records [l1] is stored. *)
Definition pred_loc (c : nat) (l1 : list nat) : ploc :=
  match last l1 with Some i => RecLoc i | None => HdrLoc c end.

(** The bucket of a key. *)
Definition khash (k : bytes) : Z := hash_loop 1 0 k mod NHASH_DEF.

(** The structure: [D] are the records that are on no chain (between the
    steps of an operation). *)
Record linkwf (hdr : list Z) (recs : list irec) (chains : list (list nat)) (D : list nat) :
    Prop := {
  lw_shape : shape hdr recs;
  lw_len : length chains = NPTR;
  lw_hdr : ∀ c l, chains !! c = Some l → hdr !! c = Some (first recs l 0);
  lw_lseg : ∀ c l, chains !! c = Some l → lseg recs l 0;
  lw_off : ∀ i r, recs !! i = Some r → r_datoff r = Z.of_nat (dat_off recs i);
  lw_perm : D ++ concat chains ≡ₚ seq 0 (length recs) }.

(** The key and the data of a record. *)
Definition kd (r : irec) : bytes * bytes := (r_key r, r_data r).

(** The meaning of the chains, given the keys and data of the records. *)
Record keywf (kds : list (bytes * bytes)) (chains : list (list nat)) : Prop := {
  kw_free : ∀ l i k d, chains !! 0%nat = Some l → i ∈ l → kds !! i = Some (k, d) →
    all_blank k = true;
  kw_hash : ∀ h l i k d, chains !! S h = Some l → i ∈ l → kds !! i = Some (k, d) →
    khash k = Z.of_nat h;
  kw_uniq : ∀ h l i j k d d', chains !! S h = Some l → i ∈ l → j ∈ l →
    kds !! i = Some (k, d) → kds !! j = Some (k, d') → i = j }.

(** ** The contents *)

(** The data stored under a key: by the record with that key on a hash chain. *)
Definition stored (kds : list (bytes * bytes)) (chains : list (list nat)) (k d : bytes) : Prop :=
  ∃ h l i, chains !! S h = Some l ∧ i ∈ l ∧ kds !! i = Some (k, d).

(** The files of the handle hold the given contents. *)
Record db_files (w : dbw) (hdr : list Z) (recs : list irec) : Prop := {
  df_idx : fdata (w_idx w) = enc_idx hdr recs;
  df_dat : fdata (w_dat w) = enc_dats recs;
  df_nhash : nhash (w_db w) = NHASH_DEF;
  df_hashoff : hashoff (w_db w) = HASH_OFF }.

(** The files of the handle hold the map [m] in the records [recs]. *)
Record content (w : dbw) (m : gmap bytes bytes) (hdr : list Z) (recs : list irec)
    (chains : list (list nat)) : Prop := {
  ct_files : db_files w hdr recs;
  ct_link : linkwf hdr recs chains [];
  ct_key : keywf (kd <$> recs) chains;
  ct_map : ∀ k d, m !! k = Some d ↔ stored (kd <$> recs) chains k d }.

(** The files of the handle hold the map [m] in [n] records, free ones
    included. *)
Definition holds (w : dbw) (m : gmap bytes bytes) (n : nat) : Prop :=
  ∃ hdr recs chains, content w m hdr recs chains ∧ length recs = n.

(** The same for a handle that holds no record lock. *)
Definition db_repn (w : dbw) (m : gmap bytes bytes) (n : nat) : Prop :=
  holds w m n ∧ w_locks w = [].
Definition db_rep (w : dbw) (m : gmap bytes bytes) : Prop := ∃ n, db_repn w m n.

(** What the read-only walks leave alone: all but the descriptor offsets and
    the fields of the DB structure that describe the current record. *)
Definition erase_db (d : DB) : DB :=
  d <| idxbuf := [] |> <| datbuf := [] |> <| idxoff := 0 |> <| idxlen := 0 |>
    <| datoff := 0 |> <| datlen := 0 |> <| ptrval := 0 |> <| ptroff := 0 |>.
Definition view (w : dbw) : bytes * bytes * list flock * Z * DB :=
  (fdata (w_idx w), fdata (w_dat w), w_locks w, w_errno w, erase_db (w_db w)).

(** The DB structure describes record [i]. *)
Record at_rec (w : dbw) (recs : list irec) (i : nat) (r : irec) : Prop := {
  ar_lookup : recs !! i = Some r;
  ar_idxoff : idxoff (w_db w) = Z.of_nat (rec_off recs i);
  ar_ptrval : ptrval (w_db w) = r_ptr r;
  ar_key : cstr (idxbuf (w_db w)) = r_key r;
  ar_datoff : datoff (w_db w) = r_datoff r;
  ar_datlen : datlen (w_db w) = r_datlen r }.

(** ** Lemmas on segments *)

Lemma first_app recs l1 l2 q : first recs (l1 ++ l2) q = first recs l1 (first recs l2 q).
Proof. by destruct l1. Qed.

Lemma lseg_app recs l1 l2 q :
  lseg recs (l1 ++ l2) q ↔ lseg recs l1 (first recs l2 q) ∧ lseg recs l2 q.
Proof.
  induction l1 as [|i l1 IH]; simpl; [by split; [|intros [_ ?]]|].
  rewrite first_app, IH. tauto.
Qed.

Lemma lseg_ext recs recs' l q :
  (∀ k, k ∈ l → r_ptr <$> recs !! k = r_ptr <$> recs' !! k) →
  (∀ k, k ∈ l → rec_off recs k = rec_off recs' k) →
  lseg recs l q → lseg recs' l q.
Proof.
  induction l as [|i l IH]; simpl; [done|]. intros Hp Ho [(r & Hi & Hr) Hl]. split.
  - specialize (Hp i ltac:(left)). rewrite Hi in Hp. simpl in Hp.
    symmetry in Hp. apply fmap_Some in Hp as (r' & Hi' & ?). exists r'. split; [done|].
    rewrite <- H, Hr. destruct l as [|j l]; [done|]. simpl. f_equal. apply Ho. right. left.
  - apply IH; [| |done]; intros; [apply Hp|apply Ho]; by right.
Qed.

Lemma lseg_lookup recs l q i : lseg recs l q → i ∈ l → is_Some (recs !! i).
Proof.
  induction l as [|j l IH]; intros Hl Hi; [by apply not_elem_of_nil in Hi|].
  destruct Hl as [(r & Hr & _) Hl]. apply elem_of_cons in Hi as [->|Hi]; eauto.
Qed.

Lemma first_ext recs recs' l q :
  (∀ k, k ∈ l → rec_off recs k = rec_off recs' k) → first recs l q = first recs' l q.
Proof. destruct l; simpl; [done|]. intros H. f_equal. apply H. left. Qed.

(** ** Record offsets *)

Lemma rec_off_insert recs i r r' k :
  recs !! i = Some r → length (enc_rec r') = length (enc_rec r) →
  rec_off (<[i := r']> recs) k = rec_off recs k.
Proof.
  intros Hi Hl. unfold rec_off. by rewrite concat_take_insert by by rewrite Hi.
Qed.

Lemma dat_off_insert recs i r r' k :
  recs !! i = Some r → length (r_data r') = length (r_data r) →
  dat_off (<[i := r']> recs) k = dat_off recs k.
Proof.
  intros Hi Hl. unfold dat_off, enc_dats. apply concat_take_insert.
  rewrite Hi. simpl. unfold enc_dat. rewrite !length_app. lia.
Qed.

Lemma rec_off_app recs r k : (k <= length recs)%nat →
  rec_off (recs ++ [r]) k = rec_off recs k.
Proof. intros. unfold rec_off. by rewrite take_app_le. Qed.

Lemma dat_off_app recs r k : (k <= length recs)%nat →
  dat_off (recs ++ [r]) k = dat_off recs k.
Proof. intros. unfold dat_off. by rewrite take_app_le. Qed.

Lemma rec_off_inj recs i j r :
  Forall rec_ok recs → recs !! i = Some r → (i < j)%nat → (rec_off recs i < rec_off recs j)%nat.
Proof.
  intros Hr Hi Hij. unfold rec_off.
  pose proof (concat_take_S enc_rec _ _ _ Hi) as HS.
  pose proof (concat_take_mono enc_rec recs (S i) j ltac:(lia)).
  rewrite enc_rec_length in HS by by eapply Forall_lookup_1. unfold PTR_SZ in HS. lia.
Qed.

Lemma recs_length_le recs :
  Forall rec_ok recs →
  17 * Z.of_nat (length recs) <= Z.of_nat (length (concat (enc_rec <$> recs))).
Proof.
  induction 1 as [|r recs Hr _ IH]; [done|]. rewrite fmap_cons. cbn [concat length].
  rewrite length_app, enc_rec_length by done. pose proof (rok_len r Hr).
  unfold IDXLEN_MIN, PTR_SZ, IDXLEN_SZ in *. lia.
Qed.

Lemma dats_length_le recs :
  Forall rec_ok recs → Z.of_nat (length (enc_dats recs)) <= 1024 * Z.of_nat (length recs).
Proof.
  unfold enc_dats. induction 1 as [|r recs Hr _ IH]; [done|]. rewrite fmap_cons.
  cbn [concat length]. rewrite length_app. pose proof (enc_dat_length r).
  pose proof (rok_datlen r Hr). unfold DATLEN_MAX in *. lia.
Qed.

(** ** Reading a record moves the cursor only *)

Lemma view_db {A} (f : DB → A) w w' : view w' = view w →
  f (erase_db (w_db w')) = f (erase_db (w_db w)).
Proof. unfold view. intros Hv. f_equal. by apply (f_equal snd) in Hv. Qed.
Lemma view_dat w w' : view w' = view w → fdata (w_dat w') = fdata (w_dat w).
Proof. unfold view. congruence. Qed.
Lemma view_idx w w' : view w' = view w → fdata (w_idx w') = fdata (w_idx w).
Proof. unfold view. congruence. Qed.

Lemma db_files_view w w' hdr recs : view w' = view w → db_files w hdr recs → db_files w' hdr recs.
Proof.
  intros Hv [Hi Hd Hn Hh]. split.
  - by rewrite (view_idx _ _ Hv).
  - by rewrite (view_dat _ _ Hv).
  - etrans; [exact (view_db nhash _ _ Hv)|done].
  - etrans; [exact (view_db hashoff _ _ Hv)|done].
Qed.

Lemma view_locks w w' : view w' = view w → w_locks w' = w_locks w.
Proof. unfold view. congruence. Qed.
Lemma view_chainoff w w' : view w' = view w → chainoff (w_db w') = chainoff (w_db w).
Proof. exact (view_db chainoff w w'). Qed.

Lemma readptr_view w hdr recs l p :
  db_files w hdr recs → shape hdr recs → loc_get hdr recs l = Some p →
  ∃ w', _db_readptr (Z.of_nat (loc_off recs l)) w = Done p w' ∧ view w' = view w ∧
    w_db w' = w_db w.
Proof.
  intros Hf Hs Hg. eexists. split; [eapply readptr_spec; [apply Hf|done..]|].
  split; [|done]. unfold view. simpl. by rewrite (df_idx _ _ _ Hf).
Qed.

Lemma readidx_view w hdr recs i r :
  db_files w hdr recs → shape hdr recs → recs !! i = Some r →
  ∃ w', _db_readidx (Z.of_nat (rec_off recs i)) w = Done (r_ptr r) w' ∧ view w' = view w ∧
    at_rec w' recs i r ∧ ptroff (w_db w') = ptroff (w_db w).
Proof.
  intros Hf Hs Hi. eexists. split; [eapply readidx_spec; [apply Hf|done|done|by left]|].
  split; [|split; [|done]].
  - unfold view. simpl. by rewrite (df_idx _ _ _ Hf).
  - split; [done..| |done|done]. simpl. apply cstr_split_buf.
    by eapply Forall_lookup_1; [apply Hs|].
Qed.

Lemma first_nonzero recs i l q : first recs (i :: l) q ≠ 0.
Proof. simpl. pose proof (rec_off_pos recs i). unfold HDR in *. lia. Qed.

Lemma pred_loc_snoc c l i : pred_loc c (l ++ [i]) = RecLoc i.
Proof. unfold pred_loc. by rewrite last_snoc. Qed.

(** The walk along the rest [l] of a hash chain: either no record of [l] has
    the key, or the walk stops at the first one that has it. *)
Lemma find_loop_spec fuel w hdr recs key c l0 l :
  db_files w hdr recs → shape hdr recs → lseg recs l 0 → (length l < fuel)%nat →
  no_nul key → ptroff (w_db w) = Z.of_nat (loc_off recs (pred_loc c l0)) →
  ∃ w', view w' = view w ∧
    ((∀ i r, i ∈ l → recs !! i = Some r → r_key r ≠ key) ∧
       find_loop fuel key (first recs l 0) w = Done 0 w'
     ∨ ∃ la i lb r, l = la ++ i :: lb ∧ r_key r = key ∧ at_rec w' recs i r ∧
         ptroff (w_db w') = Z.of_nat (loc_off recs (pred_loc c (l0 ++ la))) ∧
         find_loop fuel key (first recs l 0) w = Done (Z.of_nat (rec_off recs i)) w').
Proof.
  revert w l0 l. induction fuel as [|fuel IH]; intros w l0 l Hf Hs Hl Hlen Hk Hpo; [lia|].
  destruct l as [|i l].
  { exists w. split; [done|]. left. split; [|done]. by intros ? ? ?%not_elem_of_nil. }
  destruct Hl as [(r & Hi & Hp) Hl]. cbn [find_loop].
  rewrite (proj2 (Z.eqb_neq _ 0)) by apply first_nonzero.
  destruct (readidx_view w hdr recs i r Hf Hs Hi) as (w1 & E1 & Hv1 & Ha1 & Hpo1).
  cbn [first] in *. rewrite (bind_done _ _ _ _ _ E1), bind_dbget.
  unfold streq. rewrite (ar_key _ _ _ _ Ha1), (cstr_id key) by done.
  destruct (decide (r_key r = key)) as [Hkey|Hkey].
  - rewrite bool_decide_eq_true_2 by done. exists w1. split; [done|]. right.
    exists [], i, l, r. rewrite app_nil_r, Hpo1. done.
  - rewrite bool_decide_eq_false_2 by done. rewrite bind_dbset.
    set (w2 := w1 <| w_db ::= λ d, d <| ptroff := Z.of_nat (rec_off recs i) |> |>).
    assert (Hv2 : view w2 = view w) by (rewrite <- Hv1; by destruct w1 as [? ? ? [] ?]).
    destruct (IH w2 (l0 ++ [i]) l) as (w' & Hv' & Hres); try done.
    + by eapply db_files_view.
    + simpl in Hlen. lia.
    + by rewrite pred_loc_snoc.
    + exists w'. split; [by rewrite Hv'|]. rewrite Hp.
      destruct Hres as [[Hno E]|(la & j & lb & r' & -> & Hk' & Ha' & Hpo' & E)]; [left|right].
      * split; [|done]. intros j r' [->|Hj]%elem_of_cons Hr'; [congruence|by eauto].
      * exists (i :: la), j, lb, r'. by rewrite <- app_assoc in Hpo'.
Qed.

(** The walk along the rest [l] of the free list. *)
Lemma findfree_loop_spec fuel w hdr recs keylen dlen c l0 l :
  db_files w hdr recs → shape hdr recs → lseg recs l 0 → (length l < fuel)%nat →
  ∃ w', view w' = view w ∧
    ((∃ sv, findfree_loop fuel keylen dlen (Z.of_nat (loc_off recs (pred_loc c l0)))
              (first recs l 0) w = Done (0, sv) w')
     ∨ ∃ la i lb r, l = la ++ i :: lb ∧ length (r_key r) = keylen ∧ r_datlen r = dlen ∧
         at_rec w' recs i r ∧
         findfree_loop fuel keylen dlen (Z.of_nat (loc_off recs (pred_loc c l0)))
           (first recs l 0) w
         = Done (Z.of_nat (rec_off recs i),
                 Z.of_nat (loc_off recs (pred_loc c (l0 ++ la)))) w').
Proof.
  revert w l0 l. induction fuel as [|fuel IH]; intros w l0 l Hf Hs Hl Hlen; [lia|].
  destruct l as [|i l].
  { exists w. split; [done|]. left. by eexists. }
  destruct Hl as [(r & Hi & Hp) Hl]. cbn [findfree_loop].
  rewrite (proj2 (Z.eqb_neq _ 0)) by apply first_nonzero.
  destruct (readidx_view w hdr recs i r Hf Hs Hi) as (w1 & E1 & Hv1 & Ha1 & Hpo1).
  cbn [first] in *. rewrite (bind_done _ _ _ _ _ E1), !bind_dbget.
  unfold strlen. rewrite (ar_key _ _ _ _ Ha1), (ar_datlen _ _ _ _ Ha1).
  destruct (_ && _) eqn:Hm.
  - exists w1. split; [done|]. right. exists [], i, l, r. rewrite app_nil_r.
    apply andb_true_iff in Hm as [?%bool_decide_eq_true ?%Z.eqb_eq]. done.
  - destruct (IH w1 (l0 ++ [i]) l) as (w' & Hv' & Hres); try done.
    + by eapply db_files_view.
    + simpl in Hlen. lia.
    + exists w'. split; [by rewrite Hv'|]. rewrite pred_loc_snoc in Hres. cbn [loc_off] in Hres.
      rewrite Hp.
      destruct Hres as [E|(la & j & lb & r' & -> & Hk' & Hd' & Ha' & E)]; [left|right]; [done|].
      exists (i :: la), j, lb, r'. by rewrite <- app_assoc in E.
Qed.

(** ** Steps on the structure *)

Lemma concat_lookup (chains : list (list nat)) c l : chains !! c = Some l →
  concat chains ≡ₚ l ++ concat (delete c chains).
Proof. intros H. by rewrite (delete_Permutation chains c l H) at 1. Qed.

Lemma concat_insert_perm (chains : list (list nat)) c l l' : chains !! c = Some l →
  concat (<[c := l']> chains) ≡ₚ l' ++ concat (delete c chains).
Proof.
  intros H. rewrite (concat_lookup (<[c := l']> chains) c l').
  - by rewrite !delete_take_drop, take_insert_ge, drop_insert_lt by lia.
  - apply list_lookup_insert_eq. by eapply lookup_lt_Some.
Qed.

Section linkwf.
Context {hdr : list Z} {recs : list irec} {chains : list (list nat)} {D : list nat}.
Context (Hwf : linkwf hdr recs chains D).

Lemma linkwf_nodup : NoDup (D ++ concat chains).
Proof. rewrite (lw_perm _ _ _ _ Hwf). apply NoDup_seq. Qed.

Lemma linkwf_lt i : i ∈ D ++ concat chains ↔ (i < length recs)%nat.
Proof. rewrite (lw_perm _ _ _ _ Hwf), elem_of_seq. lia. Qed.

Lemma chain_in c l i : chains !! c = Some l → i ∈ l → i ∈ concat chains.
Proof. intros Hc Hi. rewrite (concat_lookup _ _ _ Hc). set_solver. Qed.

Lemma chain_nodup c l : chains !! c = Some l → NoDup l.
Proof.
  intros Hc. pose proof linkwf_nodup as Hn. rewrite (concat_lookup _ _ _ Hc) in Hn.
  apply NoDup_app in Hn as (_ & _ & Hn). by apply NoDup_app in Hn as (? & _ & _).
Qed.

Lemma chain_not_D c l i : chains !! c = Some l → i ∈ l → i ∉ D.
Proof.
  intros Hc Hi HD. pose proof linkwf_nodup as Hn. apply NoDup_app in Hn as (_ & Hn & _).
  apply (Hn i HD). by eapply chain_in.
Qed.

Lemma chain_disjoint c c' l l' i :
  chains !! c = Some l → chains !! c' = Some l' → c ≠ c' → i ∈ l → i ∉ l'.
Proof.
  intros Hc Hc' Hne Hi Hi'. pose proof linkwf_nodup as Hn.
  rewrite (concat_lookup _ _ _ Hc) in Hn. apply NoDup_app in Hn as (_ & _ & Hn).
  apply NoDup_app in Hn as (_ & Hn & _). apply (Hn i Hi).
  apply list_elem_of_lookup in Hi' as [k Hk].
  assert (Hd : ∃ c'', delete c chains !! c'' = Some l').
  { destruct (decide (c' < c)%nat).
    - exists c'. by rewrite list_lookup_delete_lt.
    - exists (c' - 1)%nat. rewrite list_lookup_delete_ge by lia.
      by replace (S (c' - 1)) with c' by lia. }
  destruct Hd as [c'' Hc'']. rewrite (concat_lookup _ _ _ Hc'').
  apply elem_of_app. left. by eapply list_elem_of_lookup_2.
Qed.

Lemma chain_lookup c l i : chains !! c = Some l → i ∈ l → ∃ r, recs !! i = Some r.
Proof. intros Hc Hi. exact (lseg_lookup _ _ _ _ (lw_lseg _ _ _ _ Hwf _ _ Hc) Hi). Qed.

Lemma chain_length c l : chains !! c = Some l → (length l <= length recs)%nat.
Proof.
  intros Hc. pose proof (Permutation_length (lw_perm _ _ _ _ Hwf)) as HL.
  rewrite length_app, (concat_lookup _ _ _ Hc), length_app, length_seq in HL. lia.
Qed.

(** Rewriting a record that is on no chain, or keeping its pointer; the sizes
    stay. *)
Lemma linkwf_rewrite i r r' :
  i ∈ D ∨ r_ptr r' = r_ptr r → recs !! i = Some r → rec_ok r' → r_datoff r' = r_datoff r →
  length (enc_body r') = length (enc_body r) → length (r_data r') = length (r_data r) →
  linkwf hdr (<[i := r']> recs) chains D.
Proof.
  intros Hi Hr Hr' Ho Hl Hd. destruct Hwf as [[Hn Hh Hrs] Hlen Hhd Hls Hof Hp].
  assert (Hrok : rec_ok r) by (by eapply Forall_lookup_1).
  assert (Hoff : ∀ k, rec_off (<[i := r']> recs) k = rec_off recs k).
  { intros k. apply (rec_off_insert _ _ _ _ _ Hr). rewrite !enc_rec_length by done. lia. }
  assert (Hext : ∀ c l, chains !! c = Some l → ∀ k, k ∈ l →
    r_ptr <$> recs !! k = r_ptr <$> <[i := r']> recs !! k).
  { intros c l Hc k Hk. destruct (decide (i = k)) as [<-|].
    - destruct Hi as [Hi|Hi]; [by destruct (chain_not_D _ _ _ Hc Hk)|].
      rewrite list_lookup_insert_eq by by eapply lookup_lt_Some. by rewrite Hr; simpl; rewrite Hi.
    - by rewrite list_lookup_insert_ne. }
  split; try done.
  - split; [done..|]. by apply Forall_insert.
  - intros c l Hc. rewrite (Hhd c l Hc). f_equal. by apply first_ext.
  - intros c l Hc. eapply lseg_ext; [by eapply Hext|done|by apply Hls with c].
  - intros k rk Hk. rewrite (dat_off_insert _ _ _ _ _ Hr Hd).
    destruct (decide (i = k)) as [->|].
    + rewrite list_lookup_insert_eq in Hk by by eapply lookup_lt_Some.
      injection Hk as <-. rewrite Ho. by apply Hof.
    + rewrite list_lookup_insert_ne in Hk by done. by apply Hof.
  - by rewrite length_insert.
Qed.

(** Appending a record to the files. *)
Lemma linkwf_append r :
  rec_ok r → r_datoff r = Z.of_nat (dat_off recs (length recs)) →
  linkwf hdr (recs ++ [r]) chains (length recs :: D).
Proof.
  intros Hr Ho. destruct Hwf as [[Hn Hh Hrs] Hlen Hhd Hls Hof Hp].
  assert (Hoff : ∀ c l, chains !! c = Some l → ∀ k, k ∈ l →
    rec_off recs k = rec_off (recs ++ [r]) k ∧ recs !! k = (recs ++ [r]) !! k).
  { intros c l Hc k Hk. destruct (chain_lookup _ _ _ Hc Hk) as [rk Hk'].
    apply lookup_lt_Some in Hk' as ?. split; [by rewrite rec_off_app by lia|].
    by rewrite lookup_app_l. }
  split; try done.
  - split; [done..|]. apply Forall_app. auto.
  - intros c l Hc. rewrite (Hhd c l Hc). f_equal. apply first_ext. intros k Hk.
    by destruct (Hoff c l Hc k Hk).
  - intros c l Hc. eapply lseg_ext; [..|by apply Hls with c].
    + intros k Hk. destruct (Hoff c l Hc k Hk) as [_ ->]. done.
    + intros k Hk. by destruct (Hoff c l Hc k Hk).
  - intros k rk [Hk|[Hle Hk]]%lookup_app_Some.
    + rewrite dat_off_app by (apply lookup_lt_Some in Hk; lia). by apply Hof.
    + apply list_lookup_singleton_Some in Hk as [? <-].
      replace k with (length recs) by lia. by rewrite dat_off_app.
  - rewrite length_app. simpl. rewrite Nat.add_1_r, seq_S. simpl.
    rewrite Hp. by rewrite Permutation_cons_append.
Qed.
End linkwf.

(** Pushing a record on the front of a chain. *)
Lemma linkwf_push hdr recs chains D i r c l :
  linkwf hdr recs chains (i :: D) → chains !! c = Some l → recs !! i = Some r →
  r_ptr r = first recs l 0 → ptr_ok (Z.of_nat (rec_off recs i)) →
  linkwf (<[c := Z.of_nat (rec_off recs i)]> hdr) recs (<[c := i :: l]> chains) D.
Proof.
  intros Hwf Hc Hi Hp Hok. pose proof Hwf as [Hs Hlen Hhd Hls Hof Hpm].
  assert (Hcl : (c < length chains)%nat) by by eapply lookup_lt_Some.
  split; try done.
  - by apply (shape_set hdr recs (HdrLoc c)).
  - by rewrite length_insert.
  - intros c' l' Hc'. destruct (decide (c = c')) as [<-|].
    + rewrite list_lookup_insert_eq in Hc' by done. injection Hc' as <-.
      rewrite list_lookup_insert_eq; [done|]. rewrite (sh_len _ _ Hs). by rewrite <- Hlen.
    + rewrite list_lookup_insert_ne in Hc' by done. rewrite list_lookup_insert_ne by done. by apply Hhd.
  - intros c' l' Hc'. destruct (decide (c = c')) as [<-|].
    + rewrite list_lookup_insert_eq in Hc' by done. injection Hc' as <-.
      split; [by exists r|by eapply Hls].
    + rewrite list_lookup_insert_ne in Hc' by done. by eapply Hls.
  - rewrite <- Hpm. rewrite (concat_insert_perm _ _ _ _ Hc), (concat_lookup _ _ _ Hc).
    simpl. by rewrite <- Permutation_middle.
Qed.

(** What is known about the records around the [i]th of a chain. *)
Lemma chain_at hdr recs chains D c la i lb r :
  linkwf hdr recs chains D → chains !! c = Some (la ++ i :: lb) → recs !! i = Some r →
  r_ptr r = first recs lb 0 ∧
  loc_get hdr recs (pred_loc c la) = Some (Z.of_nat (rec_off recs i)) ∧
  pred_loc c la ≠ RecLoc i.
Proof.
  intros Hwf Hc Hi. pose proof (lw_lseg _ _ _ _ Hwf _ _ Hc) as Hl.
  pose proof (chain_nodup Hwf _ _ Hc) as Hnd.
  apply lseg_app in Hl as [Hla [(r' & Hi' & Hp) Hlb]].
  split; [congruence|]. unfold pred_loc. destruct (last la) as [j|] eqn:Hj.
  - apply last_Some in Hj as [la0 ->]. apply lseg_app in Hla as [_ [(rj & Hj & Hpj) _]].
    split; [simpl; rewrite Hj; simpl; by rewrite Hpj|]. intros [= ->].
    rewrite <- app_assoc in Hnd. apply NoDup_app in Hnd as (_ & _ & Hnd).
    inversion Hnd; set_solver.
  - apply last_None in Hj as ->. split; [|done]. by apply (lw_hdr _ _ _ _ Hwf) in Hc.
Qed.

Lemma unlink_perm hdr recs chains D c la i lb : linkwf hdr recs chains D → chains !! c = Some (la ++ i :: lb) →
  (i :: D) ++ concat (<[c := la ++ lb]> chains) ≡ₚ seq 0 (length recs).
Proof.
  intros Hwf Hc. pose proof Hwf as [_ _ _ _ _ Hpm].
  rewrite <- Hpm, (concat_insert_perm _ _ _ _ Hc), (concat_lookup _ _ _ Hc).
  rewrite <- (app_assoc la (i :: lb)). simpl. rewrite <- !Permutation_middle.
  by rewrite <- app_assoc.
Qed.

(** Record [j] takes over the pointer of record [i], the next in its chain. *)
Lemma linkwf_unlink_rec hdr recs chains D c la0 j i lb r :
  linkwf hdr recs chains D → chains !! c = Some ((la0 ++ [j]) ++ i :: lb) → recs !! i = Some r →
  linkwf hdr (set_recs recs (RecLoc j) (r_ptr r)) (<[c := (la0 ++ [j]) ++ lb]> chains) (i :: D).
Proof.
  intros Hwf Hc Hi. pose proof Hwf as [Hs Hlen Hhd Hls Hof Hpm].
  destruct (chain_at _ _ _ _ _ _ _ _ _ Hwf Hc Hi) as (Hp & _ & Hne).
  assert (Hpok : ptr_ok (r_ptr r)) by (eapply (shape_get hdr recs (RecLoc i)); [done|];
    simpl; by rewrite Hi).
  pose proof (unlink_perm _ _ _ _ _ _ _ _ Hwf Hc) as Hperm.
  assert (Hcl : (c < length chains)%nat) by by eapply lookup_lt_Some.
  pose proof (Hls _ _ Hc) as Hl. apply lseg_app in Hl as [Hla [_ Hlb]].
  pose proof (chain_nodup Hwf _ _ Hc) as Hnd.
  pose proof (shape_set _ _ (RecLoc j) _ Hs Hpok) as Hs'. simpl in *.
  rewrite <- app_assoc in Hnd, Hc. simpl in Hnd, Hc.
  apply lseg_app in Hla as [Hla0 [(rj & Hj & Hpj) _]]. rewrite Hj in *.
  assert (Hoff : ∀ k, rec_off (<[j := rj <| r_ptr := r_ptr r |>]> recs) k = rec_off recs k).
  { intros k. apply (rec_off_insert _ _ _ _ _ Hj).
    rewrite !enc_rec_length; [done| |].
    - by eapply Forall_lookup_1; [apply Hs|].
    - eapply Forall_lookup_1; [apply Hs'|]. apply list_lookup_insert_eq. by eapply lookup_lt_Some. }
  assert (Hext : ∀ l q, j ∉ l → lseg recs l q →
    lseg (<[j := rj <| r_ptr := r_ptr r |>]> recs) l q).
  { intros l q Hjl. apply lseg_ext; [|done]. intros k Hk.
    rewrite list_lookup_insert_ne; [done|]. by intros ->. }
  assert (Hfst : ∀ l q, first (<[j := rj <| r_ptr := r_ptr r |>]> recs) l q = first recs l q).
  { intros. by apply first_ext. }
  apply NoDup_app in Hnd as (Hnd1 & Hnd2 & Hnd3).
  apply NoDup_cons in Hnd3 as [Hjlb Hnd3].
  split; try done; try by rewrite length_insert.
  + intros c' l' Hc'. rewrite Hfst. destruct (decide (c = c')) as [<-|].
    * rewrite list_lookup_insert_eq in Hc' by done. injection Hc' as <-.
      rewrite (Hhd _ _ Hc). f_equal. by destruct la0.
    * rewrite list_lookup_insert_ne in Hc' by done. by apply Hhd.
  + intros c' l' Hc'. destruct (decide (c = c')) as [<-|].
    * rewrite list_lookup_insert_eq in Hc' by done. injection Hc' as <-.
      rewrite <- app_assoc. simpl. apply lseg_app. split.
      -- simpl. rewrite Hoff. apply Hext; [set_solver|done].
      -- split; [|apply Hext; [set_solver|done]].
         eexists. split; [apply list_lookup_insert_eq; by eapply lookup_lt_Some|].
         by rewrite Hfst.
    * rewrite list_lookup_insert_ne in Hc' by done. apply Hext; [|by eapply Hls].
      eapply (chain_disjoint Hwf); [exact Hc|exact Hc'|done|set_solver].
  + intros k rk Hk. rewrite (dat_off_insert _ _ _ _ _ Hj) by done.
    destruct (decide (j = k)) as [->|].
    * rewrite list_lookup_insert_eq in Hk by by eapply lookup_lt_Some.
      injection Hk as <-. simpl. by apply Hof.
    * rewrite list_lookup_insert_ne in Hk by done. by apply Hof.
Qed.

(** Taking a record off its chain: the pointer to it is replaced by its own
    pointer. *)
Lemma linkwf_unlink hdr recs chains D c la i lb r :
  linkwf hdr recs chains D → chains !! c = Some (la ++ i :: lb) → recs !! i = Some r →
  linkwf (set_hdr hdr (pred_loc c la) (r_ptr r)) (set_recs recs (pred_loc c la) (r_ptr r))
    (<[c := la ++ lb]> chains) (i :: D).
Proof.
  intros Hwf Hc Hi. pose proof Hwf as [Hs Hlen Hhd Hls Hof Hpm].
  destruct (chain_at _ _ _ _ _ _ _ _ _ Hwf Hc Hi) as (Hp & _ & Hne).
  assert (Hpok : ptr_ok (r_ptr r)) by (eapply (shape_get hdr recs (RecLoc i)); [done|];
    simpl; by rewrite Hi).
  pose proof (unlink_perm _ _ _ _ _ _ _ _ Hwf Hc) as Hperm.
  assert (Hcl : (c < length chains)%nat) by by eapply lookup_lt_Some.
  pose proof (Hls _ _ Hc) as Hl. apply lseg_app in Hl as [Hla [_ Hlb]].
  pose proof (chain_nodup Hwf _ _ Hc) as Hnd.
  pose proof (shape_set _ _ (pred_loc c la) _ Hs Hpok) as Hs'.
  unfold pred_loc in *. destruct (last la) as [j|] eqn:Hj; simpl in *.
  - apply last_Some in Hj as [la0 ->]. by apply linkwf_unlink_rec.
  - apply last_None in Hj as ->. simpl in *. split; try done; try by rewrite length_insert.
    + intros c' l' Hc'. destruct (decide (c = c')) as [<-|].
      * rewrite list_lookup_insert_eq in Hc' by done. injection Hc' as <-.
        rewrite list_lookup_insert_eq; [by rewrite Hp|]. rewrite (sh_len _ _ Hs). by rewrite <- Hlen.
      * rewrite list_lookup_insert_ne in Hc' by done. rewrite list_lookup_insert_ne by done.
        by apply Hhd.
    + intros c' l' Hc'. destruct (decide (c = c')) as [<-|].
      * rewrite list_lookup_insert_eq in Hc' by done. by injection Hc' as <-.
      * rewrite list_lookup_insert_ne in Hc' by done. by eapply Hls.
Qed.
