(* ===== verification/DbOps.v ===== *)
(** * The internal routines of db.c on a well-formed database.

    Each lemma gives the result of one routine and the new contents of the files
    in terms of the records and chains of DbInv. *)
From Stdlib Require Import Ascii ZArith Lia.
From stdpp Require Import base strings gmap option list.
From S2P Require Import Prelude CStr PosixFile Db DbLayout DbInv.

(** What every writing routine leaves alone: locks, errno and the fields of the
    DB structure other than the cursor. *)
Definition same (w w' : dbw) : Prop :=
  w_locks w' = w_locks w ∧ w_errno w' = w_errno w ∧ erase_db (w_db w') = erase_db (w_db w).

Lemma same_trans w1 w2 w3 : same w1 w2 → same w2 w3 → same w1 w3.
Proof. unfold same. intros (? & ? & ?) (? & ? & ?). repeat split; congruence. Qed.

Lemma view_same w w' : view w' = view w → same w w'.
Proof. unfold view, same. intros Hv. repeat split; congruence. Qed.

Lemma same_chainoff w w' : same w w' → chainoff (w_db w') = chainoff (w_db w).
Proof. intros (_ & _ & E). by apply (f_equal chainoff) in E. Qed.
Lemma same_nhash w w' : same w w' → nhash (w_db w') = nhash (w_db w).
Proof. intros (_ & _ & E). by apply (f_equal nhash) in E. Qed.
Lemma same_hashoff w w' : same w w' → hashoff (w_db w') = hashoff (w_db w).
Proof. intros (_ & _ & E). by apply (f_equal hashoff) in E. Qed.

(** ** Hashing *)

Lemma hash_loop_range i hv k : 0 <= hv → 0 <= hash_loop i hv k.
Proof.
  revert i hv. induction k as [|c k IH]; intros i hv H; simpl; [done|].
  apply IH. apply Z.mod_pos_bound. lia.
Qed.

Lemma khash_range k : 0 <= khash k < NHASH_DEF.
Proof. apply Z.mod_pos_bound. done. Qed.

(** The chain of a key. *)
Definition bucket (k : bytes) : nat := S (Z.to_nat (khash k)).

Lemma bucket_lt k : (bucket k < NPTR)%nat.
Proof. pose proof (khash_range k). unfold bucket, NPTR, NHASH_DEF in *. lia. Qed.

(** The offset of the bucket's slot of the hash table. *)
Lemma bucket_off k recs :
  khash k * Z.of_nat PTR_SZ + HASH_OFF = Z.of_nat (loc_off recs (HdrLoc (bucket k))).
Proof.
  pose proof (khash_range k). unfold bucket, HASH_OFF, PTR_SZ. simpl. lia.
Qed.

(** ** _db_find_and_lock *)

Lemma chain_fuel_enough w hdr recs chains D c l :
  db_files w hdr recs → linkwf hdr recs chains D → chains !! c = Some l →
  (length l < chain_fuel w)%nat.
Proof.
  intros Hf Hw Hc. pose proof (chain_length Hw _ _ Hc).
  pose proof (lw_shape _ _ _ _ Hw) as Hs. pose proof (recs_length_le recs (sh_recs _ _ Hs)).
  unfold chain_fuel. rewrite (df_idx _ _ _ Hf), (enc_idx_length _ _ Hs).
  unfold rec_off. rewrite firstn_all. lia.
Qed.

(** The state after the chain has been located and locked. *)
Definition locked (ty : locktype) (k : bytes) (w : dbw) : dbw :=
  w <| w_locks := [Flock IDX ty (khash k * Z.of_nat PTR_SZ + HASH_OFF) 1] |>
    <| w_db ::= λ d, d <| chainoff := khash k * Z.of_nat PTR_SZ + HASH_OFF |> |>.

Lemma find_and_lock_spec w hdr recs chains key (wr : bool) :
  db_files w hdr recs → linkwf hdr recs chains [] → w_locks w = [] → no_nul key →
  ∃ w' l, view w' = view (locked (if wr then WRLCK else RDLCK) key w) ∧
    chains !! bucket key = Some l ∧
    ((∀ i r, i ∈ l → recs !! i = Some r → r_key r ≠ key) ∧
       _db_find_and_lock key wr w = Done (-1) w'
     ∨ ∃ la i lb r, l = la ++ i :: lb ∧ r_key r = key ∧ at_rec w' recs i r ∧
         ptroff (w_db w') = Z.of_nat (loc_off recs (pred_loc (bucket key) la)) ∧
         _db_find_and_lock key wr w = Done 0 w').
Proof.
  intros Hf Hw Hlk Hk. set (ty := if wr then WRLCK else RDLCK).
  assert (Hl : ∃ l, chains !! bucket key = Some l).
  { apply lookup_lt_is_Some_2. rewrite (lw_len _ _ _ _ Hw). apply bucket_lt. }
  destruct Hl as [l Hl].
  set (co := khash key * Z.of_nat PTR_SZ + HASH_OFF).
  assert (Hstart : ∃ w1, view w1 = view (locked ty key w) ∧
    ptroff (w_db w1) = co ∧ ∀ (k : Z → prog dbw Z),
    (dbget ptroff ≫= λ po, _db_readptr po ≫= k : prog dbw Z)
      (locked ty key w <| w_db ::= λ d, d <| ptroff := co |> |>)
    = k (first recs l 0) w1).
  { set (w0 := locked ty key w <| w_db ::= λ d, d <| ptroff := co |> |>).
    assert (Hf0 : db_files w0 hdr recs) by by destruct Hf.
    destruct (readptr_view w0 hdr recs (HdrLoc (bucket key)) (first recs l 0))
      as (w1 & E1 & Hv1 & Hdb1); [done|apply Hw|by apply (lw_hdr _ _ _ _ Hw)|].
    exists w1. split; [|split].
    - rewrite Hv1. by destruct w as [? ? ? [] ?].
    - by rewrite Hdb1.
    - intros k. rewrite bind_dbget. change (ptroff (w_db w0)) with co.
      unfold co. rewrite (bucket_off key recs). by rewrite (bind_done _ _ _ _ _ E1). }
  destruct Hstart as (w1 & Hv1 & Hpo1 & Hstart).
  assert (Hf1 : db_files w1 hdr recs).
  { eapply db_files_view; [exact Hv1|]. by destruct Hf. }
  destruct (find_loop_spec (chain_fuel w1) w1 hdr recs key (bucket key) [] l)
    as (w' & Hv' & Hres); try done.
  { apply Hw. } { by apply (lw_lseg _ _ _ _ Hw) with (bucket key). }
  { by eapply chain_fuel_enough. } { rewrite Hpo1. apply bucket_off. }
  exists w', l. split; [by rewrite Hv'|]. split; [done|].
  assert (Hrun : _db_find_and_lock key wr w =
    (find_loop (chain_fuel w1) key (first recs l 0) ≫=
       λ offset, mret (if offset =? 0 then -1 else 0) : prog dbw Z) w1).
  { unfold _db_find_and_lock. rewrite !bind_dbset, bind_dbget.
    assert (E : ∀ k : unit → prog dbw Z,
      ((if wr then writew_lock IDX co 1 else readw_lock IDX co 1) ≫= k)
      (w <| w_db ::= λ d, d <| chainoff := _db_hash d key * Z.of_nat PTR_SZ + hashoff d |> |>
         <| w_db ::= λ d, d <| ptroff := chainoff d |> |>)
      = k tt (locked ty key w <| w_db ::= λ d, d <| ptroff := co |> |>)).
    { intros k. unfold ty. destruct Hf as [_ _ Hn Hh]. unfold co, locked, khash.
      destruct w as [? ? lk [] ?]. simpl in *. subst. unfold _db_hash. simpl.
      rewrite (cstr_id key) by done. by destruct wr. }
    assert (Eco : chainoff (w_db (w
      <| w_db ::= λ d, d <| chainoff := _db_hash d key * Z.of_nat PTR_SZ + hashoff d |> |>
      <| w_db ::= λ d, d <| ptroff := chainoff d |> |>)) = co).
    { destruct Hf as [_ _ Hn Hh]. unfold co, khash, _db_hash. simpl.
      by rewrite Hn, Hh, (cstr_id key). }
    rewrite Eco, E. by rewrite Hstart. }
  rewrite Hrun. pose proof first_nonzero as Hnz.
  destruct Hres as [[Hno E]|(la & i & lb & r & -> & Hr & Ha & Hpo & E)]; [left|right].
  - split; [done|]. by rewrite (bind_done _ _ _ _ _ E).
  - exists la, i, lb, r. repeat (split; [done|]). rewrite (bind_done _ _ _ _ _ E).
    unfold mret, prog_ret. pose proof (rec_off_pos recs i). unfold HDR in *.
    by rewrite (proj2 (Z.eqb_neq _ 0)) by lia.
Qed.

(** ** Small facts on updates of the contents *)

Lemma enc_dats_ext recs recs' : r_data <$> recs = r_data <$> recs' → enc_dats recs = enc_dats recs'.
Proof.
  intros H. unfold enc_dats. f_equal.
  assert (E : ∀ l : list irec, enc_dat <$> l = (λ x : bytes, x ++ [NEWLINE]) <$> (r_data <$> l)).
  { intros l. rewrite <- list_fmap_compose. by apply list_fmap_ext. }
  by rewrite !E, H.
Qed.

Lemma data_kd (recs : list irec) : r_data <$> recs = snd <$> (kd <$> recs).
Proof. rewrite <- list_fmap_compose. by apply list_fmap_ext. Qed.

Lemma kd_set_recs recs l p : kd <$> set_recs recs l p = kd <$> recs.
Proof.
  destruct l as [j|i]; simpl; [done|]. case_match eqn:E; [|done].
  rewrite list_fmap_insert. apply list_insert_id.
  by rewrite list_lookup_fmap, E.
Qed.

Lemma set_recs_insert recs i r l p : l ≠ RecLoc i →
  set_recs (<[i := r]> recs) l p = <[i := r]> (set_recs recs l p).
Proof.
  intros Hne. destruct l as [j|j]; simpl; [done|].
  rewrite list_lookup_insert_ne by congruence. case_match; [|done].
  apply list_insert_insert_ne. congruence.
Qed.

Lemma set_hdr_insert hdr c x l p : l ≠ HdrLoc c →
  set_hdr (<[c := x]> hdr) l p = <[c := x]> (set_hdr hdr l p).
Proof.
  intros Hne. destruct l as [j|j]; simpl; [|done]. apply list_insert_insert_ne. congruence.
Qed.

Lemma length_set_recs recs l p : length (set_recs recs l p) = length recs.
Proof. destruct l; simpl; [done|]. case_match; [by rewrite length_insert|done]. Qed.

Lemma rec_off_set_recs hdr recs l p k : shape hdr recs → ptr_ok p →
  rec_off (set_recs recs l p) k = rec_off recs k.
Proof.
  intros Hs Hp. destruct l as [j|j]; simpl; [done|]. case_match eqn:E; [|done].
  assert (Hr : rec_ok i) by (by eapply Forall_lookup_1; [apply Hs|]).
  apply (rec_off_insert _ _ _ _ _ E). rewrite !enc_rec_length; [done|done|].
  by apply set_ptr_ok.
Qed.

Lemma enc_idx_length_eq hdr recs hdr' recs' :
  shape hdr recs → shape hdr' recs' → length recs' = length recs →
  (∀ k, rec_off recs' k = rec_off recs k) →
  length (enc_idx hdr' recs') = length (enc_idx hdr recs).
Proof. intros. rewrite !enc_idx_length by done. congruence. Qed.

(** The slots of different chains, and of a chain and a record, are different
    places. *)
Lemma pred_loc_hdr c la c' : pred_loc c la = HdrLoc c' → c = c' ∧ la = [].
Proof.
  unfold pred_loc. destruct (last la) eqn:E; [done|]. intros [= ->].
  by apply last_None in E.
Qed.

(** ** Deleted records *)

(** Record [r] with its key and its data blanked out. *)
Definition blank_rec (r : irec) (p : Z) : irec :=
  mkRec p (replicate (length (r_key r)) SPACE) (r_datoff r)
    (replicate (length (r_data r)) SPACE).

Lemma blank_body_length r p : length (enc_body (blank_rec r p)) = length (enc_body r).
Proof.
  unfold enc_body, r_datlen, blank_rec. simpl. rewrite !length_app, !length_replicate. done.
Qed.

Lemma blank_rec_ok r p : rec_ok r → ptr_ok p → rec_ok (blank_rec r p).
Proof.
  intros [_ Hk Hs Ho Hd Hl Hn] Hp. split; try done.
  - by apply no_nul_replicate.
  - intros H. apply elem_of_replicate in H as [? _]. done.
  - by apply no_nul_replicate.
  - unfold r_datlen. simpl. by rewrite length_replicate.
  - by rewrite blank_body_length.
Qed.

Lemma all_blank_replicate n : all_blank (replicate n SPACE) = true.
Proof. by induction n. Qed.

(** The offset of a record is a valid pointer as soon as it is stored. *)
Lemma stored_ptr_ok hdr recs chains D c la i lb r :
  linkwf hdr recs chains D → chains !! c = Some (la ++ i :: lb) → recs !! i = Some r →
  ptr_ok (Z.of_nat (rec_off recs i)).
Proof.
  intros Hw Hc Hi. destruct (chain_at _ _ _ _ _ _ _ _ _ Hw Hc Hi) as (_ & Hg & _).
  by apply (shape_get _ _ _ _ (lw_shape _ _ _ _ Hw) Hg).
Qed.

(** The contents after record [i] has been blanked, put at the front of the free
    list and taken off its chain. *)
Section delete.
Context {hdr : list Z} {recs : list irec} {chains : list (list nat)} {h i : nat}.
Context {la lb F : list nat} {r : irec}.
Context (Hw : linkwf hdr recs chains []) (Hc : chains !! S h = Some (la ++ i :: lb))
  (H0 : chains !! 0%nat = Some F) (Hi : recs !! i = Some r).

Let r1 : irec := blank_rec r (first recs F 0).
Let lp : ploc := pred_loc (S h) la.
Let hdr1 : list Z := <[0%nat := Z.of_nat (rec_off recs i)]> hdr.
Let recs1 : list irec := <[i := r1]> recs.

Lemma del_free_ok : ptr_ok (first recs F 0).
Proof.
  pose proof (lw_hdr _ _ _ _ Hw _ _ H0) as Hfree.
  by apply (shape_get hdr recs (HdrLoc 0) _ (lw_shape _ _ _ _ Hw)).
Qed.

Lemma del_rec_ok : rec_ok r.
Proof. eapply Forall_lookup_1; [apply (lw_shape _ _ _ _ Hw)|done]. Qed.

Lemma del_r1_ok : rec_ok r1.
Proof. apply blank_rec_ok; [apply del_rec_ok|apply del_free_ok]. Qed.

Lemma del_off k : rec_off recs1 k = rec_off recs k.
Proof.
  apply (rec_off_insert _ _ _ _ _ Hi).
  rewrite !enc_rec_length by (apply del_r1_ok || apply del_rec_ok).
  unfold r1. by rewrite blank_body_length.
Qed.

Lemma del_shape1 : shape hdr recs1.
Proof.
  destruct (lw_shape _ _ _ _ Hw). split; [done..|].
  apply Forall_insert; [done|apply del_r1_ok].
Qed.

Lemma del_shape2 : shape hdr1 recs1.
Proof.
  apply (shape_set _ _ (HdrLoc 0)); [apply del_shape1|].
  by eapply (stored_ptr_ok _ _ _ _ _ _ _ _ _ Hw Hc).
Qed.

Lemma del_lp_ne : lp ≠ HdrLoc 0 ∧ lp ≠ RecLoc i.
Proof.
  split; [intros [? _]%pred_loc_hdr; done|].
  by destruct (chain_at _ _ _ _ _ _ _ _ _ Hw Hc Hi) as (_ & _ & ?).
Qed.

Lemma del_lp_off : loc_off recs1 lp = loc_off recs lp.
Proof. destruct lp; simpl; [done|apply del_off]. Qed.

Lemma del_lp_get : loc_get hdr1 recs1 lp = Some (Z.of_nat (rec_off recs i)).
Proof.
  destruct (chain_at _ _ _ _ _ _ _ _ _ Hw Hc Hi) as (_ & Hg & _).
  destruct del_lp_ne as [Hne0 Hne]. fold lp in Hg. rewrite <- Hg. unfold hdr1, recs1.
  destruct lp as [j|j]; simpl; rewrite list_lookup_insert_ne; congruence.
Qed.

Lemma del_linkwf :
  linkwf (set_hdr hdr1 lp (r_ptr r)) (set_recs recs1 lp (r_ptr r))
    (<[0%nat := i :: F]> (<[S h := la ++ lb]> chains)) [].
Proof.
  pose proof (linkwf_unlink _ _ _ _ _ _ _ _ _ Hw Hc Hi) as Hw1. fold lp in Hw1.
  destruct del_lp_ne as [Hne0 Hne].
  assert (Hpr : ptr_ok (r_ptr r)) by apply del_rec_ok.
  assert (Hi1 : set_recs recs lp (r_ptr r) !! i = Some r).
  { destruct lp as [j|j]; simpl; [done|]. case_match; [|done].
    rewrite list_lookup_insert_ne; congruence. }
  pose proof (linkwf_rewrite Hw1 i r r1 ltac:(left; left) Hi1 del_r1_ok eq_refl
    ltac:(apply blank_body_length) ltac:(simpl; by rewrite length_replicate)) as Hw2.
  rewrite <- set_recs_insert in Hw2 by done. fold recs1 in Hw2.
  assert (Hoff2 : ∀ k, rec_off (set_recs recs1 lp (r_ptr r)) k = rec_off recs k).
  { intros k. rewrite (rec_off_set_recs hdr); [apply del_off|apply del_shape1|done]. }
  apply (linkwf_push _ _ _ _ i r1 0 F) in Hw2.
  - by rewrite Hoff2, <- set_hdr_insert in Hw2.
  - by rewrite list_lookup_insert_ne.
  - unfold recs1. rewrite set_recs_insert by done. apply list_lookup_insert_eq.
    rewrite length_set_recs. by eapply lookup_lt_Some.
  - simpl. apply first_ext. intros. by rewrite Hoff2.
  - rewrite Hoff2. by eapply (stored_ptr_ok _ _ _ _ _ _ _ _ _ Hw Hc).
Qed.

Lemma del_length : length (enc_idx (set_hdr hdr1 lp (r_ptr r)) (set_recs recs1 lp (r_ptr r)))
  = length (enc_idx hdr recs).
Proof.
  apply enc_idx_length_eq; [apply Hw|apply del_linkwf| |].
  - rewrite length_set_recs. unfold recs1. by rewrite length_insert.
  - intros k. rewrite (rec_off_set_recs hdr); [apply del_off|apply del_shape1|].
    apply del_rec_ok.
Qed.
End delete.

(** [_db_dodelete]: record [i] moves from its hash chain to the front of the
    free list, with key and data blanked. *)
Lemma dodelete_spec `{Libc} w hdr recs chains h la i lb r F :
  db_files w hdr recs → linkwf hdr recs chains [] →
  chains !! S h = Some (la ++ i :: lb) → chains !! 0%nat = Some F →
  at_rec w recs i r → ptroff (w_db w) = Z.of_nat (loc_off recs (pred_loc (S h) la)) →
  unheld IDX FREE_OFF 1 (w_locks w) → sprintf_self = true →
  ∃ w' hdr' recs', _db_dodelete w = Done tt w' ∧ db_files w' hdr' recs' ∧
    linkwf hdr' recs' (<[0%nat := i :: F]> (<[S h := la ++ lb]> chains)) [] ∧
    kd <$> recs' = <[i := kd (blank_rec r 0)]> (kd <$> recs) ∧ same w w' ∧
    length (fdata (w_idx w')) = length (fdata (w_idx w)).
Proof.
  intros Hf Hw Hc H0 Ha Hpo Hlk Hself. pose proof Ha as [Hi Hio Hpv Hkey Hdo Hdl].
  pose proof (lw_shape _ _ _ _ Hw) as Hs.
  set (r1 := blank_rec r (first recs F 0)).
  assert (Hr1 : rec_ok r1) by exact (del_r1_ok Hw H0 Hi).
  assert (Hr : rec_ok r) by exact (del_rec_ok Hw Hi).
  unfold _db_dodelete. rewrite bind_dbget, Hdl, !bind_dbset.
  replace (Z.to_nat (r_datlen r - 1)) with (length (r_data r)) by (unfold r_datlen; lia).
  unfold writew_lock, lock_reg. rewrite bind_modify, !bind_dbget.
  set (w1 := _ <| w_locks ::= _ |>).
  assert (Hd1 : cstr (datbuf (w_db w1)) = r_data r1).
  { simpl. rewrite put_at_0, <- app_assoc. apply cstr_app. by apply no_nul_replicate. }
  assert (Hk1 : cstr (idxbuf (w_db w1)) = r_key r1).
  { simpl. rewrite cstr_blank. unfold strlen. by rewrite Hkey. }
  assert (Hdo1 : datoff (w_db w1) = Z.of_nat (dat_off recs i)).
  { simpl. rewrite Hdo. by apply Hw. }
  rewrite Hdo1. erewrite bind_done; [|apply writedat_set_spec; [apply Hf|exact Hi|
    rewrite Hd1; simpl; by rewrite length_replicate]].
  rewrite Hd1. set (w2 := _ <| w_db ::= _ |>).
  erewrite bind_done; [|apply (readptr_spec w2 hdr recs (HdrLoc 0) (first recs F 0));
    [apply Hf|done|by apply (lw_hdr _ _ _ _ Hw)]].
  rewrite !bind_dbget. set (w3 := with_fd IDX _ w2).
  assert (Hio3 : idxoff (w_db w3) = Z.of_nat (rec_off recs i)) by exact Hio.
  rewrite Hio3. erewrite bind_done; [|apply (writeidx_set_spec w3 hdr recs i r r1);
    [done|done|done|done|apply blank_body_length|exact Hself|exact Hk1| |]]; cycle 1.
  { transitivity (Z.of_nat (dat_off recs i)); [done|]. simpl. symmetry. by apply Hw. }
  { transitivity (r_datlen r); [done|]. unfold r_datlen. simpl. by rewrite length_replicate. }
  set (w4 := _ <| w_db ::= written_db _ _ |>). rewrite bind_dbget.
  change (idxoff (w_db w4)) with (Z.of_nat (rec_off recs i)).
  erewrite bind_done; [|apply (writeptr_spec w4 hdr (<[i := r1]> recs) (HdrLoc 0) (first recs F 0));
    [done|exact (del_shape1 Hw H0 Hi)|by apply (lw_hdr _ _ _ _ Hw)|
     exact (stored_ptr_ok _ _ _ _ _ _ _ _ _ Hw Hc Hi)]].
  set (w5 := with_fd IDX _ w4). rewrite bind_dbget.
  assert (Hpo5 : ptroff (w_db w5) = Z.of_nat (loc_off (<[i := r1]> recs) (pred_loc (S h) la))).
  { unfold r1. rewrite (del_lp_off Hw H0 Hi). exact Hpo. }
  rewrite Hpo5. change (ptrval (w_db w3)) with (ptrval (w_db w)). rewrite Hpv.
  erewrite bind_done; [|apply (writeptr_spec w5 _ _ (pred_loc (S h) la) _ _ eq_refl
    (del_shape2 Hw Hc H0 Hi) (del_lp_get Hw Hc Hi)); apply Hr].
  eexists _, _, _. split; [done|]. split; [split|split; [exact (del_linkwf Hw Hc H0 Hi)|split; [|split]]].
  - done.
  - simpl. apply enc_dats_ext. by rewrite (data_kd (set_recs _ _ _)), kd_set_recs, <- data_kd,
      !list_fmap_insert.
  - apply Hf.
  - apply Hf.
  - by rewrite kd_set_recs, list_fmap_insert.
  - split; [|split; [done|by destruct w as [? ? ? [] ?]]]. simpl. by apply unlock_lock.
  - simpl. rewrite (df_idx _ _ _ Hf). exact (del_length Hw Hc H0 Hi).
Qed.

(** With a sprintf that may not be given its own destination, the call is undefined as
    soon as it formats the index record. *)
Lemma dodelete_undef `{Libc} w hdr recs chains F i r :
  db_files w hdr recs → linkwf hdr recs chains [] → chains !! 0%nat = Some F →
  at_rec w recs i r → sprintf_self = false → ∃ w', _db_dodelete w = Undef w'.
Proof.
  intros Hf Hw H0 [Hi _ _ _ Hdo Hdl] Hself. pose proof (lw_hdr _ _ _ _ Hw 0%nat F H0) as Hfp.
  pose proof (shape_get hdr recs (HdrLoc 0) _ (lw_shape _ _ _ _ Hw) Hfp) as [Hp1 Hp2].
  unfold _db_dodelete. rewrite bind_dbget, Hdl, !bind_dbset.
  replace (Z.to_nat (r_datlen r - 1)) with (length (r_data r)) by (unfold r_datlen; lia).
  unfold writew_lock, lock_reg. rewrite bind_modify, !bind_dbget. set (w1 := _ <| w_locks ::= _ |>).
  assert (Hd1 : cstr (datbuf (w_db w1)) = replicate (length (r_data r)) SPACE).
  { simpl. rewrite put_at_0, <- app_assoc. apply cstr_app. by apply no_nul_replicate. }
  assert (Hdo1 : datoff (w_db w1) = Z.of_nat (dat_off recs i)).
  { simpl. rewrite Hdo. by apply Hw. }
  rewrite Hdo1. erewrite bind_done; [|apply writedat_set_spec; [apply Hf|exact Hi|
    rewrite Hd1; by rewrite length_replicate]].
  set (w2 := _ <| w_db ::= _ |>).
  erewrite bind_done; [|apply (readptr_spec w2 hdr recs (HdrLoc 0) (first recs F 0)); [apply Hf|apply Hw|done]].
  rewrite !bind_dbget. unfold _db_writeidx. rewrite !bind_assoc, bind_dbset, bind_assoc.
  rewrite bind_check_true by lia. rewrite !bind_assoc, !bind_dbget. simpl key_defined. rewrite Hself.
  eexists. reflexivity.
Qed.

(** ** _db_findfree *)

(** Either no free record has the sizes asked for and nothing changes, or the
    first such record is taken off the free list and the DB structure describes
    it. *)
Lemma findfree_spec w hdr recs chains keylen dlen F :
  db_files w hdr recs → linkwf hdr recs chains [] → chains !! 0%nat = Some F →
  unheld IDX FREE_OFF 1 (w_locks w) →
  ∃ w', same w w' ∧ length (fdata (w_idx w')) = length (fdata (w_idx w)) ∧
    (_db_findfree keylen dlen w = Done (-1) w' ∧ db_files w' hdr recs
     ∨ ∃ la i lb r hdr' recs', F = la ++ i :: lb ∧ length (r_key r) = keylen ∧
         r_datlen r = dlen ∧ _db_findfree keylen dlen w = Done 0 w' ∧
         db_files w' hdr' recs' ∧ linkwf hdr' recs' (<[0%nat := la ++ lb]> chains) [i] ∧
         at_rec w' recs' i r ∧ kd <$> recs' = kd <$> recs ∧
         ∀ k, rec_off recs' k = rec_off recs k).
Proof.
  intros Hf Hw H0 Hlk. unfold _db_findfree, writew_lock, lock_reg. rewrite bind_modify.
  set (w1 := w <| w_locks ::= _ |>).
  assert (Hf1 : db_files w1 hdr recs) by by destruct Hf.
  destruct (readptr_view w1 hdr recs (HdrLoc 0) (first recs F 0)) as (w2 & E2 & Hv2 & _);
    [done|apply Hw|by apply (lw_hdr _ _ _ _ Hw)|].
  assert (Hf2 : db_files w2 hdr recs) by by eapply db_files_view.
  change (_db_readptr FREE_OFF) with (_db_readptr (Z.of_nat (loc_off recs (HdrLoc 0)))).
  rewrite (bind_done _ _ _ _ _ E2), bind_gets.
  destruct (findfree_loop_spec (chain_fuel w2) w2 hdr recs keylen dlen 0 [] F)
    as (w3 & Hv3 & Hres); [done|apply Hw|by apply (lw_lseg _ _ _ _ Hw) with 0%nat| |].
  { by eapply chain_fuel_enough. }
  assert (Hlocks : filter (λ l, ¬ (l_file l = IDX ∧ l_start l = FREE_OFF ∧ l_len l = 1)) (w_locks w3)
    = w_locks w).
  { rewrite (view_locks _ _ Hv3), (view_locks _ _ Hv2). by apply unlock_lock. }
  assert (Hf3 : db_files w3 hdr recs) by by eapply db_files_view.
  assert (Hs3 : same w (w3 <| w_locks := w_locks w |>)).
  { pose proof (view_same _ _ Hv3) as (_ & He3 & Hd3).
    pose proof (view_same _ _ Hv2) as (_ & He2 & Hd2).
    split; [done|split; simpl; [by rewrite He3, He2|by rewrite Hd3, Hd2]]. }
  destruct Hres as [[sv E]|(la & i & lb & r & -> & Hk & Hd & Ha & E)].
  - exists (w3 <| w_locks := w_locks w |>). split; [done|]. split; [|left; split].
    + simpl. by rewrite (view_idx _ _ Hv3), (view_idx _ _ Hv2).
    + change (findfree_loop (chain_fuel w2) keylen dlen FREE_OFF) with
        (findfree_loop (chain_fuel w2) keylen dlen (Z.of_nat (loc_off recs (pred_loc 0 [])))).
      rewrite (bind_done _ _ _ _ _ E). simpl. rewrite bind_ret.
      unfold un_lock. rewrite bind_modify. unfold mret, prog_ret. f_equal.
      destruct w3. simpl in *. by rewrite Hlocks.
    + by destruct Hf3.
  - pose proof (lw_shape _ _ _ _ Hw) as Hs. pose proof Ha as [Hi Hio Hpv Hkey Hdo Hdl].
    destruct (chain_at _ _ _ _ _ _ _ _ _ Hw H0 Hi) as (Hp & Hg & Hne).
    pose proof (linkwf_unlink _ _ _ _ _ _ _ _ _ Hw H0 Hi) as Hw'.
    assert (Hpr : ptr_ok (r_ptr r)) 
      by exact (rok_ptr r (Forall_lookup_1 _ _ _ _ (sh_recs _ _ Hs) Hi)).
    set (hdr' := set_hdr hdr (pred_loc 0 la) (r_ptr r)) in *.
    set (recs' := set_recs recs (pred_loc 0 la) (r_ptr r)) in *.
    pose proof (writeptr_spec w3 hdr recs (pred_loc 0 la) _ (r_ptr r) (df_idx _ _ _ Hf3) Hs Hg Hpr)
      as Ew. fold hdr' recs' in Ew.
    exists (with_fd IDX (File (enc_idx hdr' recs') (Z.of_nat (loc_off recs (pred_loc 0 la) + PTR_SZ)))
      (w3 <| w_locks := w_locks w |>)).
    split; [by destruct Hs3 as (? & ? & ?)|]. split; [|right].
    + simpl. rewrite (df_idx _ _ _ Hf).
      apply enc_idx_length_eq; [done|apply Hw'|apply length_set_recs|].
      intros k. by eapply rec_off_set_recs.
    + exists la, i, lb, r, hdr', recs'. split; [done|]. split; [done|]. split; [done|].
      split; [|split; [|split; [done|split]]].
      * change (findfree_loop (chain_fuel w2) keylen dlen FREE_OFF) with
        (findfree_loop (chain_fuel w2) keylen dlen (Z.of_nat (loc_off recs (pred_loc 0 [])))).
        rewrite (bind_done _ _ _ _ _ E). simpl app.
        pose proof (rec_off_pos recs i). unfold HDR in *.
        rewrite (proj2 (Z.eqb_neq _ 0)) by lia. rewrite bind_assoc, bind_dbget, Hpv.
        rewrite bind_assoc, (bind_done _ _ _ _ _ Ew), bind_ret.
        unfold un_lock. rewrite bind_modify. unfold mret, prog_ret. f_equal.
        destruct w3. simpl in *. by rewrite Hlocks.
      * split; [done| |by destruct Hf3..]. simpl.
        rewrite (df_dat _ _ _ Hf3). apply enc_dats_ext. unfold recs'.
        by rewrite (data_kd (set_recs _ _ _)), kd_set_recs, <- data_kd.
      * split; [|simpl; rewrite Hio; unfold recs'; by erewrite rec_off_set_recs|done..].
        unfold recs'. destruct (pred_loc 0 la) as [j|j]; simpl; [done|].
        case_match; [|done]. rewrite list_lookup_insert_ne; congruence.
      * split; [apply kd_set_recs|]. intros k. by eapply rec_off_set_recs.
Qed.

(** ** Storing a new record *)

(** Keys and data the database can hold: C strings, no separator in the key,
    lengths within the limits whatever the offset in the data file. *)
Definition KEY_MAX : Z := 1008.
Record key_ok (k : bytes) : Prop := {
  ko_nul : no_nul k;
  ko_sep : SEP ∉ k;
  ko_len : 1 <= Z.of_nat (length k) <= KEY_MAX }.
Record data_ok (d : bytes) : Prop := {
  do_nul : no_nul d;
  do_len : 1 <= Z.of_nat (length d) <= DATLEN_MAX - 1 }.

#[export] Instance key_ok_dec k : Decision (key_ok k).
Proof.
  refine (cast_if (decide (no_nul k ∧ SEP ∉ k ∧ (1 <= Z.of_nat (length k) <= KEY_MAX))));
    abstract (split_and?; first [by destruct_and!; split|intros []; tauto]).
Defined.
#[export] Instance data_ok_dec d : Decision (data_ok d).
Proof.
  refine (cast_if (decide (no_nul d ∧ (1 <= Z.of_nat (length d) <= DATLEN_MAX - 1))));
    abstract (split_and?; first [by destruct_and!; split|intros []; tauto]).
Defined.

(** There is room for a record at the end of the index file: its offset is a
    valid pointer. *)
Definition room (w : dbw) : Prop := Z.of_nat (length (fdata (w_idx w))) <= PTR_MAX.

Lemma new_rec_ok hdr recs p k d :
  shape hdr recs → Z.of_nat (length (enc_idx hdr recs)) <= PTR_MAX → ptr_ok p →
  key_ok k → data_ok d → rec_ok (mkRec p k (Z.of_nat (length (enc_dats recs))) d).
Proof.
  intros Hs Hroom Hp [Hk1 Hk2 Hk3] [Hd1 Hd2].
  pose proof (recs_length_le recs (sh_recs _ _ Hs)).
  pose proof (dats_length_le recs (sh_recs _ _ Hs)).
  rewrite (enc_idx_length _ _ Hs) in Hroom. unfold rec_off in Hroom.
  rewrite firstn_all in Hroom. unfold PTR_MAX, HDR, KEY_MAX, DATLEN_MAX in *.
  set (o := Z.of_nat (length (enc_dats recs))) in *.
  assert (Ho : 0 <= o < 10 ^ Z.of_nat 9) by (change (10 ^ Z.of_nat 9) with 1000000000; lia).
  split; simpl; try done; unfold r_datlen, DATLEN_MAX; simpl; [|lia|].
  - change (10 ^ Z.of_nat 9) with 1000000000 in Ho. lia.
  - set (n := Z.of_nat (length d) + 1) in *.
    assert (Hn : 0 <= n < 10 ^ Z.of_nat 4) by (change (10 ^ Z.of_nat 4) with 10000; lia).
    pose proof (udec_length_le o 9 Ho ltac:(lia)). pose proof (udec_length_le n 4 Hn ltac:(lia)).
    pose proof (udec_length_pos o ltac:(lia)). pose proof (udec_length_pos n ltac:(lia)).
    unfold enc_body, r_datlen, dec, IDXLEN_MIN, IDXLEN_MAX. simpl. fold n.
    rewrite (proj2 (Z.ltb_ge o 0)), (proj2 (Z.ltb_ge n 0)) by lia.
    rewrite !length_app. cbn [length]. rewrite !length_app. cbn [length].
    rewrite !length_app. cbn [length]. lia.
Qed.

Lemma store_append_spec `{Libc} w hdr recs chains c l key data :
  db_files w hdr recs → linkwf hdr recs chains [] → chains !! c = Some l →
  key_ok key → data_ok data → room w →
  chainoff (w_db w) = Z.of_nat (loc_off recs (HdrLoc c)) →
  unheld DAT 0 0 (w_locks w) → unheld IDX (Z.of_nat HDR) 0 (w_locks w) →
  ∃ w' hdr' recs', store_append key data (first recs l 0) w = Done tt w' ∧
    db_files w' hdr' recs' ∧ linkwf hdr' recs' (<[c := length recs :: l]> chains) [] ∧
    kd <$> recs' = (kd <$> recs) ++ [(key, data)] ∧ same w w'.
Proof.
  intros Hf Hw Hc Hk Hd Hroom Hco Hl1 Hl2. pose proof (lw_shape _ _ _ _ Hw) as Hs.
  pose proof (lw_hdr _ _ _ _ Hw _ _ Hc) as Hcp. set (p := first recs l 0) in *.
  assert (Hp : ptr_ok p) by by apply (shape_get hdr recs (HdrLoc c)).
  set (r := mkRec p key (Z.of_nat (length (enc_dats recs))) data).
  assert (Hr : rec_ok r).
  { apply (new_rec_ok hdr); try done. unfold room in Hroom. by rewrite (df_idx _ _ _ Hf) in Hroom. }
  assert (Hdat : dat_off recs (length recs) = length (enc_dats recs)).
  { unfold dat_off. by rewrite firstn_all. }
  pose proof (linkwf_append Hw r Hr ltac:(by rewrite Hdat)) as Hw1.
  assert (Hnew : (recs ++ [r]) !! length recs = Some r) by by apply list_lookup_middle.
  assert (Hoff : rec_off (recs ++ [r]) (length recs) = rec_off recs (length recs))
    by by apply rec_off_app.
  assert (Hok : ptr_ok (Z.of_nat (rec_off recs (length recs)))).
  { unfold room in Hroom. rewrite (df_idx _ _ _ Hf), (enc_idx_length _ _ Hs) in Hroom.
    unfold ptr_ok. lia. }
  assert (Hfst : r_ptr r = first (recs ++ [r]) l 0).
  { simpl. apply first_ext. intros k Hkl. symmetry. apply rec_off_app.
    destruct (chain_lookup Hw _ _ _ Hc Hkl) as [? ?%lookup_lt_Some]. lia. }
  pose proof (linkwf_push _ _ _ _ _ _ _ _ Hw1 Hc Hnew Hfst ltac:(by rewrite Hoff)) as Hw2.
  rewrite Hoff in Hw2. unfold store_append.
  assert (Hcd : cstr data = data) by (apply cstr_id, Hd).
  erewrite bind_done; [|by apply writedat_end_spec]. rewrite Hcd.
  set (w1 := _ <| w_db ::= _ |>).
  erewrite bind_done; [|apply (writeidx_end_spec w1 hdr recs r (KeyStr key));
    [apply Hf|done|done|done|by apply cstr_id, Hk| |done|]]; cycle 1.
  { transitivity (fsize (w_dat w)); [done|]. unfold fsize. by rewrite (df_dat _ _ _ Hf). }
  { change (nhash (w_db w1)) with (nhash (w_db w)). by rewrite (df_nhash _ _ _ Hf). }
  set (w2 := _ <| w_db ::= written_db _ _ |>). rewrite !bind_dbget.
  change (chainoff (w_db w2)) with (chainoff (w_db w)). rewrite Hco.
  change (idxoff (w_db w2)) with (Z.of_nat (rec_off recs (length recs))).
  eexists _, _, _. split; [|split; [|split; [exact Hw2|split]]].
  - apply (writeptr_spec w2 hdr (recs ++ [r]) (HdrLoc c) p); [done|apply Hw1|done|done].
  - split; [done| |apply Hf|apply Hf]. simpl. rewrite (df_dat _ _ _ Hf). unfold enc_dats.
    rewrite fmap_app, concat_app. simpl. by rewrite app_nil_r.
  - by rewrite fmap_app.
  - split; [done|split; [done|]]. by destruct w as [? ? ? [] ?].
Qed.

Lemma store_reuse_spec `{Libc} w hdr recs chains c l i r key data :
  db_files w hdr recs → linkwf hdr recs chains [i] → chains !! c = Some l →
  at_rec w recs i r → length (r_key r) = length key → length (r_data r) = length data →
  key_ok key → data_ok data → ptr_ok (Z.of_nat (rec_off recs i)) →
  chainoff (w_db w) = Z.of_nat (loc_off recs (HdrLoc c)) →
  ∃ w' hdr' recs', store_reuse key data (first recs l 0) w = Done tt w' ∧
    db_files w' hdr' recs' ∧ linkwf hdr' recs' (<[c := i :: l]> chains) [] ∧
    kd <$> recs' = <[i := (key, data)]> (kd <$> recs) ∧ same w w'.
Proof.
  intros Hf Hw Hc Ha Hkl Hdl' Hk Hd Hok Hco. pose proof (lw_shape _ _ _ _ Hw) as Hs.
  pose proof Ha as [Hi Hio _ _ Hdo Hdlen].
  pose proof (lw_hdr _ _ _ _ Hw _ _ Hc) as Hcp. set (p := first recs l 0) in *.
  assert (Hp : ptr_ok p) by by apply (shape_get hdr recs (HdrLoc c)).
  assert (Hrok : rec_ok r) by (by eapply Forall_lookup_1; [apply Hs|]).
  set (r' := mkRec p key (r_datoff r) data).
  assert (Hdl : r_datlen r' = r_datlen r) by (unfold r_datlen; simpl; lia).
  assert (Hbl : length (enc_body r') = length (enc_body r)).
  { unfold enc_body. rewrite Hdl. simpl. rewrite !length_app. lia. }
  assert (Hr' : rec_ok r').
  { destruct Hrok as [? ? ? ? ? ? ?]. split; try done; try apply Hk; try apply Hd; congruence. }
  pose proof (linkwf_rewrite Hw i r r' ltac:(left; left) Hi Hr' eq_refl Hbl (eq_sym Hdl')) as Hw1.
  assert (Hoff : ∀ k, rec_off (<[i := r']> recs) k = rec_off recs k).
  { intros k. apply (rec_off_insert _ _ _ _ _ Hi). rewrite !enc_rec_length by done. lia. }
  assert (Hi1 : <[i := r']> recs !! i = Some r').
  { apply list_lookup_insert_eq. by eapply lookup_lt_Some. }
  assert (Hfst : r_ptr r' = first (<[i := r']> recs) l 0).
  { simpl. apply first_ext. intros. by rewrite Hoff. }
  pose proof (linkwf_push _ _ _ _ _ _ _ _ Hw1 Hc Hi1 Hfst ltac:(by rewrite Hoff)) as Hw2.
  rewrite Hoff in Hw2.
  assert (Hcd : cstr data = data) by (apply cstr_id, Hd).
  assert (Hoo : r_datoff r = Z.of_nat (dat_off recs i)) by by apply Hw.
  unfold store_reuse. rewrite bind_dbget, Hdo, Hoo.
  erewrite bind_done; [|apply writedat_set_spec; [apply Hf|exact Hi|by rewrite Hcd]].
  rewrite Hcd. set (w1 := _ <| w_db ::= _ |>). rewrite bind_dbget.
  change (idxoff (w_db w1)) with (idxoff (w_db w)). rewrite Hio.
  erewrite bind_done; [|apply (writeidx_set_spec w1 hdr recs i r r' (KeyStr key));
    [apply Hf|done|done|done|done|done|by apply cstr_id, Hk|symmetry; exact Hoo|done]].
  set (w2 := _ <| w_db ::= written_db _ _ |>). rewrite !bind_dbget.
  change (chainoff (w_db w2)) with (chainoff (w_db w)). rewrite Hco.
  change (idxoff (w_db w2)) with (Z.of_nat (rec_off recs i)).
  eexists _, _, _. split; [|split; [|split; [exact Hw2|split]]].
  - apply (writeptr_spec w2 hdr (<[i := r']> recs) (HdrLoc c) p); [done|apply Hw1|done|done].
  - split; [done| |apply Hf|apply Hf]. simpl. apply enc_dats_ext.
    by rewrite !list_fmap_insert.
  - by rewrite list_fmap_insert.
  - split; [done|split; [done|]]. by destruct w as [? ? ? [] ?].
Qed.
