(* ===== verification/DbSem.v ===== *)
(** * The map held by a database under the steps of the operations.

    Pure lemmas on keys, data and chains: what taking a record off a chain,
    rewriting it and pushing it on a chain do to [keywf] and to the stored
    associations. *)
From Stdlib Require Import Ascii ZArith Lia.
From stdpp Require Import base strings gmap option list.
From S2P Require Import Prelude CStr PosixFile Db DbLayout DbInv DbOps.

(** Membership around an element. *)
Lemma in_mid {A} (la lb : list A) i : i ∈ la ++ i :: lb.
Proof. apply elem_of_app. right. left. Qed.
Lemma in_mid_add {A} (la lb : list A) i j : j ∈ la ++ lb → j ∈ la ++ i :: lb.
Proof. rewrite !elem_of_app, elem_of_cons. tauto. Qed.
Lemma in_mid_del {A} (la lb : list A) i j : j ∈ la ++ i :: lb → j ≠ i → j ∈ la ++ lb.
Proof. rewrite !elem_of_app, elem_of_cons. tauto. Qed.
Lemma nodup_mid {A} (la lb : list A) i : NoDup (la ++ i :: lb) → i ∉ la ++ lb.
Proof.
  intros (_ & Hx & Hlb)%NoDup_app. apply NoDup_cons in Hlb as [? _].
  intros [Hi|]%elem_of_app; [|done]. apply (Hx i Hi). left.
Qed.

Section sem.
Implicit Types (kds : list (bytes * bytes)) (chains : list (list nat)) (l F : list nat).

(** No chain contains [i]. *)
Definition dangling chains (i : nat) : Prop := ∀ c l, chains !! c = Some l → i ∉ l.

(** Only the bucket of a key matters. *)
Lemma stored_bucket kds chains k d : keywf kds chains →
  stored kds chains k d ↔
  ∃ l i, chains !! bucket k = Some l ∧ i ∈ l ∧ kds !! i = Some (k, d).
Proof.
  intros Hk. split.
  - intros (h & l & i & Hc & Hi & Hkd). exists l, i. split; [|done].
    pose proof (kw_hash _ _ Hk _ _ _ _ _ Hc Hi Hkd) as Hh.
    unfold bucket. by rewrite Hh, Nat2Z.id.
  - intros (l & i & Hc & Hi & Hkd). by exists (Z.to_nat (khash k)), l, i.
Qed.

Lemma stored_unique kds chains k d d' : keywf kds chains →
  stored kds chains k d → stored kds chains k d' → d = d'.
Proof.
  intros Hk (l & i & Hc & Hi & Hkd)%stored_bucket (l' & j & Hc' & Hj & Hkd')%stored_bucket; [|done..].
  assert (l = l') as <- by congruence.
  assert (i = j) as <- by (by eapply (kw_uniq _ _ Hk)). congruence.
Qed.

(** Restricting the chains. *)
Lemma keywf_sub kds kds' chains chains' :
  keywf kds chains →
  (∀ c l', chains' !! c = Some l' →
     ∃ l, chains !! c = Some l ∧ ∀ j, j ∈ l' → j ∈ l ∧ kds' !! j = kds !! j) →
  keywf kds' chains'.
Proof.
  intros [Hf Hh Hu] Hsub. split.
  - intros l' i k d Hc Hi Hkd. destruct (Hsub _ _ Hc) as (l & Hl & Hin).
    destruct (Hin i Hi) as [Hi' E]. rewrite E in Hkd. by eapply Hf.
  - intros h l' i k d Hc Hi Hkd. destruct (Hsub _ _ Hc) as (l & Hl & Hin).
    destruct (Hin i Hi) as [Hi' E]. rewrite E in Hkd. by eapply Hh.
  - intros h l' i j k d d' Hc Hi Hj Hkd Hkd'. destruct (Hsub _ _ Hc) as (l & Hl & Hin).
    destruct (Hin i Hi) as [Hi' E], (Hin j Hj) as [Hj' E']. rewrite E in Hkd.
    rewrite E' in Hkd'. by eapply Hu.
Qed.

(** A look at the chains after one of them has been replaced. *)
Lemma lookup_chain chains c c' l l0 l' : chains !! c = Some l0 →
  <[c := l]> chains !! c' = Some l' →
  (c = c' ∧ l' = l) ∨ (c ≠ c' ∧ chains !! c' = Some l').
Proof.
  intros Hc. destruct (decide (c = c')) as [<-|].
  - rewrite list_lookup_insert_eq by by eapply lookup_lt_Some. intros [= <-]. by left.
  - rewrite list_lookup_insert_ne by done. by right.
Qed.

Lemma lookup_chain_eq chains c l l0 : chains !! c = Some l0 → <[c := l]> chains !! c = Some l.
Proof. intros Hc. apply list_lookup_insert_eq. by eapply lookup_lt_Some. Qed.

(** *** Taking a record off its chain *)

Lemma keywf_remove kds chains c la i lb :
  keywf kds chains → chains !! c = Some (la ++ i :: lb) →
  keywf kds (<[c := la ++ lb]> chains).
Proof.
  intros Hk Hc. eapply keywf_sub; [done|]. intros c' l' Hc'.
  destruct (lookup_chain _ _ _ _ _ _ Hc Hc') as [[<- ->]|[_ H]].
  - eexists. split; [done|]. intros j Hj. split; [by apply in_mid_add|done].
  - by exists l'.
Qed.

Lemma stored_remove kds chains h la i lb key d0 k d :
  keywf kds chains → chains !! S h = Some (la ++ i :: lb) → NoDup (la ++ i :: lb) →
  kds !! i = Some (key, d0) →
  stored kds (<[S h := la ++ lb]> chains) k d ↔ key ≠ k ∧ stored kds chains k d.
Proof.
  intros Hk Hc Hnd Hi. split.
  - intros (h' & l' & j & Hc' & Hj & Hkd).
    destruct (lookup_chain _ _ _ _ _ _ Hc Hc') as [[[= <-] ->]|[Hne H]].
    + split; [|eexists h, _, j; split; [done|split; [by apply in_mid_add|done]]]. intros ->.
      assert (i = j) as -> by
        (eapply (kw_uniq _ _ Hk); [exact Hc|apply in_mid|by apply in_mid_add|done..]).
      by apply nodup_mid in Hnd.
    + split; [|by exists h', l', j]. intros ->. apply Hne. f_equal. apply Nat2Z.inj.
      rewrite <- (kw_hash _ _ Hk _ _ _ _ _ H Hj Hkd). symmetry.
      eapply (kw_hash _ _ Hk); [exact Hc|apply in_mid|done].
  - intros [Hne (h' & l' & j & Hc' & Hj & Hkd)]. destruct (decide (h' = h)) as [->|].
    + exists h, (la ++ lb), j. split; [by eapply lookup_chain_eq|]. split; [|done].
      assert (j ≠ i) by (intros ->; congruence). rewrite Hc in Hc'. injection Hc' as <-.
      by eapply in_mid_del.
    + exists h', l', j. by rewrite list_lookup_insert_ne by congruence.
Qed.

Lemma stored_free kds chains F k d :
  stored kds (<[0%nat := F]> chains) k d ↔ stored kds chains k d.
Proof.
  unfold stored. split; intros (h & l & i & Hc & ?); exists h, l, i.
  - by rewrite list_lookup_insert_ne in Hc by done.
  - by rewrite list_lookup_insert_ne by done.
Qed.

(** *** Rewriting and appending records that are on no chain *)

Lemma keywf_change kds chains i x : keywf kds chains → dangling chains i →
  keywf (<[i := x]> kds) chains.
Proof.
  intros Hk Hd. eapply keywf_sub; [done|]. intros c l Hc. exists l. split; [done|].
  intros j Hj. split; [done|]. apply list_lookup_insert_ne. intros ->. by eapply Hd.
Qed.

Lemma stored_change kds chains i x k d : dangling chains i →
  stored (<[i := x]> kds) chains k d ↔ stored kds chains k d.
Proof.
  intros Hd. unfold stored. split; intros (h & l & j & Hc & Hj & Hkd); exists h, l, j;
    (assert (i ≠ j) by (intros ->; by eapply Hd));
    [rewrite list_lookup_insert_ne in Hkd by done | rewrite list_lookup_insert_ne by done]; done.
Qed.

Lemma keywf_app kds chains x : keywf kds chains →
  (∀ c l j, chains !! c = Some l → j ∈ l → (j < length kds)%nat) → keywf (kds ++ [x]) chains.
Proof.
  intros Hk Hlt. eapply keywf_sub; [done|]. intros c l Hc. exists l. split; [done|].
  intros j Hj. split; [done|]. apply lookup_app_l. by eapply Hlt.
Qed.

Lemma stored_app kds chains x k d :
  (∀ c l j, chains !! c = Some l → j ∈ l → (j < length kds)%nat) →
  stored (kds ++ [x]) chains k d ↔ stored kds chains k d.
Proof.
  intros Hlt. unfold stored. split; intros (h & l & j & Hc & Hj & Hkd); exists h, l, j;
    (assert (j < length kds)%nat by by eapply Hlt);
    [rewrite lookup_app_l in Hkd by done | rewrite lookup_app_l by done]; done.
Qed.

(** *** Pushing a record on a chain *)

Lemma keywf_push_free kds chains F i k d :
  keywf kds chains → chains !! 0%nat = Some F → kds !! i = Some (k, d) → all_blank k = true →
  keywf kds (<[0%nat := i :: F]> chains).
Proof.
  intros [Hf Hh Hu] H0 Hi Hb. split.
  - intros l j k' d' Hc Hj Hkd.
    destruct (lookup_chain _ _ _ _ _ _ H0 Hc) as [[_ ->]|[? _]]; [|done].
    apply elem_of_cons in Hj as [->|Hj]; [congruence|by eapply Hf].
  - intros h l j k' d' Hc. rewrite list_lookup_insert_ne in Hc by done. by eapply Hh.
  - intros h l j j' k' d' d'' Hc. rewrite list_lookup_insert_ne in Hc by done. by eapply Hu.
Qed.

Lemma keywf_push kds chains l i key data :
  keywf kds chains → chains !! bucket key = Some l → kds !! i = Some (key, data) →
  (∀ d, ¬ stored kds chains key d) → keywf kds (<[bucket key := i :: l]> chains).
Proof.
  intros Hk Hc Hi Hno. pose proof Hk as [Hf Hh Hu]. split.
  - intros l' j k d Hc'. rewrite list_lookup_insert_ne in Hc' by done. by eapply Hf.
  - intros h l' j k d Hc' Hj Hkd.
    destruct (lookup_chain _ _ _ _ _ _ Hc Hc') as [[Hb ->]|[_ H]]; [|by eapply Hh].
    apply elem_of_cons in Hj as [->|Hj].
    + assert (k = key) as -> by congruence. injection Hb as <-.
      pose proof (khash_range key). lia.
    + rewrite Hb in Hc. by eapply Hh.
  - intros h l' j j' k d d' Hc' Hj Hj' Hkd Hkd'.
    assert (Hkey : ∀ x y, x ∈ l → kds !! x = Some (key, y) → False).
    { intros x y Hx Hxy. apply (Hno y). apply stored_bucket; [done|]. by exists l, x. }
    destruct (lookup_chain _ _ _ _ _ _ Hc Hc') as [[Hb ->]|[_ H]]; [|by eapply Hu].
    rewrite Hb in Hc. apply elem_of_cons in Hj, Hj'.
    destruct Hj as [->|Hj], Hj' as [->|Hj']; [done|exfalso..|by eapply Hu].
    + rewrite Hi in Hkd. injection Hkd as <- <-. by eapply Hkey.
    + rewrite Hi in Hkd'. injection Hkd' as <- <-. by eapply Hkey.
Qed.

Lemma stored_push kds chains l i key data k d :
  chains !! bucket key = Some l → kds !! i = Some (key, data) →
  stored kds (<[bucket key := i :: l]> chains) k d ↔
  (key = k ∧ data = d) ∨ stored kds chains k d.
Proof.
  intros Hc Hi. split.
  - intros (h & l' & j & Hc' & Hj & Hkd).
    destruct (lookup_chain _ _ _ _ _ _ Hc Hc') as [[Hb ->]|[_ H]].
    + apply elem_of_cons in Hj as [->|Hj]; [left; split; congruence|right].
      exists h, l, j. by rewrite <- Hb.
    + right. by exists h, l', j.
  - intros [[<- <-]|(h & l' & j & Hc' & Hj & Hkd)].
    + exists (Z.to_nat (khash key)), (i :: l), i. split; [by eapply lookup_chain_eq|].
      split; [left|done].
    + destruct (decide (bucket key = S h)) as [E|].
      * exists h, (i :: l), j. rewrite <- E. split; [by eapply lookup_chain_eq|].
        rewrite E in Hc. assert (l = l') as <- by congruence. split; [by right|done].
      * exists h, l', j. by rewrite list_lookup_insert_ne.
Qed.

(** *** Replacing the data of a record *)

Lemma lookup_data kds i j key d0 d k d' : kds !! i = Some (key, d0) →
  <[i := (key, d)]> kds !! j = Some (k, d') →
  (i = j ∧ k = key ∧ d' = d ∨ i ≠ j ∧ kds !! j = Some (k, d')) ∧
  ∃ d1, kds !! j = Some (k, d1).
Proof.
  intros Hi. destruct (decide (i = j)) as [<-|].
  - rewrite list_lookup_insert_eq by by eapply lookup_lt_Some. intros [= <- <-].
    split; [by left|by eexists].
  - rewrite list_lookup_insert_ne by done. intros E. split; [by right|by eexists].
Qed.

Lemma keywf_data kds chains i key d0 d : keywf kds chains → kds !! i = Some (key, d0) →
  keywf (<[i := (key, d)]> kds) chains.
Proof.
  intros [Hf Hh Hu] Hi. split.
  - intros l j k d' Hc Hj (_ & ? & Hkd)%(lookup_data _ _ _ _ _ _ _ _ Hi). by eapply Hf.
  - intros h l j k d' Hc Hj (_ & ? & Hkd)%(lookup_data _ _ _ _ _ _ _ _ Hi). by eapply Hh.
  - intros h l j j' k d' d'' Hc Hj Hj' (_ & ? & Hkd)%(lookup_data _ _ _ _ _ _ _ _ Hi)
      (_ & ? & Hkd')%(lookup_data _ _ _ _ _ _ _ _ Hi). by eapply Hu.
Qed.

Lemma stored_data kds chains l i key d0 d k d' : keywf kds chains →
  chains !! bucket key = Some l → i ∈ l → kds !! i = Some (key, d0) →
  stored (<[i := (key, d)]> kds) chains k d' ↔
  (key = k ∧ d = d') ∨ (key ≠ k ∧ stored kds chains k d').
Proof.
  intros Hk Hc Hil Hi. split.
  - intros (h & l' & j & Hc' & Hj & [[(<- & -> & ->)|[Hne Hkd]] _]%(lookup_data _ _ _ _ _ _ _ _ Hi));
      [by left|right]. split; [|by exists h, l', j]. intros ->.
    assert (bucket k = S h) as Hb.
    { unfold bucket. f_equal. rewrite (kw_hash _ _ Hk _ _ _ _ _ Hc' Hj Hkd). apply Nat2Z.id. }
    rewrite Hb in Hc. assert (l' = l) as -> by congruence.
    apply Hne. eapply (kw_uniq _ _ Hk); [exact Hc'|done..|exact Hi|exact Hkd].
  - intros [[<- <-]|[Hne (h & l' & j & Hc' & Hj & Hkd)]].
    + exists (Z.to_nat (khash key)), l, i. do 2 (split; [done|]).
      apply list_lookup_insert_eq. by eapply lookup_lt_Some.
    + exists h, l', j. do 2 (split; [done|]). rewrite list_lookup_insert_ne; congruence.
Qed.
End sem.

(** ** Facts about well-linked contents *)

Lemma dangling_D hdr recs chains D i : linkwf hdr recs chains D → i ∈ D → dangling chains i.
Proof. intros Hw Hi c l Hc Hl. by eapply (chain_not_D Hw). Qed.

Lemma chains_lt hdr recs chains D : linkwf hdr recs chains D →
  ∀ c l j, chains !! c = Some l → j ∈ l → (j < length (kd <$> recs))%nat.
Proof.
  intros Hw c l j Hc Hj. rewrite length_fmap.
  destruct (chain_lookup Hw _ _ _ Hc Hj) as [? ?%lookup_lt_Some]. done.
Qed.
