(* ===== verification/DbSpec.v ===== *)
(** * What the database promises: a map from keys to data.

    [db_repn w m n] says that the handle [w] is open on a database of [n] records
    that holds the map [m].  The lemmas below give the result of each routine of
    the interface apue_db.h in terms of [m], on every branch; [spec_step] is the
    abstract command they implement. *)
From Stdlib Require Import Ascii ZArith Lia.
From stdpp Require Import base strings gmap option list.
From S2P Require Import Prelude CStr PosixFile Db DbLayout DbInv DbOps DbSem.

(** ** The abstract specification *)

Inductive db_cmd :=
  | CFetch (key : bytes)
  | CStore (key data : bytes) (flag : Z)
  | CDelete (key : bytes).

Inductive db_res :=
  | RData (d : option bytes)
  | RInt (rc : Z).

(** The return value and the new map of db_store. *)
Definition spec_store (m : gmap bytes bytes) (key data : bytes) (flag : Z) :
    Z * gmap bytes bytes :=
  match m !! key with
  | Some _ => if flag =? DB_INSERT then (1, m) else (0, <[key := data]> m)
  | None => if flag =? DB_REPLACE then (-1, m) else (0, <[key := data]> m)
  end.

Definition spec_step (m : gmap bytes bytes) (c : db_cmd) : db_res * gmap bytes bytes :=
  match c with
  | CFetch key => (RData (m !! key), m)
  | CStore key data flag => let '(rc, m') := spec_store m key data flag in (RInt rc, m')
  | CDelete key => (RInt (if m !! key is Some _ then 0 else -1), delete key m)
  end.

Fixpoint spec_run (m : gmap bytes bytes) (cs : list db_cmd) : list db_res * gmap bytes bytes :=
  match cs with
  | [] => ([], m)
  | c :: cs =>
      let '(r, m1) := spec_step m c in
      let '(rs, m2) := spec_run m1 cs in (r :: rs, m2)
  end.

(** Whether the store of [data] under [key] goes through _db_dodelete: the key is there
    with data of another length. *)
Definition store_moves (m : gmap bytes bytes) (key data : bytes) (flag : Z) : bool :=
  match m !! key with
  | Some d => negb (flag =? DB_INSERT) && negb (bool_decide (length data = length d))
  | None => false
  end.

(** The commands that delete a record: there _db_writeidx formats the index buffer into
    itself. *)
Definition cmd_deletes (m : gmap bytes bytes) (c : db_cmd) : bool :=
  match c with
  | CFetch _ => false
  | CStore key data flag => store_moves m key data flag
  | CDelete key => bool_decide (is_Some (m !! key))
  end.

Fixpoint run_deletes (m : gmap bytes bytes) (cs : list db_cmd) : bool :=
  match cs with
  | [] => false
  | c :: cs => cmd_deletes m c || run_deletes (snd (spec_step m c)) cs
  end.

(** A client that issues a sequence of commands and collects the answers. *)
Definition db_step `{Libc} (c : db_cmd) : prog dbw db_res :=
  match c with
  | CFetch key => d ← db_fetch key; mret (RData d)
  | CStore key data flag => rc ← db_store key data flag; mret (RInt rc)
  | CDelete key => rc ← db_delete key; mret (RInt rc)
  end.

Fixpoint db_run `{Libc} (cs : list db_cmd) : prog dbw (list db_res) :=
  match cs with
  | [] => mret []
  | c :: cs => r ← db_step c; rs ← db_run cs; mret (r :: rs)
  end.

(** The commands a client may issue. *)
Definition flag_ok (flag : Z) : Prop := flag = DB_INSERT ∨ flag = DB_REPLACE ∨ flag = DB_STORE.
Definition cmd_ok (c : db_cmd) : Prop :=
  match c with
  | CFetch key | CDelete key => no_nul key
  | CStore key data flag => key_ok key ∧ data_ok data ∧ flag_ok flag
  end.

#[export] Instance flag_ok_dec f : Decision (flag_ok f).
Proof. unfold flag_ok. apply _. Defined.
#[export] Instance cmd_ok_dec c : Decision (cmd_ok c).
Proof. destruct c; simpl; apply _. Defined.

(** The largest number of records for which every offset in the index file is a
    valid pointer, whatever the sizes of the records. *)
Definition NREC_MAX : Z := 9660.

(** ** Lemmas *)

Lemma bind_undef {S A B} (p : prog S A) (k : A → prog S B) s s' :
  p s = Undef s' → (p ≫= k) s = Undef s'.
Proof. intros E. unfold mbind, prog_bind. by rewrite E. Qed.

Implicit Types (m : gmap bytes bytes) (chains : list (list nat)) (recs : list irec).

(** The chain of a key in a well-formed database: which record holds the key. *)
Lemma rep_found w hdr recs chains m la i lb r key :
  content w m hdr recs chains → chains !! bucket key = Some (la ++ i :: lb) →
  recs !! i = Some r → r_key r = key → m !! key = Some (r_data r).
Proof.
  intros [_ _ Hk Hm] Hc Hi <-. apply Hm, stored_bucket; [done|]. eexists _, i.
  split; [done|]. split; [apply in_mid|]. by rewrite list_lookup_fmap, Hi.
Qed.

Lemma rep_missing w hdr recs chains m l key :
  content w m hdr recs chains → chains !! bucket key = Some l →
  (∀ i r, i ∈ l → recs !! i = Some r → r_key r ≠ key) → m !! key = None.
Proof.
  intros [_ _ Hk Hm] Hc Hno. destruct (m !! key) as [d|] eqn:E; [|done].
  apply Hm, stored_bucket in E as (l' & i & Hc' & Hi & Hkd); [|done].
  assert (l' = l) as -> by congruence. rewrite list_lookup_fmap in Hkd.
  destruct (recs !! i) as [r|] eqn:Er; [|done]. injection Hkd as E _. by destruct (Hno i r).
Qed.

(** The tail of every operation: the lock of the chain is released. *)
Lemma unlock_tail {A} (r : A) w ty co :
  w_locks w = [Flock IDX ty co 1] → chainoff (w_db w) = co →
  (dbget chainoff ≫= λ co, un_lock IDX co 1 ;; mret r : prog dbw A) w
  = Done r (w <| w_locks := [] |>).
Proof.
  intros Hl Hc. rewrite bind_dbget, Hc. unfold un_lock. rewrite bind_modify.
  unfold mret, prog_ret. f_equal. destruct w. simpl in *. rewrite Hl.
  rewrite filter_cons_False; [done|]. intros H. by apply H.
Qed.

(** [content] and [holds] depend on the files only. *)
Lemma content_files w w' m hdr recs chains :
  content w m hdr recs chains → db_files w' hdr recs → content w' m hdr recs chains.
Proof. by intros [_ ? ? ?] ?. Qed.

Lemma holds_unlocked w m n : holds w m n → db_repn (w <| w_locks := [] |>) m n.
Proof.
  intros (hdr & recs & chains & Hct & Hn). split; [|done]. exists hdr, recs, chains.
  split; [|done]. eapply content_files; [done|]. by destruct Hct as [[] _ _ _].
Qed.

Lemma holds_db w m n f : holds w m n → (∀ d, nhash (f d) = nhash d ∧ hashoff (f d) = hashoff d) →
  holds (w <| w_db ::= f |>) m n.
Proof.
  intros (hdr & recs & chains & Hct & Hn) Hff. exists hdr, recs, chains.
  split; [|done]. eapply content_files; [done|]. destruct Hct as [[] _ _ _].
  destruct (Hff (w_db w)). split; simpl; congruence.
Qed.

Lemma holds_errno w m n e : holds w m n → holds (w <| w_errno := e |>) m n.
Proof.
  intros (hdr & recs & chains & Hct & Hn). exists hdr, recs, chains.
  split; [|done]. eapply content_files; [done|]. by destruct Hct as [[] _ _ _].
Qed.

(** The state in which the chain of the key is locked and walked to the end or to
    the record with the key. *)
Lemma find_content w m hdr recs chains key (wr : bool) :
  content w m hdr recs chains → w_locks w = [] → no_nul key →
  ∃ w1 l, content w1 m hdr recs chains ∧
    view w1 = view (locked (if wr then WRLCK else RDLCK) key w) ∧
    chains !! bucket key = Some l ∧
    (m !! key = None ∧ _db_find_and_lock key wr w = Done (-1) w1
     ∨ ∃ la i lb r, l = la ++ i :: lb ∧ r_key r = key ∧ m !! key = Some (r_data r) ∧
         at_rec w1 recs i r ∧
         ptroff (w_db w1) = Z.of_nat (loc_off recs (pred_loc (bucket key) la)) ∧
         _db_find_and_lock key wr w = Done 0 w1).
Proof.
  intros Hct Hlk Hnk. pose proof Hct as [Hf Hw _ _].
  destruct (find_and_lock_spec w hdr recs chains key wr Hf Hw Hlk Hnk)
    as (w1 & l & Hv & Hl & Hres). exists w1, l.
  assert (Hct1 : content w1 m hdr recs chains).
  { eapply content_files, db_files_view; [done|exact Hv|]. by destruct Hf. }
  do 3 (split; [done|]).
  destruct Hres as [[Hno E]|(la & i & lb & r & -> & Hr & Ha & Hpo & E)]; [left|right].
  - split; [|done]. by eapply rep_missing.
  - exists la, i, lb, r. repeat (split; [done|]). split; [|done].
    eapply rep_found; [exact Hct|done|apply Ha|done].
Qed.

(** ** db_fetch *)

Lemma fetch_repn w m n key : db_repn w m n → no_nul key →
  ∃ w', db_fetch key w = Done (m !! key) w' ∧ db_repn w' m n ∧
    fdata (w_idx w') = fdata (w_idx w) ∧ fdata (w_dat w') = fdata (w_dat w) ∧
    w_errno w' = w_errno w ∧
    (cnt_fetchok (w_db w'), cnt_fetcherr (w_db w')) =
      match m !! key with
      | Some _ => (cnt_inc (cnt_fetchok (w_db w)), cnt_fetcherr (w_db w))
      | None => (cnt_fetchok (w_db w), cnt_inc (cnt_fetcherr (w_db w)))
      end.
Proof.
  intros [(hdr & recs & chains & Hct & <-) Hlk] Hnk.
  destruct (find_content w m hdr recs chains key false Hct Hlk Hnk)
    as (w1 & l & Hct1 & Hv & Hl & Hres). cbn iota in Hv. set (w0 := locked RDLCK key w) in *.
  pose proof (view_idx _ _ Hv) as Hvi. pose proof (view_dat _ _ Hv) as Hvd.
  pose proof (view_chainoff _ _ Hv) as Hvc. pose proof (view_locks _ _ Hv) as Hvl.
  pose proof (view_db cnt_fetchok _ _ Hv) as Ho. pose proof (view_db cnt_fetcherr _ _ Hv) as He.
  assert (Hve : w_errno w1 = w_errno w) by (unfold view in Hv; simpl in Hv; congruence).
  assert (Hh1 : holds w1 m (length recs)) by by exists hdr, recs, chains.
  pose proof Hct1 as [Hf1 Hw _ _]. unfold db_fetch.
  destruct Hres as [[Hno E]|(la & i & lb & r & -> & Hr & Hmk & Ha & _ & E)];
    rewrite (bind_done _ _ _ _ _ E).
  - change (-1 <? 0) with true. cbn iota. rewrite Hno, bind_assoc, bind_dbset, bind_ret.
    erewrite unlock_tail; [|exact Hvl|exact Hvc]. eexists. split; [done|].
    split; [by apply holds_unlocked, holds_db|].
    repeat split; [exact Hvi|exact Hvd|exact Hve|]. simpl in *. congruence.
  - change (0 <? 0) with false. cbn iota. rewrite Hmk.
    pose proof (Forall_lookup_1 _ _ _ _ (sh_recs _ _ (lw_shape _ _ _ _ Hw)) (ar_lookup _ _ _ _ Ha)) as Hok.
    rewrite bind_assoc. erewrite bind_done; [|eapply readdat_spec; [apply Hf1|apply Ha|done| |apply Ha]];
      [|rewrite (ar_datoff _ _ _ _ Ha); by apply Hw, (ar_lookup _ _ _ _ Ha)].
    rewrite bind_assoc, bind_dbset, bind_ret.
    erewrite unlock_tail; [|exact Hvl|exact Hvc]. eexists. split; [done|].
    split; [apply holds_unlocked, holds_db; [|done]|].
    { exists hdr, recs, chains. split; [|done]. eapply content_files; [exact Hct1|]. by destruct Hf1. }
    repeat split; [exact Hvi| |exact Hve|]; simpl in *; [|congruence].
    rewrite <- Hvd. symmetry. apply Hf1.
Qed.

(** ** Deleting, appending, reusing: the map held afterwards *)

Lemma dodelete_holds `{Libc} w m hdr recs chains la i lb r key :
  content w m hdr recs chains → chains !! bucket key = Some (la ++ i :: lb) →
  at_rec w recs i r → r_key r = key →
  ptroff (w_db w) = Z.of_nat (loc_off recs (pred_loc (bucket key) la)) →
  unheld IDX FREE_OFF 1 (w_locks w) → sprintf_self = true →
  ∃ w', _db_dodelete w = Done tt w' ∧ holds w' (delete key m) (length recs) ∧ same w w' ∧
    length (fdata (w_idx w')) = length (fdata (w_idx w)).
Proof.
  intros [Hf Hw Hk Hm] Hc Ha Hr Hpo Hlk Hself. unfold bucket in Hc. set (h := Z.to_nat (khash key)) in *.
  assert (is_Some (chains !! 0%nat)) as [F H0].
  { apply lookup_lt_is_Some_2. rewrite (lw_len _ _ _ _ Hw). unfold NPTR. lia. }
  destruct (dodelete_spec w hdr recs chains h la i lb r F)
    as (w' & hdr' & recs' & E & Hf' & Hw' & Hkd & Hs & Hlen); try done.
  exists w'. split; [done|]. split; [|done].
  pose proof (ar_lookup _ _ _ _ Ha) as Hi.
  assert (Hkr : (kd <$> recs) !! i = Some (key, r_data r)).
  { rewrite list_lookup_fmap, Hi. simpl. unfold kd. by rewrite Hr. }
  pose proof (linkwf_unlink _ _ _ _ _ _ _ _ _ Hw Hc Hi) as Hw1.
  pose proof (dangling_D _ _ _ _ i Hw1 ltac:(left)) as Hdg.
  exists hdr', recs', (<[0%nat := i :: F]> (<[S h := la ++ lb]> chains)). split.
  - split; [done..|rewrite Hkd|].
    + eapply keywf_push_free with (k := replicate (length (r_key r)) SPACE);
        [|by rewrite list_lookup_insert_ne| |apply all_blank_replicate].
      * apply keywf_change; [|done]. by eapply keywf_remove.
      * apply list_lookup_insert_eq. by eapply lookup_lt_Some.
    + intros k d. rewrite Hkd, stored_free, stored_change by done.
      rewrite (stored_remove _ _ _ _ _ _ _ _ _ _ Hk Hc (chain_nodup Hw _ _ Hc) Hkr).
      rewrite lookup_delete_Some. by rewrite Hm.
  - apply (f_equal length) in Hkd. by rewrite length_insert, !length_fmap in Hkd.
Qed.

Lemma dodelete_undefined `{Libc} w m hdr recs chains i r :
  content w m hdr recs chains → at_rec w recs i r → sprintf_self = false →
  ∃ w', _db_dodelete w = Undef w'.
Proof.
  intros [Hf Hw _ _] Ha Hself.
  assert (is_Some (chains !! 0%nat)) as [F H0].
  { apply lookup_lt_is_Some_2. rewrite (lw_len _ _ _ _ Hw). unfold NPTR. lia. }
  by eapply dodelete_undef.
Qed.

(** Pushing a record with a new key on its chain, in terms of the map. *)
Lemma map_push kds chains m l i key data :
  (∀ k d, m !! k = Some d ↔ stored kds chains k d) → m !! key = None →
  chains !! bucket key = Some l → kds !! i = Some (key, data) →
  ∀ k d, <[key := data]> m !! k = Some d ↔ stored kds (<[bucket key := i :: l]> chains) k d.
Proof.
  intros Hm Hno Hc Hi k d. rewrite (stored_push _ _ _ _ _ _ _ _ Hc Hi), <- Hm.
  rewrite lookup_insert_Some. split; [tauto|]. intros [?|E]; [by left|right].
  split; [|done]. intros ->. congruence.
Qed.

Lemma append_holds `{Libc} w m hdr recs chains l key data :
  content w m hdr recs chains → chains !! bucket key = Some l → m !! key = None →
  key_ok key → data_ok data → room w →
  chainoff (w_db w) = Z.of_nat (loc_off recs (HdrLoc (bucket key))) →
  unheld DAT 0 0 (w_locks w) → unheld IDX (Z.of_nat HDR) 0 (w_locks w) →
  ∃ w', store_append key data (first recs l 0) w = Done tt w' ∧
    holds w' (<[key := data]> m) (S (length recs)) ∧ same w w'.
Proof.
  intros [Hf Hw Hk Hm] Hc Hno Hko Hdo Hroom Hco Hl1 Hl2.
  destruct (store_append_spec w hdr recs chains (bucket key) l key data)
    as (w' & hdr' & recs' & E & Hf' & Hw' & Hkd & Hs); try done.
  exists w'. split; [done|]. split; [|done].
  pose proof (chains_lt _ _ _ _ Hw) as Hlt.
  assert (Hnew : (kd <$> recs') !! length recs = Some (key, data)).
  { rewrite Hkd. rewrite <- (length_fmap kd recs). by apply list_lookup_middle. }
  exists hdr', recs', (<[bucket key := length recs :: l]> chains). split.
  - split; [done..|rewrite Hkd|].
    + rewrite Hkd in Hnew. eapply keywf_push; [by apply keywf_app|done|done|].
      intros d. rewrite stored_app by done. intros Hst%Hm. congruence.
    + apply map_push; [|done..]. intros k d. by rewrite Hkd, stored_app.
  - apply (f_equal length) in Hkd. rewrite length_app, !length_fmap in Hkd. simpl in Hkd. lia.
Qed.

(** A free record of the right sizes takes the new key and data. *)
Lemma reuse_holds `{Libc} w m hdr recs chains l i r key data :
  db_files w hdr recs → linkwf hdr recs chains [i] → keywf (kd <$> recs) chains →
  (∀ k d, m !! k = Some d ↔ stored (kd <$> recs) chains k d) →
  chains !! bucket key = Some l → m !! key = None →
  at_rec w recs i r → length (r_key r) = length key → length (r_data r) = length data →
  key_ok key → data_ok data → ptr_ok (Z.of_nat (rec_off recs i)) →
  chainoff (w_db w) = Z.of_nat (loc_off recs (HdrLoc (bucket key))) →
  ∃ w', store_reuse key data (first recs l 0) w = Done tt w' ∧
    holds w' (<[key := data]> m) (length recs) ∧ same w w'.
Proof.
  intros Hf Hw Hk Hm Hc Hno Ha Hkl Hdl Hko Hdo Hok Hco.
  destruct (store_reuse_spec w hdr recs chains (bucket key) l i r key data)
    as (w' & hdr' & recs' & E & Hf' & Hw' & Hkd & Hs); try done.
  exists w'. split; [done|]. split; [|done].
  pose proof (dangling_D _ _ _ _ i Hw ltac:(left)) as Hdg.
  assert (Hnew : (kd <$> recs') !! i = Some (key, data)).
  { rewrite Hkd. apply list_lookup_insert_eq. rewrite length_fmap.
    apply (lookup_lt_Some _ _ _ (ar_lookup _ _ _ _ Ha)). }
  exists hdr', recs', (<[bucket key := i :: l]> chains). split.
  - split; [done..|rewrite Hkd|].
    + rewrite Hkd in Hnew. eapply keywf_push; [by apply keywf_change|done|done|].
      intros d. rewrite stored_change by done. intros Hst%Hm. congruence.
    + apply map_push; [|done..]. intros k d. by rewrite Hkd, stored_change.
  - apply (f_equal length) in Hkd. by rewrite length_insert, !length_fmap in Hkd.
Qed.

(** The lock of a chain is none of the locks the steps take. *)
Lemma unheld_chain key ty s off len :
  s = DAT ∨ len ≠ 1 ∨ off = FREE_OFF →
  unheld s off len [Flock IDX ty (khash key * Z.of_nat PTR_SZ + HASH_OFF) 1].
Proof.
  intros Hd l Hl%list_elem_of_singleton. subst l. simpl.
  pose proof (khash_range key). unfold HASH_OFF, PTR_SZ, FREE_OFF in *.
  intros (Hs & Ho & He). destruct Hd as [->|[?|Ho']]; [done|lia|]. lia.
Qed.

(** ** db_delete *)

Lemma delete_repn `{Libc} w m n key : db_repn w m n → no_nul key →
  m !! key = None ∨ sprintf_self = true →
  ∃ w', db_delete key w = Done (if m !! key is Some _ then 0 else -1) w' ∧
    db_repn w' (delete key m) n ∧ w_errno w' = w_errno w ∧
    length (fdata (w_idx w')) = length (fdata (w_idx w)).
Proof.
  intros [(hdr & recs & chains & Hct & <-) Hlk] Hnk Hself.
  destruct (find_content w m hdr recs chains key true Hct Hlk Hnk)
    as (w1 & l & Hct1 & Hv & Hl & Hres). cbn iota in Hv. set (w0 := locked WRLCK key w) in *.
  pose proof (view_chainoff _ _ Hv) as Hvc. pose proof (view_locks _ _ Hv) as Hvl.
  pose proof (view_idx _ _ Hv) as Hvi.
  assert (Hve : w_errno w1 = w_errno w) by (unfold view in Hv; simpl in Hv; congruence).
  assert (Hh1 : holds w1 m (length recs)) by by exists hdr, recs, chains.
  unfold db_delete.
  destruct Hres as [[Hno E]|(la & i & lb & r & -> & Hr & Hmk & Ha & Hpo & E)];
    rewrite (bind_done _ _ _ _ _ E).
  - change (-1 =? 0) with false. cbn iota. rewrite Hno, bind_assoc, bind_dbset, bind_ret.
    erewrite unlock_tail; [|exact Hvl|exact Hvc]. eexists. split; [done|].
    rewrite delete_id by done.
    split; [by apply holds_unlocked, holds_db|]. split; [exact Hve|]. exact (f_equal length Hvi).
  - change (0 =? 0) with true. cbn iota. rewrite Hmk.
    destruct (dodelete_holds w1 m hdr recs chains la i lb r key)
      as (w2 & E2 & Hh2 & Hs & Hlen); try done.
    { rewrite Hvl. apply unheld_chain. by right; right. }
    { destruct Hself as [?|?]; [congruence|done]. }
    rewrite bind_assoc, (bind_done _ _ _ _ _ E2), bind_assoc, bind_dbset, bind_ret.
    erewrite unlock_tail; [|etrans; [apply Hs|exact Hvl]|
      etrans; [exact (same_chainoff w1 w2 Hs)|exact Hvc]].
    eexists. split; [done|]. split; [by apply holds_unlocked, holds_db|].
    split; [etrans; [apply Hs|exact Hve]|]. etrans; [exact Hlen|]. exact (f_equal length Hvi).
Qed.

(** Deleting a key that is there, with a sprintf that does not work in place. *)
Lemma delete_undefined `{Libc} w m n key : db_repn w m n → no_nul key →
  is_Some (m !! key) → sprintf_self = false → ∃ w', db_delete key w = Undef w'.
Proof.
  intros [(hdr & recs & chains & Hct & <-) Hlk] Hnk [d Hd] Hself.
  destruct (find_content w m hdr recs chains key true Hct Hlk Hnk)
    as (w1 & l & Hct1 & _ & _ & [[Hno _]|(la & i & lb & r & -> & _ & _ & Ha & _ & E)]); [congruence|].
  destruct (dodelete_undefined w1 m hdr recs chains i r Hct1 Ha Hself) as (w2 & E2).
  exists w2. unfold db_delete. rewrite (bind_done _ _ _ _ _ E). change (0 =? 0) with true. cbn iota.
  rewrite bind_assoc. by apply bind_undef.
Qed.

(** ** db_store *)

(** Reading the head of the chain of a key again. *)
Lemma reread w m hdr recs chains key l :
  content w m hdr recs chains → chains !! bucket key = Some l →
  chainoff (w_db w) = Z.of_nat (loc_off recs (HdrLoc (bucket key))) →
  ∃ w', (∀ A (k : Z → prog dbw A),
      (dbget chainoff ≫= λ co, _db_readptr co ≫= k) w = k (first recs l 0) w') ∧
    content w' m hdr recs chains ∧ same w w' ∧ fdata (w_idx w') = fdata (w_idx w).
Proof.
  intros Hct Hl Hco. pose proof Hct as [Hf Hw _ _].
  destruct (readptr_view w hdr recs (HdrLoc (bucket key)) (first recs l 0))
    as (w1 & E1 & Hv1 & _); [done|apply Hw|by apply (lw_hdr _ _ _ _ Hw)|].
  exists w1. split; [|split; [|split]].
  - intros A k. rewrite bind_dbget, Hco. by rewrite (bind_done _ _ _ _ _ E1).
  - by eapply content_files, db_files_view.
  - by apply view_same.
  - by apply view_idx.
Qed.

(** What the operations keep while the chain of the key is locked. *)
Definition kept (w w' : dbw) : Prop :=
  w_locks w' = w_locks w ∧ chainoff (w_db w') = chainoff (w_db w) ∧ w_errno w' = w_errno w.

Lemma same_kept w w' : same w w' → kept w w'.
Proof. intros Hs. split; [apply Hs|]. split; [by apply same_chainoff|apply Hs]. Qed.
Lemma kept_trans w1 w2 w3 : kept w1 w2 → kept w2 w3 → kept w1 w3.
Proof. unfold kept. intros (? & ? & ?) (? & ? & ?). repeat split; congruence. Qed.
Lemma kept_db w w' f : kept w w' → (∀ d, chainoff (f d) = chainoff d) →
  kept w (w' <| w_db ::= f |>).
Proof. intros (? & ? & ?) Hfc. split; [done|]. split; [|done]. simpl. by rewrite Hfc. Qed.

(** The chain of [key] is locked. *)
Definition chain_locked (w : dbw) (key : bytes) : Prop :=
  w_locks w = [Flock IDX WRLCK (khash key * Z.of_nat PTR_SZ + HASH_OFF) 1] ∧
  chainoff (w_db w) = khash key * Z.of_nat PTR_SZ + HASH_OFF.

Lemma kept_locked w w' key : kept w w' → chain_locked w key → chain_locked w' key.
Proof. intros (? & ? & ?) [? ?]. split; congruence. Qed.

Lemma locked_off w key recs : chain_locked w key →
  chainoff (w_db w) = Z.of_nat (loc_off recs (HdrLoc (bucket key))).
Proof. intros [_ ->]. apply bucket_off. Qed.

(** A key that is not in the map is stored in a free record or a new one. *)
Lemma insert_holds `{Libc} w m hdr recs chains key data :
  content w m hdr recs chains → m !! key = None → chain_locked w key →
  key_ok key → data_ok data → room w →
  ∃ w' n', store_notfound key data DB_INSERT w = Done 0 w' ∧
    holds w' (<[key := data]> m) n' ∧ kept w w' ∧ (length recs <= n' <= S (length recs))%nat.
Proof.
  intros Hct Hno Hlk Hko Hdo Hroom.
  assert (is_Some (chains !! bucket key)) as [l Hl].
  { apply lookup_lt_is_Some_2. rewrite (lw_len _ _ _ _ (ct_link _ _ _ _ _ Hct)).
    apply bucket_lt. }
  assert (is_Some (chains !! 0%nat)) as [F H0].
  { apply lookup_lt_is_Some_2. rewrite (lw_len _ _ _ _ (ct_link _ _ _ _ _ Hct)). unfold NPTR. lia. }
  destruct (reread w m hdr recs chains key l Hct Hl (locked_off _ _ recs Hlk))
    as (w1 & E1 & Hct1 & Hs1 & Hi1). apply same_kept in Hs1 as Hk1.
  pose proof (kept_locked _ _ _ Hk1 Hlk) as Hlk1. pose proof Hct1 as [Hf1 Hw1 Hkw1 Hm1].
  unfold store_notfound. change (DB_INSERT =? DB_REPLACE) with false. cbn iota. rewrite E1.
  destruct (findfree_spec w1 hdr recs chains (strlen key) (Z.of_nat (strlen data) + 1) F)
    as (w2 & Hs2 & Hlen2 & Hres); [done..|rewrite (proj1 Hlk1); apply unheld_chain; by right; right|].
  apply same_kept in Hs2 as Hk2. pose proof (kept_locked _ _ _ Hk2 Hlk1) as Hlk2.
  pose proof (kept_trans _ _ _ Hk1 Hk2) as Hk12.
  destruct Hres as [[E2 Hf2]|(la & i & lb & r & hdr' & recs' & -> & Hkl & Hdl & E2 & Hf2 & Hw2 & Ha & Hkd & Hoff)];
    rewrite (bind_done _ _ _ _ _ E2).
  - change (-1 <? 0) with true. cbn iota.
    destruct (append_holds w2 m hdr recs chains l key data)
      as (w3 & E3 & Hh3 & Hs3); try done.
    { unfold room. by rewrite Hlen2, Hi1. }
    { by apply locked_off. }
    { rewrite (proj1 Hlk2). apply unheld_chain. by left. }
    { rewrite (proj1 Hlk2). apply unheld_chain. by right; left. }
    rewrite bind_assoc, (bind_done _ _ _ _ _ E3), bind_dbset. eexists _, _. split; [done|].
    split; [by apply holds_db|]. split; [|lia].
    apply kept_db; [|done]. eapply kept_trans; [exact Hk12|by apply same_kept].
  - change (0 <? 0) with false. cbn iota.
    assert (Hl2 : <[0%nat := la ++ lb]> chains !! bucket key = Some l)
      by by rewrite list_lookup_insert_ne.
    rewrite <- (first_ext recs' recs l 0) by auto.
    assert (Hdn : no_nul data) by apply Hdo. assert (Hkn : no_nul key) by apply Hko.
    destruct (reuse_holds w2 m hdr' recs' (<[0%nat := la ++ lb]> chains) l i r key data)
      as (w3 & E3 & Hh3 & Hs3); try done.
    { rewrite Hkd. by eapply keywf_remove. }
    { intros k d. by rewrite Hkd, stored_free. }
    { unfold strlen in Hkl. by rewrite cstr_id in Hkl. }
    { unfold strlen, r_datlen in Hdl. rewrite cstr_id in Hdl by done. lia. }
    { rewrite Hoff. assert (is_Some (recs !! i)) as [ri Hri].
      { apply (chain_lookup Hw1 0%nat _ _ H0), in_mid. }
      by eapply (stored_ptr_ok _ _ _ _ _ _ _ _ _ Hw1 H0). }
    { by apply locked_off. }
    rewrite bind_assoc, (bind_done _ _ _ _ _ E3), bind_dbset. eexists _, _. split; [done|].
    split; [by apply holds_db|]. split.
    + apply kept_db; [|done]. eapply kept_trans; [exact Hk12|by apply same_kept].
    + apply (f_equal length) in Hkd. rewrite !length_fmap in Hkd. lia.
Qed.

(** The data of a record is overwritten in place. *)
Lemma overwrite_holds w m hdr recs chains la i lb r key data :
  content w m hdr recs chains → chains !! bucket key = Some (la ++ i :: lb) →
  at_rec w recs i r → r_key r = key → data_ok data → length data = length (r_data r) →
  ∃ w', _db_writedat data (datoff (w_db w)) SEEK_SET w = Done tt w' ∧
    holds w' (<[key := data]> m) (length recs) ∧ kept w w' ∧ w_idx w' = w_idx w.
Proof.
  intros [Hf Hw Hk Hm] Hc Ha Hr Hdo Hlen. pose proof (ar_lookup _ _ _ _ Ha) as Hi.
  assert (Hcd : cstr data = data) by (apply cstr_id, Hdo).
  assert (Hoo : datoff (w_db w) = Z.of_nat (dat_off recs i)).
  { rewrite (ar_datoff _ _ _ _ Ha). by apply Hw. }
  rewrite Hoo. rewrite (writedat_set_spec w recs i r data); [|apply Hf|done|by rewrite Hcd].
  rewrite Hcd. eexists. split; [done|]. split; [|done].
  assert (Hrok : rec_ok r) by (by eapply Forall_lookup_1; [apply Hw|]).
  set (r' := r <| r_data := data |>).
  assert (Hdl : r_datlen r' = r_datlen r) by (unfold r_datlen; simpl; lia).
  assert (Hbl : length (enc_body r') = length (enc_body r)).
  { unfold enc_body. rewrite Hdl. simpl. rewrite !length_app. lia. }
  assert (Hr' : rec_ok r').
  { destruct Hrok as [? ? ? ? ? ? ?]. split; try done; try apply Hdo; congruence. }
  assert (Hkr : (kd <$> recs) !! i = Some (key, r_data r)).
  { rewrite list_lookup_fmap, Hi. simpl. unfold kd. by rewrite Hr. }
  assert (Hkd : kd <$> <[i := r']> recs = <[i := (key, data)]> (kd <$> recs)).
  { rewrite list_fmap_insert. unfold kd, r'. simpl. by rewrite Hr. }
  exists hdr, (<[i := r']> recs), chains. split; [|by rewrite length_insert].
  split; [|by apply (linkwf_rewrite Hw i r r' (or_intror eq_refl))|rewrite Hkd|].
  - destruct Hf as [Hfi _ ? ?]. split; [|done..]. simpl. rewrite Hfi. unfold enc_idx. do 2 f_equal.
    rewrite <- (list_insert_id recs i r Hi) at 1. rewrite !list_fmap_insert. do 2 f_equal.
    unfold enc_rec, enc_tail. unfold enc_body. by rewrite Hdl.
  - by eapply keywf_data.
  - intros k d. rewrite Hkd, (stored_data _ _ _ _ _ _ _ _ _ Hk Hc (in_mid _ _ _) Hkr), <- Hm.
    apply lookup_insert_Some.
Qed.

(** The key is in the map: its data is replaced. *)
Lemma replace_holds `{Libc} w m hdr recs chains la i lb r key data flag :
  content w m hdr recs chains → chains !! bucket key = Some (la ++ i :: lb) →
  at_rec w recs i r → r_key r = key →
  ptroff (w_db w) = Z.of_nat (loc_off recs (pred_loc (bucket key) la)) →
  chain_locked w key → key_ok key → data_ok data → room w → (flag =? DB_INSERT) = false →
  length data = length (r_data r) ∨ sprintf_self = true →
  ∃ w' n', store_found key data flag w = Done 0 w' ∧
    holds w' (<[key := data]> m) n' ∧ kept w w' ∧ (length recs <= n' <= S (length recs))%nat.
Proof.
  intros Hct Hc Ha Hr Hpo Hlk Hko Hdo Hroom Hfl Hself. unfold store_found. rewrite Hfl. clear Hfl.
  cbn iota. rewrite bind_dbget, (ar_datlen _ _ _ _ Ha).
  assert (Hsl : strlen data = length data) by (unfold strlen; by rewrite cstr_id by apply Hdo).
  rewrite Hsl. destruct (_ + 1 =? _) eqn:Heq; simpl negb; cbn iota.
  - apply Z.eqb_eq in Heq. unfold r_datlen in Heq.
    destruct (overwrite_holds w m hdr recs chains la i lb r key data)
      as (w1 & E1 & Hh1 & Hk1 & _); [done..|lia|].
    rewrite bind_assoc, bind_dbget, bind_assoc, (bind_done _ _ _ _ _ E1), bind_dbset.
    eexists _, _. split; [done|]. split; [by apply holds_db|]. split; [by apply kept_db|lia].
  - destruct (dodelete_holds w m hdr recs chains la i lb r key)
      as (w1 & E1 & (hdr1 & recs1 & chains1 & Hct1 & Hn1) & Hs1 & Hlen1); try done.
    { rewrite (proj1 Hlk). apply unheld_chain. by right; right. }
    { destruct Hself as [Hl|?]; [|done]. apply Z.eqb_neq in Heq. unfold r_datlen in Heq. lia. }
    apply same_kept in Hs1 as Hk1. pose proof (kept_locked _ _ _ Hk1 Hlk) as Hlk1.
    rewrite bind_assoc, (bind_done _ _ _ _ _ E1).
    assert (is_Some (chains1 !! bucket key)) as [l Hl].
    { apply lookup_lt_is_Some_2. rewrite (lw_len _ _ _ _ (ct_link _ _ _ _ _ Hct1)). apply bucket_lt. }
    destruct (reread w1 (delete key m) hdr1 recs1 chains1 key l Hct1 Hl (locked_off _ _ recs1 Hlk1))
      as (w2 & E2 & Hct2 & Hs2 & Hi2).
    apply same_kept in Hs2 as Hk2. pose proof (kept_locked _ _ _ Hk2 Hlk1) as Hlk2.
    pose proof (kept_trans _ _ _ Hk1 Hk2) as Hk12.
    rewrite (bind_eq _ _ _ _ _ (E2 _ _)), bind_assoc.
    destruct (append_holds w2 (delete key m) hdr1 recs1 chains1 l key data)
      as (w3 & E3 & Hh3 & Hs3); try done.
    { apply lookup_delete_eq. } { unfold room. by rewrite Hi2, Hlen1. }
    { by apply locked_off. }
    { rewrite (proj1 Hlk2). apply unheld_chain. by left. }
    { rewrite (proj1 Hlk2). apply unheld_chain. by right; left. }
    rewrite (bind_done _ _ _ _ _ E3), bind_dbset. eexists _, _. split; [done|].
    rewrite insert_delete_eq in Hh3. split; [by apply holds_db|].
    split; [|lia]. apply kept_db; [|done]. eapply kept_trans; [exact Hk12|by apply same_kept].
Qed.

(** The data has another length, and sprintf does not work in place. *)
Lemma replace_undefined `{Libc} w m hdr recs chains i r data key flag :
  content w m hdr recs chains → at_rec w recs i r → data_ok data → (flag =? DB_INSERT) = false →
  length data ≠ length (r_data r) → sprintf_self = false →
  ∃ w', store_found key data flag w = Undef w'.
Proof.
  intros Hct Ha Hdo Hfl Hlen Hself.
  destruct (dodelete_undefined w m hdr recs chains i r Hct Ha Hself) as (w1 & E1).
  exists w1. unfold store_found. rewrite Hfl. cbn iota. rewrite bind_dbget, (ar_datlen _ _ _ _ Ha).
  assert (Hsl : strlen data = length data) by (unfold strlen; by rewrite cstr_id by apply Hdo).
  rewrite Hsl, (proj2 (Z.eqb_neq _ _)) by (unfold r_datlen; lia). simpl negb. cbn iota.
  rewrite bind_assoc. by apply bind_undef.
Qed.

Lemma store_notfound_flag `{Libc} key data flag : (flag =? DB_REPLACE) = false →
  store_notfound key data flag = store_notfound key data DB_INSERT.
Proof. unfold store_notfound. by intros ->. Qed.

(** The error number of db_store. *)
Definition spec_errno (m : gmap bytes bytes) (key : bytes) (flag e : Z) : Z :=
  match m !! key with
  | Some _ => e
  | None => if flag =? DB_REPLACE then ENOENT else e
  end.

Lemma store_repn `{Libc} w m n key data flag :
  db_repn w m n → key_ok key → data_ok data → flag_ok flag → room w →
  store_moves m key data flag = false ∨ sprintf_self = true →
  ∃ w' n', db_store key data flag w = Done (fst (spec_store m key data flag)) w' ∧
    db_repn w' (snd (spec_store m key data flag)) n' ∧ (n <= n' <= S n)%nat ∧
    w_errno w' = spec_errno m key flag (w_errno w).
Proof.
  intros [(hdr & recs & chains & Hct & <-) Hlk] Hko Hdo Hfl Hroom Hself.
  destruct (find_content w m hdr recs chains key true Hct Hlk (ko_nul _ Hko))
    as (w1 & l & Hct1 & Hv & Hl & Hres). cbn iota in Hv.
  assert (Hlk1 : chain_locked w1 key).
  { split; [exact (view_locks _ _ Hv)|exact (view_chainoff _ _ Hv)]. }
  assert (Hroom1 : room w1) by (unfold room; by rewrite (view_idx _ _ Hv)).
  assert (Hve : w_errno w1 = w_errno w) by (unfold view in Hv; simpl in Hv; congruence).
  assert (Hh1 : holds w1 m (length recs)) by by exists hdr, recs, chains.
  unfold db_store, spec_store, spec_errno.
  assert (Hflag : negb (flag =? DB_INSERT) && negb (flag =? DB_REPLACE)
    && negb (flag =? DB_STORE) = false) by by destruct Hfl as [->|[->| ->]].
  rewrite Hflag, bind_check_true; cycle 1.
  { destruct (do_len _ Hdo). unfold strlen. rewrite cstr_id by apply Hdo.
    unfold DATLEN_MIN, DATLEN_MAX in *. lia. }
  assert (Htail : ∀ (rc : Z) w2 m' n', holds w2 m' n' → chain_locked w2 key →
    ∃ w', (dbget chainoff ≫= λ co, un_lock IDX co 1 ;; mret rc : prog dbw Z) w2 = Done rc w' ∧
      db_repn w' m' n' ∧ w_errno w' = w_errno w2).
  { intros rc w2 m' n' Hh [Hl2 Hc2].
    erewrite unlock_tail by done. eexists. split; [done|]. split; [by apply holds_unlocked|done]. }
  destruct Hres as [[Hno E]|(la & i & lb & r & -> & Hr & Hmk & Ha & Hpo & E)];
    rewrite (bind_done _ _ _ _ _ E).
  - change (-1 <? 0) with true. cbn iota. rewrite Hno.
    destruct (flag =? DB_REPLACE) eqn:Hrep.
    + unfold store_notfound. rewrite Hrep, bind_assoc, bind_dbset, bind_assoc.
      unfold set_errno. rewrite bind_modify, bind_ret.
      edestruct (Htail (-1)) as (w' & -> & Hr' & He'); [by apply holds_errno, holds_db|done|].
      exists w', (length recs). repeat (split; [done|]). split; [lia|]. by rewrite He'.
    + rewrite store_notfound_flag by done.
      destruct (insert_holds w1 m hdr recs chains key data)
        as (w2 & n' & E2 & Hh2 & Hk2 & Hn'); [done..|].
      rewrite (bind_done _ _ _ _ _ E2).
      edestruct (Htail 0) as (w' & -> & Hr' & He'); [done|by eapply kept_locked|].
      exists w', n'. repeat (split; [done|]). rewrite He', <- Hve. apply Hk2.
  - change (0 <? 0) with false. cbn iota. rewrite Hmk. destruct (flag =? DB_INSERT) eqn:Hins.
    + unfold store_found. rewrite Hins, bind_assoc, bind_dbset, bind_ret.
      edestruct (Htail 1) as (w' & -> & Hr' & He'); [apply holds_db; [exact Hh1|done]|done|].
      exists w', (length recs). repeat (split; [done|]). split; [lia|]. by rewrite He', <- Hve.
    + destruct (replace_holds w1 m hdr recs chains la i lb r key data flag)
        as (w2 & n' & E2 & Hh2 & Hk2 & Hn'); [done..| |].
      { destruct Hself as [Hs|?]; [left|by right]. unfold store_moves in Hs. rewrite Hmk, Hins in Hs.
        by apply negb_false_iff, bool_decide_eq_true in Hs. }
      rewrite (bind_done _ _ _ _ _ E2).
      edestruct (Htail 0) as (w' & -> & Hr' & He'); [done|by eapply kept_locked|].
      exists w', n'. repeat (split; [done|]). rewrite He', <- Hve. apply Hk2.
Qed.

(** The store would move the record, and sprintf does not work in place. *)
Lemma store_undefined `{Libc} w m n key data flag :
  db_repn w m n → key_ok key → data_ok data → flag_ok flag →
  store_moves m key data flag = true → sprintf_self = false →
  ∃ w', db_store key data flag w = Undef w'.
Proof.
  intros [(hdr & recs & chains & Hct & <-) Hlk] Hko Hdo Hfl Hmv Hself.
  destruct (find_content w m hdr recs chains key true Hct Hlk (ko_nul _ Hko))
    as (w1 & l & Hct1 & _ & _ & Hres). unfold store_moves in Hmv.
  destruct Hres as [[Hno _]|(la & i & lb & r & -> & _ & Hmk & Ha & _ & E)]; [by rewrite Hno in Hmv|].
  rewrite Hmk in Hmv. apply andb_true_iff in Hmv as [Hins%negb_true_iff Hl%negb_true_iff%bool_decide_eq_false].
  destruct (replace_undefined w1 m hdr recs chains i r data key flag) as (w2 & E2); [done..|].
  assert (Hflag : negb (flag =? DB_INSERT) && negb (flag =? DB_REPLACE)
    && negb (flag =? DB_STORE) = false) by by destruct Hfl as [->|[->| ->]].
  exists w2. unfold db_store. rewrite Hflag, bind_check_true; cycle 1.
  { destruct (do_len _ Hdo). unfold strlen. rewrite cstr_id by apply Hdo.
    unfold DATLEN_MIN, DATLEN_MAX in *. lia. }
  rewrite (bind_done _ _ _ _ _ E). change (0 <? 0) with false. cbn iota.
  by apply bind_undef.
Qed.
