(* ===== verification/DbScan.v ===== *)
(** * Opening a database and reading it sequentially: db_open, db_rewind and
    db_nextrec on a well-formed database. *)
From Stdlib Require Import Ascii ZArith Lia.
From stdpp Require Import base strings gmap option list.
From S2P Require Import Prelude CStr PosixFile Db DbLayout DbInv DbOps DbSem DbSpec.

(** ** Room for more records *)

Lemma recs_length_ge recs :
  Forall rec_ok recs →
  Z.of_nat (length (concat (enc_rec <$> recs))) <= 1035 * Z.of_nat (length recs).
Proof.
  induction 1 as [|r recs Hr _ IH]; [done|]. rewrite fmap_cons. cbn [concat length].
  rewrite length_app, enc_rec_length by done. pose proof (rok_len r Hr).
  unfold IDXLEN_MAX, PTR_SZ, IDXLEN_SZ in *. lia.
Qed.

(** Up to [NREC_MAX] records there is room for one more. *)
Lemma holds_room w m n : holds w m n → Z.of_nat n <= NREC_MAX → room w.
Proof.
  intros (hdr & recs & chains & [[Hf _ _ _] Hw _ _] & <-) Hn.
  pose proof (lw_shape _ _ _ _ Hw) as Hs. pose proof (recs_length_ge _ (sh_recs _ _ Hs)).
  unfold room. rewrite Hf, (enc_idx_length _ _ Hs). unfold rec_off. rewrite firstn_all.
  unfold HDR, NREC_MAX, PTR_MAX in *. lia.
Qed.

(** ** Sequential reading *)

(** The records db_nextrec returns. *)
Definition live (r : irec) : bool := negb (all_blank (r_key r)).

(** The cursor is before record [j]. *)
Definition cursor (w : dbw) (recs : list irec) (j : nat) : Prop :=
  fpos (w_idx w) = Z.of_nat (rec_off recs j).

(** Reading the record at the cursor. *)
Lemma readnext_view w hdr recs i r :
  db_files w hdr recs → shape hdr recs → recs !! i = Some r → cursor w recs i →
  ∃ w', _db_readidx 0 w = Done (r_ptr r) w' ∧ view w' = view w ∧
    at_rec w' recs i r ∧ cursor w' recs (S i).
Proof.
  intros Hf Hs Hi Hcur. eexists.
  split; [by apply (readidx_spec w hdr recs i r); [apply Hf|done|done|right]|].
  split; [|split; [|done]].
  - unfold view. simpl. by rewrite (df_idx _ _ _ Hf).
  - split; [done..| |done|done]. simpl. apply cstr_split_buf.
    by eapply Forall_lookup_1; [apply Hs|].
Qed.

Lemma filter_live_drop recs i r : recs !! i = Some r →
  filter live (drop i recs) =
  if all_blank (r_key r) then filter live (drop (S i) recs)
  else r :: filter live (drop (S i) recs).
Proof.
  intros Hi. rewrite (drop_S recs r i Hi), filter_cons. unfold live.
  by destruct (all_blank (r_key r)).
Qed.

Lemma nextrec_loop_spec fuel w hdr recs j :
  db_files w hdr recs → shape hdr recs → (j <= length recs)%nat → cursor w recs j →
  (length recs - j < fuel)%nat →
  ∃ w', view w' = view w ∧
    ((filter live (drop j recs) = [] ∧ cursor w' recs (length recs) ∧
       nextrec_loop fuel w = Done false w')
     ∨ ∃ i r, (j <= i)%nat ∧ filter live (drop j recs) = r :: filter live (drop (S i) recs) ∧
         cursor w' recs (S i) ∧ at_rec w' recs i r ∧ nextrec_loop fuel w = Done true w').
Proof.
  revert w j. induction fuel as [|fuel IH]; intros w j Hf Hs Hj Hcur Hfuel; [lia|].
  cbn [nextrec_loop]. destruct (decide (j = length recs)) as [->|Hne].
  - assert (Hsz : fpos (w_idx w) = fsize (w_idx w)).
    { unfold fsize. rewrite (df_idx _ _ _ Hf), (enc_idx_length _ _ Hs). exact Hcur. }
    rewrite (bind_done _ _ _ _ _ (readidx_eof w Hsz)). change (-1 <? 0) with true. cbn iota.
    eexists. split; [|left; rewrite drop_all; split; [done|split; [|done]]]; [|done].
    by destruct w as [? ? ? [] ?].
  - assert (is_Some (recs !! j)) as [r Hr] by (apply lookup_lt_is_Some_2; lia).
    destruct (readnext_view w hdr recs j r Hf Hs Hr Hcur) as (w1 & E1 & Hv1 & Ha & Hcur1).
    rewrite (bind_done _ _ _ _ _ E1), (filter_live_drop _ _ _ Hr).
    pose proof (rok_ptr r (Forall_lookup_1 _ _ _ _ (sh_recs _ _ Hs) Hr)) as [Hp _].
    rewrite (proj2 (Z.ltb_ge _ _)) by done. rewrite bind_dbget, (ar_key _ _ _ _ Ha).
    destruct (all_blank (r_key r)) eqn:Hb.
    + destruct (IH w1 (S j)) as (w' & Hv' & Hres); try done; [by eapply db_files_view|lia..|].
      exists w'. split; [by rewrite Hv'|].
      destruct Hres as [?|(i & r' & ? & ?)]; [by left|right; exists i, r'; split; [lia|done]].
    + exists w1. split; [done|]. right. exists j, r. split; [lia|done].
Qed.

(** One call of db_nextrec. *)
Lemma nextrec_spec w m hdr recs chains j :
  content w m hdr recs chains → w_locks w = [] → (j <= length recs)%nat → cursor w recs j →
  ∃ w', content w' m hdr recs chains ∧ w_locks w' = [] ∧
    ((filter live (drop j recs) = [] ∧ cursor w' recs (length recs) ∧
       db_nextrec w = Done None w')
     ∨ ∃ i r, (j <= i < length recs)%nat ∧
         filter live (drop j recs) = r :: filter live (drop (S i) recs) ∧
         cursor w' recs (S i) ∧ db_nextrec w = Done (Some (kd r)) w').
Proof.
  intros Hct Hlk Hj Hcur. pose proof Hct as [Hf Hw _ _]. pose proof (lw_shape _ _ _ _ Hw) as Hs.
  unfold db_nextrec, readw_lock, lock_reg. rewrite bind_modify, bind_gets.
  set (w1 := w <| w_locks ::= _ |>).
  assert (Hl1 : w_locks w1 = [Flock IDX RDLCK FREE_OFF 1]) by (simpl; by rewrite Hlk).
  assert (Hf1 : db_files w1 hdr recs) by by destruct Hf.
  assert (Hun : ∀ A (x : A) w2, w_locks w2 = w_locks w1 → db_files w2 hdr recs →
    ∃ w', content w' m hdr recs chains ∧ w_locks w' = [] ∧ w_idx w' = w_idx w2 ∧
      (un_lock IDX FREE_OFF 1 ;; mret x : prog dbw A) w2 = Done x w').
  { intros A x w2 Hl2 Hf2. rewrite Hl1 in Hl2. eexists. split; [|split; [|split; [|done]]]; simpl.
    - eapply content_files; [done|]. by destruct Hf2.
    - by rewrite Hl2.
    - done. }
  destruct (nextrec_loop_spec (chain_fuel w1) w1 hdr recs j) as (w2 & Hv2 & Hres); try done.
  { pose proof (recs_length_le recs (sh_recs _ _ Hs)). unfold chain_fuel.
    rewrite (df_idx _ _ _ Hf1), (enc_idx_length _ _ Hs). unfold rec_off. rewrite firstn_all. lia. }
  assert (Hf2 : db_files w2 hdr recs) by by eapply db_files_view.
  assert (Hl2 : w_locks w2 = w_locks w1) by by apply view_locks.
  destruct Hres as [(Hnil & Hcur2 & E)|(i & r & Hji & Hcons & Hcur2 & Ha & E)];
    rewrite (bind_done _ _ _ _ _ E).
  - rewrite bind_ret. destruct (Hun _ (@None (bytes * bytes)) w2 Hl2 Hf2) as (w' & Hct' & Hlk' & Hi' & ->).
    exists w'. do 2 (split; [done|]). left. split; [done|]. split; [|done]. unfold cursor. by rewrite Hi'.
  - pose proof (ar_lookup _ _ _ _ Ha) as Hi.
    pose proof (Forall_lookup_1 _ _ _ _ (sh_recs _ _ Hs) Hi) as Hok.
    rewrite bind_assoc, bind_dbget, bind_assoc.
    erewrite bind_done; [|eapply readdat_spec; [apply Hf2|exact Hi|done| |apply Ha]];
      [|rewrite (ar_datoff _ _ _ _ Ha); by apply Hw].
    rewrite bind_assoc, bind_dbset, bind_ret, (ar_key _ _ _ _ Ha).
    match goal with |- context [ (un_lock _ _ _ ≫= _) ?w3 ] =>
      destruct (Hun _ (Some (kd r)) w3) as (w' & Hct' & Hlk' & Hi' & E');
        [by rewrite <- Hl2|by destruct Hf2|] end.
    exists w'. do 2 (split; [done|]). right. exists i, r.
    split; [split; [done|by eapply lookup_lt_Some]|]. split; [done|]. split; [unfold cursor; by rewrite Hi'|].
    exact E'.
Qed.

(** A client that reads all records: at most [fuel] calls of db_nextrec. *)
Fixpoint db_scan (fuel : nat) : prog dbw (list (bytes * bytes)) :=
  match fuel with
  | O => mret []
  | S f =>
      r ← db_nextrec;
      match r with
      | None => mret []
      | Some x => xs ← db_scan f; mret (x :: xs)
      end
  end.

Lemma scan_spec fuel w m hdr recs chains j :
  content w m hdr recs chains → w_locks w = [] → (j <= length recs)%nat → cursor w recs j →
  (length recs - j < fuel)%nat →
  ∃ w', db_scan fuel w = Done (kd <$> filter live (drop j recs)) w' ∧
    content w' m hdr recs chains ∧ w_locks w' = [].
Proof.
  revert w j. induction fuel as [|fuel IH]; intros w j Hct Hlk Hj Hcur Hfuel; [lia|].
  cbn [db_scan].
  destruct (nextrec_spec w m hdr recs chains j Hct Hlk Hj Hcur)
    as (w1 & Hct1 & Hlk1 & [(-> & _ & E)|(i & r & Hi & Hcons & Hcur1 & E)]);
    rewrite (bind_done _ _ _ _ _ E); [by exists w1|].
  destruct (IH w1 (S i)) as (w' & E' & Hct' & Hlk'); [done..|lia|done|lia|].
  exists w'. rewrite (bind_done _ _ _ _ _ E'), Hcons. done.
Qed.

(** Every record with a key that is not blank is on the chain of its key. *)
Lemma live_chain w m hdr recs chains i r :
  content w m hdr recs chains → recs !! i = Some r → live r = true →
  ∃ l, chains !! bucket (r_key r) = Some l ∧ i ∈ l.
Proof.
  intros [_ Hw Hk _] Hi Hl.
  assert (Hin : i ∈ [] ++ concat chains).
  { apply (linkwf_lt Hw). by eapply lookup_lt_Some. }
  simpl in Hin. apply list_elem_of_In, in_concat in Hin as (l & Hl' & Hil).
  apply list_elem_of_In, list_elem_of_lookup in Hl' as [c Hc]. apply list_elem_of_In in Hil.
  assert (Hkr : (kd <$> recs) !! i = Some (r_key r, r_data r)) by by rewrite list_lookup_fmap, Hi.
  exists l. split; [|done]. destruct c as [|h].
  - pose proof (kw_free _ _ Hk _ _ _ _ Hc Hil Hkr) as Hb. unfold live in Hl. by rewrite Hb in Hl.
  - unfold bucket. by rewrite (kw_hash _ _ Hk _ _ _ _ _ Hc Hil Hkr), Nat2Z.id.
Qed.

Lemma live_unique w m hdr recs chains i j r r' :
  content w m hdr recs chains → recs !! i = Some r → recs !! j = Some r' →
  live r = true → live r' = true → r_key r = r_key r' → i = j.
Proof.
  intros Hct Hi Hj Hl Hl' Hkey.
  destruct (live_chain _ _ _ _ _ _ _ Hct Hi Hl) as (l & Hc & Hil).
  destruct (live_chain _ _ _ _ _ _ _ Hct Hj Hl') as (l' & Hc' & Hjl).
  rewrite <- Hkey in Hc'. assert (l' = l) as -> by congruence.
  apply (kw_uniq _ _ (ct_key _ _ _ _ _ Hct) (Z.to_nat (khash (r_key r))) l i j (r_key r) (r_data r) (r_data r'));
    [done..|by rewrite list_lookup_fmap, Hi|]. by rewrite list_lookup_fmap, Hj, Hkey.
Qed.

Lemma live_nodup recs :
  (∀ i j r r', recs !! i = Some r → recs !! j = Some r' → live r = true → live r' = true →
     r_key r = r_key r' → i = j) →
  NoDup (fst <$> (kd <$> filter live recs)).
Proof.
  induction recs as [|r recs IH]; intros Hu; [by constructor|].
  assert (IH' : NoDup (fst <$> (kd <$> filter live recs))).
  { apply IH. intros i j r1 r2 Hi Hj ? ? ?. by injection (Hu (S i) (S j) r1 r2 Hi Hj ltac:(done) ltac:(done) ltac:(done)). }
  rewrite filter_cons. destruct (decide (live r)) as [Hl|]; [|done].
  rewrite !fmap_cons. constructor; [|done].
  intros ([k d] & Hk & (r' & [= -> ->] & [Hl' Hr']%list_elem_of_filter)%list_elem_of_fmap)%list_elem_of_fmap.
  apply list_elem_of_lookup in Hr' as [j Hj].
  by discriminate (Hu 0%nat (S j) r r' eq_refl Hj (Is_true_true_1 _ Hl) (Is_true_true_1 _ Hl') Hk).
Qed.

Lemma live_map w m hdr recs chains : content w m hdr recs chains →
  ∀ k d, (k, d) ∈ kd <$> filter live recs ↔ m !! k = Some d ∧ all_blank k = false.
Proof.
  intros Hct k d. rewrite (ct_map _ _ _ _ _ Hct). split.
  - intros (r & [= -> ->] & [Hl Hr]%list_elem_of_filter)%list_elem_of_fmap.
    apply Is_true_true_1 in Hl. apply list_elem_of_lookup in Hr as [i Hi].
    destruct (live_chain _ _ _ _ _ _ _ Hct Hi Hl) as (l & Hc & Hil). split.
    + apply (stored_bucket _ _ _ _ (ct_key _ _ _ _ _ Hct)). exists l, i.
      split; [done|]. split; [done|]. by rewrite list_lookup_fmap, Hi.
    + unfold live in Hl. by apply negb_true_iff in Hl.
  - intros [(h & l & i & Hc & Hil & Hkd) Hb]. rewrite list_lookup_fmap in Hkd.
    destruct (recs !! i) as [r|] eqn:Hi; [|done]. injection Hkd as <- <-.
    apply list_elem_of_fmap. exists r. split; [done|]. apply list_elem_of_filter.
    split; [unfold live; by rewrite Hb|]. by eapply list_elem_of_lookup_2.
Qed.

Lemma rewind_spec w m hdr recs chains : content w m hdr recs chains →
  ∃ w', db_rewind w = Done tt w' ∧ content w' m hdr recs chains ∧ w_locks w' = w_locks w ∧
    cursor w' recs 0.
Proof.
  intros Hct. pose proof (ct_files _ _ _ _ _ Hct) as Hf. unfold db_rewind.
  rewrite bind_dbget. cbv zeta. rewrite (df_nhash _ _ _ Hf).
  change ((NHASH_DEF + 1) * Z.of_nat PTR_SZ + 1) with (Z.of_nat HDR).
  rewrite seek_set by lia. rewrite bind_dbset. eexists. split; [done|].
  split; [|split; [done|]].
  - eapply content_files; [done|]. by destruct Hf.
  - unfold cursor, rec_off. done.
Qed.

(** ** db_open *)

Definition empty_hdr : list Z := replicate NPTR 0.
Definition empty_chains : list (list nat) := replicate NPTR [].

Lemma init_hash_enc : init_hash = enc_idx empty_hdr [].
Proof. vm_compute. done. Qed.

Lemma empty_link : linkwf empty_hdr [] empty_chains [].
Proof.
  assert (Hl : ∀ c l, empty_chains !! c = Some l → l = [] ∧ (c < NPTR)%nat).
  { intros c l Hc. by apply lookup_replicate in Hc. }
  split.
  - split; [done|by apply Forall_replicate|done].
  - done.
  - intros c l [-> Hc]%Hl. by apply lookup_replicate.
  - by intros c l [-> _]%Hl.
  - done.
  - done.
Qed.

Lemma empty_content w : db_files w empty_hdr [] → content w ∅ empty_hdr [] empty_chains.
Proof.
  intros Hf. split; [done|exact empty_link|by split|].
  intros k d. split; [by intros ?%lookup_empty_Some|]. by intros (? & ? & ? & ? & ? & ?).
Qed.

Lemma idx_dat_name p q : idx_name p ≠ dat_name q.
Proof. intros E. apply (f_equal last) in E. unfold idx_name, dat_name in E. by rewrite !last_app in E. Qed.

(** The handle db_open works on. *)
Definition open_db (p : bytes) : DB :=
  _db_alloc <| nhash := NHASH_DEF |> <| hashoff := HASH_OFF |> <| name := dat_name p |>.

Lemma rewind_repn w m n : holds w m n → w_locks w = [] →
  ∃ w', db_rewind w = Done tt w' ∧ db_repn w' m n.
Proof.
  intros (hdr & recs & chains & Hct & Hn) Hlk.
  destruct (rewind_spec w m hdr recs chains Hct) as (w' & E & Hct' & Hl' & _).
  exists w'. split; [done|]. split; [|by rewrite Hl']. by exists hdr, recs, chains.
Qed.

(** Creating a database, or truncating an existing one. *)
Lemma open_fresh d p fl :
  o_creat fl = true → o_trunc fl = true → (o_excl fl = true → d !! idx_name p = None ∧ d !! dat_name p = None) →
  ∃ w, fst (db_open d p fl) = Some (Done tt w) ∧ db_repn w ∅ 0.
Proof.
  intros Hc Ht Hx.
  assert (Hop : ∀ d' q, (o_excl fl = true → d' !! q = None) →
    f_open d' q fl = Some (File [] 0, <[q := []]> d')).
  { intros d' q Hq. unfold f_open. rewrite Hc, Ht. destruct (d' !! q); [|done].
    destruct (o_excl fl); [|done]. by discriminate (Hq eq_refl). }
  unfold db_open. rewrite (Hop d (idx_name p)) by apply Hx. cbv zeta.
  rewrite (Hop _ (dat_name p)).
  2:{ intros H. rewrite lookup_insert_ne by apply idx_dat_name. by apply Hx. }
  rewrite Hc, Ht. cbn [andb fst]. rewrite bind_assoc. unfold writew_lock, lock_reg.
  rewrite bind_modify, bind_assoc, bind_gets. set (w0 := _ <| w_locks ::= _ |>).
  change (fsize (w_idx w0) =? 0) with true. cbn iota.
  set (w1 := w0 <| w_idx := File init_hash 967 |>).
  assert (E : (n ← write IDX init_hash;
    check (n =? Z.of_nat (length init_hash)) (ErrDump "db_open: index file init write error")
      : prog dbw unit) w0 = Done tt w1) by (vm_compute; done).
  rewrite bind_assoc, (bind_done _ _ _ _ _ E). unfold un_lock. rewrite bind_modify.
  destruct (rewind_repn (w1 <| w_locks := [] |>) ∅ 0) as (w' & Ew & Hr).
  - exists empty_hdr, [], empty_chains. split; [|done]. apply empty_content.
    split; [simpl; apply init_hash_enc|done..].
  - done.
  - exists w'. split; [|done]. f_equal. exact Ew.
Qed.

(** Opening an existing database. *)
Lemma reopen d p fl w m n :
  db_repn w m n → o_trunc fl = false → (o_creat fl && o_excl fl) = false →
  ∃ w', fst (db_open (db_close d p w) p fl) = Some (Done tt w') ∧ db_repn w' m n.
Proof.
  intros [(hdr & recs & chains & Hct & Hn) _] Ht Hx.
  set (d' := db_close d p w).
  assert (Hi : d' !! idx_name p = Some (fdata (w_idx w))).
  { unfold d', db_close. rewrite lookup_insert_ne by (symmetry; apply idx_dat_name).
    apply lookup_insert_eq. }
  assert (Hd : ∀ b, <[idx_name p := b]> d' !! dat_name p = Some (fdata (w_dat w))).
  { intros b. rewrite lookup_insert_ne by apply idx_dat_name. unfold d', db_close.
    apply lookup_insert_eq. }
  unfold db_open, f_open. rewrite Hi, Hx, Ht. cbv zeta. rewrite Hd.
  rewrite andb_false_r. cbn [fst]. rewrite bind_ret.
  set (w0 := mkW _ _ _ _ _). destruct (rewind_repn w0 m n) as (w' & -> & Hr); [|done|].
  - exists hdr, recs, chains. split; [|done]. eapply content_files; [done|].
    destruct Hct as [[] _ _ _]. done.
  - by exists w'.
Qed.
