(* ===== verification/DbProps.v ===== *)
(** * Properties of the database library.

    Functional correctness of every routine of apue_db.h against the map a
    database holds, the refinement of the abstract commands by sequences of
    calls, persistence, sequential reading, and the error paths of db_store. *)
From Stdlib Require Import Ascii ZArith Lia.
From stdpp Require Import base strings gmap option list.
From S2P Require Import Prelude CStr PosixFile Db DbLayout DbInv DbOps DbSem DbSpec DbScan.

(** ** Lemmas *)

(** One command on a database of [n] records. *)
Lemma step_repn `{Libc} w m n c : db_repn w m n → cmd_ok c → Z.of_nat n <= NREC_MAX →
  cmd_deletes m c = false ∨ sprintf_self = true →
  ∃ w' n', db_step c w = Done (fst (spec_step m c)) w' ∧
    db_repn w' (snd (spec_step m c)) n' ∧ (n' <= S n)%nat.
Proof.
  intros Hr Hc Hn Hself. destruct c as [key|key data flag|key]; simpl in Hc, Hself |- *.
  - destruct (fetch_repn w m n key Hr Hc) as (w' & E & Hr' & _).
    exists w', n. rewrite (bind_done _ _ _ _ _ E). split; [done|]. split; [done|lia].
  - destruct Hc as (Hk & Hd & Hf).
    destruct (store_repn w m n key data flag Hr Hk Hd Hf) as (w' & n' & E & Hr' & Hn' & _).
    { eapply holds_room; [apply Hr|done]. }
    { done. }
    exists w', n'. rewrite (bind_done _ _ _ _ _ E).
    destruct (spec_store m key data flag). split; [done|]. split; [done|lia].
  - destruct (delete_repn w m n key Hr Hc) as (w' & E & Hr' & _).
    { destruct Hself as [Hs%bool_decide_eq_false|?]; [left; by apply eq_None_not_Some|by right]. }
    exists w', n. rewrite (bind_done _ _ _ _ _ E). split; [done|]. split; [done|lia].
Qed.

(** The first command that deletes a record leaves the defined behaviour of C when sprintf
    does not work in place. *)
Lemma step_undef `{Libc} w m n c : db_repn w m n → cmd_ok c → cmd_deletes m c = true →
  sprintf_self = false → ∃ w', db_step c w = Undef w'.
Proof.
  intros Hr Hc Hd Hself. destruct c as [key|key data flag|key]; simpl in Hc, Hd |- *; [done| |].
  - destruct Hc as (Hk & Hdo & Hf).
    destruct (store_undefined w m n key data flag) as (w' & E); [done..|].
    exists w'. by apply bind_undef.
  - apply bool_decide_eq_true in Hd. destruct (delete_undefined w m n key) as (w' & E); [done..|].
    exists w'. by apply bind_undef.
Qed.

Lemma run_undef `{Libc} cs w m n : db_repn w m n → Forall cmd_ok cs →
  Z.of_nat (n + length cs) <= NREC_MAX + 1 → run_deletes m cs = true → sprintf_self = false →
  ∃ w', db_run cs w = Undef w'.
Proof.
  revert w m n. induction cs as [|c cs IH]; intros w m n Hr Hcs Hn Hd Hself; [done|].
  apply Forall_cons in Hcs as [Hc Hcs]. cbn [length] in Hn. cbn [db_run run_deletes] in *.
  destruct (cmd_deletes m c) eqn:Hdc.
  { destruct (step_undef w m n c Hr Hc Hdc Hself) as (w' & E). exists w'. by apply bind_undef. }
  destruct (step_repn w m n c Hr Hc) as (w1 & n1 & E1 & Hr1 & Hn1); [lia|by left|].
  destruct (IH w1 _ n1 Hr1 Hcs) as (w' & E); [lia|done..|].
  exists w'. rewrite (bind_done _ _ _ _ _ E1). by apply bind_undef.
Qed.

Lemma run_repn `{Libc} cs w m n : db_repn w m n → Forall cmd_ok cs →
  Z.of_nat (n + length cs) <= NREC_MAX + 1 → run_deletes m cs = false ∨ sprintf_self = true →
  ∃ w', db_run cs w = Done (fst (spec_run m cs)) w' ∧ db_rep w' (snd (spec_run m cs)).
Proof.
  revert w m n. induction cs as [|c cs IH]; intros w m n Hr Hcs Hn Hself.
  { exists w. split; [done|]. by exists n. }
  apply Forall_cons in Hcs as [Hc Hcs]. cbn [length] in Hn. cbn [db_run spec_run run_deletes] in *.
  destruct (step_repn w m n c Hr Hc) as (w1 & n1 & E1 & Hr1 & Hn1); [lia| |].
  { destruct Hself as [[Hs _]%orb_false_iff|?]; [by left|by right]. }
  destruct (spec_step m c) as [r m1]. cbn [fst snd] in *.
  destruct (IH w1 m1 n1 Hr1 Hcs) as (w' & E & Hr'); [lia| |].
  { destruct Hself as [[_ Hs]%orb_false_iff|?]; [by left|by right]. }
  exists w'. destruct (spec_run m1 cs) as [rs m2]. cbn [fst snd] in *.
  by rewrite (bind_done _ _ _ _ _ E1), (bind_done _ _ _ _ _ E).
Qed.

(** A key that does not fit the index buffer. *)
Definition KEY_OVERFLOW : Z := 1021.

Lemma writeidx_overflow `{Libc} w key off wh pv :
  0 <= pv <= PTR_MAX → 0 <= datoff (w_db w) → 0 <= datlen (w_db w) →
  KEY_OVERFLOW <= Z.of_nat (strlen key) → ∃ w', _db_writeidx (KeyStr key) off wh pv w = Undef w'.
Proof.
  intros Hp Ho Hl Hk. unfold _db_writeidx. rewrite bind_dbset, bind_check_true by lia.
  rewrite !bind_dbget. set (w1 := w <| w_db ::= _ |>). rewrite bind_defined_true by done. cbv zeta. cbn [key_bytes].
  unfold defined. rewrite (proj2 (Z.leb_gt _ _)); [by eexists|].
  pose proof (udec_length_pos (datoff (w_db w)) Ho). pose proof (udec_length_pos (datlen (w_db w)) Hl).
  change (datoff (w_db w1)) with (datoff (w_db w)). change (datlen (w_db w1)) with (datlen (w_db w)).
  unfold dec. rewrite (proj2 (Z.ltb_ge (datoff _) 0)), (proj2 (Z.ltb_ge (datlen _) 0)) by lia.
  unfold IDXBUF_SZ, IDXLEN_MAX, KEY_OVERFLOW, strlen in *.
  repeat (rewrite length_app || cbn [length]). lia.
Qed.

Lemma append_overflow `{Libc} w key data pv :
  unheld DAT 0 0 (w_locks w) → 0 <= pv <= PTR_MAX → KEY_OVERFLOW <= Z.of_nat (strlen key) →
  ∃ w', store_append key data pv w = Undef w'.
Proof.
  intros Hl Hp Hk. unfold store_append.
  rewrite (bind_done _ _ _ _ _ (writedat_end_spec w data Hl)).
  set (w1 := _ <| w_db ::= _ |>).
  destruct (writeidx_overflow w1 key 0 SEEK_END pv) as (w2 & E); try done.
  - simpl. unfold fsize. lia.
  - simpl. lia.
  - exists w2. unfold mbind, prog_bind. by rewrite E.
Qed.

Lemma long_key_missing w m hdr recs chains key :
  content w m hdr recs chains → KEY_OVERFLOW <= Z.of_nat (length key) →
  (∀ i r, recs !! i = Some r → length (r_key r) ≠ length key) ∧ m !! key = None.
Proof.
  intros Hct Hk. assert (Hno : ∀ i r, recs !! i = Some r → length (r_key r) ≠ length key).
  { intros i r Hi Hl. pose proof (lw_shape _ _ _ _ (ct_link _ _ _ _ _ Hct)) as Hs.
    pose proof (Forall_lookup_1 _ _ _ _ (sh_recs _ _ Hs) Hi) as Hr.
    pose proof (rok_len r Hr) as [_ Hlen]. pose proof (rok_datoff r Hr) as [Ho _].
    pose proof (datlen_pos r) as Hd.
    pose proof (udec_length_pos (r_datoff r) Ho). pose proof (udec_length_pos (r_datlen r) ltac:(lia)).
    unfold enc_body, dec in Hlen.
    rewrite (proj2 (Z.ltb_ge (r_datoff r) 0)), (proj2 (Z.ltb_ge (r_datlen r) 0)) in Hlen by lia.
    unfold IDXLEN_MAX, KEY_OVERFLOW in *. repeat (rewrite length_app in Hlen || cbn [length] in Hlen).
    lia. }
  split; [done|]. destruct (m !! key) as [d|] eqn:E; [|done].
  apply (ct_map _ _ _ _ _ Hct) in E as (h & l & i & _ & _ & Hi). rewrite list_lookup_fmap in Hi.
  destruct (recs !! i) as [r|] eqn:Er; [|done]. injection Hi as E _. by destruct (Hno i r Er); rewrite E.
Qed.

(** A small database: one record, built by db_open and db_store. *)
Definition alpha : bytes := str "alpha".
Definition one : bytes := str "one".
Definition new_flags : oflags := OFlags true true false.


Lemma alpha_ok : key_ok alpha.
Proof. by apply (bool_decide_unpack _). Qed.
Lemma one_ok : data_ok one.
Proof. by apply (bool_decide_unpack _). Qed.

Lemma sample_repn : ∃ w n, db_repn w {[alpha := one]} n ∧ Z.of_nat n <= 1.
Proof.
  destruct (open_fresh ∅ alpha new_flags eq_refl eq_refl ltac:(done)) as (w & E & Hr).
  destruct (store_repn (H := false) w ∅ 0 alpha one DB_STORE Hr alpha_ok one_ok) as (w' & n' & E' & Hr' & Hn & He).
  { by right; right. }
  { eapply holds_room; [apply Hr|done]. }
  { by left. }
  exists w', n'. split; [exact Hr'|lia].
Qed.

(** ** Properties *)

(** C1: a client that creates a database and issues any sequence of at most 9660
    fetches, stores and deletions with valid arguments gets the answers of a map
    from keys to data, and the database holds that map afterwards; no call ends
    the process, runs forever or leaves the defined behaviour of C.  This needs that
    the sequence deletes no record, neither by db_delete nor by storing data of another
    length under a key that is there, or that the C library's sprintf works when the
    string it is given is the destination itself (db.c:577, called from db.c:509);
    otherwise the sequence leaves the defined behaviour at the first such deletion. *)
Theorem db_run_refines_map `{Libc} d p fl cs :
  o_creat fl = true → o_trunc fl = true → o_excl fl = false →
  Forall cmd_ok cs → Z.of_nat (length cs) <= 9660 →
  ∃ w, fst (db_open d p fl) = Some (Done tt w) ∧
    if run_deletes ∅ cs && negb sprintf_self then ∃ w', db_run cs w = Undef w'
    else ∃ w', db_run cs w = Done (fst (spec_run ∅ cs)) w' ∧ db_rep w' (snd (spec_run ∅ cs)).
Proof.
  intros Hc Ht Hx Hcs Hn. destruct (open_fresh d p fl Hc Ht) as (w & E & Hr); [by rewrite Hx|].
  exists w. split; [done|]. destruct (run_deletes ∅ cs && negb sprintf_self) eqn:Hs.
  - apply andb_true_iff in Hs as [? ?%negb_true_iff].
    eapply run_undef; [done..|unfold NREC_MAX; lia|done|done].
  - eapply run_repn; [done..|unfold NREC_MAX; lia|].
    apply andb_false_iff in Hs as [?|?%negb_false_iff]; [by left|by right].
Qed.

Definition sample_cmds : list db_cmd :=
  [CStore alpha one DB_INSERT; CStore alpha (str "eins") DB_STORE; CFetch alpha;
   CDelete alpha; CFetch alpha; CStore alpha one DB_REPLACE].

(** With a sprintf that works in place, with one that need not, and without a deletion. *)
Lemma db_run_refines_map_witness :
  ∃ w, fst (db_open ∅ alpha new_flags) = Some (Done tt w) ∧
    (∃ w', db_run (H := true) sample_cmds w
      = Done [RInt 0; RInt 0; RData (Some (str "eins")); RInt 0; RData None; RInt (-1)] w' ∧
      db_rep w' ∅) ∧
    (∃ w', db_run (H := false) sample_cmds w = Undef w') ∧
    ∃ w', db_run (H := false) (take 1 sample_cmds) w = Done [RInt 0] w' ∧ db_rep w' {[alpha := one]}.
Proof.
  assert (Hok : Forall cmd_ok sample_cmds) by by apply (bool_decide_unpack _).
  destruct (db_run_refines_map (H := true) ∅ alpha new_flags sample_cmds eq_refl eq_refl eq_refl Hok)
    as (w & E & H1); [done|].
  destruct (db_run_refines_map (H := false) ∅ alpha new_flags sample_cmds eq_refl eq_refl eq_refl Hok)
    as (w2 & E2 & H2); [done|].
  destruct (db_run_refines_map (H := false) ∅ alpha new_flags (take 1 sample_cmds) eq_refl eq_refl eq_refl)
    as (w3 & E3 & H3); [by apply Forall_take|done|].
  assert (w2 = w) as -> by congruence. assert (w3 = w) as -> by congruence.
  exists w. by split_and!.
Defined.

(** db_fetch returns the data stored under the key, or NULL when there is none;
    neither file changes, the lock of the chain is released and the counter of
    successful or failed fetches goes up by one. *)
Theorem db_fetch_spec w m key : db_rep w m → no_nul key →
  ∃ w', db_fetch key w = Done (m !! key) w' ∧ db_rep w' m ∧ w_locks w' = [] ∧
    fdata (w_idx w') = fdata (w_idx w) ∧ fdata (w_dat w') = fdata (w_dat w) ∧
    (cnt_fetchok (w_db w'), cnt_fetcherr (w_db w')) =
      match m !! key with
      | Some _ => (cnt_inc (cnt_fetchok (w_db w)), cnt_fetcherr (w_db w))
      | None => (cnt_fetchok (w_db w), cnt_inc (cnt_fetcherr (w_db w)))
      end.
Proof.
  intros [n Hr] Hk. destruct (fetch_repn w m n key Hr Hk) as (w' & E & Hr' & Hi & Hd & _ & Hc).
  exists w'. split; [done|]. split; [by exists n|]. split; [apply Hr'|done].
Qed.

Lemma db_fetch_spec_witness : ∃ w w', db_rep w {[alpha := one]} ∧
  db_fetch alpha w = Done (Some one) w'.
Proof.
  destruct sample_repn as (w & n & Hr & _). exists w.
  destruct (db_fetch_spec w {[alpha := one]} alpha) as (w' & E & _);
    [by exists n|by apply (bool_decide_unpack _)|].
  exists w'. split; [by exists n|done].
Defined.

(** C2: db_store stores the data under the key (flag DB_STORE, DB_INSERT on a new
    key, DB_REPLACE on an existing one) and returns 0; DB_INSERT on an existing key
    returns 1 and DB_REPLACE on a missing one -1 with errno ENOENT, and then the map
    does not change.  One case depends on the C library: replacing data by data of
    another length deletes the record, which formats the index buffer into itself
    (db.c:577); with a sprintf that does not work in place the call is undefined there. *)
Theorem db_store_spec `{Libc} w m key data flag :
  db_rep w m → key_ok key → data_ok data → flag_ok flag → room w →
  if store_moves m key data flag && negb sprintf_self then ∃ w', db_store key data flag w = Undef w'
  else ∃ w', db_store key data flag w = Done (fst (spec_store m key data flag)) w' ∧
    db_rep w' (snd (spec_store m key data flag)) ∧ w_locks w' = [] ∧
    w_errno w' = spec_errno m key flag (w_errno w).
Proof.
  intros [n Hr] Hk Hd Hf Hroom. destruct (_ && _) eqn:Hs.
  - apply andb_true_iff in Hs as [? ?%negb_true_iff]. by eapply store_undefined.
  - destruct (store_repn w m n key data flag Hr Hk Hd Hf Hroom) as (w' & n' & E & Hr' & _ & He).
    { apply andb_false_iff in Hs as [?|?%negb_false_iff]; [by left|by right]. }
    exists w'. split; [done|]. split; [by exists n'|]. split; [apply Hr'|done].
Qed.

(** Data of the same length, and data of another length with either sprintf. *)
Lemma db_store_spec_witness : ∃ w, db_rep w {[alpha := one]} ∧
  (∃ w', db_store (H := false) alpha (str "uno") DB_STORE w = Done 0 w' ∧ db_rep w' {[alpha := str "uno"]}) ∧
  (∃ w', db_store (H := true) alpha (str "eins") DB_STORE w = Done 0 w' ∧ db_rep w' {[alpha := str "eins"]}) ∧
  ∃ w', db_store (H := false) alpha (str "eins") DB_STORE w = Undef w'.
Proof.
  destruct sample_repn as (w & n & Hr & Hn). exists w.
  assert (Hw : db_rep w {[alpha := one]}) by by exists n.
  assert (Hroom : room w) by (eapply holds_room; [apply Hr|unfold NREC_MAX; lia]).
  assert (Hf : flag_ok DB_STORE) by by right; right.
  assert (Ho : data_ok (str "uno")) by by apply (bool_decide_unpack _).
  assert (He : data_ok (str "eins")) by by apply (bool_decide_unpack _).
  pose proof (db_store_spec (H := false) w _ alpha (str "uno") DB_STORE Hw alpha_ok Ho Hf Hroom) as (w1 & E1 & Hr1 & _).
  pose proof (db_store_spec (H := true) w _ alpha (str "eins") DB_STORE Hw alpha_ok He Hf Hroom) as (w2 & E2 & Hr2 & _).
  pose proof (db_store_spec (H := false) w _ alpha (str "eins") DB_STORE Hw alpha_ok He Hf Hroom) as Hu.
  split; [done|]. split; [by exists w1|]. split; [by exists w2|exact Hu].
Defined.

(** db_delete removes the key and returns 0, or returns -1 when the key is not
    there; the index file keeps its size and no lock stays held.  A key that is there
    needs a sprintf that works in place. *)
Theorem db_delete_spec `{Libc} w m key : db_rep w m → no_nul key →
  m !! key = None ∨ sprintf_self = true →
  ∃ w', db_delete key w = Done (if m !! key is Some _ then 0 else -1) w' ∧
    db_rep w' (delete key m) ∧ w_locks w' = [] ∧
    length (fdata (w_idx w')) = length (fdata (w_idx w)).
Proof.
  intros [n Hr] Hk Hself. destruct (delete_repn w m n key Hr Hk Hself) as (w' & E & Hr' & _ & Hl).
  exists w'. split; [done|]. split; [by exists n|]. split; [apply Hr'|done].
Qed.

Lemma db_delete_spec_witness : ∃ w w', db_rep w {[alpha := one]} ∧
  db_delete (H := true) alpha w = Done 0 w' ∧ db_rep w' (delete alpha {[alpha := one]}).
Proof.
  destruct sample_repn as (w & n & Hr & _). exists w.
  destruct (db_delete_spec (H := true) w {[alpha := one]} alpha) as (w' & E & Hr' & _);
    [by exists n|by apply (bool_decide_unpack _)|by right|].
  exists w'. split; [by exists n|done].
Defined.

(** The files of a database whose handle has been closed. *)
Definition keep_flags : oflags := OFlags false false false.

(** C5: closing the handle and opening the files again, without O_TRUNC, gives a
    handle on the same map: what has been stored is found in a later run. *)
Theorem db_close_open d p fl w m :
  db_rep w m → o_trunc fl = false → o_creat fl && o_excl fl = false →
  ∃ w', fst (db_open (db_close d p w) p fl) = Some (Done tt w') ∧ db_rep w' m.
Proof.
  intros [n Hr] Ht Hx. destruct (reopen d p fl w m n Hr Ht Hx) as (w' & E & Hr').
  exists w'. split; [done|by exists n].
Qed.

Lemma db_close_open_witness : ∃ w w', db_rep w {[alpha := one]} ∧
  fst (db_open (db_close ∅ alpha w) alpha keep_flags) = Some (Done tt w') ∧
  db_rep w' {[alpha := one]}.
Proof.
  destruct sample_repn as (w & n & Hr & _). exists w.
  destruct (db_close_open ∅ alpha keep_flags w {[alpha := one]}) as (w' & E & Hr');
    [by exists n|done|done|].
  exists w'. split; [by exists n|done].
Defined.

(** C6: db_rewind followed by calls of db_nextrec until it returns NULL yields every
    association of the map exactly once, except those whose key consists of blanks;
    deleted records are never returned. *)
Theorem db_nextrec_enumerates w m :
  db_rep w m →
  ∃ w1 l N, db_rewind w = Done tt w1 ∧ NoDup (fst <$> l) ∧
    (∀ k d, (k, d) ∈ l ↔ m !! k = Some d ∧ all_blank k = false) ∧
    ∀ fuel, (N < fuel)%nat → ∃ w2, db_scan fuel w1 = Done l w2 ∧ db_rep w2 m.
Proof.
  intros (n & (hdr & recs & chains & Hct & Hn) & Hlk).
  destruct (rewind_spec w m hdr recs chains Hct) as (w1 & E & Hct1 & Hl1 & Hcur).
  exists w1, (kd <$> filter live recs), (length recs). split; [done|]. split; [|split].
  - apply live_nodup. intros. by eapply live_unique.
  - by eapply live_map.
  - intros fuel Hfuel.
    destruct (scan_spec fuel w1 m hdr recs chains 0) as (w2 & E2 & Hct2 & Hl2); try done; try lia.
    { by rewrite Hl1. }
    exists w2. split; [by rewrite E2, drop_0|]. exists n. split; [|done]. by exists hdr, recs, chains.
Qed.

Lemma db_nextrec_enumerates_witness : ∃ w w1 w2 l fuel, db_rep w {[alpha := one]} ∧
  db_rewind w = Done tt w1 ∧ db_scan fuel w1 = Done l w2 ∧ (alpha, one) ∈ l.
Proof.
  destruct sample_repn as (w & n & Hr & _). exists w.
  destruct (db_nextrec_enumerates w {[alpha := one]}) as (w1 & l & N & E & _ & Hl & Hs);
    [by exists n|].
  destruct (Hs (S N)) as (w2 & E2 & _); [lia|].
  exists w1, w2, l, (S N). split; [by exists n|]. split; [done|]. split; [done|].
  by apply Hl.
Defined.

(** arguments db_store rejects: an unknown flag gives -1 with errno EINVAL, empty
    data or data of more than 1023 bytes dumps core; in both cases nothing has
    been written and no lock is held. *)
Theorem db_store_rejects `{Libc} w key data flag :
  (¬ flag_ok flag → db_store key data flag w = Done (-1) (w <| w_errno := EINVAL |>)) ∧
  (flag_ok flag → strlen data = 0%nat ∨ 1024 <= Z.of_nat (strlen data) →
   db_store key data flag w = Fatal (ErrDump "db_store: invalid data length") w).
Proof.
  unfold db_store. split.
  - intros Hf. unfold flag_ok in Hf.
    destruct (Z.eqb_spec flag DB_INSERT), (Z.eqb_spec flag DB_REPLACE), (Z.eqb_spec flag DB_STORE);
      tauto || done.
  - intros Hf Hl. assert (Hflag : negb (flag =? DB_INSERT) && negb (flag =? DB_REPLACE)
      && negb (flag =? DB_STORE) = false) by by destruct Hf as [->|[->| ->]].
    rewrite Hflag. unfold check. assert (Hlen : negb ((Z.of_nat (strlen data) + 1 <? DATLEN_MIN)
      || (DATLEN_MAX <? Z.of_nat (strlen data) + 1)) = false).
    { unfold DATLEN_MIN, DATLEN_MAX. lia. }
    by rewrite Hlen.
Qed.

Lemma db_store_rejects_witness : ∃ w, db_rep w {[alpha := one]} ∧
  db_store (H := false) alpha one 7 w = Done (-1) (w <| w_errno := EINVAL |>).
Proof.
  destruct sample_repn as (w & n & Hr & _). exists w. split; [by exists n|].
  apply (db_store_rejects w alpha one 7).
  by intros [?|[?|?]].
Defined.

(** storing a record with a key of 1021 bytes or more (and any data the length
    check accepts) overflows the index buffer: the record is formatted into the
    buffer of 1026 bytes before its length is checked. *)
Theorem db_store_long_key `{Libc} w m key data flag :
  db_rep w m → no_nul key → KEY_OVERFLOW <= Z.of_nat (length key) → data_ok data →
  flag = DB_INSERT ∨ flag = DB_STORE → ∃ w', db_store key data flag w = Undef w'.
Proof.
  intros (n & (hdr & recs & chains & Hct & Hn) & Hlk) Hnk Hlen Hdo Hfl.
  destruct (find_content w m hdr recs chains key true Hct Hlk Hnk)
    as (w1 & l & Hct1 & Hv & Hl & Hres). cbn iota in Hv.
  destruct (long_key_missing w m hdr recs chains key Hct Hlen) as [Hno Hmk].
  destruct Hres as [[_ E]|(? & ? & ? & ? & _ & _ & Hsome & _)]; [|congruence].
  assert (Hlk1 : chain_locked w1 key).
  { split; [exact (view_locks _ _ Hv)|exact (view_chainoff _ _ Hv)]. }
  assert (Hsk : strlen key = length key) by (unfold strlen; by rewrite cstr_id).
  destruct (reread w1 m hdr recs chains key l Hct1 Hl (locked_off _ _ recs Hlk1))
    as (w2 & E2 & Hct2 & Hs2 & _).
  pose proof (kept_locked _ _ _ (same_kept _ _ Hs2) Hlk1) as Hlk2.
  pose proof Hct2 as [Hf2 Hw2 _ _].
  assert (is_Some (chains !! 0%nat)) as [F H0].
  { apply lookup_lt_is_Some_2. rewrite (lw_len _ _ _ _ Hw2). unfold NPTR. lia. }
  destruct (findfree_spec w2 hdr recs chains (strlen key) (Z.of_nat (strlen data) + 1) F)
    as (w3 & Hs3 & _ & Hres);
    [done..|rewrite (proj1 Hlk2); apply unheld_chain; by right; right|].
  pose proof (kept_locked _ _ _ (same_kept _ _ Hs3) Hlk2) as Hlk3.
  destruct Hres as [[E3 _]|(la & i & lb & r & hdr' & recs' & -> & Hkl & _ & _ & _ & _ & Ha & Hkd & _)];
    cycle 1.
  { destruct (chain_lookup Hw2 0%nat _ i H0 (in_mid _ _ _)) as [ri Hri].
    apply (f_equal (.!! i)) in Hkd. rewrite !list_lookup_fmap, Hri, (ar_lookup _ _ _ _ Ha) in Hkd.
    injection Hkd as Hk _. destruct (Hno i ri Hri). by rewrite <- Hk, Hkl, Hsk. }
  destruct (append_overflow w3 key data (first recs l 0)) as (w4 & E4).
  { rewrite (proj1 Hlk3). apply unheld_chain. by left. }
  { apply (shape_get hdr recs (HdrLoc (bucket key)) _ (lw_shape _ _ _ _ Hw2)).
    by apply (lw_hdr _ _ _ _ Hw2). }
  { by rewrite Hsk. }
  exists w4. unfold db_store.
  assert (Hflag : negb (flag =? DB_INSERT) && negb (flag =? DB_REPLACE)
    && negb (flag =? DB_STORE) = false) by by destruct Hfl as [->| ->].
  rewrite Hflag, bind_check_true; cycle 1.
  { destruct (do_len _ Hdo). unfold strlen. rewrite cstr_id by apply Hdo.
    unfold DATLEN_MIN, DATLEN_MAX in *. lia. }
  rewrite (bind_done _ _ _ _ _ E). change (-1 <? 0) with true. cbn iota.
  rewrite store_notfound_flag by by destruct Hfl as [->| ->].
  unfold store_notfound. change (DB_INSERT =? DB_REPLACE) with false. cbn iota.
  rewrite (bind_eq _ _ _ _ _ (E2 _ _)). rewrite bind_assoc, (bind_done _ _ _ _ _ E3).
  change (-1 <? 0) with true. cbn iota. unfold mbind, prog_bind. by rewrite E4.
Qed.

Lemma db_store_long_key_witness : ∃ w w', db_rep w {[alpha := one]} ∧
  db_store (H := true) (replicate 1021 "k"%char) one DB_STORE w = Undef w'.
Proof.
  destruct sample_repn as (w & n & Hr & _). exists w.
  destruct (db_store_long_key (H := true) w {[alpha := one]} (replicate 1021 "k"%char) one DB_STORE) as (w' & E).
  - by exists n.
  - by apply (bool_decide_unpack _).
  - by rewrite length_replicate.
  - by apply (bool_decide_unpack _).
  - by right.
  - exists w'. split; [by exists n|done].
Defined.
