(* ===== verification/DList.v ===== *)
(** * Doubly linked lists in memory.

    The thread programs (threads/queue.c, threads/rwlock.c) and the print server
    (printer/printd.c) keep their jobs and workers in doubly linked lists of
    malloc'ed structures.  A list lives in a heap of structures; [Node] is what the
    list code needs of a structure type, and [dl_rep s l] says that the list [s]
    holds the nodes [l], each with its address and its payload.  The three lemmas
    [dl_cons], [dl_snoc] and [dl_unlink] are what every routine comes down to. *)
From Stdlib Require Import ZArith Lia.
From stdpp Require Import base gmap option list.
From S2P Require Import Prelude.

(** A pointer: [None] is NULL. *)
Definition ptr : Type := option nat.

(** ** The interface of a list structure *)

Class Node (T P : Type) := {
  nxt : T → ptr;
  prv : T → ptr;
  set_nxt : ptr → T → T;
  set_prv : ptr → T → T;
  payload : T → P;
  nxt_set_nxt x q : nxt (set_nxt q x) = q;
  prv_set_nxt x q : prv (set_nxt q x) = prv x;
  payload_set_nxt x q : payload (set_nxt q x) = payload x;
  nxt_set_prv x q : nxt (set_prv q x) = nxt x;
  prv_set_prv x q : prv (set_prv q x) = q;
  payload_set_prv x q : payload (set_prv q x) = payload x }.

(** A list: the structures in memory and the two end pointers. *)
Record dls (T : Type) := DLS { dl_heap : gmap nat T; dl_head : ptr; dl_tail : ptr }.
Arguments DLS {T} _ _ _.
Arguments dl_heap {T} _.
Arguments dl_head {T} _.
Arguments dl_tail {T} _.
#[export] Instance dls_rebuild {T} : Rebuild (dls T) := λ s,
  DLS (dl_heap s) (dl_head s) (dl_tail s).

(** ** Memory operations of the routines *)

Section ops.
Context {T P : Type} `{!Node T P}.

(** [*p]: undefined when [p] is NULL or has been freed. *)
Definition deref (p : ptr) : prog (dls T) T := λ s,
  match p with
  | Some a => match dl_heap s !! a with Some x => Done x s | None => Undef s end
  | None => Undef s
  end.

(** [p->field = ...]. *)
Definition assign (p : ptr) (f : T → T) : prog (dls T) unit := λ s,
  match p with
  | Some a => match dl_heap s !! a with
              | Some x => Done tt (DLS (<[a := f x]> (dl_heap s)) (dl_head s) (dl_tail s))
              | None => Undef s
              end
  | None => Undef s
  end.

Definition set_head (p : ptr) : prog (dls T) unit :=
  modify (λ s, DLS (dl_heap s) p (dl_tail s)).
Definition set_tail (p : ptr) : prog (dls T) unit :=
  modify (λ s, DLS (dl_heap s) (dl_head s) p).

(** malloc of a structure filled with [x]: any address that is not in use; [None]
    when there is no memory. *)
Definition fresh_ptr (s : dls T) (p : nat) : Prop := dl_heap s !! p = None.
Definition put (p : nat) (x : T) : prog (dls T) unit :=
  modify (λ s, DLS (<[p := x]> (dl_heap s)) (dl_head s) (dl_tail s)).

(** [free(p)]: undefined when [p] is not allocated. *)
Definition free (p : ptr) : prog (dls T) unit := λ s,
  match p with
  | Some a => match dl_heap s !! a with
              | Some _ => Done tt (DLS (delete a (dl_heap s)) (dl_head s) (dl_tail s))
              | None => Undef s
              end
  | None => Done tt s
  end.

(** ** The representation *)

Definition hd_ptr (l : list (nat * P)) : ptr := fst <$> head l.
Definition last_ptr (l : list (nat * P)) : ptr := fst <$> last l.

Record dl_rep (s : dls T) (l : list (nat * P)) : Prop := {
  dl_nodup : NoDup (fst <$> l);
  dl_hd : dl_head s = hd_ptr l;
  dl_tl : dl_tail s = last_ptr l;
  dl_node : ∀ la p v lb, l = la ++ (p, v) :: lb →
    ∃ x, dl_heap s !! p = Some x ∧ nxt x = hd_ptr lb ∧ prv x = last_ptr la ∧ payload x = v }.

(** Changing the structure a pointer points to, if there is one. *)
Definition at_ptr (p : ptr) (f : T → T) (h : gmap nat T) : gmap nat T :=
  match p with Some a => alter f a h | None => h end.

Lemma at_ptr_dom p f h : dom (at_ptr p f h) = dom h.
Proof. destruct p; simpl; [|done]. apply dom_alter_L. Qed.

Lemma at_ptr_ne p f h a : p ≠ Some a → at_ptr p f h !! a = h !! a.
Proof. destruct p as [b|]; simpl; [|done]. intros. apply lookup_alter_ne. congruence. Qed.
Lemma at_ptr_eq p f h a : p = Some a → at_ptr p f h !! a = f <$> h !! a.
Proof. intros ->. simpl. apply lookup_alter_eq. Qed.

Lemma hd_ptr_app l1 l2 : hd_ptr (l1 ++ l2) = match l1 with [] => hd_ptr l2 | x :: _ => Some (fst x) end.
Proof. by destruct l1. Qed.
Lemma last_ptr_snoc l x : last_ptr (l ++ [x]) = Some (fst x).
Proof. unfold last_ptr. by rewrite last_snoc. Qed.
Lemma last_ptr_app l x l2 : last_ptr (l ++ x :: l2) = last_ptr (x :: l2).
Proof. unfold last_ptr. by rewrite last_app_cons. Qed.

Lemma last_ptr_cons x l : l ≠ [] → last_ptr (x :: l) = last_ptr l.
Proof. by destruct l. Qed.

Lemma hd_ptr_in l a : hd_ptr l = Some a → a ∈ (fst <$> l).
Proof. destruct l as [|x l]; [done|]. intros [= <-]. left. Qed.
Lemma last_ptr_in l a : last_ptr l = Some a → a ∈ (fst <$> l).
Proof.
  destruct l as [|x l _] using rev_ind; [done|]. rewrite last_ptr_snoc. intros [= <-].
  rewrite fmap_app. apply elem_of_app. right. left.
Qed.

(** Only the nodes of the list matter. *)
Lemma dl_rep_heap s l h :
  dl_rep s l → (∀ a, a ∈ (fst <$> l) → h !! a = dl_heap s !! a) →
  dl_rep (DLS h (dl_head s) (dl_tail s)) l.
Proof.
  intros [Hnd Hh Ht Hn] Heq. split; [done..|]. intros la p v lb ->.
  destruct (Hn la p v lb eq_refl) as (x & Hx & ?). exists x. split; [|done].
  simpl. rewrite Heq, Hx; [done|]. rewrite fmap_app. apply elem_of_app. right. left.
Qed.

Lemma dl_lookup s l p v : dl_rep s l → (p, v) ∈ l → ∃ x, dl_heap s !! p = Some x ∧ payload x = v.
Proof.
  intros Hr (la & lb & ->)%list_elem_of_split.
  destruct (dl_node _ _ Hr la p v lb eq_refl) as (x & ? & _ & _ & ?). by exists x.
Qed.

(** A pointer to the memory of a structure of the list is valid. *)
Lemma dl_in_heap s l a : dl_rep s l → a ∈ (fst <$> l) → is_Some (dl_heap s !! a).
Proof.
  intros Hr ([p v] & -> & Hin)%list_elem_of_fmap.
  destruct (dl_lookup _ _ _ _ Hr Hin) as (x & ? & _). by exists x.
Qed.

Lemma hd_ptr_neq l p v la lb : NoDup (fst <$> l) → l = la ++ (p, v) :: lb →
  hd_ptr lb ≠ Some p ∧ last_ptr la ≠ Some p ∧ (hd_ptr lb = last_ptr la → hd_ptr lb = None).
Proof.
  intros Hnd ->. rewrite fmap_app, fmap_cons in Hnd.
  apply NoDup_app in Hnd as (_ & Hd & Hb). apply NoDup_cons in Hb as [Hp _]. split; [|split].
  - by intros ?%hd_ptr_in.
  - intros Hl%last_ptr_in. apply (Hd p Hl). left.
  - intros E. destruct (hd_ptr lb) as [a|] eqn:Ha; [|done]. symmetry in E.
    exfalso. apply (Hd a); [by apply last_ptr_in|]. right. by apply hd_ptr_in.
Qed.

(** A new node in front. *)
Lemma dl_cons s l p v x :
  dl_rep s l → p ∉ (fst <$> l) → nxt x = dl_head s → prv x = None → payload x = v →
  dl_rep (DLS (at_ptr (dl_head s) (set_prv (Some p)) (<[p := x]> (dl_heap s)))
            (Some p) (if dl_head s is Some _ then dl_tail s else Some p)) ((p, v) :: l).
Proof.
  intros [Hnd Hh Ht Hn] Hp Hx1 Hx2 Hx3. split; simpl.
  - by constructor.
  - done.
  - rewrite Hh. destruct l as [|y l _] using rev_ind; [done|].
    unfold last_ptr in *. rewrite app_comm_cons, last_snoc. rewrite last_snoc in Ht.
    by destruct l.
  - intros la q w lb El. destruct la as [|z la].
    + injection El as <- <- <-. rewrite at_ptr_ne by (rewrite Hh; by intros ?%hd_ptr_in).
      exists x. rewrite lookup_insert_eq. by rewrite Hx1, Hh.
    + injection El as <- ->. destruct (Hn la q w lb eq_refl) as (y & Hy & Hy1 & Hy2 & Hy3).
      assert (Hqp : p ≠ q).
      { intros ->. apply Hp. rewrite fmap_app. apply elem_of_app. right. left. }
      destruct la as [|z la].
      * rewrite at_ptr_eq by by rewrite Hh. rewrite lookup_insert_ne, Hy by done.
        eexists. split; [done|]. by rewrite nxt_set_prv, prv_set_prv, payload_set_prv.
      * assert (Hz : dl_head s ≠ Some q).
        { rewrite Hh. intros [= E]. simpl in Hnd. apply NoDup_cons in Hnd as [Hz _]. apply Hz.
          rewrite E, fmap_app. apply elem_of_app. right. left. }
        rewrite at_ptr_ne, lookup_insert_ne, Hy by done. by exists y.
Qed.

(** A new node at the end. *)
Lemma dl_snoc s l p v x :
  dl_rep s l → p ∉ (fst <$> l) → nxt x = None → prv x = dl_tail s → payload x = v →
  dl_rep (DLS (at_ptr (dl_tail s) (set_nxt (Some p)) (<[p := x]> (dl_heap s)))
            (if dl_tail s is Some _ then dl_head s else Some p) (Some p)) (l ++ [(p, v)]).
Proof.
  intros [Hnd Hh Ht Hn] Hp Hx1 Hx2 Hx3. split; simpl.
  - rewrite fmap_app. apply NoDup_app. split; [done|]. split; [|by apply NoDup_singleton].
    intros a Ha Hap%list_elem_of_singleton. by subst a.
  - rewrite Ht. destruct l as [|y l _] using rev_ind; [done|].
    rewrite last_ptr_snoc. rewrite Hh. by destruct l.
  - by rewrite last_ptr_snoc.
  - intros la q w lb El. destruct lb as [|y lb _] using rev_ind.
    + apply app_inj_tail in El as [-> [= -> ->]].
      rewrite at_ptr_ne by (rewrite Ht; by intros ?%last_ptr_in).
      exists x. rewrite lookup_insert_eq. by rewrite Hx2, Ht.
    + rewrite app_comm_cons, app_assoc in El. apply app_inj_tail in El as [-> <-].
      destruct (Hn la q w lb eq_refl) as (z & Hz & Hz1 & Hz2 & Hz3).
      assert (Hqp : p ≠ q).
      { intros ->. apply Hp. rewrite fmap_app. apply elem_of_app. right. left. }
      destruct lb as [|z' lb _] using rev_ind.
      * rewrite at_ptr_eq by by rewrite Ht, last_ptr_snoc. rewrite lookup_insert_ne, Hz by done.
        eexists. split; [done|]. by rewrite nxt_set_nxt, prv_set_nxt, payload_set_nxt.
      * assert (Hq : dl_tail s ≠ Some q).
        { rewrite Ht, app_comm_cons, app_assoc, last_ptr_snoc. intros [= E].
          rewrite app_comm_cons, app_assoc, fmap_app in Hnd. apply NoDup_app in Hnd as (_ & Hd & _).
          apply (Hd q); [|rewrite <- E; left]. rewrite fmap_app. apply elem_of_app. right. left. }
        rewrite at_ptr_ne, lookup_insert_ne, Hz by done. exists z. split; [done|].
        split; [|done]. rewrite Hz1. unfold hd_ptr. by destruct lb.
Qed.

(** Taking a node out. *)
Lemma dl_unlink s la p v lb :
  dl_rep s (la ++ (p, v) :: lb) →
  dl_rep (DLS (at_ptr (hd_ptr lb) (set_prv (last_ptr la))
                 (at_ptr (last_ptr la) (set_nxt (hd_ptr lb)) (dl_heap s)))
            (hd_ptr (la ++ lb)) (last_ptr (la ++ lb))) (la ++ lb).
Proof.
  intros [Hnd Hh Ht Hn].
  assert (Hnd' : NoDup (fst <$> (la ++ lb))).
  { rewrite fmap_app in Hnd |- *. rewrite fmap_cons in Hnd.
    apply NoDup_app in Hnd as (Ha & Hab & Hb). apply NoDup_cons in Hb as [_ Hb].
    apply NoDup_app. split; [done|]. split; [|done]. intros a Haa Hab'. apply (Hab a Haa). by right. }
  split; [done..|]. simpl. intros lc q w ld E.
  destruct (app_eq_app _ _ _ _ E) as [le [[-> E']|[-> E']]].
  - destruct le as [|z le]; [|injection E' as <- ->].
    + (* the node after *)
      simpl in E'. subst lb. rewrite app_nil_r in *.
      destruct (Hn (lc ++ [(p, v)]) q w ld) as (y & Hy & Hy1 & Hy2 & Hy3);
        [by rewrite <- app_assoc|].
      rewrite at_ptr_eq by done. rewrite at_ptr_ne, Hy.
      * eexists. split; [done|]. by rewrite nxt_set_prv, prv_set_prv, payload_set_prv.
      * intros Hl%last_ptr_in. rewrite fmap_app in Hnd'. apply NoDup_app in Hnd' as (_ & Hd & _).
        apply (Hd q Hl). left.
    + (* before *)
      destruct (Hn lc q w (le ++ (p, v) :: lb)) as (y & Hy & Hy1 & Hy2 & Hy3);
        [by rewrite <- app_assoc|].
      rewrite at_ptr_ne; cycle 1.
      { intros Hl%hd_ptr_in. rewrite fmap_app in Hnd'. apply NoDup_app in Hnd' as (_ & Hd & _).
        apply (Hd q); [|done]. rewrite fmap_app. apply elem_of_app. right. left. }
      destruct le as [|z le _] using rev_ind.
      * rewrite at_ptr_eq by by rewrite last_ptr_snoc. rewrite Hy. eexists. split; [done|].
        by rewrite nxt_set_nxt, prv_set_nxt, payload_set_nxt.
      * rewrite at_ptr_ne, Hy; [exists y; split; [done|split; [|done]]|].
        -- rewrite Hy1. by destruct le.
        -- rewrite app_comm_cons, app_assoc, last_ptr_snoc. intros [= Ez].
           rewrite app_comm_cons, app_assoc, fmap_app, fmap_app in Hnd'.
           apply NoDup_app in Hnd' as (Hd & _ & _). apply NoDup_app in Hd as (_ & Hd & _).
           apply (Hd q); [|rewrite <- Ez; left]. rewrite fmap_app. apply elem_of_app. right. left.
  - subst lb.
    destruct (Hn (la ++ (p, v) :: le) q w ld) as (y & Hy & Hy1 & Hy2 & Hy3);
      [by rewrite <- app_assoc|].
    assert (Hla : last_ptr la ≠ Some q).
    { intros Hl%last_ptr_in. rewrite fmap_app in Hnd'. apply NoDup_app in Hnd' as (_ & Hd & _).
      apply (Hd q Hl). rewrite fmap_app. apply elem_of_app. right. left. }
    destruct le as [|z le].
    + rewrite at_ptr_eq, at_ptr_ne, Hy by done. eexists. split; [done|].
      rewrite nxt_set_prv, prv_set_prv, payload_set_prv. by rewrite app_nil_r.
    + rewrite at_ptr_ne, at_ptr_ne, Hy; [exists y; split; [done|split; [done|split; [|done]]]|done|].
      * by rewrite Hy2, last_ptr_app, last_ptr_app.
      * intros [= Ez]. rewrite fmap_app in Hnd'. apply NoDup_app in Hnd' as (_ & _ & Hd).
        simpl in Hd. apply NoDup_cons in Hd as [Hz _]. apply Hz. rewrite Ez, fmap_app.
        apply elem_of_app. right. left.
Qed.

(** ** The memory operations on valid pointers *)

Lemma deref_ok {A} s p a x (k : T → prog (dls T) A) :
  p = Some a → dl_heap s !! a = Some x → (deref p ≫= k) s = k x s.
Proof. intros -> Hx. unfold mbind, prog_bind. simpl. by rewrite Hx. Qed.

Lemma assign_ok {A} s p f a (k : unit → prog (dls T) A) :
  p = Some a → is_Some (dl_heap s !! a) →
  (assign p f ≫= k) s = k tt (DLS (at_ptr p f (dl_heap s)) (dl_head s) (dl_tail s)).
Proof.
  intros -> [x Hx]. unfold mbind, prog_bind. simpl. rewrite Hx. do 2 f_equal.
  apply map_eq. intros b. destruct (decide (a = b)) as [<-|].
  - by rewrite lookup_insert_eq, lookup_alter_eq, Hx.
  - by rewrite lookup_insert_ne, lookup_alter_ne.
Qed.

Lemma free_ok {A} s a (k : unit → prog (dls T) A) :
  is_Some (dl_heap s !! a) →
  (free (Some a) ≫= k) s = k tt (DLS (delete a (dl_heap s)) (dl_head s) (dl_tail s)).
Proof. intros [x Hx]. unfold mbind, prog_bind. simpl. by rewrite Hx. Qed.

Lemma at_ptr_insert h p f x : h !! p = Some x → at_ptr (Some p) f h = <[p := f x]> h.
Proof.
  intros Hx. apply map_eq. intros b. simpl. destruct (decide (p = b)) as [<-|].
  - by rewrite lookup_insert_eq, lookup_alter_eq, Hx.
  - by rewrite lookup_insert_ne, lookup_alter_ne.
Qed.

(** Assignments to the structure [p] points to, one after the other. *)
Lemma assign_new {A} s p f x (k : unit → prog (dls T) A) :
  dl_heap s !! p = Some x →
  (assign (Some p) f ≫= k) s = k tt (DLS (<[p := f x]> (dl_heap s)) (dl_head s) (dl_tail s)).
Proof. intros Hx. erewrite assign_ok by done. by rewrite (at_ptr_insert _ _ _ x). Qed.

(** A structure that is on no list can be freed. *)
Lemma dl_free s l p : dl_rep s l → p ∉ (fst <$> l) →
  dl_rep (DLS (delete p (dl_heap s)) (dl_head s) (dl_tail s)) l.
Proof.
  intros Hr Hp. apply dl_rep_heap; [done|]. intros a Ha.
  apply lookup_delete_ne. by intros ->.
Qed.
End ops.

Arguments hd_ptr {P} l.
Arguments last_ptr {P} l.
