(* ===== verification/Jobs.v ===== *)
(** * The job structure of threads/queue.c and threads/rwlock.c and what their
    routines do to the list while they hold the lock.

    The two programs share these statements word for word; Queue and Rwlock add
    the locking, the lookup of the thread and the threads themselves. *)
From Stdlib Require Import Ascii ZArith Lia.
From stdpp Require Import base strings gmap option list.
From S2P Require Import Prelude DList.

Definition NTHREAD : nat := 3.
Definition JOB_CONTENT_SIZE : Z := 256.

Record job := Job { j_next : ptr; j_prev : ptr; j_id : Z; j_content : bytes }.
#[export] Instance job_rebuild : Rebuild job := λ j,
  Job (j_next j) (j_prev j) (j_id j) (j_content j).

(** What a job says: the thread that is to handle it and the content. *)
Definition jpay : Type := Z * bytes.
#[export] Instance job_node : Node job jpay := {|
  nxt := j_next;
  prv := j_prev;
  set_nxt q j := j <| j_next := q |>;
  set_prv q j := j <| j_prev := q |>;
  payload j := (j_id j, j_content j);
  nxt_set_nxt _ _ := eq_refl; prv_set_nxt _ _ := eq_refl; payload_set_nxt _ _ := eq_refl;
  nxt_set_prv _ _ := eq_refl; prv_set_prv _ _ := eq_refl; payload_set_prv _ _ := eq_refl |}.

(** job_insert, between lock and unlock; [p] is [job_ptr]. *)
Definition jq_insert (p : ptr) : prog (dls job) unit :=
  head ← gets dl_head;
  assign p (λ j, j <| j_next := head |>) ;;
  assign p (λ j, j <| j_prev := None |>) ;;
  (if head is Some _ then assign head (λ j, j <| j_prev := p |>) else set_tail p) ;;
  set_head p.

(** job_append. *)
Definition jq_append (p : ptr) : prog (dls job) unit :=
  assign p (λ j, j <| j_next := None |>) ;;
  tail ← gets dl_tail;
  assign p (λ j, j <| j_prev := tail |>) ;;
  (if tail is Some _ then assign tail (λ j, j <| j_next := p |>) else set_head p) ;;
  set_tail p.

(** job_remove. *)
Definition jq_remove (jp : ptr) : prog (dls job) unit :=
  head ← gets dl_head;
  tail ← gets dl_tail;
  (if decide (jp = head) then
     j ← deref jp;
     set_head (j_next j) ;;
     (if decide (tail = jp) then set_tail None
      else assign (j_next j) (λ n, n <| j_prev := j_prev j |>))
   else if decide (jp = tail) then
     j ← deref jp;
     set_tail (j_prev j) ;;
     assign (j_prev j) (λ n, n <| j_next := j_next j |>)
   else
     j ← deref jp;
     assign (j_prev j) (λ n, n <| j_next := j_next j |>) ;;
     j ← deref jp;
     assign (j_next j) (λ n, n <| j_prev := j_prev j |>)) ;;
  free jp.

(** job_find: the loop from [jp] on. *)
Fixpoint jq_find_from (fuel : nat) (jp : ptr) (id : Z) : prog (dls job) ptr :=
  match jp with
  | None => mret None
  | Some _ =>
      match fuel with
      | O => λ _, NoFuel
      | S f =>
          j ← deref jp;
          if j_id j =? id then mret jp else jq_find_from f (j_next j) id
      end
  end.

(** The nodes of a list are different structures in memory. *)
Definition list_fuel (s : dls job) : nat := S (size (dl_heap s)).
Definition jq_find (id : Z) : prog (dls job) ptr :=
  fuel ← gets list_fuel;
  head ← gets dl_head;
  jq_find_from fuel head id.

(** ** On a well-formed list *)

Implicit Types (s : dls job) (l : list (nat * jpay)).

Lemma heap_size s l : dl_rep s l → (length l <= size (dl_heap s))%nat.
Proof.
  intros Hr. rewrite <- (length_fmap fst l).
  assert (Hsub : list_to_set (fst <$> l) ⊆ dom (dl_heap s)).
  { intros a Ha. apply elem_of_list_to_set in Ha. apply elem_of_dom. by apply (dl_in_heap _ _ _ Hr). }
  apply subseteq_size in Hsub. rewrite size_list_to_set in Hsub by apply Hr.
  by rewrite size_dom in Hsub.
Qed.

Lemma jq_insert_spec s l p id c n q :
  dl_rep s l → p ∉ (fst <$> l) → dl_heap s !! p = Some (Job n q id c) →
  ∃ s', jq_insert (Some p) s = Done tt s' ∧ dl_rep s' ((p, (id, c)) :: l) ∧
    dom (dl_heap s') = dom (dl_heap s).
Proof.
  intros Hr Hp Hx. unfold jq_insert. rewrite bind_gets.
  erewrite assign_new by done. erewrite assign_new by apply lookup_insert_eq.
  cbn [dl_heap dl_head dl_tail]. rewrite insert_insert_eq. simpl.
  pose proof (dl_cons s l p (id, c) (Job (dl_head s) None id c) Hr Hp eq_refl eq_refl eq_refl) as Hc.
  assert (Hd : dom (<[p:=Job (dl_head s) None id c]> (dl_heap s)) = dom (dl_heap s)).
  { apply dom_insert_lookup_L. by rewrite Hx. }
  pose proof (dl_hd _ _ Hr) as Hhd. destruct (dl_head s) as [a|] eqn:Ha.
  - erewrite assign_ok; [|done|].
    + eexists. split; [done|]. split; [exact Hc|]. simpl. by rewrite dom_alter_L, Hd.
    + simpl. rewrite lookup_insert_is_Some. destruct (decide (p = a)); [by left|right].
      split; [done|]. apply (dl_in_heap _ _ _ Hr). by apply hd_ptr_in.
  - eexists. split; [done|]. split; [exact Hc|exact Hd].
Qed.

Lemma jq_append_spec s l p id c n q :
  dl_rep s l → p ∉ (fst <$> l) → dl_heap s !! p = Some (Job n q id c) →
  ∃ s', jq_append (Some p) s = Done tt s' ∧ dl_rep s' (l ++ [(p, (id, c))]) ∧
    dom (dl_heap s') = dom (dl_heap s).
Proof.
  intros Hr Hp Hx. unfold jq_append.
  erewrite assign_new by done. rewrite bind_gets. erewrite assign_new by apply lookup_insert_eq.
  cbn [dl_heap dl_head dl_tail]. rewrite insert_insert_eq. simpl.
  pose proof (dl_snoc s l p (id, c) (Job None (dl_tail s) id c) Hr Hp eq_refl eq_refl eq_refl) as Hc.
  assert (Hd : dom (<[p:=Job None (dl_tail s) id c]> (dl_heap s)) = dom (dl_heap s)).
  { apply dom_insert_lookup_L. by rewrite Hx. }
  pose proof (dl_tl _ _ Hr) as Htl. destruct (dl_tail s) as [a|] eqn:Ha.
  - erewrite assign_ok; [|done|].
    + eexists. split; [done|]. split; [exact Hc|]. simpl. by rewrite dom_alter_L, Hd.
    + simpl. rewrite lookup_insert_is_Some. destruct (decide (p = a)); [by left|right].
      split; [done|]. apply (dl_in_heap _ _ _ Hr). by apply last_ptr_in.
  - eexists. split; [done|]. split; [exact Hc|exact Hd].
Qed.

(** The ends of the list around a node. *)
Lemma ends_cases s la p v lb : dl_rep s (la ++ (p, v) :: lb) →
  (dl_head s = Some p ↔ la = []) ∧ (dl_tail s = Some p ↔ lb = []).
Proof.
  intros [Hnd Hh Ht _]. rewrite Hh, Ht, last_ptr_app. rewrite fmap_app in Hnd.
  apply NoDup_app in Hnd as (_ & Hd & Hb). apply NoDup_cons in Hb as [Hb _]. split.
  - destruct la as [|y la]; [done|]. simpl. split; [|done]. intros [= E]. exfalso.
    apply (Hd (fst y)); [left|]. rewrite E. left.
  - destruct lb as [|y lb _] using rev_ind; [done|]. rewrite app_comm_cons, last_ptr_snoc.
    split; [|by destruct lb]. intros [= E]. destruct Hb.
    assert (Hin : p ∈ fst <$> (lb ++ [y])); [|exact Hin].
    rewrite fmap_app. apply elem_of_app. right. rewrite <- E. left.
Qed.

Lemma jq_remove_spec s la p v lb :
  dl_rep s (la ++ (p, v) :: lb) →
  ∃ s', jq_remove (Some p) s = Done tt s' ∧ dl_rep s' (la ++ lb) ∧
    dom (dl_heap s') = dom (dl_heap s) ∖ {[p]}.
Proof.
  intros Hr. destruct (dl_node _ _ Hr la p v lb eq_refl) as (x & Hx & Hn & Hp & _).
  change (j_next x = hd_ptr lb) in Hn. change (j_prev x = last_ptr la) in Hp.
  destruct (ends_cases _ _ _ _ _ Hr) as [Hhd Htl].
  destruct (hd_ptr_neq _ p v la lb (dl_nodup _ _ Hr) eq_refl) as (Hne1 & Hne2 & _).
  pose proof (dl_unlink _ _ _ _ _ Hr) as Hu.
  assert (Hval : ∀ q, q = hd_ptr lb ∨ q = last_ptr la → q ≠ None → ∃ a, q = Some a ∧ is_Some (dl_heap s !! a)).
  { intros [a|] Hq; [|done]. exists a. split; [done|]. apply (dl_in_heap _ _ _ Hr).
    rewrite fmap_app. apply elem_of_app. destruct Hq as [Hq|Hq]; symmetry in Hq.
    - right. right. by apply hd_ptr_in. - left. by apply last_ptr_in. }
  assert (Hpn : p ∉ fst <$> (la ++ lb)).
  { pose proof (dl_nodup _ _ Hr) as Hnd. rewrite fmap_app in Hnd |- *.
    apply NoDup_app in Hnd as (_ & Hd & Hb). apply NoDup_cons in Hb as [Hb _].
    intros [Hin|Hin]%elem_of_app; [|done]. apply (Hd p Hin). left. }
  apply (dl_free _ _ p) in Hu; [|done]. cbn [dl_heap dl_head dl_tail] in Hu.
  unfold jq_remove. rewrite !bind_gets.
  destruct (decide _) as [E|E].
  - assert (la = []) as -> by by apply Hhd. erewrite bind_assoc, deref_ok by done.
    unfold set_head. rewrite bind_assoc, bind_modify.
    destruct (decide _) as [Et|Et].
    + assert (lb = []) as -> by by apply Htl. unfold set_tail. rewrite bind_modify.
      eexists. split; [cbn; by rewrite Hx|].
      rewrite Hn. split; [exact Hu|]. cbn. apply dom_delete_L.
    + assert (Hlb : lb ≠ []) by by intros ?%Htl.
      destruct (Hval (hd_ptr lb)) as (a & Ha & Hav); [by left|by destruct lb|].
      erewrite assign_ok; [|by rewrite Hn|done]. 
      eexists. split; [cbn; rewrite at_ptr_ne by (by rewrite Hn); by rewrite Hx|].
      rewrite Hp, Hn. split; [|cbn; by rewrite dom_delete_L, at_ptr_dom].
      assert (Hls : dl_tail s = last_ptr ([] ++ lb)).
      { rewrite (dl_tl _ _ Hr). by apply last_ptr_cons. }
      cbn. rewrite Hls. exact Hu.
  - assert (Hla : la ≠ []) by (intros ?%Hhd; congruence).
    assert (Hhs : dl_head s = hd_ptr (la ++ lb)) by (rewrite (dl_hd _ _ Hr); by destruct la).
    destruct (Hval (last_ptr la)) as (a & Ha & Hav); [by right| |].
    { destruct la as [|y la _] using rev_ind; [done|]. by rewrite last_ptr_snoc. }
    destruct (decide _) as [Et|Et].
    + assert (lb = []) as -> by by apply Htl. erewrite bind_assoc, deref_ok by done.
      unfold set_tail. rewrite bind_assoc, bind_modify. erewrite assign_ok; [|by rewrite Hp|done].
      eexists. split; [cbn; rewrite at_ptr_ne by (by rewrite Hp); by rewrite Hx|].
      rewrite Hp, Hn. split; [|cbn; by rewrite dom_delete_L, at_ptr_dom].
      cbn. rewrite Hhs. rewrite app_nil_r in Hu |- *. exact Hu.
    + assert (Hlb : lb ≠ []) by (intros ?%Htl; congruence).
      destruct (Hval (hd_ptr lb)) as (b & Hb & Hbv); [by left|by destruct lb|].
      erewrite bind_assoc, deref_ok by done. rewrite bind_assoc.
      erewrite assign_ok; [|by rewrite Hp|done]. rewrite bind_assoc.
      erewrite deref_ok; [|done|]; [|cbn; rewrite at_ptr_ne by (by rewrite Hp); exact Hx].
      erewrite assign_ok; [|by rewrite Hn|by cbn; rewrite <- elem_of_dom, at_ptr_dom, elem_of_dom].
      eexists. split; [cbn; rewrite !at_ptr_ne by (by rewrite ?Hp, ?Hn); by rewrite Hx|].
      rewrite Hp, Hn. split; [|cbn; by rewrite dom_delete_L, !at_ptr_dom].
      assert (Hls : dl_tail s = last_ptr (la ++ lb)).
      { rewrite (dl_tl _ _ Hr), last_ptr_app, last_ptr_cons by done. destruct lb; [done|].
        by rewrite last_ptr_app. }
      cbn. rewrite Hhs, Hls. exact Hu.
Qed.

(** The first job of a thread. *)
Definition of_thread (id : Z) (l : list (nat * jpay)) : list (nat * jpay) :=
  filter (λ e, fst (snd e) = id) l.

Lemma jq_find_from_spec fuel s la lb id :
  dl_rep s (la ++ lb) → (length lb <= fuel)%nat →
  jq_find_from fuel (hd_ptr lb) id s = Done (hd_ptr (of_thread id lb)) s.
Proof.
  intros Hr. revert la lb Hr. induction fuel as [|fuel IH]; intros la [|[p v] lb] Hr Hf;
    simpl in Hf; try done; try lia.
  cbn [jq_find_from hd_ptr head fmap option_fmap option_map fst].
  destruct (dl_node _ _ Hr la p v lb eq_refl) as (x & Hx & Hn & _ & Hv).
  erewrite deref_ok by done. unfold of_thread. rewrite filter_cons.
  assert (Hid : fst v = j_id x) by by rewrite <- Hv.
  cbn [snd]. rewrite Hid. destruct (Z.eqb_spec (j_id x) id) as [E|E].
  - by rewrite decide_True by done.
  - rewrite decide_False by done. change (j_next x) with (nxt x). rewrite Hn.
    apply (IH (la ++ [(p, v)])); [by rewrite <- app_assoc|lia].
Qed.

Lemma jq_find_spec s l id : dl_rep s l → jq_find id s = Done (hd_ptr (of_thread id l)) s.
Proof.
  intros Hr. unfold jq_find. rewrite !bind_gets, (dl_hd _ _ Hr).
  apply (jq_find_from_spec _ _ []); [done|]. pose proof (heap_size _ _ Hr). unfold list_fuel. lia.
Qed.

(** The jobs of one thread in a list of jobs. *)
Definition jobs_of (id : Z) (js : list jpay) : list jpay := filter (λ e, fst e = id) js.

Lemma of_thread_app id l1 l2 : of_thread id (l1 ++ l2) = of_thread id l1 ++ of_thread id l2.
Proof. apply filter_app. Qed.

Lemma of_thread_one id p t c : of_thread id [(p, (t, c))] = if decide (t = id) then [(p, (t, c))] else [].
Proof. unfold of_thread. rewrite filter_cons. simpl. repeat case_decide; done. Qed.

Lemma jobs_of_snoc id js t c :
  jobs_of id (js ++ [(t, c)]) = jobs_of id js ++ (if decide (t = id) then [(t, c)] else []).
Proof. unfold jobs_of. rewrite filter_app, filter_cons. simpl. repeat case_decide; done. Qed.

(** Where the first job of a thread is. *)
Lemma of_thread_split t l p : hd_ptr (of_thread t l) = Some p →
  ∃ la c lb, l = la ++ (p, (t, c)) :: lb ∧ of_thread t la = [].
Proof.
  induction l as [|[q [t' c]] l IH]; [done|]. unfold of_thread. rewrite filter_cons. simpl.
  case_decide as Ht.
  - intros [= <-]. subst t'. by exists [], c, l.
  - intros (la & c' & lb & -> & Hla)%IH. exists ((q, (t', c)) :: la), c', lb. split; [done|].
    unfold of_thread. rewrite filter_cons. by rewrite decide_False.
Qed.
