(* ===== verification/Queue.v ===== *)
(** * The job queue of threads/queue.c: routines, threads, and what the program
    guarantees.

    The routines are programs over a [queue].  The main thread and the NTHREAD
    workers are the steps of [qstep]: each step is what a thread does between two
    points where it can be held up or overtaken.  Worker [i] owns the mutex
    [q_mutex[i]] while it handles a job, main takes it to append one. *)
From Stdlib Require Import Ascii ZArith Lia.
From stdpp Require Import base strings gmap option list.
From S2P Require Import Prelude CStr DList Jobs.

(** ** State *)

(** The read-write lock: free, or held by the running routine. *)
Inductive rwlock := RwFree | RwRead | RwWrite.
#[export] Instance rwlock_eq_dec : EqDecision rwlock.
Proof. solve_decision. Defined.

Record queue := mkQueue {
  q_list : dls job;      (* q_head, q_tail and the jobs in memory *)
  q_lock : rwlock;
  q_mutex : list bool;   (* q_mutex[i] is held *)
  q_thread : list Z }.
#[export] Instance queue_rebuild : Rebuild queue := λ q,
  mkQueue (q_list q) (q_lock q) (q_mutex q) (q_thread q).

(** ** Primitives *)

Definition onl {A} (m : prog (dls job) A) : prog queue A := λ q,
  match m (q_list q) with
  | Done a l => Done a (q <| q_list := l |>)
  | Fatal e l => Fatal e (q <| q_list := l |>)
  | Undef l => Undef (q <| q_list := l |>)
  | NoFuel => NoFuel
  end.

(** A routine takes a lock that is free and releases one it holds; anything else
    within a routine is a self-deadlock or an error of the program. *)
Definition rw_lock (k : rwlock) : prog queue unit :=
  l ← gets q_lock; defined (bool_decide (l = RwFree)) ;; modify (λ q, q <| q_lock := k |>).
Definition rw_unlock : prog queue unit :=
  l ← gets q_lock; defined (bool_decide (l ≠ RwFree)) ;; modify (λ q, q <| q_lock := RwFree |>).
Definition mutex_lock (i : nat) : prog queue unit :=
  ms ← gets q_mutex; defined (bool_decide (ms !! i = Some false)) ;;
  modify (λ q, q <| q_mutex ::= <[i := true]> |>).
Definition mutex_unlock (i : nat) : prog queue unit :=
  ms ← gets q_mutex; defined (bool_decide (ms !! i = Some true)) ;;
  modify (λ q, q <| q_mutex ::= <[i := false]> |>).

(** ** Routines *)

(** The errors of the init calls of the pthread library, [merr i] and [cerr i] for
    the mutex and the condition of thread [i]. *)
Fixpoint init_loop (merr cerr : nat → Z) (n i : nat) : prog queue Z :=
  match n with
  | O => mret 0
  | S n' =>
      if negb (merr i =? 0) then mret (merr i)
      else
        modify (λ q, q <| q_mutex ::= <[i := false]> |>) ;;
        if negb (cerr i =? 0) then mret (cerr i) else init_loop merr cerr n' (S i)
  end.

Definition queue_init (rwerr : Z) (merr cerr : nat → Z) : prog queue Z :=
  onl (set_head None) ;;
  onl (set_tail None) ;;
  if negb (rwerr =? 0) then mret rwerr
  else
    modify (λ q, q <| q_lock := RwFree |>) ;;
    init_loop merr cerr NTHREAD 0.

(** The loop over [q_thread]; [NTHREAD] when no thread has the id. *)
Fixpoint thread_loop (ths : list Z) (id : Z) (n i : nat) : nat :=
  match n with
  | O => i
  | S n' => if bool_decide (ths !! i = Some id) then i else thread_loop ths id n' (S i)
  end.
Definition thread_index (ths : list Z) (id : Z) : nat := thread_loop ths id NTHREAD 0.

(** [mp] is the result of malloc. *)
Definition job_insert (mp : ptr) (jp : job) : prog queue Z :=
  match mp with
  | None => mret (-1)
  | Some p =>
      onl (put p jp) ;;
      ths ← gets q_thread;
      let i := thread_index ths (j_id jp) in
      if bool_decide (i = NTHREAD) then mret (-1)
      else
        mutex_lock i ;;
        rw_lock RwWrite ;;
        onl (jq_insert (Some p)) ;;
        rw_unlock ;;
        mutex_unlock i ;;
        mret 0
  end.

Definition job_append (mp : ptr) (jp : job) : prog queue Z :=
  match mp with
  | None => mret (-1)
  | Some p =>
      onl (put p jp) ;;
      ths ← gets q_thread;
      let i := thread_index ths (j_id jp) in
      if bool_decide (i = NTHREAD) then mret (-1)
      else
        mutex_lock i ;;
        rw_lock RwWrite ;;
        onl (jq_append (Some p)) ;;
        rw_unlock ;;
        mutex_unlock i ;;
        mret 0
  end.

Definition job_remove (jp : ptr) : prog queue unit :=
  rw_lock RwWrite ;;
  onl (jq_remove jp) ;;
  rw_unlock.

(** pthread_rwlock_rdlock succeeds: the lock is never held by the caller. *)
Definition job_find (id : Z) : prog queue ptr :=
  rw_lock RwRead ;;
  jp ← onl (jq_find id);
  rw_unlock ;;
  mret jp.

(** ** handle_job *)

(** The top of the loop: the condition of the inner loop is tested under the worker's
    own mutex only, not under [q_lock]; the result is whether the worker goes on, holding
    the mutex, instead of waiting in pthread_cond_wait.  The two reads may come at
    different times, but what they find is the queue of one moment: it is empty exactly
    if either pointer is NULL. *)
Definition handle_test (i : nat) : prog queue bool :=
  mutex_lock i ;;
  l ← gets q_list;
  if bool_decide (dl_tail l = None) || bool_decide (dl_head l = None) then
    mutex_unlock i ;; mret false
  else mret true.

(** Then, and other threads may have changed the queue in between, job_find; the worker
    keeps the mutex for a job it has found. *)
Definition handle_find (i : nat) (self : Z) : prog queue ptr :=
  job_ptr ← job_find self;
  match job_ptr with
  | Some p => mret (Some p)
  | None => mutex_unlock i ;; mret None
  end.

(** The rest of the round for a job: what is printed. *)
Definition handle_done (i : nat) (p : nat) : prog queue bytes :=
  j ← onl (deref (Some p));
  job_remove (Some p) ;;
  mutex_unlock i ;;
  mret (j_content j).

(** ** main *)

(** The job for an input line, [None] for "Not supported id". *)
Definition line_job (ths : list Z) (buffer : bytes) : option job :=
  let c := nth 0 buffer NUL in
  let i := char_s c - 48 in
  if (1 <=? i) && (i <=? Z.of_nat NTHREAD) then
    t ← ths !! Z.to_nat (i - 1); Some (Job None None t (cstr buffer))
  else None.

(** Where a worker is. *)
Inductive wpc :=
  | WIdle            (* before pthread_mutex_lock at the top of the loop *)
  | WLook            (* holding its mutex, before job_find *)
  | WFound (p : nat) (* holding its mutex, with a job *)
  | WGap             (* between the unlock and the lock after "job not found" *)
  | WWait.           (* asleep in pthread_cond_wait *)

Record sys := mkSys {
  s_q : queue;
  s_pc : list wpc;
  s_input : list bytes;     (* the lines main has not read yet *)
  s_given : list jpay;      (* the jobs appended so far *)
  s_handled : list jpay }.  (* the jobs printed as done *)
#[export] Instance sys_rebuild : Rebuild sys := λ s,
  mkSys (s_q s) (s_pc s) (s_input s) (s_given s) (s_handled s).

(** The effect of pthread_cond_signal. *)
Definition wake (pc : wpc) : wpc := match pc with WWait => WIdle | _ => pc end.

Definition after_test (r : bool) : wpc := if r then WLook else WWait.
Definition after_find (r : ptr) : wpc := match r with Some p => WFound p | None => WGap end.

Inductive qstep : sys → sys → Prop :=
  (** main reads a line with an id that is not supported *)
  | step_skip s line rest :
      s_input s = line :: rest → line_job (q_thread (s_q s)) line = None →
      qstep s (s <| s_input := rest |>)
  (** main reads a line and appends the job; job_append waits for the mutex *)
  | step_append s line rest jb i mp r q' :
      s_input s = line :: rest → line_job (q_thread (s_q s)) line = Some jb →
      i = thread_index (q_thread (s_q s)) (j_id jb) →
      q_mutex (s_q s) !! i = Some false →
      (∀ p, mp = Some p → fresh_ptr (q_list (s_q s)) p) →
      job_append mp jb (s_q s) = Done r q' →
      qstep s (s <| s_q := q' |> <| s_input := rest |>
        <| s_given ::= λ g, if r =? 0 then g ++ [payload jb] else g |>
        <| s_pc ::= λ pcs, if r =? 0 then alter wake i pcs else pcs |>)
  (** a worker tests whether the queue is empty *)
  | step_test s i r q' :
      s_pc s !! i = Some WIdle → q_mutex (s_q s) !! i = Some false →
      handle_test i (s_q s) = Done r q' →
      qstep s (s <| s_q := q' |> <| s_pc ::= <[i := after_test r]> |>)
  (** a worker looks for a job *)
  | step_find s i t r q' :
      s_pc s !! i = Some WLook → q_thread (s_q s) !! i = Some t →
      handle_find i t (s_q s) = Done r q' →
      qstep s (s <| s_q := q' |> <| s_pc ::= <[i := after_find r]> |>)
  (** a worker prints its job and removes it *)
  | step_done s i t p c q' :
      s_pc s !! i = Some (WFound p) → q_thread (s_q s) !! i = Some t →
      handle_done i p (s_q s) = Done c q' →
      qstep s (s <| s_q := q' |> <| s_pc ::= <[i := WIdle]> |>
        <| s_handled ::= λ h, h ++ [(t, c)] |>)
  (** a worker that found no job waits *)
  | step_wait s i :
      s_pc s !! i = Some WGap → q_mutex (s_q s) !! i = Some false →
      qstep s (s <| s_pc ::= <[i := WWait]> |>)
  (** a spurious wakeup *)
  | step_spurious s i :
      s_pc s !! i = Some WWait → qstep s (s <| s_pc ::= <[i := WIdle]> |>).

(** The state in which the workers have been created. *)
Definition sys_init (ths : list Z) (input : list bytes) : sys :=
  mkSys (mkQueue (DLS ∅ None None) RwFree (replicate NTHREAD false) ths)
    (replicate NTHREAD WIdle) input [] [].

Definition reachable (ths : list Z) (input : list bytes) : sys → Prop :=
  rtc qstep (sys_init ths input).
