(* ===== verification/QueueSpec.v ===== *)
(** * The routines of threads/queue.c on a well-formed queue, and the invariant of
    the running program. *)
From Stdlib Require Import Ascii ZArith Lia.
From stdpp Require Import base strings gmap option list.
From S2P Require Import Prelude CStr DList Jobs Queue.

Implicit Types (l : list (nat * jpay)) (ths : list Z).

(** ** Primitives *)

Lemma onl_ok {A B} (m : prog (dls job) A) (k : A → prog queue B) q a (l' : dls job) :
  m (q_list q) = Done a l' → (onl m ≫= k) q = k a (q <| q_list := l' |>).
Proof. intros E. unfold mbind, prog_bind, onl. by rewrite E. Qed.

Lemma rw_lock_ok {B} c (k : unit → prog queue B) q :
  q_lock q = RwFree → (rw_lock c ≫= k) q = k tt (q <| q_lock := c |>).
Proof.
  intros E. unfold rw_lock. rewrite bind_assoc, bind_gets, E, bind_assoc.
  rewrite bind_defined_true by by apply bool_decide_eq_true. by rewrite bind_modify.
Qed.

Lemma rw_unlock_ok {B} (k : unit → prog queue B) q :
  q_lock q ≠ RwFree → (rw_unlock ≫= k) q = k tt (q <| q_lock := RwFree |>).
Proof.
  intros E. unfold rw_unlock. rewrite bind_assoc, bind_gets, bind_assoc.
  rewrite bind_defined_true by by apply bool_decide_eq_true. by rewrite bind_modify.
Qed.

Lemma mutex_lock_ok {B} i (k : unit → prog queue B) q :
  q_mutex q !! i = Some false → (mutex_lock i ≫= k) q = k tt (q <| q_mutex ::= <[i := true]> |>).
Proof.
  intros E. unfold mutex_lock. rewrite bind_assoc, bind_gets, bind_assoc.
  rewrite bind_defined_true by by apply bool_decide_eq_true. by rewrite bind_modify.
Qed.

Lemma mutex_unlock_ok {B} i (k : unit → prog queue B) q :
  q_mutex q !! i = Some true → (mutex_unlock i ≫= k) q = k tt (q <| q_mutex ::= <[i := false]> |>).
Proof.
  intros E. unfold mutex_unlock. rewrite bind_assoc, bind_gets, bind_assoc.
  rewrite bind_defined_true by by apply bool_decide_eq_true. by rewrite bind_modify.
Qed.

Lemma relock (ms : list bool) i b b' : ms !! i = Some b → <[i := b]> (<[i := b']> ms) = ms.
Proof. intros E. by rewrite list_insert_insert_eq, list_insert_id. Qed.

(** The index of a thread. *)
Lemma thread_index_lookup ths id : length ths = NTHREAD → id ∈ ths →
  (thread_index ths id < NTHREAD)%nat ∧ ths !! thread_index ths id = Some id.
Proof.
  intros Hlen Hin. destruct ths as [|a [|b [|c [|]]]]; try done.
  rewrite !elem_of_cons, elem_of_nil in Hin. unfold thread_index, NTHREAD. cbn.
  repeat case_bool_decide; simplify_eq; try (split; [lia|done]);
    destruct Hin as [?|[?|[?|[]]]]; congruence.
Qed.

Lemma thread_index_missing ths id : id ∉ ths → thread_index ths id = NTHREAD.
Proof.
  intros Hin. assert (Hn : ∀ i, ths !! i ≠ Some id).
  { intros i Hi. apply Hin. by eapply list_elem_of_lookup_2. }
  unfold thread_index, NTHREAD. cbn [thread_loop].
  by rewrite !bool_decide_eq_false_2 by apply Hn.
Qed.

Lemma thread_index_nth ths i t : length ths = NTHREAD → NoDup ths → ths !! i = Some t →
  thread_index ths t = i.
Proof.
  intros Hl Hnd Hi. destruct (thread_index_lookup ths t Hl) as [_ Ht].
  { by eapply list_elem_of_lookup_2. }
  by eapply (NoDup_lookup ths).
Qed.

(** ** Routines *)

(** The queue holds the jobs [l], nobody is in a routine. *)
Record queue_rep (q : queue) (l : list (nat * jpay)) : Prop := {
  qr_list : dl_rep (q_list q) l;
  qr_lock : q_lock q = RwFree }.

Lemma put_rep (s : dls job) l p jb : dl_rep s l → fresh_ptr s p →
  ∃ s', put p jb s = Done tt s' ∧ dl_rep s' l ∧ p ∉ (fst <$> l) ∧ dl_heap s' !! p = Some jb.
Proof.
  intros Hr Hp. assert (Hpl : p ∉ (fst <$> l)).
  { intros Hin. apply (dl_in_heap _ _ _ Hr) in Hin as [x Hx]. unfold fresh_ptr in Hp. congruence. }
  eexists. split; [done|]. split; [|split; [done|apply lookup_insert_eq]].
  apply dl_rep_heap; [done|]. intros a Ha. apply lookup_insert_ne. by intros ->.
Qed.

Lemma job_append_spec q l p jb :
  queue_rep q l → fresh_ptr (q_list q) p →
  let i := thread_index (q_thread q) (j_id jb) in
  q_mutex q !! i = Some false → (i < NTHREAD)%nat →
  ∃ q', job_append (Some p) jb q = Done 0 q' ∧ queue_rep q' (l ++ [(p, payload jb)]) ∧
    q_mutex q' = q_mutex q ∧ q_thread q' = q_thread q.
Proof.
  intros [Hr Hl] Hp i Hi Hin.
  destruct (put_rep _ _ _ jb Hr Hp) as (s1 & E1 & Hr1 & Hpl & Hx1).
  destruct jb as [n pr id c]. cbn [j_id] in *.
  destruct (jq_append_spec s1 l p id c n pr Hr1 Hpl Hx1) as (s2 & E2 & Hr2 & _).
  unfold job_append. erewrite onl_ok by done. rewrite bind_gets. simpl j_id.
  rewrite bool_decide_eq_false_2 by exact (Nat.lt_neq _ _ Hin).
  rewrite mutex_lock_ok by done. rewrite rw_lock_ok by done.
  erewrite onl_ok by done. rewrite rw_unlock_ok by done.
  rewrite mutex_unlock_ok by (simpl; apply list_lookup_insert_eq; by eapply lookup_lt_Some).
  eexists. split; [done|]. split; [by split|]. split; [|done]. simpl. by apply relock.
Qed.

Lemma job_insert_spec q l p jb :
  queue_rep q l → fresh_ptr (q_list q) p →
  let i := thread_index (q_thread q) (j_id jb) in
  q_mutex q !! i = Some false → (i < NTHREAD)%nat →
  ∃ q', job_insert (Some p) jb q = Done 0 q' ∧ queue_rep q' ((p, payload jb) :: l) ∧
    q_mutex q' = q_mutex q ∧ q_thread q' = q_thread q.
Proof.
  intros [Hr Hl] Hp i Hi Hin.
  destruct (put_rep _ _ _ jb Hr Hp) as (s1 & E1 & Hr1 & Hpl & Hx1).
  destruct jb as [n pr id c]. cbn [j_id] in *.
  destruct (jq_insert_spec s1 l p id c n pr Hr1 Hpl Hx1) as (s2 & E2 & Hr2 & _).
  unfold job_insert. erewrite onl_ok by done. rewrite bind_gets. simpl j_id.
  rewrite bool_decide_eq_false_2 by exact (Nat.lt_neq _ _ Hin).
  rewrite mutex_lock_ok by done. rewrite rw_lock_ok by done.
  erewrite onl_ok by done. rewrite rw_unlock_ok by done.
  rewrite mutex_unlock_ok by (simpl; apply list_lookup_insert_eq; by eapply lookup_lt_Some).
  eexists. split; [done|]. split; [by split|]. split; [|done]. simpl. by apply relock.
Qed.

(** The id is no thread's: -1, the queue stays, and the copy of the job is left
    behind in memory. *)
Lemma job_append_unknown q l p jb :
  queue_rep q l → fresh_ptr (q_list q) p → j_id jb ∉ q_thread q →
  ∃ q', job_append (Some p) jb q = Done (-1) q' ∧ queue_rep q' l ∧
    q_mutex q' = q_mutex q ∧ q_thread q' = q_thread q ∧
    p ∉ (fst <$> l) ∧ dl_heap (q_list q') !! p = Some jb.
Proof.
  intros [Hr Hl] Hp Hid.
  destruct (put_rep _ _ _ jb Hr Hp) as (s1 & E1 & Hr1 & Hpl & Hx1).
  unfold job_append. erewrite onl_ok by done. rewrite bind_gets. 
  rewrite bool_decide_eq_true_2 by exact (thread_index_missing _ _ Hid).
  eexists. split; [done|]. split; [by split|]. by repeat (split; [done|]).
Qed.

Lemma job_remove_spec q la p v lb :
  queue_rep q (la ++ (p, v) :: lb) →
  ∃ q', job_remove (Some p) q = Done tt q' ∧ queue_rep q' (la ++ lb) ∧
    q_mutex q' = q_mutex q ∧ q_thread q' = q_thread q.
Proof.
  intros [Hr Hl]. destruct (jq_remove_spec _ _ _ _ _ Hr) as (s' & E & Hr' & _).
  unfold job_remove. rewrite rw_lock_ok by done. erewrite onl_ok by done.
  eexists. split; [done|]. by split; [split|].
Qed.

Lemma job_find_spec q l id :
  queue_rep q l → job_find id q = Done (hd_ptr (of_thread id l)) q.
Proof.
  intros [Hr Hl]. unfold job_find. rewrite rw_lock_ok by done.
  erewrite onl_ok by by apply jq_find_spec. rewrite rw_unlock_ok by done.
  unfold mret, prog_ret. f_equal. destruct q. simpl in *. by subst.
Qed.

(** A round of a worker: the test, and the search. *)
Lemma handle_test_spec q l i :
  queue_rep q l → q_mutex q !! i = Some false →
  ∃ q', handle_test i q = Done (bool_decide (l ≠ [])) q' ∧ queue_rep q' l ∧ q_thread q' = q_thread q ∧
    q_mutex q' = if bool_decide (l ≠ []) then <[i := true]> (q_mutex q) else q_mutex q.
Proof.
  intros Hq Hi. assert (Hlt : (i < length (q_mutex q))%nat) by by eapply lookup_lt_Some.
  unfold handle_test. rewrite mutex_lock_ok by done. rewrite bind_gets.
  set (q1 := q <| q_mutex ::= <[i := true]> |>).
  assert (Hi1 : q_mutex q1 !! i = Some true) by by apply list_lookup_insert_eq.
  pose proof (dl_hd _ _ (qr_list _ _ Hq)) as Hh. pose proof (dl_tl _ _ (qr_list _ _ Hq)) as Ht.
  change (q_list q1) with (q_list q). rewrite Hh, Ht. destruct l as [|[p v] l].
  - simpl. rewrite mutex_unlock_ok by done. eexists. split; [done|].
    split; [by destruct Hq|]. split; [done|]. simpl. by apply relock.
  - rewrite (bool_decide_eq_true_2 ((p, v) :: l ≠ [])) by done.
    rewrite !bool_decide_eq_false_2; [|done|unfold last_ptr; by rewrite last_cons; destruct (last l)].
    change (false || false) with false. cbn iota.
    eexists. split; [done|]. split; [by destruct Hq|done].
Qed.

Lemma handle_find_spec q l i t :
  queue_rep q l → q_mutex q !! i = Some true →
  ∃ q', handle_find i t q = Done (hd_ptr (of_thread t l)) q' ∧ queue_rep q' l ∧ q_thread q' = q_thread q ∧
    q_mutex q' = if hd_ptr (of_thread t l) is Some _ then q_mutex q else <[i := false]> (q_mutex q).
Proof.
  intros Hq Hi. unfold handle_find. erewrite bind_done; [|by apply job_find_spec].
  destruct (hd_ptr (of_thread t l)) as [p'|].
  - by exists q.
  - rewrite mutex_unlock_ok by done. eexists. split; [done|]. split; [by destruct Hq|done].
Qed.

Lemma handle_done_spec q la p t c lb i :
  queue_rep q (la ++ (p, (t, c)) :: lb) → q_mutex q !! i = Some true →
  ∃ q', handle_done i p q = Done c q' ∧ queue_rep q' (la ++ lb) ∧ q_thread q' = q_thread q ∧
    q_mutex q' = <[i := false]> (q_mutex q).
Proof.
  intros Hq Hi. destruct (job_remove_spec _ _ _ _ _ Hq) as (q1 & E1 & Hq1 & Hm1 & Ht1).
  destruct (dl_node _ _ (qr_list _ _ Hq) la p (t, c) lb eq_refl) as (x & Hx & _ & _ & Hv).
  unfold handle_done.
  assert (Ed : deref (Some p) (q_list q) = Done x (q_list q)) by (unfold deref; by rewrite Hx).
  rewrite (onl_ok _ _ _ _ _ Ed). replace (q <| q_list := q_list q |>) with q by by destruct q.
  rewrite (bind_done _ _ _ _ _ E1). rewrite mutex_unlock_ok by by rewrite Hm1.
  eexists. split; [by injection Hv as _ ->|]. split; [by destruct Hq1|]. split; [done|].
  simpl. by rewrite Hm1.
Qed.
