(* ===== verification/QueueProps.v ===== *)
(** * Properties of threads/queue.c: the routines implement a list, and the running
    program hands every job to its thread, once and in order. *)
From Stdlib Require Import Ascii ZArith Lia.
From stdpp Require Import base strings gmap option list.
From S2P Require Import Prelude CStr DList Jobs Queue QueueSpec.

Implicit Types (l : list (nat * jpay)) (ths : list Z) (s : sys).

(** ** The invariant *)

(** The workers that hold their mutex. *)
Definition holding (pc : wpc) : bool := match pc with WLook | WFound _ => true | _ => false end.

Record sys_inv ths s l : Prop := {
  si_queue : queue_rep (s_q s) l;
  si_ths : q_thread (s_q s) = ths;
  si_pcs : length (s_pc s) = NTHREAD;
  si_held : q_mutex (s_q s) = holding <$> s_pc s;
  si_found : ∀ i t p, s_pc s !! i = Some (WFound p) → ths !! i = Some t →
    hd_ptr (of_thread t l) = Some p;
  si_fifo : ∀ id, jobs_of id (s_given s) = jobs_of id (s_handled s) ++ (snd <$> of_thread id l) }.

Lemma line_job_id ths line jb : line_job ths line = Some jb → j_id jb ∈ ths.
Proof.
  unfold line_job. destruct (_ && _); [|done]. intros (t & Ht & [= <-])%bind_Some.
  by eapply list_elem_of_lookup_2.
Qed.

Lemma sys_init_inv ths input : sys_inv ths (sys_init ths input) [].
Proof.
  split; try done.
  - split; [|done]. split; [constructor|done..|]. by intros [] ? ? ?.
  - intros i t p Hp. by apply lookup_replicate in Hp as [? _].
Qed.

(** The mutex of a worker. *)
Lemma pc_mutex ths s l i pc : sys_inv ths s l → s_pc s !! i = Some pc →
  q_mutex (s_q s) !! i = Some (holding pc).
Proof. intros Hi Hpc. by rewrite (si_held _ _ _ Hi), list_lookup_fmap, Hpc. Qed.

(** Worker [i] goes to [pc'], with or without its mutex; the jobs stay. *)
Lemma inv_pc ths s l i pc pc' q' : sys_inv ths s l → s_pc s !! i = Some pc →
  queue_rep q' l → q_thread q' = q_thread (s_q s) → q_mutex q' = <[i := holding pc']> (q_mutex (s_q s)) →
  (∀ t p, pc' = WFound p → ths !! i = Some t → hd_ptr (of_thread t l) = Some p) →
  sys_inv ths (s <| s_q := q' |> <| s_pc ::= <[i := pc']> |>) l.
Proof.
  intros [Hq Ht Hp Hh Hf Hg] Hpc Hq' Ht' Hm' Hfound. split; try done; simpl.
  - by rewrite Ht'.
  - by rewrite length_insert.
  - by rewrite list_fmap_insert, <- Hh.
  - intros j t p. destruct (decide (i = j)) as [<-|].
    + rewrite list_lookup_insert_eq by by eapply lookup_lt_Some. intros [= Hx]. by apply Hfound.
    + rewrite list_lookup_insert_ne by done. apply Hf.
Qed.

(** The same when only the place of the worker changes. *)
Lemma inv_move ths s l i pc pc' : sys_inv ths s l → s_pc s !! i = Some pc →
  holding pc = false → holding pc' = false → sys_inv ths (s <| s_pc ::= <[i := pc']> |>) l.
Proof.
  intros Hi Hpc Hh Hh'. pose proof (inv_pc ths s l i pc pc' (s_q s) Hi Hpc) as H.
  replace (s <| s_q := s_q s |>) with s in H by by destruct s. apply H; [apply Hi|done| |by intros t p ->].
  rewrite Hh', list_insert_id; [done|]. by rewrite (pc_mutex _ _ _ _ _ Hi Hpc), Hh.
Qed.

Lemma holding_wake (pcs : list wpc) i : holding <$> alter wake i pcs = holding <$> pcs.
Proof.
  revert i. induction pcs as [|pc pcs IH]; intros [|i]; simpl; [done..| |].
  - by destruct pc.
  - f_equal. apply IH.
Qed.

Lemma inv_append ths s l i jb p q' (rest : list bytes) :
  sys_inv ths s l → (i < NTHREAD)%nat → i = thread_index ths (j_id jb) →
  q_mutex (s_q s) !! i = Some false →
  queue_rep q' (l ++ [(p, payload jb)]) → q_mutex q' = q_mutex (s_q s) →
  q_thread q' = q_thread (s_q s) →
  sys_inv ths (s <| s_q := q' |> <| s_input := rest |> <| s_given ::= λ g, g ++ [payload jb] |>
    <| s_pc ::= alter wake i |>) (l ++ [(p, payload jb)]).
Proof.
  intros [Hq Ht Hp Hh Hf Hg] Hi Hix Hmi Hq' Hm' Ht'. split; simpl; try done.
  - by rewrite Ht'.
  - by rewrite length_alter.
  - by rewrite holding_wake, Hm'.
  - intros j t p0 Hj Hjt. rewrite of_thread_app.
    assert (Hpc : s_pc s !! j = Some (WFound p0)).
    { destruct (decide (i = j)) as [<-|]; [|by rewrite list_lookup_alter_ne in Hj].
      rewrite list_lookup_alter_eq in Hj. clear - Hj. destruct (s_pc s !! i) as [[]|]; simpl in Hj; naive_solver. }
    pose proof (Hf j t p0 Hpc Hjt) as Hh0. by destruct (of_thread t l).
  - intros id. destruct jb as [n pr t c]. simpl. rewrite jobs_of_snoc, of_thread_app, of_thread_one.
    rewrite Hg, fmap_app, app_assoc. by case_decide.
Qed.

Lemma inv_done ths s la p t c lb i q' :
  NoDup ths → sys_inv ths s (la ++ (p, (t, c)) :: lb) → of_thread t la = [] →
  s_pc s !! i = Some (WFound p) → ths !! i = Some t →
  queue_rep q' (la ++ lb) → q_thread q' = q_thread (s_q s) →
  q_mutex q' = <[i := false]> (q_mutex (s_q s)) →
  sys_inv ths (s <| s_q := q' |> <| s_pc ::= <[i := WIdle]> |>
    <| s_handled ::= λ h, h ++ [(t, c)] |>) (la ++ lb).
Proof.
  intros Hnd Hi Hla Hpc Hit Hq' Ht' Hm'. destruct Hi as [Hq Ht Hp Hh Hf Hg].
  assert (Hlt : (i < NTHREAD)%nat) by (rewrite <- Hp; by eapply lookup_lt_Some).
  assert (Hoth : ∀ t', t' ≠ t → of_thread t' (la ++ (p, (t, c)) :: lb) = of_thread t' (la ++ lb)).
  { intros t' Hne. rewrite !of_thread_app. f_equal. unfold of_thread. rewrite filter_cons.
    rewrite decide_False; [done|]. simpl. congruence. }
  split; simpl; try done; [by rewrite Ht'|by rewrite length_insert|by rewrite Hm', list_fmap_insert, Hh|..].
  - intros j t' p'. destruct (decide (i = j)) as [<-|]; [by rewrite list_lookup_insert_eq by lia|].
    rewrite list_lookup_insert_ne by done. intros Hj Hjt. rewrite <- Hoth; [by eapply Hf|].
    intros ->. by eapply n, NoDup_lookup.
  - intros id. rewrite Hg, jobs_of_snoc. destruct (decide (t = id)) as [<-|Hne].
    + rewrite !of_thread_app, Hla. unfold of_thread at 1. rewrite filter_cons.
      rewrite decide_True by done. rewrite <- app_assoc. done.
    + rewrite Hoth by done. by rewrite app_nil_r.
Qed.

Lemma step_inv ths s l s' : NoDup ths → length ths = NTHREAD →
  sys_inv ths s l → qstep s s' → ∃ l', sys_inv ths s' l'.
Proof.
  intros Hnd Hlen Hi Hst. pose proof (si_queue _ _ _ Hi) as Hq. pose proof (si_ths _ _ _ Hi) as Ht.
  destruct Hst as [s line rest Hin Hl|s line rest jb i mp r q' Hin Hl Hix Hm Hfr E|
    s i r q' Hpc Hm E|s i t r q' Hpc Hti E|s i t p c q' Hpc Hti E|s i Hpc Hm|s i Hpc].
  - exists l. by destruct Hi; split.
  - assert (Hid : j_id jb ∈ ths) by (rewrite <- Ht; by eapply line_job_id).
    destruct (thread_index_lookup ths (j_id jb) Hlen Hid) as [Hlt _].
    rewrite Ht in Hix. subst i. destruct mp as [p|].
    + destruct (job_append_spec (s_q s) l p jb Hq (Hfr p eq_refl)) as (q1 & E1 & Hq1 & Hm1 & Ht1);
        [by rewrite Ht|by rewrite Ht|].
      assert (r = 0 ∧ q' = q1) as [-> ->] by (rewrite E1 in E; by injection E).
      exists (l ++ [(p, payload jb)]). by eapply inv_append.
    + injection E as <- <-. exists l. destruct s. by destruct Hi; split.
  - destruct (handle_test_spec (s_q s) l i Hq Hm) as (q1 & E1 & Hq1 & Ht1 & Hm1).
    assert (r = bool_decide (l ≠ []) ∧ q' = q1) as [-> ->] by (rewrite E1 in E; by injection E).
    exists l. eapply inv_pc; [done..| |by destruct (bool_decide _)].
    rewrite Hm1. destruct (bool_decide (l ≠ [])); [done|]. by rewrite list_insert_id.
  - rewrite Ht in Hti. pose proof (pc_mutex _ _ _ _ _ Hi Hpc) as Hm.
    destruct (handle_find_spec (s_q s) l i t Hq Hm) as (q1 & E1 & Hq1 & Ht1 & Hm1).
    assert (r = hd_ptr (of_thread t l) ∧ q' = q1) as [-> ->] by (rewrite E1 in E; by injection E).
    exists l. eapply inv_pc; [done..| |].
    + rewrite Hm1. destruct (hd_ptr (of_thread t l)); [|done]. by rewrite list_insert_id.
    + intros t' p' Hp' Ht'. assert (t' = t) as -> by congruence. destruct (hd_ptr (of_thread t l)); [|done].
      by injection Hp' as ->.
  - rewrite Ht in Hti. pose proof (si_found _ _ _ Hi _ _ _ Hpc Hti) as Hp.
    destruct (of_thread_split _ _ _ Hp) as (la & c' & lb & -> & Hla).
    pose proof (pc_mutex _ _ _ _ _ Hi Hpc) as Hb.
    destruct (handle_done_spec (s_q s) la p t c' lb i Hq Hb) as (q1 & E1 & Hq1 & Ht1 & Hm1).
    assert (c = c' ∧ q' = q1) as [-> ->] by (rewrite E1 in E; by injection E).
    exists (la ++ lb). by eapply inv_done.
  - exists l. by eapply inv_move.
  - exists l. by eapply inv_move.
Qed.

Lemma reachable_inv ths input s : NoDup ths → length ths = NTHREAD →
  reachable ths input s → ∃ l, sys_inv ths s l.
Proof.
  intros Hnd Hlen Hr. unfold reachable in Hr.
  assert (H0 : ∃ l, sys_inv ths (sys_init ths input) l) by (exists []; apply sys_init_inv).
  revert H0. induction Hr as [|s1 s2 s3 Hst _ IH]; [done|]. intros [l Hi]. apply IH.
  by eapply step_inv.
Qed.

(** ** Running the program *)

(** One step of a given thread, as a function; [ChAppend p]: malloc returns [p]. *)
Inductive choice := ChAppend (p : nat) | ChTest (i : nat) | ChFind (i : nat) | ChDone (i : nat) | ChWait (i : nat).

Definition exec (ch : choice) (s : sys) : option sys :=
  match ch with
  | ChAppend p =>
      match s_input s with
      | line :: rest =>
          jb ← line_job (q_thread (s_q s)) line;
          let i := thread_index (q_thread (s_q s)) (j_id jb) in
          guard (q_mutex (s_q s) !! i = Some false) ;;
          guard (dl_heap (q_list (s_q s)) !! p = None) ;;
          match job_append (Some p) jb (s_q s) with
          | Done r q' =>
              Some (s <| s_q := q' |> <| s_input := rest |>
                <| s_given ::= λ g, if r =? 0 then g ++ [payload jb] else g |>
                <| s_pc ::= λ pcs, if r =? 0 then alter wake i pcs else pcs |>)
          | _ => None
          end
      | [] => None
      end
  | ChTest i =>
      match s_pc s !! i with
      | Some WIdle =>
          guard (q_mutex (s_q s) !! i = Some false) ;;
          match handle_test i (s_q s) with
          | Done r q' => Some (s <| s_q := q' |> <| s_pc ::= <[i := after_test r]> |>)
          | _ => None
          end
      | _ => None
      end
  | ChFind i =>
      match s_pc s !! i, q_thread (s_q s) !! i with
      | Some WLook, Some t =>
          match handle_find i t (s_q s) with
          | Done r q' => Some (s <| s_q := q' |> <| s_pc ::= <[i := after_find r]> |>)
          | _ => None
          end
      | _, _ => None
      end
  | ChDone i =>
      match s_pc s !! i, q_thread (s_q s) !! i with
      | Some (WFound p), Some t =>
          match handle_done i p (s_q s) with
          | Done c q' => Some (s <| s_q := q' |> <| s_pc ::= <[i := WIdle]> |>
                           <| s_handled ::= λ h, h ++ [(t, c)] |>)
          | _ => None
          end
      | _, _ => None
      end
  | ChWait i =>
      match s_pc s !! i with
      | Some WGap =>
          guard (q_mutex (s_q s) !! i = Some false) ;;
          Some (s <| s_pc ::= <[i := WWait]> |>)
      | _ => None
      end
  end.

Lemma exec_sound ch s s' : exec ch s = Some s' → qstep s s'.
Proof.
  destruct ch as [p|i|i|i|i]; cbn beta iota delta [exec]; intros E.
  - destruct (s_input s) as [|line rest] eqn:Hin; [done|].
    apply bind_Some in E as (jb & Hl & E). cbv zeta in E. apply bind_Some in E as (Hm & _ & E).
    apply bind_Some in E as (Hf & _ & E). destruct (job_append (Some p) jb (s_q s)) eqn:Ea; try done.
    injection E as <-. eapply (step_append s line rest jb _ (Some p)); [done|done|reflexivity|done| |exact Ea].
    intros ? [= <-]. exact Hf.
  - destruct (s_pc s !! i) as [[]|] eqn:Hp; try done.
    apply bind_Some in E as (Hm & _ & E). destruct (handle_test i (s_q s)) eqn:El; try done.
    injection E as <-. by eapply step_test.
  - destruct (s_pc s !! i) as [[]|] eqn:Hp; try done. destruct (q_thread (s_q s) !! i) eqn:Ht; [|done].
    destruct (handle_find i z (s_q s)) eqn:El; try done. injection E as <-. by eapply step_find.
  - destruct (s_pc s !! i) as [[]|] eqn:Hp; try done. destruct (q_thread (s_q s) !! i) eqn:Ht; [|done].
    destruct (handle_done i p (s_q s)) eqn:Ed; try done. injection E as <-. by eapply step_done.
  - destruct (s_pc s !! i) as [[]|] eqn:Hp; try done. apply bind_Some in E as (Hm & _ & E).
    injection E as <-. by eapply step_wait.
Qed.

Fixpoint exec_all (chs : list choice) (s : sys) : option sys :=
  match chs with
  | [] => Some s
  | ch :: chs => s' ← exec ch s; exec_all chs s'
  end.

Lemma exec_all_sound chs s s' : exec_all chs s = Some s' → rtc qstep s s'.
Proof.
  revert s. induction chs as [|ch chs IH]; intros s; simpl; [by intros [= <-]|].
  intros (s1 & E%exec_sound & E')%bind_Some. eapply rtc_l; [done|]. by apply IH.
Qed.

(** ** Properties *)

(** every routine of queue.c does on the queue what it says, and releases the
    locks it takes: job_insert puts the job in front, job_append at the end,
    job_remove takes out the given one, job_find returns the first job of the
    thread or NULL.  A job for an unknown thread is refused with -1. *)
Theorem queue_routines q l p jb id :
  queue_rep q l → fresh_ptr (q_list q) p →
  let i := thread_index (q_thread q) (j_id jb) in
  ((i < NTHREAD)%nat → q_mutex q !! i = Some false →
    (∃ q', job_insert (Some p) jb q = Done 0 q' ∧ queue_rep q' ((p, payload jb) :: l) ∧
       q_mutex q' = q_mutex q) ∧
    (∃ q', job_append (Some p) jb q = Done 0 q' ∧ queue_rep q' (l ++ [(p, payload jb)]) ∧
       q_mutex q' = q_mutex q)) ∧
  (j_id jb ∉ q_thread q → ∃ q', job_append (Some p) jb q = Done (-1) q' ∧ queue_rep q' l) ∧
  (∀ la p' v lb, l = la ++ (p', v) :: lb → ∃ q', job_remove (Some p') q = Done tt q' ∧
     queue_rep q' (la ++ lb) ∧ q_mutex q' = q_mutex q) ∧
  job_find id q = Done (hd_ptr (of_thread id l)) q.
Proof.
  intros Hq Hp i. split; [|split; [|split]].
  - intros Hi Hm. split.
    + destruct (job_insert_spec q l p jb Hq Hp Hm Hi) as (q' & E & Hq' & Hm' & _). by exists q'.
    + destruct (job_append_spec q l p jb Hq Hp Hm Hi) as (q' & E & Hq' & Hm' & _). by exists q'.
  - intros Hid. destruct (job_append_unknown q l p jb Hq Hp Hid) as (q' & E & Hq' & _). by exists q'.
  - intros la p' v lb ->. destruct (job_remove_spec q la p' v lb Hq) as (q' & E & Hq' & Hm' & _).
    by exists q'.
  - by apply job_find_spec.
Qed.

Lemma queue_routines_witness :
  ∃ q', job_append (Some 4%nat) (Job None None 11 (str "2x"))
      (mkQueue (DLS ∅ None None) RwFree [false; false; false] [10; 11; 12]) = Done 0 q' ∧
    queue_rep q' [(4%nat, (11, str "2x"))].
Proof.
  destruct (queue_routines (mkQueue (DLS ∅ None None) RwFree [false; false; false] [10; 11; 12])
    [] 4 (Job None None 11 (str "2x")) 11) as (H & _).
  - split; [|done]. split; [constructor|done..|]. by intros [] ? ? ?.
  - done.
  - destruct H as (_ & q' & E & Hq' & _); [vm_compute; lia|done|]. by exists q'.
Defined.

(** C3: in every state the program can reach, whatever the interleaving of main and
    the workers and wherever malloc puts the jobs, a thread that may run does so
    without touching freed memory or misusing a lock: a worker's test of the queue, its
    search, its handling of a found job and main's job_append complete, the test sends a
    worker to sleep only if none of its jobs is pending, and the search finds a job
    exactly when one of its jobs is pending. *)
Theorem queue_no_use_after_free ths input s :
  NoDup ths → length ths = NTHREAD → reachable ths input s →
  (∀ i t, s_pc s !! i = Some WIdle → ths !! i = Some t →
     ∃ r q', handle_test i (s_q s) = Done r q' ∧
       (r = false → jobs_of t (s_given s) = jobs_of t (s_handled s))) ∧
  (∀ i t, s_pc s !! i = Some WLook → ths !! i = Some t →
     ∃ r q', handle_find i t (s_q s) = Done r q' ∧
       (is_Some r ↔ jobs_of t (s_given s) ≠ jobs_of t (s_handled s))) ∧
  (∀ i p, s_pc s !! i = Some (WFound p) → ∃ c q', handle_done i p (s_q s) = Done c q') ∧
  (∀ line jb p, line_job ths line = Some jb → fresh_ptr (q_list (s_q s)) p →
     q_mutex (s_q s) !! thread_index ths (j_id jb) = Some false →
     ∃ q', job_append (Some p) jb (s_q s) = Done 0 q').
Proof.
  intros Hnd Hlen Hr. destruct (reachable_inv _ _ _ Hnd Hlen Hr) as [l Hi]. split; [|split; [|split]]; cycle 3.
  { intros line jb p Hl Hp Hm. pose proof (si_ths _ _ _ Hi) as Ht.
    pose proof (thread_index_lookup ths (j_id jb) Hlen (line_job_id _ _ _ Hl)) as [Hlt _].
    destruct (job_append_spec (s_q s) l p jb (si_queue _ _ _ Hi) Hp) as (q' & E & _);
      [by rewrite Ht|by rewrite Ht|by exists q']. }
  - intros i t Hpc Hit. pose proof (pc_mutex _ _ _ _ _ Hi Hpc) as Hm.
    destruct (handle_test_spec (s_q s) l i (si_queue _ _ _ Hi) Hm) as (q' & E & _).
    exists (bool_decide (l ≠ [])), q'. split; [done|]. intros Hl%bool_decide_eq_false%dec_stable.
    rewrite (si_fifo _ _ _ Hi t), Hl. by rewrite app_nil_r.
  - intros i t Hpc Hit. pose proof (pc_mutex _ _ _ _ _ Hi Hpc) as Hm.
    destruct (handle_find_spec (s_q s) l i t (si_queue _ _ _ Hi) Hm) as (q' & E & _).
    exists (hd_ptr (of_thread t l)), q'. split; [done|]. rewrite (si_fifo _ _ _ Hi t).
    destruct (of_thread t l) as [|[p v] lt]; simpl.
    + rewrite app_nil_r. split; [by intros []|done].
    + split; [|by eexists]. intros _ Heq.
      apply (f_equal length) in Heq. rewrite length_app in Heq. simpl in Heq. lia.
  - intros i p Hpc.
    assert (is_Some (ths !! i)) as [t Hit].
    { apply lookup_lt_is_Some_2. rewrite Hlen, <- (si_pcs _ _ _ Hi). by eapply lookup_lt_Some. }
    pose proof (si_found _ _ _ Hi _ _ _ Hpc Hit) as Hp.
    destruct (of_thread_split _ _ _ Hp) as (la & c & lb & -> & _).
    pose proof (pc_mutex _ _ _ _ _ Hi Hpc) as Hb.
    destruct (handle_done_spec (s_q s) la p t c lb i (si_queue _ _ _ Hi) Hb) as (q1 & E1 & _).
    by exists c, q1.
Qed.

(** C7: every job is printed by the thread it was given to, once and in the order in
    which main appended the jobs of that thread; the jobs not printed yet are the
    ones on the queue. *)
Theorem queue_fifo ths input s id :
  NoDup ths → length ths = NTHREAD → reachable ths input s →
  ∃ l, queue_rep (s_q s) l ∧
    jobs_of id (s_given s) = jobs_of id (s_handled s) ++ (snd <$> of_thread id l).
Proof.
  intros Hnd Hlen Hr. destruct (reachable_inv _ _ _ Hnd Hlen Hr) as [l Hi].
  exists l. split; [apply Hi|apply (si_fifo _ _ _ Hi)].
Qed.

Lemma queue_fifo_witness : ∃ s l, reachable [10; 11; 12] [str "1a"; str "2b"; str "1c"] s ∧
  queue_rep (s_q s) l ∧ jobs_of 10 (s_given s) = jobs_of 10 (s_handled s) ++ (snd <$> of_thread 10 l) ∧
  jobs_of 10 (s_handled s) = [(10, str "1a")].
Proof.
  assert (Hr : ∃ s, reachable [10; 11; 12] [str "1a"; str "2b"; str "1c"] s ∧
    jobs_of 10 (s_handled s) = [(10, str "1a")]).
  { eexists. split; [apply (exec_all_sound [ChAppend 1; ChAppend 2; ChTest 0; ChFind 0; ChDone 0; ChAppend 7]);
      vm_compute; reflexivity|]. vm_compute. done. }
  destruct Hr as (s & Hr & Hh). exists s.
  destruct (queue_fifo [10; 11; 12] [str "1a"; str "2b"; str "1c"] s 10) as (l & Hq & E);
    [by apply (bool_decide_unpack _)|done|done|].
  by exists l.
Defined.

Lemma queue_no_use_after_free_witness :
  ∃ s c q', reachable [10; 11; 12] [str "1a"] s ∧ s_pc s !! 0%nat = Some (WFound 5) ∧
    handle_done 0 5 (s_q s) = Done c q'.
Proof.
  assert (Hr : ∃ s, reachable [10; 11; 12] [str "1a"] s ∧ s_pc s !! 0%nat = Some (WFound 5)).
  { eexists. split; [apply (exec_all_sound [ChAppend 5; ChTest 0; ChFind 0]); vm_compute; reflexivity|]. done. }
  destruct Hr as (s & Hr & Hp). exists s.
  destruct (queue_no_use_after_free [10; 11; 12] [str "1a"] s) as (_ & _ & Hd & _);
    [by apply (bool_decide_unpack _)|done|done|].
  destruct (Hd 0%nat 5%nat Hp) as (c & q' & E). by exists c, q'.
Defined.

(** a wakeup can be lost.  handle_job lets go of the mutex between "job not
    found" and pthread_cond_wait and does not look again, so a job appended in
    between is signalled to nobody: the program can reach a state in which all
    input has been read, a job is on the queue for a worker, and all workers sleep;
    no step but a spurious wakeup can follow. *)
Theorem queue_lost_wakeup : ∃ s id,
  reachable [10; 11; 12] [str "2x"; str "1y"] s ∧
  s_input s = [] ∧ s_pc s = [WWait; WWait; WWait] ∧
  jobs_of id (s_given s) ≠ jobs_of id (s_handled s) ∧
  ∀ s', qstep s s' → ∃ i, s' = s <| s_pc ::= <[i := WIdle]> |>.
Proof.
  assert (Hr : ∃ s, reachable [10; 11; 12] [str "2x"; str "1y"] s ∧
    s_input s = [] ∧ s_pc s = [WWait; WWait; WWait] ∧
    jobs_of 10 (s_given s) ≠ jobs_of 10 (s_handled s)).
  { eexists. split; [apply (exec_all_sound [ChAppend 1; ChTest 0; ChFind 0; ChAppend 2; ChWait 0;
      ChTest 1; ChFind 1; ChDone 1; ChTest 1; ChFind 1; ChWait 1; ChTest 2; ChFind 2; ChWait 2]); vm_compute; reflexivity|].
    by vm_compute. }
  destruct Hr as (s & Hr & Hin & Hpc & Hj). exists s, 10. do 4 (split; [done|]).
  assert (Hw : ∀ i pc, s_pc s !! i = Some pc → pc = WWait).
  { intros i pc Hi. rewrite Hpc in Hi. by destruct i as [|[|[|]]]; simplify_eq/=. }
  intros s' Hst. destruct Hst as [s1 ? ? Hin1|s1 ? ? ? ? ? ? ? Hin1|s1 i ? ? Hp|s1 i ? ? ? Hp|s1 i ? ? ? ? Hp|s1 i Hp|s1 i Hp];
    [congruence|congruence|by apply Hw in Hp..|by exists i].
Qed.
