(* ===== verification/Rwlock.v ===== *)
(** * The job queue of threads/rwlock.c.

    The queue has one mutex and one condition for all threads: [q_mutex] has one
    element here and [q_thread] none.  A worker holds the mutex during a whole round
    of its loop, main while it appends a job, so the steps of [rstep] are whole
    rounds.  At the end of the input main destroys the locks and frees the queue under
    the workers, which are still running. *)
From Stdlib Require Import Ascii ZArith Lia.
From stdpp Require Import base strings gmap option list.
From S2P Require Import Prelude CStr DList Jobs Queue QueueSpec.

Module Rwlock.

(** ** Routines *)

Definition queue_init (rwerr merr cerr : Z) : prog queue Z :=
  onl (set_head None) ;;
  onl (set_tail None) ;;
  if negb (rwerr =? 0) then mret rwerr
  else
    modify (λ q, q <| q_lock := RwFree |>) ;;
    if negb (merr =? 0) then mret merr
    else
      modify (λ q, q <| q_mutex := [false] |>) ;;
      if negb (cerr =? 0) then mret cerr else mret 0.

Definition job_insert (mp : ptr) (jp : job) : prog queue Z :=
  match mp with
  | None => mret (-1)
  | Some p =>
      onl (put p jp) ;;
      rw_lock RwWrite ;;
      onl (jq_insert (Some p)) ;;
      rw_unlock ;;
      mret 0
  end.

Definition job_append (mp : ptr) (jp : job) : prog queue Z :=
  match mp with
  | None => mret (-1)
  | Some p =>
      onl (put p jp) ;;
      rw_lock RwWrite ;;
      onl (jq_append (Some p)) ;;
      rw_unlock ;;
      mret 0
  end.

Definition job_remove (jp : ptr) : prog queue unit :=
  rw_lock RwWrite ;;
  onl (jq_remove jp) ;;
  rw_unlock.

Definition job_find (id : Z) : prog queue ptr :=
  rw_lock RwRead ;;
  jp ← onl (jq_find id);
  rw_unlock ;;
  mret jp.

(** ** Threads *)

(** A round of handle_job: what it prints for a job it found; [None] when it ends in
    pthread_cond_wait, which lets go of the mutex. *)
Definition handle_job (self : Z) : prog queue (option bytes) :=
  mutex_lock 0 ;;
  l ← gets q_list;
  if bool_decide (dl_tail l = None) || bool_decide (dl_head l = None) then
    mutex_unlock 0 ;; mret None
  else
    job_ptr ← job_find self;
    match job_ptr with
    | Some p =>
        j ← onl (deref (Some p));
        job_remove (Some p) ;;
        mutex_unlock 0 ;;
        mret (Some (j_content j))
    | None => mutex_unlock 0 ;; mret None
    end.

(** The body of main's loop; [mp] is malloc's result. *)
Definition main_line (thread_id : list Z) (mp : ptr) (buffer : bytes) : prog queue (option Z) :=
  match line_job thread_id buffer with
  | None => mret None
  | Some job_tmp =>
      mutex_lock 0 ;;
      r ← job_append mp job_tmp;
      mutex_unlock 0 ;;
      mret (Some r)
  end.

(** What main has done after its loop: the three destroy calls, free, exit. *)
Inductive stage := Running | RwDestroyed | CondDestroyed | MutexDestroyed | Freed | Exited.
#[export] Instance stage_eq_dec : EqDecision stage.
Proof. solve_decision. Defined.

Definition main_tail (st : stage) : stage :=
  match st with
  | Running => RwDestroyed
  | RwDestroyed => CondDestroyed
  | CondDestroyed => MutexDestroyed
  | MutexDestroyed => Freed
  | Freed | Exited => Exited
  end.

Record rsys := mkR {
  r_q : queue; r_input : list bytes; r_given : list jpay; r_handled : list jpay; r_stage : stage }.
#[export] Instance rsys_rebuild : Rebuild rsys := λ s,
  mkR (r_q s) (r_input s) (r_given s) (r_handled s) (r_stage s).

(** A round as far as main has left the queue alone.  A round uses the mutex, the
    condition if the queue is empty and the read-write lock if it is not, so it can do
    without the latter only. *)
Definition worker_round (self : Z) (s : rsys) : outcome queue (option bytes) :=
  match r_stage s with
  | Running => handle_job self (r_q s)
  | RwDestroyed => if bool_decide (dl_head (q_list (r_q s)) = None) then handle_job self (r_q s) else Undef (r_q s)
  | _ => Undef (r_q s)
  end.

Inductive rstep (ths : list Z) : rsys → rsys → Prop :=
  | rstep_main s line rest mp r q' :
      r_stage s = Running → r_input s = line :: rest → (∀ p, mp = Some p → fresh_ptr (q_list (r_q s)) p) →
      main_line ths mp line (r_q s) = Done r q' →
      rstep ths s (s <| r_q := q' |> <| r_input := rest |>
        <| r_given ::= λ g, match r, line_job ths line with
                            | Some 0, Some jb => g ++ [payload jb]
                            | _, _ => g
                            end |>)
  | rstep_worker s t r q' :
      t ∈ ths → r_stage s ≠ Exited → worker_round t s = Done r q' →
      rstep ths s (s <| r_q := q' |>
        <| r_handled ::= λ h, match r with Some c => h ++ [(t, c)] | None => h end |>)
  | rstep_tail s :
      r_input s = [] → r_stage s ≠ Exited → rstep ths s (s <| r_stage ::= main_tail |>).

Definition rinit (input : list bytes) : rsys :=
  mkR (mkQueue (DLS ∅ None None) RwFree [false] []) input [] [] Running.

(** ** On a well-formed queue *)

Implicit Types (l : list (nat * jpay)) (s : rsys).

Lemma append_spec q l p jb : queue_rep q l → fresh_ptr (q_list q) p →
  ∃ q', job_append (Some p) jb q = Done 0 q' ∧ queue_rep q' (l ++ [(p, payload jb)]) ∧
    q_mutex q' = q_mutex q.
Proof.
  intros [Hr Hl] Hp. destruct (put_rep _ _ _ jb Hr Hp) as (s1 & E1 & Hr1 & Hpl & Hx1).
  destruct jb as [n pr id c].
  destruct (jq_append_spec s1 l p id c n pr Hr1 Hpl Hx1) as (s2 & E2 & Hr2 & _).
  unfold job_append. erewrite onl_ok by done. rewrite rw_lock_ok by done.
  erewrite onl_ok by done. rewrite rw_unlock_ok by done. eexists. split; [done|]. by split; [split|].
Qed.

Lemma insert_spec q l p jb : queue_rep q l → fresh_ptr (q_list q) p →
  ∃ q', job_insert (Some p) jb q = Done 0 q' ∧ queue_rep q' ((p, payload jb) :: l) ∧
    q_mutex q' = q_mutex q.
Proof.
  intros [Hr Hl] Hp. destruct (put_rep _ _ _ jb Hr Hp) as (s1 & E1 & Hr1 & Hpl & Hx1).
  destruct jb as [n pr id c].
  destruct (jq_insert_spec s1 l p id c n pr Hr1 Hpl Hx1) as (s2 & E2 & Hr2 & _).
  unfold job_insert. erewrite onl_ok by done. rewrite rw_lock_ok by done.
  erewrite onl_ok by done. rewrite rw_unlock_ok by done. eexists. split; [done|]. by split; [split|].
Qed.

(** The first job of the thread is taken off the queue; no job: nothing changes. *)
Lemma handle_spec q l t : queue_rep q l → q_mutex q = [false] →
  ∃ r q', handle_job t q = Done r q' ∧ q_mutex q' = [false] ∧
    match of_thread t l with
    | [] => r = None ∧ queue_rep q' l
    | _ => ∃ la p c lb, l = la ++ (p, (t, c)) :: lb ∧ of_thread t la = [] ∧ r = Some c ∧
             queue_rep q' (la ++ lb)
    end.
Proof.
  intros Hq Hm. unfold handle_job. rewrite mutex_lock_ok by by rewrite Hm. rewrite bind_gets.
  set (q1 := q <| q_mutex ::= <[0%nat := true]> |>).
  assert (Hq1 : queue_rep q1 l) by by destruct Hq.
  assert (Hm1 : q_mutex q1 = [true]) by (simpl; by rewrite Hm).
  pose proof (dl_hd _ _ (qr_list _ _ Hq)) as Hh. pose proof (dl_tl _ _ (qr_list _ _ Hq)) as Ht.
  change (q_list q1) with (q_list q). rewrite Hh, Ht. destruct l as [|e l].
  - change (bool_decide (last_ptr [] = None) || _) with true. cbn iota.
    rewrite mutex_unlock_ok by by rewrite Hm1. eexists _, _. split; [done|]. simpl. rewrite Hm.
    split; [done|]. split; [done|]. by destruct Hq1.
  - rewrite !bool_decide_eq_false_2; [|done|unfold last_ptr; by rewrite last_cons; destruct (last l)].
    change (false || false) with false. cbn iota. erewrite bind_done; [|by apply job_find_spec].
    destruct (of_thread t (e :: l)) as [|[p v] lt] eqn:Ef.
    + change (hd_ptr []) with (@None nat). cbn iota. rewrite mutex_unlock_ok by by rewrite Hm1.
      eexists _, _. split; [done|]. simpl. rewrite Hm. split; [done|]. split; [done|]. by destruct Hq1.
    + change (hd_ptr ((p, v) :: lt)) with (Some p). cbn iota.
      destruct (of_thread_split t (e :: l) p) as (la & c & lb & Hsp & Hla); [by rewrite Ef|].
      rewrite Hsp in *.
      destruct (job_remove_spec _ _ _ _ _ Hq1) as (q2 & E2 & Hq2 & Hm2 & _).
      destruct (dl_node _ _ (qr_list _ _ Hq1) la p (t, c) lb eq_refl) as (x & Hx & _ & _ & Hv).
      assert (Ed : deref (Some p) (q_list q1) = Done x (q_list q1)) by (unfold deref; by rewrite Hx).
      rewrite (onl_ok _ _ _ _ _ Ed). replace (q1 <| q_list := q_list q1 |>) with q1 by by destruct q1.
      change (job_remove (Some p)) with (Queue.job_remove (Some p)).
      rewrite (bind_done _ _ _ _ _ E2). rewrite mutex_unlock_ok by by rewrite Hm2, Hm1.
      eexists _, _. split; [done|]. simpl. rewrite Hm2, Hm1. split; [done|].
      exists la, p, c, lb. injection Hv as _ ->. do 3 (split; [done|]). by destruct Hq2.
Qed.

(** ** The running program *)

Record rinv s l : Prop := {
  ri_queue : queue_rep (r_q s) l;
  ri_mutex : q_mutex (r_q s) = [false];
  ri_fifo : ∀ id, jobs_of id (r_given s) = jobs_of id (r_handled s) ++ (snd <$> of_thread id l) }.

Lemma rinit_inv input : rinv (rinit input) [].
Proof.
  split; [|done|done]. split; [|done]. split; [constructor|done..|]. by intros [] ? ? ?.
Qed.

Lemma main_spec ths s l line mp :
  rinv s l → (∀ p, mp = Some p → fresh_ptr (q_list (r_q s)) p) →
  ∃ r q' l', main_line ths mp line (r_q s) = Done r q' ∧
    rinv (s <| r_q := q' |>
        <| r_given ::= λ g, match r, line_job ths line with
                            | Some 0, Some jb => g ++ [payload jb]
                            | _, _ => g
                            end |>) l'.
Proof.
  intros [Hq Hm Hg] Hfr. unfold main_line. destruct (line_job ths line) as [jb|]; cycle 1.
  { exists None, (r_q s), l. split; [done|]. by split. }
  rewrite mutex_lock_ok by by rewrite Hm. set (q1 := r_q s <| q_mutex ::= <[0%nat := true]> |>).
  assert (Hq1 : queue_rep q1 l) by by destruct Hq.
  assert (Hm1 : q_mutex q1 = [true]) by (simpl; by rewrite Hm). destruct mp as [p|].
  - destruct (append_spec q1 l p jb Hq1 (Hfr p eq_refl)) as (q2 & E2 & Hq2 & Hm2).
    rewrite (bind_done _ _ _ _ _ E2), mutex_unlock_ok by by rewrite Hm2, Hm1.
    eexists (Some 0), _, _. split; [done|]. split; simpl; [by destruct Hq2|by rewrite Hm2, Hm1|].
    intros id. destruct jb as [n pr t c]. simpl.
    rewrite jobs_of_snoc, of_thread_app, of_thread_one, Hg, fmap_app, app_assoc. by case_decide.
  - unfold job_append. rewrite bind_ret, mutex_unlock_ok by by rewrite Hm1.
    eexists (Some (-1)), _, l. split; [done|]. split; simpl; [by destruct Hq1|by rewrite Hm|done].
Qed.

Lemma worker_spec s l t : rinv s l →
  ∃ r q' l', handle_job t (r_q s) = Done r q' ∧
    rinv (s <| r_q := q' |>
      <| r_handled ::= λ h, match r with Some c => h ++ [(t, c)] | None => h end |>) l' ∧
    (r = None ↔ of_thread t l = []).
Proof.
  intros [Hq Hm Hg]. destruct (handle_spec _ _ t Hq Hm) as (r & q' & E & Hm' & Hr).
  exists r, q'. destruct (of_thread t l) as [|e lt] eqn:Ef.
  - destruct Hr as [-> Hq']. exists l. split; [done|]. by split; [split|].
  - destruct Hr as (la & p & c & lb & -> & Hla & -> & Hq'). exists (la ++ lb).
    split; [done|]. split; [|done]. split; simpl; [done|done|]. intros id.
    rewrite Hg, jobs_of_snoc. destruct (decide (t = id)) as [<-|Hne].
    + rewrite !of_thread_app, Hla. unfold of_thread at 1. rewrite filter_cons.
      rewrite decide_True by done. by rewrite <- app_assoc.
    + rewrite app_nil_r. f_equal. f_equal. rewrite !of_thread_app. f_equal. unfold of_thread.
      rewrite filter_cons, decide_False; [done|]. simpl. congruence.
Qed.

Lemma reach_inv ths input s : rtc (rstep ths) (rinit input) s → ∃ l, rinv s l.
Proof.
  intros Hr. assert (H0 : ∃ l, rinv (rinit input) l) by (exists []; apply rinit_inv).
  revert H0. induction Hr as [|s1 s2 s3 Hst _ IH]; [done|]. intros [l Hi]. apply IH.
  destruct Hst as [s line rest mp r q' Hst Hin Hfr E|s t r q' Hin Hst E|s Hin Hst].
  - destruct (main_spec ths s l line mp Hi Hfr) as (r1 & q1 & l1 & E1 & Hi1).
    assert (r = r1 ∧ q' = q1) as [-> ->] by (rewrite E1 in E; by injection E).
    exists l1. by destruct Hi1; split.
  - destruct (worker_spec s l t Hi) as (r1 & q1 & l1 & E1 & Hi1 & _).
    assert (E' : handle_job t (r_q s) = Done r q').
    { unfold worker_round in E. destruct (r_stage s); try done. by destruct (bool_decide _). }
    clear E. rename E' into E. assert (r = r1 ∧ q' = q1) as [-> ->] by (rewrite E1 in E; by injection E). by exists l1.
  - exists l. by destruct Hi; split.
Qed.

(** The end of main: as long as it is not through, it gets to the freed queue, and the
    workers' rounds have no defined behaviour any more. *)
Lemma rwlock_freed ths s : r_stage s = Running → r_input s = [] →
  ∃ s', rtc (rstep ths) s s' ∧ r_stage s' = Freed ∧ r_q s' = r_q s.
Proof.
  intros Hst Hin. set (f := λ s : rsys, s <| r_stage ::= main_tail |>).
  exists (f (f (f (f s)))). split; [|by unfold f; simpl; rewrite Hst].
  do 4 (eapply rtc_l; [apply rstep_tail; [exact Hin|unfold f; simpl; by rewrite Hst]|]). apply rtc_refl.
Qed.

(** ** Properties *)

(** C18: in every state the program rwlock can reach, main's handling of an input
    line and a worker's round complete without touching freed memory or blocking on
    a lock held by itself, and a worker's round handles a job exactly when one is
    pending for it; jobs are handled by their thread, once, in the order given. All this
    as long as main has not left its loop: at the end of the input it destroys the locks
    and frees the queue while the workers run, and from the second destroy call on every
    round of a worker is undefined, until exit ends the process. *)
Theorem rwlock_jobs ths input s :
  rtc (rstep ths) (rinit input) s →
  (r_stage s = Running →
    (∀ line mp, (∀ p, mp = Some p → fresh_ptr (q_list (r_q s)) p) →
       ∃ r q', main_line ths mp line (r_q s) = Done r q') ∧
    (∀ t, ∃ r q', worker_round t s = Done r q' ∧
       (r = None ↔ jobs_of t (r_given s) = jobs_of t (r_handled s)))) ∧
  (∀ t, jobs_of t (r_handled s) `prefix_of` jobs_of t (r_given s)) ∧
  (r_stage s = Running → r_input s = [] → ∃ s', rtc (rstep ths) s s' ∧ r_stage s' = Freed ∧
     ∀ t, worker_round t s' = Undef (r_q s')).
Proof.
  intros Hr. destruct (reach_inv _ _ _ Hr) as [l Hi].
  split; [intros Hst; split|split; [|intros Hst Hin]]; cycle 3.
  { destruct (rwlock_freed ths s Hst Hin) as (s' & Hs' & Hf & _). exists s'. split; [done|]. split; [done|].
    intros t. unfold worker_round. by rewrite Hf. }
  - intros line mp Hfr. destruct (main_spec ths s l line mp Hi Hfr) as (r & q' & l' & E & _).
    by exists r, q'.
  - intros t. destruct (worker_spec s l t Hi) as (r & q' & l' & E & _ & Hrn). exists r, q'.
    split; [unfold worker_round; by rewrite Hst|]. rewrite Hrn, (ri_fifo _ _ Hi t). split; [intros ->; by rewrite app_nil_r|].
    intros E1. destruct (of_thread t l); [done|]. apply (f_equal length) in E1.
    rewrite length_app in E1. simpl in E1. lia.
  - intros t. rewrite (ri_fifo _ _ Hi t). by eexists.
Qed.

Lemma rwlock_jobs_witness : ∃ s q', rtc (rstep [10; 11; 12]) (rinit [str "1a"]) s ∧
  worker_round 10 s = Done (Some (str "1a")) q'.
Proof.
  assert (Hr : ∃ s, rtc (rstep [10; 11; 12]) (rinit [str "1a"]) s ∧ r_stage s = Running ∧
    worker_round 10 s = Done (Some (str "1a")) (mkQueue (DLS ∅ None None) RwFree [false] [])).
  { eexists. split; [apply rtc_once; apply (rstep_main _ _ (str "1a") [] (Some 3%nat));
      [done|done|by intros ? [= <-]|vm_compute; reflexivity]|]. split; [done|]. vm_compute. done. }
  destruct Hr as (s & Hr & Hst & E). exists s.
  destruct (rwlock_jobs [10; 11; 12] [str "1a"] s Hr) as (H & _). destruct (H Hst) as [_ Hw].
  destruct (Hw 10) as (r & q' & E' & _). exists q'. split; [done|]. by rewrite E in E' |- *; injection E' as <- <-.
Defined.

End Rwlock.
