(* ===== verification/Foo.v ===== *)
(** * The reference-counted objects of threads/mutex2.c, mutex3.c and spinlock.c.

    Objects live in memory and hang in a hash table of singly linked chains.  The
    first part is what the three programs share word for word: the structure, the
    table and the loops over a chain.  The modules are the three programs; they
    differ in the locks that protect the count.  A routine runs from lock to lock:
    taking a lock that is held, or releasing one that is not, is undefined. *)
From Stdlib Require Import Ascii ZArith Lia.
From stdpp Require Import base gmap option list.
From S2P Require Import Prelude DList.

Definition NHASH : Z := 29.
Definition INT_MAX : Z := 2147483647.

(** HASH(id): the int is converted to unsigned long. *)
Definition HASH (id : Z) : nat := Z.to_nat (wrap_u 64 id mod NHASH).

Record foo := mkFoo { f_count : Z; f_lock : bool; f_id : Z; f_next : ptr }.
#[export] Instance foo_rebuild : Rebuild foo := λ f,
  mkFoo (f_count f) (f_lock f) (f_id f) (f_next f).

(** The objects in memory, the table and the lock of the table. *)
Record table := mkTable { objs : gmap nat foo; fh : list ptr; hashlock : bool }.
#[export] Instance table_rebuild : Rebuild table := λ t,
  mkTable (objs t) (fh t) (hashlock t).

(** ** Memory and locks *)

Definition fget (p : ptr) : prog table foo := λ t,
  match p with
  | Some a => match objs t !! a with Some x => Done x t | None => Undef t end
  | None => Undef t
  end.
Definition fset (p : ptr) (f : foo → foo) : prog table unit :=
  x ← fget p;
  modify (λ t, t <| objs ::= λ h, match p with Some a => <[a := f x]> h | None => h end |>).
Definition ffree (p : ptr) : prog table unit :=
  fget p ;;
  modify (λ t, t <| objs ::= λ h, match p with Some a => delete a h | None => h end |>).

(** [fh[idx]]. *)
Definition slot (idx : nat) : prog table ptr := λ t,
  match fh t !! idx with Some p => Done p t | None => Undef t end.
Definition set_slot (idx : nat) (p : ptr) : prog table unit :=
  slot idx ;; modify (λ t, t <| fh ::= <[idx := p]> |>).

Definition lock_hash : prog table unit :=
  b ← gets hashlock; defined (negb b) ;; modify (λ t, t <| hashlock := true |>).
Definition unlock_hash : prog table unit :=
  b ← gets hashlock; defined b ;; modify (λ t, t <| hashlock := false |>).
Definition lock_foo (p : ptr) : prog table unit :=
  x ← fget p; defined (negb (f_lock x)) ;; fset p (λ f, f <| f_lock := true |>).
Definition unlock_foo (p : ptr) : prog table unit :=
  x ← fget p; defined (f_lock x) ;; fset p (λ f, f <| f_lock := false |>).

(** [fp->f_count++]: an int. *)
Definition count_inc (p : ptr) : prog table unit :=
  x ← fget p; defined (f_count x <? INT_MAX) ;; fset p (λ f, f <| f_count := f_count x + 1 |>).
Definition count_dec (p : ptr) : prog table unit :=
  x ← fget p; fset p (λ f, f <| f_count := f_count x - 1 |>).

(** ** The loops *)

Definition chain_bound (t : table) : nat := S (size (objs t)).

(** [for (fp = fh[HASH(id)]; fp != NULL; fp = fp->f_next) if (fp->f_id == id) ...]. *)
Fixpoint find_from (fuel : nat) (fp : ptr) (id : Z) : prog table ptr :=
  match fp with
  | None => mret None
  | Some _ =>
      match fuel with
      | O => λ _, NoFuel
      | S f =>
          x ← fget fp;
          if f_id x =? id then mret fp else find_from f (f_next x) id
      end
  end.

(** [while (tfp->f_next != fp) tfp = tfp->f_next; tfp->f_next = fp->f_next]. *)
Fixpoint unlink_from (fuel : nat) (tfp fp : ptr) : prog table unit :=
  match fuel with
  | O => λ _, NoFuel
  | S f =>
      x ← fget tfp;
      if decide (f_next x = fp) then
        y ← fget fp; fset tfp (λ z, z <| f_next := f_next y |>)
      else unlink_from f (f_next x) fp
  end.

(** "remove from list". *)
Definition remove_list (fp : ptr) : prog table unit :=
  x ← fget fp;
  let idx := HASH (f_id x) in
  tfp ← slot idx;
  if decide (tfp = fp) then set_slot idx (f_next x)
  else fuel ← gets chain_bound; unlink_from fuel tfp fp.

(** The new object [p] in front of its chain, the list part of foo_alloc. *)
Definition push_list (p : ptr) (id : Z) : prog table unit :=
  let idx := HASH id in
  head ← slot idx;
  fset p (λ f, f <| f_next := head |>) ;;
  set_slot idx p.

(** foo_alloc, the same in the three programs: [mp] is malloc's result, [err] the
    error of the lock's init. *)
Definition foo_alloc (mp : ptr) (err : Z) (id : Z) : prog table ptr :=
  match mp with
  | None => mret None
  | Some p =>
      modify (λ t, t <| objs ::= <[p := mkFoo 1 false id None]> |>) ;;
      if negb (err =? 0) then ffree mp ;; mret None
      else
        lock_hash ;;
        push_list mp id ;;
        lock_foo mp ;;
        unlock_hash ;;
        unlock_foo mp ;;
        mret mp
  end.

(** ** mutex2.c: the count is protected by the lock of the object *)

Module Mutex2.

Definition foo_hold (fp : ptr) : prog table unit :=
  lock_foo fp ;;
  count_inc fp ;;
  unlock_foo fp.

Definition foo_find (id : Z) : prog table ptr :=
  lock_hash ;;
  head ← slot (HASH id);
  fuel ← gets chain_bound;
  fp ← find_from fuel head id;
  (if fp is Some _ then foo_hold fp else mret tt) ;;
  unlock_hash ;;
  mret fp.

(** foo_rele up to the point where both locks have been let go of: [true] when the
    release is complete, [false] when the caller saw the last reference. *)
Definition foo_rele_first (fp : ptr) : prog table bool :=
  lock_foo fp ;;
  x ← fget fp;
  if f_count x =? 1 then unlock_foo fp ;; mret false
  else count_dec fp ;; unlock_foo fp ;; mret true.

(** The rest: both locks, the recheck, the removal. *)
Definition foo_rele_last (fp : ptr) : prog table unit :=
  lock_hash ;;
  lock_foo fp ;;
  x ← fget fp;
  if negb (f_count x =? 1) then
    count_dec fp ;;
    unlock_foo fp ;;
    unlock_hash
  else
    remove_list fp ;;
    unlock_hash ;;
    unlock_foo fp ;;
    ffree fp.

Definition foo_rele (fp : ptr) : prog table unit :=
  done ← foo_rele_first fp;
  if done : bool then mret tt else foo_rele_last fp.

End Mutex2.

(** ** mutex3.c: the count is protected by the lock of the table *)

Module Mutex3.

Definition foo_hold (fp : ptr) : prog table unit :=
  lock_hash ;;
  count_inc fp ;;
  unlock_hash.

Definition foo_find (id : Z) : prog table ptr :=
  lock_hash ;;
  head ← slot (HASH id);
  fuel ← gets chain_bound;
  fp ← find_from fuel head id;
  (if fp is Some _ then count_inc fp else mret tt) ;;
  unlock_hash ;;
  mret fp.

Definition foo_rele (fp : ptr) : prog table unit :=
  lock_hash ;;
  count_dec fp ;;
  x ← fget fp;
  if f_count x =? 0 then
    remove_list fp ;;
    unlock_hash ;;
    ffree fp
  else unlock_hash.

End Mutex3.

(** ** spinlock.c: mutex3.c with spin locks *)

Module Spinlock.

Definition spin_lock_hash : prog table unit := lock_hash.
Definition spin_unlock_hash : prog table unit := unlock_hash.

Definition foo_hold (fp : ptr) : prog table unit :=
  spin_lock_hash ;;
  count_inc fp ;;
  spin_unlock_hash.

Definition foo_find (id : Z) : prog table ptr :=
  spin_lock_hash ;;
  head ← slot (HASH id);
  fuel ← gets chain_bound;
  fp ← find_from fuel head id;
  (if fp is Some _ then count_inc fp else mret tt) ;;
  spin_unlock_hash ;;
  mret fp.

Definition foo_rele (fp : ptr) : prog table unit :=
  spin_lock_hash ;;
  count_dec fp ;;
  x ← fget fp;
  if f_count x =? 0 then
    remove_list fp ;;
    spin_unlock_hash ;;
    ffree fp
  else spin_unlock_hash.

End Spinlock.

(** The empty table. *)
Definition empty_table : table := mkTable ∅ (replicate (Z.to_nat NHASH) None) false.
