(* ===== verification/FooSpec.v ===== *)
(** * The hash table of Foo: what it means for the chains to be well formed, and
    what each routine does to them. *)
From Stdlib Require Import Ascii ZArith Lia.
From stdpp Require Import base gmap option list.
From S2P Require Import Prelude DList Foo.

Implicit Types (t : table) (chains : list (list nat)).

(** ** Primitives *)

Lemma fget_ok {B} (k : foo → prog table B) t p x : objs t !! p = Some x →
  (fget (Some p) ≫= k) t = k x t.
Proof. intros E. unfold mbind, prog_bind, fget. by rewrite E. Qed.

Lemma fset_ok {B} (k : unit → prog table B) t p f x : objs t !! p = Some x →
  (fset (Some p) f ≫= k) t = k tt (t <| objs ::= <[p := f x]> |>).
Proof. intros E. unfold fset. rewrite bind_assoc. erewrite fget_ok by done. by rewrite bind_modify. Qed.

Lemma ffree_ok {B} (k : unit → prog table B) t p : is_Some (objs t !! p) →
  (ffree (Some p) ≫= k) t = k tt (t <| objs ::= delete p |>).
Proof. intros [x E]. unfold ffree. rewrite bind_assoc. erewrite fget_ok by done. by rewrite bind_modify. Qed.

Lemma lock_hash_ok {B} (k : unit → prog table B) t : hashlock t = false →
  (lock_hash ≫= k) t = k tt (t <| hashlock := true |>).
Proof.
  intros E. unfold lock_hash. rewrite bind_assoc, bind_gets, E, bind_assoc.
  by rewrite bind_defined_true, bind_modify by done.
Qed.

Lemma unlock_hash_ok {B} (k : unit → prog table B) t : hashlock t = true →
  (unlock_hash ≫= k) t = k tt (t <| hashlock := false |>).
Proof.
  intros E. unfold unlock_hash. rewrite bind_assoc, bind_gets, E, bind_assoc.
  by rewrite bind_defined_true, bind_modify by done.
Qed.

Lemma lock_foo_ok {B} (k : unit → prog table B) t p x : objs t !! p = Some x → f_lock x = false →
  (lock_foo (Some p) ≫= k) t = k tt (t <| objs ::= <[p := x <| f_lock := true |>]> |>).
Proof.
  intros E El. unfold lock_foo. rewrite bind_assoc. erewrite fget_ok by done.
  rewrite bind_assoc, bind_defined_true by by rewrite El. by erewrite fset_ok.
Qed.

Lemma unlock_foo_ok {B} (k : unit → prog table B) t p x : objs t !! p = Some x → f_lock x = true →
  (unlock_foo (Some p) ≫= k) t = k tt (t <| objs ::= <[p := x <| f_lock := false |>]> |>).
Proof.
  intros E El. unfold unlock_foo. rewrite bind_assoc. erewrite fget_ok by done.
  rewrite bind_assoc, bind_defined_true by by rewrite El. by erewrite fset_ok.
Qed.

Lemma count_inc_ok {B} (k : unit → prog table B) t p x : objs t !! p = Some x → f_count x < INT_MAX →
  (count_inc (Some p) ≫= k) t = k tt (t <| objs ::= <[p := x <| f_count := f_count x + 1 |>]> |>).
Proof.
  intros E El. unfold count_inc. rewrite bind_assoc. erewrite fget_ok by done.
  rewrite bind_assoc, bind_defined_true by by apply Z.ltb_lt. by erewrite fset_ok.
Qed.

Lemma count_dec_ok {B} (k : unit → prog table B) t p x : objs t !! p = Some x →
  (count_dec (Some p) ≫= k) t = k tt (t <| objs ::= <[p := x <| f_count := f_count x - 1 |>]> |>).
Proof. intros E. unfold count_dec. rewrite bind_assoc. erewrite fget_ok by done. by erewrite fset_ok. Qed.

Lemma slot_ok {B} (k : ptr → prog table B) t i p : fh t !! i = Some p → (slot i ≫= k) t = k p t.
Proof. intros E. unfold mbind, prog_bind, slot. by rewrite E. Qed.

Lemma set_slot_ok {B} (k : unit → prog table B) t i p : is_Some (fh t !! i) →
  (set_slot i p ≫= k) t = k tt (t <| fh ::= <[i := p]> |>).
Proof. intros [q E]. unfold set_slot. rewrite bind_assoc. erewrite slot_ok by done. by rewrite bind_modify. Qed.

Lemma bind_ret_r {A} (m : prog table A) t : m t = (m ≫= mret) t.
Proof. unfold mbind, prog_bind. by destruct (m t). Qed.

(** ** Well-formed chains *)

Record fchains t chains : Prop := {
  fc_len : length chains = Z.to_nat NHASH;
  fc_nodup : NoDup (concat chains);
  fc_head : ∀ b l, chains !! b = Some l → fh t !! b = Some (head l);
  fc_node : ∀ b l la p lb, chains !! b = Some l → l = la ++ p :: lb →
    ∃ x, objs t !! p = Some x ∧ f_next x = head lb ∧ HASH (f_id x) = b }.

Lemma HASH_lt id : (HASH id < Z.to_nat NHASH)%nat.
Proof. unfold HASH, NHASH. pose proof (Z.mod_pos_bound (wrap_u 64 id) 29). lia. Qed.

(** The chain of an object. *)
Lemma concat_chain chains (p : nat) : p ∈ concat chains → ∃ b l, chains !! b = Some l ∧ p ∈ l.
Proof.
  intros Hin. apply list_elem_of_In, in_concat in Hin as (l & Hl & Hp).
  apply list_elem_of_In, list_elem_of_lookup in Hl as [b Hb]. apply list_elem_of_In in Hp. eauto.
Qed.

Lemma chain_concat chains b l (p : nat) : chains !! b = Some l → p ∈ l → p ∈ concat chains.
Proof.
  intros Hb Hp. apply list_elem_of_In, in_concat. exists l.
  split; apply list_elem_of_In; [by eapply list_elem_of_lookup_2|done].
Qed.

Lemma concat_split_at chains b l : chains !! b = Some l →
  concat chains ≡ₚ l ++ concat (delete b chains).
Proof. intros H. by rewrite (delete_Permutation chains b l H) at 1. Qed.

Lemma concat_replace chains b l l' : chains !! b = Some l →
  concat (<[b := l']> chains) ≡ₚ l' ++ concat (delete b chains).
Proof.
  intros H. assert (Hlt : (b < length chains)%nat) by by eapply lookup_lt_Some.
  rewrite (delete_Permutation (<[b := l']> chains) b l') by by apply list_lookup_insert_eq.
  simpl. f_equiv. by rewrite !delete_take_drop, take_insert_ge, drop_insert_lt by lia.
Qed.

Lemma fc_chain t chains b : fchains t chains → (b < Z.to_nat NHASH)%nat → ∃ l, chains !! b = Some l.
Proof. intros Hf Hb. apply lookup_lt_is_Some_2. by rewrite (fc_len _ _ Hf). Qed.

(** An object of a chain is on the chain of its id. *)
Lemma fc_lookup t chains p : fchains t chains → p ∈ concat chains →
  ∃ x la lb, objs t !! p = Some x ∧ chains !! HASH (f_id x) = Some (la ++ p :: lb) ∧ f_next x = head lb.
Proof.
  intros Hf (b & l & Hb & (la & lb & ->)%list_elem_of_split)%concat_chain.
  destruct (fc_node _ _ Hf b _ la p lb Hb eq_refl) as (x & Hx & Hn & Hh).
  exists x, la, lb. by rewrite Hh.
Qed.

(** The chains depend on the ids and the links only. *)
Definition links (x : foo) : Z * ptr := (f_id x, f_next x).

Lemma fchains_links t t' chains : fchains t chains →
  (∀ p, p ∈ concat chains → links <$> objs t' !! p = links <$> objs t !! p) → fh t' = fh t →
  fchains t' chains.
Proof.
  intros [Hl Hn Hh Hx] Ho Hf. split; [done|done|by rewrite Hf|].
  intros b l la p lb Hb ->. destruct (Hx b _ la p lb Hb eq_refl) as (x & Hp & Hnx & Hid).
  assert (Hin : p ∈ concat chains).
  { eapply chain_concat; [done|]. apply elem_of_app. right. left. }
  specialize (Ho p Hin). rewrite Hp in Ho. simpl in Ho. apply fmap_Some in Ho as (x' & Hx' & [= Hi Hn']).
  exists x'. split; [done|]. split; congruence.
Qed.

Lemma fchains_set t chains p x x' : fchains t chains → objs t !! p = Some x → links x' = links x →
  fchains (t <| objs ::= <[p := x']> |>) chains.
Proof.
  intros Hf Hp Hl. eapply fchains_links; [done| |done]. intros q _. simpl.
  destruct (decide (p = q)) as [<-|]; [by rewrite lookup_insert_eq, Hp; simpl; rewrite Hl|].
  by rewrite lookup_insert_ne.
Qed.

(** ** The loops *)

Lemma find_from_spec fuel t chains b la lb id :
  fchains t chains → chains !! b = Some (la ++ lb) → (length lb <= fuel)%nat →
  ∃ r, find_from fuel (head lb) id t = Done r t ∧
    match r with
    | Some p => ∃ l1 l2 x, lb = l1 ++ p :: l2 ∧ objs t !! p = Some x ∧ f_id x = id ∧
                  ∀ q y, q ∈ l1 → objs t !! q = Some y → f_id y ≠ id
    | None => ∀ q y, q ∈ lb → objs t !! q = Some y → f_id y ≠ id
    end.
Proof.
  intros Hf. revert la lb. induction fuel as [|fuel IH]; intros la [|p lb] Hb Hlen;
    simpl in Hlen; try lia; try (exists None; split; [done|]; by intros ? ? ?%not_elem_of_nil).
  destruct (fc_node _ _ Hf b _ la p lb Hb eq_refl) as (x & Hx & Hn & _).
  cbn [find_from head]. erewrite fget_ok by done. destruct (Z.eqb_spec (f_id x) id) as [E|E].
  - exists (Some p). split; [done|]. exists [], lb, x. split; [done|].
    split; [done|]. split; [done|]. by intros ? ? ?%not_elem_of_nil.
  - destruct (IH (la ++ [p]) lb) as (r & Er & Hr); [by rewrite <- app_assoc|lia|].
    exists r. rewrite Hn. split; [done|]. destruct r as [q|].
    + destruct Hr as (l1 & l2 & y & -> & Hy & Hid & Hno). exists (p :: l1), l2, y.
      do 3 (split; [done|]). intros q' y' [->|Hq]%elem_of_cons Hy'; [congruence|by eapply Hno].
    + intros q' y' [->|Hq]%elem_of_cons Hy'; [congruence|by eapply Hr].
Qed.

(** The number of objects bounds the length of a chain. *)
Lemma chain_bound_enough t chains b l : fchains t chains → chains !! b = Some l →
  (length l < chain_bound t)%nat.
Proof.
  intros Hf Hb. assert (Hnd : NoDup l).
  { pose proof (fc_nodup _ _ Hf) as Hn. rewrite (concat_split_at _ _ _ Hb) in Hn.
    by apply NoDup_app in Hn as (? & _ & _). }
  assert (Hsub : list_to_set l ⊆ dom (objs t)).
  { intros p (la & lb & ->)%elem_of_list_to_set%list_elem_of_split.
    destruct (fc_node _ _ Hf b _ la p lb Hb eq_refl) as (x & Hx & _). by apply elem_of_dom_2 in Hx. }
  apply subseteq_size in Hsub. rewrite size_list_to_set, size_dom in Hsub by done.
  unfold chain_bound. lia.
Qed.

Lemma push_list_spec {B} (k : unit → prog table B) t chains l p x :
  fchains t chains → p ∉ concat chains → objs t !! p = Some x →
  chains !! HASH (f_id x) = Some l →
  let t' := mkTable (<[p := x <| f_next := head l |>]> (objs t)) (<[HASH (f_id x) := Some p]> (fh t))
              (hashlock t) in
  (push_list (Some p) (f_id x) ≫= k) t = k tt t' ∧
  fchains t' (<[HASH (f_id x) := p :: l]> chains).
Proof.
  intros Hf Hp Hx Hl t'. pose proof (fc_head _ _ Hf _ _ Hl) as Hh.
  set (b := HASH (f_id x)) in *. assert (Hlt : (b < length chains)%nat) by by eapply lookup_lt_Some.
  split.
  - unfold push_list. cbv zeta. fold b. rewrite bind_assoc. erewrite slot_ok by done.
    rewrite bind_assoc. erewrite fset_ok by done. rewrite (set_slot_ok _ _ b) by done. done.
  - pose proof Hf as [Hlen Hnd Hhd Hnode]. split.
    + by rewrite length_insert.
    + rewrite (concat_replace _ _ _ (p :: l) Hl). simpl. rewrite (concat_split_at _ _ _ Hl) in Hp, Hnd.
      by constructor.
    + intros c l' Hc. simpl. destruct (decide (b = c)) as [<-|].
      * rewrite list_lookup_insert_eq in Hc by done. injection Hc as <-.
        apply list_lookup_insert_eq. by eapply lookup_lt_Some.
      * rewrite list_lookup_insert_ne in Hc by done. rewrite list_lookup_insert_ne by done.
        by apply Hhd.
    + intros c l' la q lb Hc Hq. simpl. destruct (decide (p = q)) as [<-|Hne].
      * rewrite lookup_insert_eq. destruct (decide (b = c)) as [<-|].
        -- rewrite list_lookup_insert_eq in Hc by done. injection Hc as <-.
           destruct la as [|z la]; [injection Hq as <-; by eexists|].
           injection Hq as -> ->. exfalso. apply Hp. eapply chain_concat; [done|]. apply elem_of_app. right. left.
        -- rewrite list_lookup_insert_ne in Hc by done. exfalso. apply Hp.
           eapply chain_concat; [done|]. rewrite Hq. apply elem_of_app. right. left.
      * rewrite lookup_insert_ne by done. destruct (decide (b = c)) as [<-|].
        -- rewrite list_lookup_insert_eq in Hc by done. injection Hc as <-.
           destruct la as [|z la]; [by injection Hq as ? _|]. injection Hq as -> ->.
           by apply (Hnode b _ la q lb Hl).
        -- rewrite list_lookup_insert_ne in Hc by done. by apply (Hnode c l' la q lb).
Qed.

(** What the removal from a list leaves alone. *)
Definition state_of (x : foo) : Z * bool * Z := (f_count x, f_lock x, f_id x).
Definition same_objs t t' : Prop :=
  hashlock t' = hashlock t ∧ ∀ q, state_of <$> objs t' !! q = state_of <$> objs t !! q.

Lemma unlink_from_spec {B} (k : unit → prog table B) fuel t chains b la q lm p lb x :
  fchains t chains → chains !! b = Some (la ++ q :: lm ++ p :: lb) → (length lm < fuel)%nat →
  objs t !! p = Some x →
  ∃ z y, last (la ++ q :: lm) = Some z ∧ objs t !! z = Some y ∧ f_next x = head lb ∧
    (unlink_from fuel (Some q) (Some p) ≫= k) t
    = k tt (t <| objs ::= <[z := y <| f_next := head lb |>]> |>).
Proof.
  intros Hf Hb. revert la q lm Hb. induction fuel as [|fuel IH]; intros la q lm Hb Hlen Hx; [lia|].
  assert (Hpn : f_next x = head lb).
  { destruct (fc_node _ _ Hf b _ (la ++ q :: lm) p lb Hb) as (x' & Hx' & Hn' & _);
      [by rewrite <- app_assoc|]. congruence. }
  destruct (fc_node _ _ Hf b _ la q (lm ++ p :: lb) Hb eq_refl) as (y & Hy & Hn & _).
  cbn [unlink_from]. destruct lm as [|q' lm].
  - exists q, y. split; [by rewrite last_snoc|]. do 2 (split; [done|]).
    rewrite bind_assoc. erewrite fget_ok by done. rewrite Hn. simpl head.
    rewrite decide_True by done. rewrite bind_assoc. erewrite fget_ok by done.
    erewrite fset_ok by done. by rewrite Hpn.
  - destruct (IH (la ++ [q]) q' lm) as (z & y' & Hz & Hy' & _ & E);
      [by rewrite <- app_assoc|simpl in Hlen; lia|done|].
    exists z, y'. split; [by rewrite <- app_assoc in Hz|]. do 2 (split; [done|]).
    rewrite bind_assoc. erewrite fget_ok by done. rewrite Hn. simpl head.
    assert (Hne : Some q' ≠ Some p).
    { intros [= ->]. pose proof (fc_nodup _ _ Hf) as Hnd. rewrite (concat_split_at _ _ _ Hb) in Hnd.
      apply NoDup_app in Hnd as (Hnd & _ & _). apply NoDup_app in Hnd as (_ & _ & Hnd).
      apply NoDup_cons in Hnd as [_ Hnd]. apply NoDup_cons in Hnd as [Hnd _]. apply Hnd.
      apply elem_of_app. right. left. }
    rewrite decide_False by done. exact E.
Qed.

(** An object that leaves its chain: what remains has no duplicates, and it was there once. *)
Lemma chain_without t chains b la p lb : fchains t chains → chains !! b = Some (la ++ p :: lb) →
  NoDup (concat (<[b := la ++ lb]> chains)) ∧ p ∉ la ++ lb.
Proof.
  intros [_ Hnd _ _] Hb. rewrite (concat_split_at _ _ _ Hb) in Hnd. split.
  - rewrite (concat_replace _ _ _ _ Hb). rewrite <- app_assoc in Hnd |- *. simpl in Hnd.
    rewrite <- Permutation_middle in Hnd. by apply NoDup_cons in Hnd as [_ ?].
  - apply NoDup_app in Hnd as (Hnd & _ & _). rewrite <- Permutation_middle in Hnd.
    by apply NoDup_cons in Hnd as [? _].
Qed.

(** The chains share no object. *)
Lemma chains_disjoint t chains b c lb lc r : fchains t chains → chains !! b = Some lb → chains !! c = Some lc →
  r ∈ lb → r ∈ lc → b = c.
Proof.
  intros [_ _ _ Hnode] Hb Hc H1 H2.
  apply list_elem_of_split in H1 as (l1 & l2 & ->). apply list_elem_of_split in H2 as (l3 & l4 & ->).
  destruct (Hnode b _ l1 r l2 Hb eq_refl) as (x & Hx & _ & <-).
  destruct (Hnode c _ l3 r l4 Hc eq_refl) as (y & Hy & _ & <-). congruence.
Qed.

(** The head of a chain goes. *)
Lemma fchains_behead t chains b p lb : fchains t chains → chains !! b = Some (p :: lb) →
  fchains (t <| fh ::= <[b := head lb]> |>) (<[b := lb]> chains).
Proof.
  intros Hf Hb. destruct (chain_without t chains b [] p lb Hf Hb) as [Hnd' _].
  pose proof Hf as [Hlen _ Hhd Hnode]. pose proof (lookup_lt_Some _ _ _ Hb). pose proof (Hhd _ _ Hb).
  split; [by rewrite length_insert|done|..].
  - intros c l Hc. simpl. destruct (decide (b = c)) as [<-|].
    + rewrite list_lookup_insert_eq in Hc by done. injection Hc as <-.
      apply list_lookup_insert_eq. by eapply lookup_lt_Some.
    + rewrite list_lookup_insert_ne in Hc by done. rewrite list_lookup_insert_ne by done. by apply Hhd.
  - intros c l la q lc Hc Hq. simpl. destruct (decide (b = c)) as [<-|].
    + rewrite list_lookup_insert_eq in Hc by done. injection Hc as <-. subst lb.
      by apply (Hnode b _ (p :: la) q lc Hb).
    + rewrite list_lookup_insert_ne in Hc by done. by apply (Hnode c l la q lc).
Qed.

(** An object other than the head goes: [z] is before it. *)
Lemma fchains_unlink t chains b lz z p lb y : fchains t chains → chains !! b = Some ((lz ++ [z]) ++ p :: lb) →
  objs t !! z = Some y →
  fchains (t <| objs ::= <[z := y <| f_next := head lb |>]> |>) (<[b := (lz ++ [z]) ++ lb]> chains).
Proof.
  intros Hf Hb Hy. destruct (chain_without _ _ _ _ _ _ Hf Hb) as [Hnd' _].
  pose proof Hf as [Hlen _ Hhd Hnode]. pose proof (lookup_lt_Some _ _ _ Hb) as Hlt.
  split; [by rewrite length_insert|done|..].
  - intros c l Hc. simpl. destruct (decide (b = c)) as [<-|].
    + rewrite list_lookup_insert_eq in Hc by done. injection Hc as <-. rewrite (Hhd _ _ Hb). by destruct lz.
    + rewrite list_lookup_insert_ne in Hc by done. by apply Hhd.
  - intros c l la r lc Hc Hr. simpl. destruct (decide (b = c)) as [<-|Hbc]; cycle 1.
    { rewrite list_lookup_insert_ne in Hc by done. rewrite lookup_insert_ne; [by apply (Hnode c l la r lc)|].
      intros ->. apply Hbc. eapply (chains_disjoint t chains b c _ _ r); [done..| |].
      - apply elem_of_app. left. apply elem_of_app. right. left.
      - subst l. apply elem_of_app. right. left. }
    rewrite list_lookup_insert_eq in Hc by done. injection Hc as <-.
    assert (Hn1 : NoDup ((lz ++ [z]) ++ lb)).
    { rewrite (concat_replace _ _ _ _ Hb) in Hnd'. by apply NoDup_app in Hnd' as (? & _ & _). }
    destruct (decide (z = r)) as [<-|Hzr].
    + rewrite lookup_insert_eq. eexists. split; [done|]. simpl.
      rewrite <- app_assoc in Hr, Hn1. simpl in Hr, Hn1.
      destruct (nodup_split _ _ _ _ _ Hn1 Hr) as [-> ->]. split; [done|].
      destruct (Hnode b _ la z (p :: lc) Hb) as (y' & Hy' & _ & Hid); [by rewrite <- app_assoc|]. congruence.
    + rewrite lookup_insert_ne by done. destruct (app_eq_app _ _ _ _ Hr) as [lk [[E1 E2]|[-> ->]]].
      * destruct lk as [|r' lk]; simpl in E2; [subst lb|injection E2 as <- ->].
        { rewrite app_nil_r in E1. subst la.
          destruct (Hnode b _ ((lz ++ [z]) ++ [p]) r lc Hb) as (y' & ? & ? & ?); [by rewrite <- !app_assoc|].
          by exists y'. }
        destruct (Hnode b _ la r (lk ++ p :: lb) Hb) as (y' & ? & Hn & ?); [by rewrite E1, <- app_assoc|].
        exists y'. split; [done|]. split; [|done]. rewrite Hn. destruct lk as [|? ?]; [|done].
        exfalso. apply app_inj_tail in E1 as [_ E1]. by apply Hzr.
      * destruct (Hnode b _ ((lz ++ [z]) ++ p :: lk) r lc Hb) as (y' & ? & ? & ?);
          [by rewrite <- !app_assoc|]. by exists y'.
Qed.

Lemma remove_list_spec {B} (k : unit → prog table B) t chains la p lb x :
  fchains t chains → objs t !! p = Some x →
  chains !! HASH (f_id x) = Some (la ++ p :: lb) →
  ∃ t', (remove_list (Some p) ≫= k) t = k tt t' ∧ same_objs t t' ∧
    fchains t' (<[HASH (f_id x) := la ++ lb]> chains).
Proof.
  intros Hf Hx Hb. set (b := HASH (f_id x)) in *. pose proof Hf as [_ _ Hhd Hnode].
  pose proof (Hhd _ _ Hb) as Hh. unfold remove_list. rewrite bind_assoc.
  erewrite fget_ok by done. cbv zeta. fold b. rewrite bind_assoc. erewrite slot_ok by done.
  assert (Hpx : f_next x = head lb).
  { destruct (Hnode b _ la p lb Hb eq_refl) as (x' & ? & ? & _). congruence. }
  destruct la as [|q lm].
  - simpl head. rewrite decide_True by done. rewrite set_slot_ok by done. rewrite Hpx.
    eexists. split; [done|]. split; [done|]. by apply fchains_behead with p.
  - destruct (chain_without _ _ _ _ _ _ Hf Hb) as [_ Hpl].
    rewrite decide_False by (intros [= ->]; apply Hpl; left). rewrite bind_assoc, bind_gets.
    destruct (unlink_from_spec k (chain_bound t) t chains b [] q lm p lb x Hf Hb)
      as (z & y & Hz & Hy & _ & E); [|done|].
    { pose proof (chain_bound_enough _ _ _ _ Hf Hb) as Hlb. simpl in Hlb. rewrite length_app in Hlb.
      simpl in Hlb. lia. }
    change (head ((q :: lm) ++ p :: lb)) with (Some q). rewrite E.
    eexists. split; [done|]. simpl app in Hz. apply last_Some in Hz as [lz Hz]. rewrite Hz in *.
    split; [split; [done|]|by apply (fchains_unlink t chains b lz z p lb y)].
    intros r. simpl. destruct (decide (z = r)) as [<-|]; [by rewrite lookup_insert_eq, Hy|].
    by rewrite lookup_insert_ne.
Qed.
