(* ===== verification/FooProps.v ===== *)
(** * Properties of the reference-counted objects.

    [FooImpl] is the interface of a client: the routines and what they do to a
    well-formed table.  The three programs are instances.  Against the interface:
    whatever a set of clients does, each with the references it holds, no routine
    touches freed memory, the count of an object is the number of references
    held, and an object is in memory exactly as long as there are any. *)
From Stdlib Require Import Ascii ZArith Lia.
From stdpp Require Import base gmap option list.
From S2P Require Import Prelude DList Foo FooSpec.

Implicit Types (t : table) (chains : list (list nat)).

(** ** Well-formed tables *)

Record foo_rep t chains : Prop := {
  fr_chains : fchains t chains;
  fr_dom : ∀ p, is_Some (objs t !! p) ↔ p ∈ concat chains;
  fr_unlocked : ∀ p x, objs t !! p = Some x → f_lock x = false;
  fr_pos : ∀ p x, objs t !! p = Some x → 0 < f_count x;
  fr_hash : hashlock t = false }.

Definition counts t : gmap nat Z := f_count <$> objs t.

(** One reference to [p] has been given back. *)
Definition released (p : nat) t t' : Prop :=
  (∃ chains', foo_rep t' chains') ∧
  ∃ c, counts t !! p = Some c ∧
    counts t' = if c =? 1 then delete p (counts t) else <[p := c - 1]> (counts t).

Class FooImpl := {
  i_hold : ptr → prog table unit;
  i_find : Z → prog table ptr;
  i_first : ptr → prog table bool;
  i_last : ptr → prog table unit;
  hold_spec t chains p c : foo_rep t chains → counts t !! p = Some c → c < INT_MAX →
    ∃ t', i_hold (Some p) t = Done tt t' ∧ foo_rep t' chains ∧
      counts t' = <[p := c + 1]> (counts t);
  find_spec t chains id : foo_rep t chains → (∀ p c, counts t !! p = Some c → c < INT_MAX) →
    ∃ r t', i_find id t = Done r t' ∧ foo_rep t' chains ∧
      match r with
      | Some p => ∃ c x, counts t !! p = Some c ∧ counts t' = <[p := c + 1]> (counts t) ∧
                    objs t !! p = Some x ∧ f_id x = id
      | None => t' = t ∧ ∀ p x, objs t !! p = Some x → f_id x ≠ id
      end;
  first_spec t chains p : foo_rep t chains → is_Some (counts t !! p) →
    ∃ r t', i_first (Some p) t = Done r t' ∧ if r : bool then released p t t' else t' = t;
  last_spec t chains p : foo_rep t chains → is_Some (counts t !! p) →
    ∃ t', i_last (Some p) t = Done tt t' ∧ released p t t' }.

(** ** Lemmas for the instances *)

Lemma counts_lookup t p c : counts t !! p = Some c ↔ ∃ x, objs t !! p = Some x ∧ f_count x = c.
Proof.
  unfold counts. rewrite lookup_fmap, fmap_Some.
  split; intros (x & ? & ?); exists x; subst; done.
Qed.

(** Changing the count of an object. *)
Lemma rep_count t chains p x c : foo_rep t chains → objs t !! p = Some x → 0 < c →
  let t' := t <| objs ::= <[p := x <| f_count := c |>]> |> in
  foo_rep t' chains ∧ counts t' = <[p := c]> (counts t).
Proof.
  intros [Hf Hd Hu Hp Hh] Hx Hc t'. split; [split|].
  - by eapply fchains_set.
  - intros q. simpl. rewrite <- Hd, lookup_insert_is_Some. split.
    + intros [<-|[_ ?]]; [by eexists|done].
    + intros ?. destruct (decide (p = q)); [by left|by right].
  - intros q y. simpl. rewrite lookup_insert_Some. intros [[<- <-]|[_ ?]]; simpl; eauto.
  - intros q y. simpl. rewrite lookup_insert_Some. intros [[<- <-]|[_ ?]]; simpl; eauto.
  - done.
  - unfold counts, t'. simpl. by rewrite fmap_insert.
Qed.

(** Locking and unlocking an object or the table gives the same table. *)
Lemma insert_back (h : gmap nat foo) p x y : <[p := y]> (<[p := x]> h) = <[p := y]> h.
Proof. apply insert_insert_eq. Qed.

Lemma foo_unlock_id x : f_lock x = false → x <| f_lock := false |> = x.
Proof. destruct x; simpl. by intros ->. Qed.

(** Removing the object and freeing it. *)
Lemma rep_remove t t1 chains la p lb x :
  foo_rep t chains → objs t !! p = Some x → f_count x = 1 →
  chains !! HASH (f_id x) = Some (la ++ p :: lb) →
  fchains t1 (<[HASH (f_id x) := la ++ lb]> chains) →
  (∀ q, q ≠ p → state_of <$> objs t1 !! q = state_of <$> objs t !! q) →
  let t' := mkTable (delete p (objs t1)) (fh t1) false in
  released p t t'.
Proof.
  intros [Hf Hd Hu Hp Hh] Hx Hc Hb Hf1 Hs t'.
  assert (Hperm : concat chains ≡ₚ p :: concat (<[HASH (f_id x) := la ++ lb]> chains)).
  { rewrite (concat_split_at _ _ _ Hb), (concat_replace _ _ _ _ Hb).
    by rewrite <- Permutation_middle. }
  assert (Hpn : p ∉ concat (<[HASH (f_id x) := la ++ lb]> chains)).
  { pose proof (fc_nodup _ _ Hf) as Hn. rewrite Hperm in Hn. by apply NoDup_cons in Hn as [? _]. }
  assert (Hsome : ∀ q y, q ≠ p → objs t1 !! q = Some y → ∃ z, objs t !! q = Some z ∧ state_of y = state_of z).
  { intros q y Hne Hy. specialize (Hs q Hne). rewrite Hy in Hs. simpl in Hs.
    destruct (objs t !! q) as [z|]; [|done]. injection Hs as ? ? ?. exists z. split; [done|].
    unfold state_of. congruence. }
  split.
  - exists (<[HASH (f_id x) := la ++ lb]> chains). split.
    + eapply fchains_links; [exact Hf1| |done]. intros q Hq. simpl.
      rewrite lookup_delete_ne; [done|]. by intros ->.
    + intros q. simpl. destruct (decide (q = p)) as [->|Hne].
      * rewrite lookup_delete_eq. split; [by intros []|done].
      * rewrite lookup_delete_ne by done. transitivity (is_Some (objs t !! q)).
        -- specialize (Hs q Hne). destruct (objs t1 !! q), (objs t !! q); try done; split; by eexists || intros [].
        -- rewrite Hd, Hperm, elem_of_cons. split; [by intros [?|?]|by right].
    + intros q y. simpl. rewrite lookup_delete_Some. intros [Hne Hy].
      destruct (Hsome q y) as (z & Hz & [= _ -> _]); [done..|]. by eapply Hu.
    + intros q y. simpl. rewrite lookup_delete_Some. intros [Hne Hy].
      destruct (Hsome q y) as (z & Hz & [= -> _ _]); [done..|]. by eapply Hp.
    + done.
  - exists 1. split; [apply counts_lookup; by exists x|]. simpl. unfold counts, t'. simpl.
    apply map_eq. intros q. destruct (decide (q = p)) as [->|Hne].
    + rewrite lookup_fmap, !lookup_delete_eq. done.
    + rewrite lookup_fmap, !lookup_delete_ne, lookup_fmap by done.
      specialize (Hs q Hne). destruct (objs t1 !! q), (objs t !! q); try done.
      injection Hs as E1 _ _. simpl. by rewrite E1.
Qed.

(** The removal of a well-formed object, followed by [free]: common to the three
    programs.  [t1] is the table in which the locks are held. *)
Lemma rep_lookup t chains p : foo_rep t chains → is_Some (counts t !! p) →
  ∃ x la lb, objs t !! p = Some x ∧ chains !! HASH (f_id x) = Some (la ++ p :: lb).
Proof.
  intros Hr [c (x & Hx & _)%counts_lookup]. assert (Hin : p ∈ concat chains).
  { apply (fr_dom _ _ Hr). by exists x. }
  destruct (fc_lookup _ _ _ (fr_chains _ _ Hr) Hin) as (x' & la & lb & Hx' & Hb & _).
  by exists x', la, lb.
Qed.

(** A routine that adds one to the count of an unlocked object. *)
Definition bumps (bump : ptr → prog table unit) : Prop :=
  ∀ t p x, objs t !! p = Some x → f_lock x = false → f_count x < INT_MAX →
    bump (Some p) t = Done tt (t <| objs ::= <[p := x <| f_count := f_count x + 1 |>]> |>).

Lemma bump_spec bump t chains p c : bumps bump → foo_rep t chains → counts t !! p = Some c →
  c < INT_MAX →
  ∃ t', bump (Some p) t = Done tt t' ∧ foo_rep t' chains ∧ counts t' = <[p := c + 1]> (counts t).
Proof.
  intros Hb Hr (x & Hx & <-)%counts_lookup Hlt. pose proof (fr_pos _ _ Hr _ _ Hx).
  destruct (rep_count t chains p x (f_count x + 1) Hr Hx) as [Hr' Hc']; [lia|].
  eexists. split; [apply Hb; [done|exact (fr_unlocked _ _ Hr _ _ Hx)|done]|done].
Qed.

(** foo_find with the count taken by [bump]. *)
Lemma find_run bump t chains id : bumps bump →
  foo_rep t chains → (∀ p c, counts t !! p = Some c → c < INT_MAX) →
  ∃ r t', (lock_hash ;;
     head ← slot (HASH id);
     fuel ← gets chain_bound;
     fp ← find_from fuel head id;
     (if fp is Some _ then bump fp else mret tt) ;;
     unlock_hash ;;
     mret fp : prog table ptr) t = Done r t' ∧ foo_rep t' chains ∧
    match r with
    | Some p => ∃ c x, counts t !! p = Some c ∧ counts t' = <[p := c + 1]> (counts t) ∧
                  objs t !! p = Some x ∧ f_id x = id
    | None => t' = t ∧ ∀ p x, objs t !! p = Some x → f_id x ≠ id
    end.
Proof.
  intros Hbump Hr Hlt. pose proof Hr as [Hf Hd Hu Hp Hh]. rewrite lock_hash_ok by done.
  set (t1 := t <| hashlock := true |>).
  assert (Hf1 : fchains t1 chains) by (eapply fchains_links; [exact Hf|done|done]).
  destruct (fc_chain _ _ (HASH id) Hf1 (HASH_lt id)) as [l Hl].
  pose proof (fc_head _ _ Hf1 _ _ Hl) as Hhd. erewrite slot_ok by done. rewrite bind_gets.
  destruct (find_from_spec (chain_bound t1) t1 chains (HASH id) [] l id Hf1 Hl) as (r & E & Hres).
  { pose proof (chain_bound_enough _ _ _ _ Hf1 Hl). lia. }
  rewrite (bind_done _ _ _ _ _ E). destruct r as [p|].
  - destruct Hres as (l1 & l2 & x & _ & Hx & Hid & _). change (objs t1) with (objs t) in Hx.
    assert (Hc : counts t !! p = Some (f_count x)) by (apply counts_lookup; by exists x).
    rewrite (bind_done _ _ _ _ _ (Hbump t1 p x Hx (Hu _ _ Hx) (Hlt _ _ Hc))).
    rewrite unlock_hash_ok by done. pose proof (Hp _ _ Hx).
    destruct (rep_count t chains p x (f_count x + 1) Hr Hx) as [Hr' Hc']; [lia|].
    eexists (Some p), _. split; [|split; [exact Hr'|exists (f_count x), x; done]].
    unfold mret, prog_ret. f_equal. destruct t. simpl in *. by subst.
  - rewrite bind_ret, unlock_hash_ok by done.
    exists None, t. split; [|split; [exact Hr|split; [done|]]].
    + unfold mret, prog_ret. f_equal. destruct t. simpl in *. by subst.
    + intros p x Hx Hid. apply (Hres p x); [|done|done].
      assert (Hin : p ∈ concat chains) by (apply Hd; by exists x).
      destruct (fc_lookup _ _ _ Hf Hin) as (x' & la & lb & Hx' & Hb & _).
      assert (x' = x) as -> by congruence. rewrite Hid, Hl in Hb. injection Hb as ->.
      apply elem_of_app. right. left.
Qed.

(** Giving back a reference that is not the last one. *)
Lemma dec_released t chains p x : foo_rep t chains → objs t !! p = Some x → f_count x ≠ 1 →
  released p t (t <| objs ::= <[p := x <| f_count := f_count x - 1 |>]> |>).
Proof.
  intros Hr Hx Hne. pose proof (fr_pos _ _ Hr _ _ Hx).
  destruct (rep_count t chains p x (f_count x - 1) Hr Hx) as [Hr' Hc']; [lia|].
  split; [by exists chains|]. exists (f_count x).
  split; [apply counts_lookup; by exists x|]. rewrite Hc'. by rewrite (proj2 (Z.eqb_neq _ _)).
Qed.

(** ** mutex2.c *)

Lemma mutex2_bumps : bumps Mutex2.foo_hold.
Proof.
  intros t p x Hx Hu Hlt. unfold Mutex2.foo_hold. erewrite lock_foo_ok by done.
  erewrite count_inc_ok; [|apply lookup_insert_eq|done]. rewrite bind_ret_r.
  erewrite unlock_foo_ok; [|apply lookup_insert_eq|done].
  unfold mret, prog_ret. f_equal. destruct t as [o f h], x as [n b i q].
  simpl in *. subst b. by rewrite !insert_insert_eq.
Qed.

Lemma mutex2_first t chains p : foo_rep t chains → is_Some (counts t !! p) →
  ∃ r t', Mutex2.foo_rele_first (Some p) t = Done r t' ∧
    if r : bool then released p t t' else t' = t.
Proof.
  intros Hr [c (x & Hx & Hc)%counts_lookup]. pose proof (fr_unlocked _ _ Hr _ _ Hx) as Hu.
  unfold Mutex2.foo_rele_first. erewrite lock_foo_ok by done.
  erewrite fget_ok by apply lookup_insert_eq.
  change (f_count (x <| f_lock := true |>)) with (f_count x). destruct (Z.eqb_spec (f_count x) 1) as [E|E].
  - erewrite unlock_foo_ok; [|apply lookup_insert_eq|done]. exists false, t. split; [|done].
    unfold mret, prog_ret. f_equal. destruct t as [o f h], x as [n b i q]. simpl in *. subst b.
    by rewrite insert_insert_eq, insert_id.
  - erewrite count_dec_ok by apply lookup_insert_eq.
    erewrite unlock_foo_ok; [|apply lookup_insert_eq|done]. eexists true, _. split; [done|].
    cbn iota. match goal with |- released _ _ ?t' =>
      replace t' with (t <| objs ::= <[p := x <| f_count := f_count x - 1 |>]> |>) end;
      [by eapply dec_released|].
    destruct t as [o f h], x as [n b i q]. simpl in *. subst b. by rewrite !insert_insert_eq.
Qed.

Lemma mutex2_last t chains p : foo_rep t chains → is_Some (counts t !! p) →
  ∃ t', Mutex2.foo_rele_last (Some p) t = Done tt t' ∧ released p t t'.
Proof.
  intros Hr Hc. destruct (rep_lookup _ _ _ Hr Hc) as (x & la & lb & Hx & Hb).
  pose proof (fr_unlocked _ _ Hr _ _ Hx) as Hu. pose proof (fr_hash _ _ Hr) as Hh.
  unfold Mutex2.foo_rele_last. rewrite lock_hash_ok by done. erewrite lock_foo_ok by done.
  erewrite fget_ok by apply lookup_insert_eq.
  change (f_count (x <| f_lock := true |>)) with (f_count x). set (t1 := _ <| objs ::= _ |>).
  destruct (Z.eqb_spec (f_count x) 1) as [E|E].
  - change (negb true) with false. cbn iota.
    assert (Hx1 : objs t1 !! p = Some (x <| f_lock := true |>)) by apply lookup_insert_eq.
    assert (Hf1 : fchains t1 chains).
    { apply (fchains_set (t <| hashlock := true |>) _ _ x); [|done|done].
      eapply fchains_links; [apply Hr|done|done]. }
    destruct (remove_list_spec (λ _ : unit, unlock_hash ;; unlock_foo (Some p) ;; ffree (Some p))
      t1 chains la p lb _ Hf1 Hx1 Hb) as (t2 & -> & [Hh2 Hs2] & Hf2).
    rewrite unlock_hash_ok by by rewrite Hh2.
    assert (is_Some (objs t2 !! p)) as [y Hy].
    { specialize (Hs2 p). rewrite Hx1 in Hs2. destruct (objs t2 !! p); [by eexists|done]. }
    assert (Hly : f_lock y = true).
    { specialize (Hs2 p). rewrite Hx1, Hy in Hs2. by injection Hs2 as _ -> _. }
    erewrite unlock_foo_ok by done. rewrite bind_ret_r, ffree_ok by (simpl; by rewrite lookup_insert_eq).
    eexists. split; [done|].
    match goal with |- released _ _ ?t' => replace t' with (mkTable (delete p (objs t2)) (fh t2) false) end.
    + apply (rep_remove t t2 chains la p lb x); try done. intros q Hq. rewrite Hs2.
      unfold t1. simpl. by rewrite lookup_insert_ne.
    + destruct t2. simpl. by rewrite delete_insert_eq.
  - change (negb false) with true. cbn iota. erewrite count_dec_ok by apply lookup_insert_eq.
    erewrite unlock_foo_ok; [|apply lookup_insert_eq|done].
    rewrite bind_ret_r, unlock_hash_ok by done. eexists. split; [done|].
    match goal with |- released _ _ ?t' =>
      replace t' with (t <| objs ::= <[p := x <| f_count := f_count x - 1 |>]> |>) end;
      [by eapply dec_released|].
    destruct t as [o f h], x as [n b i q]. simpl in *. subst b h. by rewrite !insert_insert_eq.
Qed.

Definition mutex2_impl : FooImpl := {|
  i_hold := Mutex2.foo_hold;
  i_find := Mutex2.foo_find;
  i_first := Mutex2.foo_rele_first;
  i_last := Mutex2.foo_rele_last;
  hold_spec t chains p c := bump_spec _ t chains p c mutex2_bumps;
  find_spec t chains id := find_run _ t chains id mutex2_bumps;
  first_spec := mutex2_first;
  last_spec := mutex2_last |}.

(** ** mutex3.c and spinlock.c *)

Lemma count_inc_bumps : bumps count_inc.
Proof. intros t p x Hx _ Hlt. rewrite bind_ret_r. by erewrite count_inc_ok. Qed.

Lemma mutex3_hold t chains p c : foo_rep t chains → counts t !! p = Some c → c < INT_MAX →
  ∃ t', Mutex3.foo_hold (Some p) t = Done tt t' ∧ foo_rep t' chains ∧
    counts t' = <[p := c + 1]> (counts t).
Proof.
  intros Hr (x & Hx & <-)%counts_lookup Hlt. pose proof (fr_pos _ _ Hr _ _ Hx).
  unfold Mutex3.foo_hold. rewrite lock_hash_ok by apply Hr. erewrite count_inc_ok by done.
  rewrite bind_ret_r, unlock_hash_ok by done.
  destruct (rep_count t chains p x (f_count x + 1) Hr Hx) as [Hr' Hc']; [lia|].
  eexists. split; [|done]. unfold mret, prog_ret. f_equal. pose proof (fr_hash _ _ Hr).
  destruct t. simpl in *. by subst.
Qed.

Lemma mutex3_rele t chains p : foo_rep t chains → is_Some (counts t !! p) →
  ∃ t', Mutex3.foo_rele (Some p) t = Done tt t' ∧ released p t t'.
Proof.
  intros Hr Hc. destruct (rep_lookup _ _ _ Hr Hc) as (x & la & lb & Hx & Hb).
  pose proof (fr_unlocked _ _ Hr _ _ Hx) as Hu. pose proof (fr_hash _ _ Hr) as Hh.
  unfold Mutex3.foo_rele. rewrite lock_hash_ok by done. erewrite count_dec_ok by done.
  erewrite fget_ok by apply lookup_insert_eq. set (t1 := _ <| objs ::= _ |>).
  change (f_count (x <| f_count := f_count x - 1 |>)) with (f_count x - 1).
  destruct (Z.eqb_spec (f_count x - 1) 0) as [E|E].
  - assert (Hx1 : objs t1 !! p = Some (x <| f_count := f_count x - 1 |>)) by apply lookup_insert_eq.
    assert (Hf1 : fchains t1 chains).
    { apply (fchains_set (t <| hashlock := true |>) _ _ x); [|done|done].
      eapply fchains_links; [apply Hr|done|done]. }
    destruct (remove_list_spec (λ _ : unit, unlock_hash ;; ffree (Some p))
      t1 chains la p lb _ Hf1 Hx1 Hb) as (t2 & -> & [Hh2 Hs2] & Hf2).
    rewrite unlock_hash_ok by by rewrite Hh2.
    assert (is_Some (objs t2 !! p)) as [y Hy].
    { specialize (Hs2 p). rewrite Hx1 in Hs2. destruct (objs t2 !! p); [by eexists|done]. }
    rewrite bind_ret_r, ffree_ok by done. eexists. split; [done|].
    match goal with |- released _ _ ?t' => replace t' with (mkTable (delete p (objs t2)) (fh t2) false) end.
    + apply (rep_remove t t2 chains la p lb x); try done; [lia|]. intros q Hq. rewrite Hs2.
      unfold t1. simpl. by rewrite lookup_insert_ne.
    + by destruct t2.
  - rewrite bind_ret_r, unlock_hash_ok by done. eexists. split; [done|].
    match goal with |- released _ _ ?t' =>
      replace t' with (t <| objs ::= <[p := x <| f_count := f_count x - 1 |>]> |>) end.
    + eapply dec_released; [done..|lia].
    + destruct t. simpl in *. by subst.
Qed.

Definition mutex3_first (p : ptr) : prog table bool := Mutex3.foo_rele p ;; mret true.

Lemma mutex3_first_spec t chains p : foo_rep t chains → is_Some (counts t !! p) →
  ∃ r t', mutex3_first (Some p) t = Done r t' ∧ if r : bool then released p t t' else t' = t.
Proof.
  intros Hr Hc. destruct (mutex3_rele t chains p Hr Hc) as (t' & E & Hrel).
  exists true, t'. unfold mutex3_first. by rewrite (bind_done _ _ _ _ _ E).
Qed.

Definition mutex3_impl : FooImpl := {|
  i_hold := Mutex3.foo_hold;
  i_find := Mutex3.foo_find;
  i_first := mutex3_first;
  i_last := Mutex3.foo_rele;
  hold_spec := mutex3_hold;
  find_spec t chains id := find_run _ t chains id count_inc_bumps;
  first_spec := mutex3_first_spec;
  last_spec := mutex3_rele |}.

Definition spinlock_impl : FooImpl := {|
  i_hold := Spinlock.foo_hold;
  i_find := Spinlock.foo_find;
  i_first p := Spinlock.foo_rele p ;; mret true;
  i_last := Spinlock.foo_rele;
  hold_spec := mutex3_hold;
  find_spec t chains id := find_run _ t chains id count_inc_bumps;
  first_spec := mutex3_first_spec;
  last_spec := mutex3_rele |}.

(** ** foo_alloc *)

Lemma alloc_spec t chains p id : foo_rep t chains → objs t !! p = None →
  ∃ t' chains', foo_alloc (Some p) 0 id t = Done (Some p) t' ∧ foo_rep t' chains' ∧
    counts t' = <[p := 1]> (counts t) ∧ chains' !! HASH id = Some (p :: default [] (chains !! HASH id)) ∧
    f_id <$> objs t' !! p = Some id.
Proof.
  intros Hr Hp. pose proof Hr as [Hf Hd Hu Hpos Hh]. set (x := mkFoo 1 false id None).
  assert (Hpc : p ∉ concat chains) by (rewrite <- Hd, Hp; by intros []).
  set (t1 := mkTable (<[p := x]> (objs t)) (fh t) true).
  assert (Hx : objs t1 !! p = Some x) by apply lookup_insert_eq.
  assert (Hf1 : fchains t1 chains).
  { eapply fchains_links; [exact Hf| |done]. intros q Hq. simpl.
    rewrite lookup_insert_ne; [done|]. by intros ->. }
  destruct (fc_chain _ _ (HASH id) Hf1 (HASH_lt id)) as [l Hl].
  destruct (push_list_spec (λ _, lock_foo (Some p) ;; unlock_hash ;; unlock_foo (Some p) ;;
    @mret (prog table) _ ptr (Some p)) t1 chains l p x Hf1 Hpc Hx Hl) as [E Hf2].
  change (f_id x) with id in E, Hf2. unfold foo_alloc. rewrite bind_modify. change (negb (0 =? 0)) with false. cbn iota.
  rewrite lock_hash_ok by done.
  match goal with |- context [(push_list _ _ ≫= _) ?t2] => replace t2 with t1 by (by destruct t) end.
  rewrite E. erewrite lock_foo_ok; [|apply lookup_insert_eq|done].
  rewrite unlock_hash_ok by done. erewrite unlock_foo_ok; [|apply lookup_insert_eq|done].
  eexists _, _. split; [done|]. split; [split|split].
  - eapply fchains_links; [exact Hf2| |done]. intros q _. simpl.
    rewrite !insert_insert_eq. destruct (decide (p = q)) as [<-|]; [by rewrite !lookup_insert_eq|].
    by rewrite !lookup_insert_ne.
  - intros q. simpl. rewrite (concat_replace _ _ _ _ Hl). simpl.
    rewrite elem_of_cons, <- (concat_split_at _ _ _ Hl), <- Hd.
    rewrite !insert_insert_eq, lookup_insert_is_Some.
    split; [by intros [<-|[_ ?]]; [left|right]|]. intros [->|?]; [by left|].
    destruct (decide (p = q)); [by left|by right].
  - intros q y. simpl. rewrite !insert_insert_eq, lookup_insert_Some. intros [[<- <-]|[_ ?]]; [done|eauto].
  - intros q y. simpl. rewrite !insert_insert_eq, lookup_insert_Some. intros [[<- <-]|[_ ?]]; [done|eauto].
  - done.
  - unfold counts. simpl. rewrite !insert_insert_eq. by rewrite fmap_insert.
  - rewrite Hl. simpl. split; [apply list_lookup_insert_eq; by eapply lookup_lt_Some|].
    by rewrite !insert_insert_eq, lookup_insert_eq.
Qed.

(** foo_alloc without memory or with a lock that cannot be initialised. *)
Lemma alloc_fails t mp err id : (∀ p, mp = Some p → objs t !! p = None) → mp = None ∨ err ≠ 0 →
  foo_alloc mp err id t = Done None t.
Proof.
  intros Hp Hf. destruct mp as [p|]; [|done]. destruct Hf as [|He]; [done|]. unfold foo_alloc.
  rewrite bind_modify, (proj2 (Z.eqb_neq err 0)) by done. cbn [negb].
  rewrite ffree_ok; [|unfold update; simpl; rewrite lookup_insert_eq; by eexists].
  unfold mret, prog_ret. f_equal. destruct t as [h f b]; unfold update; simpl. by rewrite delete_insert_id by (by apply Hp).
Qed.

(** ** Clients *)

(** The references held by the clients: [refs p] they may use, and one for each
    occurrence of [p] in [giving], whose holder is between the two halves of
    foo_rele. *)
Record world := mkWorld { w_table : table; refs : gmap nat nat; giving : list nat }.

Definition nrefs (m : gmap nat nat) (p : nat) : nat := default 0%nat (m !! p).
Definition ngiving (l : list nat) (p : nat) : nat := length (filter (λ q, q = p) l).
Definition held (w : world) (p : nat) : nat := nrefs (refs w) p + ngiving (giving w) p.

Section clients.
Context (I : FooImpl).

(** What malloc returns is not in use. *)
Definition fresh (mp : ptr) (t : table) : Prop := ∀ p, mp = Some p → objs t !! p = None.

(** A step of some client.  malloc and the init of the lock may fail.  It uses only
    objects it holds a reference to; there are never INT_MAX references to one object. *)
Inductive wstep : world → world → Prop :=
  | w_alloc w id mp err r t' :
      fresh mp (w_table w) → foo_alloc mp err id (w_table w) = Done r t' →
      wstep w (mkWorld t' (if r is Some p then <[p := 1%nat]> (refs w) else refs w) (giving w))
  | w_hold w p t' :
      (0 < nrefs (refs w) p)%nat → Z.of_nat (held w p) < INT_MAX →
      i_hold (Some p) (w_table w) = Done tt t' →
      wstep w (mkWorld t' (<[p := S (nrefs (refs w) p)]> (refs w)) (giving w))
  | w_find w id r t' :
      (∀ p, Z.of_nat (held w p) < INT_MAX) → i_find id (w_table w) = Done r t' →
      wstep w (mkWorld t' (if r is Some p then <[p := S (nrefs (refs w) p)]> (refs w) else refs w)
                 (giving w))
  | w_first w p r t' :
      (0 < nrefs (refs w) p)%nat → i_first (Some p) (w_table w) = Done r t' →
      wstep w (mkWorld t' (<[p := pred (nrefs (refs w) p)]> (refs w))
                 (if r : bool then giving w else p :: giving w))
  | w_last w p la lb t' :
      giving w = la ++ p :: lb → i_last (Some p) (w_table w) = Done tt t' →
      wstep w (mkWorld t' (refs w) (la ++ lb)).

Definition world_init : world := mkWorld empty_table ∅ [].

(** The count of every object is the number of references held. *)
Definition winv (w : world) : Prop :=
  (∃ chains, foo_rep (w_table w) chains) ∧
  ∀ p, default 0 (counts (w_table w) !! p) = Z.of_nat (held w p).

Lemma counts_pos t chains p c : foo_rep t chains → counts t !! p = Some c → 0 < c.
Proof. intros Hr (x & Hx & <-)%counts_lookup. by apply (fr_pos _ _ Hr _ _ Hx). Qed.

Lemma held_some w p : winv w → (0 < held w p)%nat →
  counts (w_table w) !! p = Some (Z.of_nat (held w p)).
Proof.
  intros [_ Hc] Hp. specialize (Hc p). destruct (counts (w_table w) !! p) as [c|]; simpl in Hc; [|lia].
  by rewrite Hc.
Qed.

Lemma nrefs_insert m p n q : nrefs (<[p := n]> m) q = if decide (q = p) then n else nrefs m q.
Proof.
  unfold nrefs. case_decide as Hq; [subst; by rewrite lookup_insert_eq|by rewrite lookup_insert_ne].
Qed.

Lemma ngiving_cons l p q : ngiving (p :: l) q = if decide (q = p) then S (ngiving l q) else ngiving l q.
Proof. unfold ngiving. rewrite filter_cons. repeat case_decide; congruence || done. Qed.

Lemma ngiving_mid la lb p q :
  ngiving (la ++ p :: lb) q = if decide (q = p) then S (ngiving (la ++ lb) q) else ngiving (la ++ lb) q.
Proof.
  unfold ngiving. rewrite !filter_app, !length_app, filter_cons.
  repeat case_decide; simpl; congruence || lia.
Qed.

(** The counts after a release. *)
Lemma released_counts p t t' q : released p t t' → (∃ chains, foo_rep t chains) →
  default 0 (counts t' !! q) = default 0 (counts t !! q) - (if decide (q = p) then 1 else 0).
Proof.
  intros (_ & c & Hc & E) [chains Hr]. rewrite E. pose proof (counts_pos _ _ _ _ Hr Hc).
  case_decide as Hq.
  - subst q. rewrite Hc. destruct (Z.eqb_spec c 1); [rewrite lookup_delete_eq|rewrite lookup_insert_eq];
      simpl; lia.
  - destruct (c =? 1); [rewrite lookup_delete_ne by done|rewrite lookup_insert_ne by done]; lia.
Qed.

Lemma winv_step w w' : winv w → wstep w w' → winv w'.
Proof.
  intros Hi Hst. pose proof Hi as [[chains Hr] Hc].
  destruct Hst as [w id mp err r t' Hp E|w p t' Hp Hlt E|w id r t' Hlt E|w p r t' Hp E|w p la lb t' Hg E].
  - destruct (decide (mp = None ∨ err ≠ 0)) as [Hf|Hf].
    { rewrite alloc_fails in E by done. injection E as <- <-. by destruct w. }
    destruct mp as [p|]; [|by destruct Hf; left]. assert (err = 0) as -> by (destruct (decide (err = 0)); tauto).
    destruct (alloc_spec _ _ p id Hr (Hp p eq_refl)) as (t1 & chains1 & E1 & Hr1 & Hc1 & _).
    assert (r = Some p ∧ t' = t1) as [-> ->] by (rewrite E1 in E; by injection E). split; [by exists chains1|].
    intros q. simpl. rewrite Hc1. unfold held. simpl. rewrite nrefs_insert.
    assert (Hc0 : counts (w_table w) !! p = None) by (unfold counts; by rewrite lookup_fmap, (Hp p)).
    specialize (Hc q). unfold held in Hc. case_decide as Hq.
    + subst q. rewrite lookup_insert_eq. rewrite Hc0 in Hc. simpl in *. lia.
    + by rewrite lookup_insert_ne.
  - assert (Hh : (0 < held w p)%nat) by (unfold held; lia).
    destruct (hold_spec _ _ p _ Hr (held_some _ _ Hi Hh) Hlt) as (t1 & E1 & Hr1 & Hc1).
    assert (t' = t1) as -> by (rewrite E1 in E; by injection E). split; [by exists chains|].
    intros q. simpl. rewrite Hc1. unfold held. simpl. rewrite nrefs_insert. specialize (Hc q).
    case_decide as Hq; [subst q; rewrite lookup_insert_eq; simpl; unfold held; lia|].
    by rewrite lookup_insert_ne.
  - assert (Hlt' : ∀ p c, counts (w_table w) !! p = Some c → c < INT_MAX).
    { intros p c Hpc. specialize (Hc p). rewrite Hpc in Hc. simpl in Hc. rewrite Hc. apply Hlt. }
    destruct (find_spec _ _ id Hr Hlt') as (r1 & t1 & E1 & Hr1 & Hres).
    assert (r = r1 ∧ t' = t1) as [-> ->] by (rewrite E1 in E; by injection E).
    split; [by exists chains|]. intros q. simpl. destruct r1 as [p|]; [|by destruct Hres as [-> _]].
    destruct Hres as (c & x & Hpc & Hc1 & _). rewrite Hc1. unfold held. simpl. rewrite nrefs_insert.
    specialize (Hc q). case_decide as Hq; [|by rewrite lookup_insert_ne].
    subst q. rewrite lookup_insert_eq. rewrite Hpc in Hc. unfold held in Hc. simpl in *. lia.
  - assert (Hh : (0 < held w p)%nat) by (unfold held; lia).
    destruct (first_spec _ _ p Hr (mk_is_Some _ _ (held_some _ _ Hi Hh))) as (r1 & t1 & E1 & Hres).
    assert (r = r1 ∧ t' = t1) as [-> ->] by (rewrite E1 in E; by injection E). destruct r1.
    + split; [apply Hres|]. intros q. simpl.
      rewrite (released_counts _ _ _ q Hres) by by exists chains. rewrite Hc. unfold held. simpl.
      rewrite nrefs_insert. case_decide as Hq; [subst q|]; lia.
    + subst t1. split; [by exists chains|]. intros q. simpl. rewrite Hc. unfold held. simpl.
      rewrite nrefs_insert, ngiving_cons. case_decide as Hq; [subst q|]; lia.
  - assert (Hh : (0 < held w p)%nat).
    { unfold held. rewrite Hg, ngiving_mid, decide_True by done. lia. }
    destruct (last_spec _ _ p Hr (mk_is_Some _ _ (held_some _ _ Hi Hh))) as (t1 & E1 & Hres).
    assert (t' = t1) as -> by (rewrite E1 in E; by injection E). split; [apply Hres|].
    intros q. simpl. rewrite (released_counts _ _ _ q Hres) by by exists chains. rewrite Hc.
    unfold held. simpl. rewrite Hg, ngiving_mid. case_decide as Hq; [subst q|]; lia.
Qed.

(** What a client may rely on in state [w]. *)
Record safe (w : world) : Prop := {
  safe_alive : ∀ p, is_Some (objs (w_table w) !! p) ↔ (0 < held w p)%nat;
  safe_count : ∀ p x, objs (w_table w) !! p = Some x → f_count x = Z.of_nat (held w p);
  safe_alloc : ∀ mp err id, fresh mp (w_table w) → ∃ t',
    foo_alloc mp err id (w_table w) = Done (if decide (err = 0) then mp else None) t' ∧
    if decide (mp = None ∨ err ≠ 0) then t' = w_table w
    else ∀ p, mp = Some p → counts t' = <[p := 1]> (counts (w_table w)) ∧ f_id <$> objs t' !! p = Some id;
  safe_hold : ∀ p, (0 < nrefs (refs w) p)%nat → Z.of_nat (held w p) < INT_MAX →
    ∃ t', i_hold (Some p) (w_table w) = Done tt t';
  safe_find : ∀ id, (∀ p, Z.of_nat (held w p) < INT_MAX) →
    ∃ r t', i_find id (w_table w) = Done r t' ∧
      (is_Some r ↔ ∃ p x, objs (w_table w) !! p = Some x ∧ f_id x = id) ∧
      ∀ p, r = Some p → f_id <$> objs (w_table w) !! p = Some id;
  safe_first : ∀ p, (0 < nrefs (refs w) p)%nat → ∃ r t', i_first (Some p) (w_table w) = Done r t';
  safe_last : ∀ p, p ∈ giving w → ∃ t', i_last (Some p) (w_table w) = Done tt t' }.

Lemma winv_safe w : winv w → safe w.
Proof.
  intros Hi. pose proof Hi as [[chains Hr] Hc].
  assert (Hsome : ∀ p, (0 < held w p)%nat → is_Some (counts (w_table w) !! p)).
  { intros p Hp. by rewrite (held_some _ _ Hi Hp). }
  split.
  - intros p. split.
    + intros [x Hx]. specialize (Hc p). unfold counts in Hc. rewrite lookup_fmap, Hx in Hc.
      simpl in Hc. pose proof (fr_pos _ _ Hr _ _ Hx). lia.
    + intros [c (x & Hx & _)%counts_lookup]%Hsome. by exists x.
  - intros p x Hx. specialize (Hc p). unfold counts in Hc. by rewrite lookup_fmap, Hx in Hc.
  - intros mp err id Hf. destruct (decide (mp = None ∨ err ≠ 0)) as [Hn|Hn].
    + exists (w_table w). rewrite alloc_fails by done. split; [|done]. f_equal.
      case_decide; [by destruct Hn|done].
    + destruct mp as [p|]; [|by destruct Hn; left]. assert (err = 0) as -> by (destruct (decide (err = 0)); tauto).
      destruct (alloc_spec _ _ p id Hr (Hf p eq_refl)) as (t1 & chains1 & E1 & _ & Hc1 & _ & Hid).
      exists t1. split; [done|]. by intros ? [= <-].
  - intros p Hp Hlt. destruct (hold_spec _ _ p _ Hr (held_some _ p Hi ltac:(unfold held; lia)) Hlt)
      as (t1 & E1 & _). by exists t1.
  - intros id Hlt. assert (Hlt' : ∀ p c, counts (w_table w) !! p = Some c → c < INT_MAX).
    { intros p c Hpc. specialize (Hc p). rewrite Hpc in Hc. simpl in Hc. rewrite Hc. apply Hlt. }
    destruct (find_spec _ _ id Hr Hlt') as (r & t1 & E1 & _ & Hres). exists r, t1. split; [done|].
    destruct r as [p|].
    + destruct Hres as (c & x & _ & _ & Hx & Hid). split; [split; [intros _; by exists p, x|by eexists]|].
      intros ? [= <-]. by rewrite Hx; simpl; rewrite Hid.
    + destruct Hres as [_ Hno]. split; [|done]. split; [by intros []|].
      intros (p & x & Hx & Hid). by destruct (Hno p x).
  - intros p Hp. destruct (first_spec _ _ p Hr) as (r & t1 & E1 & _); [apply Hsome; unfold held; lia|].
    by exists r, t1.
  - intros p Hp. destruct (last_spec _ _ p Hr) as (t1 & E1 & _); [|by exists t1]. apply Hsome.
    unfold held, ngiving. assert (Hin : p ∈ filter (λ q, q = p) (giving w)) by by apply list_elem_of_filter.
    destruct (filter _ _); [by apply not_elem_of_nil in Hin|simpl; lia].
Qed.

Lemma world_init_inv : winv world_init.
Proof.
  split; [|by intros p; unfold counts, held, nrefs; simpl; rewrite lookup_fmap, !lookup_empty].
  exists (replicate (Z.to_nat NHASH) []).
  assert (Hl : ∀ b l, replicate (Z.to_nat NHASH) (@nil nat) !! b = Some l → l = [] ∧ (b < Z.to_nat NHASH)%nat)
    by (intros b l Hb; by apply lookup_replicate in Hb).
  split.
  - split; [done|vm_compute; constructor|..].
    + intros b l [-> Hb]%Hl. by apply lookup_replicate.
    + intros b l la p lb [-> Hb]%Hl. by destruct la.
  - intros p. simpl. rewrite lookup_empty. split; [by intros []|].
    by intros ?%not_elem_of_nil.
  - by intros p x.
  - by intros p x.
  - done.
Qed.

Lemma reachable_safe w : rtc wstep world_init w → safe w.
Proof.
  intros Hr. apply winv_safe. pose proof world_init_inv as H0. revert H0.
  induction Hr as [|w1 w2 w3 Hst _ IH]; [done|]. intros Hi. apply IH. by eapply winv_step.
Qed.
End clients.

(** ** Properties *)

(** C11: mutex2.c.  Whatever the clients do, in any interleaving that includes other
    routines between the two halves of foo_rele, an object is in memory exactly as
    long as somebody holds a reference, its count is the number of references, and
    every routine a client may call, foo_alloc included, completes: it touches no freed
    memory and takes no lock twice.  foo_alloc gives a new object with one reference, and
    without memory or with a lock that cannot be initialised NULL and the same table;
    foo_find finds an object exactly when there is one. *)
Theorem mutex2_refcount w : rtc (wstep mutex2_impl) world_init w → safe mutex2_impl w.
Proof. apply reachable_safe. Qed.

(** The state after a client has allocated an object, another found it, and the first
    is in the middle of foo_rele. *)
Lemma mutex2_refcount_witness : ∃ w, rtc (wstep mutex2_impl) world_init w ∧
  giving w = [7%nat] ∧ ∃ t', Mutex2.foo_rele_last (Some 7%nat) (w_table w) = Done tt t'.
Proof.
  assert (Hr : ∃ w, rtc (wstep mutex2_impl) world_init w ∧ giving w = [7%nat]).
  { eexists. split; [eapply rtc_l;
      [apply (w_alloc _ _ 5 (Some 7%nat) 0 (Some 7%nat)); [by intros ? [= <-]|vm_compute; reflexivity]|
       eapply rtc_once, (w_first _ _ 7%nat false); [vm_compute; lia|vm_compute; reflexivity]]|].
    reflexivity. }
  destruct Hr as (w & Hr & Hg). exists w. split; [done|]. split; [done|].
  apply (safe_last _ _ (mutex2_refcount w Hr) 7%nat). rewrite Hg. left.
Defined.

(** the same for mutex3.c and spinlock.c, whose foo_rele is one step under the
    lock of the table. *)
Theorem mutex3_spinlock_refcount w :
  (rtc (wstep mutex3_impl) world_init w → safe mutex3_impl w) ∧
  (rtc (wstep spinlock_impl) world_init w → safe spinlock_impl w).
Proof. split; apply reachable_safe. Qed.

Lemma mutex3_spinlock_refcount_witness : ∃ w, rtc (wstep mutex3_impl) world_init w ∧
  is_Some (objs (w_table w) !! 7%nat) ∧ ∃ r t', Mutex3.foo_find 5 (w_table w) = Done r t' ∧ is_Some r.
Proof.
  assert (Hr : ∃ w x, rtc (wstep mutex3_impl) world_init w ∧ (∀ p, Z.of_nat (held w p) < INT_MAX) ∧
    objs (w_table w) !! 7%nat = Some x ∧ f_id x = 5).
  { eexists _, _. split; [|split; [|split]].
    - eapply rtc_once. apply (w_alloc _ _ 5 (Some 7%nat) 0 (Some 7%nat)); [by intros ? [= <-]|vm_compute; reflexivity].
    - intros p. unfold held. simpl. rewrite nrefs_insert. unfold nrefs. rewrite lookup_empty.
      by case_decide.
    - reflexivity.
    - reflexivity. }
  destruct Hr as (w & x & Hr & Hlt & Hx & Hid). exists w. split; [done|]. split; [by eexists|].
  destruct (safe_find _ _ (proj1 (mutex3_spinlock_refcount w) Hr) 5 Hlt) as (r & t' & E & Hs & _).
  exists r, t'. split; [done|]. apply Hs. by exists 7%nat, x.
Defined.
