(* ===== verification/Sock.v ===== *)
(** * Stream sockets, and the read and write loops of the library.

    A connection is what the peer will send (data in segments, silences, errors;
    the end of the list is the end of the stream), what has been written to it, and
    how the kernel will take the coming writes.  lib/readn.c, lib/writen.c and the
    timed reads of printer/util.c are translated over it; [avail] is the data a
    sequence of reads gets before something else than data happens. *)
From Stdlib Require Import Ascii ZArith Lia.
From stdpp Require Import base strings gmap option list.
From S2P Require Import Prelude CStr.

(** The result of a system call: -1 with errno, or a value. *)
Inductive iores (A : Type) : Type := IoErr (e : Z) | IoOk (a : A).
Arguments IoErr {A} e.
Arguments IoOk {A} a.

Definition EIO : Z := 5.
Definition ETIME : Z := 62.

(** What happens next on the reading side. *)
Inductive inev : Type :=
  | RvData (b : bytes)   (* a segment arrives *)
  | RvTimeout            (* nothing arrives until select gives up *)
  | RvErr (e : Z).       (* select or read fails *)

(** How the next write goes: the kernel takes at most [n] bytes, or fails. *)
Inductive wev : Type := WvOk (n : nat) | WvErr (e : Z).

Record sock := Sock { sk_in : list inev; sk_out : bytes; sk_wr : list wev }.

(** Taking at most [n] bytes; an untimed read waits through a silence. *)
Fixpoint pull (timed : bool) (n : nat) (evs : list inev) : iores bytes * list inev :=
  match evs with
  | [] => (IoOk [], [])
  | RvData [] :: r => pull timed n r
  | RvData b :: r => (IoOk (take n b), if drop n b is [] then r else RvData (drop n b) :: r)
  | RvTimeout :: r => if timed then (IoErr ETIME, r) else pull timed n r
  | RvErr e :: r => (IoErr e, r)
  end.

Definition sk_read (n : nat) (s : sock) : iores bytes * sock :=
  let '(r, evs) := pull false n (sk_in s) in (r, Sock evs (sk_out s) (sk_wr s)).

Definition tread (nbytes : nat) (s : sock) : iores bytes * sock :=
  let '(r, evs) := pull true nbytes (sk_in s) in (r, Sock evs (sk_out s) (sk_wr s)).

Definition sk_write (b : bytes) (s : sock) : iores nat * sock :=
  match sk_wr s with
  | [] => (IoOk (length b), Sock (sk_in s) (sk_out s ++ b) [])
  | WvErr e :: r => (IoErr e, Sock (sk_in s) (sk_out s) r)
  | WvOk k :: r => (IoOk (length (take k b)), Sock (sk_in s) (sk_out s ++ take k b) r)
  end.

(** The loop of readn and treadn: [acc] is what has been read; every round that
    goes on takes at least a byte, so [nleft] rounds are enough. *)
Section read_loop.
Context (rd : nat → sock → iores bytes * sock).

Fixpoint read_loop (fuel nleft : nat) (acc : bytes) (s : sock) : iores bytes * sock :=
  match fuel with
  | O => (IoOk acc, s)
  | S fuel' =>
      match nleft with
      | O => (IoOk acc, s)
      | S _ =>
          match rd nleft s with
          | (IoErr e, s') => (if acc is [] then IoErr e else IoOk acc, s')
          | (IoOk [], s') => (IoOk acc, s')
          | (IoOk b, s') => read_loop fuel' (nleft - length b)%nat (acc ++ b) s'
          end
      end
  end.
End read_loop.

Definition readn (n : nat) (s : sock) : iores bytes * sock := read_loop sk_read n n [] s.
Definition treadn (nbytes : nat) (s : sock) : iores bytes * sock := read_loop tread nbytes nbytes [] s.

(** writen: [b] is what is left to write, [done] the count already written. *)
Fixpoint writen_loop (fuel : nat) (b : bytes) (done : nat) (s : sock) : iores nat * sock :=
  match fuel with
  | O => (IoOk done, s)
  | S fuel' =>
      match b with
      | [] => (IoOk done, s)
      | _ =>
          match sk_write b s with
          | (IoErr e, s') => (if done is O then IoErr e else IoOk done, s')
          | (IoOk O, s') => (IoOk done, s')
          | (IoOk k, s') => writen_loop fuel' (drop k b) (done + k) s'
          end
      end
  end.

Definition writen (b : bytes) (s : sock) : iores nat * sock := writen_loop (length b) b 0 s.

(** ** What the loops do *)

(** The data before the next event that is not data. *)
Fixpoint avail (timed : bool) (evs : list inev) : bytes :=
  match evs with
  | [] => []
  | RvData b :: r => b ++ avail timed r
  | RvTimeout :: r => if timed then [] else avail timed r
  | RvErr _ :: _ => []
  end.

(** What comes after that data. *)
Fixpoint stop (timed : bool) (evs : list inev) : option Z :=
  match evs with
  | [] => None
  | RvData _ :: r => stop timed r
  | RvTimeout :: r => if timed then Some ETIME else stop timed r
  | RvErr e :: _ => Some e
  end.

Lemma pull_data timed n evs : (0 < n)%nat → avail timed evs ≠ [] →
  ∃ b evs', pull timed n evs = (IoOk b, evs') ∧ b ≠ [] ∧ (length b <= n)%nat ∧
    avail timed evs = b ++ avail timed evs' ∧ stop timed evs' = stop timed evs.
Proof.
  intros Hn. induction evs as [|[b| |e] evs IH]; simpl; intros Ha; try done.
  - destruct b as [|c b]; [by apply IH|].
    destruct n as [|n]; [lia|]. eexists (c :: take n b), _. split; [done|]. split; [done|].
    split; [simpl; rewrite length_take; lia|]. simpl.
    destruct (drop n b) as [|c' b'] eqn:Ed.
    + rewrite take_ge; [done|]. by apply skipn_all_iff.
    + change (avail timed (RvData (c' :: b') :: evs)) with ((c' :: b') ++ avail timed evs).
      rewrite <- Ed. split; [|done]. by rewrite app_assoc, take_drop.
  - destruct timed; [done|]. by apply IH.
Qed.

Lemma pull_stop timed n evs : avail timed evs = [] →
  (pull timed n evs).1 = match stop timed evs with Some e => IoErr e | None => IoOk [] end.
Proof.
  induction evs as [|[b| |e] evs IH]; simpl; intros Ha; try done.
  - destruct b; [by apply IH|done].
  - destruct timed; [done|]. by apply IH.
Qed.

(** A read function that reads a connection's events. *)
Definition reads (timed : bool) (rd : nat → sock → iores bytes * sock) : Prop :=
  ∀ n s, rd n s = ((pull timed n (sk_in s)).1, Sock (pull timed n (sk_in s)).2 (sk_out s) (sk_wr s)).

Lemma sk_read_reads : reads false sk_read.
Proof. intros n s. unfold sk_read. by destruct (pull _ _ _). Qed.
Lemma tread_reads : reads true tread.
Proof. intros n s. unfold tread. by destruct (pull _ _ _). Qed.

(** The loop delivers the next [nleft] bytes of the stream, or fewer when the
    stream ends, fails or is silent too long; -1 only when nothing was read. *)
Lemma read_loop_spec timed rd fuel nleft acc s : reads timed rd → (nleft <= fuel)%nat →
  let a := avail timed (sk_in s) in
  let '(r, s') := read_loop rd fuel nleft acc s in
  r = (if acc ++ take nleft a is [] then
         match nleft, stop timed (sk_in s) with S _, Some e => IoErr e | _, _ => IoOk [] end
       else IoOk (acc ++ take nleft a)) ∧
  sk_out s' = sk_out s ∧ sk_wr s' = sk_wr s ∧
  ((nleft <= length a)%nat → avail timed (sk_in s') = drop nleft a ∧ stop timed (sk_in s') = stop timed (sk_in s)).
Proof.
  intros Hrd. revert nleft acc s. induction fuel as [|fuel IH]; intros nleft acc s Hf; simpl.
  - assert (nleft = 0%nat) as -> by lia. rewrite take_0, app_nil_r. by destruct acc.
  - destruct nleft as [|m]; [rewrite take_0, app_nil_r; by destruct acc|].
    set (n := S m) in *. rewrite Hrd. destruct (decide (avail timed (sk_in s) = [])) as [Ha|Ha].
    + pose proof (pull_stop timed n _ Ha) as Hp. destruct (pull timed n (sk_in s)) as [r evs].
      simpl in Hp |- *. subst r. rewrite Ha, take_nil, app_nil_r.
      destruct (stop timed (sk_in s)) as [e|].
      * split; [by destruct acc|]. split; [done|]. split; [done|]. simpl; lia.
      * split; [by destruct acc|]. split; [done|]. split; [done|]. simpl; lia.
    + destruct (pull_data timed n _ ltac:(lia) Ha) as (b & evs & -> & Hb & Hl & Hav & Hst).
      simpl. destruct b as [|c b]; [done|]. set (b' := c :: b) in *.
      assert (Hne : (0 < length b')%nat) by (simpl; lia).
      specialize (IH (n - length b')%nat (acc ++ b') (Sock evs (sk_out s) (sk_wr s)) ltac:(lia)).
      destruct (read_loop rd fuel _ _ _) as [r s']. simpl in IH. rewrite Hst in IH.
      destruct IH as (Hr & Ho & Hw & Hrest). rewrite Hav, take_app.
      rewrite (take_ge b') by lia. rewrite app_assoc. split.
      * rewrite Hr. subst b'. destruct acc; done.
      * split; [done|]. split; [done|]. rewrite length_app. intros Hle.
        rewrite drop_app, (drop_ge b') by lia. simpl. apply Hrest. simpl in *. lia.
Qed.

(** Enough data: exactly the bytes asked for. *)
Lemma treadn_full n s : (n <= length (avail true (sk_in s)))%nat →
  ∃ s', treadn n s = (IoOk (take n (avail true (sk_in s))), s') ∧
    avail true (sk_in s') = drop n (avail true (sk_in s)) ∧
    stop true (sk_in s') = stop true (sk_in s) ∧
    sk_out s' = sk_out s ∧ sk_wr s' = sk_wr s.
Proof.
  intros Hn. unfold treadn. pose proof (read_loop_spec true tread n n [] s tread_reads (le_n n)) as H.
  destruct (read_loop _ _ _ _ _) as [r s']. destruct H as (-> & ? & ? & Hr). destruct (Hr Hn).
  exists s'. split; [|done]. f_equal. rewrite app_nil_l. destruct n as [|n]; [done|].
  destruct (avail true (sk_in s)); [simpl in Hn; lia|done].
Qed.

Lemma readn_full n s : (n <= length (avail false (sk_in s)))%nat →
  ∃ s', readn n s = (IoOk (take n (avail false (sk_in s))), s') ∧
    avail false (sk_in s') = drop n (avail false (sk_in s)) ∧ sk_out s' = sk_out s.
Proof.
  intros Hn. unfold readn. pose proof (read_loop_spec false sk_read n n [] s sk_read_reads (le_n n)) as H.
  destruct (read_loop _ _ _ _ _) as [r s']. destruct H as (-> & ? & ? & Hr). destruct (Hr Hn).
  exists s'. split; [|done]. f_equal. rewrite app_nil_l. destruct n as [|n]; [done|].
  destruct (avail false (sk_in s)); [simpl in Hn; lia|done].
Qed.

(** Too little data: what there is, or the error. *)
Lemma treadn_short n s : (length (avail true (sk_in s)) < n)%nat →
  (treadn n s).1 = (if avail true (sk_in s) is [] then
                      match stop true (sk_in s) with Some e => IoErr e | None => IoOk [] end
                    else IoOk (avail true (sk_in s))) ∧
  sk_out (treadn n s).2 = sk_out s ∧ sk_wr (treadn n s).2 = sk_wr s.
Proof.
  intros Hn. unfold treadn. pose proof (read_loop_spec true tread n n [] s tread_reads (le_n n)) as H.
  destruct (read_loop _ _ _ _ _) as [r s']. destruct H as (-> & ? & ? & _). simpl.
  rewrite take_ge by lia. split; [|done]. by destruct n; [lia|].
Qed.

(** writen writes a beginning of the buffer and returns its length; it returns -1
    only when it has written nothing. *)
Lemma writen_loop_spec fuel b k s :
  let '(r, s') := writen_loop fuel b k s in
  ∃ n, (n <= length b)%nat ∧ sk_out s' = sk_out s ++ take n b ∧ sk_in s' = sk_in s ∧
    (r = IoOk (k + n)%nat ∨ ∃ e, r = IoErr e ∧ (k + n = 0)%nat).
Proof.
  revert b k s. induction fuel as [|fuel IH]; intros b k s; simpl.
  { exists 0%nat. rewrite take_0, app_nil_r, Nat.add_0_r. split; [lia|]. auto. }
  destruct b as [|c b].
  { exists 0%nat. rewrite take_0, app_nil_r, Nat.add_0_r. split; [lia|]. auto. }
  set (b' := c :: b) in *. unfold sk_write. destruct (sk_wr s) as [|[n|e] wr].
  - assert (Hl : length b' = S (length b)) by done. rewrite Hl.
    specialize (IH (drop (S (length b)) b') (k + S (length b))%nat (Sock (sk_in s) (sk_out s ++ b') [])).
    destruct (writen_loop _ _ _ _) as [r s']. rewrite (drop_ge b') in IH by (simpl; lia).
    destruct IH as (n & Hn & Ho & Hi & Hr). simpl in Hn, Ho. assert (n = 0%nat) as -> by lia.
    exists (length b'). split; [done|]. rewrite take_ge by done.
    rewrite take_0, app_nil_r in Ho. split; [done|]. split; [done|].
    destruct Hr as [->|(? & ? & ?)]; [left; f_equal; simpl; lia|lia].
  - destruct (length (take n b')) as [|m] eqn:Em.
    + exists 0%nat. simpl. apply length_zero_iff_nil in Em. rewrite Em.
      rewrite Nat.add_0_r. split; [lia|]. auto.
    + specialize (IH (drop (S m) b') (k + S m)%nat (Sock (sk_in s) (sk_out s ++ take n b') wr)).
      destruct (writen_loop _ _ _ _) as [r s']. destruct IH as (j & Hj & Ho & Hi & Hr).
      rewrite length_drop in Hj. rewrite length_take in Em. exists (S m + j)%nat.
      split; [lia|]. simpl in Ho, Hi. split; [|split; [done|]].
      * rewrite Ho, <- app_assoc. f_equal. rewrite <- (take_take_drop b').
        f_equal. destruct (decide (n <= length b')%nat).
        -- f_equal. lia.
        -- rewrite !take_ge by lia. done.
      * destruct Hr as [->|(? & ? & ?)]; [left; f_equal; lia|lia].
  - exists 0%nat. simpl. rewrite app_nil_r, Nat.add_0_r. split; [lia|].
    split; [done|]. split; [done|]. destruct k; [right; by exists e|by left].
Qed.

Lemma writen_spec b s :
  let '(r, s') := writen b s in
  ∃ n, (n <= length b)%nat ∧ sk_out s' = sk_out s ++ take n b ∧ sk_in s' = sk_in s ∧
    (r = IoOk n ∨ ∃ e, r = IoErr e ∧ n = 0%nat).
Proof. unfold writen. apply (writen_loop_spec _ _ 0). Qed.

(** A kernel that keeps taking bytes: every write goes out whole. *)
Definition takes (w : wev) : Prop := match w with WvOk (S _) => True | _ => False end.
Definition writable (s : sock) : Prop := Forall takes (sk_wr s).

Lemma writen_loop_ok fuel b k s : writable s → (length b <= fuel)%nat →
  ∃ wr, writen_loop fuel b k s = (IoOk (k + length b)%nat, Sock (sk_in s) (sk_out s ++ b) wr) ∧
    Forall takes wr.
Proof.
  revert b k s. induction fuel as [|fuel IH]; intros b k s Hw Hf.
  - assert (b = []) as -> by (destruct b; simpl in *; [done|lia]).
    exists (sk_wr s). rewrite app_nil_r. simpl. rewrite Nat.add_0_r. split; [|done]. by destruct s.
  - simpl. destruct b as [|c b].
    { exists (sk_wr s). rewrite app_nil_r. simpl. rewrite Nat.add_0_r. split; [|done]. by destruct s. }
    set (b' := c :: b) in *. unfold sk_write. unfold writable in Hw. destruct (sk_wr s) as [|w wr].
    + assert (Hl : length b' = S (length b)) by done. rewrite Hl.
      destruct (IH (drop (S (length b)) b') (k + S (length b))%nat (Sock (sk_in s) (sk_out s ++ b') []))
        as (wr & -> & Hwr); [constructor|rewrite length_drop; simpl; lia|].
      exists wr. split; [|done]. rewrite drop_ge by (simpl; lia). simpl. rewrite app_nil_r.
      f_equal. f_equal. simpl. lia.
    + apply Forall_cons in Hw as [Hw Hwr]. destruct w as [[|n]|]; [done| |done].
      assert (Hl : length (take (S n) b') = S (Nat.min n (length b))) by (simpl; by rewrite length_take).
      rewrite Hl. set (m := S (Nat.min n (length b))).
      destruct (IH (drop m b') (k + m)%nat (Sock (sk_in s) (sk_out s ++ take (S n) b') wr))
        as (wr' & -> & Hwr'); [done|rewrite length_drop; simpl in *; lia|].
      exists wr'. split; [|done]. f_equal.
      * f_equal. rewrite length_drop. subst m. simpl. lia.
      * cbn [sk_in sk_out]. f_equal. rewrite <- app_assoc. f_equal.
        replace (drop m b') with (drop (S n) b'); [by rewrite take_drop|].
        destruct (decide (n <= length b)%nat); [f_equal; lia|].
        rewrite !drop_ge; simpl; [done|lia|lia].
Qed.

Lemma writen_ok b s : writable s →
  ∃ wr, writen b s = (IoOk (length b), Sock (sk_in s) (sk_out s ++ b) wr) ∧ Forall takes wr.
Proof. intros. by apply (writen_loop_ok _ _ 0). Qed.
