(* ===== verification/Endian.v ===== *)
(** * Integers in memory and on the network.

    The hosts are little-endian: [le n z] are the [n] bytes of an integer in memory
    and [of_le] reads them back as an unsigned value.  htons and htonl reverse them. *)
From Stdlib Require Import Ascii ZArith Lia.
From stdpp Require Import base strings gmap option list.
From S2P Require Import Prelude CStr.

Fixpoint le (n : nat) (z : Z) : bytes :=
  match n with O => [] | S n' => to_char z :: le n' (z / 256) end.

Fixpoint of_le (b : bytes) : Z :=
  match b with [] => 0 | c :: b' => char_u c + 256 * of_le b' end.

(** htonl and ntohl, htons and ntohs: the same exchange of bytes. *)
Definition htonl (z : Z) : Z := of_le (reverse (le 4 z)).
Definition htons (z : Z) : Z := of_le (reverse (le 2 z)).
Abbreviation ntohl := htonl.
Abbreviation ntohs := htons.

(** ** Lemmas *)

Lemma length_le n z : length (le n z) = n.
Proof. revert z. induction n as [|n IH]; intros z; simpl; [done|]. by rewrite IH. Qed.

Lemma of_le_range b : 0 <= of_le b < 256 ^ Z.of_nat (length b).
Proof.
  induction b as [|c b IH]; simpl length; [simpl; lia|]. cbn [of_le].
  rewrite Nat2Z.inj_succ, Z.pow_succ_r by lia. pose proof (char_u_range c). lia.
Qed.

Lemma of_le_le n z : of_le (le n z) = z mod 256 ^ Z.of_nat n.
Proof.
  revert z. induction n as [|n IH]; intros z; [simpl; by rewrite Z.mod_1_r|].
  cbn [le of_le]. rewrite IH, char_u_to_char, Nat2Z.inj_succ, Z.pow_succ_r by lia.
  rewrite Z.rem_mul_r by lia. lia.
Qed.

Lemma le_of_le b : le (length b) (of_le b) = b.
Proof.
  induction b as [|c b IH]; [done|]. cbn [length le of_le]. pose proof (char_u_range c).
  f_equal.
  - rewrite <- (to_char_u c) at 2. unfold to_char. do 2 f_equal.
    rewrite (Z.mul_comm 256), Z.mod_add by lia. done.
  - rewrite (Z.mul_comm 256), Z.div_add, Z.div_small by lia. simpl. done.
Qed.

Lemma le_mod n z : le n (z mod 256 ^ Z.of_nat n) = le n z.
Proof.
  rewrite <- (of_le_le n z). rewrite <- (length_le n z) at 1. apply le_of_le.
Qed.

Lemma le_htonl z : le 4 (htonl z) = reverse (le 4 z).
Proof.
  unfold htonl. pose proof (le_of_le (reverse (le 4 z))) as H.
  by rewrite length_reverse, length_le in H.
Qed.

Lemma le_htons z : le 2 (htons z) = reverse (le 2 z).
Proof.
  unfold htons. pose proof (le_of_le (reverse (le 2 z))) as H.
  by rewrite length_reverse, length_le in H.
Qed.

Lemma htonl_htonl z : htonl (htonl z) = z mod 2 ^ 32.
Proof. unfold htonl at 1. by rewrite le_htonl, reverse_involutive, of_le_le. Qed.

Lemma htonl_range z : 0 <= htonl z < 2 ^ 32.
Proof.
  unfold htonl. pose proof (of_le_range (reverse (le 4 z))) as H.
  by rewrite length_reverse, length_le in H.
Qed.

Lemma htonl_mod z : htonl (z mod 2 ^ 32) = htonl z.
Proof. unfold htonl. by rewrite (le_mod 4). Qed.

Lemma htonl_0 z : htonl z = 0 ↔ z mod 2 ^ 32 = 0.
Proof.
  split; intros H.
  - by rewrite <- htonl_htonl, H.
  - by rewrite <- htonl_mod, H.
Qed.

Lemma wrap_s_id w z : 0 < w → - 2 ^ (w - 1) <= z < 2 ^ (w - 1) → wrap_s w z = z.
Proof.
  intros Hw Hz. unfold wrap_s.
  assert (E : 2 ^ w = 2 * 2 ^ (w - 1)) by (rewrite <- Z.pow_succ_r by lia; f_equal; lia).
  destruct (decide (0 <= z)).
  - rewrite Z.mod_small by lia. by rewrite (proj2 (Z.ltb_lt _ _)) by lia.
  - rewrite <- (Z.mod_add z 1), Z.mod_small by lia. rewrite (proj2 (Z.ltb_ge _ _)) by lia. lia.
Qed.

#[export] Hint Rewrite length_le : len.
