(* ===== verification/PrintReq.v ===== *)
(** * What print and printd share: print.h and the configuration of util.c.

    struct printreq and struct printresp as they lie in memory, which is how they are
    written to sockets and to the spool directory, and the scan of /etc/printer.conf. *)
From Stdlib Require Import Ascii ZArith Lia.
From stdpp Require Import base strings gmap option list.
From S2P Require Import Prelude CStr Endian.

Definition FILENMSZ : nat := 64.
Definition USERNM_MAX : nat := 64.
Definition JOBNM_MAX : nat := 256.
Definition MSGLEN_MAX : nat := 512.
Definition IBUFSZ : nat := 512.
Definition HBUFSZ : nat := 512.
Definition IOBUFSZ : nat := Z.to_nat 8192.
Definition IPP_PORT : Z := 631.
Definition PR_TEXT : Z := 1.
Definition SPOOLDIR : bytes := str "/var/spool/printer".
Definition JOBFILE : bytes := str "jobno".
Definition DATADIR : bytes := str "data".
Definition REQDIR : bytes := str "reqs".

(** ** The messages *)

Record printreq := PrintReq {
  rq_size : Z;
  rq_flags : Z;
  rq_usernm : bytes;
  rq_jobnm : bytes }.
#[export] Instance printreq_rebuild : Rebuild printreq := λ r,
  PrintReq (rq_size r) (rq_flags r) (rq_usernm r) (rq_jobnm r).

Record printresp := PrintResp {
  rs_retcode : Z;
  rs_jobid : Z;
  rs_msg : bytes }.
#[export] Instance printresp_rebuild : Rebuild printresp := λ r,
  PrintResp (rs_retcode r) (rs_jobid r) (rs_msg r).

Definition SIZEOF_REQ : nat := 328.
Definition SIZEOF_RESP : nat := 520.

(** The bytes of a structure in memory, and back. *)
Definition req_bytes (r : printreq) : bytes :=
  le 4 (rq_size r) ++ le 4 (rq_flags r) ++ rq_usernm r ++ rq_jobnm r.
Definition req_of_bytes (b : bytes) : printreq :=
  PrintReq (of_le (slice 0 4 b)) (of_le (slice 4 4 b)) (slice 8 64 b) (slice 72 256 b).

Definition resp_bytes (r : printresp) : bytes :=
  le 4 (rs_retcode r) ++ le 4 (rs_jobid r) ++ rs_msg r.
Definition resp_of_bytes (b : bytes) : printresp :=
  PrintResp (of_le (slice 0 4 b)) (of_le (slice 4 4 b)) (slice 8 512 b).

Lemma IOBUFSZ_pos : (0 < IOBUFSZ)%nat.
Proof. unfold IOBUFSZ. lia. Qed.

(** A value of the C type. *)
Record req_wf (r : printreq) : Prop := {
  rwf_size : 0 <= rq_size r < 2 ^ 32;
  rwf_flags : 0 <= rq_flags r < 2 ^ 32;
  rwf_usernm : length (rq_usernm r) = USERNM_MAX;
  rwf_jobnm : length (rq_jobnm r) = JOBNM_MAX }.
Record resp_wf (r : printresp) : Prop := {
  swf_retcode : 0 <= rs_retcode r < 2 ^ 32;
  swf_jobid : 0 <= rs_jobid r < 2 ^ 32;
  swf_msg : length (rs_msg r) = MSGLEN_MAX }.

Lemma length_req_bytes r : req_wf r → length (req_bytes r) = SIZEOF_REQ.
Proof. intros [_ _ Hu Hj]. unfold req_bytes. autorewrite with len. by rewrite Hu, Hj. Qed.
Lemma length_resp_bytes r : resp_wf r → length (resp_bytes r) = SIZEOF_RESP.
Proof. intros [_ _ Hm]. unfold resp_bytes. autorewrite with len. by rewrite Hm. Qed.

Lemma of_le_slice4 pre z rest : 0 <= z < 2 ^ 32 →
  of_le (slice (length pre) 4 (pre ++ le 4 z ++ rest)) = z.
Proof.
  intros Hz. rewrite slice_split by (done || apply length_le). rewrite of_le_le.
  by apply Z.mod_small.
Qed.

Lemma req_of_req_bytes r : req_wf r → req_of_bytes (req_bytes r) = r.
Proof.
  intros [Hs Hf Hu Hj]. destruct r as [sz fl u j]. unfold req_of_bytes, req_bytes.
  cbn [rq_size rq_flags rq_usernm rq_jobnm] in *.
  f_equal.
  - exact (of_le_slice4 [] sz (le 4 fl ++ u ++ j) Hs).
  - exact (of_le_slice4 (le 4 sz) fl (u ++ j) Hf).
  - rewrite (app_assoc (le 4 sz)). by apply slice_split.
  - rewrite (app_assoc (le 4 sz)), (app_assoc _ u). rewrite <- (app_nil_r j) at 1.
    apply slice_split; [|done]. rewrite !length_app, !length_le, Hu. done.
Qed.

Lemma resp_of_resp_bytes r : resp_wf r → resp_of_bytes (resp_bytes r) = r.
Proof.
  intros [Hs Hf Hm]. destruct r as [rc j m]. unfold resp_of_bytes, resp_bytes.
  cbn [rs_retcode rs_jobid rs_msg] in *.
  f_equal.
  - exact (of_le_slice4 [] rc (le 4 j ++ m) Hs).
  - exact (of_le_slice4 (le 4 rc) j m Hf).
  - rewrite (app_assoc (le 4 rc)). rewrite <- (app_nil_r m) at 1. by apply slice_split.
Qed.

Lemma req_of_bytes_wf b : length b = SIZEOF_REQ → req_wf (req_of_bytes b).
Proof.
  intros Hb. unfold SIZEOF_REQ in Hb.
  assert (Hr : ∀ off, (off <= 4)%nat → 0 <= of_le (slice off 4 b) < 2 ^ 32).
  { intros off Ho. pose proof (of_le_range (slice off 4 b)) as H. unfold slice in *.
    rewrite length_take, length_drop in H. by replace (4 `min` _)%nat with 4%nat in H by lia. }
  split; simpl; [apply Hr; lia|apply Hr; lia| |]; unfold slice;
    rewrite length_take, length_drop; unfold USERNM_MAX, JOBNM_MAX; lia.
Qed.

(** [strncpy(dst, src, n)] into a buffer of [n] bytes: padded with NULs. *)
Definition strncpy (n : nat) (src : bytes) : bytes :=
  take n (cstr src) ++ replicate (n - length (cstr src)) NUL.

Lemma length_strncpy n s : length (strncpy n s) = n.
Proof. unfold strncpy. rewrite length_app, length_take, length_replicate. lia. Qed.

(** ** The configuration file *)

Definition MAXCFGLINE : nat := 512.
Definition MAXKWLEN : nat := 16.

(** "%Ns" of scanf: blanks are skipped, then at most [n] other characters taken. *)
Fixpoint scan_word (n : nat) (b : bytes) : bytes * bytes :=
  match n, b with
  | S n', c :: b' =>
      if isspace c then ([], b)
      else let '(w, r) := scan_word n' b' in (c :: w, r)
  | _, _ => ([], b)
  end.
Definition scan_s (n : nat) (b : bytes) : option (bytes * bytes) :=
  match scan_word n (skip_space b) with ([], _) => None | (w, r) => Some (w, r) end.

(** The line as the pattern "%15s %511s" reads it: [Some] for two conversions. *)
Definition scan_line (line : bytes) : option (bytes * bytes) :=
  '(keybuf, r) ← scan_s (MAXKWLEN - 1) (cstr line);
  '(valbuf, _) ← scan_s (MAXCFGLINE - 1) r;
  Some (keybuf, valbuf).

(** scan_configfile on the contents of the file; a line takes a character at least,
    so the length of the file is enough fuel. *)
Fixpoint scan_lines (fuel : nat) (keyword b : bytes) : option bytes :=
  match fuel with
  | O => None
  | S fuel' =>
      match fgets (MAXCFGLINE - 1) b with
      | ([], _) => None
      | (line, b') =>
          match scan_line line with
          | Some (keybuf, valbuf) =>
              if bool_decide (keyword = keybuf) then Some valbuf else scan_lines fuel' keyword b'
          | None => scan_lines fuel' keyword b'
          end
      end
  end.

Definition scan_configfile (keyword conf : bytes) : option bytes :=
  scan_lines (S (length conf)) keyword conf.

Definition get_printserver (conf : bytes) : option bytes := scan_configfile (str "printserver") conf.

(** ** What the scan finds *)

(** A word of the configuration. *)
Definition word (w : bytes) : Prop := w ≠ [] ∧ Forall (λ c, isspace c = false ∧ c ≠ NUL) w.

(** An entry: keyword, count of the blanks, value. *)
Definition cfg_entry : Type := bytes * nat * bytes.
Definition cfg_line (e : cfg_entry) : bytes := e.1.1 ++ replicate (S e.1.2) SPACE ++ e.2 ++ [NEWLINE].
Definition cfg_ok (e : cfg_entry) : Prop :=
  word e.1.1 ∧ word e.2 ∧ (length e.1.1 < MAXKWLEN)%nat ∧ (length (cfg_line e) < MAXCFGLINE)%nat.
Definition cfg_text (es : list cfg_entry) : bytes := concat (map cfg_line es).

Lemma scan_word_word n w c r : Forall (λ c, isspace c = false ∧ c ≠ NUL) w → (length w <= n)%nat →
  isspace c = true → scan_word n (w ++ c :: r) = (w, c :: r).
Proof.
  revert n. induction w as [|x w IH]; intros n Hw Hn Hc.
  - destruct n as [|n]; [done|]. simpl. by rewrite Hc.
  - destruct n as [|n]; [simpl in Hn; lia|]. apply Forall_cons in Hw as [[Hx _] Hw]. simpl in *.
    rewrite Hx. by rewrite IH by (done || lia).
Qed.

Lemma skip_space_word w r : word w → skip_space (w ++ r) = w ++ r.
Proof. intros [Hne Hw]. destruct w as [|c w]; [done|]. apply Forall_cons in Hw as [[Hc _] _]. simpl. by rewrite Hc. Qed.

Lemma scan_s_word n k w c r : word w → (length w <= n)%nat → isspace c = true →
  scan_s n (replicate k SPACE ++ w ++ c :: r) = Some (w, c :: r).
Proof.
  intros Hw Hl Hc. unfold scan_s. rewrite skip_space_replicate, skip_space_word by done.
  destruct Hw as [Hne Hw]. rewrite scan_word_word by done. by destruct w.
Qed.

Lemma word_no_nul w : word w → no_nul w.
Proof. intros [_ Hw] Hin. rewrite Forall_forall in Hw. by destruct (Hw _ Hin). Qed.
Lemma word_no_newline w : word w → NEWLINE ∉ w.
Proof. intros [_ Hw] Hin. rewrite Forall_forall in Hw. by destruct (Hw _ Hin). Qed.

Lemma scan_line_entry e : cfg_ok e → scan_line (cfg_line e) = Some (e.1.1, e.2).
Proof.
  intros (Hk & Hv & Hkl & Hl). destruct e as [[k n] v]. unfold cfg_line in *. cbn [fst snd] in *.
  unfold scan_line. rewrite cstr_id.
  2: { apply no_nul_app. split; [by apply word_no_nul|]. apply no_nul_app.
       split; [by apply no_nul_replicate|]. apply no_nul_app. split; [by apply word_no_nul|no_nul_const]. }
  rewrite (scan_s_word _ 0 k SPACE (replicate n SPACE ++ v ++ [NEWLINE])) by (done || lia).
  cbn [mbind option_bind]. 
  rewrite (scan_s_word _ (S n) v NEWLINE []); [done|done| |done].
  rewrite !length_app in Hl. lia.
Qed.

(** On a configuration file of "keyword value" lines the lookup of a keyword gives
    the value of the first line that has it, and nothing when no line has it. *)
Theorem scan_configfile_first es keyword : Forall cfg_ok es →
  scan_configfile keyword (cfg_text es)
  = snd <$> head (filter (λ e : cfg_entry, keyword = e.1.1) es).
Proof.
  intros Hok. unfold scan_configfile.
  assert (H : ∀ fuel, (length (cfg_text es) < fuel)%nat → scan_lines fuel keyword (cfg_text es)
    = snd <$> head (filter (λ e : cfg_entry, keyword = e.1.1) es)); [|apply H; lia].
  induction Hok as [|e es He Hok IH]; intros [|fuel] Hf; try lia; [done|].
  unfold cfg_text in *. cbn [map concat] in *. cbn [scan_lines].
  pose proof He as (Hk & Hv & _ & Hl). 
  assert (Ef : fgets (MAXCFGLINE - 1) (cfg_line e ++ concat (map cfg_line es))
    = (cfg_line e, concat (map cfg_line es))).
  { unfold cfg_line in *. destruct e as [[k n] v]. cbn [fst snd] in *.
    set (rest := concat _). rewrite !app_assoc. rewrite <- (app_assoc _ [NEWLINE]). apply fgets_line.
    - rewrite !not_elem_of_app. split_and!; [by apply word_no_newline| |by apply word_no_newline].
      intros [Hx _]%elem_of_replicate. discriminate Hx.
    - repeat rewrite length_app in Hl. repeat rewrite length_app. cbn [length] in *. unfold MAXCFGLINE in *. lia. }
  rewrite Ef. destruct (cfg_line e) as [|c l] eqn:El.
  { unfold cfg_line in El. apply (f_equal length) in El. rewrite !length_app in El. simpl in El. lia. }
  rewrite <- El, scan_line_entry by done. rewrite filter_cons.
  assert (Hlt : (length (concat (map cfg_line es)) < fuel)%nat).
  { rewrite length_app in Hf. simpl in Hf. lia. }
  destruct (decide (keyword = e.1.1)) as [E|E].
  - by rewrite bool_decide_eq_true_2.
  - rewrite bool_decide_eq_false_2 by done. by apply IH.
Qed.

Lemma scan_configfile_first_witness :
  scan_configfile (str "printer")
    (cfg_text [(str "printserver", 0%nat, str "blade"); (str "printer", 3%nat, str "hp4000")])
  = Some (str "hp4000").
Proof.
  rewrite scan_configfile_first; [vm_compute; reflexivity|].
  repeat constructor; try discriminate; vm_compute; try lia; try discriminate.
Defined.
