(* ===== verification/PrintClient.v ===== *)
(** * The print command (printer/print.c).

    [submit_file] sends the request header and the file to the daemon and reports its
    answer; [main] finds a server to submit to.  The descriptor of the document is the
    list of what its reads deliver. *)
From Stdlib Require Import Ascii ZArith Lia.
From stdpp Require Import base strings gmap option list.
From S2P Require Import Prelude CStr Sock Endian PrintReq.

Record client := Client {
  c_fd : list inev;       (* the document *)
  c_sock : sock;         (* the connection to the server *)
  c_stdout : bytes }.
#[export] Instance client_rebuild : Rebuild client := λ c,
  Client (c_fd c) (c_sock c) (c_stdout c).

Definition c_writen (b : bytes) : prog client (iores nat) := λ c,
  let '(r, s) := writen b (c_sock c) in Done r (c <| c_sock := s |>).
Definition c_readn (n : nat) : prog client (iores bytes) := λ c,
  let '(r, s) := readn n (c_sock c) in Done r (c <| c_sock := s |>).
Definition c_read_fd (n : nat) : prog client (iores bytes) := λ c,
  let '(r, evs) := pull false n (c_fd c) in Done r (c <| c_fd := evs |>).
Definition c_printf (s : bytes) : prog client unit := modify (λ c, c <| c_stdout ::= λ o, o ++ s |>).

(** The request header: [req0] is what the stack holds where [req] lies, [pw] the name
    getpwuid finds for the effective user. *)
Definition build_req (req0 : printreq) (pw : option bytes) (fname : bytes) (nbytes : Z)
    (text : bool) : printreq :=
  PrintReq
    (htonl nbytes)
    (if text then htonl PR_TEXT else 0)
    (match pw with
     | None => put_at (rq_usernm req0) 0 (str "unknown" ++ [NUL])
     | Some name =>
         set_at (put_at (rq_usernm req0) 0 (strncpy (USERNM_MAX - 1) name)) (USERNM_MAX - 1) NUL
     end)
    (let len := strlen fname in
     if (JOBNM_MAX <=? len)%nat then
       put_at (put_at (rq_jobnm req0) 0 (str "... " ++ [NUL])) 4
         (take (JOBNM_MAX - 5) (drop (len - JOBNM_MAX + 5) (cstr fname)) ++ [NUL])
     else put_at (rq_jobnm req0) 0 (cstr fname ++ [NUL])).

(** "Now send the file".  A read that fails gives writen the count -1 as a size_t, and
    it reads on behind [buf]. *)
Fixpoint send_file (fuel : nat) : prog client unit :=
  match fuel with
  | O => λ _, NoFuel
  | S fuel' =>
      r ← c_read_fd IOBUFSZ;
      match r with
      | IoErr _ => undefined
      | IoOk [] => mret tt
      | IoOk buf =>
          w ← c_writen buf;
          match w with
          | IoErr _ => die (ErrSys "can't write to print server")
          | IoOk nw =>
              if bool_decide (nw = length buf) then send_file fuel'
              else die (ErrQuit "short write to print server")
          end
      end
  end.

(** Every read but the last one takes a byte of the document. *)
Definition send_fuel (c : client) : nat := S (length (avail false (c_fd c))).

Definition submit_file (req0 : printreq) (pw : option bytes) (fname : bytes) (nbytes : Z)
    (text : bool) : prog client unit :=
  let req := build_req req0 pw fname nbytes text in
  w ← c_writen (req_bytes req);
  (match w with
   | IoErr _ => die (ErrSys "can't write to print server")
   | IoOk nw => check (bool_decide (nw = SIZEOF_REQ)) (ErrQuit "short write to print server")
   end) ;;
  fuel ← gets send_fuel;
  send_file fuel ;;
  r ← c_readn SIZEOF_RESP;
  match r with
  | IoErr _ => die (ErrSys "can't read response from server")
  | IoOk b =>
      check (bool_decide (length b = SIZEOF_RESP)) (ErrSys "can't read response from server") ;;
      let res := resp_of_bytes b in
      if rs_retcode res =? 0 then
        c_printf (str "job ID " ++ dec (ntohl (rs_jobid res)) ++ [NEWLINE])
      else
        c_printf (str "rejected: " ++ cstr (rs_msg res) ++ [NEWLINE]) ;; die (Exit 1)
  end.

(** The loop of main over the addresses of the print server: [conns] says for each what
    connect_retry gives, a connection or a failure. *)
Fixpoint main_connect (submit : prog client unit) (conns : list (option sock)) : prog client unit :=
  match conns with
  | [] => die (ErrSys "can't contact the print server")
  | None :: rest => main_connect submit rest
  | Some s :: _ => modify (λ c, c <| c_sock := s |>) ;; submit ;; die (Exit 0)
  end.

(** main: [opts] are the results of getopt up to -1, [args] the arguments left; [file]
    what open and fstat give for a name: its data, its size and whether it is regular;
    [gai] is getaddrinfo. *)
Definition main (conf : bytes) (gai : bytes → bytes → option (list (option sock)))
    (file : bytes → option (list inev * Z * bool)) (req0 : printreq) (pw : option bytes)
    (opts : list char) (args : list bytes) : prog client unit :=
  let text := bool_decide ("t"%char ∈ opts) in
  let err := bool_decide ("?"%char ∈ opts) in
  match args with
  | [fname] =>
      check (negb err) (ErrQuit "usage: print [-t] filename") ;;
      match file fname with
      | None => die (ErrSys "print: can't open")
      | Some (evs, size, reg) =>
          modify (λ c, c <| c_fd := evs |>) ;;
          check reg (ErrQuit "print: must be a regular file") ;;
          match get_printserver conf with
          | None => die (ErrQuit "print: no print server defined")
          | Some host =>
              match gai host (str "print") with
              | None => die (ErrQuit "print: getaddrinfo error")
              | Some conns => main_connect (submit_file req0 pw fname size text) conns
              end
          end
      end
  | _ => die (ErrQuit "usage: print [-t] filename")
  end.

(** ** The header *)

Lemma length_put_at b off s : (off + length s <= length b)%nat → length (put_at b off s) = length b.
Proof. intros. unfold put_at. rewrite length_blit. lia. Qed.

(** What the header says, for a document name and a user name without NULs. *)
Definition trunc_name (fname : bytes) : bytes :=
  if (JOBNM_MAX <=? length fname)%nat then str "... " ++ drop (length fname - 251) fname else fname.
Definition user_name (pw : option bytes) : bytes :=
  match pw with None => str "unknown" | Some n => take 63 n end.

Lemma cstr_put_at_0 b s : no_nul s → (length s < length b)%nat → cstr (put_at b 0 (s ++ [NUL])) = s.
Proof.
  intros Hs Hl. rewrite put_at_0, <- app_assoc. by apply cstr_app.
Qed.

(** A padded copy has the (cut) string followed by a NUL. *)
Lemma cstr_strncpy n s b : no_nul s → length b = S n →
  cstr (set_at (put_at b 0 (strncpy n s)) n NUL) = take n s.
Proof.
  intros Hs Hb. rewrite put_at_0, length_strncpy.
  destruct (drop n b) as [|x r] eqn:Ed.
  { apply (f_equal length) in Ed. rewrite length_drop in Ed. simpl in Ed. lia. }
  rewrite set_at_split by apply length_strncpy. unfold strncpy. rewrite (cstr_id s) by done.
  rewrite <- app_assoc. destruct (n - length s)%nat as [|k] eqn:Ek; simpl;
    apply cstr_app, no_nul_take, Hs.
Qed.

Lemma build_req_wf req0 pw fname nbytes text :
  length (rq_usernm req0) = USERNM_MAX → length (rq_jobnm req0) = JOBNM_MAX →
  req_wf (build_req req0 pw fname nbytes text).
Proof.
  intros Hu Hj. split; cbn [build_req rq_size rq_flags rq_usernm rq_jobnm].
  - apply htonl_range.
  - destruct text; [apply htonl_range|lia].
  - destruct pw as [n|].
    + unfold set_at. rewrite length_put_at; rewrite length_put_at; rewrite ?length_strncpy, Hu; unfold USERNM_MAX; simpl; lia.
    + rewrite length_put_at; rewrite Hu; unfold USERNM_MAX; simpl; lia.
  - case_match eqn:E.
    + apply Nat.leb_le in E. set (t := take _ _). assert (Ht : (length t <= 251)%nat) by apply firstn_le_length.
      assert (H5 : length (str "... " ++ [NUL]) = 5%nat) by done.
      rewrite length_put_at; rewrite ?length_put_at; rewrite ?Hj, ?H5;
        rewrite ?(length_app t); cbn [length]; unfold JOBNM_MAX in *; lia.
    + apply Nat.leb_gt in E. rewrite length_put_at, Hj; [done|]. rewrite Hj, length_app.
      unfold strlen, JOBNM_MAX in *. simpl. lia.
Qed.

Lemma build_req_says req0 pw fname nbytes text :
  length (rq_usernm req0) = USERNM_MAX → length (rq_jobnm req0) = JOBNM_MAX →
  no_nul fname → (∀ n, pw = Some n → no_nul n) →
  let r := build_req req0 pw fname nbytes text in
  ntohl (rq_size r) = nbytes mod 2 ^ 32 ∧
  ntohl (rq_flags r) = (if text then PR_TEXT else 0) ∧
  cstr (rq_usernm r) = user_name pw ∧
  cstr (rq_jobnm r) = trunc_name fname.
Proof.
  intros Hu Hj Hf Hp. cbn [build_req rq_size rq_flags rq_usernm rq_jobnm].
  split; [apply htonl_htonl|]. split; [by destruct text|]. split.
  - destruct pw as [n|]; simpl.
    + apply cstr_strncpy; [by apply Hp|done].
    + done.
  - unfold strlen, trunc_name. rewrite (cstr_id fname) by done. case_match eqn:E.
    + apply Nat.leb_le in E. unfold JOBNM_MAX in *. rewrite (put_at_0 _ (_ ++ _)), <- app_assoc.
      rewrite take_ge by (rewrite length_drop; lia).
      replace (length fname - 256 + 5)%nat with (length fname - 251)%nat by lia.
      change (length (str "... " ++ [NUL])) with 5%nat.
      set (t := drop (length fname - 251) fname).
      assert (Ht : length t = 251%nat) by (unfold t; rewrite length_drop; lia).
      pose proof (put_at_split (str "... ") ([NUL] ++ drop 5 (rq_jobnm req0)) [] (t ++ [NUL]) 4 eq_refl) as Hs.
      rewrite app_nil_r in Hs. rewrite Hs by (rewrite !length_app, length_drop, Hj, Ht; done).
      rewrite app_nil_r, app_assoc. apply cstr_app. apply no_nul_app. split; [no_nul_const|].
      by apply no_nul_drop.
    + apply Nat.leb_gt in E. apply cstr_put_at_0; [done|lia].
Qed.

(** ** Sending *)

Lemma c_writen_ok b c : writable (c_sock c) →
  ∃ wr, c_writen b c = Done (IoOk (length b))
      (Client (c_fd c) (Sock (sk_in (c_sock c)) (sk_out (c_sock c) ++ b) wr) (c_stdout c)) ∧
    Forall takes wr.
Proof.
  intros Hw. destruct (writen_ok b _ Hw) as (wr & E & Hwr). exists wr. split; [|done].
  unfold c_writen. by rewrite E.
Qed.

(** On a document that can be read and a connection that takes it, the whole document
    is sent. *)
Lemma send_file_ok fuel c :
  stop false (c_fd c) = None → writable (c_sock c) → (length (avail false (c_fd c)) < fuel)%nat →
  ∃ evs wr, send_file fuel c
    = Done tt (Client evs (Sock (sk_in (c_sock c)) (sk_out (c_sock c) ++ avail false (c_fd c)) wr)
                 (c_stdout c)).
Proof.
  revert c. induction fuel as [|fuel IH]; intros c Hs Hw Hf; [lia|]. simpl.
  unfold c_read_fd at 1. unfold mbind at 1, prog_bind at 1.
  destruct (decide (avail false (c_fd c) = [])) as [Ha|Ha].
  - pose proof (pull_stop false IOBUFSZ _ Ha) as Hp. rewrite Hs in Hp.
    destruct (pull _ _ _) as [r evs]. simpl in Hp. subst r.
    exists evs, (sk_wr (c_sock c)). rewrite Ha, app_nil_r. by destruct c as [? [] ?].
  - destruct (pull_data false IOBUFSZ (c_fd c)) as (b & evs & Hp & Hb & _ & Hav & Hst);
      [exact IOBUFSZ_pos|done|].
    rewrite Hp. destruct b as [|x b]; [done|]. set (b' := x :: b) in *. 
    destruct (c_writen_ok b' (Client evs (c_sock c) (c_stdout c)) Hw) as (wr & Hwr & Hwr').
    erewrite bind_done by exact Hwr.
    cbn beta iota. rewrite bool_decide_eq_true_2 by done. 
    destruct (IH (Client evs (Sock (sk_in (c_sock c)) (sk_out (c_sock c) ++ b') wr) (c_stdout c)))
      as (evs2 & wr2 & E); [by rewrite <- Hs|done| |].
    { cbn [c_fd]. rewrite Hav, length_app in Hf. simpl in Hf. lia. }
    exists evs2, wr2. etrans; [exact E|]. cbn [c_fd c_sock c_stdout sk_in sk_out]. by rewrite Hav, app_assoc.
Qed.

(** What the command prints and how it ends, by the answer. *)
Definition report (b : bytes) (c : client) : outcome client unit :=
  let res := resp_of_bytes (take SIZEOF_RESP b) in
  if (length b <? SIZEOF_RESP)%nat then Fatal (ErrSys "can't read response from server") c
  else if rs_retcode res =? 0 then
    Done tt (c <| c_stdout ::= λ o, o ++ str "job ID " ++ dec (ntohl (rs_jobid res)) ++ [NEWLINE] |>)
  else Fatal (Exit 1) (c <| c_stdout ::= λ o, o ++ str "rejected: " ++ cstr (rs_msg res) ++ [NEWLINE] |>).

Lemma submit_file_ok req0 pw fname nbytes text c :
  length (rq_usernm req0) = USERNM_MAX → length (rq_jobnm req0) = JOBNM_MAX →
  stop false (c_fd c) = None → writable (c_sock c) →
  ∃ c', submit_file req0 pw fname nbytes text c = report (avail false (sk_in (c_sock c))) c' ∧
    sk_out (c_sock c') = sk_out (c_sock c)
      ++ req_bytes (build_req req0 pw fname nbytes text) ++ avail false (c_fd c) ∧
    c_stdout c' = c_stdout c.
Proof.
  intros Hu Hj Hs Hw. unfold submit_file. set (req := build_req _ _ _ _ _).
  pose proof (build_req_wf req0 pw fname nbytes text Hu Hj) as Hwf. fold req in Hwf.
  destruct (c_writen_ok (req_bytes req) c Hw) as (wr & Hwr & Hwr').
  erewrite bind_done by exact Hwr.
  rewrite length_req_bytes by done. rewrite bool_decide_eq_true_2 by done.
  rewrite bind_check_true by done. rewrite bind_gets.
  destruct (send_file_ok (send_fuel c)
    (Client (c_fd c) (Sock (sk_in (c_sock c)) (sk_out (c_sock c) ++ req_bytes req) wr) (c_stdout c)))
    as (evs & wr2 & E); [done|done|unfold send_fuel; cbn [c_fd]; lia|].
  erewrite bind_done by exact E. clear E. cbn [update c_fd c_sock c_stdout sk_in sk_out].
  set (c2 := Client evs _ _). unfold c_readn. unfold mbind at 1, prog_bind at 1.
  cbn [c2 c_sock]. unfold report.
  destruct (Nat.ltb_spec (length (avail false (sk_in (c_sock c)))) SIZEOF_RESP) as [Hl|Hl].
  - pose proof (read_loop_spec false sk_read SIZEOF_RESP SIZEOF_RESP []
      (Sock (sk_in (c_sock c)) ((sk_out (c_sock c) ++ req_bytes req) ++ avail false (c_fd c)) wr2)
      sk_read_reads (le_n _)) as H.
    unfold readn. destruct (read_loop _ _ _ _ _) as [r s']. destruct H as (Hr & Ho & _).
    cbn [sk_in] in Hr. rewrite (take_ge (avail _ _)) in Hr by lia. simpl app in Hr. 
    exists (c2 <| c_sock := s' |>). split; [|split; [|done]].
    + assert (Hr' : match r with IoErr _ => True | IoOk b => length b ≠ SIZEOF_RESP end).
      { rewrite Hr. destruct (avail false (sk_in (c_sock c))); [cbn [SIZEOF_RESP]; by destruct (stop false (sk_in (c_sock c)))|].
        intros Hx. rewrite Hx in Hl. lia. }
      destruct r as [e|b]; [done|]. by rewrite bool_decide_eq_false_2.
    + simpl. rewrite Ho. simpl. by rewrite <- app_assoc.
  - destruct (readn_full SIZEOF_RESP
      (Sock (sk_in (c_sock c)) ((sk_out (c_sock c) ++ req_bytes req) ++ avail false (c_fd c)) wr2) Hl)
      as (s' & -> & _ & Ho).
    exists (c2 <| c_sock := s' |>). split; [|split; [simpl; rewrite Ho; simpl; by rewrite <- app_assoc|done]].
    cbn [sk_in]. rewrite bool_decide_eq_true_2 by (rewrite length_take; lia).
    rewrite bind_check_true by done. by destruct (rs_retcode _ =? 0).
Qed.
