(* ===== verification/Ipp.v ===== *)
(** * The IPP and HTTP headers printd sends to the printer (printer/ipp.h, add_option
    and the header part of printer_thread in printer/printd.c).

    The headers are built by stores into arrays of fixed size; [None] says that a store
    lies outside of the array. *)
From Stdlib Require Import Ascii ZArith Lia.
From stdpp Require Import base strings gmap option list.
From S2P Require Import Prelude CStr Endian PrintReq.

Definition OP_PRINT_JOB : Z := 2.
Definition TAG_OPERATION_ATTR : Z := 1.
Definition TAG_END_OF_ATTR : Z := 3.
Definition TAG_NAMEWOLANG : Z := 66.
Definition TAG_URI : Z := 69.
Definition TAG_CHARSET : Z := 71.
Definition TAG_NATULANG : Z := 72.
Definition TAG_MIMETYPE : Z := 73.
Definition STATCLASS_OK (x : Z) : bool := (0 <=? x) && (x <=? 255).

(** A store into an array. *)
Definition poke (cp : nat) (s b : bytes) : option bytes :=
  if (cp + length s <=? length b)%nat then Some (put_at b cp s) else None.

(** htons(n) as the two bytes of the union. *)
Definition be16 (n : nat) : bytes := le 2 (htons (Z.of_nat n)).

(** [b] is the array, [cp] the position; the new array and position. *)
Definition add_option (b : bytes) (cp : nat) (tag : Z) (optname optval : bytes) :
    option (bytes * nat) :=
  b ← poke cp [to_char tag] b;
  let cp := S cp in
  let n := strlen optname in
  b ← poke cp (be16 n) b;
  let cp := (cp + 2)%nat in
  b ← poke cp (cstr optname ++ [NUL]) b;
  let cp := (cp + n)%nat in
  let n := strlen optval in
  b ← poke cp (be16 n) b;
  let cp := (cp + 2)%nat in
  b ← poke cp (cstr optval ++ [NUL]) b;
  Some (b, cp + n)%nat.

(** The document format and the count of the extra byte. *)
Definition doc_format (flags : Z) : bytes * Z :=
  if negb (Z.land flags PR_TEXT =? 0) then (str "text/plain", 1)
  else (str "application/postscript", 0).

(** The fields of struct ipp_hdr and the tag of the operation attributes. *)
Definition ipp_fields (ibuf : bytes) (jobid : Z) : option bytes :=
  b ← poke 0 [to_char 1] ibuf;
  b ← poke 1 [to_char 1] b;
  b ← poke 2 (le 2 (htons OP_PRINT_JOB)) b;
  b ← poke 4 (le 4 (htonl jobid)) b;
  poke 8 [to_char TAG_OPERATION_ATTR] b.

(** "Set up the IPP header": the array and [ilen]. *)
Definition ipp_header (ibuf : bytes) (jobid : Z) (printer_name usernm jobnm : bytes) (flags : Z) :
    option (bytes * nat) :=
  b ← ipp_fields ibuf jobid;
  '(b, icp) ← add_option b 9 TAG_CHARSET (str "attributes-charset") (str "utf-8");
  '(b, icp) ← add_option b icp TAG_NATULANG (str "attributes-natural-language") (str "en-us");
  let uri := str "http://" ++ cstr printer_name ++ str "/ipp" in
  if (64 <? length uri + 1)%nat then None else
  '(b, icp) ← add_option b icp TAG_URI (str "printer-uri") uri;
  '(b, icp) ← add_option b icp TAG_NAMEWOLANG (str "requesting-user-name") usernm;
  '(b, icp) ← add_option b icp TAG_NAMEWOLANG (str "job-name") jobnm;
  '(b, icp) ← add_option b icp TAG_MIMETYPE (str "document-format") (fst (doc_format flags));
  b ← poke icp [to_char TAG_END_OF_ATTR] b;
  Some (b, S icp).

Definition CRLF : bytes := [to_char 13; to_char 10].

(** sprintf and strcpy at [hcp], which then moves behind the text. *)
Definition put_text (s : bytes) (p : bytes * nat) : option (bytes * nat) :=
  let '(b, hcp) := p in
  b ← poke hcp (s ++ [NUL]) b;
  Some (b, hcp + length s)%nat.

(** "Set up the HTTP header": the array and [hlen]; [len] is the content length. *)
Definition http_header (hbuf : bytes) (len : Z) (printer_name : bytes) : option (bytes * nat) :=
  p ← put_text (str "POST /ipp HTTP/1.1" ++ CRLF) (hbuf, 0%nat);
  p ← put_text (str "Content-Length: " ++ dec len ++ CRLF) p;
  p ← put_text (str "Content-Type: application/ipp" ++ CRLF) p;
  '(b, hcp) ← put_text (str "Host: " ++ cstr printer_name ++ str ":" ++ dec IPP_PORT ++ CRLF) p;
  b ← poke hcp CRLF b;
  Some (b, hcp + 2)%nat.

(** ** What the receiver makes of it *)

Definition be_val (b : bytes) : nat := Z.to_nat (of_le (reverse b)).

(** A field: its length in two bytes and its bytes. *)
Definition parse_field (b : bytes) : option (bytes * bytes) :=
  let n := be_val (take 2 b) in
  let r := drop 2 b in
  if (2 + n <=? length b)%nat then Some (take n r, drop n r) else None.

Record attr := Attr { a_tag : Z; a_name : bytes; a_value : bytes }.

(** The attributes up to the end tag; every attribute takes five bytes at least. *)
Fixpoint parse_attrs (fuel : nat) (b : bytes) : option (list attr) :=
  match fuel, b with
  | S fuel', tag :: b' =>
      if char_u tag =? TAG_END_OF_ATTR then if b' is [] then Some [] else None
      else
        '(name, r) ← parse_field b';
        '(val, r) ← parse_field r;
        rest ← parse_attrs fuel' r;
        Some (Attr (char_u tag) name val :: rest)
  | _, _ => None
  end.

Record ipp_request := IppRequest {
  ir_version : Z * Z; ir_op : Z; ir_id : Z; ir_attrs : list attr }.

(** An IPP request as RFC 2910 lays it out, with one group of operation attributes. *)
Definition parse_request (b : bytes) : option ipp_request :=
  match b with
  | v1 :: v2 :: o1 :: o2 :: i1 :: i2 :: i3 :: i4 :: tag :: rest =>
      if char_u tag =? TAG_OPERATION_ATTR then
        attrs ← parse_attrs (length rest) rest;
        Some (IppRequest (char_u v1, char_u v2) (of_le (reverse [o1; o2]))
                (of_le (reverse [i1; i2; i3; i4])) attrs)
      else None
  | _ => None
  end.

(** ** Stores one behind the other *)

Definition field (s : bytes) : bytes := be16 (length s) ++ s.
Definition option_bytes (tag : Z) (name val : bytes) : bytes :=
  [to_char tag] ++ field name ++ field val.

Definition ipp_options (printer_name usernm jobnm : bytes) (flags : Z) : list (Z * bytes * bytes) :=
  [(TAG_CHARSET, str "attributes-charset", str "utf-8");
   (TAG_NATULANG, str "attributes-natural-language", str "en-us");
   (TAG_URI, str "printer-uri", str "http://" ++ printer_name ++ str "/ipp");
   (TAG_NAMEWOLANG, str "requesting-user-name", usernm);
   (TAG_NAMEWOLANG, str "job-name", jobnm);
   (TAG_MIMETYPE, str "document-format", fst (doc_format flags))].

Definition options_bytes (os : list (Z * bytes * bytes)) : bytes :=
  concat (map (λ '(t, n, v), option_bytes t n v) os).

Definition ipp_bytes (jobid : Z) (printer_name usernm jobnm : bytes) (flags : Z) : bytes :=
  [to_char 1; to_char 1] ++ le 2 (htons OP_PRINT_JOB) ++ le 4 (htonl jobid)
  ++ [to_char TAG_OPERATION_ATTR] ++ options_bytes (ipp_options printer_name usernm jobnm flags)
  ++ [to_char TAG_END_OF_ATTR].

Definition http_bytes (len : Z) (printer_name : bytes) : bytes :=
  str "POST /ipp HTTP/1.1" ++ CRLF ++ str "Content-Length: " ++ dec len ++ CRLF
  ++ str "Content-Type: application/ipp" ++ CRLF
  ++ str "Host: " ++ printer_name ++ str ":" ++ dec IPP_PORT ++ CRLF ++ CRLF.

(** The array [b] of size [sz] holds [s] at its beginning. *)
Definition holds (sz : nat) (b s : bytes) : Prop := length b = sz ∧ take (length s) b = s.

Lemma holds_split sz b s : holds sz b s → ∃ r, b = s ++ r ∧ (length s + length r = sz)%nat.
Proof.
  intros [Hb Hs]. exists (drop (length s) b). split; [by rewrite <- Hs at 1; rewrite take_drop|].
  rewrite length_drop. apply (f_equal length) in Hs. rewrite length_take in Hs. lia.
Qed.

Lemma holds_app sz s r : (length s + length r = sz)%nat → holds sz (s ++ r) s.
Proof. intros. split; [by rewrite length_app|by rewrite take_app_length]. Qed.

Lemma holds_weaken sz b s t : holds sz b (s ++ t) → holds sz b s.
Proof.
  intros (r & -> & Hl)%holds_split. rewrite <- app_assoc. apply holds_app.
  rewrite length_app in Hl |- *. lia.
Qed.

(** A store behind what the array holds succeeds when there is room, and only then. *)
Lemma poke_end sz b (s t : bytes) : holds sz b s →
  (length s + length t <= sz)%nat → ∃ b' : bytes, poke (length s) t b = Some b' ∧ holds sz b' (s ++ t).
Proof.
  intros (r & -> & Hl)%holds_split Hr. unfold poke.
  rewrite (proj2 (Nat.leb_le _ _)) by (rewrite length_app; lia). eexists. split; [done|].
  rewrite <- (take_drop (length t) r). rewrite put_at_split by (done || (rewrite length_take; lia)).
  rewrite app_assoc. apply holds_app. rewrite length_app, length_drop. lia.
Qed.

Lemma poke_none sz b (s t : bytes) : length b = sz → (sz < length s + length t)%nat → poke (length s) t b = None.
Proof. intros <- Hl. unfold poke. by rewrite (proj2 (Nat.leb_gt _ _)) by lia. Qed.

Lemma length_be16 n : length (be16 n) = 2%nat.
Proof. apply length_le. Qed.
#[export] Hint Rewrite length_be16 : len.

Lemma length_field s : length (field s) = (2 + length s)%nat.
Proof. unfold field. by autorewrite with len. Qed.
Lemma length_option_bytes t n v : length (option_bytes t n v) = (5 + length n + length v)%nat.
Proof. unfold option_bytes. rewrite !length_app, !length_field. simpl. lia. Qed.
#[export] Hint Rewrite length_field length_option_bytes : len.

(** add_option appends the attribute, given room for it and for strcpy's NUL. *)
Lemma add_option_spec sz b s tag n' v' :
  let n := cstr n' in let v := cstr v' in holds sz b s →
  (length s + length (option_bytes tag n v) < sz)%nat →
  ∃ b' : bytes, add_option b (length s) tag n' v'
    = Some (b', length (s ++ option_bytes tag n v)) ∧ holds sz b' (s ++ option_bytes tag n v).
Proof.
  intros n v Hb Hl. rewrite length_option_bytes in Hl. unfold add_option, strlen.
  fold n v.
  destruct (poke_end sz b s [to_char tag] Hb) as (b1 & -> & H1); [simpl; lia|]. cbn [mbind option_bind].
  replace (S (length s)) with (length (s ++ [to_char tag])) by (rewrite length_app; simpl; lia).
  destruct (poke_end _ _ _ (be16 (length n)) H1) as (b2 & -> & H2); [autorewrite with len; simpl; lia|].
  cbn [mbind option_bind].
  replace (length (s ++ [to_char tag]) + 2)%nat
    with (length ((s ++ [to_char tag]) ++ be16 (length n))) by (autorewrite with len; simpl; lia).
  destruct (poke_end _ _ _ (n ++ [NUL]) H2) as (b3 & -> & H3); [autorewrite with len; simpl; lia|].
  cbn [mbind option_bind]. rewrite app_assoc in H3. apply holds_weaken in H3.
  rewrite <- length_app.
  destruct (poke_end _ _ _ (be16 (length v)) H3) as (b4 & -> & H4); [autorewrite with len; simpl; lia|].
  cbn [mbind option_bind].
  replace (length (((s ++ [to_char tag]) ++ be16 (length n)) ++ n) + 2)%nat
    with (length ((((s ++ [to_char tag]) ++ be16 (length n)) ++ n) ++ be16 (length v)))
    by (autorewrite with len; simpl; lia).
  destruct (poke_end _ _ _ (v ++ [NUL]) H4) as (b5 & -> & H5); [autorewrite with len; simpl; lia|].
  cbn [mbind option_bind]. rewrite app_assoc in H5. apply holds_weaken in H5.
  assert (E : ((((s ++ [to_char tag]) ++ be16 (length n)) ++ n) ++ be16 (length v)) ++ v
    = s ++ option_bytes tag n v).
  { unfold option_bytes, field. by rewrite <- !app_assoc. }
  rewrite E in H5. exists b5. split; [|done]. by rewrite <- length_app, E.
Qed.

(** What a successful store and a successful add_option say about the position. *)
Lemma poke_inv cp s b b' : poke cp s b = Some b' →
  (cp + length s <= length b)%nat ∧ length b' = length b.
Proof.
  unfold poke. case_match eqn:E; [|done]. intros [= <-]. apply Nat.leb_le in E.
  split; [done|]. unfold put_at. rewrite length_blit. lia.
Qed.

Lemma add_option_inv b cp tag n v b' cp' : add_option b cp tag n v = Some (b', cp') →
  cp' = (cp + (5 + strlen n + strlen v))%nat ∧ length b' = length b ∧ (cp' < length b)%nat.
Proof.
  unfold add_option. intros E.
  apply bind_Some in E as (b1 & [H1 L1]%poke_inv & E).
  apply bind_Some in E as (b2 & [H2 L2]%poke_inv & E).
  apply bind_Some in E as (b3 & [H3 L3]%poke_inv & E).
  apply bind_Some in E as (b4 & [H4 L4]%poke_inv & E).
  apply bind_Some in E as (b5 & [H5 L5]%poke_inv & E).
  injection E as <- <-. rewrite !length_app, ?length_be16 in *. simpl length in *.
  unfold strlen in *. repeat split; lia.
Qed.

(** ** The IPP header *)

Lemma length_ipp_bytes jobid pn u j fl :
  length (ipp_bytes jobid pn u j fl)
  = (160 + length pn + length u + length j + length (fst (doc_format fl)))%nat.
Proof.
  unfold ipp_bytes, ipp_options, options_bytes. cbn [map concat].
  rewrite !length_app, !length_le, !length_option_bytes. rewrite !length_app. simpl length. lia.
Qed.

(** The part before the options. *)
Definition ipp_start (jobid : Z) : bytes :=
  [to_char 1; to_char 1] ++ le 2 (htons OP_PRINT_JOB) ++ le 4 (htonl jobid)
  ++ [to_char TAG_OPERATION_ATTR].

Lemma no_nul_uri pn : no_nul (str "http://" ++ cstr pn ++ str "/ipp").
Proof.
  apply no_nul_app. split; [no_nul_const|]. apply no_nul_app. split; [apply no_nul_cstr|no_nul_const].
Qed.

Lemma no_nul_format fl : no_nul (fst (doc_format fl)).
Proof. unfold doc_format. case_match; no_nul_const. Qed.

Lemma ipp_fields_spec ibuf jobid : length ibuf = IBUFSZ →
  ∃ b : bytes, ipp_fields ibuf jobid = Some b ∧ holds IBUFSZ b (ipp_start jobid).
Proof.
  intros Hb. unfold ipp_fields. assert (H0 : holds IBUFSZ ibuf []) by done.
  assert (Hroom : ∀ n, (n <= 9)%nat → (n <= IBUFSZ)%nat) by (unfold IBUFSZ; lia).
  destruct (poke_end _ _ _ [to_char 1] H0) as (b1 & E1 & H1); [apply Hroom; simpl; lia|].
  change (length []) with 0%nat in E1. rewrite E1. cbn [mbind option_bind].
  destruct (poke_end _ _ _ [to_char 1] H1) as (b2 & E2 & H2); [apply Hroom; simpl; lia|].
  change (length ([] ++ [to_char 1])) with 1%nat in E2. rewrite E2. cbn [mbind option_bind].
  destruct (poke_end _ _ _ (le 2 (htons OP_PRINT_JOB)) H2) as (b3 & E3 & H3); [apply Hroom; simpl; lia|].
  change (length (([] ++ [to_char 1]) ++ [to_char 1])) with 2%nat in E3. rewrite E3. cbn [mbind option_bind].
  destruct (poke_end _ _ _ (le 4 (htonl jobid)) H3) as (b4 & E4 & H4); [apply Hroom; simpl; lia|].
  change (length ((([] ++ [to_char 1]) ++ [to_char 1]) ++ le 2 (htons OP_PRINT_JOB))) with 4%nat in E4.
  rewrite E4. cbn [mbind option_bind].
  destruct (poke_end _ _ _ [to_char TAG_OPERATION_ATTR] H4) as (b5 & E5 & H5); [apply Hroom; simpl; lia|].
  by exists b5.
Qed.

(** One option more; the room is what the whole header needs. *)
Ltac room Hl := autorewrite with len; simpl length in Hl |- *; unfold IBUFSZ in *; lia.
Ltac next_option H Hl :=
  match goal with
  | |- context [add_option _ _ ?t ?n ?v] =>
      let b := fresh "b" in let H' := fresh "H" in
      let E := fresh "E" in
      destruct (add_option_spec _ _ _ t n v H) as (b & E & H');
      [rewrite ?(cstr_id _ (no_nul_uri _)), ?(cstr_id _ (no_nul_format _)); room Hl
      |rewrite E; clear E H; rename H' into H;
       rewrite ?(cstr_id _ (no_nul_uri _)), ?(cstr_id _ (no_nul_format _)) in *;
       cbn [mbind option_bind]]
  end.

Lemma ipp_header_spec ibuf jobid pn u j fl :
  length ibuf = IBUFSZ → (length (cstr pn) <= 52)%nat →
  (length (ipp_bytes jobid (cstr pn) (cstr u) (cstr j) fl) <= IBUFSZ)%nat →
  ∃ b : bytes, ipp_header ibuf jobid pn u j fl
      = Some (b, length (ipp_bytes jobid (cstr pn) (cstr u) (cstr j) fl)) ∧
    holds IBUFSZ b (ipp_bytes jobid (cstr pn) (cstr u) (cstr j) fl).
Proof.
  intros Hb Hpn Hl.
  pose proof Hl as Hl'. unfold ipp_bytes, ipp_options, options_bytes in Hl'. cbn [map concat] in Hl'.
  rewrite !length_app, !length_le, !length_option_bytes in Hl'. rewrite !length_app in Hl'.
  unfold ipp_header. destruct (ipp_fields_spec ibuf jobid Hb) as (b & -> & H).
  cbn [mbind option_bind]. change 9%nat with (length (ipp_start jobid)).
  assert (Hst : length (ipp_start jobid) = 9%nat) by done.
  next_option H Hl'. next_option H Hl'.
  rewrite (proj2 (Nat.ltb_ge _ _)) by (rewrite !length_app; simpl; lia).
  next_option H Hl'. next_option H Hl'. next_option H Hl'. next_option H Hl'.
  destruct (poke_end _ _ _ [to_char TAG_END_OF_ATTR] H) as (b' & -> & H'); [room Hl'|].
  cbn [mbind option_bind].
  match type of H' with holds _ _ ?x =>
    assert (E : x = ipp_bytes jobid (cstr pn) (cstr u) (cstr j) fl) end.
  { unfold ipp_bytes, ipp_options, options_bytes, ipp_start. cbn [map concat].
    rewrite <- !app_assoc. done. }
  rewrite E in H'. exists b'. split; [|done]. rewrite <- E, (length_app _ [_]). simpl length.
  do 2 f_equal. lia.
Qed.

(** The header is only built within the arrays when it fits. *)
Lemma ipp_header_inv ibuf jobid pn u j fl b l :
  length ibuf = IBUFSZ → ipp_header ibuf jobid pn u j fl = Some (b, l) →
  (length (cstr pn) <= 52)%nat ∧
  (length (ipp_bytes jobid (cstr pn) (cstr u) (cstr j) fl) <= IBUFSZ)%nat.
Proof.
  intros Hb E. rewrite length_ipp_bytes. unfold ipp_header in E.
  destruct (ipp_fields_spec ibuf jobid Hb) as (b0 & E0 & [H0 _]). rewrite E0 in E.
  cbn [mbind option_bind] in E.
  apply bind_Some in E as ([b1 c1] & (-> & L1 & _)%add_option_inv & E).
  apply bind_Some in E as ([b2 c2] & (-> & L2 & _)%add_option_inv & E).
  destruct (Nat.ltb_spec 64 (length (str "http://" ++ cstr pn ++ str "/ipp") + 1)) as [|Hu]; [done|].
  apply bind_Some in E as ([b3 c3] & (-> & L3 & _)%add_option_inv & E).
  apply bind_Some in E as ([b4 c4] & (-> & L4 & _)%add_option_inv & E).
  apply bind_Some in E as ([b5 c5] & (-> & L5 & _)%add_option_inv & E).
  apply bind_Some in E as ([b6 c6] & (-> & L6 & _)%add_option_inv & E).
  apply bind_Some in E as (b7 & [H7 L7]%poke_inv & _).
  rewrite !length_app in Hu. simpl length in *. unfold strlen in H7.
  rewrite (cstr_id _ (no_nul_uri pn)), (cstr_id _ (no_nul_format fl)) in H7.
  change (length (cstr (str "attributes-charset"))) with 18%nat in H7.
  change (length (cstr (str "attributes-natural-language"))) with 27%nat in H7.
  change (length (cstr (str "utf-8"))) with 5%nat in H7.
  change (length (cstr (str "en-us"))) with 5%nat in H7.
  change (length (cstr (str "printer-uri"))) with 11%nat in H7.
  change (length (cstr (str "requesting-user-name"))) with 20%nat in H7.
  change (length (cstr (str "job-name"))) with 8%nat in H7.
  change (length (cstr (str "document-format"))) with 15%nat in H7.
  rewrite !length_app in H7. simpl length in H7. unfold IBUFSZ in *. lia.
Qed.

(** ** The HTTP header *)

Lemma put_text_spec sz b s t : holds sz b s → (length s + length t < sz)%nat →
  ∃ b' : bytes, put_text t (b, length s) = Some (b', length (s ++ t)) ∧ holds sz b' (s ++ t).
Proof.
  intros Hb Hl. unfold put_text. destruct (poke_end _ _ _ (t ++ [NUL]) Hb) as (b' & -> & H).
  { rewrite length_app. simpl. lia. }
  exists b'. cbn [mbind option_bind]. rewrite length_app. split; [done|].
  rewrite app_assoc in H. by apply holds_weaken in H.
Qed.

Lemma http_header_spec hbuf len pn :
  length hbuf = HBUFSZ → (length (http_bytes len (cstr pn)) <= HBUFSZ)%nat →
  ∃ b : bytes, http_header hbuf len pn = Some (b, length (http_bytes len (cstr pn))) ∧
    holds HBUFSZ b (http_bytes len (cstr pn)).
Proof.
  intros Hb Hl. unfold http_header.
  pose proof Hl as Hl'. unfold http_bytes in Hl'. rewrite !length_app in Hl'.
  change (length CRLF) with 2%nat in Hl'.
  assert (H0 : holds HBUFSZ hbuf []) by done.
  assert (Hn : ∀ a b c : bytes, length (a ++ b ++ c) = (length a + length b + length c)%nat).
  { intros. rewrite !length_app. lia. }
  destruct (put_text_spec _ _ _ (str "POST /ipp HTTP/1.1" ++ CRLF) H0) as (b1 & E1 & H1).
  { rewrite length_app. change (length CRLF) with 2%nat. change (length []) with 0%nat. unfold HBUFSZ in *. lia. }
  change (length []) with 0%nat in E1. rewrite E1. cbn [mbind option_bind].
  destruct (put_text_spec _ _ _ (str "Content-Length: " ++ dec len ++ CRLF) H1) as (b2 & -> & H2).
  { rewrite !length_app. change (length CRLF) with 2%nat. change (length []) with 0%nat. unfold HBUFSZ in *. lia. }
  cbn [mbind option_bind].
  destruct (put_text_spec _ _ _ (str "Content-Type: application/ipp" ++ CRLF) H2) as (b3 & -> & H3).
  { rewrite !length_app. change (length CRLF) with 2%nat. change (length []) with 0%nat. unfold HBUFSZ in *. lia. }
  cbn [mbind option_bind].
  destruct (put_text_spec _ _ _ (str "Host: " ++ cstr pn ++ str ":" ++ dec IPP_PORT ++ CRLF) H3) as (b4 & -> & H4).
  { rewrite !length_app. change (length CRLF) with 2%nat. change (length []) with 0%nat. unfold HBUFSZ in *. lia. }
  cbn [mbind option_bind].
  destruct (poke_end _ _ _ CRLF H4) as (b5 & -> & H5).
  { rewrite !length_app. change (length CRLF) with 2%nat. change (length []) with 0%nat. unfold HBUFSZ in *. lia. }
  cbn [mbind option_bind].
  match type of H5 with holds _ _ ?x => assert (E : x = http_bytes len (cstr pn)) end.
  { unfold http_bytes. rewrite <- !app_assoc. done. }
  rewrite E in H5. exists b5. split; [|done]. rewrite <- E, (length_app _ CRLF). done.
Qed.

(** ** Reading the header back *)

Lemma be_val_be16 n : Z.of_nat n < 65536 → be_val (be16 n) = n.
Proof.
  intros Hn. unfold be_val, be16. rewrite le_htons, reverse_involutive, of_le_le.
  rewrite Z.mod_small; [by rewrite Nat2Z.id|]. change (256 ^ Z.of_nat 2) with 65536. lia.
Qed.

Lemma parse_field_app s r : Z.of_nat (length s) < 65536 → parse_field (field s ++ r) = Some (s, r).
Proof.
  intros Hs. unfold parse_field, field. rewrite <- app_assoc.
  rewrite take_app_length' by by rewrite length_be16. rewrite drop_app_length' by by rewrite length_be16.
  rewrite be_val_be16 by done. rewrite (proj2 (Nat.leb_le _ _)) by (autorewrite with len; lia).
  by rewrite take_app_length, drop_app_length.
Qed.

(** An attribute that the format can carry. *)
Definition option_ok (o : Z * bytes * bytes) : Prop :=
  3 < o.1.1 < 256 ∧ Z.of_nat (length o.1.2) < 65536 ∧ Z.of_nat (length o.2) < 65536.

Definition attr_of (o : Z * bytes * bytes) : attr := Attr o.1.1 o.1.2 o.2.

Lemma parse_attrs_options fuel os : Forall option_ok os →
  (length (options_bytes os) < fuel)%nat →
  parse_attrs fuel (options_bytes os ++ [to_char TAG_END_OF_ATTR]) = Some (attr_of <$> os).
Proof.
  intros Hok. revert fuel. induction Hok as [|[[t n] v] os (Ht & Hn & Hv) _ IH]; intros fuel Hf.
  { by destruct fuel; [simpl in Hf; lia|]. }
  cbn [fst snd] in *. unfold options_bytes in *. cbn [map concat] in *.
  rewrite length_app, length_option_bytes in Hf. destruct fuel as [|fuel]; [lia|].
  unfold option_bytes at 1. rewrite <- !app_assoc. cbn [app parse_attrs].
  rewrite char_u_to_char, Z.mod_small by lia.
  rewrite (proj2 (Z.eqb_neq t TAG_END_OF_ATTR)) by (unfold TAG_END_OF_ATTR; lia).
  rewrite parse_field_app by done. cbn [mbind option_bind].
  rewrite parse_field_app by done. cbn [mbind option_bind].
  rewrite IH by lia. done.
Qed.

Lemma parse_request_ipp_bytes jobid pn u j fl :
  Z.of_nat (length pn) < 60000 → Z.of_nat (length u) < 65536 → Z.of_nat (length j) < 65536 →
  parse_request (ipp_bytes jobid pn u j fl)
  = Some (IppRequest (1, 1) OP_PRINT_JOB (jobid mod 2 ^ 32) (attr_of <$> ipp_options pn u j fl)).
Proof.
  intros Hpn Hu Hj. unfold ipp_bytes. rewrite le_htons, le_htonl.
  change (256 ^ 4) with (2 ^ 32).
  pose proof (of_le_le 4 jobid) as Hid. pose proof (length_le 4 jobid) as Hl.
  destruct (le 4 jobid) as [|i1 [|i2 [|i3 [|i4 [|]]]]] eqn:Ele; try done.
  change (reverse [i1; i2; i3; i4]) with [i4; i3; i2; i1].
  change (reverse (le 2 OP_PRINT_JOB)) with [to_char 0; to_char 2].
  cbn [app parse_request]. change (char_u (to_char TAG_OPERATION_ATTR) =? TAG_OPERATION_ATTR) with true.
  cbn iota. rewrite parse_attrs_options.
  - cbn [mbind option_bind]. do 2 f_equal. exact Hid.
  - repeat constructor; cbn [fst snd]; rewrite ?length_app; try (cbn; lia); try done.
    destruct (doc_format fl) as [f e] eqn:Ef. unfold doc_format in Ef.
    case_match; injection Ef as <- <-; cbn; lia.
  - rewrite length_app. simpl. lia.
Qed.

(** ** Properties *)

(** C38: What printer_thread puts in front of a document is the IPP request it means:
    reading the [ilen] bytes of the array back by the layout of RFC 2910 gives version
    1.1, the operation Print-Job, the job id as request id and the six attributes with
    the values of the printer, the user, the job and the document format. *)
Theorem ipp_header_roundtrip ibuf jobid pn u j fl b ilen :
  length ibuf = IBUFSZ → ipp_header ibuf jobid pn u j fl = Some (b, ilen) →
  parse_request (take ilen b)
  = Some (IppRequest (1, 1) OP_PRINT_JOB (jobid mod 2 ^ 32)
            (attr_of <$> ipp_options (cstr pn) (cstr u) (cstr j) fl)).
Proof.
  intros Hb E. destruct (ipp_header_inv _ _ _ _ _ _ _ _ Hb E) as [Hpn Hl].
  destruct (ipp_header_spec ibuf jobid pn u j fl Hb Hpn Hl) as (b' & E' & _ & Ht).
  rewrite E in E'. apply Some_inj in E'. apply pair_equal_spec in E' as [-> ->]. rewrite Ht.
  rewrite length_ipp_bytes in Hl. unfold IBUFSZ in Hl.
  apply parse_request_ipp_bytes; lia.
Qed.

(** C39: The exact bound of the header: with the 512 bytes of [ibuf] and the 64 of
    [str] the stores stay inside the arrays if and only if the printer's name has at
    most 52 characters and name, user, job and format together at most 352. *)
Theorem ipp_header_bounds ibuf jobid pn u j fl :
  length ibuf = IBUFSZ →
  is_Some (ipp_header ibuf jobid pn u j fl) ↔
    (length (cstr pn) <= 52)%nat ∧
    (length (cstr pn) + length (cstr u) + length (cstr j) + length (fst (doc_format fl)) <= 352)%nat.
Proof.
  intros Hb. pose proof (length_ipp_bytes jobid (cstr pn) (cstr u) (cstr j) fl) as Hlen. split.
  - intros [[b l] E]. destruct (ipp_header_inv _ _ _ _ _ _ _ _ Hb E) as [Hpn Hl].
    unfold IBUFSZ in Hl. lia.
  - intros [Hpn Hl]. destruct (ipp_header_spec ibuf jobid pn u j fl Hb Hpn) as (b & -> & _); [|done].
    unfold IBUFSZ. lia.
Qed.

Definition ibuf_ex : bytes := replicate IBUFSZ NUL.

Lemma ipp_header_roundtrip_witness :
  ∃ b ilen, ipp_header ibuf_ex 7 (str "lp") (str "sar") (str "a.txt") PR_TEXT = Some (b, ilen) ∧
    parse_request (take ilen b) = Some (IppRequest (1, 1) OP_PRINT_JOB 7
      (attr_of <$> ipp_options (str "lp") (str "sar") (str "a.txt") PR_TEXT)).
Proof.
  destruct (ipp_header ibuf_ex 7 (str "lp") (str "sar") (str "a.txt") PR_TEXT) as [[b ilen]|] eqn:E;
    [|by vm_compute in E].
  exists b, ilen. split; [done|].
  exact (ipp_header_roundtrip ibuf_ex 7 (str "lp") (str "sar") (str "a.txt") PR_TEXT b ilen eq_refl E).
Defined.

(** The longest names print lets through overflow the array for a printer whose name
    has 13 characters. *)
Lemma ipp_header_bounds_witness :
  length ibuf_ex = IBUFSZ ∧
  ¬ is_Some (ipp_header ibuf_ex 7 (replicate 13 "p"%char) (replicate 63 "u"%char)
               (replicate 255 "j"%char) 0).
Proof.
  split; [reflexivity|]. intros H.
  apply (ipp_header_bounds ibuf_ex 7 (replicate 13 "p"%char) (replicate 63 "u"%char)
           (replicate 255 "j"%char) 0 eq_refl) in H as [_ H].
  vm_compute in H. lia.
Defined.
