(* ===== verification/PrinterStatus.v ===== *)
(** * Reading the printer's answer: readmore and printer_status of printer/printd.c.

    The answer is read into a malloc'ed array that the code walks with a pointer; a
    position in the array stands for the pointer, and a load or store outside of the
    array is undefined.  What malloc and realloc leave in the array is arbitrary. *)
From Stdlib Require Import Ascii ZArith Lia.
From stdpp Require Import base strings gmap option list.
From S2P Require Import Prelude CStr Sock Endian PrintReq Ipp.

Record pst := Pst {
  p_sock : sock;
  p_bp : bytes;     (* the array; its length is bufsz *)
  p_datsz : Z }.
#[export] Instance pst_rebuild : Rebuild pst := λ s, Pst (p_sock s) (p_bp s) (p_datsz s).

Definition HTTP_INFO (x : Z) : bool := (100 <=? x) && (x <=? 199).
Definition HTTP_SUCCESS (x : Z) : bool := (200 <=? x) && (x <=? 299).

(** [*cp] and [*cp = c]. *)
Definition load (cp : nat) : prog pst char := λ s,
  match p_bp s !! cp with Some c => Done c s | None => Undef s end.
Definition store (cp : nat) (c : char) : prog pst unit := λ s,
  if (cp <? length (p_bp s))%nat then Done tt (s <| p_bp ::= λ b, set_at b cp c |>) else Undef s.

(** [while (p( *cp)) cp++;]: beyond the array there is nothing to load. *)
Fixpoint scan (fuel : nat) (p : char → bool) (cp : nat) : prog pst nat :=
  match fuel with
  | O => λ _, NoFuel
  | S f => c ← load cp; if p c then scan f p (S cp) else mret cp
  end.
Definition scan_while (p : char → bool) (cp : nat) : prog pst nat :=
  fuel ← gets (λ s, S (length (p_bp s))); scan fuel p cp.

Definition CR : char := to_char 13.
Definition in_line (c : char) : bool := negb (bool_decide (c = CR)) && negb (bool_decide (c = NEWLINE)).

(** [strncasecmp(cp, s, strlen(s)) == 0]. *)
Fixpoint ncase_at (cp : nat) (s : bytes) : prog pst bool :=
  match s with
  | [] => mret true
  | x :: s' =>
      c ← load cp;
      if bool_decide (tolower c = tolower x) then ncase_at (S cp) s' else mret false
  end.

(** readmore: the offset behind the new data, or -1; [junk] is what realloc leaves. *)
Definition readmore (junk : bytes) (off : nat) : prog pst Z := λ s,
  let s := if (length (p_bp s) <=? off)%nat then s <| p_bp ::= λ b, b ++ junk |> else s in
  let '(r, k) := tread (length (p_bp s) - off) (p_sock s) in
  let s := s <| p_sock := k |> in
  match r with
  | IoErr _ | IoOk [] => Done (-1) s
  | IoOk b => Done (Z.of_nat off + Z.of_nat (length b)) (s <| p_bp ::= λ a, put_at a off b |>)
  end.

(** [if (i >= datsz) ...]: get more of the header; [false] for [goto out]. *)
Definition more_header (junk : bytes) (need : bool) (i : nat) : prog pst bool :=
  if need then
    nr ← readmore junk i;
    if nr <? 0 then mret false
    else modify (λ s, s <| p_datsz ::= λ d, d + nr |>) ;; mret true
  else mret true.

Definition CONTENT_LENGTH : bytes := str "Content-Length:".

(** [while ( *cp != 'C' && *cp != 'c' && i < datsz)] *)
Definition not_c (c : char) : bool := negb (bool_decide (c = "C"%char)) && negb (bool_decide (c = "c"%char)).
Fixpoint seek_c (fuel : nat) (i : nat) : prog pst nat :=
  match fuel with
  | O => λ _, NoFuel
  | S f =>
      c ← load i;
      datsz ← gets p_datsz;
      if not_c c && (Z.of_nat i <? datsz) then seek_c f (S i) else mret i
  end.

(** The search for the Content-Length from position [i] on: the position behind it and
    its value, [None] for [goto out].  [cp] is [bp + i] throughout. *)
Fixpoint find_length (fuel : nat) (junk : bytes) (i : nat) : prog pst (option (nat * Z)) :=
  match fuel with
  | O => λ _, NoFuel
  | S f =>
      n ← gets (λ s, S (length (p_bp s)));
      i ← seek_c n i;
      datsz ← gets p_datsz;
      ok ← more_header junk (datsz <=? Z.of_nat i) i;
      if negb ok then mret None
      else
        hit ← ncase_at i CONTENT_LENGTH;
        if (hit : bool) then
          contentlen ← scan_while isspace (i + 15)%nat;
          cp ← scan_while isdigit contentlen;
          store cp NUL ;;
          len ← gets (λ s, atoi (drop contentlen (p_bp s)));
          mret (Some (S cp, len))
        else find_length f junk (S i)
  end.

(** [while (i < datsz - 2)]: the blank line, looked for in the data there is. *)
Fixpoint seek_blank (fuel : nat) (i : nat) : prog pst (nat * bool) :=
  match fuel with
  | O => λ _, NoFuel
  | S f =>
      datsz ← gets p_datsz;
      if Z.of_nat i <? datsz - 2 then
        c ← load i;
        hit ← (if bool_decide (c = NEWLINE) then
                 c1 ← load (S i);
                 if bool_decide (c1 = CR) then
                   c2 ← load (S (S i)); mret (bool_decide (c2 = NEWLINE))
                 else mret false
               else mret false);
        if (hit : bool) then mret (i + 3, true)%nat else seek_blank f (S i)
      else mret (i, false)
  end.

(** [while (!found)] *)
Fixpoint find_body (fuel : nat) (junk : bytes) (i : nat) : prog pst (option nat) :=
  match fuel with
  | O => λ _, NoFuel
  | S f =>
      n ← gets (λ s, S (length (p_bp s)));
      '(i, found) ← seek_blank n i;
      datsz ← gets p_datsz;
      ok ← more_header junk (datsz <=? Z.of_nat i) i;
      if negb ok then mret None
      else if (found : bool) then mret (Some i) else find_body f junk i
  end.

Definition load_n (cp n : nat) : prog pst bytes := λ s,
  if (cp + n <=? length (p_bp s))%nat then Done (slice cp n (p_bp s)) s else Undef s.

(** The IPP part of the answer: from "HTTP request was okay" on. *)
Definition ipp_part (fuel : nat) (junk : bytes) (jobid : Z) (cp : nat) : prog pst Z :=
  o ← find_length fuel junk cp;
  match o with
  | None => mret 0
  | Some (i, len) =>
      datsz ← gets p_datsz;
      ok ← more_header junk (datsz <=? Z.of_nat i) i;
      if negb ok then mret 0
      else
        o ← find_body fuel junk i;
        match o with
        | None => mret 0
        | Some i =>
            datsz ← gets p_datsz;
            ok ← more_header junk (datsz - Z.of_nat i <? len) i;
            if negb ok then mret 0
            else
              hp ← load_n i 8;
              let stat := ntohs (of_le (slice 2 2 hp)) in
              let id := wrap_s 32 (ntohl (of_le (slice 4 4 hp))) in
              if negb (id =? jobid) then mret 0
              else mret (if STATCLASS_OK stat then 1 else 0)
        end
  end.

(** log_msg(bp): the answer is the format; the model covers answers without
    conversions. *)
Definition log_bad_format : prog pst unit := λ s,
  if bool_decide (NUL ∈ p_bp s ∧ "%"%char ∉ cstr (p_bp s)) then Done tt s else Undef s.

Fixpoint printer_loop (fuel : nat) (junk : bytes) (jobid : Z) : prog pst Z :=
  match fuel with
  | O => λ _, NoFuel
  | S f =>
      r ← (λ s, let '(r, k) := tread (length (p_bp s)) (p_sock s) in Done r (s <| p_sock := k |>));
      match r with
      | IoErr _ | IoOk [] => mret 0
      | IoOk b =>
          modify (λ s, s <| p_bp ::= λ a, put_at a 0 b |> <| p_datsz := Z.of_nat (length b) |>) ;;
          statcode ← scan_while isspace 8;
          cp ← scan_while isdigit statcode;
          if (cp =? statcode)%nat then log_bad_format ;; printer_loop f junk jobid
          else
            store cp NUL ;;
            cp ← scan_while in_line (S cp);
            store cp NUL ;;
            code ← gets (λ s, atoi (drop statcode (p_bp s)));
            if HTTP_INFO code then printer_loop f junk jobid
            else if negb (HTTP_SUCCESS code) then
              store (length b) NUL ;; mret 0
            else ipp_part f junk jobid cp
      end
  end.

(** printer_status: the array malloc returns holds [junk]. *)
Definition printer_status (fuel : nat) (junk : bytes) (jobid : Z) (sfd : sock) : outcome pst Z :=
  printer_loop fuel junk jobid (Pst sfd junk 0).

(** ** What the answer says *)

Fixpoint drop_while (p : char → bool) (b : bytes) : bytes :=
  match b with c :: b' => if p c then drop_while p b' else b | [] => [] end.
Fixpoint take_while (p : char → bool) (b : bytes) : bytes :=
  match b with c :: b' => if p c then c :: take_while p b' else [] | [] => [] end.

(** Equality up to the case of letters, of a beginning. *)
Fixpoint ncase_prefix (b s : bytes) : bool :=
  match s with
  | [] => true
  | x :: s' =>
      match b with
      | c :: b' => if bool_decide (tolower c = tolower x) then ncase_prefix b' s' else false
      | [] => false
      end
  end.

(** The text behind the first place where [p] holds. *)
Fixpoint search (p : bytes → bool) (b : bytes) : option bytes :=
  if p b then Some b else match b with c :: b' => search p b' | [] => None end.

Definition blank_line (b : bytes) : bool :=
  match b with
  | c :: c1 :: c2 :: _ => bool_decide (c = NEWLINE ∧ c1 = CR ∧ c2 = NEWLINE)
  | _ => false
  end.

(** The status code, and the text from the end of the status line on. *)
Definition parse_status (r : bytes) : option (Z * bytes) :=
  let t := drop_while isspace (drop 8 r) in
  match take_while isdigit t, drop_while isdigit t with
  | (_ :: _) as ds, _ :: t =>
      match drop_while in_line t with
      | (_ :: _) as t => Some (atoi ds, t)
      | [] => None
      end
  | _, _ => None
  end.

(** The length and the body. *)
Definition parse_body (t : bytes) : option (Z * bytes) :=
  t ← search (λ b, ncase_prefix b CONTENT_LENGTH) t;
  let t := drop_while isspace (drop 15 t) in
  match drop_while isdigit t with
  | [] => None
  | _ :: t' =>
      t' ← search blank_line t';
      Some (atoi (take_while isdigit t), drop 3 t')
  end.

(** The verdict on an IPP answer to the job. *)
Definition ipp_ok (jobid : Z) (body : bytes) : bool :=
  (wrap_s 32 (of_le (reverse (slice 4 4 body))) =? jobid)
  && STATCLASS_OK (of_le (reverse (slice 2 2 body))).

(** ** The walk over an answer that came in one piece *)

Implicit Types (s : pst) (pre t u jk : bytes).

Lemma take_drop_while p t : take_while p t ++ drop_while p t = t.
Proof. induction t as [|c t IH]; simpl; [done|]. destruct (p c); [|done]. simpl. by rewrite IH. Qed.

Lemma take_while_all p t : Forall (λ c, p c = true) (take_while p t).
Proof. induction t as [|c t IH]; simpl; [done|]. destruct (p c) eqn:E; by constructor. Qed.

Lemma drop_while_hd p t c u : drop_while p t = c :: u → p c = false.
Proof.
  induction t as [|x t IH]; simpl; [done|]. destruct (p x) eqn:E; [done|]. by intros [= -> ->].
Qed.

Lemma load_spec pre c u s : p_bp s = pre ++ c :: u → load (length pre) s = Done c s.
Proof. intros E. unfold load. by rewrite E, list_lookup_middle. Qed.

Lemma store_spec pre c u s x : p_bp s = pre ++ c :: u →
  store (length pre) x s = Done tt (s <| p_bp := pre ++ x :: u |>).
Proof.
  intros E. unfold store. rewrite E. rewrite (proj2 (Nat.ltb_lt _ _)) by (rewrite length_app; simpl; lia).
  unfold update. simpl. rewrite E. by rewrite set_at_split.
Qed.

Lemma load_scan_spec fuel p pre a c u s :
  p_bp s = pre ++ a ++ c :: u → Forall (λ c, p c = true) a → p c = false → (length a < fuel)%nat →
  scan fuel p (length pre) s = Done (length pre + length a)%nat s.
Proof.
  intros E Ha Hc. revert fuel pre E. induction Ha as [|x a Hx Ha IH]; intros [|fuel] pre E Hf;
    simpl in Hf; try lia; cbn [scan].
  - erewrite bind_done by by eapply load_spec. rewrite Hc. by rewrite Nat.add_0_r.
  - erewrite bind_done by by eapply load_spec. rewrite Hx.
    replace (S (length pre)) with (length (pre ++ [x])) by (rewrite length_app; simpl; lia).
    rewrite IH; [|by rewrite <- app_assoc|lia]. f_equal. rewrite length_app. simpl. lia.
Qed.

Lemma scan_while_spec p pre t c u jk s :
  p_bp s = pre ++ t ++ jk → drop_while p t = c :: u →
  scan_while p (length pre) s = Done (length (pre ++ take_while p t)) s.
Proof.
  intros E Hd. unfold scan_while. rewrite bind_gets. rewrite length_app. eapply load_scan_spec.
  - rewrite E. f_equal. rewrite <- (take_drop_while p t) at 1. by rewrite Hd, <- app_assoc.
  - apply take_while_all.
  - by eapply drop_while_hd.
  - rewrite E, !length_app. rewrite <- (take_drop_while p t) at 2. rewrite length_app. lia.
Qed.

Lemma ncase_at_spec pre u x s : p_bp s = pre ++ u → (length x <= length u)%nat →
  ncase_at (length pre) x s = Done (ncase_prefix u x) s.
Proof.
  revert pre u. induction x as [|y x IH]; intros pre [|c u] E Hl; simpl in Hl; try done; try lia.
  cbn [ncase_at]. erewrite bind_done by by eapply load_spec. simpl. case_match; [|done].
  replace (S (length pre)) with (length (pre ++ [c])) by (rewrite length_app; simpl; lia).
  apply IH; [by rewrite <- app_assoc|lia].
Qed.

(** Reading a number. *)
Lemma atoi_digits ds r : Forall (λ c, isdigit c = true) ds → atoi (ds ++ NUL :: r) = atoi ds.
Proof.
  intros Hd. destruct ds as [|d ds]; [done|]. unfold atoi, atol. do 3 f_equal.
  pose proof (strtol10_digits (d :: ds) [] Hd) as E1. rewrite app_nil_r in E1.
  rewrite strtol10_digits, E1 by done. rewrite digits_val_app by done.
  by rewrite (digits_val_stop _ (NUL :: r)).
Qed.

Lemma search_spec p b v : search p b = Some v → p v = true ∧ ∃ a, b = a ++ v.
Proof.
  induction b as [|c b IH]; simpl; case_match eqn:E; try done.
  - intros [= <-]. split; [done|]. by exists [].
  - intros [= <-]. split; [done|]. by exists [].
  - intros (? & a & ->)%IH. split; [done|]. by exists (c :: a).
Qed.

Lemma ncase_prefix_length b x : ncase_prefix b x = true → (length x <= length b)%nat.
Proof.
  revert b. induction x as [|y x IH]; intros [|c b]; simpl; try done; try lia.
  case_match; [|done]. intros ?%IH. lia.
Qed.

(** A match begins with a C. *)
Definition is_hit (b : bytes) : bool := ncase_prefix b CONTENT_LENGTH.
Lemma is_hit_cons c b : not_c c = true → is_hit (c :: b) = false.
Proof.
  destruct c as [[] [] [] [] [] [] [] []]; intros H; try reflexivity; vm_compute in H; discriminate H.
Qed.

(** seek_c goes to a C that is not behind the first match. *)
Lemma seek_c_spec fuel pre u v jk s :
  p_bp s = pre ++ u ++ jk → p_datsz s = Z.of_nat (length pre + length u) →
  search is_hit u = Some v → (length u < fuel)%nat →
  ∃ a u', u = a ++ u' ∧ u' ≠ [] ∧ search is_hit u' = Some v ∧
    seek_c fuel (length pre) s = Done (length (pre ++ a)) s.
Proof.
  revert fuel pre. induction u as [|c u IH]; intros [|fuel] pre E Hd Hs Hf; simpl in Hf; try lia; [done|].
  cbn [seek_c]. erewrite bind_done by by eapply load_spec. rewrite bind_gets, Hd.
  destruct (not_c c) eqn:Hc.
  - rewrite (proj2 (Z.ltb_lt _ _)) by (simpl; lia). cbn [andb].
    cbn [search] in Hs. rewrite is_hit_cons in Hs by done.
    destruct (IH fuel (pre ++ [c])) as (a & u' & -> & Hne & Hs' & E'); [by rewrite <- app_assoc| |done|lia|].
    { rewrite Hd, length_app. simpl. lia. }
    exists (c :: a), u'. split; [done|]. split; [done|]. split; [done|].
    rewrite <- app_assoc in E'. simpl in E'. rewrite <- E'. f_equal. rewrite length_app. simpl. lia.
  - exists [], (c :: u). by rewrite app_nil_r.
Qed.

Lemma more_header_no junk i s : more_header junk false i s = Done true s.
Proof. done. Qed.

(** The state behind the Content-Length: the rest of the answer is untouched. *)
Lemma find_length_spec fuel junk pre u v jk c t' s :
  p_bp s = pre ++ u ++ jk → p_datsz s = Z.of_nat (length pre + length u) →
  search is_hit u = Some v → drop_while isdigit (drop_while isspace (drop 15 v)) = c :: t' →
  (length u < fuel)%nat →
  ∃ pre' s', find_length fuel junk (length pre) s
      = Done (Some (length pre', atoi (take_while isdigit (drop_while isspace (drop 15 v))))) s' ∧
    p_bp s' = pre' ++ t' ++ jk ∧ p_datsz s' = Z.of_nat (length pre' + length t') ∧ p_sock s' = p_sock s.
Proof.
  revert pre u. induction fuel as [|fuel IH]; intros pre u E Hd Hs Hc Hf; [lia|].
  cbn [find_length]. rewrite bind_gets.
  destruct (seek_c_spec (S (length (p_bp s))) pre u v jk s E Hd Hs) as (a & u' & -> & Hne & Hs' & Es).
  { rewrite E, !length_app. lia. }
  erewrite bind_done by exact Es. rewrite bind_gets.
  assert (Hl' : (0 < length u')%nat) by (destruct u'; simpl; [done|lia]).
  rewrite length_app in Hd, Hf. rewrite (proj2 (Z.leb_gt _ _)) by (rewrite length_app, Hd; lia).
  erewrite bind_done by apply more_header_no. cbn [negb].
  destruct (search_spec _ _ _ Hs') as (Hv & a' & Ea).
  pose proof (ncase_prefix_length _ _ Hv) as Hlv. 
  assert (Hlu : (length CONTENT_LENGTH <= length (u' ++ jk))%nat).
  { rewrite Ea, !length_app. lia. }
  assert (Ebp : p_bp s = (pre ++ a) ++ u' ++ jk) by (rewrite E; by rewrite <- !app_assoc).
  erewrite bind_done by (apply (ncase_at_spec _ (u' ++ jk)); [exact Ebp|exact Hlu]).
  assert (Hpre : ncase_prefix (u' ++ jk) CONTENT_LENGTH = is_hit u').
  { unfold is_hit. assert (Hlu' : (length CONTENT_LENGTH <= length u')%nat) by (rewrite Ea, length_app; lia).
    clear -Hlu'. revert u' Hlu'. induction CONTENT_LENGTH as [|y x IH]; intros [|c u'] Hl; simpl in *; try done; try lia; [by destruct jk|].
    destruct (bool_decide _); [|done]. apply IH. lia. }
  rewrite Hpre. destruct (is_hit u') eqn:Hhit.
  - assert (v = u') as ->.
    { destruct u' as [|x u']; [done|]. cbn [search] in Hs'. rewrite Hhit in Hs'. by injection Hs'. }
    assert (H15 : length (take 15 u') = 15%nat) by (rewrite length_take; simpl in Hlv; lia).
    set (w := drop 15 u') in *.
    assert (E15 : p_bp s = ((pre ++ a) ++ take 15 u') ++ w ++ jk).
    { rewrite Ebp. rewrite <- (take_drop 15 u') at 1. by rewrite <- !app_assoc. }
    replace (length (pre ++ a) + 15)%nat with (length ((pre ++ a) ++ take 15 u'))
      by (rewrite (length_app (pre ++ a)); lia).
    destruct (drop_while isspace w) as [|c0 w0] eqn:Ew; [done|].
    erewrite bind_done by (eapply scan_while_spec; [exact E15|exact Ew]).
    set (pw := ((pre ++ a) ++ take 15 u') ++ take_while isspace w).
    assert (Ew2 : p_bp s = pw ++ (c0 :: w0) ++ jk).
    { rewrite E15. unfold pw. rewrite <- Ew, <- !app_assoc. do 3 f_equal. rewrite app_assoc.
      by rewrite take_drop_while. }
    erewrite bind_done by (eapply scan_while_spec; [exact Ew2|exact Hc]).
    set (ds := take_while isdigit (c0 :: w0)).
    assert (Ew3 : p_bp s = (pw ++ ds) ++ c :: t' ++ jk).
    { rewrite Ew2. rewrite <- (take_drop_while isdigit (c0 :: w0)) at 1.
      rewrite Hc. fold ds. by rewrite <- !app_assoc. }
    erewrite bind_done by (eapply store_spec; exact Ew3). rewrite bind_gets.
    exists ((pw ++ ds) ++ [NUL]), (s <| p_bp := (pw ++ ds) ++ NUL :: t' ++ jk |>).
    split; [|split; [|split; [|done]]].
    + cbn [p_bp update]. apply (f_equal2 (λ a b, Done (Some (a, b)) _)).
      * rewrite (length_app _ [NUL]). simpl. lia.
      * simpl. rewrite <- app_assoc, drop_app_length. apply atoi_digits, take_while_all.
    + simpl. by rewrite <- !app_assoc.
    + simpl. rewrite Hd. f_equal. apply (f_equal length) in Ew3.
      rewrite E in Ew3. clearbody pw ds. repeat rewrite length_app in Ew3.
      repeat rewrite length_app. cbn [length] in Ew3 |- *. rewrite length_app in Ew3. lia.
  - destruct u' as [|x u']; [done|]. cbn [search] in Hs'. rewrite Hhit in Hs'.
    simpl in Hf. destruct (IH ((pre ++ a) ++ [x]) u') as (pre' & s' & E' & ?); [| |done|done|lia|].
    + rewrite Ebp. by rewrite <- !app_assoc.
    + rewrite Hd, !length_app. simpl. lia.
    + exists pre', s'. split; [|done]. rewrite <- E'. f_equal. rewrite (length_app _ [x]). simpl. lia.
Qed.

(** seek_blank goes behind the first blank line, or to the last two bytes. *)
Lemma blank_line_false c u : blank_line (c :: u) = false → c = NEWLINE →
  ∀ c1 c2 u', u = c1 :: c2 :: u' → c1 = CR → c2 ≠ NEWLINE.
Proof. intros H -> c1 c2 u' -> -> ->. by vm_compute in H. Qed.

Lemma seek_blank_step pre c c1 c2 u jk s fuel :
  p_bp s = pre ++ (c :: c1 :: c2 :: u) ++ jk → Z.of_nat (length pre) + 3 <= p_datsz s →
  seek_blank (S fuel) (length pre) s
  = if blank_line (c :: c1 :: c2 :: u) then Done ((length pre + 3)%nat, true) s
    else seek_blank fuel (S (length pre)) s.
Proof.
  intros E Hd. cbn [seek_blank]. rewrite bind_gets.
  rewrite (proj2 (Z.ltb_lt _ _)) by lia. erewrite bind_done by by eapply load_spec.
  assert (E1 : load (S (length pre)) s = Done c1 s).
  { unfold load. rewrite E. by rewrite (lookup_app_r pre), Nat.sub_succ_l, Nat.sub_diag by lia. }
  assert (E2 : load (S (S (length pre))) s = Done c2 s).
  { unfold load. rewrite E. rewrite (lookup_app_r pre) by lia.
    by replace (S (S (length pre)) - length pre)%nat with 2%nat by lia. }
  unfold blank_line.
  destruct (decide (c = NEWLINE)) as [->|H0];
    [rewrite (bool_decide_eq_true_2 (NEWLINE = NEWLINE)) by done
    |rewrite !bool_decide_eq_false_2 by naive_solver; done].
  rewrite bind_assoc. erewrite bind_done by exact E1.
  destruct (decide (c1 = CR)) as [->|H1];
    [rewrite (bool_decide_eq_true_2 (CR = CR)) by done
    |rewrite !bool_decide_eq_false_2 by naive_solver; done].
  rewrite bind_assoc. erewrite bind_done by exact E2. rewrite bind_ret.
  destruct (decide (c2 = NEWLINE)) as [->|H2].
  - by rewrite !bool_decide_eq_true_2.
  - by rewrite !bool_decide_eq_false_2 by naive_solver.
Qed.

Lemma seek_blank_stop fuel i s : p_datsz s - 2 <= Z.of_nat i → seek_blank (S fuel) i s = Done (i, false) s.
Proof. intros H. cbn [seek_blank]. rewrite bind_gets. by rewrite (proj2 (Z.ltb_ge _ _)) by lia. Qed.

Lemma seek_blank_spec fuel pre u jk s :
  p_bp s = pre ++ u ++ jk → p_datsz s = Z.of_nat (length pre + length u) → (length u < fuel)%nat →
  seek_blank fuel (length pre) s
  = match search blank_line u with
    | Some v => Done ((length pre + (length u - length v) + 3)%nat, true) s
    | None => Done ((length pre + (length u - 2))%nat, false) s
    end.
Proof.
  revert fuel pre. induction u as [|c u IH]; intros [|fuel] pre E Hd Hf; simpl in Hf; try lia.
  { rewrite seek_blank_stop by (simpl in Hd; lia). simpl. by rewrite Nat.add_0_r. }
  destruct u as [|c1 [|c2 u]].
  - rewrite seek_blank_stop by (simpl in Hd; lia). simpl. by rewrite Nat.add_0_r.
  - rewrite seek_blank_stop by (simpl in Hd; lia). simpl. by rewrite Nat.add_0_r.
  - rewrite (seek_blank_step _ _ _ _ _ _ _ _ E) by (rewrite Hd; simpl; lia). cbn [search].
    destruct (blank_line (c :: c1 :: c2 :: u)) eqn:Eb.
    + f_equal. f_equal. simpl. lia.
    + replace (S (length pre)) with (length (pre ++ [c])) by (rewrite length_app; simpl; lia).
      rewrite IH; [|by rewrite <- app_assoc|rewrite Hd, length_app; simpl; lia|lia].
      cbn [search]. rewrite length_app. cbn [length].
      change (if blank_line (c1 :: c2 :: u) then Some (c1 :: c2 :: u) else
        if blank_line (c2 :: u) then Some (c2 :: u) else search blank_line u)
        with (search blank_line (c1 :: c2 :: u)).
      destruct (search blank_line (c1 :: c2 :: u)) as [v|] eqn:Es.
      * destruct (search_spec _ _ _ Es) as (_ & a & Ea). apply (f_equal length) in Ea.
        rewrite length_app in Ea. simpl in Ea. f_equal. f_equal. lia.
      * f_equal. f_equal. lia.
Qed.

(** The blank line is in the data: the body begins behind it. *)
Lemma find_body_spec fuel junk pre u v jk s :
  p_bp s = pre ++ u ++ jk → p_datsz s = Z.of_nat (length pre + length u) →
  search blank_line u = Some v → (3 < length v)%nat →
  ∃ pre', find_body (S fuel) junk (length pre) s = Done (Some (length pre')) s ∧
    p_bp s = pre' ++ drop 3 v ++ jk ∧ p_datsz s = Z.of_nat (length pre' + length (drop 3 v)).
Proof.
  intros E Hd Hs Hl. destruct (search_spec _ _ _ Hs) as (_ & a & ->).
  cbn [find_body]. rewrite bind_gets.
  pose proof (seek_blank_spec (S (length (p_bp s))) pre (a ++ v) jk s E Hd) as Hb.
  rewrite Hs in Hb. erewrite bind_done by (apply Hb; rewrite E, !length_app; lia).
  cbn beta iota. rewrite bind_gets, Hd.
  rewrite length_app in *. exists (pre ++ a ++ take 3 v).
  assert (E3 : length (pre ++ a ++ take 3 v) = (length pre + (length a + length v - length v) + 3)%nat).
  { rewrite !length_app, length_take. lia. }
  rewrite E3, length_drop. rewrite (proj2 (Z.leb_gt _ _)) by lia.
  split; [done|]. split; [|lia].
  rewrite E, <- !app_assoc. do 2 f_equal. by rewrite app_assoc, take_drop.
Qed.

(** It is not: the loop goes round without reading, whatever the fuel. *)
Lemma find_body_spins fuel junk pre u jk s :
  p_bp s = pre ++ u ++ jk → p_datsz s = Z.of_nat (length pre + length u) →
  search blank_line u = None → u ≠ [] → find_body fuel junk (length pre) s = NoFuel.
Proof.
  revert pre u. induction fuel as [|fuel IH]; intros pre u E Hd Hs Hu; [done|].
  cbn [find_body]. rewrite bind_gets.
  pose proof (seek_blank_spec (S (length (p_bp s))) pre u jk s E Hd) as Hb.
  rewrite Hs in Hb. erewrite bind_done by (apply Hb; rewrite E, !length_app; lia).
  cbn beta iota. rewrite bind_gets, Hd.
  assert (Hl : (0 < length u)%nat) by (destruct u; simpl; [done|lia]).
  rewrite (proj2 (Z.leb_gt _ _)) by lia. erewrite bind_done by apply more_header_no. cbn [negb].
  replace (length pre + (length u - 2))%nat with (length (pre ++ take (length u - 2) u))
    by (rewrite length_app, length_take; lia).
  apply (IH _ (drop (length u - 2) u)).
  - rewrite E, <- app_assoc. f_equal. by rewrite app_assoc, take_drop.
  - rewrite Hd, length_app, length_take, length_drop. lia.
  - assert (Hle : (length (drop (length u - 2) u) <= 2)%nat) by (rewrite length_drop; lia).
    destruct (drop (length u - 2) u) as [|x [|y [|z r]]]; try done. simpl in Hle. lia.
  - intros H. apply (f_equal length) in H. rewrite length_drop in H. simpl in H. lia.
Qed.

(** ** The whole answer *)

(** A connection on which the answer [r] arrives in one piece. *)
Definition answers (r : bytes) (k : sock) : Prop := ∃ evs, sk_in k = RvData r :: evs.

Lemma tread_answer n r k : answers r k → r ≠ [] → (length r <= n)%nat →
  ∃ k', tread n k = (IoOk r, k').
Proof.
  intros [evs E] Hr Hl. unfold tread. rewrite E. destruct r as [|c r]; [done|].
  cbn [pull]. rewrite take_ge by done. by eexists.
Qed.

Lemma in_line_hd_not_c c : in_line c = false → not_c c = true.
Proof.
  unfold in_line. rewrite andb_false_iff, !negb_false_iff, !bool_decide_eq_true.
  intros [->| ->]; by vm_compute.
Qed.

Lemma atoi_drop pre ds t u : Forall (λ c, isdigit c = true) ds →
  atoi (drop (length pre) ((((pre ++ ds) ++ [NUL]) ++ t) ++ u)) = atoi ds.
Proof. intros Hd. rewrite <- !app_assoc, drop_app_length. by apply atoi_digits. Qed.

(** After the status line: the pointer is where the line ended, with a NUL there. *)
Lemma printer_loop_head f junk jobid s r code t :
  answers r (p_sock s) → (length r <= length (p_bp s))%nat → parse_status r = Some (code, t) →
  ∃ pre c t' s', t = c :: t' ∧ in_line c = false ∧
    p_bp s' = pre ++ (NUL :: t') ++ drop (length r) (p_bp s) ∧
    p_datsz s' = Z.of_nat (length pre + length t) ∧ length r = (length pre + length t)%nat ∧
    printer_loop (S f) junk jobid s
    = (if HTTP_INFO code then printer_loop f junk jobid
       else if negb (HTTP_SUCCESS code) then store (length r) NUL ;; mret 0
       else ipp_part f junk jobid (length pre)) s'.
Proof.
  intros Ha Hl Hp. unfold parse_status in Hp.
  set (w := drop 8 r) in *. destruct (drop_while isspace w) as [|d w'] eqn:Ew; [done|].
  set (ds := take_while isdigit (d :: w')) in *.
  destruct (drop_while isdigit (d :: w')) as [|x t1] eqn:Ed; [by destruct ds|].
  destruct (drop_while in_line t1) as [|c t'] eqn:Et; [by destruct ds|].
  assert (Hds : ds ≠ [] ∧ code = atoi ds ∧ t = c :: t').
  { destruct ds; [done|]. injection Hp as <- <-. by split_and!. }
  destruct Hds as (Hds & -> & ->). clear Hp.
  assert (Hr : r ≠ []) by by intros ->.
  destruct (tread_answer (length (p_bp s)) r (p_sock s) Ha Hr Hl) as [k' Ek].
  set (jk := drop (length r) (p_bp s)).
  set (s1 := Pst k' (put_at (p_bp s) 0 r) (Z.of_nat (length r))).
  assert (E1 : p_bp s1 = take 8 r ++ w ++ jk).
  { simpl. rewrite put_at_0. rewrite <- (take_drop 8 r) at 1. by rewrite <- app_assoc. }
  assert (H8 : length (take 8 r) = 8%nat).
  { rewrite length_take. apply (f_equal length) in Ew. subst w.
    assert (length (drop_while isspace (drop 8 r)) <= length (drop 8 r))%nat.
    { rewrite <- (take_drop_while isspace (drop 8 r)) at 2. rewrite length_app. lia. }
    rewrite length_drop in *. cbn [length] in Ew. lia. }
  set (pw := take 8 r ++ take_while isspace w).
  assert (E2 : p_bp s1 = pw ++ (d :: w') ++ jk).
  { rewrite E1. unfold pw. rewrite <- Ew, <- !app_assoc. f_equal. by rewrite app_assoc, take_drop_while. }
  assert (E3 : p_bp s1 = (pw ++ ds) ++ x :: t1 ++ jk).
  { rewrite E2. rewrite <- (take_drop_while isdigit (d :: w')) at 1. rewrite Ed. fold ds. by rewrite <- !app_assoc. }
  set (s2 := s1 <| p_bp := (pw ++ ds) ++ NUL :: t1 ++ jk |>).
  set (pl := ((pw ++ ds) ++ [NUL]) ++ take_while in_line t1).
  assert (E4 : p_bp s2 = ((pw ++ ds) ++ [NUL]) ++ t1 ++ jk) by (simpl; by rewrite <- !app_assoc).
  assert (E5 : p_bp s2 = pl ++ c :: t' ++ jk).
  { rewrite E4. unfold pl. rewrite <- (take_drop_while in_line t1) at 1. rewrite Et. by rewrite <- !app_assoc. }
  set (s3 := s2 <| p_bp := pl ++ NUL :: t' ++ jk |>).
  assert (Hlen : length r = (length pl + length (c :: t'))%nat).
  { assert (Hb : length (p_bp s1) = (length r + length jk)%nat).
    { rewrite E1. unfold w. rewrite app_assoc, take_drop. apply length_app. }
    rewrite E3, (length_app (pw ++ ds)) in Hb. cbn [length] in Hb. rewrite (length_app t1) in Hb.
    assert (Ht1 : length t1 = (length (take_while in_line t1) + length (c :: t'))%nat).
    { rewrite <- Et, <- length_app. by rewrite take_drop_while. }
    unfold pl. rewrite (length_app _ (take_while _ _)), (length_app _ [NUL]). cbn [length] in *. lia. }
  exists pl, c, t', s3. split; [done|]. split; [by eapply drop_while_hd|]. split; [done|].
  split; [simpl; by rewrite Hlen|]. split; [done|].
  cbn [printer_loop]. unfold mbind at 1, prog_bind at 1. rewrite Ek. cbn beta iota.
  destruct r as [|r0 r']; [done|]. set (r := r0 :: r') in *.
  rewrite bind_modify. change (update _ _ _) with s1.
  rewrite <- H8. erewrite bind_done by (eapply scan_while_spec; [exact E1|exact Ew]). fold pw.
  erewrite bind_done by (eapply scan_while_spec; [exact E2|exact Ed]). fold ds.
  assert (Hne : (length (pw ++ ds) =? length pw)%nat = false).
  { apply Nat.eqb_neq. rewrite length_app. destruct ds; simpl; [done|lia]. }
  rewrite Hne. erewrite bind_done by (eapply store_spec; exact E3). fold s2.
  replace (S (length (pw ++ ds))) with (length ((pw ++ ds) ++ [NUL])) by (rewrite (length_app _ [NUL]); simpl; lia).
  erewrite bind_done by (eapply scan_while_spec; [exact E4|exact Et]). fold pl.
  erewrite bind_done by (eapply store_spec; exact E5). fold s3. rewrite bind_gets.
  assert (Hat : atoi (drop (length pw) (p_bp s3)) = atoi ds); [|by rewrite Hat].
  change (p_bp s3) with (pl ++ NUL :: t' ++ jk). unfold pl.
  apply atoi_drop, take_while_all.
Qed.

(** What find_length is started on. *)
Lemma search_after_line c t' v : in_line c = false → search is_hit (c :: t') = Some v →
  search is_hit (NUL :: t') = Some v.
Proof.
  intros Hc. cbn [search]. rewrite is_hit_cons by by apply in_line_hd_not_c. by rewrite is_hit_cons.
Qed.

(** The IPP part, when the Content-Length is there and the text behind it not empty. *)
Lemma ipp_part_head f junk jobid pre c t' jk s v x t2 :
  p_bp s = pre ++ (NUL :: t') ++ jk → p_datsz s = Z.of_nat (length pre + length (c :: t')) →
  in_line c = false → search is_hit (c :: t') = Some v →
  drop_while isdigit (drop_while isspace (drop 15 v)) = x :: t2 → t2 ≠ [] →
  (length (c :: t') < f)%nat →
  ∃ pre' s', p_bp s' = pre' ++ t2 ++ jk ∧ p_datsz s' = Z.of_nat (length pre' + length t2) ∧
    ipp_part f junk jobid (length pre) s
    = (o ← find_body f junk (length pre');
       match o with
       | None => mret 0
       | Some i =>
           datsz ← gets p_datsz;
           ok ← more_header junk (datsz - Z.of_nat i
             <? atoi (take_while isdigit (drop_while isspace (drop 15 v)))) i;
           if negb ok then mret 0
           else
             hp ← load_n i 8;
             let stat := ntohs (of_le (slice 2 2 hp)) in
             let id := wrap_s 32 (ntohl (of_le (slice 4 4 hp))) in
             if negb (id =? jobid) then mret 0 else mret (if STATCLASS_OK stat then 1 else 0)
       end) s'.
Proof.
  intros E Hd Hc Hs Hx Ht2 Hf.
  destruct (find_length_spec f junk pre (NUL :: t') v jk x t2 s) as (pre' & s' & El & E' & Hd' & _);
    [done|done|by eapply search_after_line|done|done|].
  exists pre', s'. split; [done|]. split; [done|]. unfold ipp_part.
  erewrite bind_done by exact El. cbn beta iota. rewrite bind_gets, Hd'.
  rewrite (proj2 (Z.leb_gt _ _)) by (destruct t2; simpl; [done|lia]).
  by erewrite bind_done by apply more_header_no.
Qed.

Lemma ntoh_slice n b : length b = n → of_le (reverse b) = of_le (reverse (le n (of_le b))).
Proof. intros <-. by rewrite le_of_le. Qed.

(** The verdict on the eight bytes of the IPP header. *)
Lemma verdict jobid body pre jk s : p_bp s = pre ++ body ++ jk → (8 <= length body)%nat →
  (hp ← load_n (length pre) 8;
   let stat := ntohs (of_le (slice 2 2 hp)) in
   let id := wrap_s 32 (ntohl (of_le (slice 4 4 hp))) in
   if negb (id =? jobid) then mret 0 else mret (if STATCLASS_OK stat then 1 else 0)) s
  = Done (if ipp_ok jobid body then 1 else 0) s.
Proof.
  intros E Hl. unfold mbind, prog_bind, load_n. rewrite E.
  rewrite (proj2 (Nat.leb_le _ _)) by (rewrite !length_app; lia).
  assert (Eh : slice (length pre) 8 (pre ++ body ++ jk) = take 8 body).
  { unfold slice. rewrite drop_app_length. rewrite take_app_le by lia. done. }
  rewrite Eh. unfold ipp_ok.
  assert (E2 : slice 2 2 (take 8 body) = slice 2 2 body).
  { unfold slice. rewrite skipn_firstn_comm, take_take. done. }
  assert (E4 : slice 4 4 (take 8 body) = slice 4 4 body).
  { unfold slice. rewrite skipn_firstn_comm, take_take. done. }
  rewrite E2, E4. unfold ntohs, ntohl.
  rewrite (ntoh_slice 2 (slice 2 2 body)) by (unfold slice; rewrite length_take, length_drop; lia).
  rewrite (ntoh_slice 4 (slice 4 4 body)) by (unfold slice; rewrite length_take, length_drop; lia).
  unfold htons, htonl. by destruct (_ =? jobid).
Qed.

(** ** Properties *)

(** C20: On an answer that comes in one piece and fits the buffer with a byte to spare,
    the pointer walk of printer_status is the reading of the answer as a text: an HTTP
    status outside of 2xx is a failure; otherwise the job is printed exactly when the
    IPP header behind the blank line carries the job's id and a status of the class
    "successful".  The walk ends, within the array. *)
Theorem printer_status_verdict r k junk jobid code t :
  answers r k → (length r < length junk)%nat →
  parse_status r = Some (code, t) → HTTP_INFO code = false →
  (HTTP_SUCCESS code = false → ∃ s', printer_status 1 junk jobid k = Done 0 s') ∧
  (HTTP_SUCCESS code = true → ∀ len body,
     parse_body t = Some (len, body) → (8 <= length body)%nat → len <= Z.of_nat (length body) →
     ∃ s', printer_status (S (S (length r))) junk jobid k
       = Done (if ipp_ok jobid body then 1 else 0) s').
Proof.
  intros Ha Hl Hp Hi. unfold printer_status.
  assert (Hhead := λ f, printer_loop_head f junk jobid (Pst k junk 0) r code t Ha ltac:(simpl; lia) Hp).
  split; intros Hs.
  - destruct (Hhead 0%nat) as (pre & c & t' & s' & -> & _ & Eb & _ & Hr & ->).
    rewrite Hi, Hs. cbn [negb]. unfold store, mbind, prog_bind. rewrite Eb.
    rewrite (proj2 (Nat.ltb_lt _ _)); [by eexists|].
    rewrite !length_app, length_drop. cbn [p_bp length] in *. lia.
  - intros len body Hb H8 Hlen. destruct (Hhead (S (length r))) as (pre & c & t' & s' & -> & Hc & Eb & Hd & Hr & ->).
    rewrite Hi, Hs. cbn [negb]. unfold parse_body in Hb.
    apply bind_Some in Hb as (v & Hv & Hb). change (search is_hit (c :: t') = Some v) in Hv.
    destruct (drop_while isdigit (drop_while isspace (drop 15 v))) as [|x t2] eqn:Ex; [done|].
    apply bind_Some in Hb as (v2 & Hv2 & [= <- <-]).
    assert (Hv3 : (3 < length v2)%nat) by (rewrite length_drop in H8; lia).
    assert (Ht2 : t2 ≠ []) by by intros ->.
    destruct (ipp_part_head (S (length r)) junk jobid pre c t' _ s' v x t2 Eb Hd Hc Hv Ex Ht2 ltac:(lia))
      as (pre' & s2 & E2 & Hd2 & ->).
    destruct (find_body_spec (length r) junk pre' t2 v2 _ s2 E2 Hd2 Hv2 Hv3) as (pre3 & E3 & Eb3 & Hd3).
    erewrite bind_done by exact E3. cbn beta iota. rewrite bind_gets, Hd3.
    rewrite (proj2 (Z.ltb_ge _ _)) by lia. erewrite bind_done by apply more_header_no. cbn [negb].
    exists s2. by eapply verdict.
Qed.

(** The loop that looks for the end of the HTTP header never reads: when the first
    piece of a successful answer ends behind the Content-Length but before the blank
    line, printer_status goes round for ever and the printer thread is lost, whatever
    the printer sends afterwards. *)
Theorem printer_status_spins r k junk jobid code t v x t2 fuel :
  answers r k → (length r <= length junk)%nat →
  parse_status r = Some (code, t) → HTTP_SUCCESS code = true →
  search is_hit t = Some v → drop_while isdigit (drop_while isspace (drop 15 v)) = x :: t2 →
  t2 ≠ [] → search blank_line t2 = None → (length r < fuel)%nat →
  printer_status (S fuel) junk jobid k = NoFuel.
Proof.
  intros Ha Hl Hp Hs Hv Hx Ht2 Hb Hf. unfold printer_status.
  assert (Hi : HTTP_INFO code = false) by (unfold HTTP_INFO, HTTP_SUCCESS in *; lia).
  destruct (printer_loop_head fuel junk jobid (Pst k junk 0) r code t Ha Hl Hp)
    as (pre & c & t' & s' & -> & Hc & Eb & Hd & Hr & ->).
  rewrite Hi, Hs. cbn [negb].
  destruct (ipp_part_head fuel junk jobid pre c t' _ s' v x t2 Eb Hd Hc Hv Hx Ht2 ltac:(lia))
    as (pre' & s2 & E2 & Hd2 & ->).
  unfold mbind, prog_bind. by rewrite (find_body_spins _ _ _ _ _ _ E2 Hd2 Hb Ht2).
Qed.

(** An answer of a printer: the job 7 was printed. *)
Definition answer_head : bytes :=
  str "HTTP/1.1 200 OK" ++ CRLF ++ str "Content-Length: 9" ++ CRLF.
Definition answer_ok : bytes :=
  answer_head ++ CRLF ++ map to_char [1; 1; 0; 0; 0; 0; 0; 7; 3].
Definition junk_ex : bytes := replicate 128 NUL.

Lemma printer_status_verdict_witness :
  ∃ s', printer_status (S (S (length answer_ok))) junk_ex 7 (Sock [RvData answer_ok] [] []) = Done 1 s'.
Proof.
  destruct (parse_status answer_ok) as [[code t]|] eqn:Ep; [|by vm_compute in Ep].
  assert (Hc : code = 200) by (vm_compute in Ep; by injection Ep).
  destruct (parse_body t) as [[len body]|] eqn:Eb;
    [|vm_compute in Ep; injection Ep as _ Et; subst t; by vm_compute in Eb].
  assert (Hb : len = 9 ∧ body = map to_char [1; 1; 0; 0; 0; 0; 0; 7; 3]).
  { vm_compute in Ep. injection Ep as _ Et. subst t. vm_compute in Eb. by injection Eb as <- <-. }
  destruct Hb as [-> ->].
  destruct (printer_status_verdict answer_ok (Sock [RvData answer_ok] [] []) junk_ex 7 code t) as [_ H];
    [by exists []|vm_compute; lia|exact Ep|by rewrite Hc|].
  destruct (H ltac:(by rewrite Hc) 9 _ Eb ltac:(simpl; lia) ltac:(simpl; lia)) as [s' E].
  exists s'. exact E.
Defined.

(** The same answer in two pieces, split in the middle of the blank line. *)
Lemma printer_status_spins_witness :
  ¬ ∃ fuel, printer_status (S (fuel + 40)) junk_ex 7
    (Sock [RvData answer_head; RvData (drop (length answer_head) answer_ok)] [] []) ≠ NoFuel.
Proof.
  intros [fuel H]. apply H.
  eapply (printer_status_spins answer_head _ junk_ex 7 200);
    [by eexists|vm_compute; lia|vm_compute; reflexivity|reflexivity|vm_compute; reflexivity
    |vm_compute; reflexivity|done|vm_compute; reflexivity|].
  change (length answer_head) with 36%nat. lia.
Defined.
