(* ===== verification/Printd.v ===== *)
(** * The print server daemon (printer/printd.c): state and routines.

    [printd] is the global state of the daemon together with the spool directory; the
    routines are programs over it.  What a thread meets outside is part of the state or
    an argument: the connection of the thread that runs ([pd_sock]), how the coming
    system calls go ([pd_faults]), the addresses malloc returns, the answers of the
    network.  [pd_history] is a ghost: every content the spool directory has had, so
    that a crash between two system calls can be spoken about. *)
From Stdlib Require Import Ascii ZArith Lia.
From stdpp Require Import base strings gmap option list.
From S2P Require Import Prelude CStr PosixFile DList Sock Endian PrintReq Ipp PrinterStatus.

(** ** Data *)

(** struct job *)
Record job := Job { j_next : ptr; j_prev : ptr; j_jobid : Z; j_req : printreq }.
#[export] Instance job_rebuild : Rebuild job := λ j,
  Job (j_next j) (j_prev j) (j_jobid j) (j_req j).
Definition jobinfo : Type := Z * printreq.
#[export] Instance job_node : Node job jobinfo := {|
  nxt := j_next; prv := j_prev;
  set_nxt q j := j <| j_next := q |>; set_prv q j := j <| j_prev := q |>;
  payload j := (j_jobid j, j_req j);
  nxt_set_nxt _ _ := eq_refl; prv_set_nxt _ _ := eq_refl; payload_set_nxt _ _ := eq_refl;
  nxt_set_prv _ _ := eq_refl; prv_set_prv _ _ := eq_refl; payload_set_prv _ _ := eq_refl |}.

(** struct worker_thread *)
Record worker := Worker { w_next : ptr; w_prev : ptr; w_tid : Z; w_sockfd : Z }.
#[export] Instance worker_rebuild : Rebuild worker := λ w,
  Worker (w_next w) (w_prev w) (w_tid w) (w_sockfd w).
#[export] Instance worker_node : Node worker (Z * Z) := {|
  nxt := w_next; prv := w_prev;
  set_nxt q w := w <| w_next := q |>; set_prv q w := w <| w_prev := q |>;
  payload w := (w_tid w, w_sockfd w);
  nxt_set_nxt _ _ := eq_refl; prv_set_nxt _ _ := eq_refl; payload_set_nxt _ _ := eq_refl;
  nxt_set_prv _ _ := eq_refl; prv_set_prv _ _ := eq_refl; payload_set_prv _ _ := eq_refl |}.

(** How a system call on a file goes: as it should, with an error, or (a write) with
    fewer bytes. *)
Inductive fault : Type := FNone | FErr (e : Z) | FShort (n : nat).

Abbreviation spool := (gmap bytes bytes).

Record printd := Printd {
  pd_jobs : dls job;                   (* jobhead, jobtail *)
  pd_workers : dls worker;             (* workers *)
  pd_nextjob : Z;
  pd_jobpos : Z;                       (* the offset of jobfd *)
  pd_spool : spool;
  pd_reread : bool;
  pd_printer : option (option bytes);  (* printer; its ai_canonname *)
  pd_printer_name : option bytes;
  pd_joblock : bool;
  pd_workerlock : bool;
  pd_configlock : bool;
  pd_faults : list fault;
  pd_sock : sock;
  pd_closed : list Z;                  (* sockets closed by client_cleanup *)
  pd_cancelled : list Z;               (* threads given to pthread_cancel *)
  pd_history : list spool }.
#[export] Instance printd_rebuild : Rebuild printd := λ s,
  Printd (pd_jobs s) (pd_workers s) (pd_nextjob s) (pd_jobpos s) (pd_spool s) (pd_reread s)
    (pd_printer s) (pd_printer_name s) (pd_joblock s) (pd_workerlock s) (pd_configlock s)
    (pd_faults s) (pd_sock s) (pd_closed s) (pd_cancelled s) (pd_history s).

(** ** Statements *)

Definition on_jobs {A} (m : prog (dls job) A) : prog printd A := λ s,
  match m (pd_jobs s) with
  | Done a l => Done a (s <| pd_jobs := l |>)
  | Fatal e l => Fatal e (s <| pd_jobs := l |>)
  | Undef l => Undef (s <| pd_jobs := l |>)
  | NoFuel => NoFuel
  end.
Definition on_workers {A} (m : prog (dls worker) A) : prog printd A := λ s,
  match m (pd_workers s) with
  | Done a l => Done a (s <| pd_workers := l |>)
  | Fatal e l => Fatal e (s <| pd_workers := l |>)
  | Undef l => Undef (s <| pd_workers := l |>)
  | NoFuel => NoFuel
  end.

(** pthread_mutex_lock and pthread_mutex_unlock: one thread runs at a time, so a lock
    that is taken is taken by the thread itself. *)
Definition lock (l : printd → bool) `{!Update l} : prog printd unit := λ s,
  if l s then Undef s else Done tt (s <| l := true |>).
Definition unlock (l : printd → bool) `{!Update l} : prog printd unit := λ s,
  if l s then Done tt (s <| l := false |>) else Undef s.

Definition next_fault : prog printd fault := λ s,
  match pd_faults s with
  | f :: r => Done f (s <| pd_faults := r |>)
  | [] => Done FNone s
  end.

(** A change of the spool directory. *)
Definition put_spool (f : spool → spool) : prog printd unit :=
  modify (λ s, s <| pd_spool := f (pd_spool s) |>
                 <| pd_history := pd_history s ++ [f (pd_spool s)] |>).

Definition creat (name : bytes) : prog printd (iores unit) :=
  f ← next_fault;
  match f with
  | FErr e => mret (IoErr e)
  | _ => put_spool <[name := []]> ;; mret (IoOk tt)
  end.

(** write to the file [name], which the thread has just created: at its end. *)
Definition write_file (name b : bytes) : prog printd (iores nat) :=
  f ← next_fault;
  match f with
  | FErr e => mret (IoErr e)
  | FShort n => put_spool (alter (λ c, c ++ take n b) name) ;; mret (IoOk (length (take n b)))
  | FNone => put_spool (alter (λ c, c ++ b) name) ;; mret (IoOk (length b))
  end.

Definition unlink (name : bytes) : prog printd unit := put_spool (delete name).

(** open for reading: the contents. *)
Definition open_read (name : bytes) : prog printd (option bytes) :=
  f ← next_fault;
  s ← get;
  mret (match f with FErr _ => None | _ => pd_spool s !! name end).

Definition pd_tread (n : nat) : prog printd (iores bytes) := λ s,
  let '(r, k) := tread n (pd_sock s) in Done r (s <| pd_sock := k |>).
Definition pd_treadn (n : nat) : prog printd (iores bytes) := λ s,
  let '(r, k) := treadn n (pd_sock s) in Done r (s <| pd_sock := k |>).
Definition pd_writen (b : bytes) : prog printd (iores nat) := λ s,
  let '(r, k) := writen b (pd_sock s) in Done r (s <| pd_sock := k |>).
Definition pd_write (b : bytes) : prog printd (iores nat) := λ s,
  let '(r, k) := sk_write b (pd_sock s) in Done r (s <| pd_sock := k |>).

(** sprintf(name, "%s/%s/%s", SPOOLDIR, dir, entry) into an array of FILENMSZ. *)
Definition SLASH : bytes := str "/".
Definition file_path (dir entry : bytes) : bytes := SPOOLDIR ++ SLASH ++ dir ++ SLASH ++ entry.
Definition sprintf_path (dir entry : bytes) : prog printd bytes :=
  let p := file_path dir entry in
  defined (length p <? FILENMSZ)%nat ;; mret p.
Definition JOBPATH : bytes := SPOOLDIR ++ SLASH ++ JOBFILE.

(** ** Job numbers *)

(** init_request: [locked] says whether the record lock is granted. *)
Definition init_request (locked : bool) : prog printd unit :=
  s ← get;
  (if pd_spool s !! JOBPATH is None then put_spool <[JOBPATH := []]> else mret tt) ;;
  modify (λ s, s <| pd_jobpos := 0 |>) ;;
  check locked (ErrQuit "daemon already running") ;;
  s ← get;
  let '(b, f) := f_read (Z.of_nat FILENMSZ) (File (default [] (pd_spool s !! JOBPATH)) (pd_jobpos s)) in
  modify (λ s, s <| pd_jobpos := fpos f |>
                 <| pd_nextjob := if (length b =? 0)%nat then 1
                                  else wrap_s 32 (atol (put_at (JOBPATH ++ [NUL]) 0 b)) |>).

Definition update_jobno : prog printd unit :=
  fl ← next_fault;
  check (if fl is FErr _ then false else true) (ErrSys "can't update job file") ;;
  s ← get;
  let buf := dec (pd_nextjob s) in
  let '(_, f) := f_lseek 0 SEEK_SET (File (default [] (pd_spool s !! JOBPATH)) (pd_jobpos s)) in
  let '(_, f) := f_write buf f in
  put_spool <[JOBPATH := fdata f]> ;;
  modify (λ s, s <| pd_jobpos := fpos f |>).

(** The increment wraps around, as the test after it expects. *)
Definition get_newjobno : prog printd Z :=
  lock pd_joblock ;;
  jobid ← gets pd_nextjob;
  modify (λ s, s <| pd_nextjob := wrap_s 32 (jobid + 1) |>) ;;
  s ← get;
  (if pd_nextjob s <=? 0 then modify (λ s, s <| pd_nextjob := 1 |>) else mret tt) ;;
  unlock pd_joblock ;;
  mret jobid.

(** ** The list of jobs *)

(** The statements on the list. *)
Definition jl_add (jp : ptr) : prog (dls job) unit :=
  tail ← gets dl_tail;
  assign jp (λ j, j <| j_prev := tail |>) ;;
  (if tail is None then set_head jp else assign tail (λ j, j <| j_next := jp |>)) ;;
  set_tail jp.

Definition jl_replace (jp : ptr) : prog (dls job) unit :=
  assign jp (λ j, j <| j_prev := None |>) ;;
  head ← gets dl_head;
  assign jp (λ j, j <| j_next := head |>) ;;
  (if head is None then set_tail jp else assign head (λ j, j <| j_prev := jp |>)) ;;
  set_head jp.

Definition remove_job (target : ptr) : prog (dls job) unit :=
  t ← deref target;
  (if j_next t is Some _ then assign (j_next t) (λ n, n <| j_prev := j_prev t |>)
   else set_tail (j_prev t)) ;;
  t ← deref target;
  (if j_prev t is Some _ then assign (j_prev t) (λ p, p <| j_next := j_next t |>)
   else set_head (j_next t)).

(** [mp] is what malloc returns. *)
Definition add_job (mp : ptr) (reqp : printreq) (jobid : Z) : prog printd unit :=
  match mp with
  | None => die (ErrSys "malloc failed")
  | Some p =>
      on_jobs (put p (Job None None jobid reqp)) ;;
      lock pd_joblock ;;
      on_jobs (jl_add mp) ;;
      unlock pd_joblock
  end.

Definition replace_job (jp : ptr) : prog printd unit :=
  lock pd_joblock ;;
  on_jobs (jl_replace jp) ;;
  unlock pd_joblock.

(** ** Start-up: the jobs of the spool directory *)

Definition dot_entry (name : bytes) : bool :=
  streq name (str ".") || streq name (str "..").

(** build_qonstart: [entries] are the names readdir returns for the request directory;
    [mps] what malloc returns for the jobs. *)
Fixpoint build_qonstart (entries : list bytes) (mps : list nat) : prog printd unit :=
  match entries with
  | [] => mret tt
  | name :: rest =>
      if dot_entry name then build_qonstart rest mps
      else
        fname ← sprintf_path REQDIR name;
        o ← open_read fname;
        match o with
        | None => build_qonstart rest mps
        | Some c =>
            let b := take SIZEOF_REQ c in
            if (length b =? SIZEOF_REQ)%nat then
              add_job (head mps) (req_of_bytes b) (wrap_s 32 (atol name)) ;;
              build_qonstart rest (tail mps)
            else
              unlink fname ;;
              dname ← sprintf_path DATADIR name;
              unlink dname ;;
              build_qonstart rest mps
        end
  end.

(** ** The list of worker threads *)

Definition wl_add (wtp : ptr) : prog (dls worker) unit :=
  assign wtp (λ w, w <| w_prev := None |>) ;;
  workers ← gets dl_head;
  assign wtp (λ w, w <| w_next := workers |>) ;;
  (if workers is None then set_head wtp else assign workers (λ w, w <| w_prev := wtp |>)).

(** add_worker: [false] when there is no memory and the thread exits. *)
Definition add_worker (mp : ptr) (tid sockfd : Z) : prog printd bool :=
  match mp with
  | None => mret false
  | Some p =>
      on_workers (put p (Worker None None tid sockfd)) ;;
      lock pd_workerlock ;;
      on_workers (wl_add mp) ;;
      unlock pd_workerlock ;;
      mret true
  end.

Fixpoint wl_tids (fuel : nat) (wtp : ptr) : prog (dls worker) (list Z) :=
  match wtp with
  | None => mret []
  | Some _ =>
      match fuel with
      | O => λ _, NoFuel
      | S f => w ← deref wtp; l ← wl_tids f (w_next w); mret (w_tid w :: l)
      end
  end.

Definition kill_workers : prog printd unit :=
  lock pd_workerlock ;;
  tids ← on_workers (fuel ← gets (λ s, S (size (dl_heap s))); p ← gets dl_head; wl_tids fuel p);
  modify (λ s, s <| pd_cancelled ::= λ c, c ++ tids |>) ;;
  unlock pd_workerlock.

(** The loop of client_cleanup: the worker found is taken out of the list. *)
Fixpoint wl_unlink (fuel : nat) (wtp : ptr) (tid : Z) : prog (dls worker) ptr :=
  match wtp with
  | None => mret None
  | Some _ =>
      match fuel with
      | O => λ _, NoFuel
      | S f =>
          w ← deref wtp;
          if w_tid w =? tid then
            (if w_next w is Some _ then assign (w_next w) (λ n, n <| w_prev := w_prev w |>)
             else mret tt) ;;
            w ← deref wtp;
            (if w_prev w is Some _ then assign (w_prev w) (λ p, p <| w_next := w_next w |>)
             else set_head (w_next w)) ;;
            mret wtp
          else wl_unlink f (w_next w) tid
      end
  end.

Definition client_cleanup (tid : Z) : prog printd unit :=
  lock pd_workerlock ;;
  wtp ← on_workers (fuel ← gets (λ s, S (size (dl_heap s))); p ← gets dl_head; wl_unlink fuel p tid);
  unlock pd_workerlock ;;
  match wtp with
  | None => mret tt
  | Some _ =>
      w ← on_workers (deref wtp);
      modify (λ s, s <| pd_closed ::= λ c, c ++ [w_sockfd w] |>) ;;
      on_workers (free wtp)
  end.

(** ** client_thread *)

Section client_thread.
Context (strerror : Z → bytes).

(** The answer to a client whose request fails with error [e]: the message is looked up
    with the number in network order. *)
Definition fail_resp (e : Z) : printresp :=
  PrintResp (htonl e) 0 (strncpy MSGLEN_MAX (strerror (wrap_s 32 (htonl e)))).
Definition respond_fail (e : Z) : prog printd unit :=
  pd_writen (resp_bytes (fail_resp e)) ;; mret tt.

(** [nw < 0 ? errno : EIO] *)
Definition io_errno {A} (r : iores A) : Z := match r with IoErr e => e | IoOk _ => EIO end.

(** The loop that stores the document: [buf] is the array, of which the next read
    overwrites the beginning; the flags come back, or [None] when the thread exits. *)
Fixpoint store_file (fuel : nat) (name buf : bytes) (first : bool) (flags : Z) :
    prog printd (option Z) :=
  match fuel with
  | O => λ _, NoFuel
  | S fuel' =>
      r ← pd_tread IOBUFSZ;
      match r with
      | IoErr _ | IoOk [] => mret (Some flags)
      | IoOk b =>
          let buf := put_at buf 0 b in
          let flags :=
            if first && negb (strneq 4 buf (str "%!PS")) then Z.lor flags PR_TEXT else flags in
          nw ← write_file name b;
          if (match nw with IoOk n => (n =? length b)%nat | _ => false end)
          then store_file fuel' name buf false flags
          else
            respond_fail (io_errno nw) ;;
            unlink name ;;
            mret None
      end
  end.

(** Every read but the last takes a byte of what arrives. *)
Definition store_fuel (s : printd) : nat := S (length (avail true (sk_in (pd_sock s)))).

(** From the creation of the control file to the notification of the printer thread;
    [msg0] is what the stack holds where res.msg lies, [mp] the result of malloc in
    add_job. *)
Definition queue_request (mp : ptr) (msg0 : bytes) (jobid : Z) (name : bytes) (req : printreq) :
    prog printd Z :=
  rname ← sprintf_path REQDIR (dec jobid);
  r ← creat rname;
  match r with
  | IoErr e => respond_fail e ;; unlink name ;; mret 1
  | IoOk _ =>
      nw ← write_file rname (req_bytes req);
      if (match nw with IoOk n => (n =? SIZEOF_REQ)%nat | _ => false end) then
        pd_writen (resp_bytes (PrintResp 0 (htonl jobid)
          (put_at msg0 0 (str "request ID " ++ dec jobid ++ [NUL])))) ;;
        add_job mp req jobid ;;
        mret 0
      else respond_fail (io_errno nw) ;; unlink rname ;; unlink name ;; mret 1
  end.

(** From the creation of the data file on. *)
Definition accept_job (mp : ptr) (buf0 msg0 : bytes) (req : printreq) : prog printd Z :=
  jobid ← get_newjobno;
  name ← sprintf_path DATADIR (dec jobid);
  r ← creat name;
  match r with
  | IoErr e => respond_fail e ;; mret 1
  | IoOk _ =>
      fuel ← gets store_fuel;
      o ← store_file fuel name buf0 true (rq_flags req);
      match o with
      | None => mret 1
      | Some flags => queue_request mp msg0 jobid name (req <| rq_flags := flags |>)
      end
  end.

(** The thread up to its exit: the status it exits with. *)
Definition client_body (mw mj : ptr) (tid sockfd : Z) (buf0 msg0 : bytes) : prog printd Z :=
  ok ← add_worker mw tid sockfd;
  if negb ok then mret 1
  else
    r ← pd_treadn SIZEOF_REQ;
    if (match r with IoOk b => (length b =? SIZEOF_REQ)%nat | _ => false end) then
      let b := match r with IoOk b => b | _ => [] end in
      let req := req_of_bytes b in
      accept_job mj buf0 msg0
        (req <| rq_size := ntohl (rq_size req) |> <| rq_flags := ntohl (rq_flags req) |>)
    else respond_fail (io_errno r) ;; mret 1.

(** pthread_exit and the end of the thread run the cleanup handler. *)
Definition client_thread (mw mj : ptr) (tid sockfd : Z) (buf0 msg0 : bytes) : prog printd Z :=
  st ← client_body mw mj tid sockfd buf0 msg0;
  client_cleanup tid ;;
  mret st.
End client_thread.

(** ** signal_thread: one round *)

Inductive signal := SIGHUP | SIGTERM | SigOther.

Definition signal_round (signo : signal) : prog printd unit :=
  match signo with
  | SIGHUP =>
      lock pd_configlock ;;
      modify (λ s, s <| pd_reread := true |>) ;;
      unlock pd_configlock
  | SIGTERM => kill_workers ;; die (Exit 0)
  | SigOther => kill_workers ;; die (ErrQuit "unexpected signal")
  end.

(** ** printer_thread *)

(** What the thread meets in one round: the configuration and getaddrinfo, connect_retry,
    and what the stack and malloc leave in the arrays. *)
Record penv := Penv {
  pe_conf : bytes;
  pe_getaddrinfo : bytes → option (option bytes);  (* the canonical name of the address *)
  pe_connect : option sock;
  pe_ibuf : bytes;
  pe_hbuf : bytes;
  pe_junk : bytes;
  pe_fuel : nat }.

Definition get_printaddr (e : penv) : option (option bytes) :=
  p ← scan_configfile (str "printer") (pe_conf e);
  pe_getaddrinfo e p.

Definition init_printer (e : penv) : prog printd unit :=
  modify (λ s, s <| pd_printer := get_printaddr e |>) ;;
  match get_printaddr e with
  | None => die (Exit 1)
  | Some name => modify (λ s, s <| pd_printer_name := Some (default (str "printer") name) |>)
  end.

(** How a round ends. *)
Inductive pround := PWaits | PCanceled | PDeferred | PPrinted.

(** "while ((nr = read(fd, buf, IOBUFSZ)) > 0)": whether the whole file went out. *)
Fixpoint send_data (fuel : nat) (f : file) : prog printd bool :=
  match fuel with
  | O => λ _, NoFuel
  | S fuel' =>
      fl ← next_fault;
      match fl with
      | FErr _ => mret false
      | _ =>
          let '(buf, f) := f_read (Z.of_nat IOBUFSZ) f in
          match buf with
          | [] => mret true
          | _ =>
              nw ← pd_writen buf;
              if (match nw with IoOk n => (n =? length buf)%nat | _ => false end)
              then send_data fuel' f else mret false
          end
      end
  end.

Definition pd_status (e : penv) (jobid : Z) : prog printd bool := λ s,
  match printer_status (pe_fuel e) (pe_junk e) jobid (pd_sock s) with
  | Done st p => Done (negb (st =? 0)) (s <| pd_sock := p_sock p |>)
  | Fatal x p => Fatal x (s <| pd_sock := p_sock p |>)
  | Undef p => Undef (s <| pd_sock := p_sock p |>)
  | NoFuel => NoFuel
  end.

(** From connect_retry to the printer's answer, for the file [data]: whether the job was
    printed. *)
Definition print_job (e : penv) (jobid : Z) (req : printreq) (data : bytes) : prog printd bool :=
  match pe_connect e with
  | None => mret false
  | Some k =>
      modify (λ s, s <| pd_sock := k |>) ;;
      s ← get;
      match pd_printer_name s with
      | None => undefined
      | Some pname =>
          defined (bool_decide (NUL ∈ rq_usernm req ∧ NUL ∈ rq_jobnm req)) ;;
          match ipp_header (pe_ibuf e) jobid pname (rq_usernm req) (rq_jobnm req) (rq_flags req) with
          | None => undefined
          | Some (ibuf, ilen) =>
              let extra := snd (doc_format (rq_flags req)) in
              match http_header (pe_hbuf e) (Z.of_nat (length data) + Z.of_nat ilen + extra) pname with
              | None => undefined
              | Some (hbuf, hlen) =>
                  let iov := take hlen hbuf ++ take ilen ibuf in
                  nw ← pd_write iov;
                  if (match nw with IoOk n => (n =? hlen + ilen)%nat | _ => false end) then
                    ok ← (if extra =? 0 then mret true
                          else
                            nw ← pd_write [to_char 8];
                            mret (match nw with IoOk n => (n =? 1)%nat | _ => false end));
                    if negb ok then mret false
                    else
                      sent ← send_data (S (length data)) (File data 0);
                      if negb sent then mret false
                      else pd_status e jobid
                  else mret false
              end
          end
      end
  end.

(** "Check for a change in the config file". *)
Definition check_config (e : penv) : prog printd unit :=
  lock pd_configlock ;;
  s ← get;
  if pd_reread s then
    modify (λ s, s <| pd_printer := None |> <| pd_printer_name := None |> <| pd_reread := false |>) ;;
    unlock pd_configlock ;;
    init_printer e
  else unlock pd_configlock.

(** Picking the head of the list. *)
Definition pick_job (jp : ptr) : prog printd job :=
  on_jobs (remove_job jp) ;;
  j ← on_jobs (deref jp);
  unlock pd_joblock ;;
  mret j.

(** The rest of a round, after the configuration: what is done with the job. *)
Definition handle_job (e : penv) (p : ptr) (j : job) : prog printd pround :=
  name ← sprintf_path DATADIR (dec (j_jobid j));
  o ← open_read name;
  match o with
  | None => on_jobs (free p) ;; mret PCanceled
  | Some data =>
      st ← next_fault;
      match st with
      | FErr _ => on_jobs (free p) ;; mret PCanceled
      | _ =>
          printed ← print_job e (j_jobid j) (j_req j) data;
          if (printed : bool) then
            unlink name ;;
            rname ← sprintf_path REQDIR (dec (j_jobid j));
            unlink rname ;;
            on_jobs (free p) ;;
            mret PPrinted
          else replace_job p ;; mret PDeferred
      end
  end.

(** One round of the endless loop. *)
Definition printer_round (e : penv) : prog printd pround :=
  lock pd_joblock ;;
  s ← get;
  match dl_head (pd_jobs s) with
  | None => unlock pd_joblock ;; mret PWaits
  | Some p =>
      j ← pick_job (Some p);
      update_jobno ;;
      check_config e ;;
      handle_job e (Some p) j
  end.

(** ** main up to the loop that accepts clients *)

Definition printd_start (e : penv) (locked : bool) (entries : list bytes) (mps : list nat) :
    prog printd unit :=
  init_request locked ;;
  init_printer e ;;
  build_qonstart entries mps.

(** The daemon's memory before main. *)
Definition printd_init (sp : spool) (faults : list fault) : printd :=
  Printd (DLS ∅ None None) (DLS ∅ None None) 0 0 sp false None None false false false faults
    (Sock [] [] []) [] [] [].
