(* ===== verification/PrintdSpec.v ===== *)
(** * What the routines of printd do: the lists, the files, the job numbers.

    [mem] is the part of the state that system calls leave alone, [history] the growth
    of the ghost history under a condition on every content of the spool directory. *)
From Stdlib Require Import Ascii ZArith Lia.
From stdpp Require Import base strings gmap option list.
From S2P Require Import Prelude CStr PosixFile DList Sock Endian PrintReq Ipp PrinterStatus Printd.

Implicit Types (s : printd) (l : list (nat * jobinfo)) (p : nat) (sp : spool).

(** ** The list of jobs *)

Section joblist.
Implicit Types (d : dls job).

Lemma at_ptr_comm (p q : ptr) (f g : job → job) (h : gmap nat job) :
  (p = q → p = None) → at_ptr p f (at_ptr q g h) = at_ptr q g (at_ptr p f h).
Proof.
  intros Hpq. destruct p as [a|], q as [b|]; simpl; try done.
  apply alter_alter_ne. intros ->. by specialize (Hpq eq_refl).
Qed.

Lemma insert_alter (h : gmap nat job) a f y : h !! a = Some y → <[a := f y]> h = alter f a h.
Proof.
  intros Hy. apply map_eq. intros b. destruct (decide (a = b)) as [<-|].
  - by rewrite lookup_insert_eq, lookup_alter_eq, Hy.
  - by rewrite lookup_insert_ne, lookup_alter_ne.
Qed.

Lemma jl_add_spec d l p jid req :
  dl_rep d l → fresh_ptr d p →
  ∃ d', jl_add (Some p) (DLS (<[p := Job None None jid req]> (dl_heap d)) (dl_head d) (dl_tail d)) = Done tt d' ∧
    dl_rep d' (l ++ [(p, (jid, req))]) ∧ (∀ q, q ≠ p → fresh_ptr d q → fresh_ptr d' q).
Proof.
  intros Hr Hf. unfold jl_add. rewrite bind_gets. cbn [dl_tail].
  erewrite assign_new by apply lookup_insert_eq. cbn [dl_heap dl_head dl_tail]. rewrite insert_insert_eq.
  assert (Hp : p ∉ fst <$> l).
  { intros Hin. destruct (dl_in_heap _ _ _ Hr Hin) as [x Hx]. unfold fresh_ptr in Hf. congruence. }
  pose proof (dl_snoc d l p (jid, req) (Job None (dl_tail d) jid req) Hr Hp eq_refl eq_refl eq_refl) as Hc.
  pose proof (dl_tl _ _ Hr) as Htl. destruct (dl_tail d) as [a|] eqn:Ha.
  - erewrite assign_ok; [|done|].
    + eexists. split; [done|]. split; [exact Hc|]. intros q Hq Hfq. unfold fresh_ptr in *. simpl.
      apply not_elem_of_dom. rewrite dom_alter_L. apply not_elem_of_dom. by rewrite lookup_insert_ne.
    + simpl. rewrite lookup_insert_is_Some. destruct (decide (p = a)); [by left|right].
      split; [done|]. apply (dl_in_heap _ _ _ Hr). by apply last_ptr_in.
  - eexists. split; [done|]. split; [exact Hc|]. intros q Hq Hfq. unfold fresh_ptr in *. simpl.
    by rewrite lookup_insert_ne.
Qed.

Lemma jl_replace_spec d l p jid req n q :
  dl_rep d l → p ∉ fst <$> l → dl_heap d !! p = Some (Job n q jid req) →
  ∃ d', jl_replace (Some p) d = Done tt d' ∧ dl_rep d' ((p, (jid, req)) :: l).
Proof.
  intros Hr Hp Hx. unfold jl_replace. erewrite assign_new by done. rewrite bind_gets.
  erewrite assign_new by apply lookup_insert_eq.
  cbn [dl_heap dl_head dl_tail]. rewrite insert_insert_eq. simpl.
  pose proof (dl_cons d l p (jid, req) (Job (dl_head d) None jid req) Hr Hp eq_refl eq_refl eq_refl) as Hc.
  pose proof (dl_hd _ _ Hr) as Hhd. destruct (dl_head d) as [a|] eqn:Ha.
  - erewrite assign_ok; [|done|]; [eexists; split; [done|exact Hc]|].
    simpl. rewrite lookup_insert_is_Some. destruct (decide (p = a)); [by left|right].
    split; [done|]. apply (dl_in_heap _ _ _ Hr). by apply hd_ptr_in.
  - eexists. split; [done|exact Hc].
Qed.

Lemma remove_job_spec d la p jid req lb :
  dl_rep d (la ++ (p, (jid, req)) :: lb) →
  ∃ d' n q, remove_job (Some p) d = Done tt d' ∧ dl_rep d' (la ++ lb) ∧
    dl_heap d' !! p = Some (Job n q jid req) ∧ p ∉ fst <$> (la ++ lb).
Proof.
  intros Hr. pose proof (dl_nodup _ _ Hr) as Hnd.
  destruct (dl_node _ _ Hr la p (jid, req) lb eq_refl) as ([n q jid' req'] & Hx & Hn & Hq & [= -> ->]).
  simpl in Hn, Hq. subst n q.
  destruct (hd_ptr_neq _ p (jid, req) la lb Hnd eq_refl) as (Hne1 & Hne2 & Hne3).
  pose proof (dl_unlink _ _ _ _ _ Hr) as Hu.
  rewrite at_ptr_comm in Hu by done.
  assert (Hpn : p ∉ fst <$> (la ++ lb)).
  { rewrite fmap_app in Hnd |- *. apply NoDup_app in Hnd as (_ & Hd & Hb).
    apply NoDup_cons in Hb as [Hb _]. intros [Hin|Hin]%elem_of_app; [|done]. apply (Hd p Hin). left. }
  assert (Hval : ∀ a, hd_ptr lb = Some a ∨ last_ptr la = Some a → is_Some (dl_heap d !! a)).
  { intros a Hq. apply (dl_in_heap _ _ _ Hr). rewrite fmap_app. apply elem_of_app.
    destruct Hq as [Hq|Hq]; [right; right; by apply hd_ptr_in|left; by apply last_ptr_in]. }
  pose proof (dl_hd _ _ Hr) as Hhd. pose proof (dl_tl _ _ Hr) as Htl.
  unfold remove_job. erewrite deref_ok by done. cbn [j_next j_prev].
  (* next->prev, or jobtail *)
  assert (H1 : ∃ d1, (match hd_ptr lb with
      | Some _ => assign (hd_ptr lb) (λ n, n <| j_prev := last_ptr la |>)
      | None => set_tail (last_ptr la) end) d = Done tt d1 ∧
      dl_heap d1 = at_ptr (hd_ptr lb) (set_prv (last_ptr la)) (dl_heap d) ∧
      dl_head d1 = dl_head d ∧ dl_tail d1 = last_ptr (la ++ lb)).
  { destruct lb as [|[a v] lb]; simpl hd_ptr.
    - eexists. split; [done|]. rewrite app_nil_r. done.
    - destruct (Hval a) as [y Hy]; [by left|].
      eexists. split; [simpl; by rewrite Hy|]. simpl. split; [|split; [done|]].
      + by apply (insert_alter (dl_heap d) a (λ j, j <| j_prev := last_ptr la |>)).
      + rewrite Htl, !last_ptr_app. done. }
  destruct H1 as (d1 & E1 & Hh1 & Hd1 & Ht1). erewrite bind_done by exact E1.
  erewrite deref_ok; [|done|rewrite Hh1, at_ptr_ne by done; exact Hx]. cbn [j_next j_prev].
  assert (H2 : ∃ d2, (match last_ptr la with
      | Some _ => assign (last_ptr la) (λ x, x <| j_next := hd_ptr lb |>)
      | None => set_head (hd_ptr lb) end) d1 = Done tt d2 ∧
      dl_heap d2 = at_ptr (last_ptr la) (set_nxt (hd_ptr lb)) (dl_heap d1) ∧
      dl_head d2 = hd_ptr (la ++ lb) ∧ dl_tail d2 = last_ptr (la ++ lb)).
  { destruct la as [|[a v] la _] using rev_ind; [by eexists|]. rewrite last_ptr_snoc. cbn [fst].
    assert (Hy : is_Some (dl_heap d1 !! a)).
    { rewrite Hh1, <- elem_of_dom, at_ptr_dom, elem_of_dom. apply Hval. right. by rewrite last_ptr_snoc. }
    destruct Hy as [y Hy]. eexists. split; [simpl; by rewrite Hy|]. simpl. split; [|split; [|done]].
    - by apply (insert_alter (dl_heap d1) a (λ j, j <| j_next := hd_ptr lb |>)).
    - rewrite Hd1, Hhd. by destruct la. }
  destruct H2 as (d2 & E2 & Hh2 & Hd2 & Ht2).
  exists d2, (hd_ptr lb), (last_ptr la). split; [exact E2|]. split; [|split; [|done]].
  - destruct d2 as [h2 hd2 tl2]. cbn [dl_heap dl_head dl_tail] in Hh2, Hd2, Ht2. rewrite Hh2, Hd2, Ht2, Hh1. exact Hu.
  - rewrite Hh2, at_ptr_ne by done. rewrite Hh1, at_ptr_ne by done. exact Hx.
Qed.
End joblist.

(** ** Frames *)

(** Everything but the files, the faults and the connection. *)
Definition mem (s : printd) :=
  (pd_jobs s, pd_workers s, pd_nextjob s, pd_jobpos s, pd_reread s, pd_printer s,
   pd_printer_name s, (pd_joblock s, pd_workerlock s, pd_configlock s), (pd_closed s, pd_cancelled s)).

Lemma mem_jobs s s' : mem s' = mem s → pd_jobs s' = pd_jobs s.
Proof. unfold mem. by intros [= ?]. Qed.
Lemma mem_joblock s s' : mem s' = mem s → pd_joblock s' = pd_joblock s.
Proof. unfold mem. by intros [= ?]. Qed.

Definition unlocked (s : printd) : Prop :=
  pd_joblock s = false ∧ pd_workerlock s = false ∧ pd_configlock s = false.

(** Error numbers are positive and fit the field of the answer. *)
Definition errno_ok (e : Z) : Prop := 0 < e < 2 ^ 31.
Definition fault_ok (f : fault) : Prop := match f with FErr e => errno_ok e | _ => True end.
Definition faults_ok (s : printd) : Prop := Forall fault_ok (pd_faults s).

(** The history grew by contents that satisfy [P]. *)
Definition grows (P : spool → Prop) (s s' : printd) : Prop :=
  ∃ h, pd_history s' = pd_history s ++ h ∧ Forall P h.

Lemma grows_refl P s s' : pd_history s' = pd_history s → grows P s s'.
Proof. intros E. exists []. by rewrite app_nil_r. Qed.

Lemma grows_trans P s1 s2 s3 : grows P s1 s2 → grows P s2 s3 → grows P s1 s3.
Proof.
  intros (h1 & E1 & H1) (h2 & E2 & H2). exists (h1 ++ h2). rewrite E2, E1, app_assoc.
  split; [done|]. by apply Forall_app.
Qed.

Lemma grows_mono (P Q : spool → Prop) s s' : (∀ sp, P sp → Q sp) → grows P s s' → grows Q s s'.
Proof. intros HPQ (h & E & H). exists h. split; [done|]. by eapply Forall_impl. Qed.

Lemma grows_one (P : spool → Prop) s s' sp : P sp → pd_history s' = pd_history s ++ [sp] → grows P s s'.
Proof. intros HP E. exists [sp]. split; [done|]. by repeat constructor. Qed.

Lemma next_fault_spec s : faults_ok s →
  ∃ f r, next_fault s = Done f (s <| pd_faults := r |>) ∧ fault_ok f ∧ Forall fault_ok r.
Proof.
  unfold faults_ok, next_fault. intros H. destruct (pd_faults s) as [|f r] eqn:E.
  - exists FNone, []. split; [|by repeat constructor]. f_equal. destruct s; simpl in *. by subst.
  - apply Forall_cons in H as [? ?]. by exists f, r.
Qed.

(** What a call on a file leaves alone. *)
Definition io_frame (s s' : printd) : Prop :=
  mem s' = mem s ∧ pd_sock s' = pd_sock s ∧ faults_ok s'.

Lemma creat_spec name s : faults_ok s →
  ∃ r s', creat name s = Done r s' ∧ io_frame s s' ∧
    match r with
    | IoErr e => errno_ok e ∧ pd_spool s' = pd_spool s ∧ pd_history s' = pd_history s
    | IoOk _ => pd_spool s' = <[name := []]> (pd_spool s) ∧ pd_history s' = pd_history s ++ [pd_spool s']
    end.
Proof.
  intros Hf. destruct (next_fault_spec s Hf) as (f & r & E & Hok & Hr).
  unfold creat. erewrite bind_done by exact E. destruct f as [|e|n].
  - eexists _, _. split; [reflexivity|]. by repeat split.
  - eexists _, _. split; [reflexivity|]. by repeat split; try apply Hok.
  - eexists _, _. split; [reflexivity|]. by repeat split.
Qed.

(** A write appends a beginning of the bytes, all of them if it says so. *)
Lemma write_file_spec name b s : faults_ok s →
  ∃ r s', write_file name b s = Done r s' ∧ io_frame s s' ∧
    match r with
    | IoErr e => errno_ok e ∧ pd_spool s' = pd_spool s ∧ pd_history s' = pd_history s
    | IoOk n => ∃ k, n = length (take k b) ∧
        pd_spool s' = alter (λ c, c ++ take k b) name (pd_spool s) ∧
        pd_history s' = pd_history s ++ [pd_spool s']
    end.
Proof.
  intros Hf. destruct (next_fault_spec s Hf) as (f & r & E & Hok & Hr).
  unfold write_file. erewrite bind_done by exact E. destruct f as [|e|n].
  - eexists _, _. split; [reflexivity|]. split; [by repeat split|].
    exists (length b). by rewrite firstn_all.
  - eexists _, _. split; [reflexivity|]. by repeat split; try apply Hok.
  - eexists _, _. split; [reflexivity|]. split; [by repeat split|]. by exists n.
Qed.

(** The files but those of [X] are the same. *)
Definition agree (X : gset bytes) (a b : spool) : Prop := ∀ n, n ∉ X → a !! n = b !! n.

Lemma agree_refl X sp : agree X sp sp.
Proof. done. Qed.
Lemma agree_trans X a b c : agree X a b → agree X b c → agree X a c.
Proof. intros H1 H2 n Hn. by rewrite H1, H2. Qed.
Lemma agree_sub X Y a b : X ⊆ Y → agree X a b → agree Y a b.
Proof. intros Hs H n Hn. apply H. set_solver. Qed.
Lemma agree_insert X a n c : n ∈ X → agree X (<[n := c]> a) a.
Proof. intros Hn m Hm. apply lookup_insert_ne. set_solver. Qed.
Lemma agree_delete X a n : n ∈ X → agree X (delete n a) a.
Proof. intros Hn m Hm. apply lookup_delete_ne. set_solver. Qed.
Lemma agree_alter X a n f : n ∈ X → agree X (alter f n a) a.
Proof. intros Hn m Hm. apply lookup_alter_ne. set_solver. Qed.

(** An answer that says no is (at least partly) sent. *)
Definition refused (strerror : Z → bytes) (s s' : printd) : Prop :=
  ∃ e n, errno_ok e ∧ sk_out (pd_sock s') = sk_out (pd_sock s) ++ take n (resp_bytes (fail_resp strerror e)).

Lemma respond_fail_spec strerror e s : errno_ok e → faults_ok s →
  ∃ s', respond_fail strerror e s = Done tt s' ∧ mem s' = mem s ∧ faults_ok s' ∧
    pd_spool s' = pd_spool s ∧ pd_history s' = pd_history s ∧ refused strerror s s'.
Proof.
  intros He Hf. unfold respond_fail, pd_writen, mbind, prog_bind.
  pose proof (writen_spec (resp_bytes (fail_resp strerror e)) (pd_sock s)) as Hw.
  destruct (writen _ _) as [r k]. destruct Hw as (n & _ & Ho & _).
  eexists. split; [reflexivity|]. repeat split; try done. by exists e, n.
Qed.

Lemma unlink_spec name s :
  ∃ s', unlink name s = Done tt s' ∧ mem s' = mem s ∧ pd_sock s' = pd_sock s ∧ pd_faults s' = pd_faults s ∧
    pd_spool s' = delete name (pd_spool s) ∧ pd_history s' = pd_history s ++ [pd_spool s'].
Proof. eexists. split; [reflexivity|]. by repeat split. Qed.

Lemma refused_base strerror s0 s s' : refused strerror s s' → sk_out (pd_sock s) = sk_out (pd_sock s0) → refused strerror s0 s'.
Proof. intros (e & n & He & Ho) E. exists e, n. by rewrite Ho, E. Qed.

(** A client is refused and a file goes. *)
Lemma discard_spec {A} strerror name e (k : prog printd A) s : errno_ok e → faults_ok s →
  ∃ s', (respond_fail strerror e ;; unlink name ;; k) s = k s' ∧ mem s' = mem s ∧ faults_ok s' ∧
    pd_spool s' = delete name (pd_spool s) ∧ pd_history s' = pd_history s ++ [pd_spool s'] ∧ refused strerror s s'.
Proof.
  intros He Hf. destruct (respond_fail_spec strerror e s He Hf) as (s1 & E1 & Hm1 & Hf1 & Hs1 & Hh1 & Hr).
  destruct (unlink_spec name s1) as (s2 & E2 & Hm2 & Hk2 & Hf2 & Hs2 & Hh2).
  exists s2. erewrite bind_done by exact E1. erewrite bind_done by exact E2.
  split_and!; [done|congruence|by unfold faults_ok; rewrite Hf2|by rewrite Hs2, Hs1|by rewrite Hh2, Hh1|].
  destruct Hr as (e' & n & ? & Ho). exists e', n. by rewrite Hk2.
Qed.

Lemma pd_tread_spec n s :
  let '(r, evs) := pull true n (sk_in (pd_sock s)) in
  ∃ s', pd_tread n s = Done r s' ∧ mem s' = mem s ∧ pd_faults s' = pd_faults s ∧
    pd_spool s' = pd_spool s ∧ pd_history s' = pd_history s ∧
    pd_sock s' = Sock evs (sk_out (pd_sock s)) (sk_wr (pd_sock s)).
Proof.
  unfold pd_tread, tread. destruct (pull _ _ _) as [r evs].
  eexists. split; [reflexivity|]. by repeat split.
Qed.

(** ** Storing the document *)

(** What the first read delivers, and the flags it leads to. *)
Definition first_read (evs : list inev) : bytes :=
  match pull true IOBUFSZ evs with (IoOk b, _) => b | _ => [] end.
Definition doc_flags (buf0 : bytes) (evs : list inev) (first : bool) (flags : Z) : Z :=
  match first_read evs with
  | [] => flags
  | b => if first && negb (strneq 4 (put_at buf0 0 b) (str "%!PS")) then Z.lor flags PR_TEXT else flags
  end.

Lemma first_read_empty evs : avail true evs = [] → first_read evs = [].
Proof.
  intros Ha. unfold first_read. pose proof (pull_stop true IOBUFSZ evs Ha) as Hp.
  destruct (pull _ _ _) as [[e|b] evs']; [done|]. simpl in Hp.
  destruct (stop true evs); [done|]. by injection Hp.
Qed.

(** What store_file has done when it returns [o] with the contents [c] in the file. *)
Definition stored strerror (name buf : bytes) (first : bool) (flags : Z) s (c : bytes) (o : option Z) s' : Prop :=
  mem s' = mem s ∧ faults_ok s' ∧ grows (λ sp, agree {[name]} sp (pd_spool s)) s s' ∧
  match o with
  | Some fl => fl = doc_flags buf (sk_in (pd_sock s)) first flags ∧
      sk_out (pd_sock s') = sk_out (pd_sock s) ∧ sk_wr (pd_sock s') = sk_wr (pd_sock s) ∧
      pd_spool s' = <[name := c ++ avail true (sk_in (pd_sock s))]> (pd_spool s)
  | None => refused strerror s s' ∧ pd_spool s' = delete name (pd_spool s)
  end.

(** Nothing more arrives. *)
Lemma store_file_end strerror fuel name buf first flags s c :
  faults_ok s → pd_spool s !! name = Some c → avail true (sk_in (pd_sock s)) = [] →
  ∃ o s', store_file strerror (S fuel) name buf first flags s = Done o s' ∧
    stored strerror name buf first flags s c o s'.
Proof.
  intros Hf Hc Ha. cbn [store_file]. pose proof (pd_tread_spec IOBUFSZ s) as Ht.
  pose proof (pull_stop true IOBUFSZ _ Ha) as Hp.
  destruct (pull _ _ _) as [r evs]. destruct Ht as (s1 & E & Hm & Hfa & Hsp & Hh & Hk).
  erewrite bind_done by exact E. simpl in Hp. subst r.
  assert (Hend : stored strerror name buf first flags s c (Some flags) s1).
  { split; [done|]. split; [by unfold faults_ok; rewrite Hfa|]. split; [by apply grows_refl|].
    unfold doc_flags. rewrite first_read_empty by done.
    rewrite Hk, Hsp, Ha, app_nil_r. by rewrite insert_id. }
  exists (Some flags), s1. split; [|exact Hend]. by destruct (stop true _).
Qed.

(** A write that fails: the client is refused. *)
Lemma store_refuse strerror name buf first flags s s2 w c :
  errno_ok (io_errno w) → faults_ok s2 → mem s2 = mem s → sk_out (pd_sock s2) = sk_out (pd_sock s) →
  agree {[name]} (pd_spool s2) (pd_spool s) → grows (λ sp, agree {[name]} sp (pd_spool s)) s s2 →
  ∃ s', (respond_fail strerror (io_errno (A := nat) w) ;; unlink name ;; (mret None : prog printd (option Z))) s2 = Done None s' ∧
    stored strerror name buf first flags s c None s'.
Proof.
  intros He Hf Hm Hk Hag Hg.
  destruct (discard_spec strerror name _ (mret None : prog printd (option Z)) s2 He Hf) as (s3 & E & Hm3 & Hf3 & Hs3 & Hh3 & Hr).
  exists s3. split; [exact E|]. split; [congruence|]. split; [done|]. split.
  { eapply grows_trans; [exact Hg|]. eapply grows_one; [|exact Hh3].
    rewrite Hs3. eapply agree_trans; [apply agree_delete; set_solver|exact Hag]. }
  split; [by eapply refused_base|]. rewrite Hs3. apply map_eq. intros i. destruct (decide (name = i)) as [<-|].
  - by rewrite !lookup_delete_eq.
  - rewrite !lookup_delete_ne by done. apply Hag. set_solver.
Qed.

(** A piece [b] has been stored, and the rest is. *)
Lemma stored_more strerror name buf first flags s c b evs s2 o s' :
  pull true IOBUFSZ (sk_in (pd_sock s)) = (IoOk b, evs) → b ≠ [] →
  avail true (sk_in (pd_sock s)) = b ++ avail true evs →
  mem s2 = mem s → pd_sock s2 = Sock evs (sk_out (pd_sock s)) (sk_wr (pd_sock s)) →
  pd_spool s2 = <[name := c ++ b]> (pd_spool s) → pd_history s2 = pd_history s ++ [pd_spool s2] →
  stored strerror name (put_at buf 0 b) false
    (if first && negb (strneq 4 (put_at buf 0 b) (str "%!PS")) then Z.lor flags PR_TEXT else flags) s2 (c ++ b) o s' →
  stored strerror name buf first flags s c o s'.
Proof.
  intros Hp Hb Hav Hm2 Hk2 Hs2 Hh2 (Hm' & Hf' & Hg' & Ho).
  split; [by rewrite Hm'|]. split; [done|]. split.
  { eapply grows_trans; [|eapply grows_mono; [|exact Hg']].
    - eapply grows_one; [|exact Hh2]. rewrite Hs2. apply agree_insert. set_solver.
    - intros sp Hsp'. eapply agree_trans; [exact Hsp'|]. rewrite Hs2. apply agree_insert. set_solver. }
  destruct o as [fl|].
  - destruct Ho as (-> & Ho1 & Ho2 & Ho3). split.
    { unfold doc_flags at 2. unfold first_read. rewrite Hp. destruct b; [done|].
      unfold doc_flags. by destruct (first_read _). }
    rewrite Hk2 in Ho1, Ho2. split; [done|]. split; [done|].
    rewrite Ho3, Hs2, Hk2. cbn [sk_in]. by rewrite insert_insert_eq, Hav, app_assoc.
  - destruct Ho as [Ho1 Ho2]. split; [eapply refused_base; [exact Ho1|by rewrite Hk2]|].
    by rewrite Ho2, Hs2, delete_insert_eq.
Qed.

Lemma store_file_spec strerror fuel name buf first flags s c :
  faults_ok s → pd_spool s !! name = Some c →
  (length (avail true (sk_in (pd_sock s))) < fuel)%nat →
  ∃ o s', store_file strerror fuel name buf first flags s = Done o s' ∧
    stored strerror name buf first flags s c o s'.
Proof.
  revert buf first flags s c. induction fuel as [|fuel IH]; intros buf first flags s c Hf Hc Hl; [lia|].
  destruct (decide (avail true (sk_in (pd_sock s)) = [])) as [Ha|Ha]; [by apply store_file_end|].
  cbn [store_file]. pose proof (pd_tread_spec IOBUFSZ s) as Ht.
  destruct (pull_data true IOBUFSZ _ IOBUFSZ_pos Ha) as (b & evs & Hp & Hb & _ & Hav & _).
  rewrite Hp in Ht. destruct Ht as (s1 & E & Hm & Hfa & Hsp & Hh & Hk).
  erewrite bind_done by exact E. destruct b as [|x b']; [done|]. set (b := x :: b') in *.
  destruct (write_file_spec name b s1) as (w & s2 & Ew & (Hm2 & Hk2 & Hf2) & Hw);
    [by unfold faults_ok; rewrite Hfa|].
  erewrite bind_done by exact Ew. rewrite Hk in Hk2.
  destruct (match w with IoOk n => (n =? length b)%nat | _ => false end) eqn:Ewn.
  - destruct w as [e|n]; [done|]. apply Nat.eqb_eq in Ewn. destruct Hw as (k & Hn & Hs2 & Hh2).
    assert (Hk' : take k b = b) by (apply take_ge; rewrite Hn, length_take in Ewn; lia).
    rewrite Hk', Hsp in Hs2.
    assert (Hs2' : pd_spool s2 = <[name := c ++ b]> (pd_spool s)).
    { rewrite Hs2. apply map_eq. intros i. destruct (decide (name = i)) as [<-|].
      - by rewrite lookup_alter_eq, lookup_insert_eq, Hc.
      - by rewrite lookup_alter_ne, lookup_insert_ne. }
    destruct (IH (put_at buf 0 b) false
      (if first && negb (strneq 4 (put_at buf 0 b) (str "%!PS")) then Z.lor flags PR_TEXT else flags)
      s2 (c ++ b)) as (o & s' & E' & Hst).
    { done. } { by rewrite Hs2', lookup_insert_eq. }
    { rewrite Hk2. cbn [sk_in]. rewrite Hav, length_app in Hl. simpl in Hl. lia. }
    exists o, s'. split; [exact E'|].
    eapply stored_more; [exact Hp|done|exact Hav|by rewrite Hm2, Hm|exact Hk2|exact Hs2'|by rewrite Hh2, Hh|exact Hst].
  - assert (He : errno_ok (io_errno w)).
    { destruct w as [e|n]; [apply Hw|]. by unfold errno_ok, io_errno, EIO. }
    assert (Hag : agree {[name]} (pd_spool s2) (pd_spool s)).
    { rewrite <- Hsp. destruct w as [e|n]; [by destruct Hw as (_ & -> & _)|].
      destruct Hw as (k & _ & -> & _). apply agree_alter. set_solver. }
    destruct (store_refuse strerror name buf first flags s s2 w c) as (s' & E' & Hst);
      [done|done|congruence|by rewrite Hk2|done| |by exists None, s'].
    destruct w as [e|n]; [apply grows_refl; destruct Hw as (_ & _ & ->); done|].
    destruct Hw as (k & _ & _ & Hh2). eapply grows_one; [exact Hag|by rewrite Hh2, Hh].
Qed.

(** ** Job numbers and names *)

Definition next_id (n : Z) : Z := if n + 1 =? 2 ^ 31 then 1 else n + 1.
Definition jobid_ok (n : Z) : Prop := 1 <= n < 2 ^ 31.

Lemma next_id_ok n : jobid_ok n → jobid_ok (next_id n).
Proof. unfold jobid_ok, next_id. intros. destruct (Z.eqb_spec (n + 1) (2 ^ 31)); lia. Qed.

Lemma get_newjobno_spec s : pd_joblock s = false → jobid_ok (pd_nextjob s) →
  get_newjobno s = Done (pd_nextjob s) (s <| pd_nextjob := next_id (pd_nextjob s) |>).
Proof.
  intros Hl Hn. destruct s; simpl in *. subst. unfold get_newjobno, lock, unlock, next_id, mbind, prog_bind.
  simpl. unfold jobid_ok in Hn. destruct (Z.eqb_spec (pd_nextjob + 1) (2 ^ 31)) as [E|E].
  - replace (wrap_s 32 (pd_nextjob + 1)) with (- 2 ^ 31) by (rewrite E; reflexivity). done.
  - rewrite wrap_s_id by lia. rewrite (proj2 (Z.leb_gt _ _)) by lia. done.
Qed.

Definition data_path (id : Z) : bytes := file_path DATADIR (dec id).
Definition req_path (id : Z) : bytes := file_path REQDIR (dec id).

Lemma length_dec_id n : jobid_ok n → (length (dec n) <= 10)%nat.
Proof.
  unfold jobid_ok. intros Hn. unfold dec. rewrite (proj2 (Z.ltb_ge _ _)) by lia.
  apply udec_length_le; [|lia]. change (10 ^ Z.of_nat 10) with 10000000000. lia.
Qed.

Lemma sprintf_path_ok dir entry s : length dir = 4%nat → (length entry <= 39)%nat →
  sprintf_path dir entry s = Done (file_path dir entry) s.
Proof.
  intros Hd He. unfold sprintf_path. rewrite bind_defined_true; [done|].
  apply Nat.ltb_lt. unfold file_path, FILENMSZ. rewrite !length_app, Hd.
  change (length SPOOLDIR) with 18%nat. change (length SLASH) with 1%nat. lia.
Qed.

Lemma data_path_req id id' : data_path id ≠ req_path id'.
Proof.
  unfold data_path, req_path, file_path. intros E. apply app_inv_head in E. 
  change SLASH with ["/"%char] in E. simpl in E. injection E. done.
Qed.
Lemma data_path_inj id id' : jobid_ok id → jobid_ok id' → data_path id = data_path id' → id = id'.
Proof.
  intros H1 H2 E. unfold data_path, file_path in E. apply app_inv_head in E. simpl in E.
  injection E as E. unfold jobid_ok in *.
  rewrite <- (atol_dec id []), <- (atol_dec id' []) by (done || lia). by rewrite !app_nil_r, E.
Qed.
Lemma req_path_inj id id' : jobid_ok id → jobid_ok id' → req_path id = req_path id' → id = id'.
Proof.
  intros H1 H2 E. unfold req_path, file_path in E. apply app_inv_head in E. simpl in E.
  injection E as E. unfold jobid_ok in *.
  rewrite <- (atol_dec id []), <- (atol_dec id' []) by (done || lia). by rewrite !app_nil_r, E.
Qed.

Lemma add_job_spec s l p req jid : pd_joblock s = false → dl_rep (pd_jobs s) l → fresh_ptr (pd_jobs s) p →
  ∃ d', add_job (Some p) req jid s = Done tt (s <| pd_jobs := d' |>) ∧ dl_rep d' (l ++ [(p, (jid, req))]) ∧
    (∀ q, q ≠ p → fresh_ptr (pd_jobs s) q → fresh_ptr d' q).
Proof.
  intros Hl Hr Hf. destruct (jl_add_spec (pd_jobs s) l p jid req Hr Hf) as (d' & E & Hr').
  exists d'. split; [|done]. destruct s; simpl in *. subst. unfold add_job, on_jobs, lock, unlock, mbind, prog_bind.
  simpl. by rewrite E.
Qed.

(** ** Accepting a job *)

(** A content of the spool directory from which a restart recovers: the request file of
    the job is missing, is too short to be taken for one, or is there with the whole
    document. *)
Definition safe_point (id : Z) (data : bytes) (req : printreq) (sp0 sp : spool) : Prop :=
  agree {[data_path id; req_path id]} sp sp0 ∧
  match sp !! req_path id with
  | None => True
  | Some c => (length c < SIZEOF_REQ)%nat ∨ (c = req_bytes req ∧ sp !! data_path id = Some data)
  end.

(** The answer to an accepted job. *)
Definition ok_resp (msg0 : bytes) (id : Z) : printresp :=
  PrintResp 0 (htonl id) (put_at msg0 0 (str "request ID " ++ dec id ++ [NUL])).

(** No file of the job is there. *)
Definition no_files (id : Z) (sp : spool) : Prop :=
  sp !! data_path id = None ∧ sp !! req_path id = None.

Lemma safe_point_no_req id data req sp0 sp :
  no_files id sp0 → agree {[data_path id]} sp sp0 → safe_point id data req sp0 sp.
Proof.
  intros [_ Hr] Ha. split; [eapply agree_sub; [|exact Ha]; set_solver|].
  rewrite Ha by (apply not_elem_of_singleton; symmetry; apply data_path_req). by rewrite Hr.
Qed.

(** While the request file is written the data file is complete. *)
Lemma safe_point_req id data req sp0 k :
  no_files id sp0 → req_wf req →
  safe_point id data req sp0
    (<[req_path id := take k (req_bytes req)]> (<[data_path id := data]> sp0)).
Proof.
  intros _ Hwf. split.
  - eapply agree_trans; [apply agree_insert; set_solver|apply agree_insert; set_solver].
  - rewrite lookup_insert_eq. rewrite lookup_insert_ne by (symmetry; apply data_path_req).
    rewrite lookup_insert_eq. destruct (decide (k < SIZEOF_REQ)%nat).
    + left. rewrite length_take. lia.
    + right. split; [|done]. apply take_ge. rewrite length_req_bytes by done. lia.
Qed.

(** The two outcomes. *)
Definition accepted (id : Z) (p : nat) (l : list (nat * jobinfo)) (data msg0 : bytes) (req : printreq)
    (s s' : printd) : Prop :=
  pd_spool s' = <[req_path id := req_bytes req]> (<[data_path id := data]> (pd_spool s)) ∧
  dl_rep (pd_jobs s') (l ++ [(p, (id, req))]) ∧
  ∃ n, sk_out (pd_sock s') = sk_out (pd_sock s) ++ take n (resp_bytes (ok_resp msg0 id)) ∧
    (writable (pd_sock s) → take n (resp_bytes (ok_resp msg0 id)) = resp_bytes (ok_resp msg0 id)).
Definition rejected (strerror : Z → bytes) (s s' : printd) : Prop :=
  pd_spool s' = pd_spool s ∧ pd_jobs s' = pd_jobs s ∧ refused strerror s s'.

Lemma writen_answer b s : ∃ r k, writen b (pd_sock s) = (r, k) ∧
  ∃ n, sk_out k = sk_out (pd_sock s) ++ take n b ∧ (writable (pd_sock s) → take n b = b).
Proof.
  pose proof (writen_spec b (pd_sock s)) as Hw. destruct (writen b (pd_sock s)) as [r k] eqn:E.
  destruct Hw as (n & _ & Ho & _). exists r, k. split; [done|]. exists n. split; [done|].
  intros Hwr. destruct (writen_ok b _ Hwr) as (wr & E' & _). rewrite E in E'. injection E' as -> ->.
  simpl in Ho. by apply app_inv_head in Ho.
Qed.

(** ** The request file and the queue *)

Lemma refused_sock strerror s s' t' : refused strerror s s' → pd_sock t' = pd_sock s' → refused strerror s t'.
Proof. intros (e & n & He & Ho) E. exists e, n. by rewrite E. Qed.

Lemma delete_agree (n : bytes) (a b : spool) : agree {[n]} a b → b !! n = None → delete n a = b.
Proof.
  intros Ha Hb. apply map_eq. intros i. destruct (decide (n = i)) as [<-|Hne].
  - by rewrite lookup_delete_eq, Hb.
  - rewrite lookup_delete_ne by done. apply Ha. set_solver.
Qed.

(** The answer to the client and the new entry in the queue. *)
Lemma announce_spec p msg0 id req s l :
  faults_ok s → pd_joblock s = false → dl_rep (pd_jobs s) l → fresh_ptr (pd_jobs s) p →
  ∃ s', (pd_writen (resp_bytes (ok_resp msg0 id)) ;; add_job (Some p) req id ;; mret 0) s = Done 0 s' ∧
    mem s' = mem (s <| pd_jobs := pd_jobs s' |>) ∧ faults_ok s' ∧
    pd_spool s' = pd_spool s ∧ pd_history s' = pd_history s ∧ dl_rep (pd_jobs s') (l ++ [(p, (id, req))]) ∧
    ∃ n, sk_out (pd_sock s') = sk_out (pd_sock s) ++ take n (resp_bytes (ok_resp msg0 id)) ∧
      (writable (pd_sock s) → take n (resp_bytes (ok_resp msg0 id)) = resp_bytes (ok_resp msg0 id)).
Proof.
  intros Hf Hl Hr Hfr.
  destruct (writen_answer (resp_bytes (ok_resp msg0 id)) s) as (r & k' & Ewr & n' & Ho & Hwr).
  erewrite bind_done by (unfold pd_writen; rewrite Ewr; reflexivity).
  destruct (add_job_spec (s <| pd_sock := k' |>) l p req id) as (d' & Ea & Hd' & _); [done..|].
  erewrite bind_done by exact Ea. eexists. split; [reflexivity|].
  split; [by destruct s|]. split_and!; [done..|]. by exists n'.
Qed.

Lemma queue_request_spec strerror p msg0 id data req s sp0 l :
  faults_ok s → pd_joblock s = false → jobid_ok id → req_wf req →
  dl_rep (pd_jobs s) l → fresh_ptr (pd_jobs s) p →
  no_files id sp0 → pd_spool s = <[data_path id := data]> sp0 →
  ∃ st s', queue_request strerror (Some p) msg0 id (data_path id) req s = Done st s' ∧
    mem s' = mem (s <| pd_jobs := pd_jobs s' |>) ∧ faults_ok s' ∧
    grows (safe_point id data req sp0) s s' ∧
    ((st = 0 ∧ pd_spool s' = <[req_path id := req_bytes req]> (<[data_path id := data]> sp0) ∧
      dl_rep (pd_jobs s') (l ++ [(p, (id, req))]) ∧
      ∃ n, sk_out (pd_sock s') = sk_out (pd_sock s) ++ take n (resp_bytes (ok_resp msg0 id)) ∧
        (writable (pd_sock s) → take n (resp_bytes (ok_resp msg0 id)) = resp_bytes (ok_resp msg0 id))) ∨
     (st = 1 ∧ pd_spool s' = sp0 ∧ pd_jobs s' = pd_jobs s ∧ refused strerror s s')).
Proof.
  intros Hf Hl Hid Hwf Hr Hfr Hno Hsp. unfold queue_request.
  pose proof (length_dec_id id Hid) as Hdl.
  erewrite bind_done by (apply sprintf_path_ok; [done|lia]). fold (req_path id).
  assert (Hne : data_path id ≠ req_path id) by apply data_path_req.
  assert (Hdel : delete (data_path id) (<[data_path id := data]> sp0) = sp0).
  { rewrite delete_insert_eq. apply delete_id. apply Hno. }
  assert (Hbase : safe_point id data req sp0 sp0) by (apply safe_point_no_req; [done|apply agree_refl]).
  destruct (creat_spec (req_path id) s Hf) as (r & s1 & E1 & (Hm1 & Hk1 & Hf1) & H1).
  erewrite bind_done by exact E1. destruct r as [e|[]].
  - destruct H1 as (He & Hs1 & Hh1).
    destruct (discard_spec strerror (data_path id) e (mret 1 : prog printd Z) s1 He Hf1)
      as (s3 & E3 & Hm3 & Hf3 & Hs3 & Hh3 & Hrf).
    rewrite Hs1, Hsp, Hdel in Hs3. exists 1, s3. split; [exact E3|]. assert (Hm : mem s3 = mem s) by congruence.
    assert (Hj : pd_jobs s3 = pd_jobs s) by by apply mem_jobs.
    split; [rewrite Hj, Hm; by destruct s|]. split; [done|]. split.
    + eapply grows_one; [|by rewrite Hh3, Hh1]. by rewrite Hs3.
    + right. split_and!; try done. eapply refused_base; [exact Hrf|by rewrite Hk1].
  - destruct H1 as (Hs1 & Hh1). rewrite Hsp in Hs1.
    destruct (write_file_spec (req_path id) (req_bytes req) s1 Hf1) as (w & s2 & E2 & (Hm2 & Hk2 & Hf2) & Hw).
    erewrite bind_done by exact E2.
    assert (Hg1 : grows (safe_point id data req sp0) s s1).
    { eapply grows_one; [|exact Hh1]. rewrite Hs1. exact (safe_point_req id data req sp0 0 Hno Hwf). }
    assert (Hg2 : grows (safe_point id data req sp0) s1 s2 ∧ ∃ c, pd_spool s2 = <[req_path id := c]> (<[data_path id := data]> sp0)).
    { destruct w as [e|n].
      - destruct Hw as (_ & Hs2 & Hh2). split; [by apply grows_refl|]. exists []. by rewrite Hs2.
      - destruct Hw as (k & _ & Hs2 & Hh2). rewrite Hs1, alter_insert_eq in Hs2. simpl in Hs2.
        split; [|by eexists]. eapply grows_one; [|exact Hh2]. rewrite Hs2. by apply safe_point_req. }
    destruct Hg2 as (Hg2 & c2 & Hc2).
    destruct (match w with IoOk n => (n =? SIZEOF_REQ)%nat | _ => false end) eqn:Ew.
    + destruct w as [e|n]; [done|]. apply Nat.eqb_eq in Ew. destruct Hw as (k & Hn & Hs2 & Hh2).
      assert (Hk : take k (req_bytes req) = req_bytes req).
      { apply take_ge. pose proof (length_req_bytes req Hwf). rewrite Hn, length_take in Ew. lia. }
      rewrite Hs1, Hk, alter_insert_eq in Hs2. simpl in Hs2.
      assert (Hm : mem s2 = mem s) by congruence.
      pose proof (mem_jobs _ _ Hm) as Hmj. pose proof (mem_joblock _ _ Hm) as Hml.
      destruct (announce_spec p msg0 id req s2 l) as (s' & E' & Hm' & Hf' & Hsp' & Hh' & Hr' & n' & Ho & Hwr);
        [done|congruence|by rewrite Hmj|by rewrite Hmj|].
      eexists _, _. split; [exact E'|]. split; [rewrite Hm'; destruct s, s2; unfold mem in Hm |- *; simpl in *; congruence|].
      split; [done|]. split; [eapply grows_trans; [exact Hg1|]; eapply grows_trans; [exact Hg2|by apply grows_refl]|].
      left. split_and!; [done|by rewrite Hsp'|done|]. exists n'. rewrite Ho, Hk2, Hk1. split; [done|].
      intros Hwt. apply Hwr. by rewrite Hk2, Hk1.
    + assert (He : errno_ok (io_errno w)).
      { destruct w as [e|n]; [apply Hw|]. by unfold errno_ok, io_errno, EIO. }
      destruct (discard_spec strerror (req_path id) _ (unlink (data_path id) ;; (mret 1 : prog printd Z)) s2 He Hf2)
        as (s4 & E4 & Hm4 & Hf4 & Hs4 & Hh4 & Hrf).
      destruct (unlink_spec (data_path id) s4) as (s5 & E5 & Hm5 & Hk5 & Hf5 & Hs5 & Hh5).
      assert (Hs4' : pd_spool s4 = <[data_path id := data]> sp0).
      { rewrite Hs4, Hc2, delete_insert_eq. apply delete_id. rewrite lookup_insert_ne by done. apply Hno. }
      rewrite Hs4', Hdel in Hs5. exists 1, s5.
      split; [etransitivity; [exact E4|]; by erewrite bind_done by exact E5|].
      assert (Hm : mem s5 = mem s) by congruence.
      assert (Hj : pd_jobs s5 = pd_jobs s) by by apply mem_jobs.
      split; [rewrite Hj, Hm; by destruct s|]. split; [by unfold faults_ok; rewrite Hf5|]. split.
      { eapply grows_trans; [exact Hg1|]. eapply grows_trans; [exact Hg2|].
        eapply grows_trans with s4; [eapply grows_one; [|exact Hh4]|eapply grows_one; [|exact Hh5]].
        - rewrite Hs4'. apply safe_point_no_req; [done|]. apply agree_insert. set_solver.
        - by rewrite Hs5. }
      right. split_and!; try done. eapply refused_sock; [|exact Hk5].
      eapply refused_base; [exact Hrf|by rewrite Hk2, Hk1].
Qed.

(** ** The whole of accept_job *)

(** The request as it is queued: with the flags the document leads to. *)
Definition queued_req (buf0 : bytes) (req : printreq) (evs : list inev) : printreq :=
  req <| rq_flags := doc_flags buf0 evs true (rq_flags req) |>.

Lemma doc_flags_range buf0 evs first fl : 0 <= fl < 2 ^ 32 → 0 <= doc_flags buf0 evs first fl < 2 ^ 32.
Proof.
  intros Hf. unfold doc_flags. destruct (first_read evs); [done|]. destruct (_ && _); [|done].
  unfold PR_TEXT. split; [apply Z.lor_nonneg; lia|].
  destruct (decide (fl = 0)) as [->|]; [done|].
  apply Z.log2_lt_pow2; [pose proof (Z.lor_nonneg fl 1); destruct (decide (Z.lor fl 1 = 0)) as [E|];
    [apply Z.lor_eq_0_iff in E; lia|lia]|].
  rewrite Z.log2_lor by lia. assert (Z.log2 fl < 32) by (apply Z.log2_lt_pow2; lia).
  change (Z.log2 1) with 0. pose proof (Z.log2_nonneg fl). lia.
Qed.

Lemma queued_req_wf buf0 req evs : req_wf req → req_wf (queued_req buf0 req evs).
Proof. intros [? ? ? ?]. split; simpl; try done. by apply doc_flags_range. Qed.

Lemma accept_job_spec strerror p buf0 msg0 req s l :
  faults_ok s → pd_joblock s = false → jobid_ok (pd_nextjob s) → req_wf req →
  dl_rep (pd_jobs s) l → fresh_ptr (pd_jobs s) p → no_files (pd_nextjob s) (pd_spool s) →
  let id := pd_nextjob s in
  let data := avail true (sk_in (pd_sock s)) in
  let req' := queued_req buf0 req (sk_in (pd_sock s)) in
  ∃ st s', accept_job strerror (Some p) buf0 msg0 req s = Done st s' ∧
    mem s' = mem (s <| pd_nextjob := next_id id |> <| pd_jobs := pd_jobs s' |>) ∧ faults_ok s' ∧
    grows (safe_point id data req' (pd_spool s)) s s' ∧
    ((st = 0 ∧ accepted id p l data msg0 req' s s') ∨ (st = 1 ∧ rejected strerror s s')).
Proof.
  intros Hf Hl Hid Hwf Hr Hfr Hno id data req'. unfold accept_job.
  erewrite bind_done by by apply get_newjobno_spec. fold id.
  erewrite bind_done by (apply sprintf_path_ok; [done|pose proof (length_dec_id id Hid); lia]).
  fold (data_path id). set (s1 := s <| pd_nextjob := next_id id |>).
  destruct (creat_spec (data_path id) s1 Hf) as (r & s2 & E2 & (Hm2 & Hk2 & Hf2) & H2).
  erewrite bind_done by exact E2. destruct r as [e|[]].
  - destruct H2 as (He & Hs2 & Hh2).
    destruct (respond_fail_spec strerror e s2 He Hf2) as (s3 & E3 & Hm3 & Hf3 & Hs3 & Hh3 & Hrf).
    erewrite bind_done by exact E3. eexists _, s3. split; [reflexivity|].
    assert (Hm : mem s3 = mem s1) by congruence. assert (Hj := mem_jobs _ _ Hm).
    split; [rewrite Hj, Hm; by destruct s|]. split; [done|].
    split; [apply grows_refl; by rewrite Hh3, Hh2|].
    right. split; [done|]. split; [by rewrite Hs3, Hs2|]. split; [done|].
    destruct Hrf as (e' & n & ? & Ho). exists e', n. by rewrite Ho, Hk2.
  - destruct H2 as (Hs2 & Hh2). rewrite bind_gets.
    destruct (store_file_spec strerror (store_fuel s2) (data_path id) buf0 true (rq_flags req) s2 [])
      as (o & s3 & E3 & Hm3 & Hf3 & Hg3 & Ho);
      [done|by rewrite Hs2, lookup_insert_eq|unfold store_fuel; lia|].
    erewrite bind_done by exact E3.
    assert (Hm : mem s3 = mem s1) by congruence.
    assert (Hj := mem_jobs _ _ Hm). assert (Hlk := mem_joblock _ _ Hm).
    assert (Hag : agree {[data_path id]} (pd_spool s2) (pd_spool s)).
    { rewrite Hs2. apply agree_insert. set_solver. }
    assert (Hg : grows (safe_point id data req' (pd_spool s)) s s3).
    { eapply grows_trans with s2.
      - eapply grows_one; [|exact Hh2]. by apply safe_point_no_req.
      - eapply grows_mono; [|exact Hg3]. intros sp Hsp. apply safe_point_no_req; [done|].
        eapply agree_trans; [exact Hsp|exact Hag]. }
    destruct o as [fl|].
    + destruct Ho as (-> & Ho & Hw & Hs3). rewrite Hk2 in Hs3, Ho, Hw |- *.
      assert (Hs3' : pd_spool s3 = <[data_path id := data]> (pd_spool s)).
      { by rewrite Hs3, Hs2, insert_insert_eq. }
      destruct (queue_request_spec strerror p msg0 id data req' s3 (pd_spool s) l)
        as (st & s4 & E4 & Hm4 & Hf4 & Hg4 & Hout);
        [done|by rewrite Hlk|done|by apply queued_req_wf|by rewrite Hj|by rewrite Hj|done|done|].
      exists st, s4. split; [exact E4|]. split.
      { rewrite Hm4. unfold mem in Hm |- *. simpl in *. congruence. }
      split; [done|]. split; [by eapply grows_trans|].
      destruct Hout as [(-> & Hsp & Hrep & n & Hn & Hwr)|(-> & Hsp & Hjj & Hrf)].
      * left. split; [done|]. split; [done|]. split; [done|]. exists n. rewrite Hn, Ho. split; [done|].
        intros Hwt. apply Hwr. unfold writable in *. by rewrite Hw.
      * right. split; [done|]. split; [done|]. split; [by rewrite Hjj, Hj|].
        destruct Hrf as (e' & n & ? & Ho'). exists e', n. by rewrite Ho', Ho.
    + destruct Ho as [Hrf Hs3]. eexists _, s3. split; [reflexivity|].
      split; [rewrite Hj, Hm; by destruct s|]. split; [done|]. split; [done|].
      right. split; [done|]. split; [|split; [done|]].
      * rewrite Hs3. apply delete_agree; [done|]. apply Hno.
      * destruct Hrf as (e' & n & ? & Ho'). exists e', n. by rewrite Ho', Hk2.
Qed.

(** ** The worker of a client *)

(** No other worker is on the list. *)
Lemma add_worker_spec p tid fd s : pd_workerlock s = false → dl_head (pd_workers s) = None →
  add_worker (Some p) tid fd s = Done true (s <| pd_workers :=
    DLS (<[p := Worker None None tid fd]> (dl_heap (pd_workers s))) (Some p) (dl_tail (pd_workers s)) |>).
Proof.
  intros Hl Hh. destruct s as [jobs [wh hd tl]]; simpl in *. subst.
  unfold add_worker, on_workers, lock, unlock, wl_add, mbind, prog_bind. simpl.
  repeat (rewrite ?lookup_insert_eq, ?insert_insert_eq; simpl). done.
Qed.

Lemma client_cleanup_spec p tid fd s w : pd_workerlock s = false →
  dl_head (pd_workers s) = Some p → dl_heap (pd_workers s) = <[p := Worker None None tid fd]> w →
  w !! p = None →
  client_cleanup tid s = Done tt (s <| pd_workers := DLS w None (dl_tail (pd_workers s)) |>
    <| pd_closed := pd_closed s ++ [fd] |>).
Proof.
  intros Hl Hh Hp Hw. destruct s as [jobs [wh hd tl]]; simpl in *. subst.
  unfold client_cleanup, on_workers, lock, unlock, mbind, prog_bind. simpl.
  do 4 (unfold mbind, prog_bind; simpl; rewrite ?lookup_insert_eq, ?Z.eqb_refl; simpl).
  rewrite delete_insert_eq, delete_id by done. done.
Qed.

(** ** client_thread *)

(** The state between clients: no lock is held and no other worker is registered. *)
Record idle (s : printd) (l : list (nat * jobinfo)) : Prop := {
  idle_unlocked : unlocked s;
  idle_workers : dl_head (pd_workers s) = None;
  idle_faults : faults_ok s;
  idle_nextjob : jobid_ok (pd_nextjob s);
  idle_jobs : dl_rep (pd_jobs s) l }.

(** The request of a header, in host order. *)
Definition host_req (b : bytes) : printreq :=
  let r := req_of_bytes b in
  r <| rq_size := ntohl (rq_size r) |> <| rq_flags := ntohl (rq_flags r) |>.

Lemma host_req_wf b : length b = SIZEOF_REQ → req_wf (host_req b).
Proof.
  intros Hb. destruct (req_of_bytes_wf b Hb) as [? ? ? ?].
  split; simpl; try done; apply htonl_range.
Qed.

(** What a client's connection leads to, from [s] to [s']. *)
Definition client_outcome (strerror : Z → bytes) (p : nat) (l : list (nat * jobinfo)) (buf0 msg0 : bytes)
    (st : Z) (s s' : printd) : Prop :=
  let a := avail true (sk_in (pd_sock s)) in
  let id := pd_nextjob s in
  if decide (SIZEOF_REQ <= length a)%nat then
    ∃ evs, avail true evs = drop SIZEOF_REQ a ∧
      let req := queued_req buf0 (host_req (take SIZEOF_REQ a)) evs in
      pd_nextjob s' = next_id id ∧
      grows (safe_point id (drop SIZEOF_REQ a) req (pd_spool s)) s s' ∧
      ((st = 0 ∧ accepted id p l (drop SIZEOF_REQ a) msg0 req s s') ∨ (st = 1 ∧ rejected strerror s s'))
  else st = 1 ∧ pd_nextjob s' = id ∧ pd_history s' = pd_history s ∧ rejected strerror s s'.

(** The state in which a worker is in the list. *)
Definition with_worker (mw : nat) (tid fd : Z) (s : printd) : printd :=
  s <| pd_workers := DLS (<[mw := Worker None None tid fd]> (dl_heap (pd_workers s))) (Some mw) (dl_tail (pd_workers s)) |>.

(** The end of a client's thread, when it is the only one. *)
Lemma client_end_spec tid fd mw s s2 : unlocked s → dl_head (pd_workers s) = None → fresh_ptr (pd_workers s) mw →
  mem s2 = mem (with_worker mw tid fd s <| pd_nextjob := pd_nextjob s2 |> <| pd_jobs := pd_jobs s2 |>) → faults_ok s2 →
  ∃ s', client_cleanup tid s2 = Done tt s' ∧
    (pd_jobs s' = pd_jobs s2 ∧ pd_nextjob s' = pd_nextjob s2 ∧ pd_spool s' = pd_spool s2 ∧
     pd_history s' = pd_history s2 ∧ pd_sock s' = pd_sock s2) ∧
    unlocked s' ∧ pd_workers s' = pd_workers s ∧ pd_closed s' = pd_closed s ++ [fd] ∧ faults_ok s'.
Proof.
  intros (Hl1 & Hl2 & Hl3) Hw Hmw Hm Hf2. unfold mem, with_worker in Hm. simpl in Hm.
  injection Hm as HW Hm2 Hm3 Hm4 Hm5 Hm6 Hm7 Hm8 Hm9 Hm10.
  pose proof (client_cleanup_spec mw tid fd s2 (dl_heap (pd_workers s))) as Ec.
  eexists. split; [apply Ec; [congruence|by rewrite HW|by rewrite HW|exact Hmw]|].
  split; [done|]. simpl. split; [repeat split; simpl; congruence|]. split; [|split; [congruence|done]].
  rewrite HW. simpl. rewrite <- Hw. by destruct (pd_workers s).
Qed.

Lemma client_outcome_end strerror p l buf0 msg0 st s s2 s' : client_outcome strerror p l buf0 msg0 st s s2 →
  pd_jobs s' = pd_jobs s2 ∧ pd_nextjob s' = pd_nextjob s2 ∧ pd_spool s' = pd_spool s2 ∧
  pd_history s' = pd_history s2 ∧ pd_sock s' = pd_sock s2 → client_outcome strerror p l buf0 msg0 st s s'.
Proof.
  intros Ho (H1 & H2 & H3 & H4 & H5). unfold client_outcome, accepted, rejected, refused, grows in *.
  by rewrite H1, H2, H3, H4, H5.
Qed.

Lemma client_thread_spec strerror mw p tid fd buf0 msg0 s l :
  idle s l → fresh_ptr (pd_workers s) mw → fresh_ptr (pd_jobs s) p →
  no_files (pd_nextjob s) (pd_spool s) →
  (∀ e, stop true (sk_in (pd_sock s)) = Some e → errno_ok e) →
  ∃ st s', client_thread strerror (Some mw) (Some p) tid fd buf0 msg0 s = Done st s' ∧
    client_outcome strerror p l buf0 msg0 st s s' ∧
    unlocked s' ∧ pd_workers s' = pd_workers s ∧ pd_closed s' = pd_closed s ++ [fd] ∧ faults_ok s'.
Proof.
  intros [[Hl1 [Hl2 Hl3]] Hw Hf Hn Hr] Hmw Hp Hno Hst. unfold client_thread, client_body.
  set (W := DLS (<[mw := Worker None None tid fd]> (dl_heap (pd_workers s))) (Some mw) (dl_tail (pd_workers s))).
  set (s1 := s <| pd_workers := W |>).
  rewrite bind_assoc. erewrite bind_done by by apply add_worker_spec. fold W s1. cbn [negb].
  rewrite bind_assoc. set (a := avail true (sk_in (pd_sock s))) in *.
  assert (Hclean : ∀ st s2, mem s2 = mem (s1 <| pd_nextjob := pd_nextjob s2 |> <| pd_jobs := pd_jobs s2 |>) → faults_ok s2 →
    client_outcome strerror p l buf0 msg0 st s s2 →
    ∃ st' s', ((client_cleanup tid ;; mret st) : prog printd Z) s2 = Done st' s' ∧
      client_outcome strerror p l buf0 msg0 st' s s' ∧
      unlocked s' ∧ pd_workers s' = pd_workers s ∧ pd_closed s' = pd_closed s ++ [fd] ∧ faults_ok s').
  { intros st s2 Hm Hf2 Ho. destruct (client_end_spec tid fd mw s s2) as (s' & Ec & Hp' & Hrest); try done.
    exists st, s'. split; [by erewrite bind_done by exact Ec|]. split; [|done]. by eapply client_outcome_end. }
  destruct (decide (SIZEOF_REQ <= length a)%nat) as [Hl|Hl].
  - destruct (treadn_full SIZEOF_REQ (pd_sock s) Hl) as (k & Ek & Hak & Hsk & Hok & Hwk). fold a in Ek, Hak.
    set (s2 := s1 <| pd_sock := k |>).
    erewrite bind_done by (unfold pd_treadn; cbn [s1 update]; simpl pd_sock; rewrite Ek; reflexivity).
    assert (Hl3' : length (take SIZEOF_REQ a) = SIZEOF_REQ) by (rewrite length_take; lia).
    cbn beta iota. rewrite Hl3', Nat.eqb_refl.
    destruct (accept_job_spec strerror p buf0 msg0 (host_req (take SIZEOF_REQ a)) s2 l)
      as (st & s3 & E3 & Hm3 & Hf3 & Hg3 & Ho3); [done|done|done|by apply host_req_wf|done|done|done|].
    erewrite bind_done by exact E3.
    apply Hclean; [|done|].
    + unfold mem in Hm3 |- *. simpl in *. congruence.
    + unfold client_outcome. fold a. rewrite decide_True by done. exists (sk_in k).
      split; [done|]. split; [unfold mem in Hm3; simpl in Hm3; congruence|].
      change (pd_nextjob s2) with (pd_nextjob s) in *. cbn [s2 s1 update pd_sock] in Hg3, Ho3.
      simpl pd_sock in Hg3, Ho3. rewrite Hak in Hg3, Ho3. split; [exact Hg3|].
      destruct Ho3 as [[-> (Ha1 & Ha2 & n & Ha3 & Ha4)]|[-> (Ha1 & Ha2 & e & n & He & Ha3)]].
      * left. split; [done|]. split; [exact Ha1|]. split; [exact Ha2|]. exists n.
        simpl in Ha3, Ha4. rewrite Hok in Ha3. split; [done|]. intros Hwt. apply Ha4.
        unfold writable in *. simpl. by rewrite Hwk.
      * right. split; [done|]. split; [exact Ha1|]. split; [exact Ha2|]. exists e, n.
        simpl in Ha3. by rewrite Hok in Ha3.
  - destruct (treadn_short SIZEOF_REQ (pd_sock s)) as (Hr1 & Hr2 & Hr3); [unfold a in Hl; lia|]. fold a in Hr1.
    unfold pd_treadn. unfold mbind at 1, prog_bind at 1. cbn [s1 update]. simpl pd_sock.
    destruct (treadn SIZEOF_REQ (pd_sock s)) as [r k]. simpl in Hr1, Hr2, Hr3.
    assert (Hbad : (match r with IoOk b => (length b =? SIZEOF_REQ)%nat | _ => false end) = false).
    { rewrite Hr1. destruct a; [by destruct (stop _ _)|]. apply Nat.eqb_neq. lia. }
    rewrite Hbad.
    assert (He : errno_ok (io_errno r)).
    { rewrite Hr1. destruct a; [|by unfold errno_ok, io_errno, EIO].
      destruct (stop true (sk_in (pd_sock s))) eqn:Es; [by apply Hst|by unfold errno_ok, io_errno, EIO]. }
    set (s2 := s <| pd_workers := W |> <| pd_sock := k |>).
    destruct (respond_fail_spec strerror _ s2 He Hf) as (s3 & E3 & Hm3 & Hf3 & Hs3 & Hh3 & Hrf).
    rewrite bind_assoc. erewrite bind_done by exact E3. rewrite bind_ret.
    assert (Hj := mem_jobs _ _ Hm3).
    apply Hclean; [|done|].
    + rewrite Hm3, Hj. unfold mem in Hm3. simpl in Hm3. assert (Hnx : pd_nextjob s3 = pd_nextjob s) by congruence.
      rewrite Hnx. unfold mem. by destruct s.
    + unfold client_outcome. fold a. rewrite decide_False by done. split; [done|].
      split; [unfold mem in Hm3; simpl in Hm3; congruence|]. split; [done|].
      split; [done|]. split; [done|]. destruct Hrf as (e & n & ? & Ho). exists e, n. rewrite Ho. simpl. by rewrite Hr2.
Qed.
