(* ===== verification/PrintdRestart.v ===== *)
(** * The restart of printd: build_qonstart against what the spool directory says. *)
From Stdlib Require Import Ascii ZArith Lia.
From stdpp Require Import base strings gmap option list.
From S2P Require Import Prelude CStr PosixFile DList Sock Endian PrintReq Ipp PrinterStatus Printd PrintdSpec.

Implicit Types (s : printd) (sp : spool) (name : bytes).

(** The job an entry of the request directory stands for. *)
Definition recover_entry sp name : option jobinfo :=
  if dot_entry name then None
  else
    c ← sp !! file_path REQDIR name;
    let b := take SIZEOF_REQ c in
    if (length b =? SIZEOF_REQ)%nat then Some (wrap_s 32 (atol name), req_of_bytes b) else None.

(** The files that are left: those of an entry with a short request are removed. *)
Definition cleaned_entry sp name : spool :=
  if dot_entry name then sp
  else
    match sp !! file_path REQDIR name with
    | None => sp
    | Some c =>
        if (length (take SIZEOF_REQ c) =? SIZEOF_REQ)%nat then sp
        else delete (file_path DATADIR name) (delete (file_path REQDIR name) sp)
    end.
Definition cleaned sp (names : list bytes) : spool := fold_left cleaned_entry names sp.

Lemma file_path_inj dir n n' : file_path dir n = file_path dir n' → n = n'.
Proof. unfold file_path. intros E. by do 4 apply app_inv_head in E. Qed.
Lemma file_path_dirs n n' : file_path DATADIR n ≠ file_path REQDIR n'.
Proof.
  unfold file_path. intros E. apply app_inv_head in E. change SLASH with ["/"%char] in E.
  simpl in E. by injection E.
Qed.

(** Looking after one entry does not change the others. *)
Lemma recover_cleaned sp name n : n ≠ name → recover_entry (cleaned_entry sp name) n = recover_entry sp n.
Proof.
  intros Hn. unfold recover_entry, cleaned_entry. destruct (dot_entry n); [done|].
  destruct (dot_entry name); [done|]. destruct (sp !! file_path REQDIR name); [|done].
  destruct (_ =? _)%nat; [done|].
  rewrite lookup_delete_ne by apply file_path_dirs.
  rewrite lookup_delete_ne; [done|]. by intros ?%file_path_inj.
Qed.

Lemma omap_cons {A B} (f : A → option B) x (l : list A) :
  omap f (x :: l) = match f x with Some y => y :: omap f l | None => omap f l end.
Proof. done. Qed.

(** One pass over the directory: the queue is what the entries say. *)
Lemma build_qonstart_spec names mps s l :
  pd_faults s = [] → pd_joblock s = false → dl_rep (pd_jobs s) l →
  NoDup names → Forall (λ n, length n <= 39)%nat names →
  NoDup mps → Forall (fresh_ptr (pd_jobs s)) mps → (length names <= length mps)%nat →
  ∃ s', build_qonstart names mps s = Done tt s' ∧
    dl_rep (pd_jobs s') (l ++ zip mps (omap (recover_entry (pd_spool s)) names)) ∧
    pd_spool s' = cleaned (pd_spool s) names.
Proof.
  revert mps s l. induction names as [|name names IH]; intros mps s l Hf Hl Hr Hnd Hlen Hmps Hfr Hcnt.
  { exists s. split; [done|]. split; [|done]. destruct mps; by rewrite app_nil_r. }
  apply NoDup_cons in Hnd as [Hnin Hnd]. apply Forall_cons in Hlen as [Hln Hlen].
  assert (Hsame : omap (recover_entry (cleaned_entry (pd_spool s) name)) names
    = omap (recover_entry (pd_spool s)) names).
  { clear -Hnin. induction names as [|n names IHn]; [done|]. apply not_elem_of_cons in Hnin as [H1 H2].
    rewrite !omap_cons, recover_cleaned by done. by rewrite IHn. }
  assert (Hskip : ∀ s2, pd_jobs s2 = pd_jobs s → pd_joblock s2 = false → pd_faults s2 = [] →
    pd_spool s2 = cleaned_entry (pd_spool s) name → recover_entry (pd_spool s) name = None →
    ∃ s', build_qonstart names mps s2 = Done tt s' ∧
      dl_rep (pd_jobs s') (l ++ zip mps (omap (recover_entry (pd_spool s)) (name :: names))) ∧
      pd_spool s' = cleaned (pd_spool s) (name :: names)).
  { intros s2 Hj Hl2 Hf2 Hs2 Hnone. simpl in Hcnt.
    destruct (IH mps s2 l) as (s' & E & Hrep & Hsp); rewrite ?Hj; try done; [lia|].
    exists s'. split; [done|]. rewrite Hs2 in Hrep, Hsp. split; [|exact Hsp].
    by rewrite omap_cons, Hnone, <- Hsame. }
  cbn [build_qonstart]. unfold recover_entry, cleaned_entry in Hskip.
  destruct (dot_entry name) eqn:Hdot; [by apply Hskip|].
  erewrite bind_done by by apply sprintf_path_ok. unfold open_read.
  rewrite bind_assoc. erewrite bind_done by (unfold next_fault; rewrite Hf; reflexivity).
  rewrite bind_assoc. unfold get. unfold mbind at 1, prog_bind at 1. rewrite bind_ret.
  destruct (pd_spool s !! file_path REQDIR name) as [c|] eqn:Hc; [|by apply Hskip].
  cbn [mbind option_bind] in Hskip.
  destruct (length (take SIZEOF_REQ c) =? SIZEOF_REQ)%nat eqn:Hlc.
  - destruct mps as [|p mps]; [simpl in Hcnt; lia|].
    apply NoDup_cons in Hmps as [Hpn Hmps]. apply Forall_cons in Hfr as [Hp Hfr].
    destruct (add_job_spec s l p (req_of_bytes (take SIZEOF_REQ c)) (wrap_s 32 (atol name)) Hl Hr Hp)
      as (d' & Ea & Hd' & Hfr').
    cbn [head tail]. erewrite bind_done by exact Ea. simpl in Hcnt.
    destruct (IH mps (s <| pd_jobs := d' |>) (l ++ [(p, (wrap_s 32 (atol name), req_of_bytes (take SIZEOF_REQ c)))]))
      as (s' & E & Hrep & Hsp); try done; [|lia|].
    { rewrite Forall_forall in Hfr |- *. intros q Hq. apply Hfr'; [|by apply Hfr]. by intros ->. }
    exists s'. split; [done|]. simpl in Hrep, Hsp. split.
    + rewrite omap_cons. unfold recover_entry at 1. rewrite Hdot, Hc. cbn [mbind option_bind]. rewrite Hlc. simpl.
      by rewrite <- app_assoc in Hrep.
    + rewrite Hsp. unfold cleaned. cbn [fold_left]. f_equal.
      unfold cleaned_entry. by rewrite Hdot, Hc, Hlc.
  - destruct (unlink_spec (file_path REQDIR name) s) as (s1 & E1 & Hm1 & Hk1 & Hf1 & Hs1 & _).
    erewrite bind_done by exact E1. erewrite bind_done by by apply sprintf_path_ok.
    destruct (unlink_spec (file_path DATADIR name) s1) as (s2 & E2 & Hm2 & Hk2 & Hf2 & Hs2 & _).
    erewrite bind_done by exact E2.
    assert (Hm : mem s2 = mem s) by congruence.
    apply Hskip; [by apply mem_jobs|by rewrite (mem_joblock _ _ Hm)|by rewrite Hf2, Hf1|by rewrite Hs2, Hs1|done].
Qed.
