(* ===== verification/PrintdPrint.v ===== *)
(** * The printer thread of printd: what a round sends, and what it does to the queue
    and the files.

    [frames R m]: wherever the program [m] ends, the state is related by [R] to the one
    it started in. *)
From Stdlib Require Import Ascii ZArith Lia.
From stdpp Require Import base strings gmap option list.
From S2P Require Import Prelude CStr PosixFile DList Sock Endian PrintReq Ipp PrinterStatus Printd PrintdSpec.

Implicit Types (s : printd) (l : list (nat * jobinfo)).

(** ** Frames of programs *)

Section frames.
Context (R : printd → printd → Prop) `{!PreOrder R}.

Definition frames {A} (m : prog printd A) : Prop := ∀ s,
  match m s with
  | Done _ s' | Fatal _ s' | Undef s' => R s s'
  | NoFuel => True
  end.

Lemma frames_ret {A} (a : A) : frames (mret a).
Proof. intros s. simpl. reflexivity. Qed.
Lemma frames_die {A} e : frames (A := A) (die e).
Proof. intros s. simpl. reflexivity. Qed.
Lemma frames_undefined {A} : frames (A := A) undefined.
Proof. intros s. simpl. reflexivity. Qed.
Lemma frames_get : frames get.
Proof. intros s. simpl. reflexivity. Qed.
Lemma frames_modify f : (∀ s, R s (f s)) → frames (modify f).
Proof. intros H s. apply H. Qed.
Lemma frames_bind {A B} (m : prog printd A) (k : A → prog printd B) :
  frames m → (∀ a, frames (k a)) → frames (m ≫= k).
Proof.
  intros Hm Hk s. specialize (Hm s). unfold mbind, prog_bind. destruct (m s) as [a s'|e s'|s'|]; try done.
  specialize (Hk a s'). destruct (k a s'); try done; by etrans.
Qed.
Lemma frames_check b e : frames (check b e).
Proof. destruct b; [apply frames_ret|apply frames_die]. Qed.
Lemma frames_defined b : frames (defined b).
Proof. destruct b; [apply frames_ret|apply frames_undefined]. Qed.
End frames.

Create HintDb frames discriminated.
#[export] Hint Resolve frames_ret frames_die frames_undefined frames_get
  frames_check frames_defined : frames.

(** Walking down a program, by its head. *)
Ltac frame_step :=
  lazymatch goal with
  | |- PreOrder _ => apply _
  | |- ∀ _, _ => intro
  | |- frames _ (_ ≫= _) => apply frames_bind
  | |- frames _ (mret _) => apply frames_ret
  | |- frames _ (die _) => apply frames_die
  | |- frames _ undefined => apply frames_undefined
  | |- frames _ get => apply frames_get
  | |- frames _ (check _ _) => apply frames_check
  | |- frames _ (defined _) => apply frames_defined
  | |- frames _ (modify _) => apply frames_modify
  | |- frames _ (match ?x with _ => _ end) => destruct x
  | |- frames _ (let _ := _ in _) => cbv zeta
  | |- frames _ _ => solve [auto with frames nocore]
  end.
Ltac frame := repeat frame_step.

(** Only the connection and the coming faults change. *)
Definition same_mem s s' : Prop :=
  mem s' = mem s ∧ pd_spool s' = pd_spool s ∧ pd_history s' = pd_history s.
#[export] Instance same_mem_preorder : PreOrder same_mem.
Proof.
  split; [done|]. intros a b c (H1 & H2 & H3) (H4 & H5 & H6).
  split; [congruence|]. split; congruence.
Qed.

Lemma frames_pd_writen b : frames same_mem (pd_writen b).
Proof. intros s. unfold pd_writen. by destruct (writen _ _). Qed.
Lemma frames_pd_write b : frames same_mem (pd_write b).
Proof. intros s. unfold pd_write. by destruct (sk_write _ _). Qed.
Lemma frames_next_fault : frames same_mem next_fault.
Proof. intros s. unfold next_fault. by destruct (pd_faults s). Qed.
Lemma frames_pd_status e jid : frames same_mem (pd_status e jid).
Proof. intros s. unfold pd_status. by destruct (printer_status _ _ _ _). Qed.
#[export] Hint Resolve frames_pd_writen frames_pd_write frames_next_fault frames_pd_status : frames.

Lemma frames_send_data fuel f : frames same_mem (send_data fuel f).
Proof.
  revert f. induction fuel as [|fuel IH]; intros f; [done|]. cbn [send_data]. frame.
Qed.
#[export] Hint Resolve frames_send_data : frames.

Lemma frames_print_job e jid req data : frames same_mem (print_job e jid req data).
Proof. unfold print_job. frame. all: by split. Qed.

(** *** Only the reading of the printer's answer can go on for ever *)

Lemma bind_nofuel {A B} (m : prog printd A) (k : A → prog printd B) s : (m ≫= k) s = NoFuel →
  m s = NoFuel ∨ ∃ a s', m s = Done a s' ∧ k a s' = NoFuel.
Proof. unfold mbind, prog_bind. destruct (m s) as [a s'| | |]; try done; [right; by exists a, s'|by left]. Qed.

Lemma f_read_some a m : m ≠ [] → ∃ b m', m = b ++ m' ∧ b ≠ [] ∧
  f_read (Z.of_nat IOBUFSZ) (File (a ++ m) (Z.of_nat (length a)))
  = (b, File ((a ++ b) ++ m') (Z.of_nat (length (a ++ b)))).
Proof.
  intros Hm. exists (take IOBUFSZ m), (drop IOBUFSZ m). split; [by rewrite take_drop|]. split.
  - intros E. apply (f_equal length) in E. rewrite length_take in E. pose proof IOBUFSZ_pos.
    destruct m; [done|]. simpl length in E. lia.
  - unfold f_read. cbn [fdata fpos]. rewrite !Nat2Z.id. unfold slice. rewrite drop_app_length.
    f_equal. rewrite <- app_assoc, take_drop. f_equal. rewrite length_app. lia.
Qed.

Lemma send_data_ends fuel a m s : (length m < fuel)%nat → send_data fuel (File (a ++ m) (Z.of_nat (length a))) s ≠ NoFuel.
Proof.
  revert a m s. induction fuel as [|fuel IH]; intros a m s Hl; [lia|]. cbn [send_data].
  intros [E|(f & s' & _ & E)]%bind_nofuel; [unfold next_fault in E; by destruct (pd_faults s)|].
  destruct (decide (m = [])) as [->|Hm].
  - rewrite app_nil_r, f_read_eof in E. by destruct f.
  - destruct (f_read_some a m Hm) as (b & m' & -> & Hb & Er). rewrite Er in E. destruct b as [|c b]; [done|].
    rewrite length_app in Hl. simpl in Hl.
    assert (∀ s', ((nw ← pd_writen (c :: b);
      (if (match nw with IoOk n => (n =? length (c :: b))%nat | _ => false end)
       then send_data fuel (File ((a ++ c :: b) ++ m') (Z.of_nat (length (a ++ c :: b)))) else mret false)) s') ≠ NoFuel) as H.
    { intros s1 [E1|(nw & s2 & _ & E1)]%bind_nofuel; [unfold pd_writen in E1; by destruct (writen _ _)|].
      destruct (match nw with IoOk n => _ | _ => _ end); [|done]. by apply IH in E1; [|lia]. }
    destruct f; [by apply H in E|done|by apply H in E].
Qed.

Lemma print_job_nofuel e jid req data s : print_job e jid req data s = NoFuel →
  ∃ s2, same_mem s s2 ∧ pd_status e jid s2 = NoFuel.
Proof.
  unfold print_job. destruct (pe_connect e) as [k|]; [|done].
  intros [E|([] & s1 & [= <-] & E)]%bind_nofuel; [done|]. apply bind_nofuel in E as [E|(st & s1 & [= <- <-] & E)]; [done|].
  destruct (pd_printer_name _) as [pname|]; [|done]. apply bind_nofuel in E as [E|([] & s1 & E1 & E)];
    [unfold defined in E; by destruct (bool_decide _)|].
  assert (same_mem s s1) as H1.
  { unfold defined in E1. destruct (bool_decide _); [|done]. injection E1 as <-. by split. }
  clear E1. destruct (ipp_header _ _ _ _ _ _) as [[ibuf ilen]|]; [|done]. cbv zeta in E.
  destruct (http_header _ _ _) as [[hbuf hlen]|]; [|done].
  apply bind_nofuel in E as [E|(nw & s2 & E2 & E)]; [unfold pd_write in E; by destruct (sk_write _ _)|].
  pose proof (frames_pd_write (take hlen hbuf ++ take ilen ibuf) s1) as H2. rewrite E2 in H2.
  destruct (match nw with IoOk n => _ | _ => _ end); [|done].
  apply bind_nofuel in E as [E|(ok & s3 & E3 & E)].
  { destruct (_ =? 0); [done|]. apply bind_nofuel in E as [E|(? & ? & _ & E)]; [|done]. unfold pd_write in E. by destruct (sk_write _ _). }
  assert (same_mem s2 s3) as H3.
  { destruct (_ =? 0); [by injection E3 as <- <-|].
    assert (frames same_mem (nw ← pd_write [to_char 8]; mret (match nw with IoOk n => (n =? 1)%nat | _ => false end))) as Hf by frame.
    specialize (Hf s2). by rewrite E3 in Hf. }
  destruct ok; cbn [negb] in E; [|done]. apply bind_nofuel in E as [E|(sent & s4 & E4 & E)].
  { by apply (send_data_ends _ [] data) in E; [|lia]. }
  pose proof (frames_send_data (S (length data)) (File data 0) s3) as H4. rewrite E4 in H4.
  destruct sent; cbn [negb] in E; [|done]. exists s4. split; [|done]. by do 3 (etrans; [eassumption|]).
Qed.

(** The queue and the locks stay, and every file but that of the job numbers. *)
Definition same_queue s s' : Prop :=
  pd_jobs s' = pd_jobs s ∧ (unlocked s → unlocked s') ∧ agree {[JOBPATH]} (pd_spool s') (pd_spool s).
#[export] Instance same_queue_preorder : PreOrder same_queue.
Proof.
  split; [intros a; by split_and?|]. intros a b c (H1 & H2 & H3) (H4 & H5 & H6).
  split; [congruence|]. split; [tauto|]. eapply agree_trans; [exact H6|exact H3].
Qed.

Lemma same_mem_queue s s' : same_mem s s' → same_queue s s'.
Proof.
  intros (Hm & Hs & _). split; [by apply mem_jobs|]. rewrite Hs. split; [|done].
  unfold unlocked, mem in *. intros (? & ? & ?). injection Hm. intros. repeat split; congruence.
Qed.

Lemma frames_weaken {A} (m : prog printd A) : frames same_mem m → frames same_queue m.
Proof. intros H s. specialize (H s). destruct (m s); try done; by apply same_mem_queue. Qed.

Lemma frames_update_jobno : frames same_queue update_jobno.
Proof.
  unfold update_jobno. frame.
  - apply frames_weaken, frames_next_fault.
  - intros s'. split; [done|]. split; [done|]. simpl. apply agree_insert. set_solver.
  - by split_and!.
Qed.

(** The check of the configuration, from a state where its lock is free. *)
Lemma check_config_frame e s : unlocked s →
  match check_config e s with
  | Done _ s' | Fatal _ s' => same_queue s s' ∧ pd_faults s' = pd_faults s ∧ pd_spool s' = pd_spool s ∧ unlocked s'
  | Undef _ | NoFuel => False
  end.
Proof.
  intros (H1 & H2 & H3). destruct s; simpl in *. subst.
  unfold check_config, lock, unlock, mbind, prog_bind. simpl. destruct pd_reread; [|by split_and!].
  simpl. unfold init_printer, mbind, prog_bind. simpl. destruct (get_printaddr e); by split_and!.
Qed.

(** ** A round *)

(** The [k]th of the coming system calls on a file fails. *)
Definition call_fails (s : printd) (k : nat) : Prop := ∃ e, pd_faults s !! k = Some (FErr e).

(** print_job was run on the job's document, from a state with the same spool directory and
    queue but for the job, and gave [b]. *)
Definition job_sent (e : penv) (jid : Z) (req : printreq) (s : printd) (b : bool) : Prop :=
  ∃ data s2 s3, pd_spool s !! data_path jid = Some data ∧ agree {[JOBPATH]} (pd_spool s2) (pd_spool s) ∧
    print_job e jid req data s2 = Done b s3.

(** How a round may leave the queue and the files; [(p, (jid, req))] is the job at the
    head and [l] the others.  [k] calls come before the open of the document. *)
Definition round_ok (k : nat) (e : penv) (p : nat) (jid : Z) (req : printreq) (l : list (nat * jobinfo)) (s s' : printd)
    (o : pround) : Prop :=
  unlocked s' ∧
  match o with
  | PWaits => False
  | PPrinted => dl_rep (pd_jobs s') l ∧ job_sent e jid req s true ∧
      agree {[JOBPATH]} (pd_spool s') (delete (req_path jid) (delete (data_path jid) (pd_spool s)))
  | PCanceled => dl_rep (pd_jobs s') l ∧ agree {[JOBPATH]} (pd_spool s') (pd_spool s) ∧
      (call_fails s k ∨ pd_spool s !! data_path jid = None ∨ call_fails s (S k))
  | PDeferred => dl_rep (pd_jobs s') ((p, (jid, req)) :: l) ∧ agree {[JOBPATH]} (pd_spool s') (pd_spool s) ∧
      job_sent e jid req s false
  end.

(** The thread is still reading the printer's answer, with the files in place. *)
Definition answer_unread (e : penv) (jid : Z) (s : printd) : Prop :=
  ∃ s2, agree {[JOBPATH]} (pd_spool s2) (pd_spool s) ∧ pd_status e jid s2 = NoFuel.

Lemma agree_del X a b n : agree X a b → agree X (delete n a) (delete n b).
Proof.
  intros H i Hi. destruct (decide (n = i)) as [<-|].
  - by rewrite !lookup_delete_eq.
  - rewrite !lookup_delete_ne by done. by apply H.
Qed.

(** A job that has been taken off the list and is still in memory. *)
Definition detached (p : nat) (jid : Z) (req : printreq) (l : list (nat * jobinfo)) (d : dls job) : Prop :=
  dl_rep d l ∧ p ∉ fst <$> l ∧ ∃ n q, dl_heap d !! p = Some (Job n q jid req).

Lemma free_job_spec p jid req l s : detached p jid req l (pd_jobs s) →
  ∃ d, on_jobs (free (Some p)) s = Done tt (s <| pd_jobs := d |>) ∧ dl_rep d l.
Proof.
  intros (Hr & Hp & n & q & Hx). exists (DLS (delete p (dl_heap (pd_jobs s))) (dl_head (pd_jobs s)) (dl_tail (pd_jobs s))).
  split; [|by apply dl_free]. unfold on_jobs, free. rewrite Hx. by destruct s as [[]].
Qed.

Lemma replace_job_spec p jid req l s : detached p jid req l (pd_jobs s) → pd_joblock s = false →
  ∃ d, replace_job (Some p) s = Done tt (s <| pd_jobs := d |>) ∧ dl_rep d ((p, (jid, req)) :: l).
Proof.
  intros (Hr & Hp & n & q & Hx) Hl.
  destruct (jl_replace_spec _ _ _ _ _ _ _ Hr Hp Hx) as (d & E & Hd). exists d. split; [|done].
  destruct s; simpl in *. subst. unfold replace_job, on_jobs, lock, unlock, mbind, prog_bind. simpl. by rewrite E.
Qed.

Lemma pick_job_spec p jid req l s : unlocked s → dl_rep (pd_jobs s) ((p, (jid, req)) :: l) →
  ∃ n q d, (lock pd_joblock ≫= λ _, pick_job (Some p)) s
      = Done (Job n q jid req) (s <| pd_jobs := d |>) ∧ detached p jid req l d.
Proof.
  intros (H1 & H2 & H3) Hr.
  destruct (remove_job_spec (pd_jobs s) [] p jid req l Hr) as (d & n & q & E & Hd & Hx & Hp).
  exists n, q, d. split; [|by split_and!; [..|exists n, q]].
  destruct s; simpl in *. subst. unfold pick_job, on_jobs, lock, unlock, mbind, prog_bind.
  simpl. rewrite E. simpl. by rewrite Hx.
Qed.

Lemma printer_round_eq e s p : dl_head (pd_jobs s) = Some p → unlocked s →
  printer_round e s
  = (j ← (lock pd_joblock ≫= λ _, pick_job (Some p));
     update_jobno ;; check_config e ;; handle_job e (Some p) j) s.
Proof.
  intros Hh (H1 & _). unfold printer_round. rewrite bind_assoc.
  unfold lock. unfold mbind, prog_bind. rewrite H1. simpl. by rewrite Hh.
Qed.

(** Whatever happens to the job, it ends as [round_ok] says, and a process that ends
    in the middle leaves the files. *)
Definition round_post (k : nat) (e : penv) (p : nat) (jid : Z) (req : printreq) (l : list (nat * jobinfo)) (s : printd)
    (r : outcome printd pround) : Prop :=
  match r with
  | Done o s' => round_ok k e p jid req l s s' o
  | Fatal _ s' | Undef s' => agree {[JOBPATH]} (pd_spool s') (pd_spool s)
  | NoFuel => answer_unread e jid s
  end.

(** The job is given up. *)
Lemma cancel_spec k e p jid req l s s2 : unlocked s → detached p jid req l (pd_jobs s) → same_mem s s2 →
  call_fails s k ∨ pd_spool s !! data_path jid = None ∨ call_fails s (S k) →
  round_post k e p jid req l s ((on_jobs (free (Some p)) ;; mret PCanceled) s2).
Proof.
  intros Hu Hd (Hj & Hul & Hag)%same_mem_queue Hf.
  destruct (free_job_spec p jid req l s2) as (d & E & Hd'); [by rewrite Hj|].
  erewrite bind_done by exact E. split; [by apply Hul|]. by split.
Qed.

(** The document can be opened. *)
Lemma send_spec k e p jid req l s s2 data : unlocked s → detached p jid req l (pd_jobs s) → jobid_ok jid → same_mem s s2 →
  pd_spool s !! data_path jid = Some data →
  round_post k e p jid req l s ((printed ← print_job e jid req data;
      if (printed : bool) then
        unlink (data_path jid) ;; rname ← sprintf_path REQDIR (dec jid); unlink rname ;;
        on_jobs (free (Some p)) ;; mret PPrinted
      else replace_job (Some p) ;; mret PDeferred) s2).
Proof.
  intros Hu Hd Hid Hs2 Hdata. pose proof (length_dec_id jid Hid) as Hl. unfold mbind at 1, prog_bind at 1.
  pose proof (frames_print_job e jid req data s2) as Hs3. assert (Hsp2 : pd_spool s2 = pd_spool s) by apply Hs2.
  destruct (print_job e jid req data s2) as [b s3|x s3|s3|] eqn:Ep.
  2,3: assert (Hs13 : same_mem s s3) by (by etrans); destruct Hs13 as (_ & Hsp & _); simpl; by rewrite Hsp.
  2: { apply print_job_nofuel in Ep as (s3 & Hs & E). exists s3. split; [|done]. assert (Hs13 : same_mem s s3) by (by etrans).
       destruct Hs13 as (_ & Hsp & _). by rewrite Hsp. }
  assert (Hs13 : same_mem s s3) by (by etrans).
  assert (Hsent : job_sent e jid req s b) by (exists data, s2, s3; by rewrite Hsp2).
  pose proof Hs13 as (_ & Hsp3 & _). apply same_mem_queue in Hs13 as (Hj & Hul & Hag).
  destruct b.
  - destruct (unlink_spec (data_path jid) s3) as (s4 & E4 & Hm4 & Hk4 & Hf4 & Hs4 & Hh4).
    erewrite bind_done by exact E4.
    erewrite bind_done by (apply sprintf_path_ok; [done|lia]). fold (req_path jid).
    destruct (unlink_spec (req_path jid) s4) as (s5 & E5 & Hm5 & Hk5 & Hf5 & Hs5 & Hh5).
    erewrite bind_done by exact E5.
    assert (Hm : mem s5 = mem s3) by congruence.
    destruct (free_job_spec p jid req l s5) as (d & E & Hd'); [by rewrite (mem_jobs _ _ Hm), Hj|].
    erewrite bind_done by exact E.
    split; [|split; [done|split; [done|]]].
    + unfold mem in Hm. injection Hm. intros. destruct (Hul Hu) as (? & ? & ?). simpl.
      repeat split; simpl; congruence.
    + simpl. rewrite Hs5, Hs4, Hsp3. apply agree_refl.
  - destruct (replace_job_spec p jid req l s3) as (d & E & Hd');
      [by rewrite Hj|destruct (Hul Hu) as (? & _); done|].
    erewrite bind_done by exact E. split; [by apply Hul|]. by split.
Qed.

Lemma fault_fails s f s' : next_fault s = Done f s' →
  ((∃ e, f = FErr e) → call_fails s 0) ∧ ∀ k, call_fails s' k → call_fails s (S k).
Proof.
  unfold next_fault, call_fails. destruct (pd_faults s) as [|f0 r] eqn:E; intros [= <- <-].
  - split; [by intros [? ?]|]. intros k [e He]. by rewrite E, lookup_nil in He.
  - split; [intros [e ->]; by exists e|]. intros k [e He]. by exists e.
Qed.

Lemma handle_job_spec e p n q jid req l s :
  unlocked s → detached p jid req l (pd_jobs s) → jobid_ok jid →
  round_post 0 e p jid req l s (handle_job e (Some p) (Job n q jid req) s).
Proof.
  intros Hu Hd Hid. unfold handle_job. cbn [j_jobid j_req].
  pose proof (length_dec_id jid Hid) as Hl.
  erewrite bind_done by (apply sprintf_path_ok; [done|lia]). fold (data_path jid).
  unfold open_read. rewrite bind_assoc. unfold mbind at 1, prog_bind at 1.
  pose proof (frames_next_fault s) as Hs1. destruct (next_fault s) as [f s1| | |] eqn:E1;
    try (unfold next_fault in E1; by destruct (pd_faults s)).
  pose proof (fault_fails _ _ _ E1) as [Hf0 Hf1].
  rewrite bind_assoc. unfold get. unfold mbind at 1, prog_bind at 1. rewrite bind_ret.
  assert (Hsp1 : pd_spool s1 = pd_spool s) by apply Hs1.
  destruct (match f with FErr _ => None | _ => pd_spool s1 !! data_path jid end) as [data|] eqn:Ed.
  2: { apply cancel_spec; [done..|]. destruct f as [|x|x]; [right; left; by rewrite <- Hsp1|left; apply Hf0; by exists x|right; left; by rewrite <- Hsp1]. }
  assert (Hdata : pd_spool s !! data_path jid = Some data) by (rewrite <- Hsp1; by destruct f).
  unfold mbind at 1, prog_bind at 1.
  pose proof (frames_next_fault s1) as Hs2. destruct (next_fault s1) as [f2 s2| | |] eqn:E2;
    try (unfold next_fault in E2; by destruct (pd_faults s1)).
  pose proof (fault_fails _ _ _ E2) as [Hf2 _].
  assert (Hs12 : same_mem s s2) by by etrans.
  destruct f2 as [|x|x]; [by apply send_spec| |by apply send_spec].
  apply cancel_spec; [done..|]. right. right. apply Hf1, Hf2. by exists x.
Qed.

Lemma agree_lookup_eq X a b n : agree X a b → n ∉ X → a !! n = b !! n.
Proof. intros H Hn. by apply H. Qed.

Lemma jobpath_not_data jid : data_path jid ≠ JOBPATH.
Proof.
  unfold data_path, file_path, JOBPATH. intros E. apply app_inv_head in E.
  change SLASH with ["/"%char] in E. simpl in E. by injection E.
Qed.

Lemma update_jobno_fault s s' : update_jobno s = Done tt s' → ∀ k, call_fails s' k → call_fails s (S k).
Proof.
  unfold update_jobno, mbind, prog_bind. destruct (next_fault s) as [f s1| | |] eqn:E1; try done.
  destruct (fault_fails _ _ _ E1) as [_ Hf]. destruct (check _ _ s1) as [[] s2| | |] eqn:E2; try done.
  assert (s2 = s1) as -> by (unfold check in E2; destruct f; simpl in E2; by inversion E2).
  cbn. repeat case_match; try done; intros [= <-] k Hk; apply Hf; exact Hk.
Qed.

Lemma agree_post k e p jid req l s s2 r : agree {[JOBPATH]} (pd_spool s2) (pd_spool s) → pd_faults s2 = pd_faults s →
  round_post k e p jid req l s2 r → round_post k e p jid req l s r.
Proof.
  intros Ha Hf. assert (Hd : pd_spool s2 !! data_path jid = pd_spool s !! data_path jid).
  { apply Ha. pose proof (jobpath_not_data jid). set_solver. }
  assert (Hsent : ∀ b, job_sent e jid req s2 b → job_sent e jid req s b).
  { intros b (data & sa & sb & H1 & H2 & H3). exists data, sa, sb. rewrite Hd in H1. split; [done|]. split; [by eapply agree_trans|done]. }
  destruct r as [o s'|x s'|s'|]; simpl; try (intros H; by eapply agree_trans).
  - intros [Hu Ho]. split; [done|]. unfold call_fails in *. rewrite Hf, Hd in Ho. destruct o; [done| | |].
    + destruct Ho as (? & Hag & ?). split_and!; [done|by eapply agree_trans|done].
    + destruct Ho as (? & Hag & ?). split_and!; [done|by eapply agree_trans|by apply Hsent].
    + destruct Ho as (? & ? & Hag). split_and!; [done|by apply Hsent|]. eapply agree_trans; [exact Hag|]. by do 2 apply agree_del.
  - intros (s3 & H & E). exists s3. split; [by eapply agree_trans|done].
Qed.

(** A call on a file that comes earlier. *)
Lemma later_post k e p jid req l s s2 r : agree {[JOBPATH]} (pd_spool s2) (pd_spool s) →
  (∀ k, call_fails s2 k → call_fails s (S k)) → round_post k e p jid req l s2 r → round_post (S k) e p jid req l s r.
Proof.
  intros Ha Hf H. apply (agree_post k e p jid req l (s <| pd_faults := pd_faults s2 |>)) in H; [|done|done].
  destruct r as [o s'|x s'|s'|]; [|exact H|exact H|exact H]. destruct H as [Hu Ho]. split; [done|].
  destruct o; [done| |exact Ho|exact Ho]. destruct Ho as (? & ? & Hc). split_and!; [done|done|].
  destruct Hc as [Hc|[Hc|Hc]]; [left; by apply Hf|right; by left|right; right; by apply Hf].
Qed.

Lemma printer_round_spec e s p jid req l :
  unlocked s → dl_rep (pd_jobs s) ((p, (jid, req)) :: l) → jobid_ok jid →
  round_post 1 e p jid req l s (printer_round e s).
Proof.
  intros Hu Hr Hid.
  assert (Hh : dl_head (pd_jobs s) = Some p) by by rewrite (dl_hd _ _ Hr).
  rewrite (printer_round_eq e s p Hh Hu).
  destruct (pick_job_spec p jid req l s Hu Hr) as (n & q & d & E & Hd).
  erewrite bind_done by exact E. set (s1 := s <| pd_jobs := d |>).
  unfold mbind at 1, prog_bind at 1. pose proof (frames_update_jobno s1) as H2.
  destruct (update_jobno s1) as [[] s2|x s2|s2|] eqn:E2; [|apply H2|apply H2|].
  2: { unfold update_jobno, mbind, prog_bind in E2. destruct (next_fault s1) as [f s2| | |] eqn:E1;
         [|by unfold next_fault in E1; destruct (pd_faults s1)..]. destruct f; cbn in E2; try done;
       destruct (f_lseek _ _ _) as [? f1]; by destruct (f_write _ _) as [? f2]. }
  destruct H2 as (Hj2 & Hu2 & Ha2). specialize (Hu2 Hu).
  apply (later_post 0 e p jid req l s s2); [done|by apply (update_jobno_fault s1)|].
  unfold mbind at 1, prog_bind at 1. pose proof (check_config_frame e s2 Hu2) as H3.
  destruct (check_config e s2) as [[] s3|x s3|s3|]; [| |done..].
  2: { destruct H3 as (_ & _ & Hs3 & _). simpl. by rewrite Hs3. }
  destruct H3 as ((Hj3 & _ & _) & Hf3 & Hs3 & Hu3).
  apply (agree_post 0 e p jid req l s2 s3); [by rewrite Hs3|done|].
  apply handle_job_spec; [done|by rewrite Hj3, Hj2|done].
Qed.

(** ** What the printer is sent *)

(** The byte in front of plain text. *)
Definition extra_bytes (flags : Z) : bytes := if snd (doc_format flags) =? 0 then [] else [to_char 8].

Definition job_body (pname : bytes) (jid : Z) (req : printreq) (data : bytes) : bytes :=
  ipp_bytes jid (cstr pname) (cstr (rq_usernm req)) (cstr (rq_jobnm req)) (rq_flags req)
  ++ extra_bytes (rq_flags req) ++ data.

Lemma length_extra flags : Z.of_nat (length (extra_bytes flags)) = snd (doc_format flags).
Proof. unfold extra_bytes, doc_format. by destruct (negb _). Qed.

(** A kernel that takes every write whole. *)
Lemma writen_all b i o : writen b (Sock i o []) = (IoOk (length b), Sock i (o ++ b) []).
Proof.
  unfold writen. destruct b as [|c b]; [by rewrite app_nil_r|].
  set (b' := c :: b). change (length b') with (S (length b)). cbn [writen_loop].
  unfold sk_write. cbn [sk_wr sk_in sk_out]. change (length b') with (S (length b)).
  rewrite drop_ge by (simpl; lia). by destruct (length b).
Qed.

(** The whole rest of the file goes out. *)
Lemma send_data_ok fuel a m s i o :
  pd_faults s = [] → pd_sock s = Sock i o [] → (length m < fuel)%nat →
  send_data fuel (File (a ++ m) (Z.of_nat (length a))) s
  = Done true (s <| pd_sock := Sock i (o ++ m) [] |>).
Proof.
  revert a m s o. induction fuel as [|fuel IH]; intros a m s o Hf Hk Hl; [lia|]. cbn [send_data].
  erewrite bind_done by (unfold next_fault; rewrite Hf; reflexivity).
  destruct (decide (m = [])) as [->|Hm].
  - rewrite !app_nil_r, f_read_eof, <- Hk. by destruct s.
  - destruct (f_read_some a m Hm) as (b & m' & -> & Hb & ->). destruct b as [|c b]; [done|].
    set (b' := c :: b) in *. cbn beta iota.
    erewrite bind_done by (unfold pd_writen; rewrite Hk, writen_all; reflexivity).
    cbn beta iota. rewrite Nat.eqb_refl.
    rewrite (IH (a ++ b') m' (s <| pd_sock := Sock i (o ++ b') [] |>) (o ++ b')); [|done|done|].
    + simpl. by rewrite <- app_assoc.
    + rewrite length_app in Hl. simpl in Hl. lia.
Qed.

(** The conditions under which the headers fit their arrays. *)
Record fits (e : penv) (pname : bytes) (jid : Z) (req : printreq) (data : bytes) : Prop := {
  fit_ibuf : length (pe_ibuf e) = IBUFSZ;
  fit_hbuf : length (pe_hbuf e) = HBUFSZ;
  fit_nul : NUL ∈ rq_usernm req ∧ NUL ∈ rq_jobnm req;
  fit_name : (length (cstr pname) <= 52)%nat;
  fit_ipp : (length (ipp_bytes jid (cstr pname) (cstr (rq_usernm req)) (cstr (rq_jobnm req)) (rq_flags req)) <= IBUFSZ)%nat;
  fit_http : (length (http_bytes (Z.of_nat (length (job_body pname jid req data))) (cstr pname)) <= HBUFSZ)%nat }.

Lemma pd_write_all b s : sk_wr (pd_sock s) = [] →
  pd_write b s = Done (IoOk (length b)) (s <| pd_sock := Sock (sk_in (pd_sock s)) (sk_out (pd_sock s) ++ b) [] |>).
Proof. intros Hw. unfold pd_write, sk_write. by rewrite Hw. Qed.

(** Plain text gets its extra byte. *)
Lemma extra_ok {B} flags i o s (kk : bool → prog printd B) :
  pd_sock s = Sock i o [] →
  ((if snd (doc_format flags) =? 0 then mret true
    else nw ← pd_write [to_char 8]; mret (match nw with IoOk n => (n =? 1)%nat | _ => false end)) ≫= kk) s
  = kk true (s <| pd_sock := Sock i (o ++ extra_bytes flags) [] |>).
Proof.
  intros Hk. unfold extra_bytes. destruct (snd (doc_format flags) =? 0).
  - rewrite bind_ret, app_nil_r, <- Hk. by destruct s.
  - rewrite bind_assoc. erewrite bind_done by (apply pd_write_all; by rewrite Hk). by rewrite bind_ret, Hk.
Qed.

Lemma print_job_sends e pname jid req data s k :
  fits e pname jid req data → pe_connect e = Some k → sk_wr k = [] →
  pd_faults s = [] → pd_printer_name s = Some pname →
  print_job e jid req data s
  = pd_status e jid (s <| pd_sock := Sock (sk_in k)
      (sk_out k ++ http_bytes (Z.of_nat (length (job_body pname jid req data))) (cstr pname)
       ++ job_body pname jid req data) [] |>).
Proof.
  intros [Hi Hh Hnul Hn Hipp Hhttp] Hc Hwr Hf Hp. unfold print_job. rewrite Hc, bind_modify.
  unfold get. unfold mbind at 1, prog_bind at 1. change (pd_printer_name (s <| pd_sock := k |>)) with (pd_printer_name s). rewrite Hp.
  rewrite bind_defined_true by by apply bool_decide_eq_true.
  destruct (ipp_header_spec (pe_ibuf e) jid pname (rq_usernm req) (rq_jobnm req) (rq_flags req) Hi Hn Hipp)
    as (ibuf & -> & _ & Hib). cbn iota.
  set (ipp := ipp_bytes jid (cstr pname) (cstr (rq_usernm req)) (cstr (rq_jobnm req)) (rq_flags req)) in *.
  assert (Hlen : Z.of_nat (length data) + Z.of_nat (length ipp) + snd (doc_format (rq_flags req))
    = Z.of_nat (length (job_body pname jid req data))).
  { unfold job_body. fold ipp. rewrite !length_app, <- length_extra. lia. }
  rewrite Hlen.
  destruct (http_header_spec (pe_hbuf e) (Z.of_nat (length (job_body pname jid req data))) pname Hh Hhttp)
    as (hbuf & -> & _ & Hhb). cbn iota. rewrite Hib, Hhb.
  set (http := http_bytes _ _) in *.
  set (s1 := s <| pd_sock := Sock (sk_in k) (sk_out k ++ http ++ ipp) [] |>).
  assert (Ew : pd_write (http ++ ipp) (s <| pd_sock := k |>) = Done (IoOk (length (http ++ ipp))) s1)
    by exact (pd_write_all (http ++ ipp) (s <| pd_sock := k |>) Hwr).
  erewrite bind_done by exact Ew. cbn beta iota. rewrite length_app, Nat.eqb_refl.
  rewrite (extra_ok (rq_flags req) (sk_in k) (sk_out k ++ http ++ ipp) s1) by reflexivity. cbn [negb].
  erewrite bind_done.
  2: { apply (send_data_ok _ [] data); [exact Hf|reflexivity|lia]. }
  cbn [negb]. f_equal. unfold job_body. fold ipp. clearbody http ipp.
  unfold s1, update. simpl. by rewrite <- !app_assoc.
Qed.
