(* ===== verification/PrintdProps.v ===== *)
(** * Properties of the print server (printer/printd.c, print.c, util.c). *)
From Stdlib Require Import Ascii ZArith Lia.
From stdpp Require Import base strings gmap option list.
From S2P Require Import Prelude CStr PosixFile DList Sock Endian PrintReq PrintClient Ipp PrinterStatus Printd PrintdSpec PrintdRestart PrintdPrint.

Implicit Types (s : printd) (l : list (nat * jobinfo)).

(** ** Lemmas *)




(** ** Clients *)

(** C4: The thread of a client that is alone (no other worker, no lock taken), with
    memory from malloc and with unlink that succeeds: whatever arrives on its connection
    and however creat and write on the spool directory fail, it ends with the worker list
    and the locks as it found them and its socket closed; and its job is either accepted
    (request file and queue entry complete, a positive answer sent, and in the data file
    all that arrived before the first silence of 20 seconds, error or end of the stream) or
    rejected (no trace in the spool directory or the queue, a negative answer sent). *)
Theorem client_thread_outcome strerror mw p tid fd buf0 msg0 s l :
  idle s l → fresh_ptr (pd_workers s) mw → fresh_ptr (pd_jobs s) p →
  no_files (pd_nextjob s) (pd_spool s) →
  (∀ e, stop true (sk_in (pd_sock s)) = Some e → errno_ok e) →
  ∃ st s', client_thread strerror (Some mw) (Some p) tid fd buf0 msg0 s = Done st s' ∧
    client_outcome strerror p l buf0 msg0 st s s' ∧
    unlocked s' ∧ pd_workers s' = pd_workers s ∧ pd_closed s' = pd_closed s ++ [fd].
Proof.
  intros Hi Hw Hp Hno Hst.
  destruct (client_thread_spec strerror mw p tid fd buf0 msg0 s l Hi Hw Hp Hno Hst)
    as (st & s' & ? & ? & ? & ? & ? & _).
  by exists st, s'.
Qed.


(** ** The printer thread *)

(** C10: A round of the printer thread never loses a job: however the configuration,
    the files, the printer and the network behave, if the round ends, either print_job has
    sent the document and the printer has confirmed it, and the job, its files and its
    queue entry are gone; or print_job has failed, for want of a connection or for any other
    reason, and the job is back at the head of the queue with every file in place; or the
    job is dropped, with every file in place, and only because the document is not there
    or its open or fstat has failed.  If the process dies in the middle the files of all
    jobs are in place; and the only place where a round goes on for ever is the reading
    of the printer's answer. *)
Theorem printer_round_keeps_jobs e s p jid req l :
  unlocked s → dl_rep (pd_jobs s) ((p, (jid, req)) :: l) → jobid_ok jid →
  match printer_round e s with
  | Done o s' => round_ok 1 e p jid req l s s' o
  | Fatal _ s' | Undef s' => agree {[JOBPATH]} (pd_spool s') (pd_spool s)
  | NoFuel => answer_unread e jid s
  end.
Proof. apply printer_round_spec. Qed.
(** C19: What the printer receives: the HTTP header, the IPP header, the extra byte for
    plain text and the whole document, in this order, and the Content-Length of the
    HTTP header is the number of bytes behind it. *)
Theorem print_job_content e pname jid req data s k :
  fits e pname jid req data → pe_connect e = Some k → sk_wr k = [] →
  pd_faults s = [] → pd_printer_name s = Some pname →
  print_job e jid req data s
  = pd_status e jid (s <| pd_sock := Sock (sk_in k)
      (sk_out k ++ http_bytes (Z.of_nat (length (job_body pname jid req data))) (cstr pname)
       ++ job_body pname jid req data) [] |>).
Proof. apply print_job_sends. Qed.

(** ** Job numbers *)

Fixpoint take_ids (n : nat) : prog printd (list Z) :=
  match n with
  | O => mret []
  | S n' => id ← get_newjobno; ids ← take_ids n'; mret (id :: ids)
  end.

(** The id handed out [k] calls later, from [n] on. *)
Definition id_after (n k : Z) : Z := (n - 1 + k) mod (2 ^ 31 - 1) + 1.

Lemma id_after_ok n k : jobid_ok (id_after n k).
Proof. unfold jobid_ok, id_after. pose proof (Z.mod_pos_bound (n - 1 + k) (2 ^ 31 - 1)). lia. Qed.

Lemma id_after_0 n : jobid_ok n → id_after n 0 = n.
Proof. unfold jobid_ok, id_after. intros. rewrite Z.mod_small; lia. Qed.

Lemma id_after_next n k : jobid_ok n → id_after (next_id n) k = id_after n (1 + k).
Proof.
  unfold jobid_ok, id_after, next_id. intros. destruct (Z.eqb_spec (n + 1) (2 ^ 31)) as [E|E].
  - replace (n - 1 + (1 + k)) with (1 - 1 + k + 1 * (2 ^ 31 - 1)) by lia.
    by rewrite Z.mod_add by lia.
  - do 2 f_equal. lia.
Qed.

Lemma id_after_inj n i j : 0 <= i < j → j < 2 ^ 31 - 1 → id_after n i ≠ id_after n j.
Proof.
  unfold id_after. intros Hi Hj E. assert (E' : (n - 1 + i) mod (2 ^ 31 - 1) = (n - 1 + j) mod (2 ^ 31 - 1)) by lia.
  pose proof (Z.div_mod (n - 1 + i) (2 ^ 31 - 1)). pose proof (Z.div_mod (n - 1 + j) (2 ^ 31 - 1)). nia.
Qed.

Lemma take_ids_spec k s : pd_joblock s = false → jobid_ok (pd_nextjob s) →
  ∃ s', take_ids k s = Done ((λ i, id_after (pd_nextjob s) (Z.of_nat i)) <$> seq 0 k) s' ∧
    pd_nextjob s' = id_after (pd_nextjob s) (Z.of_nat k).
Proof.
  revert s. induction k as [|k IH]; intros s Hl Hn; cbn [take_ids].
  - exists s. split; [done|]. symmetry. by apply id_after_0.
  - erewrite bind_done by by apply get_newjobno_spec.
    destruct (IH (s <| pd_nextjob := next_id (pd_nextjob s) |>)) as (s' & E & Hs'); [done|by apply next_id_ok|].
    erewrite bind_done by exact E. exists s'. split.
    + simpl. f_equal. rewrite id_after_0 by done. f_equal. rewrite <- fmap_S_seq, <- list_fmap_compose.
      apply list_fmap_ext. intros _ i _. simpl. rewrite id_after_next by done. f_equal. lia.
    + rewrite Hs'. simpl. rewrite id_after_next by done. f_equal. lia.
Qed.

(** The numbers get_newjobno hands out are positive and, for fewer than 2^31 - 1
    calls in a row, all different; the wrap at the end of int32_t goes to 1. *)
Theorem job_ids_distinct k s : pd_joblock s = false → jobid_ok (pd_nextjob s) →
  Z.of_nat k < 2 ^ 31 →
  ∃ ids s', take_ids k s = Done ids s' ∧ length ids = k ∧ NoDup ids ∧ Forall jobid_ok ids ∧
    jobid_ok (pd_nextjob s').
Proof.
  intros Hl Hn Hk. destruct (take_ids_spec k s Hl Hn) as (s' & E & Hs'). eexists _, s'. split; [exact E|].
  split; [by rewrite length_fmap, length_seq|]. split; [|split; [|rewrite Hs'; apply id_after_ok]].
  - apply NoDup_fmap_2_strong; [|apply NoDup_ListNoDup, seq_NoDup].
    intros i j Hi Hj Eij. rewrite elem_of_seq in Hi, Hj.
    destruct (decide (i = j)) as [|Hne]; [done|]. exfalso.
    destruct (decide (i < j)%nat).
    + apply (id_after_inj (pd_nextjob s) (Z.of_nat i) (Z.of_nat j)); [lia|lia|done].
    + apply (id_after_inj (pd_nextjob s) (Z.of_nat j) (Z.of_nat i)); [lia|lia|done].
  - apply Forall_fmap, Forall_forall. intros i _. apply id_after_ok.
Qed.

(** The job number file: what update_jobno leaves in it. *)
Lemma update_jobno_file s : pd_faults s = [] →
  ∃ s', update_jobno s = Done tt s' ∧ pd_nextjob s' = pd_nextjob s ∧
    pd_spool s' = <[JOBPATH := dec (pd_nextjob s) ++
      drop (length (dec (pd_nextjob s))) (default [] (pd_spool s !! JOBPATH))]> (pd_spool s).
Proof.
  intros Hf. unfold update_jobno. erewrite bind_done by (unfold next_fault; rewrite Hf; reflexivity).
  rewrite bind_check_true by done. unfold get. unfold mbind at 1, prog_bind at 1.
  rewrite f_lseek_set by lia. unfold f_write. cbn [fdata fpos]. eexists. split; [reflexivity|].
  split; [done|]. simpl. by rewrite put_at_0.
Qed.

(** The job number survives a restart: after update_jobno a new daemon starts from
    the number of the old one, as long as the file did not hold a longer number (which
    it does only after the wrap, which the code does not handle). *)
Theorem jobno_roundtrip s :
  pd_faults s = [] → jobid_ok (pd_nextjob s) →
  (length (default [] (pd_spool s !! JOBPATH)) <= length (dec (pd_nextjob s)))%nat →
  ∃ s', update_jobno s = Done tt s' ∧
    ∀ s2, pd_spool s2 = pd_spool s' →
      ∃ s3, init_request true s2 = Done tt s3 ∧ pd_nextjob s3 = pd_nextjob s.
Proof.
  intros Hf Hn Hl. destruct (update_jobno_file s Hf) as (s' & E & _ & Hs'). exists s'. split; [done|].
  intros s2 Hs2. rewrite drop_ge, app_nil_r in Hs' by done.
  unfold init_request. unfold get. unfold mbind at 1, prog_bind at 1. rewrite Hs2, Hs', lookup_insert_eq.
  rewrite bind_ret, bind_modify, bind_check_true by done. unfold mbind at 1, prog_bind at 1.
  pose proof (length_dec_id _ Hn) as Hld.
  assert (Hrd : f_read (Z.of_nat FILENMSZ)
      (File (default [] (pd_spool (s2 <| pd_jobpos := 0 |>) !! JOBPATH)) (pd_jobpos (s2 <| pd_jobpos := 0 |>)))
    = (dec (pd_nextjob s), File (dec (pd_nextjob s)) (Z.of_nat (length (dec (pd_nextjob s)))))).
  { change (pd_spool (s2 <| pd_jobpos := 0 |>)) with (pd_spool s2).
    change (pd_jobpos (s2 <| pd_jobpos := 0 |>)) with 0.
    rewrite Hs2, Hs', lookup_insert_eq. unfold f_read. simpl default. cbn [fdata fpos].
    rewrite Nat2Z.id. change (Z.to_nat 0) with 0%nat. rewrite slice_all by (unfold FILENMSZ; lia). done. }
  rewrite Hrd. eexists. split; [reflexivity|]. simpl. unfold jobid_ok in Hn.
  assert (Hpos : (1 <= length (dec (pd_nextjob s)))%nat).
  { unfold dec. rewrite (proj2 (Z.ltb_ge _ _)) by lia. apply udec_length_pos. lia. }
  rewrite (proj2 (Nat.eqb_neq _ _)) by lia. rewrite put_at_0, atol_dec; [by rewrite wrap_s_id by lia|lia|].
  (* what the path leaves behind the number is not a digit *)
  remember (length (dec (pd_nextjob s))) as n eqn:En. clear -Hpos Hld.
  do 11 (destruct n as [|n]; [try lia; by vm_compute|]). lia.
Qed.

(** ** The list of workers *)

Definition add2_cleanup (p1 p2 : nat) (t1 t2 fd1 fd2 : Z) : prog printd unit :=
  add_worker (Some p1) t1 fd1 ;; add_worker (Some p2) t2 fd2 ;; client_cleanup t1.

(** add_worker does not move the head of a list that is not empty.  With two clients
    at a time the second worker is never found again: it survives kill_workers while the
    first is there; and once the first has cleaned up, [workers] points to freed memory,
    so that the next kill_workers or add_worker has no defined behaviour. *)
Theorem worker_list_broken p1 p2 p3 t1 t2 t3 fd1 fd2 fd3 s :
  pd_workerlock s = false → dl_head (pd_workers s) = None → p1 ≠ p2 → p1 ≠ p3 →
  fresh_ptr (pd_workers s) p1 → fresh_ptr (pd_workers s) p2 →
  (∃ s', (add_worker (Some p1) t1 fd1 ;; add_worker (Some p2) t2 fd2 ;; kill_workers) s = Done tt s' ∧
     pd_cancelled s' = pd_cancelled s ++ [t1]) ∧
  ∃ s', add2_cleanup p1 p2 t1 t2 fd1 fd2 s = Done tt s' ∧
    (∃ s2, kill_workers s' = Undef s2) ∧ (∃ s2, add_worker (Some p3) t3 fd3 s' = Undef s2).
Proof.
  intros Hl Hh H12 H13 Hf1 Hf2. 
  assert (E2 : ∀ s0, s0 = s <| pd_workers := DLS (<[p1 := Worker None None t1 fd1]> (dl_heap (pd_workers s)))
      (Some p1) (dl_tail (pd_workers s)) |> →
    add_worker (Some p2) t2 fd2 s0 = Done true (s <| pd_workers :=
      DLS (<[p1 := Worker None (Some p2) t1 fd1]> (<[p2 := Worker (Some p1) None t2 fd2]> (dl_heap (pd_workers s))))
        (Some p1) (dl_tail (pd_workers s)) |>)).
  { intros s0 ->. destruct s as [jobs [wh hd tl]]; simpl in *. subst.
    unfold add_worker, on_workers, lock, unlock, wl_add, mbind, prog_bind. simpl.
    do 4 (rewrite ?lookup_insert_eq, ?insert_insert_eq; simpl).
    rewrite lookup_insert_ne, lookup_insert_eq by done. simpl.
    rewrite (insert_insert_ne wh p2 p1) by done. by rewrite insert_insert_eq. }
  set (w2 := DLS (<[p1 := Worker None (Some p2) t1 fd1]>
    (<[p2 := Worker (Some p1) None t2 fd2]> (dl_heap (pd_workers s)))) (Some p1) (dl_tail (pd_workers s))) in *.
  split.
  - erewrite bind_done by by apply add_worker_spec. erewrite bind_done by by apply E2.
    destruct s as [jobs [wh hd tl]]; simpl in *. subst.
    unfold kill_workers, on_workers, lock, unlock, w2. unfold mbind, prog_bind. simpl.
    do 4 (unfold mbind, prog_bind; simpl; rewrite ?lookup_insert_eq; simpl).
    destruct (size _); (eexists; split; [reflexivity|done]).
  - unfold add2_cleanup. erewrite bind_done by by apply add_worker_spec. erewrite bind_done by by apply E2.
    destruct s as [jobs [wh hd tl]]; simpl in *. subst.
    assert (E : ∃ s', client_cleanup t1 (Printd jobs w2 pd_nextjob pd_jobpos pd_spool pd_reread pd_printer
        pd_printer_name pd_joblock false pd_configlock pd_faults pd_sock pd_closed pd_cancelled pd_history)
      = Done tt s' ∧ dl_head (pd_workers s') = Some p1 ∧ dl_heap (pd_workers s') !! p1 = None ∧
        pd_workerlock s' = false).
    { unfold client_cleanup, on_workers, lock, unlock, w2. unfold mbind, prog_bind. simpl.
      do 4 (unfold mbind, prog_bind; simpl; rewrite ?lookup_insert_eq, ?Z.eqb_refl; simpl).
      do 6 (repeat first [rewrite lookup_insert_eq|rewrite lookup_insert_ne by done]; simpl).
      eexists. split; [reflexivity|]. simpl. split; [done|]. split; [|done]. by rewrite lookup_delete_eq. }
    destruct E as (s' & E & Hd & Hn & Hk). exists s'. split; [exact E|]. clear E E2 w2.
    destruct s' as [jobs' [wh' hd' tl']]; simpl in *. subst. split.
    + unfold kill_workers, on_workers, lock, mbind, prog_bind. simpl. unfold mbind, prog_bind. simpl.
      rewrite Hn. by eexists.
    + unfold add_worker, on_workers, lock, wl_add, mbind, prog_bind. simpl.
      do 3 (rewrite ?lookup_insert_eq, ?insert_insert_eq; simpl).
      rewrite lookup_insert_ne, Hn by done. by eexists.
Qed.

(** ** From print to the spool directory and back *)

Lemma ok_resp_wf msg0 id : length msg0 = MSGLEN_MAX → jobid_ok id → resp_wf (ok_resp msg0 id).
Proof.
  intros Hm Hid. pose proof (length_dec_id id Hid). split; cbn [ok_resp rs_retcode rs_jobid rs_msg].
  - lia.
  - apply htonl_range.
  - rewrite length_put_at; [done|]. rewrite !length_app, Hm. unfold MSGLEN_MAX.
    change (length (str "request ID ")) with 11%nat. simpl length. lia.
Qed.

(** What print reports on a positive answer. *)
Lemma report_ok msg0 id rest c : length msg0 = MSGLEN_MAX → jobid_ok id →
  report (resp_bytes (ok_resp msg0 id) ++ rest) c
  = Done tt (c <| c_stdout ::= λ o, o ++ str "job ID " ++ dec id ++ [NEWLINE] |>).
Proof.
  intros Hm Hid. pose proof (ok_resp_wf msg0 id Hm Hid) as Hwf.
  pose proof (length_resp_bytes _ Hwf) as Hl. unfold report.
  rewrite take_app_length' by done. rewrite resp_of_resp_bytes by done.
  rewrite (proj2 (Nat.ltb_ge _ _)) by (rewrite length_app; lia). cbn [ok_resp rs_retcode rs_jobid].
  rewrite Z.eqb_refl, htonl_htonl. unfold jobid_ok in Hid. by rewrite Z.mod_small by lia.
Qed.

Lemma host_req_of_bytes r : req_wf r →
  host_req (req_bytes r) = r <| rq_size := ntohl (rq_size r) |> <| rq_flags := ntohl (rq_flags r) |>.
Proof. intros Hr. unfold host_req. by rewrite req_of_req_bytes. Qed.

Lemma doc_flags_text buf0 evs : doc_flags buf0 evs true PR_TEXT = PR_TEXT.
Proof. unfold doc_flags. destruct (first_read evs); [done|]. by destruct (_ && _). Qed.

(** C9: print and printd together: when the daemon's connection delivers what print
    sends (in any pieces) and print's connection what the daemon answers, and the daemon
    takes the job, then print reports the id under which the spool directory holds the
    unchanged document and the request with the name of the user, the (shortened) name
    of the document, its size and the text option, and the job is last in the queue. *)
Theorem print_to_printd strerror req0 pw fname nbytes text c s l mw p tid fd buf0 msg0 :
  length (rq_usernm req0) = USERNM_MAX → length (rq_jobnm req0) = JOBNM_MAX →
  no_nul fname → (∀ n, pw = Some n → no_nul n) →
  stop false (c_fd c) = None → writable (c_sock c) → sk_out (c_sock c) = [] →
  idle s l → fresh_ptr (pd_workers s) mw → fresh_ptr (pd_jobs s) p →
  no_files (pd_nextjob s) (pd_spool s) → length msg0 = MSGLEN_MAX →
  let sent := req_bytes (build_req req0 pw fname nbytes text) ++ avail false (c_fd c) in
  avail true (sk_in (pd_sock s)) = sent →
  (∀ e, stop true (sk_in (pd_sock s)) = Some e → errno_ok e) →
  sk_out (pd_sock s) = [] → writable (pd_sock s) →
  let id := pd_nextjob s in
  ∃ st s', client_thread strerror (Some mw) (Some p) tid fd buf0 msg0 s = Done st s' ∧
    (st = 0 → avail false (sk_in (c_sock c)) = sk_out (pd_sock s') →
     ∃ c' req, submit_file req0 pw fname nbytes text c = Done tt c' ∧
       sk_out (c_sock c') = sent ∧
       c_stdout c' = c_stdout c ++ str "job ID " ++ dec id ++ [NEWLINE] ∧
       pd_spool s' !! data_path id = Some (avail false (c_fd c)) ∧
       pd_spool s' !! req_path id = Some (req_bytes req) ∧
       dl_rep (pd_jobs s') (l ++ [(p, (id, req))]) ∧
       cstr (rq_usernm req) = user_name pw ∧ cstr (rq_jobnm req) = trunc_name fname ∧
       rq_size req = nbytes mod 2 ^ 32 ∧ (text = true → rq_flags req = PR_TEXT)).
Proof.
  intros Hu Hj Hfn Hpw Hfd Hwc Hoc Hi Hmw Hp Hno Hm sent Hsent Hst Hos Hws id.
  destruct (client_thread_spec strerror mw p tid fd buf0 msg0 s l Hi Hmw Hp Hno Hst) as (st & s' & E & Ho & _).
  exists st, s'. split; [exact E|]. intros -> Hans.
  pose proof (build_req_wf req0 pw fname nbytes text Hu Hj) as Hwf.
  destruct (build_req_says req0 pw fname nbytes text Hu Hj Hfn Hpw) as (B1 & B2 & B3 & B4).
  pose proof (length_req_bytes _ Hwf) as Hlr.
  unfold client_outcome in Ho. rewrite Hsent in Ho. unfold sent in Ho.
  rewrite decide_True in Ho by (rewrite length_app; lia).
  rewrite take_app_length', drop_app_length' in Ho by done. rewrite host_req_of_bytes in Ho by done.
  destruct Ho as (evs & _ & _ & _ & Ho). destruct Ho as [[_ Ha]|[? _]]; [|done].
  destruct Ha as (Hsp & Hrep & n & Hout & Hall).
  set (req := queued_req _ _ _) in *. fold id in Hsp, Hrep, Hout, Hall.
  rewrite Hos, (Hall Hws) in Hout. simpl in Hout.
  destruct (submit_file_ok req0 pw fname nbytes text c Hu Hj Hfd Hwc) as (c' & Ec & Hco & Hcs).
  rewrite Hans, Hout in Ec. rewrite <- (app_nil_r (resp_bytes _)) in Ec.
  rewrite report_ok in Ec by (done || apply Hi).
  eexists _, req. split; [exact Ec|]. split; [by simpl; rewrite Hco, Hoc|]. split; [by simpl; rewrite Hcs|].
  rewrite Hsp. split; [rewrite lookup_insert_ne by (symmetry; apply data_path_req); by rewrite lookup_insert_eq|].
  split; [by rewrite lookup_insert_eq|]. split; [exact Hrep|].
  split; [exact B3|]. split; [exact B4|]. split; [exact B1|]. intros ->.
  change (rq_flags req) with (doc_flags buf0 evs true (ntohl (rq_flags (build_req req0 pw fname nbytes true)))).
  rewrite B2. apply doc_flags_text.
Qed.

(** ** A restart that hands out a number in use *)

(** The ids of the jobs in the queue, by walking the list. *)
Fixpoint queue_ids (fuel : nat) (h : gmap nat job) (p : ptr) : list Z :=
  match fuel, p with
  | S f, Some a => match h !! a with Some j => j_jobid j :: queue_ids f h (j_next j) | None => [] end
  | _, _ => []
  end.
Definition queue_of (s : printd) : list Z := queue_ids 10 (dl_heap (pd_jobs s)) (dl_head (pd_jobs s)).

Definition ex_err (_ : Z) : bytes := str "error".
Definition ex_req : printreq :=
  PrintReq 0 0 (str "sar" ++ replicate 61 NUL) (str "a.txt" ++ replicate 251 NUL).
(** A client that sends the document [doc]. *)
Definition ex_client (p : nat) (doc : string) : prog printd Z :=
  modify (λ s, s <| pd_sock := Sock [RvData (req_bytes ex_req); RvData (str doc); RvTimeout] [] [] |>) ;;
  client_thread ex_err (Some p) (Some p) (Z.of_nat p) 5 [] (replicate 512 NUL).
(** The printer is configured but does not answer. *)
Definition ex_env : penv :=
  Penv (str "printer lp" ++ [NEWLINE]) (λ h, Some (Some h)) None ibuf_ex ibuf_ex [] 0.

Definition session1 : prog printd unit :=
  printd_start ex_env true [] [] ;;
  ex_client 1 "first document" ;;
  printer_round ex_env ;;
  ex_client 2 "second document" ;;
  mret tt.
Definition session2 : prog printd unit :=
  printd_start ex_env true [str "1"; str "2"] [1; 2]%nat ;;
  ex_client 3 "third document" ;;
  mret tt.

(** The state a program ends in. *)
Definition is_done (o : outcome printd unit) : bool := match o with Done _ _ => true | _ => false end.
Definition end_state (o : outcome printd unit) : printd :=
  match o with Done _ s => s | _ => printd_init ∅ [] end.
Lemma is_done_eq o : is_done o = true → o = Done tt (end_state o).
Proof. by destruct o as [[] ?| | |]. Qed.

(** The number on disk is only brought up to date when the printer thread picks a
    job.  A daemon that is stopped with a job accepted since then hands out the number
    of that job again after the restart: the new document takes the place of the
    waiting one, and two jobs with the same number are in the queue. *)
Theorem restart_reuses_jobid :
  ∃ s1 s2, session1 (printd_init ∅ []) = Done tt s1 ∧ queue_of s1 = [1; 2] ∧
    pd_spool s1 !! data_path 2 = Some (str "second document") ∧
    session2 (printd_init (pd_spool s1) []) = Done tt s2 ∧ queue_of s2 = [1; 2; 2] ∧
    pd_spool s2 !! data_path 2 = Some (str "third document").
Proof.
  set (s1 := end_state (session1 (printd_init ∅ []))).
  exists s1, (end_state (session2 (printd_init (pd_spool s1) []))).
  split; [apply is_done_eq; vm_compute; reflexivity|].
  split; [vm_compute; reflexivity|]. split; [vm_compute; reflexivity|].
  split; [apply is_done_eq; vm_compute; reflexivity|].
  split; vm_compute; reflexivity.
Qed.

(** ** Concrete inputs *)

Definition ex_sock : sock := Sock [RvData (req_bytes ex_req); RvData (str "a document"); RvTimeout] [] [].
Definition ex_state : printd := printd_init ∅ [] <| pd_nextjob := 1 |> <| pd_sock := ex_sock |>.
Definition ex_msg : bytes := replicate 512 NUL.

Lemma empty_rep : dl_rep (P := jobinfo) (DLS (∅ : gmap nat job) None None) [].
Proof. split; [constructor|done|done|]. by intros [|] ? ? ? ?. Qed.

Lemma ex_idle : idle ex_state [].
Proof.
  split; [by repeat split|done|constructor|by unfold jobid_ok|]. exact empty_rep.
Qed.

Lemma ex_errno : ∀ e, Some ETIME = Some e → errno_ok e.
Proof. intros e [= <-]. by unfold errno_ok, ETIME. Qed.

Lemma client_thread_outcome_witness :
  ∃ st s', client_thread ex_err (Some 1%nat) (Some 1%nat) 7 5 [] ex_msg ex_state = Done st s' ∧
    client_outcome ex_err 1%nat [] [] ex_msg st ex_state s' ∧
    unlocked s' ∧ pd_workers s' = pd_workers ex_state ∧ pd_closed s' = pd_closed ex_state ++ [5].
Proof.
  apply (client_thread_outcome ex_err 1%nat 1%nat 7 5 [] ex_msg ex_state []);
    [exact ex_idle|reflexivity|reflexivity|by split|].
  exact ex_errno.
Defined.



(** A daemon with one job in the queue. *)
Definition ex_jobs : dls job := DLS {[0%nat := Job None None 1 ex_req]} (Some 0%nat) (Some 0%nat).
Definition ex_queue : printd :=
  printd_init {[data_path 1 := str "a document"; req_path 1 := req_bytes ex_req]} []
    <| pd_jobs := ex_jobs |> <| pd_nextjob := 2 |> <| pd_printer_name := Some (str "lp") |>.

Lemma ex_jobs_rep : dl_rep ex_jobs [(0%nat, (1, ex_req))].
Proof.
  split; [apply NoDup_singleton|done|done|].
  intros [|? [|]] q v lb E; simplify_eq/=. by eexists.
Qed.

Lemma printer_round_keeps_jobs_witness :
  ∃ s', printer_round ex_env ex_queue = Done PDeferred s' ∧
    round_ok 1 ex_env 0%nat 1 ex_req [] ex_queue s' PDeferred.
Proof.
  pose proof (printer_round_keeps_jobs ex_env ex_queue 0%nat 1 ex_req []
    ltac:(by repeat split) ex_jobs_rep ltac:(by unfold jobid_ok)) as H.
  assert (Hd : match printer_round ex_env ex_queue with Done PDeferred _ => true | _ => false end = true)
    by (vm_compute; reflexivity).
  destruct (printer_round ex_env ex_queue) as [[] s'| | |]; try discriminate Hd.
  exists s'. split; [reflexivity|exact H].
Defined.

Definition ex_printer : penv :=
  Penv (str "printer lp" ++ [NEWLINE]) (λ h, Some (Some h)) (Some (Sock [RvData answer_ok] [] []))
    ibuf_ex ibuf_ex junk_ex 200.

Lemma print_job_content_witness :
  print_job ex_printer 1 ex_req (str "a document") ex_queue
  = pd_status ex_printer 1 (ex_queue <| pd_sock := Sock [RvData answer_ok]
      (http_bytes (Z.of_nat (length (job_body (str "lp") 1 ex_req (str "a document")))) (str "lp")
       ++ job_body (str "lp") 1 ex_req (str "a document")) [] |>).
Proof.
  apply (print_job_content ex_printer (str "lp") 1 ex_req (str "a document") ex_queue
           (Sock [RvData answer_ok] [] [])); try reflexivity.
  split; try reflexivity.
  - split; vm_compute; set_solver.
  - vm_compute. lia.
  - vm_compute. lia.
  - vm_compute. lia.
Defined.

Lemma job_ids_distinct_witness :
  ∃ ids s', take_ids 3 (printd_init ∅ [] <| pd_nextjob := 2 ^ 31 - 2 |>) = Done ids s' ∧
    length ids = 3%nat ∧ NoDup ids ∧ Forall jobid_ok ids ∧ jobid_ok (pd_nextjob s').
Proof. apply job_ids_distinct; [reflexivity|by unfold jobid_ok|lia]. Defined.

Lemma jobno_roundtrip_witness :
  ∃ s', update_jobno ex_queue = Done tt s' ∧
    ∀ s2, pd_spool s2 = pd_spool s' →
      ∃ s3, init_request true s2 = Done tt s3 ∧ pd_nextjob s3 = 2.
Proof.
  apply (jobno_roundtrip ex_queue); [reflexivity|by unfold jobid_ok|vm_compute; lia].
Defined.

Lemma worker_list_broken_witness :
  (∃ s', (add_worker (Some 1%nat) 11 5 ;; add_worker (Some 2%nat) 12 6 ;; kill_workers) ex_state = Done tt s' ∧
     pd_cancelled s' = [11]) ∧
  ∃ s', add2_cleanup 1 2 11 12 5 6 ex_state = Done tt s' ∧
    (∃ s2, kill_workers s' = Undef s2) ∧ (∃ s2, add_worker (Some 3%nat) 13 7 s' = Undef s2).
Proof. apply (worker_list_broken 1 2 3 11 12 13 5 6 7 ex_state); reflexivity || discriminate. Defined.

(** print submits a file of ten bytes to [ex_state]'s daemon. *)
Definition ex_junk_req : printreq := PrintReq 0 0 (replicate 64 NUL) (replicate 256 NUL).
Definition ex_sent : bytes :=
  req_bytes (build_req ex_junk_req (Some (str "sar")) (str "a.txt") 10 true) ++ str "a document".
Definition ex_daemon : printd := ex_state <| pd_sock := Sock [RvData ex_sent; RvTimeout] [] [] |>.
Definition ex_print (answer : bytes) : client :=
  Client [RvData (str "a document")] (Sock [RvData answer] [] []) [].

Lemma ex_sent_avail : avail true (sk_in (pd_sock ex_daemon)) = ex_sent.
Proof. apply app_nil_r. Qed.

Lemma print_to_printd_witness :
  ∃ s' c' req, client_thread ex_err (Some 1%nat) (Some 1%nat) 7 5 [] ex_msg ex_daemon = Done 0 s' ∧
    submit_file ex_junk_req (Some (str "sar")) (str "a.txt") 10 true (ex_print (sk_out (pd_sock s'))) = Done tt c' ∧
    c_stdout c' = str "job ID 1" ++ [NEWLINE] ∧
    pd_spool s' !! data_path 1 = Some (str "a document") ∧
    dl_rep (pd_jobs s') [(1%nat, (1, req))].
Proof.
  assert (Hd : match client_thread ex_err (Some 1%nat) (Some 1%nat) 7 5 [] ex_msg ex_daemon with
      | Done st _ => st =? 0 | _ => false end = true) by (vm_compute; reflexivity).
  destruct (client_thread ex_err (Some 1%nat) (Some 1%nat) 7 5 [] ex_msg ex_daemon) as [st s'| | |] eqn:E;
    try discriminate Hd.
  apply Z.eqb_eq in Hd. subst st. exists s'.
  destruct (print_to_printd ex_err ex_junk_req (Some (str "sar")) (str "a.txt") 10 true
    (ex_print (sk_out (pd_sock s'))) ex_daemon [] 1%nat 1%nat 7 5 [] ex_msg)
    as (st & s2 & E2 & H);
    [reflexivity|reflexivity|no_nul_const|intros n [= <-]; no_nul_const|reflexivity|constructor|reflexivity
    |destruct ex_idle; by split|reflexivity|reflexivity|by split|reflexivity|exact ex_sent_avail|exact ex_errno
    |reflexivity|constructor|].
  rewrite E in E2. injection E2 as <- <-.
  destruct H as (c' & req & H1 & _ & H3 & H4 & _ & H6 & _); [reflexivity|by simpl; rewrite app_nil_r|].
  exists c', req. split; [reflexivity|]. split; [exact H1|]. split; [exact H3|]. split; [exact H4|exact H6].
Defined.
