(* ===== verification/Semaph.v ===== *)
(** * The semaphore library lib/semaph.c

    The seven routines on top of the System V semaphore calls.  A routine is a
    tree of system calls ([proc]); a process is at one node of such a tree, and
    the processes take turns at system calls, so that every interleaving of the
    calls is a run.  The kernel part follows semget(2), semop(2) and semctl(2):
    an array of operations is atomic, SEM_UNDO keeps an adjustment per process
    that its exit applies, SETVAL clears the adjustments, a process asleep in
    semop when the set goes away sees EIDRM, a later call sees EINVAL. *)
From Stdlib Require Import Ascii ZArith Lia.
From stdpp Require Import base strings gmap option list.
From S2P Require Import Prelude.

(** ** The kernel *)

(** The three members of a set. *)
Record trip := T3 { t0 : Z; t1 : Z; t2 : Z }.
Definition tget (n : nat) (t : trip) : Z :=
  match n with O => t0 t | S O => t1 t | _ => t2 t end.
Definition tset (n : nat) (x : Z) (t : trip) : trip :=
  match n with
  | O => T3 x (t1 t) (t2 t)
  | S O => T3 (t0 t) x (t2 t)
  | _ => T3 (t0 t) (t1 t) x
  end.
Definition tzero : trip := T3 0 0 0.

(** A set: its key, the values and the adjustments of the processes. *)
Record semset := SemSet { ss_key : Z; ss_val : trip; ss_adj : gmap nat trip }.
Definition adj_of (s : semset) (p : nat) : trip := default tzero (ss_adj s !! p).

(** struct sembuf; [sem_undo] is the SEM_UNDO flag, the only one the library uses. *)
Record sembuf := Sembuf { sem_num : nat; sem_by : Z; sem_undo : bool }.

Definition SEMVMX : Z := 32767.
Definition ENOENT : Z := 2.
Definition EINVAL : Z := 22.
Definition ERANGE : Z := 34.
Definition EIDRM : Z := 43.

Inductive sopres := SopDone (s : semset) | SopWait | SopErr (e : Z).

Definition do_op (p : nat) (o : sembuf) (s : semset) : sopres :=
  let n := sem_num o in
  let v := tget n (ss_val s) in
  let v' := v + sem_by o in
  let a' := tget n (adj_of s p) - sem_by o in
  if sem_by o =? 0 then (if v =? 0 then SopDone s else SopWait)
  else if v' <? 0 then SopWait
  else if SEMVMX <? v' then SopErr ERANGE
  else if sem_undo o && ((a' <? - SEMVMX - 1) || (SEMVMX <? a')) then SopErr ERANGE
  else SopDone (SemSet (ss_key s) (tset n v' (ss_val s))
                  (if sem_undo o then <[p := tset n a' (adj_of s p)]> (ss_adj s) else ss_adj s)).

Fixpoint do_ops (p : nat) (ops : list sembuf) (s : semset) : sopres :=
  match ops with
  | [] => SopDone s
  | o :: ops' =>
      match do_op p o s with
      | SopDone s' => do_ops p ops' s'
      | r => r
      end
  end.

Definition set_val (n : nat) (v : Z) (s : semset) : semset :=
  SemSet (ss_key s) (tset n v (ss_val s)) (tset n 0 <$> ss_adj s).

(** What the exit of process [p] does to a set. *)
Definition clamp (x : Z) : Z := Z.max 0 (Z.min x SEMVMX).
Definition undo (p : nat) (s : semset) : semset :=
  let a := adj_of s p in let v := ss_val s in
  SemSet (ss_key s) (T3 (clamp (t0 v + t0 a)) (clamp (t1 v + t1 a)) (clamp (t2 v + t2 a)))
    (delete p (ss_adj s)).

Record kern := Kern { k_sets : gmap Z semset; k_keys : gmap Z Z; k_next : Z }.

Inductive syscall :=
  | Semget (key : Z) (creat : bool)      (* semget(key, 3, 0666 | IPC_CREAT) or semget(key, 3, 0) *)
  | Semop (id : Z) (ops : list sembuf)
  | Getval (id : Z) (n : nat)            (* semctl(id, n, GETVAL, 0) *)
  | Setval (id : Z) (n : nat) (v : Z)    (* semctl(id, n, SETVAL, arg) *)
  | Rmid (id : Z).                       (* semctl(id, 0, IPC_RMID, 0) *)

Inductive sysret := SErr (e : Z) | SOk (v : Z).
Inductive kres := KRet (r : sysret) (k : kern) | KBlock.

Definition upd_set (id : Z) (s : semset) (k : kern) : kern :=
  Kern (<[id := s]> (k_sets k)) (k_keys k) (k_next k).

Definition k_semget (key : Z) (creat : bool) (k : kern) : sysret * kern :=
  match k_keys k !! key with
  | Some id => (SOk id, k)
  | None =>
      if creat then
        (SOk (k_next k), Kern (<[k_next k := SemSet key tzero ∅]> (k_sets k))
                              (<[key := k_next k]> (k_keys k)) (k_next k + 1))
      else (SErr ENOENT, k)
  end.

(** A call of process [p]; [waiting]: it has been asleep in this call. *)
Definition do_call (p : nat) (waiting : bool) (c : syscall) (k : kern) : kres :=
  match c with
  | Semget key creat => let '(r, k') := k_semget key creat k in KRet r k'
  | Semop id ops =>
      match k_sets k !! id with
      | None => KRet (SErr (if waiting then EIDRM else EINVAL)) k
      | Some s =>
          match do_ops p ops s with
          | SopDone s' => KRet (SOk 0) (upd_set id s' k)
          | SopWait => KBlock
          | SopErr e => KRet (SErr e) k
          end
      end
  | Getval id n =>
      match k_sets k !! id with
      | None => KRet (SErr EINVAL) k
      | Some s => KRet (SOk (tget n (ss_val s))) k
      end
  | Setval id n v =>
      match k_sets k !! id with
      | None => KRet (SErr EINVAL) k
      | Some s =>
          if (v <? 0) || (SEMVMX <? v) then KRet (SErr ERANGE) k
          else KRet (SOk 0) (upd_set id (set_val n v s) k)
      end
  | Rmid id =>
      match k_sets k !! id with
      | None => KRet (SErr EINVAL) k
      | Some s => KRet (SOk 0) (Kern (delete id (k_sets k)) (delete (ss_key s) (k_keys k)) (k_next k))
      end
  end.

Definition do_exit (p : nat) (k : kern) : kern :=
  Kern (undo p <$> k_sets k) (k_keys k) (k_next k).

(** ** The routines *)

(** A routine on its way: it returns, ends the process, goes back to its label
    [again], or makes a system call. *)
Inductive proc :=
  | Ret (r : Z)
  | Die (e : fatal)
  | Again
  | Call (c : syscall) (k : sysret → proc).

Definition BIGCOUNT : Z := 10000.
Definition IPC_PRIVATE : Z := 0.

Definition op_lock : list sembuf := [Sembuf 2 0 false; Sembuf 2 1 true].
Definition op_endcreate : list sembuf := [Sembuf 1 (-1) true; Sembuf 2 (-1) true].
Definition op_open : list sembuf := [Sembuf 1 (-1) true].
Definition op_close : list sembuf := [Sembuf 2 0 false; Sembuf 2 1 true; Sembuf 1 1 true].
Definition op_unlock : list sembuf := [Sembuf 2 (-1) true].
Definition op_op (amount : Z) : list sembuf := [Sembuf 0 amount true].

(** [if (call < 0) err_sys(msg)]. *)
Definition or_err_sys (msg : string) (k : Z → proc) (r : sysret) : proc :=
  match r with SErr _ => Die (ErrSys msg) | SOk v => k v end.

Definition create_end (id : Z) : proc :=
  Call (Semop id op_endcreate) (or_err_sys "can't end create" (λ _, Ret id)).
Definition create_init1 (id : Z) : proc :=
  Call (Setval id 1 BIGCOUNT) (or_err_sys "can SETVAL[1]" (λ _, create_end id)).
Definition create_init0 (id initval : Z) : proc :=
  Call (Setval id 0 initval) (or_err_sys "can SETVAL[0]" (λ _, create_init1 id)).
Definition create_locked (id initval : Z) : proc :=
  Call (Getval id 1) (or_err_sys "can't GETVAL" (λ semval,
    if semval =? 0 then create_init0 id initval else create_end id)).
Definition create_lock (id initval : Z) : proc :=
  Call (Semop id op_lock) (λ r,
    match r with
    | SErr e => if e =? EINVAL then Again else Die (ErrSys "can't lock")
    | SOk _ => create_locked id initval
    end).
Definition sem_create (key initval : Z) : proc :=
  if key =? IPC_PRIVATE then Ret (-1)
  else if key =? -1 then Ret (-1)
  else Call (Semget key true) (λ r,
    match r with SErr _ => Ret (-1) | SOk id => create_lock id initval end).

Definition sem_open (key : Z) : proc :=
  if key =? IPC_PRIVATE then Ret (-1)
  else if key =? -1 then Ret (-1)
  else Call (Semget key false) (λ r,
    match r with
    | SErr _ => Ret (-1)
    | SOk id => Call (Semop id op_open) (or_err_sys "can't open" (λ _, Ret id))
    end).

Definition sem_rm (id : Z) : proc :=
  Call (Rmid id) (or_err_sys "can't IPC_RMID" (λ _, Ret 0)).

Definition close_unlock (id : Z) : proc :=
  Call (Semop id op_unlock) (or_err_sys "can't unlock" (λ _, Ret 0)).
Definition close_locked (id : Z) : proc :=
  Call (Getval id 1) (or_err_sys "can't GETVAL" (λ semval,
    if BIGCOUNT <? semval then Die (ErrDump "sem[1] > BIGCOUNT")
    else if semval =? BIGCOUNT then sem_rm id
    else close_unlock id)).
Definition sem_close (id : Z) : proc :=
  Call (Semop id op_close) (or_err_sys "can't semop" (λ _, close_locked id)).

(** The amount is stored in a short. *)
Definition sem_op (id value : Z) : proc :=
  let amount := wrap_s 16 value in
  if amount =? 0 then Die (ErrSys "can't have value == 0")
  else Call (Semop id (op_op amount)) (or_err_sys "sem_op error" (λ _, Ret 0)).
Definition sem_wait (id : Z) : proc := sem_op id (-1).
Definition sem_signal (id : Z) : proc := sem_op id 1.

(** ** Processes *)

Inductive req :=
  | ReqCreate (key initval : Z) | ReqOpen (key : Z) | ReqRm (id : Z)
  | ReqClose (id : Z) | ReqWait (id : Z) | ReqSignal (id : Z) | ReqOp (id value : Z).

Definition body (r : req) : proc :=
  match r with
  | ReqCreate key initval => sem_create key initval
  | ReqOpen key => sem_open key
  | ReqRm id => sem_rm id
  | ReqClose id => sem_close id
  | ReqWait id => sem_wait id
  | ReqSignal id => sem_signal id
  | ReqOp id value => sem_op id value
  end.

Inductive pstate :=
  | Idle                                       (* outside of the library *)
  | Run (r : req) (waiting : bool) (q : proc)  (* in routine [r], at [q] *)
  | Gone.                                      (* the process has ended *)

Record sys := Sys { s_kern : kern; s_procs : gmap nat pstate }.
Definition pst (s : sys) (p : nat) : pstate := default Idle (s_procs s !! p).
Definition set_pst (p : nat) (x : pstate) (s : sys) : sys := Sys (s_kern s) (<[p := x]> (s_procs s)).
Definition sys_init : sys := Sys (Kern ∅ ∅ 0) ∅.

Inductive label :=
  | LStart (p : nat) (r : req)          (* [p] calls a routine *)
  | LStep (p : nat) (f : option Z)      (* [p] goes on; [Some e]: its call fails with [e] *)
  | LExit (p : nat).                    (* [p] ends, wherever it is *)

(** One step of a process inside of a routine. *)
Definition go (p : nat) (f : option Z) (r : req) (w : bool) (q : proc) (s : sys) : sys :=
  match q with
  | Ret _ => set_pst p Idle s
  | Die _ => Sys (do_exit p (s_kern s)) (<[p := Gone]> (s_procs s))
  | Again => set_pst p (Run r false (body r)) s
  | Call c k =>
      match f with
      | Some e => set_pst p (Run r false (k (SErr e))) s
      | None =>
          match do_call p w c (s_kern s) with
          | KBlock => set_pst p (Run r true q) s
          | KRet ret k' => Sys k' (<[p := Run r false (k ret)]> (s_procs s))
          end
      end
  end.

Definition exec (l : label) (s : sys) : option sys :=
  match l with
  | LStart p r =>
      match pst s p with Idle => Some (set_pst p (Run r false (body r)) s) | _ => None end
  | LStep p f =>
      match pst s p with Run r w q => Some (go p f r w q s) | _ => None end
  | LExit p =>
      match pst s p with
      | Gone => None
      | _ => Some (Sys (do_exit p (s_kern s)) (<[p := Gone]> (s_procs s)))
      end
  end.

Fixpoint execs (ls : list label) (s : sys) : option sys :=
  match ls with [] => Some s | l :: ls' => s' ← exec l s; execs ls' s' end.
