(* ===== verification/SemaphProps.v ===== *)
(** * Properties of the semaphore library lib/semaph.c. *)
From Stdlib Require Import Ascii ZArith Lia.
From stdpp Require Import base strings gmap option list.
From S2P Require Import Prelude Semaph.

Implicit Types (s : sys) (x : semset) (p : nat) (id key : Z) (q : proc) (r : req).

(** ** Sums over the adjustments *)

Definition total (f : trip → Z) (m : gmap nat trip) : Z := map_fold (λ _ a acc, f a + acc) 0 m.

Section total.
Context (f : trip → Z).

Lemma total_empty : total f ∅ = 0.
Proof. apply map_fold_empty. Qed.

Lemma total_fresh p a (m : gmap nat trip) : m !! p = None → total f (<[p := a]> m) = f a + total f m.
Proof. intros H. unfold total. by rewrite map_fold_insert_L; [|intros; lia|done]. Qed.

Lemma total_lookup p a (m : gmap nat trip) : m !! p = Some a → total f m = f a + total f (delete p m).
Proof.
  intros H. rewrite <- (insert_id m p a) at 1 by done. rewrite <- insert_delete_eq.
  apply total_fresh, lookup_delete_eq.
Qed.

Lemma total_delete p (m : gmap nat trip) : f tzero = 0 →
  total f (delete p m) = total f m - f (default tzero (m !! p)).
Proof.
  intros H0. destruct (m !! p) as [a|] eqn:E; simpl.
  - rewrite (total_lookup p a m) by done. lia.
  - rewrite delete_id by done. lia.
Qed.

Lemma total_insert p a (m : gmap nat trip) : f tzero = 0 →
  total f (<[p := a]> m) = total f m - f (default tzero (m !! p)) + f a.
Proof.
  intros H0. rewrite <- insert_delete_eq, total_fresh by apply lookup_delete_eq.
  rewrite total_delete by done. lia.
Qed.

Lemma total_nonneg (m : gmap nat trip) : (∀ p a, m !! p = Some a → 0 <= f a) → 0 <= total f m.
Proof.
  induction m as [|p a m Hp IH] using map_ind; intros H; [by rewrite total_empty|].
  rewrite total_fresh by done. pose proof (H p a (lookup_insert_eq _ _ _)).
  enough (0 <= total f m) by lia. apply IH. intros p' a' E. apply (H p' a').
  by rewrite lookup_insert_ne by congruence.
Qed.

Lemma total_single p (m : gmap nat trip) : (∀ p' a, m !! p' = Some a → 0 <= f a) → f tzero = 0 →
  0 <= f (default tzero (m !! p)) <= total f m.
Proof.
  intros H H0. pose proof (total_delete p m H0).
  assert (0 <= total f (delete p m)).
  { apply total_nonneg. intros p' a. rewrite lookup_delete_Some. intros [_ E]. eauto. }
  destruct (m !! p) as [a|] eqn:E; simpl in *; [|lia]. pose proof (H p a E). lia.
Qed.

(** Two processes with something to their name. *)
Lemma total_two p p' (m : gmap nat trip) : p ≠ p' → (∀ p' a, m !! p' = Some a → 0 <= f a) → f tzero = 0 →
  f (default tzero (m !! p)) + f (default tzero (m !! p')) <= total f m.
Proof.
  intros Hne H H0. pose proof (total_delete p m H0).
  pose proof (total_single p' (delete p m)) as Hs. rewrite lookup_delete_ne in Hs by done.
  enough (0 <= f (default tzero (m !! p')) <= total f (delete p m)) by lia.
  apply Hs; [|done]. intros p'' a. rewrite lookup_delete_Some. intros [_ E]. eauto.
Qed.

Lemma total_le_size (m : gmap nat trip) : (∀ p a, m !! p = Some a → f a <= 1) →
  total f m <= Z.of_nat (size m).
Proof.
  induction m as [|p a m Hp IH] using map_ind; intros H; [by rewrite total_empty|].
  rewrite total_fresh, map_size_insert_None by done. pose proof (H p a (lookup_insert_eq _ _ _)).
  enough (total f m <= Z.of_nat (size m)) by lia. apply IH. intros p' a' E. apply (H p' a').
  by rewrite lookup_insert_ne by congruence.
Qed.

Lemma total_ext (g : trip → trip) (m : gmap nat trip) :
  (∀ a, f (g a) = f a) → total f (g <$> m) = total f m.
Proof.
  intros H. induction m as [|p a m Hp IH] using map_ind; [by rewrite fmap_empty|].
  rewrite fmap_insert, !total_fresh by (by rewrite ?lookup_fmap, ?Hp). by rewrite H, IH.
Qed.

Lemma total_zero (g : trip → trip) (m : gmap nat trip) : (∀ a, f (g a) = 0) → total f (g <$> m) = 0.
Proof.
  intros H. induction m as [|p a m Hp IH] using map_ind; [by rewrite fmap_empty, total_empty|].
  rewrite fmap_insert, total_fresh by (by rewrite lookup_fmap, Hp). by rewrite H, IH.
Qed.
End total.

(** ** The invariant *)

(** The number of processes that have the set open, and that hold its lock. *)
Definition users x : Z := total t1 (ss_adj x).
Definition lockers x : Z := total (λ a, - t2 a) (ss_adj x).

Record set_inv (N : nat) x : Prop := {
  si_lock : t2 (ss_val x) = lockers x;
  si_lock1 : 0 <= lockers x <= 1;
  si_count : t1 (ss_val x) + users x = BIGCOUNT ∨ t1 (ss_val x) = 0 ∧ users x = 0;
  si_val : 0 <= t0 (ss_val x) <= SEMVMX;
  si_adj1 : ∀ p a, ss_adj x !! p = Some a → 0 <= t1 a <= 1;
  si_adj2 : ∀ p a, ss_adj x !! p = Some a → -1 <= t2 a <= 0;
  si_dom : ∀ p a, ss_adj x !! p = Some a → (p < N)%nat;
}.

(** The set is initialised. *)
Definition ready x : Prop := t1 (ss_val x) + users x = BIGCOUNT.
Definition unready x : Prop := t1 (ss_val x) + users x = 0.

Abbreviation sets s := (k_sets (s_kern s)).

(** What a process has done to the sets. *)
Definition opened s p id : Prop := ∃ x, sets s !! id = Some x ∧ t1 (adj_of x p) = 1.
Definition not_open s p id : Prop := ∀ x, sets s !! id = Some x → t1 (adj_of x p) = 0.
Definition no_open s p key : Prop := ∀ id x, sets s !! id = Some x → ss_key x = key → t1 (adj_of x p) = 0.
Definition no_lock s p : Prop := ∀ id x, sets s !! id = Some x → t2 (adj_of x p) = 0.

(** [p] holds the lock of the set [id], and no other, and the set satisfies [P]. *)
Definition locked (P : semset → Prop) s p id : Prop :=
  (∃ x, sets s !! id = Some x ∧ t2 (adj_of x p) = -1 ∧ P x) ∧
  ∀ id' x, id' ≠ id → sets s !! id' = Some x → t2 (adj_of x p) = 0.

(** Where a process can be in its routine, and what holds there. *)
Inductive at_req s p : req → proc → Prop :=
  | at_die r e : at_req s p r (Die e)
  | at_ret r v : no_lock s p →
      (∀ key iv, r = ReqCreate key iv → v ≠ -1 → opened s p v) → at_req s p r (Ret v)
  | at_again key iv : no_lock s p → no_open s p key → 0 <= iv <= SEMVMX →
      at_req s p (ReqCreate key iv) Again
  | at_create key iv q : no_lock s p → no_open s p key → 0 <= iv <= SEMVMX →
      q = sem_create key iv → at_req s p (ReqCreate key iv) q
  | at_create_lock key iv id : no_lock s p → no_open s p key → 0 <= iv <= SEMVMX →
      not_open s p id → at_req s p (ReqCreate key iv) (create_lock id iv)
  | at_create_locked key iv id : locked (λ _, True) s p id → 0 <= iv <= SEMVMX →
      not_open s p id → at_req s p (ReqCreate key iv) (create_locked id iv)
  | at_create_init0 key iv id : locked unready s p id → 0 <= iv <= SEMVMX →
      not_open s p id → at_req s p (ReqCreate key iv) (create_init0 id iv)
  | at_create_init1 key iv id : locked unready s p id →
      not_open s p id → at_req s p (ReqCreate key iv) (create_init1 id)
  | at_create_end key iv id : locked ready s p id →
      not_open s p id → at_req s p (ReqCreate key iv) (create_end id)
  | at_close id : no_lock s p → opened s p id → at_req s p (ReqClose id) (sem_close id)
  | at_close_locked id : locked ready s p id → at_req s p (ReqClose id) (close_locked id)
  | at_close_unlock id : locked ready s p id → at_req s p (ReqClose id) (close_unlock id)
  | at_close_rm id : locked (λ x, users x = 0) s p id → at_req s p (ReqClose id) (sem_rm id)
  | at_op r id v q : r = ReqWait id ∨ r = ReqSignal id ∨ r = ReqOp id v → no_lock s p →
      opened s p id → q = body r → at_req s p r q.

Definition at_pst s p (t : pstate) : Prop :=
  match t with
  | Idle => no_lock s p
  | Run r w q => at_req s p r q
  | Gone => ∀ id x, sets s !! id = Some x → adj_of x p = tzero
  end.

Record kern_inv (N : nat) (k : kern) : Prop := {
  ki_set : ∀ id x, k_sets k !! id = Some x → set_inv N x;
  ki_key : ∀ key id, k_keys k !! key = Some id → ∃ x, k_sets k !! id = Some x ∧ ss_key x = key;
  ki_next : ∀ id x, k_sets k !! id = Some x → id < k_next k;
}.

Record inv (N : nat) s : Prop := {
  i_kern : kern_inv N (s_kern s);
  i_proc : ∀ p, at_pst s p (pst s p);
  i_pid : ∀ p r w q, pst s p = Run r w q → (p < N)%nat;
}.

(** What a process may rely on when another one takes a step. *)
Definition rely p s s' : Prop := ∀ id,
  match sets s !! id, sets s' !! id with
  | Some x, Some x' =>
      ss_key x' = ss_key x ∧ t1 (adj_of x' p) = t1 (adj_of x p) ∧ t2 (adj_of x' p) = t2 (adj_of x p) ∧
      (adj_of x p = tzero → adj_of x' p = tzero) ∧
      (t2 (adj_of x p) = -1 →
        t1 (ss_val x') + users x' = t1 (ss_val x) + users x ∧ 0 <= users x' <= users x)
  | Some x, None => t1 (adj_of x p) = 0 ∧ t2 (adj_of x p) = 0
  | None, Some x' => adj_of x' p = tzero
  | None, None => True
  end.

Lemma rely_no_lock p s s' : rely p s s' → no_lock s p → no_lock s' p.
Proof.
  intros HR H id x' E. specialize (HR id). specialize (H id). rewrite E in HR.
  destruct (sets s !! id) as [x|]; [|by rewrite HR].
  destruct HR as (_ & _ & -> & _). by apply H.
Qed.

Lemma rely_no_open p s s' key : rely p s s' → no_open s p key → no_open s' p key.
Proof.
  intros HR H id x' E Ek. specialize (HR id). specialize (H id). rewrite E in HR.
  destruct (sets s !! id) as [x|]; [|by rewrite HR].
  destruct HR as (Hk & -> & _). apply H; [done|congruence].
Qed.

Lemma rely_not_open p s s' id : rely p s s' → not_open s p id → not_open s' p id.
Proof.
  intros HR H x' E. specialize (HR id). specialize (H). rewrite E in HR.
  unfold not_open in H. destruct (sets s !! id) as [x|]; [|by rewrite HR].
  destruct HR as (Hk & -> & _). by apply H.
Qed.

Lemma rely_opened p s s' id : rely p s s' → opened s p id → opened s' p id.
Proof.
  intros HR (x & E & H). specialize (HR id). rewrite E in HR.
  destruct (sets s' !! id) as [x'|] eqn:E'; [|lia].
  exists x'. split; [done|]. destruct HR as (_ & -> & _). done.
Qed.

Lemma rely_locked (P : semset → Prop) p s s' id :
  (∀ x x', P x → t1 (ss_val x') + users x' = t1 (ss_val x) + users x → 0 <= users x' <= users x → P x') →
  rely p s s' → locked P s p id → locked P s' p id.
Proof.
  intros HP HR [(x & E & H2 & Hx) Ho]. split.
  - pose proof (HR id) as H. rewrite E in H.
    destruct (sets s' !! id) as [x'|] eqn:E'; [|lia].
    destruct H as (_ & _ & H2' & _ & H). exists x'. split; [done|]. split; [lia|].
    destruct (H H2). by apply (HP x).
  - intros id' x' Hne E'. specialize (HR id'). rewrite E' in HR. specialize (Ho id').
    destruct (sets s !! id') as [y|]; [|by rewrite HR].
    destruct HR as (_ & _ & -> & _). by apply Ho.
Qed.

Create HintDb sem.
#[local] Hint Resolve rely_no_lock rely_no_open rely_not_open rely_opened : sem.

Lemma rely_at p s s' r q : rely p s s' → at_req s p r q → at_req s' p r q.
Proof.
  intros HR H.
  assert (HL : ∀ P id, (∀ x x', P x → t1 (ss_val x') + users x' = t1 (ss_val x) + users x →
    0 <= users x' <= users x → P x') → locked P s p id → locked P s' p id)
    by (intros; eapply rely_locked; eauto).
  destruct H; try (econstructor; eauto with sem; apply HL; unfold ready, unready; eauto; intros; simpl in *; lia).
Qed.

Lemma rely_pst p s s' t : rely p s s' → at_pst s p t → at_pst s' p t.
Proof.
  intros HR. destruct t; simpl; [by eauto with sem|by apply rely_at|].
  intros H id x' E. specialize (HR id). rewrite E in HR. specialize (H id).
  destruct (sets s !! id) as [x|]; [|done]. destruct HR as (_ & _ & _ & HR & _). by apply HR, H.
Qed.

(** ** What the calls do to a set *)

Definition tadd (a d : trip) : trip := T3 (t0 a + t0 d) (t1 a + t1 d) (t2 a + t2 d).
Definition tsub (a d : trip) : trip := T3 (t0 a - t0 d) (t1 a - t1 d) (t2 a - t2 d).

(** Operations of [p] that add up to [d], all with SEM_UNDO. *)
Definition bump p (d : trip) x : semset :=
  SemSet (ss_key x) (tadd (ss_val x) d) (<[p := tsub (adj_of x p) d]> (ss_adj x)).

Lemma adj_bump p d x : adj_of (bump p d x) p = tsub (adj_of x p) d.
Proof. unfold adj_of, bump. simpl. by rewrite lookup_insert_eq. Qed.

Lemma adj_bump_ne p p' d x : p' ≠ p → adj_of (bump p d x) p' = adj_of x p'.
Proof. intros. unfold adj_of, bump. simpl. by rewrite lookup_insert_ne by done. Qed.

Lemma users_bump p d x : users (bump p d x) = users x - t1 d.
Proof.
  unfold users, bump. simpl. rewrite total_insert by done. fold (adj_of x p). simpl. lia.
Qed.

Lemma lockers_bump p d x : lockers (bump p d x) = lockers x + t2 d.
Proof.
  unfold lockers, bump. simpl. rewrite total_insert by done. fold (adj_of x p). simpl. lia.
Qed.

Lemma trip_eq (a b : trip) : t0 a = t0 b → t1 a = t1 b → t2 a = t2 b → a = b.
Proof. destruct a, b. simpl. by intros -> -> ->. Qed.

Lemma bump_bump p d d' x : bump p d' (bump p d x) = bump p (tadd d d') x.
Proof.
  unfold bump at 1. rewrite adj_bump. unfold bump. simpl. rewrite insert_insert_eq.
  f_equal; [apply trip_eq; simpl; lia|]. f_equal. apply trip_eq; simpl; lia.
Qed.

(** A single operation with SEM_UNDO. *)
Lemma do_op_undo p n v x x' : (n < 3)%nat → v ≠ 0 → do_op p (Sembuf n v true) x = SopDone x' →
  x' = bump p (tset n v tzero) x ∧ 0 <= tget n (ss_val x) + v <= SEMVMX.
Proof.
  intros Hn Hv. unfold do_op. simpl. rewrite (proj2 (Z.eqb_neq v 0)) by done.
  destruct (Z.ltb_spec (tget n (ss_val x) + v) 0); [done|].
  destruct (Z.ltb_spec SEMVMX (tget n (ss_val x) + v)); [done|].
  destruct (_ || _); [done|]. intros [= <-]. split; [|done]. unfold bump. f_equal.
  - destruct n as [|[|[|]]]; [| | |lia]; apply trip_eq; simpl; lia.
  - f_equal. destruct n as [|[|[|]]]; [| | |lia]; apply trip_eq; simpl; lia.
Qed.

Lemma do_op_zero p n x x' : do_op p (Sembuf n 0 false) x = SopDone x' → x' = x ∧ tget n (ss_val x) = 0.
Proof. unfold do_op. simpl. destruct (Z.eqb_spec (tget n (ss_val x)) 0); [|done]. by intros [= <-]. Qed.

Ltac do_ops_steps H :=
  repeat match type of H with
  | match do_op ?p ?o ?x with _ => _ end = SopDone _ =>
      let E := fresh "E" in destruct (do_op p o x) eqn:E; [|done|done];
      first [apply do_op_zero in E as [-> ?] | apply do_op_undo in E as [-> ?]; [|lia|lia]]
  end.

Lemma lock_spec p x x' : do_ops p op_lock x = SopDone x' →
  x' = bump p (T3 0 0 1) x ∧ t2 (ss_val x) = 0.
Proof. intros H. simpl in H. do_ops_steps H. by injection H as <-. Qed.

Lemma endcreate_spec p x x' : do_ops p op_endcreate x = SopDone x' →
  x' = bump p (T3 0 (-1) (-1)) x ∧ 1 <= t1 (ss_val x).
Proof.
  intros H. simpl in H. do_ops_steps H. injection H as <-. rewrite bump_bump.
  split; [done|]. simpl in *. lia.
Qed.

Lemma close_spec p x x' : do_ops p op_close x = SopDone x' →
  x' = bump p (T3 0 1 1) x ∧ t2 (ss_val x) = 0.
Proof. intros H. simpl in H. do_ops_steps H. injection H as <-. by rewrite bump_bump. Qed.

Lemma unlock_spec p x x' : do_ops p op_unlock x = SopDone x' →
  x' = bump p (T3 0 0 (-1)) x ∧ 1 <= t2 (ss_val x).
Proof. intros H. simpl in H. do_ops_steps H. injection H as <-. split; [done|]. simpl in *. lia. Qed.

Lemma op_op_spec p v x x' : v ≠ 0 → do_ops p (op_op v) x = SopDone x' →
  x' = bump p (T3 v 0 0) x ∧ 0 <= t0 (ss_val x) + v <= SEMVMX.
Proof. intros Hv H. simpl in H. do_ops_steps H. by injection H as <-. Qed.

(** Where a process has its hands, nobody else has. *)
Lemma adj_bounds N x p : set_inv N x →
  0 <= t1 (adj_of x p) <= users x ∧ 0 <= - t2 (adj_of x p) <= lockers x ∧ 
  t1 (adj_of x p) <= 1.
Proof.
  intros Hx. unfold adj_of, users, lockers. split_and!.
  1,2: apply (total_single t1); [|done]; intros; by apply (si_adj1 N x Hx p').
  1,2: apply (total_single (λ a, - t2 a)); [|done]; intros p' a Ha; pose proof (si_adj2 N x Hx p' a Ha); lia.
  destruct (ss_adj x !! p) eqn:E; simpl; [|done]. by apply (si_adj1 N x Hx p).
Qed.

Lemma lock_excl N x p p' : set_inv N x → p ≠ p' → t2 (adj_of x p) = -1 → t2 (adj_of x p') = 0.
Proof.
  intros Hx Hne H. pose proof (adj_bounds N x p' Hx) as (_ & Hb & _). pose proof (si_lock1 N x Hx).
  pose proof (total_two (λ a, - t2 a) p p' (ss_adj x) Hne) as Ht. simpl in Ht.
  assert (Hn : ∀ y a, ss_adj x !! y = Some a → 0 <= - t2 a)
    by (intros y a Ha; pose proof (si_adj2 N x Hx y a Ha); lia).
  specialize (Ht Hn eq_refl). unfold adj_of, lockers in *. lia.
Qed.

Lemma users_lt N x : set_inv N x → users x <= Z.of_nat N.
Proof.
  intros Hx. unfold users. etrans; [apply total_le_size; intros p a Ha; by apply (si_adj1 N x Hx p a)|].
  apply inj_le. rewrite <- size_dom.
  assert (H : dom (ss_adj x) ⊆ set_seq (C := gset nat) 0 N).
  { intros p Hp. apply elem_of_dom in Hp as [a Ha]. apply elem_of_set_seq.
    pose proof (si_dom N x Hx p a Ha). lia. }
  apply subseteq_size in H. by rewrite size_set_seq in H.
Qed.

Lemma set_inv_bump N p d x : set_inv N x → (p < N)%nat →
  0 <= t2 (ss_val x) + t2 d <= 1 → 0 <= t0 (ss_val x) + t0 d <= SEMVMX →
  (ready x ∨ t1 d = 0) → 0 <= t1 (adj_of x p) - t1 d <= 1 → -1 <= t2 (adj_of x p) - t2 d <= 0 →
  set_inv N (bump p d x).
Proof.
  intros Hx Hp H2 H0 H1 Ha1 Ha2. pose proof (si_lock N x Hx). unfold ready in H1.
  split; rewrite ?users_bump, ?lockers_bump; simpl; try lia.
  - destruct (si_count N x Hx); lia.
  - intros p' a. destruct (decide (p' = p)) as [->|Hne].
    + rewrite lookup_insert_eq. intros [= <-]. simpl. lia.
    + rewrite lookup_insert_ne by done. apply Hx.
  - intros p' a. destruct (decide (p' = p)) as [->|Hne].
    + rewrite lookup_insert_eq. intros [= <-]. simpl. lia.
    + rewrite lookup_insert_ne by done. apply Hx.
  - intros p' a. destruct (decide (p' = p)) as [->|Hne]; [done|].
    rewrite lookup_insert_ne by done. apply Hx.
Qed.

Lemma set_inv_undo N p x : Z.of_nat N < BIGCOUNT → set_inv N x → set_inv N (undo p x).
Proof.
  intros HN Hx. pose proof (adj_bounds N x p Hx) as (Hb1 & Hb2 & _). pose proof (si_lock N x Hx).
  pose proof (si_lock1 N x Hx). pose proof (si_count N x Hx) as Hc. pose proof (users_lt N x Hx).
  assert (Hu : users (undo p x) = users x - t1 (adj_of x p)) by (apply total_delete; done).
  assert (Hl : lockers (undo p x) = lockers x + t2 (adj_of x p)).
  { unfold lockers, undo. simpl. rewrite total_delete by done. fold (adj_of x p). lia. }
  assert (Hcl : ∀ z, 0 <= z <= SEMVMX → clamp z = z) by (intros; unfold clamp; lia).
  pose proof (Hcl (t1 (ss_val x) + t1 (adj_of x p))) as Hc1.
  pose proof (Hcl (t2 (ss_val x) + t2 (adj_of x p))) as Hc2.
  unfold BIGCOUNT, SEMVMX in *.
  split; rewrite ?Hu, ?Hl; simpl; try lia.
  - unfold BIGCOUNT. lia.
  - unfold clamp, SEMVMX. lia.
  - intros p' a. rewrite lookup_delete_Some. intros [_ E]. by apply (si_adj1 N x Hx p').
  - intros p' a. rewrite lookup_delete_Some. intros [_ E]. by apply (si_adj2 N x Hx p').
  - intros p' a. rewrite lookup_delete_Some. intros [_ E]. by apply (si_dom N x Hx p' a).
Qed.

Lemma set_inv_init0 N v x : 0 <= v <= SEMVMX → set_inv N x → set_inv N (set_val 0 v x).
Proof.
  intros Hv Hx.
  assert (Hu : users (set_val 0 v x) = users x) by (by apply total_ext).
  assert (Hl : lockers (set_val 0 v x) = lockers x) by (by apply (total_ext (λ a, - t2 a))).
  split; rewrite ?Hu, ?Hl; simpl; try apply Hx; try lia.
  all: intros p a; rewrite lookup_fmap_Some; intros (b & <- & E); simpl; by eapply Hx.
Qed.

Lemma set_inv_init1 N x : set_inv N x → unready x →
  set_inv N (set_val 1 BIGCOUNT x) ∧ ready (set_val 1 BIGCOUNT x) ∧
  ∀ p, adj_of (set_val 1 BIGCOUNT x) p = adj_of x p.
Proof.
  intros Hx H0. unfold unready in H0. unfold ready.
  assert (Hu0 : users x = 0) by (pose proof (si_count N x Hx) as [|[]]; unfold BIGCOUNT in *; lia).
  assert (Hu : users (set_val 1 BIGCOUNT x) = 0) by (by apply total_zero).
  assert (Hl : lockers (set_val 1 BIGCOUNT x) = lockers x) by (by apply (total_ext (λ a, - t2 a))).
  assert (Ha : ∀ p, t1 (adj_of x p) = 0) by (intros p; pose proof (adj_bounds N x p Hx); lia).
  split_and!; [|rewrite Hu; simpl; lia|].
  - split; rewrite ?Hu, ?Hl; simpl; try apply Hx; try lia.
    all: intros p a; rewrite lookup_fmap_Some; intros (b & <- & E); simpl; try (by eapply Hx); lia.
  - intros p. specialize (Ha p). unfold adj_of in *. simpl. rewrite lookup_fmap.
    destruct (ss_adj x !! p) as [a|]; simpl in *; [|done]. by apply trip_eq.
Qed.

(** ** Steps *)

Definition allowed (N : nat) s (l : label) : Prop :=
  match l with
  | LStart p r => (p < N)%nat ∧
      match r with
      | ReqCreate key initval => 0 <= initval <= SEMVMX ∧ no_open s p key
      | ReqClose id | ReqWait id | ReqSignal id | ReqOp id _ => opened s p id
      | ReqOpen _ | ReqRm _ => False
      end
  | _ => True
  end.

(** The runs of at most [N] processes that use create, close, wait, signal and op
    as they are meant to be used. *)
Inductive reach (N : nat) : sys → Prop :=
  | reach_init : reach N sys_init
  | reach_step s l s' : reach N s → allowed N s l → exec l s = Some s' → reach N s'.

(** What a step of [p] does for everyone. *)
Definition good (N : nat) p s s' : Prop := inv N s' ∧ ∀ p', p' ≠ p → rely p' s s'.

Lemma pst_ne s p p' t k : p' ≠ p → pst (Sys k (<[p := t]> (s_procs s))) p' = pst s p'.
Proof. intros. unfold pst. simpl. by rewrite lookup_insert_ne by done. Qed.

Lemma pst_eq s p t k : pst (Sys k (<[p := t]> (s_procs s))) p = t.
Proof. unfold pst. simpl. by rewrite lookup_insert_eq. Qed.

(** A step of [p] is fine when the others may rely on it. *)
Lemma inv_step N s p t k' : inv N s → (p < N)%nat ∨ (∀ r w q, t ≠ Run r w q) →
  kern_inv N k' → (∀ p', p' ≠ p → rely p' s (Sys k' (<[p := t]> (s_procs s)))) →
  at_pst (Sys k' (<[p := t]> (s_procs s))) p t → good N p s (Sys k' (<[p := t]> (s_procs s))).
Proof.
  intros HI Hp Hk HR Hat. split; [|done]. split; [done| |].
  - intros p'. destruct (decide (p' = p)) as [->|Hne]; [by rewrite pst_eq|].
    rewrite pst_ne by done. eapply rely_pst; [by apply HR|apply HI].
  - intros p' r w q. destruct (decide (p' = p)) as [->|Hne].
    + rewrite pst_eq. intros ->. destruct Hp as [|Hp]; [done|]. by destruct (Hp r w q).
    + rewrite pst_ne by done. apply HI.
Qed.

Lemma rely_refl N p s s' : kern_inv N (s_kern s) → s_kern s' = s_kern s → rely p s s'.
Proof.
  intros HI E id. rewrite E. destruct (sets s !! id) as [x|] eqn:Ex; [|done].
  pose proof (adj_bounds N x p (ki_set N _ HI id x Ex)). split_and!; (done || lia).
Qed.

(** A step that leaves the kernel alone. *)
Lemma inv_local N s p t : inv N s → (p < N)%nat ∨ (∀ r w q, t ≠ Run r w q) → at_pst s p t →
  good N p s (set_pst p t s).
Proof.
  intros HI Hp Hat. apply inv_step; [done|done|apply HI| |].
  - intros. eapply rely_refl; [apply HI|done].
  - destruct t; [exact Hat| |exact Hat]. eapply rely_at; [|exact Hat].
    eapply rely_refl; [apply HI|done].
Qed.

(** The step replaces the set [id]. *)
Lemma inv_upd N s p t id x x' : inv N s → (p < N)%nat → sets s !! id = Some x →
  set_inv N x' → ss_key x' = ss_key x →
  (∀ p', p' ≠ p → t1 (adj_of x' p') = t1 (adj_of x p') ∧ t2 (adj_of x' p') = t2 (adj_of x p') ∧
    (adj_of x p' = tzero → adj_of x' p' = tzero) ∧
    (t2 (adj_of x p') = -1 →
      t1 (ss_val x') + users x' = t1 (ss_val x) + users x ∧ 0 <= users x' <= users x)) →
  at_pst (Sys (upd_set id x' (s_kern s)) (<[p := t]> (s_procs s))) p t →
  good N p s (Sys (upd_set id x' (s_kern s)) (<[p := t]> (s_procs s))).
Proof.
  intros HI Hp E Hx' Hkey HR Hat. pose proof (i_kern _ _ HI) as HK.
  apply inv_step; [done|by left| | |done].
  - split; simpl.
    + intros id' y. destruct (decide (id' = id)) as [->|Hne].
      * rewrite lookup_insert_eq. by intros [= <-].
      * rewrite lookup_insert_ne by done. apply HK.
    + intros key id' Ek. destruct (ki_key _ _ HK key id' Ek) as (y & Ey & Hy).
      destruct (decide (id' = id)) as [->|Hne].
      * exists x'. rewrite lookup_insert_eq. split; [done|]. congruence.
      * exists y. by rewrite lookup_insert_ne by done.
    + intros id' y. destruct (decide (id' = id)) as [->|Hne].
      * intros _. by apply (ki_next _ _ HK id x).
      * rewrite lookup_insert_ne by done. apply HK.
  - intros p' Hne id'. simpl. destruct (decide (id' = id)) as [->|Hne'].
    + rewrite lookup_insert_eq, E. destruct (HR p' Hne) as (? & ? & ? & ?). done.
    + rewrite lookup_insert_ne by done.
      exact (rely_refl N p' s s HK eq_refl id').
Qed.

(** The step adds [d] to the set [id], from the point of view of the others. *)
Lemma inv_bump N s p t id x d : inv N s → (p < N)%nat → sets s !! id = Some x →
  set_inv N (bump p d x) → (0 <= t1 d ∨ t2 (adj_of x p) = -1) →
  at_pst (Sys (upd_set id (bump p d x) (s_kern s)) (<[p := t]> (s_procs s))) p t →
  good N p s (Sys (upd_set id (bump p d x) (s_kern s)) (<[p := t]> (s_procs s))).
Proof.
  intros HI Hp E Hx' Hd Hat. pose proof (ki_set _ _ (i_kern _ _ HI) id x E) as Hx.
  eapply inv_upd; [done|done|exact E|done|done| |done].
  intros p' Hne. rewrite adj_bump_ne by done. split_and!; [done|done|done|].
  intros Hl. pose proof (adj_bounds N _ p' Hx'). rewrite users_bump in *. simpl.
  destruct Hd as [Hd|Hd]; [lia|]. pose proof (lock_excl N x p p' Hx (not_eq_sym Hne) Hd). lia.
Qed.

(** ** The routines *)

(** The deaths the library does not avoid: a creator asleep in the lock when the set
    is removed, and an operation that leaves the range of a semaphore. *)
Definition expected r (w : bool) (e : fatal) : Prop :=
  match r with
  | ReqCreate _ _ => w = true ∧ e = ErrSys "can't lock"
  | ReqWait _ | ReqSignal _ | ReqOp _ _ => e = ErrSys "sem_op error"
  | _ => False
  end.

Definition fine (N : nat) p r (w : bool) (f : option Z) s s' : Prop :=
  good N p s s' ∧ ∀ e, f = None → pst s' p = Run r false (Die e) → expected r w e.

Lemma fine_inv N p r w f s s' t : good N p s s' → pst s' p = t →
  (∀ e, f = None → t = Run r false (Die e) → expected r w e) → fine N p r w f s s'.
Proof. intros H <- He. by split. Qed.

Lemma do_op_err p n v x e : do_op p (Sembuf n v true) x = SopErr e →
  SEMVMX < tget n (ss_val x) + v ∨ tget n (adj_of x p) - v < - SEMVMX - 1 ∨ SEMVMX < tget n (adj_of x p) - v.
Proof.
  unfold do_op. simpl. destruct (v =? 0); [by destruct (_ =? 0)|].
  destruct (_ <? 0); [done|]. destruct (Z.ltb_spec SEMVMX (tget n (ss_val x) + v)); [lia|].
  destruct (Z.ltb_spec (tget n (adj_of x p) - v) (- SEMVMX - 1)); [lia|].
  destruct (Z.ltb_spec SEMVMX (tget n (adj_of x p) - v)); [lia|]. done.
Qed.

(** None of the fixed arrays leaves the range. *)
Definition in_range (o : sembuf) (v a : trip) : Prop :=
  let n := sem_num o in
  sem_undo o = true → tget n v + sem_by o <= SEMVMX ∧ - SEMVMX - 1 <= tget n a - sem_by o <= SEMVMX.

Lemma do_op_no_err p o x e : in_range o (ss_val x) (adj_of x p) → (sem_undo o = false → sem_by o = 0) →
  do_op p o x ≠ SopErr e.
Proof.
  destruct o as [n v [|]]; unfold in_range; simpl; intros H H0 E.
  - apply do_op_err in E. specialize (H eq_refl). lia.
  - rewrite H0 in E by done. unfold do_op in E. simpl in E. by destruct (_ =? 0).
Qed.

Lemma ops_no_err N p ops x e : set_inv N x → Z.of_nat N < BIGCOUNT →
  ops ∈ [op_lock; op_endcreate; op_close; op_unlock] → do_ops p ops x ≠ SopErr e.
Proof.
  intros Hx HN Hops E. pose proof (adj_bounds N x p Hx) as (Hb1 & Hb2 & Hb3).
  pose proof (si_lock N x Hx). pose proof (si_lock1 N x Hx). pose proof (si_count N x Hx).
  pose proof (users_lt N x Hx). unfold BIGCOUNT in *.
  assert (Hsub : ∀ o y, do_op p o y = SopErr e → in_range o (ss_val y) (adj_of y p) →
    (sem_undo o = false → sem_by o = 0) → False) by (intros o y Ey ? ?; by apply (do_op_no_err p o y e)).
  repeat (apply elem_of_cons in Hops as [->|Hops]); [..|by apply elem_of_nil in Hops]; simpl in E;
  repeat match type of E with
  | match do_op ?p ?o ?x with _ => _ end = _ =>
      let E1 := fresh "E" in destruct (do_op p o x) eqn:E1;
      [first [apply do_op_zero in E1 as [-> ?] | apply do_op_undo in E1 as [-> ?]; [|lia|lia]]
      |done|injection E as <-; eapply Hsub; [exact E1| |done]]
  end; try done; unfold in_range, SEMVMX; rewrite ?adj_bump; simpl; intros _; lia.
Qed.

Lemma fine_call N s p r w c k f : inv N s → pst s p = Run r w (Call c k) →
  (∀ e, at_req s p r (k (SErr e))) →
  (∀ ret k', do_call p w c (s_kern s) = KRet ret k' →
    good N p s (Sys k' (<[p := Run r false (k ret)]> (s_procs s))) ∧ ∀ e, k ret = Die e → expected r w e) →
  fine N p r w f s (go p f r w (Call c k) s).
Proof.
  intros HI Hp Hf Hret. pose proof (i_pid _ _ HI p r w _ Hp) as HN.
  pose proof (i_proc _ _ HI p) as Hat. rewrite Hp in Hat.
  destruct f as [e|]; simpl.
  - eapply fine_inv; [apply inv_local; [done|by left|apply Hf]|apply pst_eq|done].
  - destruct (do_call p w c (s_kern s)) as [ret k'|] eqn:E.
    + destruct (Hret ret k' eq_refl) as [H1 H2]. eapply fine_inv; [exact H1|apply pst_eq|].
      intros e _ [= H]. by apply H2.
    + eapply fine_inv; [apply inv_local; [done|by left|exact Hat]|apply pst_eq|done].
Qed.

(** The same for semop on a set that is there. *)
Lemma fine_semop N s p r w id ops k f d x : Z.of_nat N < BIGCOUNT →
  inv N s → pst s p = Run r w (Call (Semop id ops) k) →
  sets s !! id = Some x → (∀ e, at_req s p r (k (SErr e))) →
  (∀ e, do_ops p ops x = SopErr e → ∀ e', k (SErr e) = Die e' → expected r w e') →
  (∀ x', do_ops p ops x = SopDone x' → x' = bump p d x ∧ set_inv N (bump p d x)) →
  (0 <= t1 d ∨ t2 (adj_of x p) = -1) →
  (∀ e, k (SOk 0) = Die e → False) →
  (set_inv N (bump p d x) →
    at_req (Sys (upd_set id (bump p d x) (s_kern s)) (<[p := Run r false (k (SOk 0))]> (s_procs s))) p r (k (SOk 0))) →
  fine N p r w f s (go p f r w (Call (Semop id ops) k) s).
Proof.
  intros HN HI Hp Ex Hf Herr Hdone Hd Hk Hat. apply fine_call; [done|done|exact Hf|].
  intros ret k'. simpl. rewrite Ex. destruct (do_ops p ops x) as [x'| |e] eqn:E; [| done |].
  - intros [= <- <-]. destruct (Hdone x' eq_refl) as [-> Hx']. split; [|intros e He; by destruct (Hk e)].
    eapply inv_bump; [done|by eapply i_pid|done|done|done|]. by apply Hat.
  - intros [= <- <-]. split; [|intros; by eapply Herr].
    apply (inv_local N s p (Run r false (k (SErr e)))); [done|left; by eapply i_pid|apply Hf].
Qed.

(** What [p] has after its own operations. *)
Section own.
Context (s : sys) (p : nat) (id : Z) (x : semset) (d : trip).
Context (t : pstate).
Let s' := Sys (upd_set id (bump p d x) (s_kern s)) (<[p := t]> (s_procs s)).

Lemma own_lookup id' x' : sets s' !! id' = Some x' →
  id' = id ∧ x' = bump p d x ∨ id' ≠ id ∧ sets s !! id' = Some x'.
Proof.
  unfold s'. simpl. destruct (decide (id' = id)) as [->|Hne].
  - rewrite lookup_insert_eq. intros [= <-]. by left.
  - rewrite lookup_insert_ne by done. by right.
Qed.

Lemma own_locked (P : semset → Prop) : t2 (adj_of x p) - t2 d = -1 → P (bump p d x) →
  (∀ id' y, id' ≠ id → sets s !! id' = Some y → t2 (adj_of y p) = 0) → locked P s' p id.
Proof.
  intros H HP Ho. split.
  - exists (bump p d x). unfold s'. simpl. rewrite lookup_insert_eq, adj_bump. done.
  - intros id' y Hne E. apply own_lookup in E as [[-> _]|[_ E]]; [done|by eapply Ho].
Qed.

Lemma own_no_lock : t2 (adj_of x p) = t2 d →
  (∀ id' y, id' ≠ id → sets s !! id' = Some y → t2 (adj_of y p) = 0) → no_lock s' p.
Proof.
  intros H Ho id' y E. apply own_lookup in E as [[-> ->]|[Hne E]]; [|by eapply Ho].
  rewrite adj_bump. simpl. lia.
Qed.

Lemma own_opened : t1 (adj_of x p) - t1 d = 1 → opened s' p id.
Proof. intros H. exists (bump p d x). unfold s'. simpl. by rewrite lookup_insert_eq, adj_bump. Qed.

Lemma own_not_open : t1 (adj_of x p) = t1 d → not_open s' p id.
Proof. intros H y E. apply own_lookup in E as [[_ ->]|[Hne E]]; [|done]. rewrite adj_bump. simpl. lia. Qed.
End own.

Lemma inv_exit N s p : Z.of_nat N < BIGCOUNT → inv N s →
  good N p s (Sys (do_exit p (s_kern s)) (<[p := Gone]> (s_procs s))).
Proof.
  intros HN HI. pose proof (i_kern _ _ HI) as HK. apply inv_step; [done|by right| | |].
  - split; simpl.
    + intros id x. rewrite lookup_fmap_Some. intros (y & <- & E). apply set_inv_undo; [done|by eapply HK].
    + intros key id Ek. destruct (ki_key _ _ HK key id Ek) as (y & Ey & <-).
      exists (undo p y). by rewrite lookup_fmap, Ey.
    + intros id x. rewrite lookup_fmap_Some. intros (y & _ & E). by apply (ki_next _ _ HK id y).
  - intros p' Hne id. simpl. rewrite lookup_fmap. destruct (sets s !! id) as [x|] eqn:E; [|done]. simpl.
    assert (Ha : adj_of (undo p x) p' = adj_of x p').
    { unfold adj_of. simpl. by rewrite lookup_delete_ne by done. }
    rewrite Ha. split_and!; try done.
    pose proof (ki_set _ _ HK id x E) as Hx. pose proof (adj_bounds N x p Hx).
    pose proof (users_lt N x Hx). pose proof (si_count N x Hx).
    unfold users. simpl. rewrite total_delete by done. fold (adj_of x p). fold (users x).
    unfold clamp, BIGCOUNT, SEMVMX in *. lia.
  - intros id x. simpl. rewrite lookup_fmap_Some. intros (y & <- & E).
    unfold adj_of. simpl. by rewrite lookup_delete_eq.
Qed.

Section cases.
Context (N : nat) (HN : Z.of_nat N < BIGCOUNT) (s : sys) (HI : inv N s).
Context (p : nat) (w : bool) (f : option Z).
Let HK := i_kern _ _ HI.

Lemma set_facts id x : sets s !! id = Some x → set_inv N x ∧
  (t2 (ss_val x) = lockers x ∧ 0 <= lockers x <= 1) ∧
  (ready x ∨ t1 (ss_val x) = 0 ∧ users x = 0) ∧ users x <= Z.of_nat N ∧ 0 <= t0 (ss_val x) <= SEMVMX ∧
  0 <= t1 (adj_of x p) <= users x ∧ t1 (adj_of x p) <= 1 ∧ 0 <= - t2 (adj_of x p) <= lockers x.
Proof.
  intros E. pose proof (ki_set _ _ HK id x E) as Hx. pose proof (adj_bounds N x p Hx) as (? & ? & ?).
  split_and!; try apply Hx; try done; try lia. by apply users_lt.
Qed.

Lemma fine_create_lock key iv id : pst s p = Run (ReqCreate key iv) w (create_lock id iv) →
  no_lock s p → no_open s p key → 0 <= iv <= SEMVMX → not_open s p id →
  fine N p (ReqCreate key iv) w f s (go p f (ReqCreate key iv) w (create_lock id iv) s).
Proof.
  intros Hp Hl Ho Hiv Hno. assert (Hf : ∀ e, at_req s p (ReqCreate key iv)
    (if e =? EINVAL then Again else Die (ErrSys "can't lock")))
    by (intros e; destruct (e =? EINVAL); by constructor).
  destruct (sets s !! id) as [x|] eqn:Ex.
  - pose proof (set_facts id x Ex) as (Hx & ? & ? & ? & ? & ? & ? & ?). pose proof (Hl id x Ex). pose proof (Hno x Ex).
    eapply (fine_semop N s p _ w id op_lock _ f (T3 0 0 1) x); try done.
    + intros e E. exfalso. eapply ops_no_err; [exact Hx|exact HN| |exact E]. in_list.
    + intros x' E. apply lock_spec in E as [-> ?]. split; [done|]. pose proof (i_pid _ _ HI p _ _ _ Hp).
      apply set_inv_bump; simpl; try done; try lia. all: by rewrite ?Z.add_0_r; try lia.
    + simpl. lia.
    + intros Hb. simpl. apply at_create_locked; [|done|].
      * apply own_locked; simpl; [lia|done|]. intros; by eapply Hl.
      * apply own_not_open. simpl. lia.
  - apply fine_call; [done|done|exact Hf|]. intros ret k'. simpl. rewrite Ex. intros [= <- <-].
    split; [apply (inv_local N s p (Run _ false _)); [done|left; by eapply i_pid|apply Hf]|].
    destruct w; simpl; intros e; [intros [= <-]; done|done].
Qed.

Lemma fine_create_locked key iv id : pst s p = Run (ReqCreate key iv) w (create_locked id iv) →
  locked (λ _, True) s p id → 0 <= iv <= SEMVMX → not_open s p id →
  fine N p (ReqCreate key iv) w f s (go p f (ReqCreate key iv) w (create_locked id iv) s).
Proof.
  intros Hp [(x & Ex & H2 & _) Hl] Hiv Hno. apply fine_call; [done|done|by intros; constructor|].
  intros ret k'. simpl. rewrite Ex. intros [= <- <-]. simpl.
  pose proof (set_facts id x Ex) as (Hx & ? & Hr & ? & ? & ? & ? & ?). unfold ready, BIGCOUNT in *.
  destruct (Z.eqb_spec (t1 (ss_val x)) 0) as [Hz|Hz]; (split; [|done]);
    apply (inv_local N s p (Run _ false _)); try done; try (left; by eapply i_pid).
  - apply at_create_init0; [|done..]. split; [|done]. exists x. split_and!; [done..|]. unfold unready. lia.
  - apply at_create_end; [|done..]. split; [|done]. exists x. split_and!; [done..|]. unfold ready, BIGCOUNT. lia.
Qed.

(** [p]'s sets after SETVAL. *)
Lemma setval_locked (P Q : semset → Prop) id t x n v : sets s !! id = Some x → (n < 2)%nat →
  locked P s p id → Q (set_val n v x) →
  locked Q (Sys (upd_set id (set_val n v x) (s_kern s)) (<[p := t]> (s_procs s))) p id.
Proof.
  intros Ex Hn [(y & Ey & H2 & _) Hl] HQ. rewrite Ex in Ey. injection Ey as <-. split.
  - exists (set_val n v x). simpl. rewrite lookup_insert_eq. split_and!; [done| |done].
    revert H2. unfold adj_of. simpl. rewrite lookup_fmap. destruct (ss_adj x !! p); [|done]. simpl.
    destruct n as [|[|]]; [done|done|lia].
  - intros id' y Hne. simpl. rewrite lookup_insert_ne by done. by apply Hl.
Qed.

Lemma setval_not_open id t x n v : sets s !! id = Some x → not_open s p id →
  not_open (Sys (upd_set id (set_val n v x) (s_kern s)) (<[p := t]> (s_procs s))) p id.
Proof.
  intros Ex Hno y. simpl. rewrite lookup_insert_eq. intros [= <-]. specialize (Hno x Ex). revert Hno.
  unfold adj_of. simpl. rewrite lookup_fmap. destruct (ss_adj x !! p); [|done]. simpl.
  by destruct n as [|[|]].
Qed.

Lemma fine_create_init0 key iv id : pst s p = Run (ReqCreate key iv) w (create_init0 id iv) →
  locked unready s p id → 0 <= iv <= SEMVMX → not_open s p id →
  fine N p (ReqCreate key iv) w f s (go p f (ReqCreate key iv) w (create_init0 id iv) s).
Proof.
  intros Hp Hlk Hiv Hno. pose proof Hlk as [(x & Ex & H2 & Hu) Hl].
  apply fine_call; [done|done|by intros; constructor|].
  intros ret k'. simpl. rewrite Ex.
  destruct (Z.ltb_spec iv 0); [lia|]. destruct (Z.ltb_spec SEMVMX iv); [lia|]. intros [= <- <-].
  split; [|done]. pose proof (set_facts id x Ex) as (Hx & ? & ? & ? & ? & ? & ? & ?).
  assert (Hus : users (set_val 0 iv x) = users x) by (by apply total_ext).
  eapply inv_upd; [done|by eapply i_pid|done|by apply set_inv_init0|done| |].
  - intros p' Hne. rewrite Hus. unfold adj_of. simpl. rewrite lookup_fmap.
    pose proof (adj_bounds N x p' Hx).
    destruct (ss_adj x !! p') as [a|]; simpl; split_and!; try done; try lia. by intros ->.
  - simpl. apply at_create_init1; [|by apply setval_not_open].
    eapply setval_locked; [done|lia|done|]. unfold unready. rewrite Hus. apply Hu.
Qed.

Lemma fine_create_init1 key iv id : pst s p = Run (ReqCreate key iv) w (create_init1 id) →
  locked unready s p id → not_open s p id →
  fine N p (ReqCreate key iv) w f s (go p f (ReqCreate key iv) w (create_init1 id) s).
Proof.
  intros Hp Hlk Hno. pose proof Hlk as [(x & Ex & H2 & Hu) Hl].
  apply fine_call; [done|done|by intros; constructor|].
  intros ret k'. simpl. rewrite Ex. intros [= <- <-].
  split; [|done]. pose proof (set_facts id x Ex) as (Hx & _).
  destruct (set_inv_init1 N x Hx Hu) as (Hx' & Hr & Ha).
  eapply inv_upd; [done|by eapply i_pid|done|done|done| |].
  - intros p' Hne. rewrite Ha. split_and!; try done.
    pose proof (lock_excl N x p p' Hx (not_eq_sym Hne) H2). lia.
  - simpl. apply at_create_end; [|by apply setval_not_open].
    by eapply setval_locked; [done|lia|done|].
Qed.

Lemma fine_create_end key iv id : pst s p = Run (ReqCreate key iv) w (create_end id) →
  locked ready s p id → not_open s p id →
  fine N p (ReqCreate key iv) w f s (go p f (ReqCreate key iv) w (create_end id) s).
Proof.
  intros Hp [(x & Ex & H2 & Hr) Hl] Hno. pose proof (Hno x Ex).
  pose proof (set_facts id x Ex) as (Hx & ? & _ & ? & ? & ? & ? & ?). pose proof (i_pid _ _ HI p _ _ _ Hp).
  eapply (fine_semop N s p _ w id op_endcreate _ f (T3 0 (-1) (-1)) x); try done.
  - by intros; constructor.
  - intros e E. exfalso. eapply ops_no_err; [exact Hx|exact HN| |exact E]. in_list.
  - intros x' E. apply endcreate_spec in E as [-> ?]. split; [done|].
    apply set_inv_bump; simpl; try done; try lia. by left.
  - by right.
  - intros Hb. simpl. apply at_ret; [apply own_no_lock; [done|by intros; eapply Hl]|].
    intros _ _ _ _. apply own_opened. simpl. lia.
Qed.

Lemma fine_close id : pst s p = Run (ReqClose id) w (sem_close id) → no_lock s p → opened s p id →
  fine N p (ReqClose id) w f s (go p f (ReqClose id) w (sem_close id) s).
Proof.
  intros Hp Hl (x & Ex & H1). pose proof (Hl id x Ex).
  pose proof (set_facts id x Ex) as (Hx & ? & Hc & ? & ? & ? & ? & ?). pose proof (i_pid _ _ HI p _ _ _ Hp).
  assert (Hr : ready x) by (destruct Hc; [done|lia]).
  eapply (fine_semop N s p _ w id op_close _ f (T3 0 1 1) x); try done.
  - by intros; constructor.
  - intros e E. exfalso. eapply ops_no_err; [exact Hx|exact HN| |exact E]. in_list.
  - intros x' E. apply close_spec in E as [-> ?]. split; [done|].
    apply set_inv_bump; simpl; try done; try lia. by left.
  - by left.
  - intros Hb. simpl. apply at_close_locked, own_locked; simpl; [lia| |by intros; eapply Hl].
    unfold ready in *. rewrite users_bump. simpl. lia.
Qed.

Lemma fine_close_locked id : pst s p = Run (ReqClose id) w (close_locked id) →
  locked ready s p id → fine N p (ReqClose id) w f s (go p f (ReqClose id) w (close_locked id) s).
Proof.
  intros Hp [(x & Ex & H2 & Hr) Hl]. apply fine_call; [done|done|by intros; constructor|].
  intros ret k'. simpl. rewrite Ex. intros [= <- <-]. simpl.
  pose proof (set_facts id x Ex) as (Hx & ? & _ & ? & ? & ? & ? & ?). unfold ready in Hr.
  destruct (Z.ltb_spec BIGCOUNT (t1 (ss_val x))); [lia|].
  destruct (Z.eqb_spec (t1 (ss_val x)) BIGCOUNT); (split; [|done]);
    (apply (inv_local N s p (Run _ false _)); [done|left; by eapply i_pid|]).
  - apply at_close_rm. split; [|done]. exists x. split_and!; [done..|]. lia.
  - apply at_close_unlock. split; [|done]. by exists x.
Qed.

Lemma fine_close_unlock id : pst s p = Run (ReqClose id) w (close_unlock id) →
  locked ready s p id → fine N p (ReqClose id) w f s (go p f (ReqClose id) w (close_unlock id) s).
Proof.
  intros Hp [(x & Ex & H2 & Hr) Hl].
  pose proof (set_facts id x Ex) as (Hx & ? & _ & ? & ? & ? & ? & ?). pose proof (i_pid _ _ HI p _ _ _ Hp).
  eapply (fine_semop N s p _ w id op_unlock _ f (T3 0 0 (-1)) x); try done.
  - by intros; constructor.
  - intros e E. exfalso. eapply ops_no_err; [exact Hx|exact HN| |exact E]. in_list.
  - intros x' E. apply unlock_spec in E as [-> ?]. split; [done|].
    apply set_inv_bump; simpl; try done; try lia.
  - by left.
  - intros Hb. simpl. apply at_ret; [|done]. apply own_no_lock; [done|by intros; eapply Hl].
Qed.

Lemma fine_close_rm id : pst s p = Run (ReqClose id) w (sem_rm id) →
  locked (λ x, users x = 0) s p id → fine N p (ReqClose id) w f s (go p f (ReqClose id) w (sem_rm id) s).
Proof.
  intros Hp [(x & Ex & H2 & Hu) Hl]. apply fine_call; [done|done|by intros; constructor|].
  intros ret k'. simpl. rewrite Ex. intros [= <- <-]. split; [|done].
  pose proof (set_facts id x Ex) as (Hx & _).
  apply inv_step; [done|left; by eapply i_pid| | |].
  - split; simpl.
    + intros id' y. rewrite lookup_delete_Some. intros [_ E]. by eapply HK.
    + intros key id'. rewrite lookup_delete_Some. intros [Hne Ek].
      destruct (ki_key _ _ HK key id' Ek) as (y & Ey & Hy). exists y. rewrite lookup_delete_Some.
      split; [|done]. split; [|done]. intros <-. rewrite Ex in Ey. injection Ey as <-. done.
    + intros id' y. rewrite lookup_delete_Some. intros [_ E]. by eapply (ki_next _ _ HK).
  - intros p' Hne id'. simpl. destruct (decide (id' = id)) as [->|Hne'].
    + rewrite lookup_delete_eq, Ex. pose proof (lock_excl N x p p' Hx (not_eq_sym Hne) H2).
      pose proof (adj_bounds N x p' Hx). lia.
    + rewrite lookup_delete_ne by done. exact (rely_refl N p' s s HK eq_refl id').
  - simpl. apply at_ret; [|done]. intros id' y. simpl. rewrite lookup_delete_Some.
    intros [Hne E]. by eapply Hl.
Qed.

Lemma fine_op r id v : r = ReqWait id ∨ r = ReqSignal id ∨ r = ReqOp id v →
  no_lock s p → opened s p id → pst s p = Run r w (body r) →
  fine N p r w f s (go p f r w (body r) s).
Proof.
  intros Hr Hl Ho Hp.
  assert (Hb : ∃ a, body r = sem_op id a) by (destruct Hr as [->|[->| ->]]; by eexists).
  destruct Hb as [a Hb]. rewrite Hb in *. unfold sem_op in *.
  assert (He : ∀ w', expected r w' (ErrSys "sem_op error")) by (destruct Hr as [->|[->| ->]]; done).
  destruct (Z.eqb_spec (wrap_s 16 a) 0) as [Hz|Hz].
  { simpl. eapply fine_inv; [apply inv_exit; done|apply pst_eq|done]. }
  destruct Ho as (x & Ex & H1). pose proof (Hl id x Ex). pose proof (i_pid _ _ HI p _ _ _ Hp).
  pose proof (set_facts id x Ex) as (Hx & ? & Hc & ? & ? & ? & ? & ?).
  eapply (fine_semop N s p _ w id _ _ f (T3 (wrap_s 16 a) 0 0) x); try done.
  - by intros; constructor.
  - by intros e _ e' [= <-].
  - intros x' E. apply op_op_spec in E as [-> ?]; [|done]. split; [done|].
    apply set_inv_bump; simpl; try done; try lia.
  - by left.
  - intros Hbi. simpl. apply at_ret; [|by destruct Hr as [->|[->| ->]]].
    apply own_no_lock; [done|by intros; eapply Hl].
Qed.

Lemma fine_create key iv : pst s p = Run (ReqCreate key iv) w (sem_create key iv) →
  no_lock s p → no_open s p key → 0 <= iv <= SEMVMX →
  fine N p (ReqCreate key iv) w f s (go p f (ReqCreate key iv) w (sem_create key iv) s).
Proof.
  intros Hp Hl Ho Hiv. unfold sem_create in *.
  destruct (key =? IPC_PRIVATE).
  { eapply fine_inv; [apply (inv_local N s p Idle); [done|by right|done]|apply pst_eq|done]. }
  destruct (key =? -1).
  { eapply fine_inv; [apply (inv_local N s p Idle); [done|by right|done]|apply pst_eq|done]. }
  apply fine_call; [done|done|intros; by constructor|].
  intros ret k'. simpl. unfold k_semget. destruct (k_keys (s_kern s) !! key) as [id|] eqn:Ek.
  - intros [= <- <-]. split; [|done].
    apply (inv_local N s p (Run _ false _)); [done|left; by eapply i_pid|].
    apply at_create_lock; try done. destruct (ki_key _ _ HK key id Ek) as (x & Ex & Hk).
    intros y Ey. rewrite Ex in Ey. injection Ey as <-. by eapply Ho.
  - intros [= <- <-]. split; [|done].
    assert (Hfr : sets s !! k_next (s_kern s) = None).
    { destruct (sets s !! k_next (s_kern s)) as [x|] eqn:E; [|done].
      pose proof (ki_next _ _ HK _ x E). lia. }
    assert (Hz : ∀ p', adj_of (SemSet key tzero ∅) p' = tzero) by done.
    apply inv_step; [done|left; by eapply i_pid| | |].
    + split; simpl.
      * intros id x. rewrite lookup_insert_Some. intros [[<- <-]|[_ E]]; [|by eapply HK].
        split; unfold lockers, users; simpl; rewrite ?total_empty; try done; by right.
      * intros key' id. rewrite lookup_insert_Some. intros [[<- <-]|[_ E]].
        -- eexists. by rewrite lookup_insert_eq.
        -- destruct (ki_key _ _ HK key' id E) as (x & Ex & Hk). exists x.
           by rewrite lookup_insert_ne by congruence.
      * intros id x. rewrite lookup_insert_Some. intros [[<- <-]|[_ E]]; [lia|].
        pose proof (ki_next _ _ HK id x E). lia.
    + intros p' Hne id. simpl. destruct (decide (id = k_next (s_kern s))) as [->|Hne'].
      * by rewrite lookup_insert_eq, Hfr.
      * rewrite lookup_insert_ne by done. exact (rely_refl N p' s s HK eq_refl id).
    + simpl. apply at_create_lock; [..|done|].
      * intros id x. simpl. rewrite lookup_insert_Some. intros [[<- <-]|[_ E]]; [done|by eapply Hl].
      * intros id x. simpl. rewrite lookup_insert_Some. intros [[<- <-]|[_ E]]; [done|by eapply Ho].
      * intros x. simpl. rewrite lookup_insert_eq. by intros [= <-].
Qed.

(** One step inside of a routine. *)
Lemma go_fine r q : pst s p = Run r w q → (∀ e, q ≠ Die e) → fine N p r w f s (go p f r w q s).
Proof.
  intros Hp Hq. pose proof (i_proc _ _ HI p) as Hat. rewrite Hp in Hat. simpl in Hat.
  destruct Hat as [r e|r v Hl Hv|key iv Hl Ho Hiv|key iv q Hl Ho Hiv ->|key iv id Hl Ho Hiv Hno
    |key iv id Hlk Hiv Hno|key iv id Hlk Hiv Hno|key iv id Hlk Hno|key iv id Hlk Hno|id Hl Ho|id Hlk
    |id Hlk|id Hlk|r id v q Hr Hl Ho ->].
  - by destruct (Hq e).
  - eapply fine_inv; [apply (inv_local N s p Idle); [done|by right|done]|apply pst_eq|done].
  - eapply fine_inv; [apply (inv_local N s p (Run _ false _)); [done|left; by eapply i_pid|]|apply pst_eq|].
    + by eapply at_create.
    + simpl. unfold sem_create. intros e _. destruct (key =? IPC_PRIVATE), (key =? -1); done.
  - by apply fine_create.
  - by apply fine_create_lock.
  - by apply fine_create_locked.
  - by apply fine_create_init0.
  - by apply fine_create_init1.
  - by apply fine_create_end.
  - by apply fine_close.
  - by apply fine_close_locked.
  - by apply fine_close_unlock.
  - by apply fine_close_rm.
  - by eapply fine_op.
Qed.
End cases.

(** ** Runs *)

Definition actor (l : label) : nat := match l with LStart p _ | LStep p _ | LExit p => p end.

Lemma start_at s p r : no_lock s p →
  match r with
  | ReqCreate key initval => 0 <= initval <= SEMVMX ∧ no_open s p key
  | ReqClose id | ReqWait id | ReqSignal id | ReqOp id _ => opened s p id
  | ReqOpen _ | ReqRm _ => False
  end → at_req s p r (body r).
Proof.
  intros Hl. destruct r as [key iv|key|id|id|id|id|id v]; simpl; intros H; try done.
  - destruct H. by eapply at_create.
  - by apply at_close.
  - by eapply (at_op _ _ _ id 0); [left|..].
  - by eapply (at_op _ _ _ id 0); [right; left|..].
  - by eapply (at_op _ _ _ id v); [right; right|..].
Qed.

Lemma exec_good N s l s' : Z.of_nat N < BIGCOUNT → inv N s → allowed N s l → exec l s = Some s' →
  good N (actor l) s s'.
Proof.
  intros HN HI Ha. destruct l as [p r|p f|p]; simpl.
  - destruct (pst s p) eqn:Ep; [|done|done]. intros [= <-]. destruct Ha as [Hp Ha].
    apply (inv_local N s p (Run r false _)); [done|by left|].
    pose proof (i_proc _ _ HI p) as Hat. rewrite Ep in Hat. by apply start_at.
  - destruct (pst s p) as [|r w q|] eqn:Ep; [done| |done]. intros [= <-].
    destruct q as [v|e| |c k]; [| by apply inv_exit| |]; by apply (go_fine N HN s HI p w f r _ Ep).
  - destruct (pst s p); [| |done]; intros [= <-]; by apply inv_exit.
Qed.

Lemma inv_init N : inv N sys_init.
Proof.
  split.
  - split; simpl; [intros id x|intros key id|intros id x]; rewrite lookup_empty; done.
  - intros p. unfold pst. simpl. rewrite lookup_empty. intros id x. simpl. by rewrite lookup_empty.
  - intros p r w q. unfold pst. simpl. by rewrite lookup_empty.
Qed.

Lemma sem_reach_inv N s : Z.of_nat N < BIGCOUNT → reach N s → inv N s.
Proof.
  intros HN. induction 1 as [|s l s' _ IH Ha Hx]; [apply inv_init|].
  by destruct (exec_good N s l s' HN IH Ha Hx).
Qed.

(** C12: fewer than 10000 processes that use sem_create, sem_close, sem_wait, sem_signal
    and sem_op as they are meant to be used, interleaved in any way, killed at any
    point and with any call failing: (1) a set is open when sem_create has returned
    its id; (2) nobody else can take an open set away; (3) the counter of an open set
    plus the number of processes that have it open is BIGCOUNT, the semaphore is
    never negative and the lock of the set has at most one holder; (4) without a
    failing call a process is ended by the library only in two cases: it was asleep
    in the lock of sem_create when the set was removed, or a sem_op left the range
    of a semaphore. In particular "sem[1] > BIGCOUNT" never happens. *)
Theorem semaph_safe N s : Z.of_nat N < BIGCOUNT → reach N s →
  (∀ p key iv w v, pst s p = Run (ReqCreate key iv) w (Ret v) → v ≠ -1 → opened s p v) ∧
  (∀ p id l s', opened s p id → allowed N s l → exec l s = Some s' → actor l ≠ p → opened s' p id) ∧
  (∀ id x, sets s !! id = Some x → 0 <= t0 (ss_val x) ∧
    (∀ p p', t2 (adj_of x p) ≠ 0 → t2 (adj_of x p') ≠ 0 → p = p') ∧
    ((∃ p, opened s p id) → t1 (ss_val x) + users x = BIGCOUNT)) ∧
  (∀ p r w q s' e, pst s p = Run r w q → (∀ e', q ≠ Die e') →
    exec (LStep p None) s = Some s' → pst s' p = Run r false (Die e) → expected r w e).
Proof.
  intros HN HR. pose proof (sem_reach_inv N s HN HR) as HI. split_and!.
  - intros p key iv w v Ep Hv. pose proof (i_proc _ _ HI p) as Hat. rewrite Ep in Hat. simpl in Hat.
    inversion Hat as [|? ? ? H| |? ? ? ? ? ? Hq| | | | | | | | | |? ? ? ? [H|[H|H]]]; subst; try done;
      [by eapply H|]. unfold sem_create in *. destruct (key =? IPC_PRIVATE), (key =? -1); congruence.
  - intros p id l s' Ho Ha Hx Hne. destruct (exec_good N s l s' HN HI Ha Hx) as [_ Hrely].
    by eapply rely_opened; [apply Hrely; congruence|].
  - intros id x Ex. pose proof (ki_set _ _ (i_kern _ _ HI) id x Ex) as Hx. split_and!; [apply Hx| |].
    + intros p p' H H'. destruct (decide (p = p')) as [|Hne]; [done|].
      pose proof (adj_bounds N x p Hx) as (_ & ? & _). pose proof (si_lock1 N x Hx).
      destruct (H' (lock_excl N x p p' Hx Hne ltac:(lia))).
    + intros (p & y & Ey & Hy). rewrite Ex in Ey. injection Ey as <-.
      pose proof (adj_bounds N x p Hx). destruct (si_count N x Hx); [done|lia].
  - intros p r w q s' e Ep Hq. simpl. rewrite Ep. intros [= <-] He.
    by apply (go_fine N HN s HI p w None r q Ep Hq).
Qed.

(** [n] undisturbed steps of [p]. *)
Definition steps (n : nat) (p : nat) : list label := replicate n (LStep p None).

(** Process 1 creates the semaphore and later closes it as the only user. *)
Definition creator : list label := LStart 1 (ReqCreate 7 1) :: steps 7 1.

(** the race sem_create means to handle and does not. Process 2 waits in the
    semop for the lock while process 1, the last user, closes and removes the set.
    The code expects EINVAL there, but a process asleep in semop gets EIDRM: its
    sem_create ends the process with "can't lock" instead of starting again. The
    same call made after the removal does start again. *)
Theorem sem_create_dies : ∃ s s',
  execs (creator ++ [LStart 2 (ReqCreate 7 1); LStep 2 None; LStart 1 (ReqClose 0); LStep 1 None]
    ++ [LStep 2 None] ++ steps 2 1 ++ [LStep 2 None]) sys_init = Some s ∧
  pst s 2 = Run (ReqCreate 7 1) false (Die (ErrSys "can't lock")) ∧
  execs (creator ++ [LStart 2 (ReqCreate 7 1); LStep 2 None; LStart 1 (ReqClose 0); LStep 1 None]
    ++ steps 2 1 ++ [LStep 2 None]) sys_init = Some s' ∧
  pst s' 2 = Run (ReqCreate 7 1) false Again.
Proof.
  eexists _, _. split; [vm_compute; reflexivity|]. split; [vm_compute; reflexivity|].
  split; vm_compute; reflexivity.
Qed.

(** sem_open decrements the process counter without the lock. Process 1, the last
    user, has read the counter in its sem_close when process 2 opens the semaphore;
    process 1 removes the set all the same. Process 2's sem_open has returned the
    id of a set that is gone, and its first sem_wait ends it with "sem_op error". *)
Theorem sem_open_race : ∃ s s',
  execs (creator ++ [LStart 2 (ReqOpen 7); LStep 2 None; LStart 1 (ReqClose 0)] ++ steps 2 1
    ++ [LStep 2 None; LStep 1 None]) sys_init = Some s ∧
  pst s 2 = Run (ReqOpen 7) false (Ret 0) ∧ sets s !! 0 = None ∧
  execs [LStep 2 None; LStart 2 (ReqWait 0); LStep 2 None] s = Some s' ∧
  pst s' 2 = Run (ReqWait 0) false (Die (ErrSys "sem_op error")).
Proof.
  eexists _, _. split; [vm_compute; reflexivity|].
  repeat (split; [vm_compute; reflexivity|]). vm_compute; reflexivity.
Qed.

(** ** Witnesses *)

Lemma reach_execs N ls s s' : reach N s → execs ls s = Some s' →
  Forall (λ l, match l with LStep _ _ | LExit _ => True | _ => False end) ls → reach N s'.
Proof.
  revert s. induction ls as [|l ls IH]; simpl; intros s HR; [by intros [= <-]|].
  destruct (exec l s) as [s1|] eqn:E; simpl; [|done]. intros Hx. rewrite Forall_cons. intros [Hl Hls].
  eapply IH; [|done|done]. eapply reach_step; [exact HR| |exact E]. by destruct l.
Qed.

Lemma creator_reach : ∃ s, execs creator sys_init = Some s ∧ reach 5 s ∧ opened s 1 0.
Proof.
  destruct (exec (LStart 1 (ReqCreate 7 1)) sys_init) as [s0|] eqn:E0; [|done].
  destruct (execs (steps 7 1) s0) as [s|] eqn:E; [|by vm_compute in E0; injection E0 as <-].
  exists s. split; [|split].
  - unfold creator. simpl. simpl in E0. injection E0 as <-. exact E.
  - eapply reach_execs; [|exact E|by repeat constructor].
    eapply reach_step; [apply reach_init| |exact E0]. split; [lia|]. split; [unfold SEMVMX; lia|].
    intros id x. simpl. by rewrite lookup_empty.
  - vm_compute in E0. injection E0 as <-. vm_compute in E. injection E as <-. by eexists.
Qed.

(** A process has created the semaphore: the counter is one below BIGCOUNT. *)
Lemma semaph_safe_witness : ∃ s x, execs creator sys_init = Some s ∧ sets s !! 0 = Some x ∧
  t1 (ss_val x) + users x = BIGCOUNT.
Proof.
  destruct creator_reach as (s & E & HR & Ho). pose proof Ho as (x & Ex & _).
  exists s, x. split; [exact E|]. split; [exact Ex|].
  destruct (semaph_safe 5 s) as (_ & _ & H & _); [unfold BIGCOUNT; lia|exact HR|].
  apply (H 0 x Ex). by exists 1%nat.
Defined.
