(* ===== verification/FdPass.v ===== *)
(** * Passing a descriptor over a connection: lib/sendfd.c, lib/senderr.c,
    lib/recvfd.c and the writen of ipc2/open_server.

    What travels is a list of segments, one per successful write or sendmsg; a
    sendmsg may attach an open file.  The reader gets the segments that have
    arrived as one run of bytes, at most MAXLINE of them, and the file attached
    to one of them as a new descriptor of its own. *)
From Stdlib Require Import Ascii ZArith Lia.
From stdpp Require Import base strings gmap option list.
From S2P Require Import Prelude CStr Sock.

Definition MAXLINE : Z := 4096.

(** An open file: the path and the flags it was opened with. *)
Abbreviation ofile := (bytes * Z)%type.
Record seg := Seg { sg_data : bytes; sg_file : option ofile }.

(** The sending side: what is under way, and how the coming writes will go. *)
Record chan := Chan { ch_wire : list seg; ch_wr : list wev }.

Definition ch_write (b : bytes) (c : chan) : iores nat * chan :=
  match ch_wr c with
  | [] => (IoOk (length b), Chan (ch_wire c ++ [Seg b None]) [])
  | WvErr e :: r => (IoErr e, Chan (ch_wire c) r)
  | WvOk O :: r => (IoOk O, Chan (ch_wire c) r)
  | WvOk k :: r => (IoOk (length (take k b)), Chan (ch_wire c ++ [Seg (take k b) None]) r)
  end.

(** sendmsg of a message of two bytes: all or nothing. *)
Definition ch_sendmsg (b : bytes) (f : option ofile) (c : chan) : iores nat * chan :=
  match ch_wr c with
  | WvErr e :: r => (IoErr e, Chan (ch_wire c) r)
  | wr => (IoOk (length b), Chan (ch_wire c ++ [Seg b f]) (tail wr))
  end.

(** ** Sending *)

(** The loop of writen: [b] is what is left of [n] bytes. *)
Fixpoint ch_writen_loop (fuel : nat) (n : nat) (b : bytes) (c : chan) : Z * chan :=
  match b, fuel with
  | [], _ | _, O => (Z.of_nat n - Z.of_nat (length b), c)
  | _, S f =>
      match ch_write b c with
      | (IoErr _, c') =>
          if (length b =? n)%nat then (-1, c') else (Z.of_nat n - Z.of_nat (length b), c')
      | (IoOk O, c') => (Z.of_nat n - Z.of_nat (length b), c')
      | (IoOk k, c') => ch_writen_loop f n (drop k b) c'
      end
  end.
Definition ch_writen (b : bytes) (c : chan) : Z * chan := ch_writen_loop (length b) (length b) b c.

(** [mem]: cmptr is there or can be allocated; [fds]: the descriptors of the process. *)
Definition send_fd (mem : bool) (fds : gmap Z ofile) (fd_to_send : Z) (c : chan) : Z * chan :=
  let sent (r : iores nat * chan) : Z * chan :=
    match r with (IoOk 2%nat, c') => (0, c') | (_, c') => (-1, c') end in
  if fd_to_send <? 0 then
    let st := to_char (- fd_to_send) in
    let st := if decide (st = NUL) then to_char 1 else st in
    sent (ch_sendmsg [NUL; st] None c)
  else if negb mem then (-1, c)
  else
    match fds !! fd_to_send with
    | None => (-1, c)
    | Some f => sent (ch_sendmsg [NUL; NUL] (Some f) c)
    end.

Definition send_err (mem : bool) (fds : gmap Z ofile) (errcode : Z) (msg : bytes) (c : chan) : Z * chan :=
  let n := strlen msg in
  let '(ok, c) :=
    if (0 <? n)%nat then let '(r, c) := ch_writen (cstr msg) c in (r =? Z.of_nat n, c) else (true, c) in
  if negb ok then (-1, c)
  else
    let errcode := if 0 <=? errcode then -1 else errcode in
    let '(r, c) := send_fd mem fds errcode c in
    if r <? 0 then (-1, c) else (0, c).

(** ** Receiving *)

(** How the next recvmsg goes: it finds [S k] segments, or fails. *)
Inductive rcvev : Type := RmReady (k : nat) | RmErr (e : Z).

(** The receiving process, with the state [U] of its user function: the segments on
    their way, its descriptors, the next one the kernel will give out, and the int
    in the control buffer. *)
Record rcv (U : Type) := Rcv {
  rc_in : list seg; rc_sched : list rcvev; rc_files : gmap Z ofile; rc_next : Z;
  rc_ctl : Z; rc_user : U }.
Arguments Rcv {U}. Arguments rc_in {U}. Arguments rc_sched {U}. Arguments rc_files {U}.
Arguments rc_next {U}. Arguments rc_ctl {U}. Arguments rc_user {U}.
#[export] Instance rcv_rebuild U : Rebuild (rcv U) := λ r,
  Rcv (rc_in r) (rc_sched r) (rc_files r) (rc_next r) (rc_ctl r) (rc_user r).

Section recv.
Context {U : Type} (userfunc : bytes → U → Z * U).

(** The new descriptor for a file that came along. *)
Definition install (f : option ofile) (s : rcv U) : rcv U :=
  match f with
  | Some x => s <| rc_files ::= <[rc_next s := x]> |> <| rc_ctl := rc_next s |> <| rc_next := rc_next s + 1 |>
  | None => s
  end.

Definition seg_file (l : list seg) : option ofile := list_find (λ g, is_Some (sg_file g)) l ≫= (λ x, sg_file x.2).

(** recvmsg into a buffer of MAXLINE bytes: the bytes and whether control data came. *)
Definition recvmsg (s : rcv U) : iores (bytes * bool) * rcv U :=
  let take_segs (k : nat) (s : rcv U) :=
    let got := take (S k) (rc_in s) in
    let data := concat (sg_data <$> got) in
    let n := Z.to_nat MAXLINE in
    let left := match drop n data with [] => [] | b => [Seg b None] end in
    let f := seg_file got in
    (IoOk (take n data, bool_decide (is_Some f)),
     install f (s <| rc_in := left ++ drop (S k) (rc_in s) |>)) in
  match rc_sched s with
  | RmErr e :: r => (IoErr e, s <| rc_sched := r |>)
  | RmReady k :: r => take_segs k (s <| rc_sched := r |>)
  | [] => take_segs (length (rc_in s)) s
  end.

(** The loop over the buffer: status, the new descriptor and the bytes of text. *)
Inductive scanres := ScanOk (status newfd nr : Z) | ScanDump (e : fatal).

Fixpoint scan_buf (fuel : nat) (buf : bytes) (ctl : bool) (data : Z) (ptr nr status newfd : Z) : scanres :=
  match fuel with
  | O => ScanOk status newfd nr
  | S f =>
      if ptr <? nr then
        if decide (buf !! Z.to_nat ptr = Some NUL) then
          if negb (ptr + 1 =? nr - 1) then ScanDump (ErrDump "message format error")
          else
            let status := match buf !! Z.to_nat (ptr + 1) with Some c => char_u c | None => 0 end in
            if status =? 0 then
              if negb ctl then ScanDump (ErrDump "status = 0 but no fd")
              else scan_buf f buf ctl data (ptr + 1) (nr - 2) status data
            else scan_buf f buf ctl data (ptr + 1) (nr - 2) status (- status)
        else scan_buf f buf ctl data (ptr + 1) nr status newfd
      else ScanOk status newfd nr
  end.

Fixpoint recv_loop (fuel : nat) (newfd : Z) : prog (rcv U) Z := λ s,
  match fuel with
  | O => NoFuel
  | S f =>
      match recvmsg s with
      | (IoErr _, s) => Done (-1) s
      | (IoOk ([], _), s) => Done (-1) s
      | (IoOk (buf, ctl), s) =>
          match scan_buf (length buf) buf ctl (rc_ctl s) 0 (Z.of_nat (length buf)) (-1) newfd with
          | ScanDump e => Fatal e s
          | ScanOk status newfd nr =>
              let '(ok, s) :=
                if 0 <? nr then
                  let '(r, u) := userfunc (take (Z.to_nat nr) buf) (rc_user s) in
                  (r =? nr, s <| rc_user := u |>)
                else (true, s) in
              if negb ok then Done (-1) s
              else if 0 <=? status then Done newfd s
              else recv_loop f newfd s
          end
      end
  end.

(** [status] is -1 whenever a round of the loop begins. Every round takes a byte. *)
Definition recv_fuel (s : rcv U) : nat := S (length (concat (sg_data <$> rc_in s)) + length (rc_in s)).
Definition recv_fd : prog (rcv U) Z := λ s, recv_loop (recv_fuel s) 0 s.
End recv.
