(* ===== verification/FdPassSpec.v ===== *)
(** * What the descriptor protocol does: the lemmas on FdPass. *)
From Stdlib Require Import Ascii ZArith Lia.
From stdpp Require Import base strings gmap option list.
From S2P Require Import Prelude CStr Sock FdPass.

(** ** The scan of the buffer *)

Lemma scan_text buf ctl data status newfd nr : ∀ text pre rest f, buf = pre ++ text ++ rest →
  no_nul text → Z.of_nat (length pre) + Z.of_nat (length text) <= nr →
  scan_buf (length text + f) buf ctl data (Z.of_nat (length pre)) nr status newfd =
  scan_buf f buf ctl data (Z.of_nat (length pre + length text)) nr status newfd.
Proof.
  induction text as [|c text IH]; intros pre rest f Hb Hn Hnr.
  - simpl. by rewrite Nat.add_0_r.
  - apply no_nul_cons in Hn as [Hc Hn]. simpl in Hnr. simpl.
    rewrite (proj2 (Z.ltb_lt _ _)) by lia. rewrite Nat2Z.id.
    rewrite decide_False.
    2:{ rewrite Hb, lookup_app_r, Nat.sub_diag by done. simpl. congruence. }
    specialize (IH (pre ++ [c]) rest f). rewrite length_app in IH. simpl in IH.
    replace (Z.of_nat (length pre) + 1) with (Z.of_nat (length pre + 1)) by lia.
    replace (length pre + S (length text))%nat with (length pre + 1 + length text)%nat by lia.
    apply IH; [by rewrite Hb, <- app_assoc|done|lia].
Qed.

Lemma scan_only_text text ctl data newfd : no_nul text →
  scan_buf (length text) text ctl data 0 (Z.of_nat (length text)) (-1) newfd =
  ScanOk (-1) newfd (Z.of_nat (length text)).
Proof.
  intros Hn. pose proof (scan_text text ctl data (-1) newfd (Z.of_nat (length text)) text [] [] 0) as H.
  rewrite app_nil_r, Nat.add_0_r in H. cbn [length Nat.add app] in H. change (Z.of_nat 0) with 0 in H. by rewrite H by (done || lia).
Qed.

Lemma scan_final text st ctl data newfd : no_nul text → (st = NUL → ctl = true) →
  let buf := text ++ [NUL; st] in
  scan_buf (length buf) buf ctl data 0 (Z.of_nat (length buf)) (-1) newfd =
  ScanOk (char_u st) (if decide (st = NUL) then data else - char_u st) (Z.of_nat (length text)).
Proof.
  intros Hn Hst buf. pose proof (scan_text buf ctl data (-1) newfd (Z.of_nat (length buf)) text [] [NUL; st] 2) as H.
  assert (Hl : length buf = (length text + 2)%nat) by (unfold buf; by rewrite length_app).
  cbn [length Nat.add app] in H. change (Z.of_nat 0) with 0 in H. rewrite Hl in *. rewrite H by (done || lia).
  assert (H0 : buf !! length text = Some NUL)
    by (unfold buf; rewrite lookup_app_r, Nat.sub_diag by done; done).
  assert (H1 : buf !! Z.to_nat (Z.of_nat (length text) + 1) = Some st).
  { unfold buf. rewrite lookup_app_r by lia.
    replace (Z.to_nat _ - length text)%nat with 1%nat by lia. done. }
  unfold scan_buf; fold scan_buf. rewrite (proj2 (Z.ltb_lt _ _)) by lia. rewrite Nat2Z.id, decide_True by done.
  rewrite (proj2 (Z.eqb_eq _ _)) by lia. simpl negb. cbv iota. rewrite H1.
  assert (Hz : (char_u st =? 0) = bool_decide (st = NUL)).
  { destruct (decide (st = NUL)) as [->|Hne].
    - by rewrite bool_decide_true.
    - rewrite bool_decide_false by done. apply Z.eqb_neq. intros E. apply Hne, char_u_inj. by rewrite E. }
  rewrite Hz. destruct (decide (st = NUL)) as [Hs|Hs].
  - rewrite bool_decide_true by done. rewrite (Hst Hs). simpl negb. cbv iota.
    rewrite (proj2 (Z.ltb_ge _ _)) by lia. f_equal. lia.
  - rewrite bool_decide_false by done. rewrite (proj2 (Z.ltb_ge _ _)) by lia. f_equal. lia.
Qed.

(** ** The loop of recv_fd *)

Definition is_text (g : seg) : Prop := sg_file g = None ∧ no_nul (sg_data g) ∧ sg_data g ≠ [].
Definition run (l : list seg) : bytes := concat (sg_data <$> l).

Lemma run_app l1 l2 : run (l1 ++ l2) = run l1 ++ run l2.
Proof. unfold run. by rewrite fmap_app, concat_app. Qed.

Lemma texts_no_nul l : Forall is_text l → no_nul (run l).
Proof.
  induction 1 as [|g l (_ & Hg & _) _ IH]; [apply no_nul_nil|].
  change (no_nul (sg_data g ++ run l)). by apply no_nul_app.
Qed.

Lemma texts_no_file l : Forall is_text l → seg_file l = None.
Proof.
  intros H. unfold seg_file. rewrite (proj2 (list_find_None _ _)); [done|].
  eapply Forall_impl; [exact H|]. intros g (-> & _) [? [=]].
Qed.

Lemma texts_last_file l g : Forall is_text l → seg_file (l ++ [g]) = sg_file g.
Proof.
  intros H. unfold seg_file. destruct (sg_file g) as [x|] eqn:E.
  - rewrite list_find_app_r.
    + simpl. rewrite decide_True by (by rewrite E). simpl. by rewrite E.
    + apply list_find_None. eapply Forall_impl; [exact H|]. intros y (-> & _) [? [=]].
  - rewrite (proj2 (list_find_None _ _)); [done|]. apply Forall_app. split.
    + eapply Forall_impl; [exact H|]. intros y (-> & _) [? [=]].
    + apply Forall_singleton. rewrite E. by intros [? [=]].
Qed.

Lemma texts_run_nonempty l : Forall is_text l → l ≠ [] → run l ≠ [].
Proof.
  intros H Hl. destruct l as [|g l]; [done|].
  apply Forall_cons in H as [(_ & _ & Hg) _]. unfold run. simpl. by destruct (sg_data g).
Qed.

Section recv_spec.
Context {U : Type} (userfunc : bytes → U → Z * U) (good : U → Prop) (keep : U → bytes → U).
Context (Huser : ∀ b u, good u → userfunc b u = (Z.of_nat (length b), keep u b) ∧ good (keep u b)).
Context (Hkeep : ∀ u a b, keep (keep u a) b = keep u (a ++ b)) (Hnil : ∀ u, good u → keep u [] = u).
Implicit Types (s : rcv U).

Definition ready_sched (l : list rcvev) : Prop := Forall (λ e, ∃ k, e = RmReady k) l.

(** What a call of recvmsg gets when everything fits into the buffer. *)
Lemma recvmsg_ready s : ready_sched (rc_sched s) → (length (run (rc_in s)) <= Z.to_nat MAXLINE)%nat →
  ∃ k sched, ready_sched sched ∧
    recvmsg s = (IoOk (run (take (S k) (rc_in s)), bool_decide (is_Some (seg_file (take (S k) (rc_in s))))),
      install (seg_file (take (S k) (rc_in s)))
        (s <| rc_sched := sched |> <| rc_in := drop (S k) (rc_in s) |>)).
Proof.
  intros Hs Hl.
  assert (Hlen : ∀ k, (length (run (take k (rc_in s))) <= Z.to_nat MAXLINE)%nat).
  { intros k. etrans; [|exact Hl]. rewrite <- (take_drop k (rc_in s)) at 2. rewrite run_app, length_app. lia. }
  unfold recvmsg. destruct (rc_sched s) as [|ev sched] eqn:E.
  - exists (length (rc_in s)), []. split; [done|]. fold (run (take (S (length (rc_in s))) (rc_in s))).
    rewrite take_ge, drop_ge by apply Hlen. destruct s; simpl in *. by subst.
  - apply Forall_cons in Hs as [[k ->] Hs]. exists k, sched. split; [done|].
    change (rc_in (s <| rc_sched := sched |>)) with (rc_in s). fold (run (take (S k) (rc_in s))).
    by rewrite take_ge, drop_ge by apply Hlen.
Qed.

Lemma install_in f s : rc_in (install f s) = rc_in s.
Proof. by destruct f, s. Qed.
Lemma install_sched f s : rc_sched (install f s) = rc_sched s.
Proof. by destruct f, s. Qed.
Lemma install_user f s : rc_user (install f s) = rc_user s.
Proof. by destruct f, s. Qed.

(** One round: text only, or the end of the message. *)
Lemma recv_round_text f newfd s text s1 : recvmsg s = (IoOk (text, false), s1) → text ≠ [] → no_nul text →
  good (rc_user s1) →
  recv_loop userfunc (S f) newfd s = recv_loop userfunc f newfd (s1 <| rc_user := keep (rc_user s1) text |>).
Proof.
  intros E Ht Hn Hg. simpl. rewrite E. destruct text as [|c text]; [done|].
  rewrite scan_only_text by done. rewrite (proj2 (Z.ltb_lt _ _)) by (simpl; lia).
  rewrite Nat2Z.id, take_ge by done. destruct (Huser (c :: text) (rc_user s1) Hg) as [-> _].
  by rewrite Z.eqb_refl.
Qed.

Lemma recv_round_final f newfd s text st ctl s1 : recvmsg s = (IoOk (text ++ [NUL; st], ctl), s1) → no_nul text →
  (st = NUL → ctl = true) → good (rc_user s1) →
  recv_loop userfunc (S f) newfd s =
  Done (if decide (st = NUL) then rc_ctl s1 else - char_u st) (s1 <| rc_user := keep (rc_user s1) text |>).
Proof.
  intros E Hn Hst Hg. simpl. rewrite E. destruct (text ++ [NUL; st]) as [|c0 r0] eqn:Eb; [by destruct text|].
  rewrite <- Eb. rewrite scan_final by done.
  assert (H0 : (0 <=? char_u st) = true) by (apply Z.leb_le; pose proof (char_u_range st); lia).
  destruct text as [|c text].
  - simpl. rewrite H0, Hnil by done. do 2 f_equal. by destruct s1.
  - rewrite (proj2 (Z.ltb_lt _ _)) by (simpl; lia). rewrite Nat2Z.id, take_app_length.
    destruct (Huser (c :: text) (rc_user s1) Hg) as [-> _]. rewrite Z.eqb_refl. simpl. by rewrite H0.
Qed.

Definition with_file (f : option ofile) s : gmap Z ofile :=
  match f with Some x => <[rc_next s := x]> (rc_files s) | None => rc_files s end.

(** Whatever pieces the message arrives in, recv_fd passes its text on and returns
    the new descriptor, or minus the status. *)
Lemma recv_loop_spec st file : (st = NUL ↔ is_Some file) → ∀ fuel texts newfd s,
  rc_in s = texts ++ [Seg [NUL; st] file] → Forall is_text texts →
  Z.of_nat (length (run texts)) + 2 <= MAXLINE → ready_sched (rc_sched s) → good (rc_user s) →
  (length texts < fuel)%nat →
  ∃ s', recv_loop userfunc fuel newfd s = Done (if decide (st = NUL) then rc_next s else - char_u st) s' ∧
    rc_user s' = keep (rc_user s) (run texts) ∧ rc_in s' = [] ∧ rc_files s' = with_file file s.
Proof.
  intros Hst. induction fuel as [|fuel IH]; intros texts newfd s Hin Ht Hl Hs Hg Hf; [lia|].
  assert (Hrun : (length (run (rc_in s)) <= Z.to_nat MAXLINE)%nat).
  { rewrite Hin, run_app, length_app. change (length (run [_])) with 2%nat. lia. }
  destruct (recvmsg_ready s Hs Hrun) as (k & sched & Hsched & E). rewrite Hin in E.
  destruct (decide (S k <= length texts)%nat) as [Hk|Hk].
  - rewrite take_app_le, drop_app_le in E by done.
    assert (Htk : Forall is_text (take (S k) texts)) by (by apply Forall_take).
    assert (Hdk : Forall is_text (drop (S k) texts)) by (by apply Forall_drop).
    rewrite texts_no_file in E by done. rewrite bool_decide_false in E by (by intros [? [=]]). simpl install in E.
    rewrite (recv_round_text _ _ _ _ _ E); [|apply texts_run_nonempty; [done|]|by apply texts_no_nul|done].
    2:{ destruct texts; [simpl in Hk; lia|done]. }
    destruct (IH (drop (S k) texts) newfd
      (s <| rc_sched := sched |> <| rc_in := drop (S k) texts ++ [Seg [NUL; st] file] |>
         <| rc_user := keep (rc_user s) (run (take (S k) texts)) |>)) as (s' & H1 & H2 & H3 & H4).
    + done.
    + done.
    + rewrite <- (take_drop (S k) texts), run_app, length_app in Hl. lia.
    + done.
    + by apply Huser.
    + rewrite length_drop. lia.
    + exists s'. split_and!; [exact H1| |done|by destruct file].
      rewrite H2. simpl. by rewrite Hkeep, <- run_app, take_drop.
  - rewrite take_ge, drop_ge in E by (rewrite length_app; simpl; lia).
    rewrite texts_last_file, run_app in E by done. simpl sg_file in E. change (run [_]) with [NUL; st] in E.
    eexists. split; [rewrite (recv_round_final _ _ _ _ _ _ _ E)|].
    + destruct (decide (st = NUL)) as [Hn|Hn]; [|done].
      apply Hst in Hn as [x ->]. simpl. reflexivity.
    + by apply texts_no_nul.
    + intros Hn. apply bool_decide_true. by apply Hst.
    + by rewrite install_user.
    + split_and!; destruct file; done.
Qed.
End recv_spec.

(** ** Sending *)

Definition flows (c : chan) : Prop := Forall takes (ch_wr c).

(** A message is written in pieces, none of them empty. *)
Lemma ch_writen_loop_ok n : ∀ fuel b c, flows c → (length b <= fuel)%nat → no_nul b →
  ∃ texts wr, ch_writen_loop fuel n b c = (Z.of_nat n, Chan (ch_wire c ++ texts) wr) ∧
    run texts = b ∧ Forall is_text texts ∧ Forall takes wr.
Proof.
  induction fuel as [|fuel IH]; intros b c Hc Hb Hn.
  - destruct b; [|simpl in Hb; lia]. exists [], (ch_wr c). split_and!; try done.
    simpl. rewrite Z.sub_0_r, app_nil_r. by destruct c.
  - destruct b as [|x b].
    { exists [], (ch_wr c). split_and!; try done. simpl. rewrite Z.sub_0_r, app_nil_r. by destruct c. }
    destruct c as [wire wr]. unfold flows in Hc. simpl in Hc.
    assert (Hstep : ∃ k wr', Forall takes wr' ∧ (0 < k)%nat ∧
      ch_write (x :: b) (Chan wire wr) =
        (IoOk (length (take k (x :: b))), Chan (wire ++ [Seg (take k (x :: b)) None]) wr')).
    { destruct wr as [|[[|k]|] wr]; try (by apply Forall_cons in Hc as [[] _]).
      - exists (length (x :: b)), []. rewrite take_ge by done. split_and!; [done|simpl; lia|done].
      - apply Forall_cons in Hc as [_ Hc]. exists (S k), wr. split_and!; [done|lia|done]. }
    destruct Hstep as (k & wr' & Hwr' & Hk & E).
    destruct (IH (drop (length (take k (x :: b))) (x :: b)) (Chan (wire ++ [Seg (take k (x :: b)) None]) wr'))
      as (texts & wr'' & E2 & Hrun & Ht & Hwr'').
    + done.
    + rewrite length_drop, length_take. simpl in *. lia.
    + apply (no_nul_app (take (length (take k (x :: b))) (x :: b))). by rewrite take_drop.
    + exists (Seg (take k (x :: b)) None :: texts), wr''. split_and!; [| | |done].
      * cbn [ch_writen_loop]. rewrite E. destruct (length (take k (x :: b))) as [|m] eqn:El.
        { destruct k; [lia|done]. }
        rewrite E2. simpl ch_wire. by rewrite <- app_assoc.
      * change (take k (x :: b) ++ run texts = x :: b). rewrite Hrun, length_take.
        destruct (decide (k <= length (x :: b))%nat) as [Hle|Hgt].
        -- rewrite Nat.min_l by done. apply take_drop.
        -- rewrite Nat.min_r, take_ge, drop_all, app_nil_r by lia. done.
      * constructor; [|done]. split_and!; simpl; [done| |by destruct k; [lia|]].
        apply (no_nul_app _ (drop k (x :: b))). by rewrite take_drop.
Qed.

(** send_fd of an error or of a descriptor, on a connection that flows. *)
Lemma ch_sendmsg_ok b f c : flows c →
  ∃ wr, Forall takes wr ∧ ch_sendmsg b f c = (IoOk (length b), Chan (ch_wire c ++ [Seg b f]) wr).
Proof.
  intros Hc. unfold ch_sendmsg. destruct c as [wire [|[[|k]|] wr]]; unfold flows in Hc; simpl in *.
  - by exists [].
  - by apply Forall_cons in Hc as [[] _].
  - apply Forall_cons in Hc as [_ Hc]. by exists wr.
  - by apply Forall_cons in Hc as [[] _].
Qed.

Lemma send_fd_ok fds fd f c : flows c → 0 <= fd → fds !! fd = Some f →
  ∃ wr, Forall takes wr ∧ send_fd true fds fd c = (0, Chan (ch_wire c ++ [Seg [NUL; NUL] (Some f)]) wr).
Proof.
  intros Hc Hfd E. destruct (ch_sendmsg_ok [NUL; NUL] (Some f) c Hc) as (wr & Hwr & Es). exists wr. split; [done|].
  unfold send_fd. rewrite (proj2 (Z.ltb_ge _ _)) by done. simpl negb. cbv iota. by rewrite E, Es.
Qed.

(** The message of an error: its text in pieces, then the status 1. *)
Lemma send_err_ok mem fds msg c : flows c → no_nul msg →
  ∃ texts wr, Forall takes wr ∧ run texts = msg ∧ Forall is_text texts ∧
    send_err mem fds (-1) msg c = (0, Chan (ch_wire c ++ texts ++ [Seg [NUL; to_char 1] None]) wr).
Proof.
  intros Hc Hn. unfold send_err, strlen. rewrite cstr_id by done.
  assert (H : ∃ texts wr, Forall takes wr ∧ run texts = msg ∧ Forall is_text texts ∧
    (if (0 <? length msg)%nat
     then let '(r, c) := ch_writen msg c in (r =? Z.of_nat (length msg), c)
     else (true, c)) = (true, Chan (ch_wire c ++ texts) wr)).
  { destruct msg as [|x msg].
    - exists [], (ch_wr c). split_and!; try done. simpl. rewrite app_nil_r. by destruct c.
    - destruct (ch_writen_loop_ok (length (x :: msg)) (length (x :: msg)) (x :: msg) c Hc) as (texts & wr & E & ? & ? & ?);
        [done|done|]. exists texts, wr. split_and!; try done. unfold ch_writen. rewrite E.
      change (0 <? length (x :: msg))%nat with true. cbv iota. by rewrite Z.eqb_refl. }
  destruct H as (texts & wr & Hwr & Hrun & Ht & ->). cbn [negb].
  destruct (ch_sendmsg_ok [NUL; to_char 1] None (Chan (ch_wire c ++ texts) wr) Hwr) as (wr' & Hwr' & Es).
  exists texts, wr'. split_and!; try done. unfold send_fd. simpl Z.ltb. cbv iota.
  change (- (if 0 <=? -1 then -1 else -1)) with 1. rewrite decide_False by done. rewrite Es.
  simpl. by rewrite <- app_assoc.
Qed.
