(* ===== verification/OpenArgs.v ===== *)
(** * Splitting a request into arguments: lib/bufargs.c and
    ipc2/open_server/buf_args.c.

    An argument is an offset into the request's buffer, which both routines modify:
    they put a NUL behind each token.  The function called back gets the number of
    arguments, their offsets and the modified buffer. *)
From Stdlib Require Import Ascii ZArith Lia.
From stdpp Require Import base strings gmap option list.
From S2P Require Import Prelude CStr.

Definition TAB : char := to_char 9.
(** The characters of WHITE. *)
Definition is_white (c : char) : bool := bool_decide (c = SPACE ∨ c = TAB ∨ c = NEWLINE).

(** strspn and strcspn with the set WHITE. *)
Fixpoint white_span (white : bool) (s : bytes) : nat :=
  match s with
  | [] => O
  | c :: s' =>
      if decide (c = NUL) then O
      else if eqb (is_white c) white then S (white_span white s') else O
  end.

(** strtok(buf + pos, WHITE), or strtok(NULL, WHITE) with the place saved in the
    call before: the token, the buffer and the place to go on. *)
Definition strtok (buf : bytes) (pos : nat) : option (nat * bytes * nat) :=
  let a := (pos + white_span true (drop pos buf))%nat in
  match drop a buf with
  | [] => None
  | c :: _ =>
      if decide (c = NUL) then None
      else
        let e := (a + white_span false (drop a buf))%nat in
        match buf !! e with
        | Some c => if decide (c = NUL) then Some (a, buf, e) else Some (a, set_at buf e NUL, S e)
        | None => Some (a, buf, e)
        end
  end.

(** strsep(&ptr, WHITE_CHARS) for a [ptr] that is not NULL. *)
Definition strsep (buf : bytes) (pos : nat) : bytes * option nat :=
  let e := (pos + white_span false (drop pos buf))%nat in
  match buf !! e with
  | Some c => if decide (c = NUL) then (buf, None) else (set_at buf e NUL, Some (S e))
  | None => (buf, None)
  end.

Section buf_args.
Context {S : Type} (optfunc : Z → list nat → bytes → prog S Z).

(** ** lib/bufargs.c *)

Definition MAXARGC : Z := 50.

(** The loop: [argv] holds [argc + 1] arguments; [None] is the return of -1. *)
Fixpoint args_loop (fuel : nat) (argc : Z) (argv : list nat) (buf : bytes) (save : nat) :
    prog S (option (Z * list nat * bytes)) :=
  match fuel with
  | O => λ _, NoFuel
  | Datatypes.S f =>
      match strtok buf save with
      | None => mret (Some (argc, argv, buf))
      | Some (ptr, buf, save) =>
          let argc := argc + 1 in
          if MAXARGC - 1 <=? argc then mret None else args_loop f argc (argv ++ [ptr]) buf save
      end
  end.

(** [argv[0]] is the buffer itself, not the first token. *)
Definition buf_args (buf : bytes) : prog S Z :=
  match strtok buf 0 with
  | None => mret (-1)
  | Some (_, buf, save) =>
      r ← args_loop (Datatypes.S (length buf)) 0 [O] buf save;
      match r with
      | None => mret (-1)
      | Some (argc, argv, buf) => optfunc (argc + 1) argv buf
      end
  end.

(** ** ipc2/open_server/buf_args.c *)

(** A store of a pointer into [argv[i]], an array of [size] bytes. *)
Definition fits (size i : Z) : bool := 8 * (i + 1) <=? size.

Fixpoint sep_loop (fuel : nat) (size argc : Z) (argv : list nat) (buf : bytes) (ptr : option nat) :
    prog S (Z * list nat * bytes) :=
  match ptr, fuel with
  | None, _ => mret (argc, argv, buf)
  | Some _, O => λ _, NoFuel
  | Some p, Datatypes.S f =>
      let '(buf, ptr) := strsep buf p in
      defined (fits size argc) ;;
      sep_loop f size (argc + 1) (argv ++ [p]) buf ptr
  end.

(** [mem]: malloc succeeds; sizeof(NULL) is 8. *)
Definition buf_args_sep (mem : bool) (buf : bytes) : prog S Z :=
  let size := Z.of_nat (strlen buf) + 1 + 8 in
  if negb mem then mret (-1)
  else
    '(argc, argv, buf) ← sep_loop (Datatypes.S (length buf)) size 0 [] buf (Some O);
    defined (fits size argc) ;;
    optfunc argc argv buf.
End buf_args.

(** ** What the routines mean *)

(** The words of a string, and its fields between white characters. *)
Fixpoint words_from (cur : bytes) (s : bytes) : list bytes :=
  match s with
  | [] => match cur with [] => [] | _ => [cur] end
  | c :: s' =>
      if is_white c then match cur with [] => words_from [] s' | _ => cur :: words_from [] s' end
      else words_from (cur ++ [c]) s'
  end.
Definition words : bytes → list bytes := words_from [].

Fixpoint fields_from (cur : bytes) (s : bytes) : list bytes :=
  match s with
  | [] => [cur]
  | c :: s' => if is_white c then cur :: fields_from [] s' else fields_from (cur ++ [c]) s'
  end.
Definition fields : bytes → list bytes := fields_from [].

(** The arguments lib/bufargs.c finds: the first one keeps the white characters in
    front of it. *)
Definition args_of (s : bytes) : list bytes :=
  match words s with
  | [] => []
  | w :: ws => (take (white_span true s) s ++ w) :: ws
  end.

(** The strings the arguments point to. *)
Definition strings_at (buf : bytes) (argv : list nat) : list bytes := (λ a, cstr (drop a buf)) <$> argv.
