(* ===== verification/OpenArgsSpec.v ===== *)
(** * What the argument splitters do: the lemmas on OpenArgs. *)
From Stdlib Require Import Ascii ZArith Lia.
From stdpp Require Import base strings gmap option list.
From S2P Require Import Prelude CStr OpenArgs.

(** ** Words, fields and spans *)

Definition whites (w : bytes) : Prop := Forall (λ c, is_white c = true) w.
Definition solid (t : bytes) : Prop := Forall (λ c, is_white c = false) t.
Definition ends (white : bool) (s : bytes) : Prop :=
  match s with [] => True | c :: _ => c = NUL ∨ is_white c = negb white end.

Lemma white_span_app white w s : Forall (λ c, is_white c = white) w → no_nul w → ends white s →
  white_span white (w ++ s) = length w.
Proof.
  induction w as [|c w IH]; simpl; intros Hw Hn He.
  - destruct s as [|c s]; [done|]. simpl. destruct (decide (c = NUL)) as [|Hc]; [done|].
    destruct He as [He|He]; [done|]. rewrite He. by destruct white.
  - apply Forall_cons in Hw as [Hc Hw]. apply no_nul_cons in Hn as [H0 Hn].
    rewrite decide_False, Hc, eqb_reflx by done. by rewrite IH.
Qed.

Lemma words_solid t cur s : solid t → words_from cur (t ++ s) = words_from (cur ++ t) s.
Proof.
  revert cur. induction t as [|c t IH]; simpl; intros cur Ht; [by rewrite app_nil_r|].
  apply Forall_cons in Ht as [-> Ht]. by rewrite IH, <- app_assoc.
Qed.

Lemma words_white w s : whites w → words (w ++ s) = words s.
Proof.
  unfold words. induction w as [|c w IH]; simpl; intros Hw; [done|].
  apply Forall_cons in Hw as [-> Hw]. by apply IH.
Qed.

Lemma words_token t c s : solid t → t ≠ [] → is_white c = true → words (t ++ c :: s) = t :: words s.
Proof.
  intros Ht Hne Hc. unfold words. rewrite words_solid by done. simpl. rewrite Hc. by destruct t.
Qed.

Lemma words_last t : solid t → t ≠ [] → words t = [t].
Proof.
  intros Ht Hne. rewrite <- (app_nil_r t) at 1. unfold words. rewrite words_solid by done. simpl. by destruct t.
Qed.

Lemma fields_solid t cur s : solid t → fields_from cur (t ++ s) = fields_from (cur ++ t) s.
Proof.
  revert cur. induction t as [|c t IH]; simpl; intros cur Ht; [by rewrite app_nil_r|].
  apply Forall_cons in Ht as [-> Ht]. by rewrite IH, <- app_assoc.
Qed.

Lemma fields_token t c s : solid t → is_white c = true → fields (t ++ c :: s) = t :: fields s.
Proof. intros Ht Hc. unfold fields. rewrite fields_solid by done. simpl. by rewrite Hc. Qed.

Lemma fields_last t : solid t → fields t = [t].
Proof. intros Ht. rewrite <- (app_nil_r t) at 1. unfold fields. by rewrite fields_solid. Qed.

Lemma split_white white (s : bytes) : ∃ a b, s = a ++ b ∧ Forall (λ c, is_white c = white) a ∧
  match b with [] => True | c :: _ => is_white c = negb white end.
Proof.
  induction s as [|c s (a & b & -> & Ha & Hb)]; [by exists [], []|].
  destruct (eqb (is_white c) white) eqn:E.
  - apply eqb_prop in E. exists (c :: a), b. split_and!; [done|by constructor|done].
  - exists [], (c :: a ++ b). split_and!; [done|done|]. by destruct (is_white c), white.
Qed.

(** The first token of a string. *)
Lemma token_split s : ∃ w t r, s = w ++ t ++ r ∧ whites w ∧ solid t ∧ (t = [] → r = []) ∧
  match r with [] => True | c :: _ => is_white c = true end.
Proof.
  destruct (split_white true s) as (w & b & -> & Hw & Hb).
  destruct (split_white false b) as (t & r & -> & Ht & Hr). exists w, t, r. split_and!; try done.
  intros ->. destruct r as [|c r]; [done|]. simpl in Hb, Hr. congruence.
Qed.

Lemma white_not_nul c : is_white c = true → c ≠ NUL.
Proof. intros H ->. by vm_compute in H. Qed.

Lemma whites_no_nul w : whites w → no_nul w.
Proof.
  induction 1 as [|c w Hc _ IH]; [apply no_nul_nil|]. apply no_nul_cons. split; [by apply white_not_nul|done].
Qed.

Lemma drop_pre_plus {A} (pre s : list A) n : drop (length pre + n) (pre ++ s) = drop n s.
Proof. rewrite drop_app_ge by lia. f_equal. lia. Qed.

Lemma lookup_pre {A} (pre s : list A) n : (pre ++ s) !! (length pre + n)%nat = s !! n.
Proof. rewrite lookup_app_r by lia. f_equal. lia. Qed.

Lemma set_at_pre pre x s c n : n = length pre → set_at (pre ++ x :: s) n c = pre ++ c :: s.
Proof. intros ->. by apply set_at_split. Qed.

(** ** strtok *)

Section strtok.
Context (pre w t junk : bytes) (Hw : whites w) (Ht : solid t) (Hn : no_nul t).

Lemma strtok_none : strtok (pre ++ w ++ NUL :: junk) (length pre) = None.
Proof.
  unfold strtok. rewrite drop_app_length.
  rewrite white_span_app; [|done|by apply whites_no_nul|by left]. rewrite drop_pre_plus, drop_app_length.
  by rewrite decide_True.
Qed.

Lemma strtok_start r : t ≠ [] → ends false r → no_nul t →
  strtok (pre ++ w ++ t ++ r) (length pre) =
  match r with
  | [] => Some (length (pre ++ w), pre ++ w ++ t ++ r, length (pre ++ w ++ t))
  | c :: r' => 
      if decide (c = NUL) then Some (length (pre ++ w), pre ++ w ++ t ++ r, length (pre ++ w ++ t))
      else Some (length (pre ++ w), pre ++ w ++ t ++ NUL :: r', S (length (pre ++ w ++ t)))
  end.
Proof.
  intros Hne He _. unfold strtok. rewrite drop_app_length.
  assert (Hs : white_span true (w ++ t ++ r) = length w).
  { apply white_span_app; [done|by apply whites_no_nul|]. destruct t as [|c t']; [done|].
    apply Forall_cons in Ht as [Hc _]. by right. }
  rewrite Hs, drop_pre_plus, drop_app_length.
  assert (Hs2 : white_span false (t ++ r) = length t) by (by apply white_span_app).
  rewrite Hs2. assert (Hc0 : ∃ c t', t = c :: t' ∧ c ≠ NUL).
  { destruct t as [|c t']; [done|]. apply no_nul_cons in Hn as [Hc _]. by exists c, t'. }
  destruct Hc0 as (c0 & t' & Et & Hc0). rewrite Et at 1. simpl. rewrite decide_False by done.
  replace (length pre + length w + length t)%nat with (length (pre ++ w ++ t) + 0)%nat
    by (rewrite !length_app; lia).
  replace (pre ++ w ++ t ++ r) with ((pre ++ w ++ t) ++ r) by (by rewrite <- !app_assoc).
  rewrite lookup_pre. destruct r as [|c r]; simpl.
  - by rewrite !length_app, !Nat.add_0_r, Nat.add_assoc.
  - rewrite Nat.add_0_r. destruct (decide (c = NUL)); [by rewrite !length_app, Nat.add_assoc, <- !app_assoc|].
    rewrite set_at_pre by done. by rewrite !length_app, Nat.add_assoc, <- !app_assoc.
Qed.
End strtok.

(** ** The loop of lib/bufargs.c *)

Lemma strings_cons buf a argv : strings_at buf (a :: argv) = cstr (drop a buf) :: strings_at buf argv.
Proof. done. Qed.

Lemma no_nul_split3 w t r : no_nul (w ++ t ++ r) → no_nul t ∧ no_nul r.
Proof. rewrite !no_nul_app. tauto. Qed.

Lemma token_string pre w t rest : no_nul t → cstr (drop (length (pre ++ w)) (pre ++ w ++ t ++ NUL :: rest)) = t.
Proof. intros Ht. rewrite (app_assoc pre w), drop_app_length. by apply cstr_app. Qed.

(** strtok takes the first word [t] of [s] off: [pre'] is what lies behind it then. *)
Lemma strtok_step pre w t r junk : whites w → solid t → t ≠ [] → no_nul t → no_nul r →
  match r with [] => True | c :: _ => is_white c = true end →
  ∃ c r', no_nul r' ∧ (length r' <= length r)%nat ∧
    (c = [] ∧ r = [] ∧ r' = [] ∨ c = [NUL] ∧ length r = S (length r')) ∧
    strtok (pre ++ (w ++ t ++ r) ++ NUL :: junk) (length pre) =
      Some (length (pre ++ w), (pre ++ w ++ t ++ c) ++ r' ++ NUL :: junk, length (pre ++ w ++ t ++ c)) ∧
    words (w ++ t ++ r) = t :: words r'.
Proof.
  intros Hw Ht Hne Hnt Hnr Hr. rewrite <- !app_assoc. destruct r as [|c r].
  - exists [], []. rewrite !app_nil_r. split_and!; try done; [by left| |].
    + simpl. rewrite strtok_start; try done; [|by left]. by rewrite decide_True, <- !app_assoc.
    + by rewrite words_white, words_last.
  - apply no_nul_cons in Hnr as [Hc Hnr]. exists [NUL], r.
    split_and!; try done; [simpl; lia|by right| |].
    + simpl. rewrite strtok_start; try done; [|by right]. rewrite decide_False by done.
      simpl. rewrite <- !app_assoc. do 2 f_equal. rewrite !length_app. simpl. lia.
    + by rewrite words_white, words_token.
Qed.

Section args_loop.
Context {St : Type} (st : St).

(** The result of the loop for the rest [s] of the request. *)
Definition loop_result (argc : Z) (argv ps : list nat) (buf s : bytes) : outcome St (option (Z * list nat * bytes)) :=
  let n := argc + Z.of_nat (length (words s)) in
  Done (if n <? MAXARGC - 1 then Some (n, argv ++ ps, buf) else None) st.

Lemma args_loop_spec junk fuel : ∀ s pre argc argv, (length s < fuel)%nat → no_nul s → argc < MAXARGC - 1 →
  ∃ ps s', length s' = length s ∧
    args_loop fuel argc argv (pre ++ s ++ NUL :: junk) (length pre) st =
      loop_result argc argv ps (pre ++ s' ++ NUL :: junk) s ∧
    strings_at (pre ++ s' ++ NUL :: junk) ps = words s.
Proof.
  induction fuel as [|fuel IH]; intros s pre argc argv Hf Hn Hargc; [lia|].
  destruct (token_split s) as (w & t & r & -> & Hw & Ht & Htr & Hr).
  pose proof (no_nul_split3 _ _ _ Hn) as [Hnt Hnr]. unfold loop_result.
  destruct (decide (t = [])) as [->|Hne].
  { rewrite (Htr eq_refl) in *. simpl in *. rewrite !app_nil_r in *. exists [], w. split; [done|].
    rewrite strtok_none by done.
    assert (Hwds : words w = []) by (by rewrite <- (app_nil_r w), words_white).
    rewrite Hwds, Z.add_0_r, app_nil_r. split; [|done]. by rewrite (proj2 (Z.ltb_lt _ _)). }
  destruct (strtok_step pre w t r junk Hw Ht Hne Hnt Hnr Hr) as (c & r' & Hnr' & Hlr & Hc & Htok & Hwords).
  simpl args_loop. rewrite Htok, Hwords. simpl length.
  assert (Hrf : (length r' < fuel)%nat).
  { rewrite !length_app in Hf. destruct t; [done|]. simpl in Hf. lia. }
  assert (Hstr : ∀ s'', length s'' = length r' →
    cstr (drop (length (pre ++ w)) ((pre ++ w ++ t ++ c) ++ s'' ++ NUL :: junk)) = t).
  { intros s'' Hs''. rewrite <- !app_assoc. destruct Hc as [(-> & _ & ->)|[-> _]]; [|by apply token_string].
    destruct s''; [|done]. by apply token_string. }
  assert (Hs' : ∀ s'', length s'' = length r' → length (w ++ t ++ c ++ s'') = length (w ++ t ++ r)).
  { intros s'' Hs''. rewrite !length_app. destruct Hc as [(-> & -> & ->)|[-> ?]]; simpl in *; lia. }
  assert (Hbuf : ∀ s'', pre ++ (w ++ t ++ c ++ s'') ++ NUL :: junk = (pre ++ w ++ t ++ c) ++ s'' ++ NUL :: junk)
    by (intros s''; by rewrite <- !app_assoc).
  assert (Hcount : argc + Z.of_nat (S (length (words r'))) = argc + 1 + Z.of_nat (length (words r'))) by lia.
  rewrite Hcount. destruct (Z.leb_spec (MAXARGC - 1) (argc + 1)) as [Hm|Hm].
  - destruct (IH r' (pre ++ w ++ t ++ c) argc argv Hrf Hnr' Hargc) as (ps & s'' & Hl & _ & Hst).
    exists (length (pre ++ w) :: ps), (w ++ t ++ c ++ s''). rewrite Hbuf, strings_cons, Hst, Hstr by done.
    split_and!; [by apply Hs'| |done]. by rewrite (proj2 (Z.ltb_ge _ _)) by lia.
  - destruct (IH r' (pre ++ w ++ t ++ c) (argc + 1) (argv ++ [length (pre ++ w)]) Hrf Hnr' Hm)
      as (ps & s'' & Hl & E & Hst).
    exists (length (pre ++ w) :: ps), (w ++ t ++ c ++ s''). rewrite Hbuf, strings_cons, Hst, Hstr by done.
    split_and!; [by apply Hs'| |done]. rewrite E. unfold loop_result. by rewrite <- (app_assoc argv).
Qed.
End args_loop.

(** ** The routines *)

Section routines.
Context {St : Type} (optfunc : Z → list nat → bytes → prog St Z) (st : St) (s junk : bytes) (Hn : no_nul s).

(** lib/bufargs.c on a request [s]: it fails on no word and on more than 49; otherwise
    the function gets the arguments [args_of s]. *)
Lemma buf_args_spec :
  if decide (1 <= length (words s) <= 49)%nat then
    ∃ argv buf, buf_args optfunc (s ++ NUL :: junk) st = optfunc (Z.of_nat (length argv)) argv buf st ∧
      strings_at buf argv = args_of s
  else buf_args optfunc (s ++ NUL :: junk) st = Done (-1) st.
Proof.
  destruct (token_split s) as (w & t & r & -> & Hw & Ht & Htr & Hr).
  pose proof (no_nul_split3 _ _ _ Hn) as [Hnt Hnr]. unfold buf_args.
  destruct (decide (t = [])) as [->|Hne].
  { rewrite (Htr eq_refl) in *. cbn [app]. rewrite app_nil_r.
    pose proof (strtok_none [] w junk Hw) as E. cbn [app length] in E. rewrite E.
    by rewrite <- (app_nil_r w), words_white. }
  destruct (strtok_step [] w t r junk Hw Ht Hne Hnt Hnr Hr) as (c & r' & Hnr' & Hlr & Hc & Htok & Hwords).
  cbn [app length] in Htok. rewrite Htok. rewrite Hwords. cbn [length].
  destruct (args_loop_spec st junk (S (length ((w ++ t ++ c) ++ r' ++ NUL :: junk))) r' (w ++ t ++ c) 0 [O])
    as (ps & s'' & Hl & E & Hst); [rewrite !length_app; simpl; lia|done|done|].
  erewrite bind_done by exact E.
  assert (H0 : cstr ((w ++ t ++ c) ++ s'' ++ NUL :: junk) = w ++ t).
  { rewrite <- !app_assoc, (app_assoc w t). assert (no_nul (w ++ t)) by (rewrite no_nul_app; eauto using whites_no_nul).
    destruct Hc as [(-> & _ & ->)|[-> _]]; [destruct s''; [|done]|]; by apply cstr_app. }
  change (MAXARGC - 1) with 49. destruct (Z.ltb_spec (0 + Z.of_nat (length (words r'))) 49) as [Hlt|Hge].
  - rewrite decide_True by lia.
    assert (Hps : length ps = length (words r')) by (rewrite <- Hst; unfold strings_at; by rewrite length_fmap).
    exists ([O] ++ ps), ((w ++ t ++ c) ++ s'' ++ NUL :: junk). split.
    + rewrite length_app, Hps. simpl. f_equal. lia.
    + cbn [app]. rewrite strings_cons, Hst, drop_0, H0. unfold args_of. rewrite Hwords. do 2 f_equal.
      rewrite white_span_app; [by rewrite take_app_length|done|by apply whites_no_nul|].
      destruct t as [|x t']; [done|]. apply Forall_cons in Ht as [Hx _]. by right.
  - rewrite decide_False by lia. done.
Qed.
End routines.

(** The loop of ipc2/open_server/buf_args.c: the array must hold a pointer for every
    field and one for the NULL. *)
Section sep_loop.
Context {St : Type} (st : St) (size : Z).

Lemma strsep_step pre t r junk : solid t → no_nul t → no_nul r →
  match r with [] => True | c :: _ => is_white c = true end →
  strsep (pre ++ (t ++ r) ++ NUL :: junk) (length pre) =
  match r with
  | [] => (pre ++ t ++ NUL :: junk, None)
  | _ :: r' => ((pre ++ t ++ [NUL]) ++ r' ++ NUL :: junk, Some (length (pre ++ t ++ [NUL])))
  end.
Proof.
  intros Ht Hnt Hnr Hr. unfold strsep. rewrite drop_app_length, <- (app_assoc t).
  rewrite white_span_app; [|done|done|destruct r; [by left|by right]].
  replace (length pre + length t)%nat with (length (pre ++ t) + 0)%nat by (rewrite length_app; lia).
  rewrite (app_assoc pre t), lookup_pre. destruct r as [|c r]; simpl; rewrite ?Nat.add_0_r.
  - by rewrite <- app_assoc.
  - rewrite decide_False by (by apply white_not_nul). rewrite set_at_pre by done.
    f_equal; [by rewrite <- !app_assoc|]. f_equal. rewrite !length_app. simpl. lia.
Qed.

Lemma sep_loop_spec junk fuel : ∀ s pre argc argv, (length s < fuel)%nat → no_nul s →
  let n := argc + Z.of_nat (length (fields s)) in
  if fits size (n - 1) then
    ∃ ps buf, sep_loop fuel size argc argv (pre ++ s ++ NUL :: junk) (Some (length pre)) st =
        Done (n, argv ++ ps, buf) st ∧ take (length pre) buf = pre ∧ length ps = length (fields s) ∧
      strings_at buf ps = fields s
  else sep_loop fuel size argc argv (pre ++ s ++ NUL :: junk) (Some (length pre)) st = Undef st.
Proof.
  induction fuel as [|fuel IH]; intros s pre argc argv Hf Hn; [lia|].
  destruct (split_white false s) as (t & r & -> & Ht & Hr). apply no_nul_app in Hn as [Hnt Hnr].
  simpl sep_loop. rewrite strsep_step by done. unfold defined.
  assert (Hcut : cstr (drop (length pre) (pre ++ t ++ NUL :: junk)) = t)
    by (rewrite drop_app_length; by apply cstr_app).
  destruct r as [|c r].
  - rewrite app_nil_r, fields_last by done. simpl length.
    replace (argc + Z.of_nat 1 - 1) with argc by lia. destruct (fits size argc) eqn:Ef; [|done].
    exists [length pre], (pre ++ t ++ NUL :: junk). split_and!; [|by rewrite take_app_length|done|].
    + destruct fuel; [simpl in Hf|]; simpl; by replace (argc + Z.of_nat 1) with (argc + 1) by lia.
    + unfold strings_at. simpl. by rewrite Hcut.
  - rewrite fields_token by done. simpl length. apply no_nul_cons in Hnr as [_ Hnr].
    specialize (IH r (pre ++ t ++ [NUL]) (argc + 1) (argv ++ [length pre])).
    rewrite length_app in Hf. simpl in Hf.
    specialize (IH ltac:(lia) Hnr). simpl in IH.
    replace (argc + Z.of_nat (S (length (fields r)))) with (argc + 1 + Z.of_nat (length (fields r))) by lia.
    destruct (fits size (argc + 1 + Z.of_nat (length (fields r)) - 1)) eqn:Ef.
    + destruct IH as (ps & buf & E & Hpre & Hl & Hst).
      assert (Ef' : fits size argc = true) by (unfold fits in *; apply Z.leb_le; apply Z.leb_le in Ef; lia).
      rewrite Ef'. exists (length pre :: ps), buf. split_and!.
      * erewrite bind_done by done. rewrite E. by rewrite <- app_assoc.
      * rewrite <- (take_drop (length (pre ++ t ++ [NUL])) buf), Hpre, <- app_assoc. by rewrite take_app_length.
      * simpl. by rewrite Hl.
      * rewrite strings_cons, Hst. f_equal.
        rewrite <- (take_drop (length (pre ++ t ++ [NUL])) buf), Hpre, <- !app_assoc, drop_app_length.
        by apply cstr_app.
    + destruct (fits size argc); [|done]. by erewrite bind_done by done.
Qed.
End sep_loop.
