(* ===== verification/OpenConn.v ===== *)
(** * UNIX domain connections: lib/servlisten.c, lib/servaccept.c, lib/cliconn.c.

    The results of the system calls are inputs; the state is the open sockets and the
    socket files of the process. *)
From Stdlib Require Import Ascii ZArith Lia.
From stdpp Require Import base strings gmap option list.
From S2P Require Import Prelude CStr PosixFile Sock.

Record conn := Conn { cn_open : gset Z; cn_paths : gset bytes; cn_errno : Z }.
#[export] Instance conn_rebuild : Rebuild conn := λ s, Conn (cn_open s) (cn_paths s) (cn_errno s).

(** sizeof(sun_path), of a pointer; the constants of <errno.h> and <sys/stat.h>. *)
Definition SUN_PATH : nat := 108.
Definition ENAMETOOLONG : Z := 36.
Definition S_IRWXU : Z := 448.
Definition S_IRWXGO : Z := 63.

Definition set_errno (e : Z) : prog conn unit := modify (λ s, s <| cn_errno := e |>).
Definition close_fd (fd : Z) : prog conn unit := modify (λ s, s <| cn_open ::= λ a, a ∖ {[fd]} |>).
Definition open_fd (fd : Z) : prog conn unit := modify (λ s, s <| cn_open ::= λ a, {[fd]} ∪ a |>).
Definition unlink (p : bytes) : prog conn unit := modify (λ s, s <| cn_paths ::= λ a, a ∖ {[p]} |>).

(** A call with the outcome [r], and [eff] when it succeeds. *)
Definition syscall (r : iores unit) (eff : conn → conn) : prog conn bool :=
  match r with
  | IoErr e => set_errno e ;; mret false
  | IoOk _ => modify eff ;; mret true
  end.
Definition add_path (p : bytes) (s : conn) : conn := s <| cn_paths ::= λ a, {[p]} ∪ a |>.

(** The label errout: the descriptor goes, errno stays. *)
Definition errout (fd rval : Z) : prog conn Z :=
  err ← gets cn_errno; close_fd fd ;; set_errno err ;; mret rval.

(** ** serv_listen *)

Definition serv_listen (name : bytes) (sock : iores Z) (bind chmod listen : iores unit) : prog conn Z :=
  if (SUN_PATH <=? strlen name)%nat then set_errno ENAMETOOLONG ;; mret (-1)
  else
    match sock with
    | IoErr e => set_errno e ;; mret (-2)
    | IoOk fd =>
        open_fd fd ;;
        unlink (cstr name) ;;
        ok ← syscall bind (add_path (cstr name));
        if negb ok then errout fd (-3)
        else
          ok ← syscall chmod id;
          if negb ok then errout fd (-4)
          else
            ok ← syscall listen id;
            if negb ok then errout fd (-5) else mret fd
    end.

(** ** cli_conn *)

Definition CLI_PATH : bytes := str "/var/tmp/".
(** "%05ld". *)
Definition zpad5 (n : Z) : bytes := replicate (5 - length (dec n)) "0"%char ++ dec n.
Definition cli_path (pid : Z) : bytes := CLI_PATH ++ zpad5 pid.

Definition cli_conn (name : bytes) (pid : Z) (sock : iores Z) (bind chmod connect : iores unit) : prog conn Z :=
  if (SUN_PATH <=? strlen name)%nat then set_errno ENAMETOOLONG ;; mret (-1)
  else
    match sock with
    | IoErr e => set_errno e ;; mret (-1)
    | IoOk fd =>
        open_fd fd ;;
        unlink (cli_path pid) ;;
        let errout_unlink (rval : Z) : prog conn Z :=
          err ← gets cn_errno; close_fd fd ;; unlink (cli_path pid) ;; set_errno err ;; mret rval in
        ok ← syscall bind (add_path (cli_path pid));
        if negb ok then errout fd (-2)
        else
          ok ← syscall chmod id;
          if negb ok then errout_unlink (-3)
          else
            ok ← syscall connect id;
            if negb ok then errout_unlink (-4) else mret fd
    end.

(** ** serv_accept *)

Definition STALE : Z := 30.
Record stat := Stat { st_mode : Z; st_atime : Z; st_mtime : Z; st_ctime : Z; st_uid : Z }.

(** malloc(sizeof(un.sun_path + 1)): the size of a pointer. *)
Definition NAME_SIZE : nat := 8.

(** [acc]: the new descriptor and the sun_path accept has filled in; [stat_of]: what
    stat finds; [now]: time(NULL). The result is the descriptor and the user ID. *)
Definition serv_accept (mem : bool) (acc : iores (Z * bytes)) (stat_of : bytes → iores stat) (now : Z) :
    prog conn (Z * option Z) :=
  let fail (fd rval : Z) : prog conn (Z * option Z) := r ← errout fd rval; mret (r, None) in
  if negb mem then mret (-1, None)
  else
    match acc with
    | IoErr e => set_errno e ;; mret (-2, None)
    | IoOk (clifd, path) =>
        open_fd clifd ;;
        defined (length path <? NAME_SIZE)%nat ;;      (* memcpy, name[len] = 0 *)
        let name := cstr path in
        match stat_of name with
        | IoErr e => set_errno e ;; fail clifd (-3)
        | IoOk st =>
            if negb (Z.land (st_mode st) S_IFMT =? S_IFSOCK) then fail clifd (-4)
            else if negb (Z.land (st_mode st) S_IRWXGO =? 0) || negb (Z.land (st_mode st) S_IRWXU =? S_IRWXU)
            then fail clifd (-5)
            else
              let staletime := now - STALE in
              if (st_atime st <? staletime) || (st_ctime st <? staletime) || (st_mtime st <? staletime)
              then fail clifd (-6)
              else
                unlink name ;;
                mret (clifd, Some (st_uid st))
        end
    end.

(** ** Properties *)

Lemma length_zpad5 n : (5 <= length (zpad5 n))%nat.
Proof. unfold zpad5. rewrite length_app, length_replicate. lia. Qed.

(** A result below zero leaves no descriptor behind; otherwise the result is a new one. *)
Definition no_leak (s s' : conn) (r : Z) : Prop :=
  if r <? 0 then cn_open s' = cn_open s else cn_open s' = {[r]} ∪ cn_open s.

Lemma no_leak_close s fd : fd ∉ cn_open s → ({[fd]} ∪ cn_open s) ∖ {[fd]} = cn_open s.
Proof. intros H. apply leibniz_equiv. set_unfold. naive_solver. Qed.

(** When a client is let in. *)
Definition acceptable (stat_of : bytes → iores stat) (now : Z) (path : bytes) (st : stat) : Prop :=
  stat_of (cstr path) = IoOk st ∧ Z.land (st_mode st) S_IFMT = S_IFSOCK ∧
  Z.land (st_mode st) S_IRWXGO = 0 ∧ Z.land (st_mode st) S_IRWXU = S_IRWXU ∧
  now - STALE <= st_atime st ∧ now - STALE <= st_mtime st ∧ now - STALE <= st_ctime st.

Section lemmas.
Context (fd : Z) (s : conn) (Hfd : 0 <= fd) (Hfr : fd ∉ cn_open s).

Lemma syscall_cases r eff (t : conn) : (∃ e, syscall r eff t = Done false (t <| cn_errno := e |>)) ∨
  syscall r eff t = Done true (eff t).
Proof. destruct r as [e|]; [left; by exists e|by right]. Qed.

Lemma serv_listen_ok name bind chmod listen :
  ∃ r s', serv_listen name (IoOk fd) bind chmod listen s = Done r s' ∧ no_leak s s' r.
Proof.
  unfold serv_listen. destruct (SUN_PATH <=? strlen name)%nat; [by do 2 eexists|].
  unfold no_leak. destruct bind as [e|]; [|destruct chmod as [e|]; [|destruct listen as [e|]]];
    (eexists _, _; split; [reflexivity|]); simpl; try by apply no_leak_close.
  by rewrite (proj2 (Z.ltb_ge _ _)).
Qed.

Lemma cli_conn_ok name pid bind chmod connect :
  ∃ r s', cli_conn name pid (IoOk fd) bind chmod connect s = Done r s' ∧ no_leak s s' r ∧
    (r < 0 → cn_paths s' ⊆ cn_paths s).
Proof.
  unfold cli_conn. destruct (SUN_PATH <=? strlen name)%nat; [by do 2 eexists|].
  unfold no_leak. destruct bind as [e|]; [|destruct chmod as [e|]; [|destruct connect as [e|]]];
    (eexists _, _; split; [reflexivity|]); simpl; (split; [try by apply no_leak_close|set_unfold; naive_solver || lia]).
  by rewrite (proj2 (Z.ltb_ge _ _)).
Qed.

Lemma serv_accept_long path stat_of now : (8 <= length path)%nat →
  serv_accept true (IoOk (fd, path)) stat_of now s = Undef (s <| cn_open ::= λ a, {[fd]} ∪ a |>).
Proof.
  intros Hl. unfold serv_accept. cbn [negb]. unfold NAME_SIZE.
  assert (E : (length path <? 8)%nat = false) by (by apply Nat.ltb_ge). rewrite E. done.
Qed.

Lemma serv_accept_short path stat_of now : (length path < 8)%nat →
  ∃ r uid s', serv_accept true (IoOk (fd, path)) stat_of now s = Done (r, uid) s' ∧ no_leak s s' r ∧
    ((∃ st, acceptable stat_of now path st ∧ r = fd ∧ uid = Some (st_uid st)) ∨
     ((¬ ∃ st, acceptable stat_of now path st) ∧ r < 0 ∧ uid = None)).
Proof.
  intros Hl. unfold serv_accept, acceptable. cbn [negb]. unfold NAME_SIZE.
  assert (E : (length path <? 8)%nat = true) by (by apply Nat.ltb_lt). rewrite E.
  erewrite (bind_done (open_fd _)) by reflexivity. rewrite bind_defined_true by done.
  destruct (stat_of (cstr path)) as [e|st].
  { eexists _, _, _. split; [reflexivity|]. split; [by apply no_leak_close|]. right. split; [by intros (? & ? & _)|done]. }
  assert (Hno : ∀ P : stat → Prop, ¬ P st → ¬ ∃ st', IoOk st = IoOk st' ∧ P st') by (intros P HP (st' & [= <-] & H); done).
  assert (Hfail : ∀ rval (P : stat → Prop), rval < 0 → ¬ P st → ∃ r uid s',
    (x ← errout fd rval; mret (x, None) : prog conn (Z * option Z)) (s <| cn_open ::= λ a, {[fd]} ∪ a |>) = Done (r, uid) s' ∧
    no_leak s s' r ∧ ((∃ st', (IoOk st = IoOk st' ∧ P st') ∧ r = fd ∧ uid = Some (st_uid st')) ∨
      ((¬ ∃ st', IoOk st = IoOk st' ∧ P st') ∧ r < 0 ∧ uid = None))).
  { intros rval P Hr HP. eexists _, _, _. split; [reflexivity|]. unfold no_leak.
    rewrite (proj2 (Z.ltb_lt _ _)) by done. split; [by apply no_leak_close|]. right.
    split; [by apply Hno|done]. }
  destruct (Z.eqb_spec (Z.land (st_mode st) S_IFMT) S_IFSOCK) as [H1|H1]; cbn [negb]; [|apply Hfail; [lia|tauto]].
  destruct (Z.eqb_spec (Z.land (st_mode st) S_IRWXGO) 0) as [H2|H2]; cbn [negb orb]; [|apply Hfail; [lia|tauto]].
  destruct (Z.eqb_spec (Z.land (st_mode st) S_IRWXU) S_IRWXU) as [H3|H3]; cbn [negb orb]; [|apply Hfail; [lia|tauto]].
  destruct ((st_atime st <? now - STALE) || (st_ctime st <? now - STALE) || (st_mtime st <? now - STALE)) eqn:Et.
  - apply Hfail; [lia|]. rewrite !orb_true_iff, !Z.ltb_lt in Et. lia.
  - rewrite !orb_false_iff, !Z.ltb_ge in Et. eexists _, _, _. split; [reflexivity|]. split.
    + unfold no_leak. by rewrite (proj2 (Z.ltb_ge _ _)).
    + left. exists st. split_and!; (done || lia).
Qed.
End lemmas.

(** UNIX domain connections. (1) serv_accept copies the client's path into a buffer of
    the size of a pointer: it has undefined behaviour exactly when the path has 8 bytes or
    more, and cli_conn only makes paths of 14 bytes or more. (2) For a shorter path a
    client is let in, with the owner of its path, exactly when the path is a socket,
    accessible to its owner only and at most 30 seconds old. (3) serv_listen, cli_conn and
    serv_accept leave no descriptor open when they fail, and cli_conn no socket file. *)
Theorem conn_checked fd path stat_of now (s : conn) : 0 <= fd → fd ∉ cn_open s →
  ((8 <= length path)%nat ↔
    serv_accept true (IoOk (fd, path)) stat_of now s = Undef (s <| cn_open ::= λ a, {[fd]} ∪ a |>)) ∧
  (∀ pid, (14 <= length (cli_path pid))%nat) ∧
  ((length path < 8)%nat → ∃ r uid s', serv_accept true (IoOk (fd, path)) stat_of now s = Done (r, uid) s' ∧
    no_leak s s' r ∧ ((∃ st, acceptable stat_of now path st ∧ r = fd ∧ uid = Some (st_uid st)) ∨
      ((¬ ∃ st, acceptable stat_of now path st) ∧ r < 0 ∧ uid = None))) ∧
  (∀ name bind chmod listen, ∃ r s', serv_listen name (IoOk fd) bind chmod listen s = Done r s' ∧ no_leak s s' r) ∧
  (∀ name pid bind chmod connect, ∃ r s', cli_conn name pid (IoOk fd) bind chmod connect s = Done r s' ∧
    no_leak s s' r ∧ (r < 0 → cn_paths s' ⊆ cn_paths s)).
Proof.
  intros Hfd Hfr. split_and!.
  - split; [by apply serv_accept_long|]. intros E. destruct (decide (8 <= length path)%nat) as [|Hl]; [done|].
    destruct (serv_accept_short fd s Hfd Hfr path stat_of now) as (r & uid & s' & E' & _); [lia|]. congruence.
  - intros pid. unfold cli_path. rewrite length_app. pose proof (length_zpad5 pid). simpl. lia.
  - by apply serv_accept_short.
  - intros. by apply serv_listen_ok.
  - intros. by apply cli_conn_ok.
Qed.

(** A client let in, seven bytes of path. *)
Lemma conn_checked_witness : ∃ r uid s',
  serv_accept true (IoOk (4, str "/tmp/c1")) (λ _, IoOk (Stat 49600 100 100 100 7)) 110 (Conn ∅ ∅ 0) = Done (r, uid) s' ∧
  no_leak (Conn ∅ ∅ 0) s' r.
Proof.
  destruct (conn_checked 4 (str "/tmp/c1") (λ _, IoOk (Stat 49600 100 100 100 7)) 110 (Conn ∅ ∅ 0))
    as (_ & _ & H & _); [lia|by intros ?%elem_of_empty|].
  destruct H as (r & uid & s' & E & Hl & _); [vm_compute; lia|]. by exists r, uid, s'.
Defined.
