(* ===== verification/OpenServer.v ===== *)
(** * The open server: ipc2/opend (client.c, cliargs.c, request.c, loop.select.c).

    The server's state is its global variables, the descriptors it has opened for
    clients, its connections and its log.  The results of select, of the calls of
    serv_accept and of read are inputs of a round of the loop. *)
From Stdlib Require Import Ascii ZArith Lia.
From stdpp Require Import base strings gmap option list.
From S2P Require Import Prelude CStr Sock FdPass OpenArgs OpenConn.

(** ** State *)

Record client := Client { cl_fd : Z; cl_uid : Z }.

Inductive logmsg :=
  | LogRequest (req : bytes) (uid : Z) | LogText (msg : bytes) | LogSent (newfd clifd : Z) (path : bytes)
  | LogNew (uid fd : Z) | LogClosed (uid fd : Z).

Record server := Server {
  sv_errmsg : bytes; sv_oflag : Z; sv_path : bytes;   (* errmsg, oflag, the string at pathname *)
  sv_client : list client; sv_size : nat;             (* client[] (NULL: no entry), client_size *)
  sv_fds : gmap Z ofile; sv_chans : gmap Z chan;      (* opened files, connections *)
  sv_log : list logmsg;
  sv_buf : bytes;                                     (* buf of loop() *)
  sv_allset : gset Z; sv_maxfd : Z; sv_maxi : Z }.    (* allset, maxfd, maxi of loop() *)
#[export] Instance server_rebuild : Rebuild server := λ s,
  Server (sv_errmsg s) (sv_oflag s) (sv_path s) (sv_client s) (sv_size s) (sv_fds s) (sv_chans s)
    (sv_log s) (sv_buf s) (sv_allset s) (sv_maxfd s) (sv_maxi s).

Definition log (m : logmsg) : prog server unit := modify (λ s, s <| sv_log ::= λ l, l ++ [m] |>).

(** A format used without arguments: "%%" stands for a percent sign; any other conversion
    is undefined, since the argument it takes is missing. *)
Fixpoint format0 (s : bytes) : option bytes :=
  match s with
  | [] => Some []
  | c :: s' =>
      if decide (c = "%"%char) then
        match s' with
        | d :: s'' => if decide (d = "%"%char) then cons "%"%char <$> format0 s'' else None
        | [] => None
        end
      else cons c <$> format0 s'
  end.
(** log_msg(errmsg): the message is the format. *)
Definition log_errmsg : prog server unit := λ s,
  match format0 (cstr (sv_errmsg s)) with
  | Some m => log (LogText m) s
  | None => Undef s
  end.
Definition set_errmsg (m : bytes) : prog server unit := modify (λ s, s <| sv_errmsg := m |>).

(** ** client.c *)

Definition NALLOC : nat := 10.

Definition client_at (i : nat) : prog server client := λ s,
  match sv_client s !! i with Some c => Done c s | None => Undef s end.
Definition set_client_fd (fd : Z) (l : list client) (i : nat) : list client :=
  alter (λ c, Client fd (cl_uid c)) i l.

(** [mem]: malloc or realloc succeeds; [junk]: what is in the new memory. *)
Definition client_alloc (mem : bool) (junk : client) : prog server unit :=
  check mem (ErrSys "can't alloc for client array") ;;
  modify (λ s, s <| sv_client := foldl (set_client_fd (-1)) (sv_client s ++ replicate NALLOC junk)
                                       (seq (sv_size s) NALLOC) |>
                 <| sv_size := (sv_size s + NALLOC)%nat |>).

(** The search of client_add and client_del among the first client_size entries. *)
Definition find_client (fd : Z) (s : server) : option nat :=
  fst <$> list_find (λ c, cl_fd c = fd) (take (sv_size s) (sv_client s)).

Fixpoint client_again (fuel : nat) (mem : bool) (junk : client) (fd uid : Z) : prog server nat :=
  match fuel with
  | O => λ _, NoFuel
  | S f =>
      r ← gets (find_client (-1));
      match r with
      | Some i => modify (λ s, s <| sv_client := <[i := Client fd uid]> (sv_client s) |>) ;; mret i
      | None => client_alloc mem junk ;; client_again f mem junk fd uid
      end
  end.
Definition client_add (mem : bool) (junk : client) (fd uid : Z) : prog server nat :=
  l ← gets sv_client;
  (match l with [] => client_alloc mem junk | _ => mret tt end) ;;
  client_again 2 mem junk fd uid.

Definition client_del (fd : Z) : prog server unit :=
  r ← gets (find_client fd);
  match r with
  | Some i => modify (λ s, s <| sv_client := set_client_fd (-1) (sv_client s) i |>)
  | None => die (ErrQuit "can't find client entry for fd")
  end.

(** ** cliargs.c, request.c *)

Definition CL_OPEN : bytes := str "open".
Definition usage : bytes := str "usage: <pathname> <oflag>" ++ [NEWLINE].

Definition cli_args (argc : Z) (argv : list nat) (buf : bytes) : prog server Z :=
  match strings_at buf argv with
  | [a0; a1; a2] =>
      if negb (argc =? 3) || negb (streq a0 CL_OPEN) then set_errmsg usage ;; mret (-1)
      else
        modify (λ s, s <| sv_path := a1 |> <| sv_oflag := atoi a2 |>) ;;
        mret 0
  | _ => set_errmsg usage ;; mret (-1)
  end.

Section requests.
(** open(2): whether the path can be opened; the descriptor it returns; strerror;
    whether send_fd has or gets its control buffer. *)
Context (fsopen : bytes → Z → iores unit) (newfd_of : server → Z) (strerror : Z → bytes) (mem : bool).

Definition on_chan (clifd : Z) (f : chan → Z * chan) : prog server Z := λ s,
  match sv_chans s !! clifd with
  | None => Done (-1) s
  | Some c => let '(r, c') := f c in Done r (s <| sv_chans ::= <[clifd := c']> |>)
  end.

(** send_err(clifd, -1, errmsg), whose result is not looked at. *)
Definition send_errmsg (clifd : Z) : prog server unit :=
  s ← get; on_chan clifd (send_err mem (sv_fds s) (-1) (sv_errmsg s)) ;; mret tt.

(** snprintf(errmsg, MAXLINE-1, ...): at most MAXLINE-2 characters. *)
Definition snprintf (text : bytes) : bytes := take (Z.to_nat (MAXLINE - 2)) text.
Definition not_terminated (uid nread : Z) (buf : bytes) : bytes :=
  str "request from uid " ++ dec uid ++ str " not null terminated: "
    ++ rjust (Z.to_nat nread) (take (Z.to_nat nread) (cstr buf)) ++ [NEWLINE].
Definition cant_open (path : bytes) (e : Z) : bytes :=
  str "can't open " ++ path ++ str ": " ++ strerror e ++ [NEWLINE].

(** The part of handle_request from open() on. *)
Definition open_and_send (clifd : Z) : prog server unit :=
  s ← get;
  match fsopen (sv_path s) (sv_oflag s) with
  | IoErr e =>
      set_errmsg (snprintf (cant_open (sv_path s) e)) ;;
      send_errmsg clifd ;;
      log_errmsg
  | IoOk _ =>
      let newfd := newfd_of s in
      modify (λ s, s <| sv_fds ::= <[newfd := (sv_path s, sv_oflag s)]> |>) ;;
      s ← get;
      r ← on_chan clifd (send_fd mem (sv_fds s) newfd);
      check (negb (r <? 0)) (ErrSys "send_fd error") ;;
      log (LogSent newfd clifd (sv_path s)) ;;
      modify (λ s, s <| sv_fds ::= delete newfd |>)
  end.

Definition handle_request (buf : bytes) (nread clifd uid : Z) : prog server unit :=
  match buf !! Z.to_nat (nread - 1) with
  | None => undefined
  | Some c =>
      if decide (c ≠ NUL) then
        set_errmsg (snprintf (not_terminated uid nread buf)) ;;
        send_errmsg clifd
      else
        log (LogRequest (cstr buf) uid) ;;
        r ← buf_args cli_args buf;
        if r <? 0 then
          send_errmsg clifd ;;
          log_errmsg
        else open_and_send clifd
  end.

(** What a client that can be read gets: a read of at most MAXLINE bytes into buf. *)
Definition read_into (b : bytes) : prog server unit :=
  modify (λ s, s <| sv_buf := b ++ drop (length b) (sv_buf s) |>).

(** ** loop.select.c *)

(** What the calls of serv_accept find: malloc, accept with the name of the client's
    socket, stat and time. *)
Record accept_in := AcceptIn {
  ai_mem : bool; ai_acc : iores (Z * bytes); ai_stat : bytes → iores stat; ai_now : Z }.

(** serv_accept, whose own state ([conn]: descriptors, names of sockets, errno) is not
    part of the server: the descriptor (negative: an error) and the user ID. *)
Definition call_accept (ai : accept_in) : prog server (Z * Z) := λ s,
  match serv_accept (ai_mem ai) (ai_acc ai) (ai_stat ai) (ai_now ai) (Conn ∅ ∅ 0) with
  | Done (clifd, uid) _ => Done (clifd, default 0 uid) s
  | Fatal e _ => Fatal e s
  | Undef _ => Undef s
  | NoFuel => NoFuel
  end.

(** The results of a round: the set select leaves, accept and the reads. *)
Record select_in := SelectIn {
  si_rset : gset Z; si_accept : accept_in; si_mem : bool; si_junk : client; si_read : Z → iores bytes }.

(** FD_SET writes outside the fd_set for a descriptor that is not below FD_SETSIZE; the
    other macros only see descriptors that have been put in. *)
Definition FD_SETSIZE : Z := 1024.

(** loop() up to its for(;;). *)
Definition select_start (listenfd : Z) : prog server unit :=
  check (0 <=? listenfd) (ErrSys "serv_listen error") ;;
  defined (listenfd <? FD_SETSIZE) ;;
  modify (λ s, s <| sv_allset := {[listenfd]} |> <| sv_maxfd := listenfd |> <| sv_maxi := -1 |>).

Definition select_accept (si : select_in) : prog server unit :=
  '(clifd, uid) ← call_accept (si_accept si);
  check (negb (clifd <? 0)) (ErrSys "serv_accept error") ;;
  modify (λ s, s <| sv_chans ::= <[clifd := Chan [] []]> |>) ;;
  i ← client_add (si_mem si) (si_junk si) clifd uid;
  defined (clifd <? FD_SETSIZE) ;;
  modify (λ s, s <| sv_allset ::= λ a, {[clifd]} ∪ a |>
                 <| sv_maxfd ::= λ m, if m <? clifd then clifd else m |>
                 <| sv_maxi ::= λ m, if m <? Z.of_nat i then Z.of_nat i else m |>) ;;
  log (LogNew uid clifd).

(** A client whose descriptor is in the set. *)
Definition select_serve (si : select_in) (i : nat) (clifd : Z) : prog server unit :=
  match si_read si clifd with
  | IoErr _ => die (ErrSys "read error")
  | IoOk [] =>
      c ← client_at i;
      log (LogClosed (cl_uid c) clifd) ;;
      client_del clifd ;;
      modify (λ s, s <| sv_allset ::= λ a, a ∖ {[clifd]} |> <| sv_chans ::= delete clifd |>)
  | IoOk b =>
      read_into b ;;
      c ← client_at i; buf ← gets sv_buf;
      handle_request buf (Z.of_nat (length b)) clifd (cl_uid c)
  end.

(** for (i = 0; i <= maxi; i++); [n] rounds are left. *)
Fixpoint select_clients (si : select_in) (n i : nat) : prog server unit :=
  match n with
  | O => mret tt
  | S n' =>
      c ← client_at i;
      (if (cl_fd c <? 0) || negb (bool_decide (cl_fd c ∈ si_rset si)) then mret tt
       else select_serve si i (cl_fd c)) ;;
      select_clients si n' (S i)
  end.

Definition select_round (listenfd : Z) (si : select_in) : prog server unit :=
  if decide (listenfd ∈ si_rset si) then select_accept si
  else maxi ← gets sv_maxi; select_clients si (Z.to_nat (maxi + 1)) 0.
End requests.
