(* ===== verification/OpenClient.v ===== *)
(** * The client of the open server: csopen of ipc2/open/open.c.

    The connection is what comes back for the request ([peer]); stderr is a
    connection of its own, written by the user function of recv_fd. *)
From Stdlib Require Import Ascii ZArith Lia.
From stdpp Require Import base strings gmap option list.
From S2P Require Import Prelude CStr Sock FdPass.

Definition CLIENT_REQ : bytes := str "open".

Record opener := Opener { op_csfd : Z; op_rcv : rcv sock }.

(** write(STDERR_FILENO, buf, nbytes). *)
Definition write_stderr (b : bytes) (u : sock) : Z * sock :=
  match sk_write b u with (IoErr _, u') => (-1, u') | (IoOk n, u') => (Z.of_nat n, u') end.

Definition open_req (name : bytes) (oflag : Z) : bytes :=
  CLIENT_REQ ++ str " " ++ name ++ str " " ++ dec oflag ++ [NUL].

(** [conn]: the result of cli_conn; [wv]: the result of writev. *)
Definition csopen (conn : Z) (wv : iores nat) (peer : bytes → list seg) (name : bytes) (oflag : Z) :
    prog opener Z :=
  s ← get;
  let csfd := if op_csfd s <? 0 then conn else op_csfd s in
  modify (λ s, Opener csfd (op_rcv s)) ;;
  if csfd <? 0 then mret (-1)
  else
    defined (bool_decide (length (str " " ++ dec oflag) < 12)%nat) ;;   (* char buf[12] *)
    let req := open_req (cstr name) oflag in
    if negb (match wv with IoOk n => (n =? length req)%nat | IoErr _ => false end) then mret (-1)
    else λ s,
      match recv_fd write_stderr (op_rcv s <| rc_in ::= λ l, l ++ peer req |>) with
      | Done r c => Done r (Opener csfd c)
      | Fatal e c => Fatal e (Opener csfd c)
      | Undef c => Undef (Opener csfd c)
      | NoFuel => NoFuel
      end.
