(* ===== verification/OpenProps.v ===== *)
(** * Properties of the open server and its client (ipc2/opend, ipc2/open, lib/). *)
From Stdlib Require Import Ascii ZArith Lia.
From stdpp Require Import base strings gmap option list.
From S2P Require Import Prelude CStr Sock Endian FdPass FdPassSpec OpenArgs OpenArgsSpec OpenServer OpenClient.

Implicit Types (s : server) (c : opener).

(** ** Messages as formats *)

Lemma format0_plain b : "%"%char ∉ b → format0 b = Some b.
Proof.
  induction b as [|c b IH]; [done|]. rewrite not_elem_of_cons. intros [Hc Hb]. cbn [format0].
  rewrite decide_False by (by apply not_eq_sym). by rewrite IH.
Qed.

(** errmsg can be handed to log_msg. *)
Definition fmt_ok s : Prop := is_Some (format0 (cstr (sv_errmsg s))).

Lemma log_errmsg_undef s : format0 (cstr (sv_errmsg s)) = None → log_errmsg s = Undef s.
Proof. unfold log_errmsg. by intros ->. Qed.

Lemma log_errmsg_ok s : fmt_ok s → ∃ m, log_errmsg s = Done tt (s <| sv_log ::= λ l, l ++ [LogText m] |>).
Proof. intros [m E]. exists m. unfold log_errmsg. by rewrite E. Qed.

(** ** Parsing a request *)

(** What cli_args makes of the arguments. *)
Definition parsed (args : list bytes) s : outcome server Z :=
  match args with
  | [a0; path; fl] =>
      if decide (a0 = CL_OPEN) then Done 0 (s <| sv_path := path |> <| sv_oflag := atoi fl |>)
      else Done (-1) (s <| sv_errmsg := usage |>)
  | _ => Done (-1) (s <| sv_errmsg := usage |>)
  end.

Lemma cli_args_spec argv buf s :
  cli_args (Z.of_nat (length argv)) argv buf s = parsed (strings_at buf argv) s.
Proof.
  unfold cli_args. destruct argv as [|p0 [|p1 [|p2 [|]]]]; try done. cbn [strings_at fmap list_fmap parsed].
  simpl negb. cbv iota. unfold strings_at. simpl. unfold streq.
  rewrite (cstr_id (cstr _)) by apply no_nul_cstr. rewrite (cstr_id CL_OPEN) by no_nul_const.
  destruct (decide (cstr (drop p0 buf) = CL_OPEN)) as [E|E].
  - by rewrite bool_decide_true.
  - by rewrite bool_decide_false.
Qed.

Lemma request_parse_words req junk s : no_nul req →
  buf_args cli_args (req ++ NUL :: junk) s =
  if decide (1 <= length (words req) <= 49)%nat then parsed (args_of req) s else Done (-1) s.
Proof.
  intros Hn. pose proof (buf_args_spec cli_args s req junk Hn) as H. destruct (decide _) as [Hl|Hl].
  - destruct H as (argv & buf & -> & <-). apply cli_args_spec.
  - exact H.
Qed.

Lemma solid_digits n : 0 <= n → solid (udec n).
Proof.
  intros Hn. eapply Forall_impl; [by apply udec_digits|]. intros x Hx. unfold is_white.
  apply bool_decide_false. unfold isdigit in Hx. intros [-> |[->| ->]]; by vm_compute in Hx.
Qed.

Lemma dec_udec n : 0 <= n → dec n = udec n.
Proof. intros H. unfold dec. by rewrite (proj2 (Z.ltb_ge n 0)). Qed.

Definition good_name (name : bytes) : Prop := name ≠ [] ∧ solid name ∧ no_nul name.

(** The text of a request of csopen. *)
Definition req_text (name : bytes) (oflag : Z) : bytes :=
  CLIENT_REQ ++ str " " ++ name ++ str " " ++ dec oflag.

Lemma req_text_words name oflag : good_name name → 0 <= oflag →
  words (req_text name oflag) = [CLIENT_REQ; name; dec oflag] ∧ args_of (req_text name oflag) = words (req_text name oflag).
Proof.
  intros (Hne & Hs & Hn) Ho. assert (Hw : words (req_text name oflag) = [CLIENT_REQ; name; dec oflag]).
  { unfold req_text. rewrite dec_udec by done.
    change (str " ") with [SPACE]. cbn [app]. rewrite words_token; [|by repeat constructor|done|done].
    f_equal. rewrite words_token by done. f_equal. apply words_last; [by apply solid_digits|].
    pose proof (udec_length_pos oflag Ho) as Hl. intros E. rewrite E in Hl. simpl in Hl. lia. }
  split; [done|]. unfold args_of. rewrite Hw. f_equal.
Qed.

Lemma req_text_no_nul name oflag : good_name name → 0 <= oflag → no_nul (req_text name oflag).
Proof.
  intros (_ & _ & Hn) Ho. unfold req_text. rewrite !no_nul_app.
  split_and!; [no_nul_const|no_nul_const|done|no_nul_const|by apply no_nul_dec_str].
Qed.

Lemma atoi_dec n : 0 <= n < 2 ^ 31 → atoi (dec n) = n.
Proof. intros Hn. unfold atoi. rewrite <- (app_nil_r (dec n)), atol_dec by (done || lia). apply wrap_s_id; lia. Qed.

Lemma parsed_open name oflag s : 0 <= oflag < 2 ^ 31 →
  parsed [CLIENT_REQ; name; dec oflag] s = Done 0 (s <| sv_path := name |> <| sv_oflag := oflag |>).
Proof.
  intros Ho. unfold parsed. rewrite decide_True by done. by rewrite atoi_dec.
Qed.

Lemma parsed_req name oflag s : good_name name → 0 <= oflag < 2 ^ 31 → ∀ junk,
  buf_args cli_args (req_text name oflag ++ NUL :: junk) s =
  Done 0 (s <| sv_path := name |> <| sv_oflag := oflag |>).
Proof.
  intros Hg Ho junk. rewrite request_parse_words by (apply req_text_no_nul; [done|lia]).
  destruct (req_text_words name oflag Hg (proj1 Ho)) as [Hw ->]. rewrite Hw. simpl length.
  rewrite decide_True by lia. by apply parsed_open.
Qed.

(** ** A request of csopen and its answer *)

Section served.
Context (fsopen : bytes → Z → iores unit) (newfd_of : server → Z) (strerror : Z → bytes).
Context (Hnew : ∀ s, 0 <= newfd_of s ∧ sv_fds s !! newfd_of s = None) (Herr : ∀ e, no_nul (strerror e)).

Definition idle s (clifd : Z) : Prop := ∃ ch, sv_chans s !! clifd = Some ch ∧ ch_wire ch = [] ∧ flows ch.

(** Whether the server can log that it could not open the file. *)
Definition loggable (name : bytes) (oflag : Z) : bool :=
  match fsopen name oflag with
  | IoOk _ => true
  | IoErr e => bool_decide (is_Some (format0 (snprintf (cant_open strerror name e))))
  end.

(** What the answer looks like on the wire. *)
Definition answer (name : bytes) (oflag : Z) (wire : list seg) : Prop :=
  match fsopen name oflag with
  | IoOk _ => wire = [Seg [NUL; NUL] (Some (name, oflag))]
  | IoErr e => ∃ texts, wire = texts ++ [Seg [NUL; to_char 1] None] ∧ Forall is_text texts ∧
      run texts = snprintf (cant_open strerror name e)
  end.

Lemma send_errmsg_ok s clifd ch : sv_chans s !! clifd = Some ch → flows ch → no_nul (sv_errmsg s) →
  ∃ texts wr, Forall is_text texts ∧ run texts = sv_errmsg s ∧
    send_errmsg true clifd s =
      Done tt (s <| sv_chans ::= <[clifd := Chan (ch_wire ch ++ texts ++ [Seg [NUL; to_char 1] None]) wr]> |>).
Proof.
  intros E Hf Hn. destruct (send_err_ok true (sv_fds s) (sv_errmsg s) ch Hf Hn) as (texts & wr & _ & Hr & Ht & Es).
  exists texts, wr. split_and!; [done|done|]. unfold send_errmsg, on_chan, get. 
  unfold mbind, prog_bind. rewrite E, Es. done.
Qed.

(** What a routine that serves the connection [clifd] leaves alone. *)
Definition serves (clifd : Z) s s' : Prop :=
  sv_fds s' = sv_fds s ∧ sv_client s' = sv_client s ∧ sv_size s' = sv_size s ∧
  sv_allset s' = sv_allset s ∧ sv_maxi s' = sv_maxi s ∧ sv_maxfd s' = sv_maxfd s ∧
  dom (sv_chans s') = dom (sv_chans s) ∧ ∀ fd, fd ≠ clifd → sv_chans s' !! fd = sv_chans s !! fd.

Lemma serves_chan clifd ch s1 s s' : sv_chans s !! clifd = Some ch → 
  sv_fds s' = sv_fds s → sv_client s' = sv_client s → sv_size s' = sv_size s →
  sv_allset s' = sv_allset s → sv_maxi s' = sv_maxi s → sv_maxfd s' = sv_maxfd s →
  (∃ ch', sv_chans s' = <[clifd := ch']> (sv_chans s)) → serves clifd s1 s → serves clifd s1 s'.
Proof.
  intros E H1 H2 H3 H4 H5 H6 (ch' & H7) (? & ? & ? & ? & ? & ? & Hd & Hne). unfold serves.
  rewrite H1, H2, H3, H4, H5, H6, H7. split_and!; try done.
  - rewrite dom_insert_L, <- Hd. apply elem_of_dom_2 in E. apply subseteq_union_1_L, singleton_subseteq_l, E.
  - intros fd Hfd. rewrite lookup_insert_ne by done. by apply Hne.
Qed.

Lemma no_nul_cant_open path e : no_nul path → no_nul (snprintf (cant_open strerror path e)).
Proof.
  intros Hn. apply no_nul_take. unfold cant_open. rewrite !no_nul_app.
  split_and!; [no_nul_const|done|no_nul_const|apply Herr|no_nul_const].
Qed.

Lemma open_and_send_ok s clifd ch : sv_chans s !! clifd = Some ch → ch_wire ch = [] → flows ch →
  no_nul (sv_path s) → loggable (sv_path s) (sv_oflag s) = true →
  ∃ s' ch', open_and_send fsopen newfd_of strerror true clifd s = Done tt s' ∧
    sv_chans s' !! clifd = Some ch' ∧ answer (sv_path s) (sv_oflag s) (ch_wire ch') ∧ serves clifd s s' ∧
    (fmt_ok s → fmt_ok s').
Proof.
  intros E Hw Hf Hn Hlog. unfold open_and_send, answer. unfold loggable in Hlog. erewrite (bind_done get) by reflexivity.
  destruct (fsopen (sv_path s) (sv_oflag s)) as [e|[]] eqn:Eo.
  - erewrite (bind_done (set_errmsg _)) by reflexivity.
    pose proof (no_nul_cant_open (sv_path s) e Hn) as Hm. apply bool_decide_eq_true in Hlog.
    pose proof (send_errmsg_ok (s <| sv_errmsg := snprintf (cant_open strerror (sv_path s) e) |>) clifd ch) as Hsend.
    destruct (Hsend E Hf Hm) as (texts & wr & Ht & Hr & Es).
    erewrite bind_done by exact Es. assert (Hfm : is_Some (format0 (cstr (snprintf (cant_open strerror (sv_path s) e)))))
      by (by rewrite cstr_id).
    match goal with |- context [log_errmsg ?s1] => destruct (log_errmsg_ok s1 Hfm) as [m ->] end.
    eexists _, _. split; [reflexivity|]. simpl.
    split; [apply lookup_insert_eq|]. split; [exists texts; split_and!; [by rewrite Hw|done|done]|].
    split; [eapply (serves_chan _ ch _ s); try done; by eexists|]. intros _. exact Hfm.
  - destruct (Hnew s) as [Hpos Hfr].
    erewrite (bind_done (modify _)) by reflexivity. erewrite (bind_done get) by reflexivity. simpl.
    destruct (send_fd_ok (<[newfd_of s := (sv_path s, sv_oflag s)]> (sv_fds s)) (newfd_of s)
      (sv_path s, sv_oflag s) ch Hf Hpos) as (wr & _ & Es); [apply lookup_insert_eq|].
    unfold on_chan. erewrite bind_done by (simpl; rewrite E, Es; reflexivity).
    simpl. eexists _, _. split; [reflexivity|]. simpl. split; [apply lookup_insert_eq|].
    split; [by rewrite Hw|]. split; [|done]. eapply (serves_chan _ ch _ s); try done; [|by eexists].
    simpl. by rewrite delete_insert_id.
Qed.

Lemma open_and_send_undef s clifd ch : sv_chans s !! clifd = Some ch → flows ch → no_nul (sv_path s) →
  loggable (sv_path s) (sv_oflag s) = false →
  ∃ s', open_and_send fsopen newfd_of strerror true clifd s = Undef s'.
Proof.
  intros E Hf Hn Hlog. unfold open_and_send. unfold loggable in Hlog. erewrite (bind_done get) by reflexivity.
  destruct (fsopen (sv_path s) (sv_oflag s)) as [e|[]]; [|done].
  erewrite (bind_done (set_errmsg _)) by reflexivity.
  pose proof (no_nul_cant_open (sv_path s) e Hn) as Hm. apply bool_decide_eq_false, eq_None_not_Some in Hlog.
  pose proof (send_errmsg_ok (s <| sv_errmsg := snprintf (cant_open strerror (sv_path s) e) |>) clifd ch) as Hsend.
  destruct (Hsend E Hf Hm) as (texts & wr & Ht & Hr & Es).
  erewrite bind_done by exact Es. eexists. apply log_errmsg_undef.
  assert (Hfm : format0 (cstr (snprintf (cant_open strerror (sv_path s) e))) = None) by (by rewrite cstr_id). exact Hfm.
Qed.

(** handle_request on the request of csopen: the file is opened under the name and the
    flags the client asked for and its descriptor sent and closed, or the client gets
    the reason. Nothing of the request stays behind in the server.  A reason that is not
    a format without arguments makes the logging undefined. *)
Lemma handle_request_open s name oflag junk clifd uid : good_name name → 0 <= oflag < 2 ^ 31 → idle s clifd →
  let run := handle_request fsopen newfd_of strerror true (open_req name oflag ++ junk)
      (Z.of_nat (length (open_req name oflag))) clifd uid s in
  if loggable name oflag then ∃ s' ch, run = Done tt s' ∧
    sv_chans s' !! clifd = Some ch ∧ answer name oflag (ch_wire ch) ∧ serves clifd s s' ∧ (fmt_ok s → fmt_ok s')
  else ∃ s', run = Undef s'.
Proof.
  intros Hg Ho (ch & Ech & Hwire & Hf) run. unfold run.
  assert (Hreq : open_req name oflag ++ junk = req_text name oflag ++ NUL :: junk)
    by (unfold open_req, req_text; by rewrite <- !app_assoc).
  assert (Hlen : Z.to_nat (Z.of_nat (length (open_req name oflag)) - 1) = length (req_text name oflag)).
  { unfold open_req, req_text. rewrite !length_app. simpl. lia. }
  rewrite Hreq. unfold handle_request. rewrite Hlen, lookup_app_r, Nat.sub_diag by done.
  cbn [lookup list_lookup]. rewrite decide_False by (by intros []).
  erewrite (bind_done (log _)) by reflexivity.
  erewrite bind_done by (by apply parsed_req).
  change (0 <? 0) with false. cbv iota.
  destruct (loggable name oflag) eqn:Hlog.
  - match goal with |- context [open_and_send _ _ _ _ _ ?s1] =>
      destruct (open_and_send_ok s1 clifd ch Ech Hwire Hf) as (s' & ch' & E & Hc & Ha & Hs & Hk) end; [by apply Hg|done|].
    exists s', ch'. split_and!; [exact E|exact Hc|exact Ha|exact Hs|exact Hk].
  - match goal with |- context [open_and_send _ _ _ _ _ ?s1] =>
      by apply (open_and_send_undef s1 clifd ch Ech Hf); [apply Hg|] end.
Qed.
End served.

(** ** The round trip *)

Definition err_good (u : sock) : Prop := sk_wr u = [].
Definition err_keep (u : sock) (b : bytes) : sock := Sock (sk_in u) (sk_out u ++ b) (sk_wr u).

Lemma write_stderr_ok b u : err_good u →
  write_stderr b u = (Z.of_nat (length b), err_keep u b) ∧ err_good (err_keep u b).
Proof. unfold err_good, write_stderr, sk_write, err_keep. intros H. by rewrite H. Qed.

Lemma dec_short n : 0 <= n < 2 ^ 31 → (length (str " " ++ dec n) < 12)%nat.
Proof.
  intros Hn. rewrite length_app, dec_udec by lia. pose proof (udec_length_le n 10 ltac:(lia)). simpl. lia.
Qed.

Lemma length_snprintf b : Z.of_nat (length (snprintf b)) + 2 <= MAXLINE.
Proof. unfold snprintf, MAXLINE. rewrite length_take. lia. Qed.

(** The answer on the wire as recv_fd reads it. *)
Lemma recv_answer (c : rcv sock) st file texts : (st = NUL ↔ is_Some file) → Forall is_text texts →
  rc_in c = texts ++ [Seg [NUL; st] file] → Z.of_nat (length (run texts)) + 2 <= MAXLINE →
  ready_sched (rc_sched c) → sk_wr (rc_user c) = [] →
  ∃ d, recv_fd write_stderr c = Done (if decide (st = NUL) then rc_next c else - char_u st) d ∧
    rc_user d = err_keep (rc_user c) (run texts) ∧ rc_in d = [] ∧ rc_files d = with_file file c.
Proof.
  intros Hst Ht Hin Hl Hs Hw. unfold recv_fd.
  apply (recv_loop_spec write_stderr err_good err_keep); try done.
  - intros b u. apply write_stderr_ok.
  - intros u a b. unfold err_keep. simpl. by rewrite <- app_assoc.
  - intros u _. unfold err_keep. rewrite app_nil_r. by destruct u.
  - unfold recv_fuel. rewrite Hin, !length_app. simpl. lia.
Qed.

(** What csopen returns and leaves behind, for a file that can be opened and for one
    that cannot. *)
Definition opened_as (fsopen : bytes → Z → iores unit) (strerror : Z → bytes) (name : bytes) (oflag : Z)
    c (r : Z) c' : Prop :=
  match fsopen name oflag with
  | IoOk _ => r = rc_next (op_rcv c) ∧ rc_files (op_rcv c') = <[r := (name, oflag)]> (rc_files (op_rcv c)) ∧
      sk_out (rc_user (op_rcv c')) = sk_out (rc_user (op_rcv c))
  | IoErr e => r = -1 ∧ rc_files (op_rcv c') = rc_files (op_rcv c) ∧
      sk_out (rc_user (op_rcv c')) = sk_out (rc_user (op_rcv c)) ++ snprintf (cant_open strerror name e)
  end.

Lemma csopen_reads fsopen strerror name oflag conn wire c : good_name name → 0 <= oflag < 2 ^ 31 →
  answer fsopen strerror name oflag wire → 0 <= conn →
  rc_in (op_rcv c) = [] → ready_sched (rc_sched (op_rcv c)) → sk_wr (rc_user (op_rcv c)) = [] →
  ∃ r c', csopen conn (IoOk (length (open_req name oflag))) (λ _, wire) name oflag c = Done r c' ∧
    opened_as fsopen strerror name oflag c r c'.
Proof.
  intros Hg Ho Ha Hc Hin Hs Hw.
  assert (H : ∃ st file texts, wire = texts ++ [Seg [NUL; st] file] ∧ (st = NUL ↔ is_Some file) ∧
    Forall is_text texts ∧ Z.of_nat (length (run texts)) + 2 <= MAXLINE ∧
    match fsopen name oflag with
    | IoOk _ => st = NUL ∧ file = Some (name, oflag) ∧ texts = []
    | IoErr e => st = to_char 1 ∧ file = None ∧ run texts = snprintf (cant_open strerror name e)
    end).
  { unfold answer in Ha. destruct (fsopen name oflag) as [e|].
    - destruct Ha as (texts & -> & Ht & Hr). exists (to_char 1), None, texts. rewrite Hr.
      split_and!; first [done|apply length_snprintf|by split; [|intros [? [=]]]].
    - subst wire. exists NUL, (Some (name, oflag)), []. by split_and!. }
  destruct H as (st & file & texts & -> & Hst & Ht & Hl & Hcase).
  pose proof (recv_answer (op_rcv c <| rc_in ::= λ l, l ++ texts ++ [Seg [NUL; st] file] |>) st file texts) as H.
  destruct (H Hst Ht) as (d & E & Hu & _ & Hf); [simpl; by rewrite Hin|done..|].
  assert (Hcs : ((if op_csfd c <? 0 then conn else op_csfd c) <? 0) = false)
    by (destruct (Z.ltb_spec (op_csfd c) 0); apply Z.ltb_ge; lia).
  unfold csopen, get, modify, mbind, prog_bind. cbv beta iota. rewrite Hcs.
  unfold defined. rewrite bool_decide_true by (apply dec_short, Ho). cbv beta iota delta [mret prog_ret].
  rewrite cstr_id by apply Hg. rewrite Nat.eqb_refl. cbn [negb].
  cbn [op_rcv]. rewrite E. eexists _, _. split; [reflexivity|]. unfold opened_as. cbn [op_rcv].
  rewrite Hf, Hu. destruct (fsopen name oflag) as [e|].
  - destruct Hcase as (-> & -> & Hr). by rewrite Hr.
  - destruct Hcase as (-> & -> & ->). simpl. by rewrite app_nil_r.
Qed.

(** C13: opening a file through the server. For a name of non-white characters and flags
    that are not negative, a server whose connection to the client is idle answers the
    request written by csopen, in whatever pieces the answer is written and read: if the
    server can open the file, csopen returns a new descriptor of the client for exactly
    this file and these flags, and the server has closed its own; if not, csopen prints
    the server's reason and returns -1. The server's clients, descriptors and other
    connections are as before.  The exception: the server uses its reason, with the name
    in it, as the format of log_msg, so a name with a conversion like "%s" makes a request
    for a file that cannot be opened undefined. *)
Theorem csopen_correct fsopen newfd_of strerror si s i clifd uid name oflag :
  (∀ s, 0 <= newfd_of s ∧ sv_fds s !! newfd_of s = None) → (∀ e, no_nul (strerror e)) →
  good_name name → 0 <= oflag < 2 ^ 31 →
  idle s clifd → sv_client s !! i = Some (Client clifd uid) → si_read si clifd = IoOk (open_req name oflag) →
  let run := select_serve fsopen newfd_of strerror true si i clifd s in
  if loggable fsopen strerror name oflag then ∃ s' ch, run = Done tt s' ∧
    serves clifd s s' ∧ sv_chans s' !! clifd = Some ch ∧
    ∀ c conn, 0 <= conn → rc_in (op_rcv c) = [] → ready_sched (rc_sched (op_rcv c)) →
      sk_wr (rc_user (op_rcv c)) = [] →
      ∃ r c', csopen conn (IoOk (length (open_req name oflag))) (λ _, ch_wire ch) name oflag c = Done r c' ∧
        opened_as fsopen strerror name oflag c r c'
  else ∃ s', run = Undef s'.
Proof.
  intros Hnew Herr Hg Ho Hi Hcl Hrd run.
  pose proof (handle_request_open fsopen newfd_of strerror Hnew Herr
    (s <| sv_buf := open_req name oflag ++ drop (length (open_req name oflag)) (sv_buf s) |>) name oflag
    (drop (length (open_req name oflag)) (sv_buf s)) clifd uid Hg Ho) as H.
  assert (Hrun : run = handle_request fsopen newfd_of strerror true
      (open_req name oflag ++ drop (length (open_req name oflag)) (sv_buf s)) (Z.of_nat (length (open_req name oflag)))
      clifd uid (s <| sv_buf := open_req name oflag ++ drop (length (open_req name oflag)) (sv_buf s) |>)).
  { unfold run, select_serve. rewrite Hrd. destruct (open_req name oflag) as [|x req] eqn:Er; [done|].
    erewrite (bind_done (read_into _)) by reflexivity.
    erewrite (bind_done (client_at i)) by (unfold client_at; simpl; by rewrite Hcl).
    by erewrite (bind_done (gets sv_buf)) by reflexivity. }
  rewrite <- Hrun in H. destruct (loggable fsopen strerror name oflag); [|exact (H Hi)].
  destruct (H Hi) as (s' & ch & E & Hch & Ha & Hs & _). exists s', ch. split_and!; [exact E|exact Hs|exact Hch|].
  intros c conn Hconn Hin Hsch Hw. by apply csopen_reads.
Qed.

Lemma args_of_white req : no_nul req → ∃ w, whites w ∧ white_span true req = length w ∧
  args_of req = match words req with [] => [] | w0 :: ws => (w ++ w0) :: ws end.
Proof.
  intros Hn. destruct (token_split req) as (w & t & r & -> & Hw & Ht & Htr & Hr).
  assert (Hs : white_span true (w ++ t ++ r) = length w).
  { apply white_span_app; [done|by apply whites_no_nul|].
    destruct t as [|x t]; [by rewrite Htr|]. apply Forall_cons in Ht as [Hx _]. by right. }
  exists w. split_and!; [done|done|]. unfold args_of. rewrite Hs, take_app_length. done.
Qed.

(** how a request is parsed (lib/bufargs.c with cli_args), for every text of a request.
    With no word or more than 49 it is refused and errmsg keeps what it held, so the
    client is sent the message of an earlier request, of any client. Three words of
    which the first is "open" are a path and flags, but only if no white character
    comes first: argv[0] is the buffer, not the token. Everything else is answered
    with the usage message. *)
Theorem request_parse req junk s : no_nul req →
  let run := buf_args cli_args (req ++ NUL :: junk) s in
  (words req = [] ∨ (49 < length (words req))%nat → run = Done (-1) s) ∧
  (∀ path fl, words req = [CL_OPEN; path; fl] →
    run = if decide (white_span true req = O)
          then Done 0 (s <| sv_path := path |> <| sv_oflag := atoi fl |>)
          else Done (-1) (s <| sv_errmsg := usage |>)) ∧
  ((1 <= length (words req) <= 49)%nat → (¬ ∃ path fl, words req = [CL_OPEN; path; fl]) →
    run = Done (-1) (s <| sv_errmsg := usage |>)).
Proof.
  intros Hn run. unfold run. rewrite request_parse_words by done.
  destruct (args_of_white req Hn) as (w & Hw & Hs & ->). rewrite Hs.
  assert (Hopen : ∀ w0, w ≠ [] → w ++ w0 ≠ CL_OPEN).
  { intros w0 Hne E. destruct w as [|x w]; [done|]. apply Forall_cons in Hw as [Hx _].
    unfold CL_OPEN in E. simpl in E. injection E as -> _. by vm_compute in Hx. }
  split_and!.
  - intros H. rewrite decide_False; [done|]. destruct H as [->|H]; simpl; lia.
  - intros path fl ->. rewrite decide_True by (simpl; lia). unfold parsed. destruct w as [|x w]; simpl length.
    + by rewrite !decide_True.
    + by rewrite decide_False, decide_False by (done || by apply Hopen).
  - intros Hl H. rewrite decide_True by done.
    destruct (words req) as [|w0 [|path [|fl [|]]]]; try done.
    unfold parsed. destruct (decide (w ++ w0 = CL_OPEN)) as [E|]; [|done].
    destruct w as [|x w]; [|by destruct (Hopen w0)]. simpl in E. subst w0.
    exfalso. apply H. by eexists _, _.
Qed.

(** ** Witnesses *)

(** A descriptor above all that are open. *)
Definition next_fd s : Z := 1 + map_fold (λ fd _ m, Z.max fd m) 0 (sv_fds s).

Lemma next_fd_fresh s : 0 <= next_fd s ∧ sv_fds s !! next_fd s = None.
Proof.
  unfold next_fd. generalize (sv_fds s). intros m.
  enough (H : 0 <= map_fold (λ fd (_ : ofile) a, Z.max fd a) 0 m ∧
    ∀ fd x, m !! fd = Some x → fd <= map_fold (λ fd (_ : ofile) a, Z.max fd a) 0 m).
  { destruct H as [H0 H]. split; [lia|]. destruct (m !! _) as [x|] eqn:E; [|done]. apply H in E. lia. }
  induction m as [|fd x m Hfd IH] using map_ind.
  - rewrite map_fold_empty. split; [done|]. intros fd x. by rewrite lookup_empty.
  - rewrite map_fold_insert_L; [|intros; lia|done]. destruct IH as [IH0 IH]. split; [lia|].
    intros fd' y. rewrite lookup_insert_Some. intros [[<- _]|[_ E]]; [lia|]. apply IH in E. lia.
Qed.

(** A server with one idle client, user 7 on descriptor 4. *)
Definition one_client : server :=
  Server [] 0 [] (Client 4 7 :: replicate 9 (Client (-1) 0)) 10 ∅ {[4 := Chan [] []]} [] [] {[3; 4]} 4 0.
Definition no_accept : accept_in := AcceptIn true (IoErr 0) (λ _, IoErr 0) 0.
Definition reads (req : bytes) : select_in := SelectIn {[4]} no_accept true (Client 0 0) (λ _, IoOk req).
Definition idle_client : opener := Opener 5 (Rcv [] [] ∅ 6 0 (Sock [] [] [])).

Lemma passwd_good : good_name (str "/etc/passwd").
Proof. split_and!; [done|by repeat constructor|no_nul_const]. Qed.

Lemma one_client_idle : idle one_client 4.
Proof. exists (Chan [] []). split; [reflexivity|]. split; [done|by constructor]. Qed.

(** A file that can be opened, and one that cannot and has a conversion in its name. *)
Lemma csopen_correct_witness : (∃ s' ch r c',
  select_serve (λ _ _, IoOk tt) next_fd (λ _, []) true (reads (open_req (str "/etc/passwd") 0)) 0 4 one_client = Done tt s' ∧
  csopen (-1) (IoOk (length (open_req (str "/etc/passwd") 0))) (λ _, ch_wire ch) (str "/etc/passwd") 0 idle_client = Done r c' ∧
  rc_files (op_rcv c') !! r = Some (str "/etc/passwd", 0)) ∧
  ∃ s', select_serve (λ _ _, IoErr 2) next_fd (λ _, []) true (reads (open_req (str "/tmp/%s") 0)) 0 4 one_client = Undef s'.
Proof.
  split; [|apply (csopen_correct (λ _ _, IoErr 2) next_fd (λ _, []) (reads (open_req (str "/tmp/%s") 0)) one_client
    0 4 7 (str "/tmp/%s") 0); [apply next_fd_fresh|intros; apply no_nul_nil| |lia|apply one_client_idle|reflexivity|reflexivity];
    split_and!; [done|by repeat constructor|no_nul_const]].
  destruct (csopen_correct (λ _ _, IoOk tt) next_fd (λ _, []) (reads (open_req (str "/etc/passwd") 0)) one_client
    0 4 7 (str "/etc/passwd") 0) as (s' & ch & E & _ & _ & H);
    [apply next_fd_fresh|intros; apply no_nul_nil|apply passwd_good|lia|apply one_client_idle|reflexivity|reflexivity|].
  destruct (H idle_client 5) as (r & c' & E' & -> & Hf & _); [lia|done|by constructor|done|].
  exists s', ch, (rc_next (op_rcv idle_client)), c'. split; [exact E|]. split; [exact E'|].
  rewrite Hf. apply lookup_insert_eq.
Defined.

Lemma request_parse_witness :
  buf_args cli_args (str "open /etc/passwd 0" ++ NUL :: []) one_client =
  Done 0 (one_client <| sv_path := str "/etc/passwd" |> <| sv_oflag := 0 |>).
Proof.
  destruct (request_parse (str "open /etc/passwd 0") [] one_client) as (_ & H & _); [no_nul_const|].
  rewrite (H (str "/etc/passwd") (str "0") eq_refl). by rewrite decide_True.
Defined.
