(* ===== verification/OpenLoop.v ===== *)
(** * The select loop of the open server (ipc2/opend/loop.select.c): its invariant. *)
From Stdlib Require Import Ascii ZArith Lia.
From stdpp Require Import base strings gmap option list.
From S2P Require Import Prelude CStr Sock FdPass FdPassSpec OpenArgs OpenArgsSpec OpenConn OpenServer OpenProps.

Implicit Types (s : server).

(** ** Outcomes of the server's routines *)

(** The calls of log_sys and err_sys that may end the server. *)
Definition exits : list fatal :=
  ErrSys <$> ["serv_accept error"; "read error"; "send_fd error"; "can't alloc for client array"]%string.

Definition wp {A} (m : prog server A) s (Q : A → server → Prop) : Prop :=
  match m s with Done a s' => Q a s' | Fatal e _ => e ∈ exits | Undef _ | NoFuel => False end.

Lemma wp_bind {A B} (m : prog server A) (k : A → prog server B) s Q :
  wp m s (λ a s', wp (k a) s' Q) → wp (m ≫= k) s Q.
Proof. unfold wp, mbind, prog_bind. by destruct (m s). Qed.

Lemma wp_mono {A} (m : prog server A) s (Q Q' : A → server → Prop) :
  wp m s Q → (∀ a s', Q a s' → Q' a s') → wp m s Q'.
Proof. unfold wp. destruct (m s); auto. Qed.

Lemma wp_done {A} (m : prog server A) s (Q : A → server → Prop) a s' : m s = Done a s' → Q a s' → wp m s Q.
Proof. unfold wp. by intros ->. Qed.

Lemma wp_check b msg s (Q : unit → server → Prop) : ErrSys msg ∈ exits → (b = true → Q tt s) → wp (check b (ErrSys msg)) s Q.
Proof. intros He HQ. unfold wp, check. destruct b; [by apply HQ|done]. Qed.

Lemma wp_defined (b : bool) s (Q : unit → server → Prop) : b = true → Q tt s → wp (defined b) s Q.
Proof. by intros ->. Qed.

(** ** Text without a percent sign *)

Definition plain (b : bytes) : Prop := "%"%char ∉ b.

Lemma plain_app a b : plain (a ++ b) ↔ plain a ∧ plain b.
Proof. unfold plain. rewrite elem_of_app. tauto. Qed.
Lemma plain_take n b : plain b → plain (take n b).
Proof. intros H Hin. apply H. rewrite <- (take_drop n b), elem_of_app. by left. Qed.
Lemma plain_cstr b : plain b → plain (cstr b).
Proof.
  unfold plain. induction b as [|c b IH]; [done|]. rewrite not_elem_of_cons. intros [Hc Hb]. simpl.
  destruct (decide _); [by intros ?%elem_of_nil|]. rewrite not_elem_of_cons. auto.
Qed.
Lemma plain_dec n : plain (dec n).
Proof.
  assert (H : ∀ k, 0 <= k → plain (udec k)).
  { intros k Hk Hin. pose proof (udec_digits k Hk) as Hd. rewrite Forall_forall in Hd. by specialize (Hd _ Hin). }
  unfold dec. destruct (Z.ltb_spec n 0); [|by apply H]. apply (plain_app [_]). split; [|apply H; lia].
  by apply (bool_decide_unpack _).
Qed.

(** The words of a request have no character the request has not. *)
Lemma words_from_sub (s : bytes) : ∀ cur w x, w ∈ words_from cur s → x ∈ w → x ∈ cur ++ s.
Proof.
  induction s as [|c s IH]; intros cur w x Hw Hx; simpl in Hw.
  - rewrite app_nil_r. destruct cur; [by apply elem_of_nil in Hw|]. by apply list_elem_of_singleton in Hw as ->.
  - destruct (is_white c).
    + assert (H : w = cur ∨ w ∈ words_from [] s).
      { destruct cur; [by right|]. apply elem_of_cons in Hw. tauto. }
      rewrite elem_of_app, elem_of_cons. destruct H as [->|H]; [by left|]. right. right. exact (IH [] w x H Hx).
    + pose proof (IH _ w x Hw Hx) as H. by rewrite <- app_assoc in H.
Qed.

Lemma plain_path (s : bytes) a0 path fl : plain s → args_of s = [a0; path; fl] → plain path.
Proof.
  intros Hs E Hin. apply Hs. unfold args_of in E. destruct (words s) as [|w ws] eqn:Ew; [done|].
  injection E as _ ->. apply (words_from_sub s [] path); [|done]. fold (words s). rewrite Ew.
  apply elem_of_cons. right. by apply elem_of_cons; left.
Qed.

(** ** A request, whatever is in it *)

Lemma serves_refl clifd s : serves clifd s s.
Proof. by split_and!. Qed.

(** That errmsg can be a format is all a request changes that [serves] does not mention. *)
Definition kept_fmt clifd s s' : Prop := serves clifd s s' ∧ fmt_ok s'.

Section requests.
Context (fsopen : bytes → Z → iores unit) (newfd_of : server → Z) (strerror : Z → bytes) (mem : bool).
Context (Hnew : ∀ s, sv_fds s !! newfd_of s = None).

Lemma on_chan_wp clifd f s0 s ch : sv_chans s !! clifd = Some ch → serves clifd s0 s →
  wp (on_chan clifd f) s (λ _ s', serves clifd s0 s' ∧ sv_errmsg s' = sv_errmsg s).
Proof.
  intros E Hs. unfold wp, on_chan. rewrite E. destruct (f ch) as [r c']. split; [|done].
  eapply (serves_chan _ ch _ s); try done. by eexists.
Qed.

Lemma send_errmsg_wp clifd s0 s ch : sv_chans s !! clifd = Some ch → serves clifd s0 s →
  wp (send_errmsg mem clifd) s (λ _ s', serves clifd s0 s' ∧ sv_errmsg s' = sv_errmsg s).
Proof.
  intros E Hs. unfold send_errmsg. apply wp_bind. eapply wp_done; [reflexivity|]. cbv beta. apply wp_bind.
  eapply wp_mono; [by eapply on_chan_wp|]. intros ? s' H. by eapply wp_done.
Qed.

(** An error message is sent and logged. *)
Lemma send_log_wp clifd s0 s ch : sv_chans s !! clifd = Some ch → serves clifd s0 s → fmt_ok s →
  wp (send_errmsg mem clifd ;; log_errmsg) s (λ _ s', kept_fmt clifd s0 s').
Proof.
  intros E Hs Hf. apply wp_bind. eapply wp_mono; [by eapply send_errmsg_wp|]. intros ? s' [H He].
  assert (Hf' : fmt_ok s') by (unfold fmt_ok; by rewrite He).
  destruct (log_errmsg_ok s' Hf') as [m Em]. eapply wp_done; [exact Em|]. by split.
Qed.

(** The reason for a file that cannot be opened is a format without arguments. *)
Definition reason_ok (path : bytes) (oflag : Z) : Prop :=
  ∀ e, fsopen path oflag = IoErr e → is_Some (format0 (cstr (snprintf (cant_open strerror path e)))).

Lemma open_and_send_wp clifd s0 s ch : sv_chans s !! clifd = Some ch → serves clifd s0 s → fmt_ok s →
  reason_ok (sv_path s) (sv_oflag s) →
  wp (open_and_send fsopen newfd_of strerror mem clifd) s (λ _ s', kept_fmt clifd s0 s').
Proof.
  intros E Hs Hfm Hre. unfold open_and_send. apply wp_bind. eapply wp_done; [reflexivity|].
  destruct (fsopen (sv_path s) (sv_oflag s)) as [e|[]] eqn:Eo.
  - apply wp_bind. eapply wp_done; [reflexivity|]. apply (send_log_wp clifd s0 _ ch); [exact E|exact Hs|exact (Hre e Eo)].
  - apply wp_bind. eapply wp_done; [reflexivity|]. apply wp_bind. eapply wp_done; [reflexivity|]. apply wp_bind.
    set (s1 := s <| sv_fds ::= <[newfd_of s := (sv_path s, sv_oflag s)]> |>).
    eapply wp_mono; [apply (on_chan_wp clifd _ s1 s1 ch); [exact E|apply serves_refl]|]. intros r s' [H' He]. apply wp_bind.
    apply wp_check; [by do 2 right; left|]. intros _. apply wp_bind.
    eapply wp_done; [reflexivity|]. eapply wp_done; [reflexivity|].
    split; [|unfold fmt_ok; simpl; by rewrite He].
    destruct Hs as (? & ? & ? & ? & ? & ? & ? & Hd), H' as (Hf & ? & ? & ? & ? & ? & ? & Hd').
    simpl in *. unfold serves. simpl. rewrite Hf. split_and!; try congruence.
    + rewrite delete_insert_id by apply Hnew. done.
    + intros fd Hfd. by rewrite Hd', Hd.
Qed.

(** cli_args says no, or hands over path and flags. *)
Definition parsed_as clifd args s (r : Z) s' : Prop :=
  kept_fmt clifd s s' ∧ sv_chans s' = sv_chans s ∧
  (r < 0 ∨ ∃ path fl, args = [CL_OPEN; path; fl] ∧ sv_path s' = path ∧ sv_oflag s' = atoi fl).

Lemma parsed_serves clifd args s : fmt_ok s → ∃ r s', parsed args s = Done r s' ∧ parsed_as clifd args s r s'.
Proof.
  intros Hf. assert (Hu : parsed_as clifd args s (-1) (s <| sv_errmsg := usage |>)).
  { split_and!; [split; [by split_and!|]|done|by left]. unfold fmt_ok. simpl sv_errmsg. vm_compute. by eexists. }
  unfold parsed. destruct args as [|a0 [|a1 [|a2 [|]]]]; try (by do 2 eexists).
  destruct (decide _) as [->|]; [|by do 2 eexists]. do 2 eexists. split; [done|].
  split_and!; [by split; [split_and!|]|done|]. right. by do 2 eexists.
Qed.

Lemma serves_trans clifd s1 s2 s3 : serves clifd s1 s2 → serves clifd s2 s3 → serves clifd s1 s3.
Proof.
  intros (? & ? & ? & ? & ? & ? & ? & H) (? & ? & ? & ? & ? & ? & ? & H'). unfold serves.
  split_and!; try congruence. intros fd Hfd. by rewrite H', H.
Qed.

Lemma buf_args_wp clifd buf s : NUL ∈ buf → fmt_ok s →
  wp (buf_args cli_args buf) s (λ r s', parsed_as clifd (args_of (cstr buf)) s r s').
Proof.
  intros H Hf. destruct (cstr_split buf H) as (junk & E). unfold wp. rewrite E.
  rewrite request_parse_words by apply no_nul_cstr. rewrite <- E. destruct (decide _).
  - by destruct (parsed_serves clifd (args_of (cstr buf)) s Hf) as (r & s' & -> & ?).
  - split_and!; [by split; [apply serves_refl|]|done|by left].
Qed.

Lemma handle_request_wp buf nread clifd uid s ch : sv_chans s !! clifd = Some ch →
  (Z.to_nat (nread - 1) < length buf)%nat → fmt_ok s →
  (buf !! Z.to_nat (nread - 1) ≠ Some NUL → is_Some (format0 (cstr (snprintf (not_terminated uid nread buf))))) →
  (buf !! Z.to_nat (nread - 1) = Some NUL →
    ∀ path fl, args_of (cstr buf) = [CL_OPEN; path; fl] → reason_ok path (atoi fl)) →
  wp (handle_request fsopen newfd_of strerror mem buf nread clifd uid) s (λ _ s', kept_fmt clifd s s').
Proof.
  intros E Hl Hf Hnt Hre. unfold handle_request. apply lookup_lt_is_Some_2 in Hl as [x Hx]. rewrite Hx.
  destruct (decide (x ≠ NUL)) as [Hne|He].
  - apply wp_bind. eapply wp_done; [reflexivity|]. set (s1 := s <| sv_errmsg := _ |>).
    eapply wp_mono; [by apply (send_errmsg_wp clifd s s1 ch)|]. intros ? s' [H He]. split; [done|].
    unfold fmt_ok. rewrite He. apply Hnt. rewrite Hx. by intros [= ->].
  - apply dec_stable in He. subst x. apply wp_bind. eapply wp_done; [reflexivity|]. apply wp_bind.
    eapply wp_mono; [by apply (buf_args_wp clifd); [apply list_elem_of_lookup_2 with (Z.to_nat (nread - 1))|]|].
    intros r s' ([Hs Hf'] & Hc & Hr).
    assert (Hs' : serves clifd s s') by (by eapply serves_trans; [|exact Hs]).
    assert (Hch : sv_chans s' !! clifd = Some ch) by (by rewrite Hc).
    destruct (Z.ltb_spec r 0); [by eapply send_log_wp|].
    destruct Hr as [|(path & fl & Ha & Hp & Ho)]; [lia|].
    apply (open_and_send_wp clifd s s' ch); [done..|]. rewrite Hp, Ho. by apply Hre.
Qed.

(** A request without a percent sign, when the texts of strerror have none. *)
Lemma plain_request_wp b rest clifd uid s ch : (∀ e, plain (strerror e)) → plain b → b ≠ [] →
  sv_chans s !! clifd = Some ch → fmt_ok s →
  wp (handle_request fsopen newfd_of strerror mem (b ++ rest) (Z.of_nat (length b)) clifd uid) s
    (λ _ s', kept_fmt clifd s s').
Proof.
  intros Hse Hp Hb E Hf. assert (0 < length b)%nat by (destruct b; simpl; [done|lia]).
  assert (Hfmt : ∀ t, plain t → is_Some (format0 (cstr (snprintf t)))).
  { intros t Ht. eexists. by apply format0_plain, plain_cstr, plain_take. }
  assert (Hc : ∃ t, take (length b) (cstr (b ++ rest)) = take t b).
  { clear -b. induction b as [|c b IH]; [by exists 0%nat|]. simpl. destruct (decide _); [by exists 0%nat|].
    destruct IH as [t IH]. exists (S t). simpl. by rewrite IH. }
  eapply handle_request_wp; [done| |done| |].
  - rewrite length_app. lia.
  - intros _. apply Hfmt. unfold not_terminated. rewrite Nat2Z.id. rewrite !plain_app.
    split_and!; try (by apply (bool_decide_unpack _)); [apply plain_dec|].
    unfold rjust. apply plain_app. split; [by intros ?%elem_of_replicate_inv|].
    destruct Hc as [t ->]. by apply plain_take.
  - intros Hnul path fl Ha e _. apply Hfmt. unfold cant_open. rewrite !plain_app.
    split_and!; try (by apply (bool_decide_unpack _)); [|apply Hse].
    eapply plain_path; [|exact Ha]. intros Hin. apply (plain_cstr b Hp).
    rewrite lookup_app_l in Hnul by lia. apply list_elem_of_lookup_2 in Hnul.
    destruct (cstr_split b Hnul) as (junk & Eb). rewrite Eb, <- app_assoc in Hin. simpl in Hin.
    by rewrite cstr_app in Hin by apply no_nul_cstr.
Qed.
End requests.

(** ** The table of clients *)

Section table.
Context (lfd : Z).

(** The clients' table and the sets of loop() agree. *)
Record loop_inv s : Prop := {
  li_lfd : 0 <= lfd;
  li_size : sv_size s = length (sv_client s);
  li_maxi : -1 <= sv_maxi s < Z.of_nat (length (sv_client s));
  li_entry : ∀ i c, sv_client s !! i = Some c → cl_fd c = -1 ∨
    0 <= cl_fd c ∧ cl_fd c ≠ lfd ∧ Z.of_nat i <= sv_maxi s ∧ is_Some (sv_chans s !! cl_fd c);
  li_inj : ∀ i j ci cj, sv_client s !! i = Some ci → sv_client s !! j = Some cj →
    cl_fd ci = cl_fd cj → cl_fd ci ≠ -1 → i = j;
  li_set : ∀ fd, fd ∈ sv_allset s ↔ fd = lfd ∨ fd ≠ -1 ∧ ∃ i c, sv_client s !! i = Some c ∧ cl_fd c = fd;
  li_maxfd : ∀ fd, fd ∈ sv_allset s → fd <= sv_maxfd s < FD_SETSIZE;
  li_fmt : fmt_ok s }.

Lemma loop_inv_serves clifd s s' : loop_inv s → kept_fmt clifd s s' → loop_inv s'.
Proof.
  intros [? ? ? Hen ? ? ? ?] [(_ & Hcl & Hsz & Hset & Hmi & Hmf & Hdom & _) Hf'].
  split; rewrite ?Hcl, ?Hsz, ?Hset, ?Hmi, ?Hmf; try done.
  intros i c Hi. destruct (Hen i c Hi) as [|(? & ? & ? & Hc)]; [by left|right]. split_and!; try done.
  by rewrite <- elem_of_dom, Hdom, elem_of_dom.
Qed.

Lemma find_client_some fd s i : sv_size s = length (sv_client s) → find_client fd s = Some i →
  ∃ c, sv_client s !! i = Some c ∧ cl_fd c = fd.
Proof.
  intros Hs. unfold find_client. rewrite take_ge by lia.
  destruct (list_find _ _) as [[j c]|] eqn:E; [|done]. intros [= <-].
  apply list_find_Some in E as (H1 & H2 & _). by exists c.
Qed.

Lemma find_client_none fd s : sv_size s = length (sv_client s) → find_client fd s = None →
  ∀ i c, sv_client s !! i = Some c → cl_fd c ≠ fd.
Proof.
  intros Hs. unfold find_client. rewrite take_ge by lia.
  destruct (list_find _ _) eqn:E; [done|]. intros _ i c Hi.
  apply list_find_None in E. by apply (Forall_lookup_1 _ _ _ _ E Hi).
Qed.

(** client_del of a client in the table. *)
Lemma client_del_ok s i c : loop_inv s → sv_client s !! i = Some c → cl_fd c ≠ -1 →
  client_del (cl_fd c) s = Done tt (s <| sv_client := set_client_fd (-1) (sv_client s) i |>).
Proof.
  intros HI Hi Hne. unfold client_del. rewrite bind_gets.
  destruct (find_client (cl_fd c) s) as [j|] eqn:E.
  - apply find_client_some in E as (cj & Hj & Ecj); [|apply HI].
    by rewrite (li_inj s HI i j c cj) by done.
  - exfalso. by apply (find_client_none _ _ (li_size s HI) E i c).
Qed.

(** What client_alloc leaves: the old entries and ten free ones. *)
Lemma foldl_free l k junk : foldl (set_client_fd (-1)) (l ++ replicate k junk) (seq (length l) k) =
  l ++ replicate k (Client (-1) (cl_uid junk)).
Proof.
  revert l. induction k as [|k IH]; intros l; simpl; [done|].
  unfold set_client_fd at 2. rewrite alter_app_r_alt by lia. rewrite Nat.sub_diag. simpl.
  rewrite (cons_middle _ l), (app_assoc l). specialize (IH (l ++ [Client (-1) (cl_uid junk)])).
  rewrite length_app in IH. simpl in IH. replace (length l + 1)%nat with (S (length l)) in IH by lia.
  rewrite IH. by rewrite <- app_assoc.
Qed.

Lemma client_alloc_wp mb junk s (Q : unit → server → Prop) : sv_size s = length (sv_client s) →
  Q tt (s <| sv_client := sv_client s ++ replicate NALLOC (Client (-1) (cl_uid junk)) |>
          <| sv_size := (length (sv_client s) + NALLOC)%nat |>) →
  wp (client_alloc mb junk) s Q.
Proof.
  intros Hs HQ. unfold client_alloc. apply wp_bind. apply wp_check; [by do 3 right; left|]. intros _.
  eapply wp_done; [reflexivity|]. rewrite Hs, foldl_free. exact HQ.
Qed.

(** client_add puts the client into a free entry, after growing the table if need be. *)
Record added (fd uid : Z) s (i : nat) s' : Prop := {
  ad_at : sv_client s' !! i = Some (Client fd uid);
  ad_free : ∀ c, sv_client s !! i = Some c → cl_fd c = -1;
  ad_back : ∀ j c, j ≠ i → sv_client s' !! j = Some c → sv_client s !! j = Some c ∨ cl_fd c = -1;
  ad_keep : ∀ j c, j ≠ i → sv_client s !! j = Some c → sv_client s' !! j = Some c;
  ad_size : sv_size s' = length (sv_client s');
  ad_len : (length (sv_client s) <= length (sv_client s'))%nat;
  ad_rest : sv_allset s' = sv_allset s ∧ sv_maxi s' = sv_maxi s ∧ sv_maxfd s' = sv_maxfd s ∧
            sv_chans s' = sv_chans s ∧ sv_errmsg s' = sv_errmsg s }.

Lemma added_here fd uid s i c : sv_size s = length (sv_client s) → sv_client s !! i = Some c → cl_fd c = -1 →
  added fd uid s i (s <| sv_client := <[i := Client fd uid]> (sv_client s) |>).
Proof.
  intros Hs Hi Hc. split; simpl.
  - apply list_lookup_insert_eq. by eapply lookup_lt_Some.
  - intros c' Hc'. rewrite Hi in Hc'. by injection Hc' as <-.
  - intros j c' Hne. rewrite list_lookup_insert_ne by done. by left.
  - intros j c' Hne. by rewrite list_lookup_insert_ne by done.
  - by rewrite length_insert.
  - by rewrite length_insert.
  - done.
Qed.

(** The table has grown before. *)
Lemma added_grown fd uid s i s1 s' k u : sv_client s1 = sv_client s ++ replicate k (Client (-1) u) →
  sv_allset s1 = sv_allset s → sv_maxi s1 = sv_maxi s → sv_maxfd s1 = sv_maxfd s → sv_chans s1 = sv_chans s →
  sv_errmsg s1 = sv_errmsg s → added fd uid s1 i s' → added fd uid s i s'.
Proof.
  intros Hc H1 H2 H3 H4 H5 [Hat Hfree Hback Hkeep Hsize Hlen Hrest].
  assert (Hin : ∀ j c, sv_client s !! j = Some c → sv_client s1 !! j = Some c)
    by (intros j c Hj; rewrite Hc; by apply lookup_app_l_Some).
  split; try done.
  - intros c Hi. by apply Hfree, Hin.
  - intros j c Hne Hj. destruct (Hback j c Hne Hj) as [Hj1|]; [|by right].
    rewrite Hc in Hj1. apply lookup_app_Some in Hj1 as [|[_ Hj1]]; [by left|].
    apply lookup_replicate in Hj1 as [-> _]. by right.
  - intros j c Hne Hj. by apply Hkeep, Hin.
  - rewrite Hc, length_app in Hlen. lia.
  - by rewrite <- H1, <- H2, <- H3, <- H4, <- H5.
Qed.

Lemma client_again_wp fuel mb junk fd uid s : sv_size s = length (sv_client s) → (2 <= fuel)%nat →
  wp (client_again fuel mb junk fd uid) s (λ i s', added fd uid s i s').
Proof.
  intros Hs Hf. destruct fuel as [|[|fuel]]; [lia|lia|]. cbn [client_again].
  apply wp_bind. eapply wp_done; [reflexivity|]. destruct (find_client (-1) s) as [i|] eqn:E.
  - apply find_client_some in E as (c & Hi & Hc); [|done].
    apply wp_bind. eapply wp_done; [reflexivity|]. eapply wp_done; [reflexivity|]. by eapply added_here.
  - apply wp_bind. apply client_alloc_wp; [done|]. apply wp_bind. eapply wp_done; [reflexivity|].
    set (s1 := s <| sv_client := _ |> <| sv_size := _ |>).
    assert (Hs1 : sv_size s1 = length (sv_client s1)) by (simpl; by rewrite length_app).
    destruct (find_client (-1) s1) as [i|] eqn:E1.
    + apply find_client_some in E1 as (c & Hi & Hc); [|done].
      apply wp_bind. eapply wp_done; [reflexivity|]. eapply wp_done; [reflexivity|].
      eapply (added_grown _ _ _ _ s1); [reflexivity..|]. by eapply added_here.
    + exfalso. apply (find_client_none _ _ Hs1 E1 (length (sv_client s)) (Client (-1) (cl_uid junk))); [|done].
      simpl. by rewrite lookup_app_r, Nat.sub_diag by done.
Qed.

Lemma client_add_wp mb junk fd uid s : sv_size s = length (sv_client s) →
  wp (client_add mb junk fd uid) s (λ i s', added fd uid s i s').
Proof.
  intros Hs. unfold client_add. apply wp_bind. eapply wp_done; [reflexivity|]. apply wp_bind.
  destruct (sv_client s) as [|c l] eqn:E.
  - apply client_alloc_wp; [by rewrite E|]. eapply wp_mono; [apply client_again_wp; [|done]|].
    + simpl. by rewrite E.
    + intros i s' H. by eapply added_grown, H.
  - eapply wp_done; [reflexivity|]. apply client_again_wp; [by rewrite E|done].
Qed.
End table.

(** ** A round of the loop *)

Section round.
Context (fsopen : bytes → Z → iores unit) (newfd_of : server → Z) (strerror : Z → bytes) (mem : bool).
Context (Hnew : ∀ s, sv_fds s !! newfd_of s = None) (lfd : Z) (si : select_in).

(** What serv_accept returns for a client whose socket has a name that fits the buffer:
    an error or the descriptor accept has returned. *)
Lemma call_accept_cases ai s : (∀ fd path, ai_acc ai = IoOk (fd, path) → 0 <= fd ∧ (length path < NAME_SIZE)%nat) →
  ∃ r uid, call_accept ai s = Done (r, uid) s ∧ (r < 0 ∨ ∃ path, ai_acc ai = IoOk (r, path)).
Proof.
  intros Hacc. unfold call_accept. destruct ai as [mb acc st now]; simpl in *.
  destruct mb; [|by exists (-1), 0; split; [|left]].
  destruct acc as [e|[fd path]]; [by exists (-2), 0; split; [|left]|].
  destruct (Hacc fd path eq_refl) as [Hfd Hl].
  destruct (serv_accept_short fd (Conn ∅ ∅ 0) Hfd ltac:(set_solver) path st now Hl) as (r & uid & s' & -> & _ & H).
  exists r, (default 0 uid). split; [done|]. destruct H as [(_ & _ & -> & _)|(_ & ? & _)]; [right; by exists path|by left].
Qed.

(** A name that does not fit. *)
Lemma call_accept_long ai fd path s : ai_mem ai = true → ai_acc ai = IoOk (fd, path) → (NAME_SIZE <= length path)%nat →
  call_accept ai s = Undef s.
Proof. intros Hm Ha Hl. unfold call_accept. rewrite Hm, Ha. by rewrite serv_accept_long by done. Qed.

Lemma select_accept_wp s : loop_inv lfd s →
  (∀ fd path, ai_acc (si_accept si) = IoOk (fd, path) →
    0 <= fd < FD_SETSIZE ∧ fd ∉ sv_allset s ∧ (length path < NAME_SIZE)%nat) →
  wp (select_accept si) s (λ _ s', loop_inv lfd s').
Proof.
  intros HI Hacc. unfold select_accept. apply wp_bind.
  destruct (call_accept_cases (si_accept si) s) as (fd & uid & Ea & Hr).
  { intros fd path E. by destruct (Hacc fd path E) as ([? _] & _ & ?). }
  eapply wp_done; [exact Ea|]. apply wp_bind. apply wp_check; [by left|]. intros Hpos%negb_true_iff%Z.ltb_ge.
  destruct Hr as [|[path Hpath]]; [lia|].
  destruct (Hacc fd path Hpath) as ([Hfd Hfs] & Hfr & _). destruct HI as [Hl Hs Hmi Hen Hinj Hset Hmf Hfm].
  assert (Hlfd : fd ≠ lfd) by (intros ->; apply Hfr, Hset; by left).
  assert (Hnone : ∀ j c, sv_client s !! j = Some c → cl_fd c ≠ fd).
  { intros j c Hj <-. apply Hfr, Hset. right. split; [lia|]. by exists j, c. }
  apply wp_bind. eapply wp_done; [reflexivity|]. apply wp_bind.
  eapply wp_mono; [by apply client_add_wp|]. intros i s' [Hat Hfree Hback Hkeep Hsize Hlen (R1 & R2 & R3 & R4 & R5)].
  simpl in R1, R2, R3, R4, R5, Hfree, Hback, Hkeep, Hlen.
  apply wp_bind. apply wp_defined; [by apply Z.ltb_lt|].
  apply wp_bind. eapply wp_done; [reflexivity|]. eapply wp_done; [reflexivity|].
  pose proof (lookup_lt_Some _ _ _ Hat) as Hilt.
  split; simpl; rewrite ?R1, ?R2, ?R3, ?R4; try done.
  - destruct (Z.ltb_spec (sv_maxi s) (Z.of_nat i)); lia.
  - intros j c Hj. destruct (decide (j = i)) as [->|Hne].
    + rewrite Hat in Hj. injection Hj as <-. simpl. right. split_and!; try done.
      * destruct (Z.ltb_spec (sv_maxi s) (Z.of_nat i)); lia.
      * by rewrite lookup_insert_eq.
    + destruct (Hback j c Hne Hj) as [Hj'|]; [|by left].
      destruct (Hen j c Hj') as [|(? & ? & ? & ?)]; [by left|right]. split_and!; try done.
      * destruct (Z.ltb_spec (sv_maxi s) (Z.of_nat i)); lia.
      * rewrite lookup_insert_ne by (apply not_eq_sym; by eapply Hnone). done.
  - intros j1 j2 c1 c2 H1 H2 Heq Hne1.
    destruct (decide (j1 = i)) as [->|N1], (decide (j2 = i)) as [->|N2]; [done| | |].
    + rewrite Hat in H1. injection H1 as <-. simpl in *.
      destruct (Hback j2 c2 N2 H2) as [Hj|]; [|lia]. by destruct (Hnone j2 c2 Hj).
    + rewrite Hat in H2. injection H2 as <-. simpl in *.
      destruct (Hback j1 c1 N1 H1) as [Hj|]; [|lia]. by destruct (Hnone j1 c1 Hj).
    + destruct (Hback j1 c1 N1 H1) as [Hj1|]; [|lia]. destruct (Hback j2 c2 N2 H2) as [Hj2|]; [|lia].
      by eapply Hinj.
  - intros x. rewrite elem_of_union, elem_of_singleton, Hset. split.
    + intros [->|[->|[Hx (j & c & Hj & Hc)]]]; [| by left|].
      * right. split; [lia|]. by exists i, (Client fd uid).
      * right. split; [done|]. exists j, c. split; [|done]. apply Hkeep; [|done].
        intros ->. specialize (Hfree c Hj). congruence.
    + intros [->|[Hx (j & c & Hj & Hc)]]; [by right; left|]. destruct (decide (j = i)) as [->|Hne].
      * rewrite Hat in Hj. injection Hj as <-. by left.
      * right. destruct (Hback j c Hne Hj) as [Hj'|]; [|congruence]. right. split; [done|]. by exists j, c.
  - assert (Hlf : lfd <= sv_maxfd s < FD_SETSIZE) by (apply Hmf, Hset; by left).
    intros x. rewrite elem_of_union, elem_of_singleton. intros [->|Hx]; [|apply Hmf in Hx];
      destruct (Z.ltb_spec (sv_maxfd s) fd); lia.
  - unfold fmt_ok. simpl. by rewrite R5.
Qed.

(** What a client's turn leaves: the other entries, and the bounds of the table. *)
Definition kept (i : nat) s s' : Prop :=
  (∀ j, j ≠ i → sv_client s' !! j = sv_client s !! j) ∧
  length (sv_client s') = length (sv_client s) ∧ sv_maxi s' = sv_maxi s.

Lemma close_client s i c : loop_inv lfd s → sv_client s !! i = Some c → 0 <= cl_fd c →
  let s' := s <| sv_client := set_client_fd (-1) (sv_client s) i |>
              <| sv_allset ::= λ a, a ∖ {[cl_fd c]} |> <| sv_chans ::= delete (cl_fd c) |> in
  loop_inv lfd s' ∧ kept i s s'.
Proof.
  intros [Hl Hs Hmi Hen Hinj Hset Hmf Hfm] Hi Hfd s'.
  assert (Hat : ∀ j d, sv_client s' !! j = Some d → (j = i ∧ cl_fd d = -1) ∨ (j ≠ i ∧ sv_client s !! j = Some d)).
  { intros j d. simpl. unfold set_client_fd. destruct (decide (j = i)) as [->|Hne].
    - rewrite list_lookup_alter_eq, Hi. intros [= <-]. by left.
    - rewrite list_lookup_alter_ne by done. by right. }
  assert (Hlen : length (sv_client s') = length (sv_client s)) by (simpl; unfold set_client_fd; by rewrite length_alter).
  assert (Hlfd : cl_fd c ≠ lfd) by (destruct (Hen i c Hi) as [|(? & ? & _)]; [lia|done]).
  assert (Huniq : ∀ j d, j ≠ i → sv_client s !! j = Some d → cl_fd d ≠ cl_fd c).
  { intros j d Hne Hj E. apply Hne. apply (Hinj j i d c); [done..|lia]. }
  split.
  - split; try (rewrite Hlen); try done.
    + intros j d Hj. destruct (Hat j d Hj) as [[-> ->]|[Hne Hj']]; [by left|].
      destruct (Hen j d Hj') as [|(? & ? & ? & ?)]; [by left|right]. split_and!; try done.
      simpl. rewrite lookup_delete_ne by (by apply not_eq_sym, (Huniq j)). done.
    + intros j1 j2 d1 d2 H1 H2 E Hne. destruct (Hat j1 d1 H1) as [[_ E1]|[_ H1']]; [done|].
      destruct (Hat j2 d2 H2) as [[_ E2]|[_ H2']]; [congruence|]. by eapply Hinj.
    + intros x. simpl. rewrite elem_of_difference, elem_of_singleton, Hset. split.
      * intros [[->|[Hx (j & d & Hj & Hd)]] Hxc]; [by left|right]. split; [done|]. exists j, d. split; [|done].
        unfold set_client_fd. rewrite list_lookup_alter_ne; [done|]. intros <-. congruence.
      * intros [->|[Hx (j & d & Hj & Hd)]]; [by split; [left|]|].
        destruct (Hat j d Hj) as [[_ E]|[Hne Hj']]; [congruence|].
        split; [right; split; [done|]; by exists j, d|]. subst x. by apply (Huniq j).
    + intros x. simpl. rewrite elem_of_difference. intros [Hx _]. by apply Hmf.
  - split_and!; [|exact Hlen|done]. intros j Hne. simpl. unfold set_client_fd.
    by rewrite list_lookup_alter_ne by done.
Qed.

(** Requests that leave the server in its defined behaviour. *)
Context (Hreq : ∀ fd b rest uid s ch, fd ∈ si_rset si → si_read si fd = IoOk b → b ≠ [] →
  sv_chans s !! fd = Some ch → fmt_ok s →
  wp (handle_request fsopen newfd_of strerror mem (b ++ rest) (Z.of_nat (length b)) fd uid) s (λ _ s', kept_fmt fd s s')).

Lemma select_serve_wp s i c : loop_inv lfd s → sv_client s !! i = Some c → 0 <= cl_fd c → cl_fd c ∈ si_rset si →
  wp (select_serve fsopen newfd_of strerror mem si i (cl_fd c)) s (λ _ s', loop_inv lfd s' ∧ kept i s s').
Proof.
  intros HI Hi Hfd Hin. unfold select_serve. destruct (si_read si (cl_fd c)) as [e|[|x b]] eqn:Er.
  - by right; left.
  - apply wp_bind. eapply wp_done; [unfold client_at; rewrite Hi; reflexivity|].
    apply wp_bind. eapply wp_done; [reflexivity|]. apply wp_bind.
    set (s1 := s <| sv_log ::= _ |>).
    assert (HI1 : loop_inv lfd s1) by (destruct HI; by split).
    eapply wp_done; [apply (client_del_ok lfd s1 i c HI1 Hi); lia|].
    eapply wp_done; [reflexivity|]. exact (close_client s1 i c HI1 Hi Hfd).
  - apply wp_bind. eapply wp_done; [reflexivity|]. apply wp_bind.
    eapply wp_done; [unfold client_at; simpl; rewrite Hi; reflexivity|]. apply wp_bind.
    eapply wp_done; [reflexivity|].
    set (s1 := s <| sv_buf ::= _ |>). assert (HI1 : loop_inv lfd s1) by (destruct HI; by split).
    destruct (li_entry lfd s HI i c Hi) as [|(_ & _ & _ & [ch Hch])]; [lia|].
    eapply wp_mono; [exact (Hreq (cl_fd c) (x :: b) _ (cl_uid c) s1 ch Hin Er ltac:(done) Hch (li_fmt lfd s1 HI1))|].
    intros ? s' Hsv. split; [exact (loop_inv_serves lfd _ _ _ HI1 Hsv)|].
    destruct Hsv as [(_ & Hcl & _ & _ & Hmi & _) _]. unfold kept. by rewrite Hcl, Hmi.
Qed.

(** The clients whose turn it is, in the order of the table, from entry [i] on. *)
Fixpoint ready_from (l : list client) (n i : nat) : list (nat * Z) :=
  match n with
  | O => []
  | S n' =>
      match l !! i with
      | Some c =>
          if (cl_fd c <? 0) || negb (bool_decide (cl_fd c ∈ si_rset si)) then ready_from l n' (S i)
          else (i, cl_fd c) :: ready_from l n' (S i)
      | None => ready_from l n' (S i)
      end
  end.

(** The reference: the clients of a list, one after the other. *)
Fixpoint serve_all (l : list (nat * Z)) : prog server unit :=
  match l with
  | [] => mret tt
  | (i, fd) :: l' => select_serve fsopen newfd_of strerror mem si i fd ;; serve_all l'
  end.

Lemma ready_from_ext l l' n i : (∀ j, (i <= j)%nat → l' !! j = l !! j) → ready_from l' n i = ready_from l n i.
Proof.
  revert i. induction n as [|n IH]; intros i H; simpl; [done|].
  rewrite H by lia. rewrite IH by (intros; apply H; lia). done.
Qed.

Lemma bind_wp_eq {A B} (m : prog server A) (k k' : A → prog server B) s Q :
  wp m s Q → (∀ a s', Q a s' → k a s' = k' a s') → (m ≫= k) s = (m ≫= k') s.
Proof. unfold wp, mbind, prog_bind. destruct (m s); intros H HQ; try done. by apply HQ. Qed.

Lemma select_clients_spec n : ∀ i s, loop_inv lfd s → (Z.of_nat (i + n) <= sv_maxi s + 1) →
  select_clients fsopen newfd_of strerror mem si n i s = serve_all (ready_from (sv_client s) n i) s ∧
  wp (select_clients fsopen newfd_of strerror mem si n i) s (λ _ s', loop_inv lfd s').
Proof.
  induction n as [|n IH]; intros i s HI Hn; simpl; [by split; [|eapply wp_done]|].
  pose proof (li_maxi lfd s HI) as Hm.
  destruct (sv_client s !! i) as [c|] eqn:Hi; [|apply lookup_ge_None in Hi; lia].
  assert (Hat : client_at i s = Done c s) by (unfold client_at; by rewrite Hi).
  erewrite bind_done by exact Hat.
  destruct ((cl_fd c <? 0) || _) eqn:Hr.
  - rewrite bind_ret. destruct (IH (S i) s HI ltac:(lia)) as [E Hwp]. split; [exact E|].
    apply wp_bind. eapply wp_done; [exact Hat|]. rewrite Hr. apply wp_bind. eapply wp_done; [reflexivity|]. exact Hwp.
  - apply orb_false_iff in Hr as [Hfd Hin]. apply Z.ltb_ge in Hfd.
    pose proof (select_serve_wp s i c HI Hi Hfd (proj1 (bool_decide_eq_true _) (proj1 (negb_false_iff _) Hin))) as Hsv. split.
    + eapply bind_wp_eq; [exact Hsv|]. intros a s' [HI' (Hk & Hlen & Hmi)].
      destruct (IH (S i) s' HI') as [E _]; [rewrite Hmi; lia|]. rewrite E.
      rewrite (ready_from_ext (sv_client s)); [done|]. intros j Hj. apply Hk. lia.
    + apply wp_bind. eapply wp_done; [exact Hat|]. rewrite (proj2 (orb_false_iff _ _)) by (split; [by apply Z.ltb_ge|done]).
      apply wp_bind. eapply wp_mono; [exact Hsv|]. intros a s' [HI' (_ & _ & Hmi)].
      apply IH; [done|]. rewrite Hmi. lia.
Qed.
End round.

Section who.
Context (lfd : Z) (si : select_in) (s : server) (HI : loop_inv lfd s).

Lemma elem_ready n : ∀ i j fd, (j, fd) ∈ ready_from si (sv_client s) n i ↔
  (i <= j < i + n)%nat ∧ (∃ c, sv_client s !! j = Some c ∧ cl_fd c = fd) ∧ 0 <= fd ∧ fd ∈ si_rset si.
Proof.
  induction n as [|n IH]; intros i j fd; simpl.
  { rewrite elem_of_nil. split; [done|intros [? _]; lia]. }
  destruct (sv_client s !! i) as [c|] eqn:Hi.
  - destruct ((cl_fd c <? 0) || _) eqn:Hr.
    + rewrite IH. split; [intros (? & ?); split; [lia|done]|]. intros (Hj & (d & Hd & E) & H0 & Hin).
      split; [|by split_and!; [exists d|..]]. destruct (decide (j = i)) as [->|]; [|lia].
      rewrite Hi in Hd. injection Hd as <-. subst fd. apply orb_true_iff in Hr as [Hr|Hr].
      * apply Z.ltb_lt in Hr. lia.
      * by rewrite bool_decide_true in Hr.
    + apply orb_false_iff in Hr as [H0 Hin]. apply Z.ltb_ge in H0. apply negb_false_iff, bool_decide_eq_true in Hin.
      rewrite elem_of_cons, IH. split.
      * intros [[= -> ->]|(Hj & ?)]; [|split; [lia|done]]. split; [lia|]. split_and!; [by exists c|done|done].
      * intros (Hj & (d & Hd & E) & H0' & Hin'). destruct (decide (j = i)) as [->|]; [left|right].
        -- rewrite Hi in Hd. injection Hd as <-. by subst.
        -- split; [lia|]. split_and!; [by exists d|done|done].
  - rewrite IH. split; [intros (? & ?); split; [lia|done]|]. intros (Hj & (d & Hd & E) & ?).
    split; [|by split; [exists d|]]. destruct (decide (j = i)) as [->|]; [congruence|lia].
Qed.

Lemma nodup_ready n : ∀ i, NoDup (ready_from si (sv_client s) n i).*2.
Proof.
  induction n as [|n IH]; intros i; simpl; [constructor|].
  destruct (sv_client s !! i) as [c|] eqn:Hi; [|apply IH].
  destruct ((cl_fd c <? 0) || _) eqn:Hr; [apply IH|]. simpl. constructor; [|apply IH].
  apply orb_false_iff in Hr as [H0 _]. apply Z.ltb_ge in H0.
  intros Hin. apply list_elem_of_fmap in Hin as ([j fd] & Hfd & Hin). simpl in Hfd. subst fd.
  apply elem_ready in Hin as (Hj & (d & Hd & E) & _).
  assert (j = i); [|lia]. apply (li_inj lfd s HI j i d c); [done..|lia].
Qed.
End who.

(** C14: the loop of the server with select. From the start of loop() on and through every
    round, whatever select reports and the clients send, the table of clients, allset,
    maxi and maxfd agree ([loop_inv]), and no round ends the server, except where accept,
    read, send_fd or malloc has failed, or leaves the defined behaviour, under three
    conditions the code does not check: no client that is served sends a percent sign
    (errmsg is the format of log_msg), descriptors are below FD_SETSIZE, and the socket of
    a client that connects has a name of less than eight bytes (serv_accept allocates the
    size of a pointer; with a longer name the round is undefined). A round without a new
    connection gives every client that is ready exactly one turn: the changes made while
    the table is walked do not matter. *)
Theorem select_loop fsopen newfd_of strerror mem lfd si s :
  (∀ s, sv_fds s !! newfd_of s = None) → (∀ e, plain (strerror e)) → si_rset si ⊆ sv_allset s →
  (∀ fd b, fd ∈ si_rset si → si_read si fd = IoOk b → plain b) →
  (sv_client s = [] → sv_size s = O → sv_errmsg s = [] → 0 <= lfd < FD_SETSIZE →
    ∃ s', select_start lfd s = Done tt s' ∧ loop_inv lfd s') ∧
  (loop_inv lfd s →
    ((lfd ∈ si_rset si → ∀ fd path, ai_acc (si_accept si) = IoOk (fd, path) →
        0 <= fd < FD_SETSIZE ∧ fd ∉ sv_allset s ∧ (length path < NAME_SIZE)%nat) →
      wp (select_round fsopen newfd_of strerror mem lfd si) s (λ _ s', loop_inv lfd s')) ∧
    (∀ fd path, lfd ∈ si_rset si → ai_mem (si_accept si) = true → ai_acc (si_accept si) = IoOk (fd, path) →
      (NAME_SIZE <= length path)%nat → select_round fsopen newfd_of strerror mem lfd si s = Undef s) ∧
    (lfd ∉ si_rset si → ∃ todo,
      select_round fsopen newfd_of strerror mem lfd si s = serve_all fsopen newfd_of strerror mem si todo s ∧
      NoDup todo.*2 ∧ ∀ fd, fd ∈ todo.*2 ↔ fd ∈ si_rset si)).
Proof.
  intros Hnew Hse Hsub Hplain. split.
  - intros Hc Hs He [Hl Hls]. eexists. split.
    + unfold select_start. rewrite bind_check_true by (by apply Z.leb_le).
      rewrite bind_defined_true by (by apply Z.ltb_lt). reflexivity.
    + split; simpl; rewrite ?Hc, ?Hs; simpl; try done; try lia; [| |].
      * intros fd. rewrite elem_of_singleton. split; [by left|]. intros [->|[_ (i & c & Hi & _)]]; done.
      * intros fd. rewrite elem_of_singleton. lia.
      * unfold fmt_ok. simpl. rewrite He. by eexists.
  - intros HI. pose proof (li_maxi lfd s HI) as Hm. unfold select_round. destruct (decide _) as [Hin|Hnin].
    { split; [intros Hacc; eapply select_accept_wp; eauto|]. split; [|done].
      intros fd path _ Hmem Ha Hl. unfold select_accept, mbind at 1, prog_bind at 1.
      by rewrite (call_accept_long _ fd path). }
    assert (Hreq : ∀ fd b rest uid s ch, fd ∈ si_rset si → si_read si fd = IoOk b → b ≠ [] → sv_chans s !! fd = Some ch →
      fmt_ok s → wp (handle_request fsopen newfd_of strerror mem (b ++ rest) (Z.of_nat (length b)) fd uid) s
        (λ _ s', kept_fmt fd s s')).
    { intros fd b rest uid s1 ch Hfd Er Hb Ech Hf. eapply plain_request_wp; eauto. }
    destruct (select_clients_spec fsopen newfd_of strerror mem lfd si Hreq (Z.to_nat (sv_maxi s + 1)) 0 s HI)
      as [E Hwp]; [lia|].
    split; [intros _; apply wp_bind; eapply wp_done; [reflexivity|]; exact Hwp|]. split; [done|]. intros _.
    eexists. split; [rewrite bind_gets; exact E|]. split; [by eapply nodup_ready|].
    intros fd. rewrite list_elem_of_fmap. split.
    + intros ([j fd'] & -> & Hj). by apply elem_ready in Hj as (_ & _ & _ & ?).
    + intros Hfd. pose proof (Hsub fd Hfd) as Hall. apply (li_set lfd s HI) in Hall as [->|[Hne (i & c & Hi & Ec)]]; [done|].
      destruct (li_entry lfd s HI i c Hi) as [|(H0 & _ & Hmi & _)]; [congruence|]. subst fd.
      exists (i, cl_fd c). split; [done|]. apply elem_ready. split; [lia|]. split_and!; [by exists c|lia|done].
Qed.

Lemma one_client_inv : loop_inv 3 one_client.
Proof.
  split; simpl; try done; try lia.
  * intros [|i] c; simpl; [intros [= <-]; right|].
    -- split_and!; try done.
    -- change ((replicate 9 (Client (-1) 0)) !! i = Some c → cl_fd c = -1 ∨ 0 <= cl_fd c ∧ cl_fd c ≠ 3 ∧
         Z.of_nat (S i) <= 0 ∧ is_Some (({[4 := Chan [] []]} : gmap Z chan) !! cl_fd c)).
       intros Hi. apply lookup_replicate in Hi as [-> _]. by left.
  * intros [|i] [|j] ci cj Hi Hj E Hne; try done.
    -- change ((replicate 9 (Client (-1) 0)) !! j = Some cj) in Hj. apply lookup_replicate in Hj as [-> _].
       simpl in Hi. injection Hi as <-. done.
    -- change ((replicate 9 (Client (-1) 0)) !! i = Some ci) in Hi. by apply lookup_replicate in Hi as [-> _].
    -- change ((replicate 9 (Client (-1) 0)) !! i = Some ci) in Hi. by apply lookup_replicate in Hi as [-> _].
  * intros fd. rewrite elem_of_union, !elem_of_singleton. split.
    -- intros [->| ->]; [by left|right; split; [done|]]. by exists 0%nat, (Client 4 7).
    -- intros [->|[Hne ([|i] & c & Hi & Hc)]]; [by left| |].
       ++ simpl in Hi. injection Hi as <-. by right.
       ++ change ((replicate 9 (Client (-1) 0)) !! i = Some c) in Hi.
          apply lookup_replicate in Hi as [-> _]. simpl in Hc. congruence.
  * intros fd. rewrite elem_of_union, !elem_of_singleton. unfold FD_SETSIZE. lia.
  * by eexists.
Qed.

(** A round in which the only client sends a request. *)
Lemma select_loop_witness : ∃ todo,
  select_round (λ _ _, IoOk tt) next_fd (λ _, []) true 3 (OpenProps.reads (str "x")) one_client =
  serve_all (λ _ _, IoOk tt) next_fd (λ _, []) true (OpenProps.reads (str "x")) todo one_client ∧
  ∀ fd, fd ∈ todo.*2 ↔ fd ∈ si_rset (OpenProps.reads (str "x")).
Proof.
  destruct (select_loop (λ _ _, IoOk tt) next_fd (λ _, []) true 3 (OpenProps.reads (str "x")) one_client) as [_ H].
  - apply next_fd_fresh.
  - intros _. by apply (bool_decide_unpack _).
  - simpl. set_solver.
  - intros fd b _ [= <-]. by apply (bool_decide_unpack _).
  - destruct H as (_ & _ & H); [apply one_client_inv|].
    destruct H as (todo & E & _ & Hin); [simpl; set_solver|]. by exists todo.
Defined.
