(* ===== verification/OpenPoll.v ===== *)
(** * The poll loop of the open server (ipc2/opend/loop.poll.c). *)
From Stdlib Require Import Ascii ZArith Lia.
From stdpp Require Import base strings gmap option list.
From S2P Require Import Prelude CStr PosixFile Sock FdPass OpenArgs OpenConn OpenServer.

(** struct pollfd: events is always POLLIN; revents as its POLLIN and POLLHUP bits. *)
Record pfd := Pfd { p_fd : Z; p_in : bool; p_hup : bool }.

(** The server and the locals of loop(): pollfd, numfd, maxfd. *)
Record ploop := PLoop { pl_sv : server; pl_pfd : list pfd; pl_num : nat; pl_max : nat }.
#[export] Instance ploop_rebuild : Rebuild ploop := λ p, PLoop (pl_sv p) (pl_pfd p) (pl_num p) (pl_max p).

Definition on_server {A} (m : prog server A) : prog ploop A := λ p,
  match m (pl_sv p) with
  | Done a s => Done a (p <| pl_sv := s |>)
  | Fatal e s => Fatal e (p <| pl_sv := s |>)
  | Undef s => Undef (p <| pl_sv := s |>)
  | NoFuel => NoFuel
  end.

Definition pfd_at (i : nat) : prog ploop pfd := λ p,
  match pl_pfd p !! i with Some e => Done e p | None => Undef p end.
Definition set_pfd (i : nat) (e : pfd) : prog ploop unit :=
  pfd_at i ;; modify (λ p, p <| pl_pfd := <[i := e]> (pl_pfd p) |>).

Definition free_pfd : pfd := Pfd (-1) false false.

(** [junk]: what realloc leaves in the new entries. *)
Definition grow_pollfd (mem : bool) (junk : pfd) : prog ploop unit :=
  check mem (ErrSys "realloc error") ;;
  modify (λ p, p <| pl_pfd := foldl (λ l i, <[i := free_pfd]> l) (pl_pfd p ++ replicate NALLOC junk)
                                    (seq (pl_max p) NALLOC) |>
                 <| pl_max := (pl_max p + NALLOC)%nat |>).

Section poll.
Context (fsopen : bytes → Z → iores unit) (newfd_of : server → Z) (strerror : Z → bytes) (mem : bool).

(** loop() up to its for(;;). *)
Definition poll_start (mem0 : bool) (junk : client) (listenfd : Z) : prog ploop unit :=
  check mem0 (ErrSys "malloc error") ;;
  modify (λ p, PLoop (pl_sv p) (replicate NALLOC free_pfd) 1 NALLOC) ;;
  check (0 <=? listenfd) (ErrSys "serv_listen error") ;;
  on_server (client_add true junk listenfd 0) ;;
  set_pfd 0 (Pfd listenfd false false).

(** What happens in a round: the revents poll fills in, accept, the reads. *)
Record poll_in := PollIn {
  pi_revents : list (bool * bool); pi_accept : accept_in; pi_mem : bool; pi_junk : client;
  pi_junkp : pfd; pi_read : Z → iores bytes }.

#[global] Instance poll_in_rebuild : Rebuild poll_in := λ p,
  PollIn (pi_revents p) (pi_accept p) (pi_mem p) (pi_junk p) (pi_junkp p) (pi_read p).

Definition poll_accept (pi : poll_in) : prog ploop unit :=
  '(clifd, uid) ← on_server (call_accept (pi_accept pi));
  check (negb (clifd <? 0)) (ErrSys "serv_accept error") ;;
  on_server (modify (λ s, s <| sv_chans ::= <[clifd := Chan [] []]> |>)) ;;
  on_server (client_add (pi_mem pi) (pi_junk pi) clifd uid) ;;
  p ← get;
  (if (pl_num p =? pl_max p)%nat then grow_pollfd (pi_mem pi) (pi_junkp pi) else mret tt) ;;
  set_pfd (pl_num p) (Pfd clifd false false) ;;
  modify (λ p, p <| pl_num ::= S |>) ;;
  on_server (log (LogNew uid clifd)).

(** hungup: the last entry takes the place of entry [i]; the result is the next [i]. *)
Definition poll_hungup (i : nat) : prog ploop nat :=
  e ← pfd_at i;
  c ← on_server (client_at i);
  on_server (log (LogClosed (cl_uid c) (p_fd e))) ;;
  on_server (client_del (p_fd e)) ;;
  on_server (modify (λ s, s <| sv_chans ::= delete (p_fd e) |>)) ;;
  n ← gets pl_num;
  next ← (if (i <? n - 1)%nat then
            l ← pfd_at (n - 1);
            set_pfd i l ;;
            mret i
          else mret (S i));
  modify (λ p, p <| pl_num ::= pred |>) ;;
  mret next.

(** for (i = 1; i < numfd; i++); the distance from [i] to numfd shrinks in every round. *)
Fixpoint poll_clients (pi : poll_in) (fuel i : nat) : prog ploop unit :=
  match fuel with
  | O => λ _, NoFuel
  | S f =>
      n ← gets pl_num;
      if (i <? n)%nat then
        e ← pfd_at i;
        if p_hup e then next ← poll_hungup i; poll_clients pi f next
        else if p_in e then
          match pi_read pi (p_fd e) with
          | IoErr _ => die (ErrSys "read error")
          | IoOk [] => next ← poll_hungup i; poll_clients pi f next
          | IoOk b =>
              on_server (read_into b) ;;
              c ← on_server (client_at i); p ← get;
              on_server (handle_request fsopen newfd_of strerror mem (sv_buf (pl_sv p))
                (Z.of_nat (length b)) (p_fd e) (cl_uid c)) ;;
              poll_clients pi f (S i)
          end
        else poll_clients pi f (S i)
      else mret tt
  end.

(** poll fills in revents, the new connection is taken, then the clients have their turn. *)
Definition set_revents (rev : list (bool * bool)) (l : list pfd) : list pfd :=
  zip_with (λ e r, Pfd (p_fd e) r.1 r.2) l rev ++ drop (length rev) l.

Definition poll_round (pi : poll_in) : prog ploop unit :=
  modify (λ p, p <| pl_pfd := set_revents (take (pl_num p) (pi_revents pi)) (pl_pfd p) |>) ;;
  e0 ← pfd_at 0;
  (if p_in e0 then poll_accept pi else mret tt) ;;
  n ← gets pl_num;
  poll_clients pi (S n) 1.
End poll.

(** ** Two clients *)

Definition server0 : server := Server [] 0 [] [] 0 ∅ ∅ [] [] ∅ 0 (-1).
Definition quiet (rev : list (bool * bool)) : poll_in :=
  PollIn rev (AcceptIn true (IoErr 0) (λ _, IoErr 0) 0) true (Client 0 0) free_pfd (λ _, IoErr 0).

(** serv_accept lets in a client of user [uid] whose socket has a name that fits. *)
Definition lets_in (fd uid : Z) : accept_in :=
  AcceptIn true (IoOk (fd, str "/s")) (λ _, IoOk (Stat (Z.lor S_IFSOCK S_IRWXU) 0 0 0 uid)) 0.

(** Client 4 of user [ua] and client 5 of user [ub] connect, 4 hangs up, 5 sends [req]. *)
Definition two_clients (ua ub : Z) (req : bytes) : prog ploop unit :=
  let round := poll_round (λ _ _, IoErr 2) (λ _, 9) (λ _, str "No such file or directory") true in
  poll_start true (Client 0 0) 3 ;;
  round (quiet [(true, false)] <| pi_accept := lets_in 4 ua |>) ;;
  round (quiet [(true, false); (false, false)] <| pi_accept := lets_in 5 ub |>) ;;
  round (quiet [(false, false); (false, true); (false, false)]) ;;
  round (quiet [(false, false); (true, false)] <| pi_read := λ _, IoOk req |>).

(** the loop with poll packs pollfd[] when a client leaves, but not client[], and goes
    on to use the index of the one for the other. After the first of two clients has hung
    up, the request of the second one is handled, and logged, under the user ID of the
    first. *)
Theorem poll_wrong_uid ua ub : ∃ p,
  two_clients ua ub (str "open /etc/passwd 0" ++ [NUL])
    (PLoop server0 [] 0 0) = Done tt p ∧
  sv_client (pl_sv p) !! 2%nat = Some (Client 5 ub) ∧
  sv_log (pl_sv p) = [LogNew ua 4; LogNew ub 5; LogClosed ua 4; LogRequest (str "open /etc/passwd 0") ua;
    LogText (str "can't open /etc/passwd: No such file or directory" ++ [NEWLINE])].
Proof. eexists. split; [vm_compute; reflexivity|]. split; vm_compute; reflexivity. Qed.
