(* ===== verification/OpenDaemon.v ===== *)
(** * The open server with daemon code of its own: ipc2/open_server.

    The same globals as ipc2/opend, so the state is [server].  The program differs in the
    splitting of a request (strsep), in how it ends after an error (exit(1)), and in the
    loop, which counts down what select has reported.  Its copies of send_fd, send_err,
    server_listen and server_accept are those of lib/ word for word. *)
From Stdlib Require Import Ascii ZArith Lia.
From stdpp Require Import base strings gmap option list.
From S2P Require Import Prelude CStr Sock FdPass OpenArgs OpenServer OpenConn.

(** ** client_management.c *)

Definition d_client_alloc (mem : bool) (junk : client) : prog server unit :=
  check mem (Exit 1) ;;
  modify (λ s, s <| sv_client := foldl (set_client_fd (-1)) (sv_client s ++ replicate NALLOC junk)
                                       (seq (sv_size s) NALLOC) |>
                 <| sv_size := (sv_size s + NALLOC)%nat |>).

Fixpoint d_client_again (fuel : nat) (mem : bool) (junk : client) (fd uid : Z) : prog server nat :=
  match fuel with
  | O => λ _, NoFuel
  | S f =>
      r ← gets (find_client (-1));
      match r with
      | Some i => modify (λ s, s <| sv_client := <[i := Client fd uid]> (sv_client s) |>) ;; mret i
      | None => d_client_alloc mem junk ;; d_client_again f mem junk fd uid
      end
  end.
Definition d_client_add (mem : bool) (junk : client) (fd uid : Z) : prog server nat :=
  l ← gets sv_client;
  (match l with [] => d_client_alloc mem junk | _ => mret tt end) ;;
  d_client_again 2 mem junk fd uid.

Definition d_client_del (fd : Z) : prog server unit :=
  r ← gets (find_client fd);
  match r with
  | Some i => modify (λ s, s <| sv_client := set_client_fd (-1) (sv_client s) i |>)
  | None => die (Exit 1)
  end.

(** ** handle_request.c *)

Definition client_args (argc : Z) (argv : list nat) (buf : bytes) : prog server Z :=
  match strings_at buf argv with
  | [a0; a1; a2] =>
      if negb (argc =? 3) || negb (streq a0 CL_OPEN) then set_errmsg usage ;; mret (-1)
      else
        modify (λ s, s <| sv_path := a1 |> <| sv_oflag := atoi a2 |>) ;;
        mret 0
  | _ => set_errmsg usage ;; mret (-1)
  end.

Definition d_send_fd : bool → gmap Z ofile → Z → chan → Z * chan := FdPass.send_fd.
Definition d_send_err : bool → gmap Z ofile → Z → bytes → chan → Z * chan := FdPass.send_err.

Section daemon.
Context (fsopen : bytes → Z → iores unit) (newfd_of : server → Z) (strerror : Z → bytes) (mem : bool).

Definition d_send_errmsg (clifd : Z) : prog server unit :=
  s ← get; on_chan clifd (d_send_err mem (sv_fds s) (-1) (sv_errmsg s)) ;; mret tt.

(** From open() on. *)
Definition d_open_and_send (clifd : Z) : prog server unit :=
  s ← get;
  match fsopen (sv_path s) (sv_oflag s) with
  | IoErr e =>
      set_errmsg (snprintf (cant_open strerror (sv_path s) e)) ;;
      d_send_errmsg clifd ;;
      m ← gets sv_errmsg; log (LogText (cstr m))
  | IoOk _ =>
      let newfd := newfd_of s in
      modify (λ s, s <| sv_fds ::= <[newfd := (sv_path s, sv_oflag s)]> |>) ;;
      s ← get;
      r ← on_chan clifd (d_send_fd mem (sv_fds s) newfd);
      check (negb (r <? 0)) (Exit 1) ;;
      log (LogSent newfd clifd (sv_path s)) ;;
      modify (λ s, s <| sv_fds ::= delete newfd |>)
  end.

(** [amem]: the malloc of buf_args.  The snprintf for a request without its NUL is given
    the size_t [size] for each '*', which takes an int: undefined. *)
Definition d_handle_request (amem : bool) (buf : bytes) (size clifd uid : Z) : prog server unit :=
  match buf !! Z.to_nat (size - 1) with
  | None => undefined
  | Some c =>
      if decide (c ≠ NUL) then undefined
      else
        log (LogRequest (cstr buf) uid) ;;
        r ← buf_args_sep client_args amem buf;
        if r <? 0 then
          d_send_errmsg clifd ;;
          m ← gets sv_errmsg; log (LogText (cstr m))
        else d_open_and_send clifd
  end.

(** ** loop.c *)

(** loop() up to its for(;;). *)
Definition d_start (listenfd : Z) : prog server unit :=
  check (0 <=? listenfd) (Exit 1) ;;
  defined (listenfd <? FD_SETSIZE) ;;
  modify (λ s, s <| sv_allset := {[listenfd]} |> <| sv_maxfd := listenfd |> <| sv_maxi := -1 |>).

Definition d_accept (si : select_in) : prog server unit :=
  '(clifd, uid) ← call_accept (si_accept si);
  check (negb (clifd <? 0)) (Exit 1) ;;
  modify (λ s, s <| sv_chans ::= <[clifd := Chan [] []]> |>) ;;
  i ← d_client_add (si_mem si) (si_junk si) clifd uid;
  defined (clifd <? FD_SETSIZE) ;;
  modify (λ s, s <| sv_allset ::= λ a, {[clifd]} ∪ a |>
                 <| sv_maxfd ::= λ m, if m <? clifd then clifd else m |>
                 <| sv_maxi ::= λ m, if m <? Z.of_nat i then Z.of_nat i else m |>) ;;
  log (LogNew uid clifd).

Definition d_serve (amem : bool) (si : select_in) (i : nat) (clifd : Z) : prog server unit :=
  match si_read si clifd with
  | IoErr _ => die (Exit 1)
  | IoOk [] =>
      c ← client_at i;
      log (LogClosed (cl_uid c) clifd) ;;
      d_client_del clifd ;;
      modify (λ s, s <| sv_allset ::= λ a, a ∖ {[clifd]} |> <| sv_chans ::= delete clifd |>)
  | IoOk b =>
      read_into b ;;
      c ← client_at i; buf ← gets sv_buf;
      d_handle_request amem buf (Z.of_nat (length b)) clifd (cl_uid c)
  end.

(** for (i = 0; n != 0 && i <= max_index; i++); [k] rounds are left. *)
Fixpoint d_clients (amem : bool) (si : select_in) (k i : nat) (n : Z) : prog server unit :=
  match k with
  | O => mret tt
  | S k' =>
      if n =? 0 then mret tt
      else
        c ← client_at i;
        if cl_fd c <? 0 then d_clients amem si k' (S i) n
        else if decide (cl_fd c ∈ si_rset si) then
          d_serve amem si i (cl_fd c) ;;
          d_clients amem si k' (S i) (n - 1)
        else d_clients amem si k' (S i) n
  end.

(** [sel]: the result of select. *)
Definition d_round (amem : bool) (listenfd : Z) (sel : iores Z) (si : select_in) : prog server unit :=
  match sel with
  | IoErr _ => die (Exit 1)
  | IoOk n =>
      if decide (listenfd ∈ si_rset si) then d_accept si
      else maxi ← gets sv_maxi; d_clients amem si (Z.to_nat (maxi + 1)) 0 n
  end.
End daemon.

(** ** server_unix_sock.c *)

Definition server_listen : bytes → iores Z → iores unit → iores unit → iores unit → prog conn Z := serv_listen.
Definition server_accept : bool → iores (Z * bytes) → (bytes → iores stat) → Z → prog conn (Z * option Z) :=
  serv_accept.
