(* ===== verification/DaemonProps.v ===== *)
(** * Properties of the open server of ipc2/open_server, against ipc2/opend. *)
From Stdlib Require Import Ascii ZArith Lia.
From stdpp Require Import base strings gmap option list.
From S2P Require Import Prelude CStr Sock FdPass FdPassSpec OpenArgs OpenArgsSpec OpenServer OpenClient OpenProps OpenLoop OpenConn OpenDaemon.

(** ** Requests *)

(** The buf_args of ipc2/open_server allocates strlen(buf) + 9 bytes for argv, but
    stores eight bytes for every field and for the NULL. For a request of csopen that is
    four pointers: it is a write outside of the array, undefined, exactly when the name
    and the digits of the flags have less than 17 characters together; otherwise the
    three arguments are handed over. *)
Lemma buf_args_sep_open {St} (optfunc : Z → list nat → bytes → prog St Z) (st : St) name oflag junk :
  good_name name → 0 <= oflag →
  let run := buf_args_sep optfunc true (open_req name oflag ++ junk) st in
  ((length name + length (dec oflag) < 17)%nat → run = Undef st) ∧
  ((17 <= length name + length (dec oflag))%nat → ∃ argv buf, run = optfunc 3 argv buf st ∧
    strings_at buf argv = [CLIENT_REQ; name; dec oflag]).
Proof.
  intros Hg Ho run. unfold run.
  assert (Hn : no_nul (req_text name oflag)) by (by apply req_text_no_nul).
  assert (Hreq : open_req name oflag ++ junk = req_text name oflag ++ NUL :: junk)
    by (unfold open_req, req_text; by rewrite <- !app_assoc).
  assert (Hlen : length (req_text name oflag) = (6 + length name + length (dec oflag))%nat).
  { unfold req_text. rewrite !length_app. simpl. lia. }
  assert (Hf : fields (req_text name oflag) = [CLIENT_REQ; name; dec oflag]).
  { unfold req_text. rewrite dec_udec by done. change (str " ") with [SPACE]. cbn [app].
    rewrite fields_token; [|by repeat constructor|done]. rewrite fields_token by (done || apply Hg).
    by rewrite fields_last by (by apply solid_digits). }
  rewrite Hreq. unfold buf_args_sep, strlen. rewrite cstr_app, Hlen by done. cbn [negb].
  set (size := Z.of_nat (6 + length name + length (dec oflag)) + 1 + 8).
  pose proof (sep_loop_spec st size junk (S (length (req_text name oflag ++ NUL :: junk)))
    (req_text name oflag) [] 0 []) as H. rewrite Hf in H.
  specialize (H ltac:(rewrite length_app; lia) Hn). cbv zeta in H.
  change (0 + Z.of_nat (length [CLIENT_REQ; name; dec oflag])) with 3 in H. change (3 - 1) with 2 in H.
  cbn [app length] in H.
  split; intros Hl.
  - assert (H3 : fits size 3 = false) by (unfold fits, size; apply Z.leb_gt; lia).
    destruct (fits size 2).
    + destruct H as (ps & buf & E & _). erewrite bind_done by exact E. cbv beta iota. by rewrite H3.
    + unfold mbind, prog_bind. by rewrite H.
  - assert (H2 : fits size 2 = true) by (unfold fits, size; apply Z.leb_le; lia).
    assert (H3 : fits size 3 = true) by (unfold fits, size; apply Z.leb_le; lia).
    rewrite H2 in H. destruct H as (ps & buf & E & _ & _ & Hst). exists ps, buf. split; [|done].
    erewrite bind_done by exact E. cbv beta iota. by rewrite H3.
Qed.

(** ** Two programs that do the same but for the message they end with *)

Definition same_run {A} (o1 o2 : outcome server A) : Prop :=
  match o1, o2 with
  | Done a s, Done b t => a = b ∧ s = t
  | Fatal _ s, Fatal _ t => s = t
  | Undef s, Undef t => s = t
  | NoFuel, NoFuel => True
  | _, _ => False
  end.

Lemma same_refl {A} (o : outcome server A) : same_run o o.
Proof. by destruct o. Qed.

Lemma same_bind {A B} (m m' : prog server A) (k k' : A → prog server B) s :
  same_run (m s) (m' s) → (∀ a t, same_run (k a t) (k' a t)) → same_run ((m ≫= k) s) ((m' ≫= k') s).
Proof. unfold mbind, prog_bind. intros H Hk. destruct (m s), (m' s); try done. destruct H as [-> ->]. apply Hk. Qed.

Lemma same_bind_wp {A B} (m m' : prog server A) (k k' : A → prog server B) s Q :
  same_run (m s) (m' s) → wp m' s Q → (∀ a t, Q a t → same_run (k a t) (k' a t)) →
  same_run ((m ≫= k) s) ((m' ≫= k') s).
Proof.
  unfold wp, mbind, prog_bind. intros H HQ Hk. destruct (m s), (m' s); try done.
  destruct H as [-> ->]. by apply Hk.
Qed.

Lemma same_check b e e' s : same_run (check b e s) (check b e' s).
Proof. by destruct b. Qed.

Lemma d_alloc_same mb junk s : same_run (d_client_alloc mb junk s) (client_alloc mb junk s).
Proof. apply same_bind; [apply same_check|]. intros _ t. apply same_refl. Qed.

Lemma d_again_same f mb junk fd uid s : same_run (d_client_again f mb junk fd uid s) (client_again f mb junk fd uid s).
Proof.
  revert s. induction f as [|f IH]; intros s; [done|]. simpl. rewrite !bind_gets.
  destruct (find_client (-1) s); [apply same_refl|]. apply same_bind; [apply d_alloc_same|]. intros _ t. apply IH.
Qed.

Lemma d_add_same mb junk fd uid s : same_run (d_client_add mb junk fd uid s) (client_add mb junk fd uid s).
Proof.
  unfold d_client_add, client_add. rewrite !bind_gets. apply same_bind; [|intros _ t; apply d_again_same].
  destruct (sv_client s); [apply d_alloc_same|apply same_refl].
Qed.

Lemma d_del_same fd s : same_run (d_client_del fd s) (client_del fd s).
Proof. unfold d_client_del, client_del. rewrite !bind_gets. by destruct (find_client fd s). Qed.

Lemma d_accept_same si s : same_run (d_accept si s) (select_accept si s).
Proof.
  unfold d_accept, select_accept. apply same_bind; [apply same_refl|]. intros [fd uid] t.
  apply same_bind; [apply same_check|]. intros _ t1. apply same_bind; [apply same_refl|]. intros _ t2.
  apply same_bind; [apply d_add_same|]. intros i t'. apply same_refl.
Qed.

Section daemon.
Context (fsopen : bytes → Z → iores unit) (newfd_of : server → Z) (strerror : Z → bytes) (mem : bool).

(** Nothing in the reason is a conversion. *)
Definition plain_reason (path : bytes) (oflag : Z) : Prop :=
  ∀ e, fsopen path oflag = IoErr e → plain (snprintf (cant_open strerror path e)).

(** The message is sent, and logged: as a format by one program, as text by the other. *)
Lemma send_log_same clifd s : plain (sv_errmsg s) →
  same_run ((d_send_errmsg mem clifd ;; m ← gets sv_errmsg; log (LogText (cstr m))) s)
    ((send_errmsg mem clifd ;; log_errmsg) s).
Proof.
  intros Hp. assert (Hs : ∃ s', send_errmsg mem clifd s = Done tt s' ∧ sv_errmsg s' = sv_errmsg s).
  { unfold send_errmsg, on_chan, get, mbind, prog_bind. destruct (sv_chans s !! clifd) as [ch|]; [|by eexists].
    destruct (send_err _ _ _ _ ch) as [r c']. by eexists. }
  destruct Hs as (s' & E & He). change (d_send_errmsg mem clifd) with (send_errmsg mem clifd).
  rewrite !(bind_done _ _ _ _ _ E), bind_gets. unfold log_errmsg. rewrite He, format0_plain by by apply plain_cstr.
  apply same_refl.
Qed.

Lemma d_open_same clifd s :
  plain_reason (sv_path s) (sv_oflag s) →
  same_run (d_open_and_send fsopen newfd_of strerror mem clifd s) (open_and_send fsopen newfd_of strerror mem clifd s).
Proof.
  intros Hre. unfold d_open_and_send, open_and_send. erewrite !(bind_done get) by reflexivity.
  destruct (fsopen _ _) as [e|] eqn:Eo.
  { specialize (Hre e Eo). erewrite !(bind_done (set_errmsg _)) by reflexivity. apply send_log_same. exact Hre. }
  apply same_bind; [apply same_refl|]. intros _ t. apply same_bind; [apply same_refl|]. intros s1 t1.
  apply same_bind; [apply same_refl|]. intros r t2. apply same_bind; [apply same_check|]. intros _ t3. apply same_refl.
Qed.

(** A request csopen has written, as read() returns it, with room for its arguments, for a
    file that can be opened or whose reason has no percent sign. *)
Definition roomy (b : bytes) : Prop := ∃ name oflag, b = open_req name oflag ∧ good_name name ∧ 0 <= oflag < 2 ^ 31 ∧
  (17 <= length name + length (dec oflag))%nat ∧ plain_reason name oflag.

(** What a client may send without leaving the common behaviour of the two programs:
    nothing (it has closed), or a request with room. *)
Definition common_input (b : bytes) : Prop := b = [] ∨ roomy b.

Lemma last_at (b rest : bytes) x : last b = Some x → (b ++ rest) !! Z.to_nat (Z.of_nat (length b) - 1) = Some x.
Proof.
  intros H. rewrite last_lookup in H. pose proof (lookup_lt_Some _ _ _ H).
  rewrite lookup_app_l by lia. rewrite <- H. f_equal. lia.
Qed.

Lemma open_req_split name oflag : open_req name oflag = req_text name oflag ++ [NUL].
Proof. unfold open_req, req_text. by rewrite <- !app_assoc. Qed.

Lemma open_req_last name oflag : last (open_req name oflag) = Some NUL.
Proof. by rewrite open_req_split, last_snoc. Qed.

Lemma d_request_same b rest clifd uid s : b ≠ [] → common_input b →
  same_run (d_handle_request fsopen newfd_of strerror mem true (b ++ rest) (Z.of_nat (length b)) clifd uid s)
    (handle_request fsopen newfd_of strerror mem (b ++ rest) (Z.of_nat (length b)) clifd uid s).
Proof.
  intros Hb [->|(name & oflag & -> & Hg & Ho & Hroom & Hlog)]; [done|].
  - unfold d_handle_request, handle_request. rewrite (last_at _ _ NUL) by apply open_req_last.
    rewrite !decide_False by (by intros []).
    apply same_bind; [apply same_refl|]. intros _ t.
    destruct (buf_args_sep_open client_args t name oflag rest Hg (proj1 Ho)) as [_ H].
    destruct (H Hroom) as (argv & buf & E & Hst).
    assert (Hr : buf_args_sep client_args true (open_req name oflag ++ rest) t =
      Done 0 (t <| sv_path := name |> <| sv_oflag := oflag |>)).
    { rewrite E. change client_args with cli_args. assert (Hlen : length argv = 3%nat).
      { apply (f_equal length) in Hst. unfold strings_at in Hst. by rewrite length_fmap in Hst. }
      change 3 with (Z.of_nat 3). rewrite <- Hlen, cli_args_spec, Hst. by apply parsed_open. }
    erewrite (bind_done (buf_args_sep _ _ _)) by exact Hr.
    rewrite open_req_split, <- app_assoc. cbn [app].
    erewrite (bind_done (buf_args _ _)) by (by apply parsed_req). apply d_open_same. exact Hlog.
Qed.

(** What the client of a request with room does to ipc2/opend. *)
Lemma common_request_wp b rest uid s ch clifd : (∀ s, sv_fds s !! newfd_of s = None) → b ≠ [] → common_input b →
  sv_chans s !! clifd = Some ch → fmt_ok s →
  wp (handle_request fsopen newfd_of strerror mem (b ++ rest) (Z.of_nat (length b)) clifd uid) s
    (λ _ s', kept_fmt clifd s s').
Proof.
  intros Hnew Hb [->|(name & oflag & -> & Hg & Ho & _ & Hlog)] Ech Hf; [done|].
  pose proof (last_at _ rest NUL (open_req_last name oflag)) as Hlast.
  eapply handle_request_wp; [done|exact Ech|by eapply lookup_lt_Some|done|by rewrite Hlast|].
  intros _ path fl Ha e He. rewrite open_req_split, <- app_assoc in Ha. cbn [app] in Ha.
  rewrite cstr_app in Ha by (apply req_text_no_nul; [done|lia]).
  destruct (req_text_words name oflag Hg (proj1 Ho)) as [Hw Hw']. rewrite Hw', Hw in Ha. injection Ha as <- <-.
  rewrite atoi_dec in He by done. eexists. by apply format0_plain, plain_cstr, Hlog.
Qed.

(** A request without room. *)
Lemma d_request_short name oflag rest clifd uid s : good_name name → 0 <= oflag →
  (length name + length (dec oflag) < 17)%nat → ∃ t,
  d_handle_request fsopen newfd_of strerror mem true (open_req name oflag ++ rest)
    (Z.of_nat (length (open_req name oflag))) clifd uid s = Undef t.
Proof.
  intros Hg Ho Hl. unfold d_handle_request. rewrite (last_at _ _ NUL) by apply open_req_last.
  rewrite decide_False by (by intros []). erewrite (bind_done (log _)) by reflexivity.
  eexists. unfold mbind, prog_bind.
  destruct (buf_args_sep_open client_args (s <| sv_log ::= λ l, l ++ [LogRequest (cstr (open_req name oflag ++ rest)) uid] |>)
    name oflag rest Hg Ho) as [H _].
  by rewrite (H Hl).
Qed.

(** ** The loop *)

Context (Hnew : ∀ s, sv_fds s !! newfd_of s = None) (lfd : Z) (si : select_in).
Context (Hin : ∀ fd b, fd ∈ si_rset si → si_read si fd = IoOk b → common_input b).

Lemma common_req fd b rest uid s ch : fd ∈ si_rset si → si_read si fd = IoOk b → b ≠ [] →
  sv_chans s !! fd = Some ch → fmt_ok s →
  wp (handle_request fsopen newfd_of strerror mem (b ++ rest) (Z.of_nat (length b)) fd uid) s (λ _ s', kept_fmt fd s s').
Proof. intros Hfd Hr Hb Ech Hf. eapply common_request_wp; eauto. Qed.

Lemma d_serve_same i fd s : fd ∈ si_rset si →
  same_run (d_serve fsopen newfd_of strerror mem true si i fd s) (select_serve fsopen newfd_of strerror mem si i fd s).
Proof.
  intros Hfd. unfold d_serve, select_serve. destruct (si_read si fd) as [e|b] eqn:Er; [done|].
  pose proof (Hin fd b Hfd Er) as Hc. destruct b as [|x b].
  - apply same_bind; [apply same_refl|]. intros c t. apply same_bind; [apply same_refl|]. intros _ t1.
    apply same_bind; [apply d_del_same|]. intros _ t2. apply same_refl.
  - unfold read_into. rewrite !bind_modify.
    unfold client_at. set (s1 := s <| sv_buf ::= _ |>). unfold mbind, prog_bind.
    destruct (sv_client s1 !! i) as [c|]; [|done]. by apply d_request_same.
Qed.

(** The count of select only ends the walk when nobody is left. *)
Lemma d_clients_same k : ∀ i n s, loop_inv lfd s → Z.of_nat (i + k) <= sv_maxi s + 1 →
  Z.of_nat (length (ready_from si (sv_client s) k i)) <= n →
  same_run (d_clients fsopen newfd_of strerror mem true si k i n s)
    (select_clients fsopen newfd_of strerror mem si k i s).
Proof.
  induction k as [|k IH]; intros i n s HI Hk Hn; [done|]. cbn [d_clients].
  destruct (Z.eqb_spec n 0) as [->|Hn0].
  { destruct (select_clients_spec fsopen newfd_of strerror mem lfd si common_req (S k) i s HI Hk) as [-> _].
    destruct (ready_from si (sv_client s) (S k) i); [done|]. simpl in Hn. lia. }
  pose proof (li_maxi lfd s HI) as Hm.
  destruct (sv_client s !! i) as [c|] eqn:Hi; [|apply lookup_ge_None in Hi; lia].
  assert (Hat : client_at i s = Done c s) by (unfold client_at; by rewrite Hi).
  cbn [select_clients]. rewrite !(bind_done _ _ _ _ _ Hat). cbn [ready_from] in Hn. rewrite Hi in Hn.
  destruct (Z.ltb_spec (cl_fd c) 0) as [Hneg|Hpos]; cbn [orb] in *.
  { rewrite bind_ret. apply IH; [done|lia|done]. }
  destruct (decide (cl_fd c ∈ si_rset si)) as [Hr|Hr].
  - rewrite bool_decide_true in * by done. cbn [negb length] in *.
    eapply same_bind_wp; [by apply d_serve_same|by eapply (select_serve_wp fsopen newfd_of strerror mem lfd si common_req s i c)|].
    intros _ t [HI' (Hkeep & _ & Hmi)]. apply IH; [done|rewrite Hmi; lia|].
    rewrite (ready_from_ext si (sv_client s)); [lia|]. intros j Hj. apply Hkeep. lia.
  - rewrite bool_decide_false in * by done. cbn [negb] in *. rewrite bind_ret. apply IH; [done|lia|done].
Qed.

(** At most as many clients are ready as select reports. *)
Lemma ready_bound k i s : loop_inv lfd s → (length (ready_from si (sv_client s) k i) <= size (si_rset si))%nat.
Proof.
  intros HI. rewrite <- (length_fmap snd), <- (size_list_to_set (C := gset Z)) by (by eapply nodup_ready).
  apply subseteq_size. intros fd. rewrite elem_of_list_to_set, list_elem_of_fmap.
  intros ([j fd'] & -> & Hj). by apply (elem_ready si s) in Hj as (_ & _ & _ & ?).
Qed.
End daemon.

(** C37: the server of ipc2/open_server against that of ipc2/opend. In a round in which
    the clients that are ready have closed, or sent a request of csopen whose name and
    flags have 17 characters or more, for a file that can be opened or for which the
    reason has no percent sign (opend uses it as a format), both do the same, though the
    daemon's loop stops at the count select has reported; they differ in the message
    with which they end when a call fails. On a shorter request the daemon's behaviour
    is undefined: buf_args of ipc2/open_server allocates strlen(buf) + 9 bytes for four
    pointers. So it is on a request without its NUL: snprintf is given a size_t for '*'. *)
Theorem daemon_loop fsopen newfd_of strerror mem lfd si s : (∀ s, sv_fds s !! newfd_of s = None) → loop_inv lfd s →
  ((∀ fd b, fd ∈ si_rset si → si_read si fd = IoOk b → common_input fsopen strerror b) →
    same_run (d_round fsopen newfd_of strerror mem true lfd (IoOk (Z.of_nat (size (si_rset si)))) si s)
      (select_round fsopen newfd_of strerror mem lfd si s)) ∧
  (∀ i c name oflag, sv_client s !! i = Some c → si_read si (cl_fd c) = IoOk (open_req name oflag) →
    good_name name → 0 <= oflag → (length name + length (dec oflag) < 17)%nat →
    ∃ t, d_serve fsopen newfd_of strerror mem true si i (cl_fd c) s = Undef t) ∧
  (∀ i c b x, sv_client s !! i = Some c → si_read si (cl_fd c) = IoOk b → last b = Some x → x ≠ NUL →
    ∃ t, d_serve fsopen newfd_of strerror mem true si i (cl_fd c) s = Undef t).
Proof.
  intros Hnew HI. split; [|split].
  - intros Hin. pose proof (li_maxi lfd s HI) as Hm. unfold d_round, select_round.
    destruct (decide (lfd ∈ si_rset si)); [apply d_accept_same|]. rewrite !bind_gets.
    apply (d_clients_same fsopen newfd_of strerror mem Hnew lfd si Hin); [done|lia|].
    pose proof (ready_bound lfd si (Z.to_nat (sv_maxi s + 1)) 0 s HI). lia.
  - intros i c name oflag Hi Hr Hg Ho Hl. unfold d_serve. rewrite Hr.
    destruct (open_req name oflag) as [|x b] eqn:Eb.
    { by rewrite open_req_split in Eb; destruct (req_text name oflag). }
    rewrite <- Eb. unfold read_into. rewrite bind_modify. unfold client_at. set (s1 := s <| sv_buf ::= _ |>).
    destruct (d_request_short fsopen newfd_of strerror mem name oflag
      (drop (length (open_req name oflag)) (sv_buf s)) (cl_fd c) (cl_uid c) s1 Hg Ho Hl) as [t Ht].
    exists t. unfold mbind at 1, prog_bind at 1. change (sv_client s1) with (sv_client s). rewrite Hi. exact Ht.
  - intros i c b x Hi Hr Hl Hx. unfold d_serve. rewrite Hr. destruct b as [|y b]; [done|].
    unfold read_into. rewrite bind_modify. set (s1 := s <| sv_buf ::= _ |>). eexists.
    erewrite bind_done by (unfold client_at; change (sv_client s1) with (sv_client s); rewrite Hi; reflexivity).
    rewrite bind_gets. unfold d_handle_request.
    change (sv_buf s1) with ((y :: b) ++ drop (length (y :: b)) (sv_buf s)).
    rewrite (last_at _ _ x Hl), decide_True by done. reflexivity.
Qed.

(** The request for a long name is served as by ipc2/opend, one for a short name is not. *)
Lemma daemon_loop_witness :
  same_run
    (d_round (λ _ _, IoOk tt) next_fd (λ _, []) true true 3 (IoOk 1) (OpenProps.reads (open_req (str "/etc/ssh/sshd_config") 0)) one_client)
    (select_round (λ _ _, IoOk tt) next_fd (λ _, []) true 3 (OpenProps.reads (open_req (str "/etc/ssh/sshd_config") 0)) one_client) ∧
  ∃ t, d_serve (λ _ _, IoOk tt) next_fd (λ _, []) true true (OpenProps.reads (open_req (str "/etc/passwd") 0)) 0 4 one_client = Undef t.
Proof.
  split.
  - destruct (daemon_loop (λ _ _, IoOk tt) next_fd (λ _, []) true 3
      (OpenProps.reads (open_req (str "/etc/ssh/sshd_config") 0)) one_client) as [H _];
      [apply next_fd_fresh|apply one_client_inv|].
    apply H. intros fd b _ [= <-]. right. exists (str "/etc/ssh/sshd_config"), 0.
    split; [reflexivity|]. split; [|split; [lia|split; [vm_compute; lia|by intros e]]].
    split_and!; [done|by repeat constructor|no_nul_const].
  - destruct (daemon_loop (λ _ _, IoOk tt) next_fd (λ _, []) true 3
      (OpenProps.reads (open_req (str "/etc/passwd") 0)) one_client) as (_ & H & _);
      [apply next_fd_fresh|apply one_client_inv|].
    apply (H 0%nat (Client 4 7) (str "/etc/passwd") 0); [reflexivity|reflexivity|apply passwd_good|lia|vm_compute; lia].
Defined.
