(* ===== verification/Fmemopen.v ===== *)
(** * Memory streams: fmemopen of exercises/fmemopen.c.

    The stream's structure is a record; [ms_buf] is the memory it points to, of
    [ms_rsize] bytes.  The callbacks keep the widths of the source: int lengths and
    offsets, size_t positions.  The state of fmemopen itself is the number of blocks
    of memory it has allocated. *)
From Stdlib Require Import Ascii ZArith Lia.
From stdpp Require Import base strings gmap option list.
From S2P Require Import Prelude CStr PosixFile Sock.

Record memstream := MS { ms_buf : bytes; ms_rsize : Z; ms_vsize : Z; ms_curpos : Z; ms_flags : Z }.
#[export] Instance memstream_rebuild : Rebuild memstream := λ m,
  MS (ms_buf m) (ms_rsize m) (ms_vsize m) (ms_curpos m) (ms_flags m).

Definition MS_READ : Z := 1.
Definition MS_WRITE : Z := 2.
Definition MS_APPEND : Z := 4.
Definition MS_TRUNCATE : Z := 8.
Definition MS_MYBUF : Z := 16.

Definition EBADF : Z := 9.
Definition EINVAL : Z := 22.
Definition ENOMEM : Z := 12.

(** [flags & mask] as a condition. *)
Definition has (flags mask : Z) : bool := negb (Z.land flags mask =? 0).

(** ** Opening *)

(** The loop of type_to_flags; 0 is the error. *)
Fixpoint type_flags (flags : Z) (cp : bytes) : Z :=
  match cp with
  | [] => flags
  | c :: cp' =>
      if decide (c = "r"%char) then
        if negb (flags =? 0) then 0 else type_flags (Z.lor flags MS_READ) cp'
      else if decide (c = "w"%char) then
        if negb (flags =? 0) then 0 else type_flags (Z.lor flags (Z.lor MS_WRITE MS_TRUNCATE)) cp'
      else if decide (c = "a"%char) then
        if negb (flags =? 0) then 0 else type_flags (Z.lor flags MS_APPEND) cp'
      else if decide (c = "+"%char) then
        if flags =? 0 then 0 else type_flags (Z.lor flags (Z.lor MS_READ MS_WRITE)) cp'
      else if decide (c = "b"%char) then
        if flags =? 0 then 0 else type_flags flags cp'
      else 0
  end.
Definition type_to_flags (type : bytes) : Z := type_flags 0 (cstr type).

(** The number of bytes before the first NUL among the first [len]. *)
Fixpoint find_end_from (n : nat) (buf : bytes) (off : Z) : Z :=
  match n, buf with
  | O, _ | _, [] => off
  | S n', c :: buf' => if decide (c = NUL) then off else find_end_from n' buf' (off + 1)
  end.
Definition find_end (buf : bytes) (len : Z) : Z := find_end_from (Z.to_nat len) buf 0.

Definition malloc (ok : bool) : prog Z bool := if ok then modify Z.succ ;; mret true else mret false.
Definition free1 : prog Z unit := modify Z.pred.

(** [buf]: the caller's buffer, or NULL; [mem1], [mem2]: the two mallocs; [junk]: what
    the second one returns; [funopen]: the result of funopen. *)
Definition fmemopen (buf : option bytes) (size : Z) (type : bytes) (mem1 mem2 : bool) (junk : bytes)
    (funopen : iores unit) : prog Z (iores memstream) :=
  if size =? 0 then mret (IoErr EINVAL)
  else
    m1 ← malloc mem1;
    if negb (m1 : bool) then mret (IoErr ENOMEM)
    else
      let flags := type_to_flags type in
      if flags =? 0 then free1 ;; mret (IoErr EINVAL)
      else
        r ← match buf with
            | None =>
                if negb (Z.land flags (Z.lor MS_READ MS_WRITE) =? Z.lor MS_READ MS_WRITE) then
                  free1 ;; mret (IoErr EINVAL)
                else
                  m2 ← malloc mem2;
                  if negb (m2 : bool) then free1 ;; mret (IoErr ENOMEM)
                  else mret (IoOk (MS junk size 0 0 (Z.lor flags MS_MYBUF)))
            | Some b =>
                mret (IoOk (MS b size 0 (if has flags MS_APPEND then find_end b size else 0) flags))
            end;
        match r with
        | IoErr e => mret (IoErr e)
        | IoOk ms =>
            let vsize :=
              if has (ms_flags ms) MS_APPEND then ms_curpos ms
              else if has (ms_flags ms) MS_TRUNCATE then 0
              else size in
            let ms := ms <| ms_vsize := vsize |> in
            match funopen with
            | IoErr e =>
                (if has (ms_flags ms) MS_MYBUF then free1 else mret tt) ;;
                free1 ;;
                mret (IoErr e)
            | IoOk _ => mret (IoOk ms)
            end
        end.

(** ** The callbacks *)

(** MIN(len, n) for an int and a size_t, stored in an int. *)
Definition min_int (len n : Z) : Z :=
  wrap_s 32 (if wrap_u 64 len <? n then wrap_u 64 len else n).

Definition mstream_read (len : Z) : prog memstream (iores bytes) :=
  ms ← get;
  if negb (has (ms_flags ms) MS_READ) then mret (IoErr EBADF)
  else if ms_vsize ms <=? ms_curpos ms then mret (IoOk [])
  else
    let nr := min_int len (wrap_u 64 (ms_vsize ms - ms_curpos ms)) in
    defined ((0 <=? nr) && (ms_curpos ms + nr <=? Z.of_nat (length (ms_buf ms)))) ;;
    modify (λ ms, ms <| ms_curpos := ms_curpos ms + nr |>) ;;
    mret (IoOk (slice (Z.to_nat (ms_curpos ms)) (Z.to_nat nr) (ms_buf ms))).

(** A store into the buffer. *)
Definition ms_store (off : Z) (b : bytes) : prog memstream unit :=
  ms ← get;
  defined ((0 <=? off) && (off + Z.of_nat (length b) <=? Z.of_nat (length (ms_buf ms)))) ;;
  modify (λ ms, ms <| ms_buf := put_at (ms_buf ms) (Z.to_nat off) b |>).

(** The bytes written are [buf], [len] of them. *)
Definition mstream_write (buf : bytes) (len : Z) : prog memstream (iores Z) :=
  ms ← get;
  if negb (has (ms_flags ms) (Z.lor MS_APPEND MS_WRITE)) then mret (IoErr EBADF)
  else
    let off := wrap_s 32 (if has (ms_flags ms) MS_APPEND then ms_vsize ms else ms_curpos ms) in
    let nw := min_int len (wrap_u 64 (ms_rsize ms - off)) in
    defined ((0 <=? nw) && (nw <=? Z.of_nat (length buf))) ;;
    ms_store off (take (Z.to_nat nw) buf) ;;
    modify (λ ms, ms <| ms_curpos := off + nw |>) ;;
    ms ← get;
    (if ms_vsize ms <? ms_curpos ms then
       modify (λ ms, ms <| ms_vsize := ms_curpos ms |>) ;;
       if (Z.land (ms_flags ms) (Z.lor MS_READ MS_WRITE) =? Z.lor MS_READ MS_WRITE) && (ms_curpos ms <? ms_rsize ms)
       then ms_store (ms_curpos ms) [NUL] else mret tt
     else mret tt) ;;
    (if has (ms_flags ms) (Z.lor MS_WRITE MS_APPEND) && negb (has (ms_flags ms) MS_READ) then
       if ms_curpos ms <? ms_rsize ms then ms_store (ms_curpos ms) [NUL]
       else ms_store (ms_rsize ms - 1) [NUL]
     else mret tt) ;;
    mret (IoOk nw).

Definition mstream_seek (pos : Z) (wh : whence) : prog memstream (iores Z) :=
  ms ← get;
  let off := wrap_s 32 match wh with
                       | SEEK_SET => pos
                       | SEEK_END => ms_vsize ms + pos
                       | SEEK_CUR => ms_curpos ms + pos
                       end in
  if (off <? 0) || (ms_vsize ms <? off) then mret (IoErr EINVAL)
  else modify (λ ms, ms <| ms_curpos := off |>) ;; mret (IoOk off).

Definition mstream_close (ms : memstream) : prog Z Z :=
  (if has (ms_flags ms) MS_MYBUF then free1 else mret tt) ;;
  free1 ;;
  mret 0.
