(* ===== verification/FmemProps.v ===== *)
(** * Properties of the memory streams (exercises/fmemopen.c). *)
From Stdlib Require Import Ascii ZArith Lia.
From stdpp Require Import base strings gmap option list.
From S2P Require Import Prelude CStr PosixFile Sock Endian Fmemopen.

(** ** The stream as a file of bounded size *)

Record stream := Str { st_data : bytes; st_pos : nat; st_cap : nat; st_rd : bool; st_wr : bool; st_app : bool }.

Definition s_read (len : nat) (s : stream) : iores bytes * stream :=
  if negb (st_rd s) then (IoErr EBADF, s)
  else
    let n := Nat.min len (length (st_data s) - st_pos s) in
    (IoOk (slice (st_pos s) n (st_data s)),
     Str (st_data s) (st_pos s + n) (st_cap s) (st_rd s) (st_wr s) (st_app s)).

(** What is written replaces or extends the contents, as far as the buffer goes; a stream
    that cannot be read gets a NUL behind it, or in the last place of the buffer. *)
Definition s_write (b : bytes) (s : stream) : iores Z * stream :=
  if negb (st_app s || st_wr s) then (IoErr EBADF, s)
  else
    let start := if st_app s then length (st_data s) else st_pos s in
    let n := Nat.min (length b) (st_cap s - start) in
    let d := take start (st_data s) ++ take n b ++ drop (start + n) (st_data s) in
    let d := if st_rd s then d
             else if (start + n <? st_cap s)%nat then <[(start + n)%nat := NUL]> d
             else <[(st_cap s - 1)%nat := NUL]> d in
    (IoOk (Z.of_nat n), Str d (start + n) (st_cap s) (st_rd s) (st_wr s) (st_app s)).

Definition s_seek (pos : Z) (wh : whence) (s : stream) : iores Z * stream :=
  let off := match wh with
             | SEEK_SET => pos
             | SEEK_END => Z.of_nat (length (st_data s)) + pos
             | SEEK_CUR => Z.of_nat (st_pos s) + pos
             end in
  if (off <? 0) || (Z.of_nat (length (st_data s)) <? off) then (IoErr EINVAL, s)
  else (IoOk off, Str (st_data s) (Z.to_nat off) (st_cap s) (st_rd s) (st_wr s) (st_app s)).

Definition abs (m : memstream) : stream :=
  Str (take (Z.to_nat (ms_vsize m)) (ms_buf m)) (Z.to_nat (ms_curpos m)) (Z.to_nat (ms_rsize m))
    (has (ms_flags m) MS_READ) (has (ms_flags m) MS_WRITE) (has (ms_flags m) MS_APPEND).

(** The flags fmemopen gives a stream, without and with MS_MYBUF. *)
Definition modes : list Z := [1; 10; 4; 3; 11; 7; 19; 27; 23].

Record ms_ok (m : memstream) : Prop := {
  mo_len : Z.of_nat (length (ms_buf m)) = ms_rsize m;
  mo_size : 0 < ms_rsize m < 2 ^ 31;
  mo_v : 0 <= ms_vsize m <= ms_rsize m;
  mo_pos : 0 <= ms_curpos m <= ms_vsize m;
  mo_mode : ms_flags m ∈ modes }.

Lemma mode_facts f : f ∈ modes →
  has f (Z.lor MS_APPEND MS_WRITE) = has f MS_APPEND || has f MS_WRITE ∧
  has f (Z.lor MS_WRITE MS_APPEND) = has f MS_APPEND || has f MS_WRITE ∧
  (Z.land f (Z.lor MS_READ MS_WRITE) =? Z.lor MS_READ MS_WRITE) = has f MS_READ && has f MS_WRITE.
Proof.
  intros H. unfold modes in H. repeat (apply elem_of_cons in H as [->|H]; [vm_compute; done|]).
  by apply elem_of_nil in H.
Qed.

Lemma min_int_nat len n : 0 <= len < 2 ^ 31 → 0 <= n < 2 ^ 31 → min_int len n = Z.min len n.
Proof.
  intros Hl Hn. unfold min_int, wrap_u. rewrite !Z.mod_small by lia.
  destruct (Z.ltb_spec len n); rewrite wrap_s_id by lia; lia.
Qed.

(** ** Stores into the buffer *)

Lemma put_at_take b off x : (off + length x <= length b)%nat →
  put_at b off x = take off b ++ x ++ drop (off + length x) b.
Proof.
  intros H. rewrite <- (take_drop off b) at 1.
  rewrite <- (take_drop (length x) (drop off b)), drop_drop.
  rewrite put_at_split; [done|by rewrite length_take, Nat.min_l by lia|].
  rewrite length_take, length_drop. lia.
Qed.

Lemma put_at_insert b off c : (off < length b)%nat → put_at b off [c] = <[off := c]> b.
Proof.
  intros H. rewrite put_at_take by (simpl; lia). rewrite insert_take_drop by done. simpl.
  by rewrite Nat.add_1_r.
Qed.

Lemma take_insert_any {A} (l : list A) n i x : take n (<[i := x]> l) = <[i := x]> (take n l).
Proof.
  destruct (decide (i < n)%nat).
  - by rewrite take_insert_lt.
  - rewrite take_insert_ge by lia. symmetry. apply list_insert_ge. rewrite length_take. lia.
Qed.

Lemma slice_in {A} (b : list A) p n v : (p + n <= v)%nat → slice p n (take v b) = slice p n b.
Proof. intros H. unfold slice. by rewrite !take_drop_commute, take_take, Nat.min_l by lia. Qed.

(** The contents after a write of [x] at [off], where the contents were [v] bytes. *)
Lemma take_write b off x v : (off <= v)%nat → (v <= length b)%nat → (off + length x <= length b)%nat →
  take (Nat.max v (off + length x)) (put_at b off x) =
  take off (take v b) ++ x ++ drop (off + length x) (take v b).
Proof.
  intros H1 H2 H3. rewrite put_at_take by done. rewrite take_take, Nat.min_l by done.
  assert (Hl : length (take off b) = off) by (rewrite length_take; lia).
  rewrite !take_app, Hl, (take_ge (take off b)) by lia. f_equal.
  rewrite (take_ge x) by lia. f_equal. rewrite skipn_firstn_comm. f_equal. lia.
Qed.

Lemma ms_store_ok m off b : 0 <= off → off + Z.of_nat (length b) <= Z.of_nat (length (ms_buf m)) →
  ms_store off b m = Done tt (m <| ms_buf := put_at (ms_buf m) (Z.to_nat off) b |>).
Proof.
  intros H1 H2. unfold ms_store. erewrite (bind_done get) by reflexivity.
  rewrite bind_defined_true; [done|]. rewrite (proj2 (Z.leb_le _ _)), (proj2 (Z.leb_le _ _)) by lia. done.
Qed.

(** ** The callbacks *)

Lemma mstream_read_ok m len : ms_ok m → 0 <= len < 2 ^ 31 →
  ∃ m', mstream_read len m = Done (s_read (Z.to_nat len) (abs m)).1 m' ∧
    abs m' = (s_read (Z.to_nat len) (abs m)).2 ∧ ms_ok m' ∧ ms_flags m' = ms_flags m.
Proof.
  intros [Hl Hs Hv Hp Hm] Hlen. unfold mstream_read, s_read. erewrite (bind_done get) by reflexivity.
  simpl. destruct (has (ms_flags m) MS_READ) eqn:Er; cbn [negb]; [|by exists m].
  assert (Hd : length (take (Z.to_nat (ms_vsize m)) (ms_buf m)) = Z.to_nat (ms_vsize m)) by (rewrite length_take; lia).
  rewrite Hd. destruct (Z.leb_spec (ms_vsize m) (ms_curpos m)) as [Hge|Hlt].
  { exists m. replace (Z.to_nat (ms_vsize m) - Z.to_nat (ms_curpos m))%nat with O by lia.
    rewrite Nat.min_0_r, Nat.add_0_r. split; [done|]. split; [by unfold abs; rewrite Er|by split]. }
  unfold wrap_u. rewrite !Z.mod_small by lia. rewrite min_int_nat by lia.
  remember (Z.min len (ms_vsize m - ms_curpos m)) as nr eqn:Enr.
  rewrite bind_defined_true.
  2:{ rewrite (proj2 (Z.leb_le _ _)), (proj2 (Z.leb_le _ _)) by lia. done. }
  rewrite bind_modify.
  assert (Hn : (Z.to_nat len `min` (Z.to_nat (ms_vsize m) - Z.to_nat (ms_curpos m)))%nat = Z.to_nat nr) by lia.
  rewrite Hn. eexists. split; [|split; [|split]].
  - cbn [fst]. rewrite slice_in by lia. reflexivity.
  - unfold abs. simpl. rewrite Er. f_equal. lia.
  - split; simpl; try done. lia.
  - done.
Qed.

Lemma mstream_seek_ok m pos wh : ms_ok m → - 2 ^ 31 <= pos → pos + ms_rsize m < 2 ^ 31 →
  ∃ m', mstream_seek pos wh m = Done (s_seek pos wh (abs m)).1 m' ∧
    abs m' = (s_seek pos wh (abs m)).2 ∧ ms_ok m' ∧ ms_flags m' = ms_flags m.
Proof.
  intros [Hl Hs Hv Hp Hm] Hlo Hhi. unfold mstream_seek, s_seek. erewrite (bind_done get) by reflexivity.
  simpl. assert (Hd : length (take (Z.to_nat (ms_vsize m)) (ms_buf m)) = Z.to_nat (ms_vsize m)) by (rewrite length_take; lia).
  rewrite Hd, !Z2Nat.id by lia. rewrite wrap_s_id by (destruct wh; lia).
  remember (match wh with SEEK_SET => pos | SEEK_CUR => ms_curpos m + pos | SEEK_END => ms_vsize m + pos end) as off eqn:Eoff.
  destruct (Z.ltb_spec off 0); cbn [orb]; [by exists m|].
  destruct (Z.ltb_spec (ms_vsize m) off); [by exists m|].
  eexists. split; [reflexivity|]. split; [done|]. split; [by split|done].
Qed.

(** A store of a NUL as an update of the contents. *)
Lemma abs_nul m off : ms_ok m → 0 <= off < ms_rsize m →
  ∃ m', ms_store off [NUL] m = Done tt m' ∧ ms_ok m' ∧ ms_curpos m' = ms_curpos m ∧ ms_flags m' = ms_flags m ∧
    ms_vsize m' = ms_vsize m ∧ ms_rsize m' = ms_rsize m ∧
    take (Z.to_nat (ms_vsize m)) (ms_buf m') = <[Z.to_nat off := NUL]> (take (Z.to_nat (ms_vsize m)) (ms_buf m)).
Proof.
  intros [Hl Hs Hv Hp Hm] Hoff. rewrite ms_store_ok by (simpl; lia).
  rewrite put_at_insert by lia. eexists. split; [reflexivity|]. simpl. split_and!; try done.
  - split; simpl; try done. by rewrite length_insert.
  - apply take_insert_any.
Qed.

(** The first part of mstream_write: the bytes and the new sizes. *)
Lemma write_bytes m b off nw : ms_ok m → 0 <= off <= ms_vsize m → nw = Z.min (Z.of_nat (length b)) (ms_rsize m - off) →
  let m1 := m <| ms_buf := put_at (ms_buf m) (Z.to_nat off) (take (Z.to_nat nw) b) |>
              <| ms_curpos := off + nw |> <| ms_vsize := Z.max (ms_vsize m) (off + nw) |> in
  ms_ok m1 ∧ take (Z.to_nat (ms_vsize m1)) (ms_buf m1) =
    take (Z.to_nat off) (st_data (abs m)) ++ take (Z.to_nat nw) b ++ drop (Z.to_nat (off + nw)) (st_data (abs m)).
Proof.
  intros [Hl Hs Hv Hp Hm] Hoff Hnw m1.
  assert (Hx : length (take (Z.to_nat nw) b) = Z.to_nat nw) by (rewrite length_take; lia). split.
  - split; simpl; try done; try lia. unfold put_at. rewrite length_blit, Hx. lia.
  - simpl. pose proof (take_write (ms_buf m) (Z.to_nat off) (take (Z.to_nat nw) b) (Z.to_nat (ms_vsize m))) as H.
    rewrite Hx in H. specialize (H ltac:(lia) ltac:(lia) ltac:(lia)).
    replace (Z.to_nat (Z.max (ms_vsize m) (off + nw))) with (Nat.max (Z.to_nat (ms_vsize m)) (Z.to_nat off + Z.to_nat nw)) by lia.
    replace (Z.to_nat (off + nw)) with (Z.to_nat off + Z.to_nat nw)%nat by lia. exact H.
Qed.

(** The two stores of a NUL at the end of mstream_write; [m1] is the stream after the
    bytes and the sizes. *)
Definition same_but_buf (m m' : memstream) : Prop :=
  ms_ok m' ∧ ms_curpos m' = ms_curpos m ∧ ms_flags m' = ms_flags m ∧ ms_vsize m' = ms_vsize m ∧ ms_rsize m' = ms_rsize m.

Lemma write_first m (m1 := m <| ms_vsize := Z.max (ms_vsize m) (ms_curpos m) |>) : ms_ok m1 →
  ∃ m2, (if ms_vsize m <? ms_curpos m then
           modify (λ ms, ms <| ms_vsize := ms_curpos ms |>) ;;
           if (Z.land (ms_flags m) (Z.lor MS_READ MS_WRITE) =? Z.lor MS_READ MS_WRITE) && (ms_curpos m <? ms_rsize m)
           then ms_store (ms_curpos m) [NUL] else mret tt
         else mret tt) m = Done tt m2 ∧ same_but_buf m1 m2 ∧
    take (Z.to_nat (ms_vsize m1)) (ms_buf m2) = take (Z.to_nat (ms_vsize m1)) (ms_buf m1).
Proof.
  intros H1. pose proof (mo_v _ H1) as Hv. pose proof (mo_pos _ H1) as Hp. simpl in Hv, Hp.
  destruct (Z.ltb_spec (ms_vsize m) (ms_curpos m)) as [Hlt|Hge].
  - rewrite bind_modify.
    assert (E : m <| ms_vsize := ms_curpos m |> = m1) by (unfold m1; destruct m; simpl in *; f_equal; lia).
    rewrite E. destruct (_ && _) eqn:Ec.
    + apply andb_true_iff in Ec as [_ Ec]. apply Z.ltb_lt in Ec.
      destruct (abs_nul m1 (ms_curpos m) H1) as (m2 & Es & Hok & ? & ? & ? & ? & Ht); [simpl; lia|].
      exists m2. split_and!; try done. rewrite Ht. apply list_insert_ge. rewrite length_take. simpl. lia.
    + by exists m1.
  - exists m1. split; [|by split]. unfold mret, prog_ret. f_equal. unfold m1. destruct m. simpl in *. f_equal. lia.
Qed.

Lemma write_second m : ms_ok m → has (ms_flags m) MS_APPEND || has (ms_flags m) MS_WRITE = true →
  ∃ m2, (if has (ms_flags m) (Z.lor MS_WRITE MS_APPEND) && negb (has (ms_flags m) MS_READ) then
           if ms_curpos m <? ms_rsize m then ms_store (ms_curpos m) [NUL]
           else ms_store (ms_rsize m - 1) [NUL]
         else mret tt) m = Done tt m2 ∧ same_but_buf m m2 ∧
    take (Z.to_nat (ms_vsize m)) (ms_buf m2) =
      let d := take (Z.to_nat (ms_vsize m)) (ms_buf m) in
      if has (ms_flags m) MS_READ then d
      else if ms_curpos m <? ms_rsize m then <[Z.to_nat (ms_curpos m) := NUL]> d
      else <[Z.to_nat (ms_rsize m - 1) := NUL]> d.
Proof.
  intros HI Hw. pose proof HI as [Hl Hs Hv Hp Hm]. destruct (mode_facts _ Hm) as (_ & F2 & _). rewrite F2, Hw.
  destruct (has (ms_flags m) MS_READ); cbn [andb negb]; [by exists m|].
  destruct (Z.ltb_spec (ms_curpos m) (ms_rsize m)) as [Hlt|Hge].
  - destruct (abs_nul m (ms_curpos m) HI) as (m2 & Es & Hok & ? & ? & ? & ? & Ht); [lia|]. by exists m2.
  - destruct (abs_nul m (ms_rsize m - 1) HI) as (m2 & Es & Hok & ? & ? & ? & ? & Ht); [lia|]. by exists m2.
Qed.

Lemma mstream_write_ok m b : ms_ok m → Z.of_nat (length b) < 2 ^ 31 →
  ∃ m', mstream_write b (Z.of_nat (length b)) m = Done (s_write b (abs m)).1 m' ∧
    abs m' = (s_write b (abs m)).2 ∧ ms_ok m' ∧ ms_flags m' = ms_flags m.
Proof.
  intros HI Hlen. pose proof HI as [Hl Hs Hv Hp Hm]. destruct (mode_facts _ Hm) as (F1 & _).
  unfold mstream_write, s_write. erewrite (bind_done get) by reflexivity. rewrite F1.
  cbn [abs st_app st_wr st_rd st_cap st_pos].
  destruct (negb (has (ms_flags m) MS_APPEND || has (ms_flags m) MS_WRITE)) eqn:Em; [by exists m|].
  apply negb_false_iff in Em.
  remember (if has (ms_flags m) MS_APPEND then ms_vsize m else ms_curpos m) as off eqn:Eoff.
  assert (Hoff : 0 <= off <= ms_vsize m) by (destruct (has (ms_flags m) MS_APPEND); lia).
  rewrite wrap_s_id by lia. unfold wrap_u. rewrite Z.mod_small by lia. rewrite min_int_nat by lia.
  remember (Z.min (Z.of_nat (length b)) (ms_rsize m - off)) as nw eqn:Enw.
  assert (Hx : length (take (Z.to_nat nw) b) = Z.to_nat nw) by (rewrite length_take; lia).
  rewrite bind_defined_true by (rewrite (proj2 (Z.leb_le _ _)), (proj2 (Z.leb_le _ _)) by lia; done).
  erewrite bind_done by (apply ms_store_ok; [lia|rewrite Hx; lia]). rewrite bind_modify.
  erewrite (bind_done get) by reflexivity.
  destruct (write_bytes m b off nw HI Hoff Enw) as [H1 Hdata].
  set (m0 := m <| ms_buf := put_at (ms_buf m) (Z.to_nat off) (take (Z.to_nat nw) b) |> <| ms_curpos := off + nw |>) in *.
  destruct (write_first m0 H1) as (m2 & E2 & (Hok2 & Hc2 & Hf2 & Hv2 & Hr2) & Ht2).
  erewrite bind_done by exact E2.
  change (ms_flags m0) with (ms_flags m) in *. change (ms_curpos m0) with (off + nw) in *. change (ms_rsize m0) with (ms_rsize m) in *.
  destruct (write_second m2 Hok2) as (m3 & E3 & (Hok3 & Hc3 & Hf3 & Hv3 & Hr3) & Ht3); [by rewrite Hf2|].
  simpl in Hc2, Hf2, Hr2, Hv2. rewrite Hc2, Hf2, Hr2 in E3.
  erewrite bind_done by exact E3. exists m3.
  assert (Hd : length (st_data (abs m)) = Z.to_nat (ms_vsize m)) by (simpl; rewrite length_take; lia).
  assert (Hst : (if has (ms_flags m) MS_APPEND then length (st_data (abs m)) else Z.to_nat (ms_curpos m)) = Z.to_nat off)
    by (rewrite Hd; destruct (has (ms_flags m) MS_APPEND); by subst off).
  change (take (Z.to_nat (ms_vsize m)) (ms_buf m)) with (st_data (abs m)). rewrite Hst.
  assert (Hn : (length b `min` (Z.to_nat (ms_rsize m) - Z.to_nat off))%nat = Z.to_nat nw) by lia. rewrite Hn.
  split_and!; [| |done|by rewrite Hf3, Hf2].
  - unfold mret, prog_ret. cbn [fst]. by rewrite Z2Nat.id by lia.
  - unfold abs. cbn [snd]. rewrite Hf3, Hf2, Hc3, Hc2, Hr3, Hr2, Hv3, Ht3. cbv zeta.
    rewrite Hv2, Hf2, Hc2, Hr2. simpl in Ht2. rewrite Ht2. simpl in Hdata. rewrite Hdata.
    rewrite !(Z2Nat.inj_add off nw), Z2Nat.inj_sub by lia.
    assert (Hlt : (Z.to_nat off + Z.to_nat nw <? Z.to_nat (ms_rsize m))%nat = (off + nw <? ms_rsize m)).
    { destruct (Z.ltb_spec (off + nw) (ms_rsize m)); [apply Nat.ltb_lt|apply Nat.ltb_ge]; lia. }
    by rewrite Hlt.
Qed.

(** ** Sequences of operations *)

Inductive mop := ORead (len : Z) | OWrite (b : bytes) | OSeek (pos : Z) (wh : whence).
Inductive mres := RData (r : iores bytes) | RNum (r : iores Z).

Definition run_op (o : mop) : prog memstream mres :=
  match o with
  | ORead len => r ← mstream_read len; mret (RData r)
  | OWrite b => r ← mstream_write b (Z.of_nat (length b)); mret (RNum r)
  | OSeek pos wh => r ← mstream_seek pos wh; mret (RNum r)
  end.
Fixpoint run_ops (ops : list mop) : prog memstream (list mres) :=
  match ops with
  | [] => mret []
  | o :: ops' => r ← run_op o; rs ← run_ops ops'; mret (r :: rs)
  end.

Definition s_op (o : mop) (s : stream) : mres * stream :=
  match o with
  | ORead len => let '(r, s') := s_read (Z.to_nat len) s in (RData r, s')
  | OWrite b => let '(r, s') := s_write b s in (RNum r, s')
  | OSeek pos wh => let '(r, s') := s_seek pos wh s in (RNum r, s')
  end.
Fixpoint s_ops (ops : list mop) (s : stream) : list mres * stream :=
  match ops with
  | [] => ([], s)
  | o :: ops' => let '(r, s1) := s_op o s in let '(rs, s2) := s_ops ops' s1 in (r :: rs, s2)
  end.

(** Lengths and offsets that stay within an int for a buffer of [size] bytes. *)
Definition op_ok (size : Z) (o : mop) : Prop :=
  match o with
  | ORead len => 0 <= len < 2 ^ 31
  | OWrite b => Z.of_nat (length b) < 2 ^ 31
  | OSeek pos _ => - 2 ^ 31 <= pos ∧ pos + size < 2 ^ 31
  end.

Lemma run_op_ok o m : ms_ok m → op_ok (ms_rsize m) o →
  ∃ m', run_op o m = Done (s_op o (abs m)).1 m' ∧ abs m' = (s_op o (abs m)).2 ∧ ms_ok m' ∧ ms_flags m' = ms_flags m.
Proof.
  intros HI Ho. destruct o as [len|b|pos wh]; simpl in Ho |- *.
  - destruct (mstream_read_ok m len HI Ho) as (m' & E & Ha & Hok & Hfl). erewrite bind_done by exact E.
    destruct (s_read _ _). by exists m'.
  - destruct (mstream_write_ok m b HI Ho) as (m' & E & Ha & Hok & Hfl). erewrite bind_done by exact E.
    destruct (s_write _ _). by exists m'.
  - destruct (mstream_seek_ok m pos wh HI (proj1 Ho) (proj2 Ho)) as (m' & E & Ha & Hok & Hfl).
    erewrite bind_done by exact E. destruct (s_seek _ _ _). by exists m'.
Qed.

Lemma s_op_cap o s : st_cap (s_op o s).2 = st_cap s.
Proof.
  destruct o; simpl; unfold s_read, s_write, s_seek; repeat case_match; simplify_eq; done.
Qed.

Lemma run_ops_ok ops : ∀ m, ms_ok m → Forall (op_ok (ms_rsize m)) ops →
  ∃ m', run_ops ops m = Done (s_ops ops (abs m)).1 m' ∧ abs m' = (s_ops ops (abs m)).2 ∧ ms_ok m' ∧ ms_flags m' = ms_flags m.
Proof.
  induction ops as [|o ops IH]; intros m HI Hops; [by exists m|].
  apply Forall_cons in Hops as [Ho Hops]. destruct (run_op_ok o m HI Ho) as (m1 & E & Ha & HI1 & Hf1).
  assert (Hr : ms_rsize m1 = ms_rsize m).
  { pose proof (s_op_cap o (abs m)) as H. rewrite <- Ha in H. simpl in H.
    pose proof (mo_size _ HI). pose proof (mo_size _ HI1). lia. }
  rewrite <- Hr in Hops. destruct (IH m1 HI1 Hops) as (m2 & E2 & Ha2 & HI2 & Hf2). rewrite Hf1 in Hf2.
  simpl. erewrite bind_done by exact E. erewrite bind_done by exact E2. rewrite Ha in E2, Ha2 |- *.
  destruct (s_op o (abs m)) as [r s1]. simpl in *. destruct (s_ops ops s1). by exists m2.
Qed.

(** ** Opening *)

Lemma type_flags_modes cp : ∀ f, f ∈ [0; 1; 10; 4; 3; 11; 7] → type_flags f cp ∈ [0; 1; 10; 4; 3; 11; 7].
Proof.
  induction cp as [|c cp IH]; intros f Hf; [done|]. simpl.
  repeat (apply elem_of_cons in Hf as [->|Hf]);
    [..|by apply elem_of_nil in Hf]; repeat case_decide; simpl; try apply IH; in_list.
Qed.

Lemma find_end_cstr n buf off : (n = length buf)%nat → find_end_from n buf off = off + Z.of_nat (length (cstr buf)).
Proof.
  intros ->. revert off. induction buf as [|c buf IH]; intros off; simpl; [lia|].
  destruct (decide (c = NUL)); simpl; [lia|]. rewrite IH. lia.
Qed.

Lemma cstr_length b : (length (cstr b) <= length b)%nat.
Proof. induction b as [|c b IH]; simpl; [done|]. destruct (decide (c = NUL)); simpl; lia. Qed.

Lemma cstr_prefix b : take (length (cstr b)) b = cstr b.
Proof. induction b as [|c b IH]; simpl; [done|]. destruct (decide (c = NUL)); simpl; [done|]. by rewrite IH. Qed.

(** The stream fmemopen gives for the flags [f] and the buffer [b]. *)
Definition s_open (f : Z) (b : bytes) : stream :=
  Str (if has f MS_APPEND then cstr b else if has f MS_TRUNCATE then [] else b)
      (if has f MS_APPEND then length (cstr b) else O) (length b) (has f MS_READ) (has f MS_WRITE) (has f MS_APPEND).

(** fmemopen on the caller's buffer. *)
Lemma fmemopen_some b size type m2 junk n (f := type_to_flags type) :
  Z.of_nat (length b) = size → 0 < size < 2 ^ 31 → f ≠ 0 →
  ∃ ms, fmemopen (Some b) size type true m2 junk (IoOk tt) n = Done (IoOk ms) (n + 1) ∧ ms_ok ms ∧
    abs ms = s_open f b ∧ ms_rsize ms = size ∧ has (ms_flags ms) MS_MYBUF = false.
Proof.
  intros Hl Hs Hf. assert (Hm : f ∈ [0; 1; 10; 4; 3; 11; 7]) by (apply type_flags_modes; by left).
  apply elem_of_cons in Hm as [|Hm]; [done|].
  assert (Hmodes : f ∈ modes) by (unfold modes; repeat (apply elem_of_cons in Hm as [->|Hm]; [in_list|]); by apply elem_of_nil in Hm).
  assert (Hmy : has f MS_MYBUF = false).
  { repeat (apply elem_of_cons in Hm as [->|Hm]; [done|]). by apply elem_of_nil in Hm. }
  pose proof (cstr_length b) as Hcl.
  assert (Hfe : find_end b size = Z.of_nat (length (cstr b))) by (unfold find_end; rewrite find_end_cstr by lia; lia).
  unfold fmemopen. rewrite (proj2 (Z.eqb_neq size 0)) by lia. erewrite bind_done by reflexivity. cbn [negb].
  fold f. rewrite (proj2 (Z.eqb_neq f 0)) by done.
  erewrite bind_done by reflexivity. eexists. split; [reflexivity|]. cbn [ms_flags ms_curpos update]. 
  rewrite Hfe. split; [|split; [|split]]; simpl; [|unfold abs, s_open; simpl|done|done].
  - split; simpl; try done; destruct (has f MS_APPEND), (has f MS_TRUNCATE); lia.
  - f_equal; [|destruct (has f MS_APPEND); lia|lia].
    destruct (has f MS_APPEND); [by rewrite Nat2Z.id, cstr_prefix|].
    destruct (has f MS_TRUNCATE); [done|]. apply take_ge. lia.
Qed.

(** A failure of fmemopen leaves no memory behind. *)
Lemma fmemopen_clean buf size type m1 m2 junk fo n e n' :
  fmemopen buf size type m1 m2 junk fo n = Done (IoErr e) n' → n' = n.
Proof.
  unfold fmemopen. destruct (size =? 0); [by intros [= _ <-]|].
  destruct m1; [|by intros [= _ <-]]. erewrite bind_done by reflexivity. cbn [negb].
  assert (Hm : type_to_flags type ∈ [0; 1; 10; 4; 3; 11; 7]) by (apply type_flags_modes; by left).
  destruct (type_to_flags type =? 0) eqn:E0; [intros [= _ <-]; lia|].
  repeat (apply elem_of_cons in Hm as [Hm|Hm]); [..|by apply elem_of_nil in Hm]; rewrite Hm in *; try done;
    destruct buf as [b|], m2, fo as [x|]; cbv -[Z.succ Z.pred]; intros H; try done; injection H as _ <-; lia.
Qed.

(** C21: the memory streams of fmemopen. (1) On a buffer of the caller, of less than 2 GiB, a
    mode that is not one of r, w, a with + and b behind it is refused, and otherwise the
    stream is a file of bounded size over the buffer: "r" starts with all of it, "w" with
    nothing, "a" behind the string in it. (2) Every sequence of reads, writes and seeks
    gives what that file gives ([s_ops]): nothing is read or written outside of the
    contents or the buffer, however long the writes. (3) Closing the stream, and every
    failure of fmemopen, frees what fmemopen has allocated. *)
Theorem fmemopen_stream b size type m2 junk n :
  Z.of_nat (length b) = size → 0 < size < 2 ^ 31 →
  (type_to_flags type = 0 → fmemopen (Some b) size type true m2 junk (IoOk tt) n = Done (IoErr EINVAL) n) ∧
  (type_to_flags type ≠ 0 → ∃ ms,
    fmemopen (Some b) size type true m2 junk (IoOk tt) n = Done (IoOk ms) (n + 1) ∧
    abs ms = s_open (type_to_flags type) b ∧
    (∀ ops, Forall (op_ok size) ops → ∃ ms',
      run_ops ops ms = Done (s_ops ops (abs ms)).1 ms' ∧ abs ms' = (s_ops ops (abs ms)).2 ∧
      mstream_close ms' (n + 1) = Done 0 n)) ∧
  (∀ buf size type m1 m2 junk fo n e n', fmemopen buf size type m1 m2 junk fo n = Done (IoErr e) n' → n' = n).
Proof.
  intros Hl Hs. split_and!.
  - intros H0. unfold fmemopen. rewrite (proj2 (Z.eqb_neq size 0)) by lia.
    erewrite bind_done by reflexivity. cbn [negb]. rewrite H0. cbn [Z.eqb].
    unfold free1. rewrite bind_modify. unfold mret, prog_ret. f_equal. lia.
  - intros Hf. destruct (fmemopen_some b size type m2 junk n Hl Hs Hf) as (ms & E & HI & Ha & Hr & Hmy).
    exists ms. split_and!; [done|done|]. intros ops Hops. rewrite <- Hr in Hops.
    destruct (run_ops_ok ops ms HI Hops) as (ms' & Er & Ha' & _ & Hf').
    exists ms'. split_and!; [done|done|]. unfold mstream_close. rewrite Hf', Hmy. cbn.
    unfold mret, prog_ret, mbind, prog_bind, free1, modify. f_equal. lia.
  - intros *. apply fmemopen_clean.
Qed.

(** "w+" on four bytes: five bytes are offered, four fit, and they are read back. *)
Lemma fmemopen_stream_witness : ∃ ms ms',
  fmemopen (Some (str "abcd")) 4 (str "w+") true true [] (IoOk tt) 0 = Done (IoOk ms) 1 ∧
  run_ops [OWrite (str "hello"); OSeek 0 SEEK_SET; ORead 9] ms =
    Done [RNum (IoOk 4); RNum (IoOk 0); RData (IoOk (str "hell"))] ms'.
Proof.
  destruct (fmemopen_stream (str "abcd") 4 (str "w+") true [] 0) as (_ & H & _); [done|lia|].
  destruct H as (ms & E & Ha & H); [by vm_compute|].
  destruct (H [OWrite (str "hello"); OSeek 0 SEEK_SET; ORead 9]) as (ms' & Er & _); [by repeat constructor|].
  exists ms, ms'. split; [exact E|]. rewrite Er, Ha. vm_compute. reflexivity.
Defined.
