(* ===== verification/Barrier.v ===== *)
(** * The parallel sort of threads/barrier.c.

    Eight threads sort a range of nums[] each and meet the main thread at a barrier;
    the main thread then merges the ranges into snums[].  heapsort(3) is a parameter.
    A thread's sort is one step: the ranges are disjoint.  The size of a range is a
    parameter too; in the program it is 1000000. *)
From Stdlib Require Import Ascii ZArith Lia.
From stdpp Require Import base strings gmap option list sorting.
From S2P Require Import Prelude CStr.

Definition NTHR : nat := 8.
Definition LONG_MAX : Z := 2 ^ 63 - 1.

Definition complong (l1 l2 : Z) : Z :=
  if l1 =? l2 then 0 else if l1 <? l2 then -1 else 1.

Section barrier.
Context (TNUM : nat) (heapsort : (Z → Z → Z) → list Z → list Z).
Definition NUMNUM : nat := (NTHR * TNUM)%nat.

(** ** merge *)

(** The locals of merge() and what it has written to snums[]. *)
Record mstate := MState { m_idx : list nat; m_min : option nat; m_out : list Z }.
#[global] Instance mstate_rebuild : Rebuild mstate := λ m, MState (m_idx m) (m_min m) (m_out m).

(** The inner loop, from [i] on with [n] rounds left; reading outside of nums[] or an
    uninitialised variable is undefined. *)
Fixpoint merge_pick (nums : list Z) (n i : nat) (num : Z) : prog mstate Z :=
  match n with
  | O => mret num
  | S n' =>
      m ← get;
      match m_idx m !! i with
      | None => undefined
      | Some k =>
          if (k <? (i + 1) * TNUM)%nat then
            match nums !! k with
            | None => undefined
            | Some x =>
                if x <? num then
                  modify (λ m, m <| m_min := Some i |>) ;;
                  merge_pick nums n' (S i) x
                else merge_pick nums n' (S i) num
            end
          else merge_pick nums n' (S i) num
      end
  end.

(** The outer loop: [n] numbers are left. *)
Fixpoint merge_loop (nums : list Z) (n : nat) : prog mstate unit :=
  match n with
  | O => mret tt
  | S n' =>
      merge_pick nums NTHR 0 LONG_MAX ;;
      m ← get;
      match m_min m ≫= (λ j, k ← m_idx m !! j; x ← nums !! k; Some (j, k, x)) with
      | None => undefined
      | Some (j, k, x) =>
          modify (λ m, m <| m_out ::= λ l, l ++ [x] |> <| m_idx := <[j := S k]> (m_idx m) |>) ;;
          merge_loop nums n'
      end
  end.

Definition merge (nums : list Z) : outcome mstate unit :=
  merge_loop nums NUMNUM (MState ((λ i, i * TNUM)%nat <$> seq 0 NTHR) None []).

(** ** The threads *)

(** The sort of thread [i] in thr_fn. *)
Definition sort_range (i : nat) (nums : list Z) : list Z :=
  take (i * TNUM) nums ++ heapsort complong (slice (i * TNUM) TNUM nums) ++ drop (i * TNUM + TNUM) nums.

Inductive tstate := TNone | TStart | TSorted | TWait | TDone.
#[global] Instance tstate_eq_dec : EqDecision tstate.
Proof. solve_decision. Defined.
Inductive main_at := MCreate (i : nat) | MWait | MMerge | MDone.

(** [bcount]: how many have called pthread_barrier_wait. *)
Record psys := PSys { nums : list Z; snums : list Z; bcount : nat; threads : list tstate; main : main_at }.
#[global] Instance psys_rebuild : Rebuild psys := λ s, PSys (nums s) (snums s) (bcount s) (threads s) (main s).

Definition psys_init (l : list Z) : psys := PSys l [] 0 (replicate NTHR TNone) (MCreate 0).

Inductive pstep : psys → psys → Prop :=
  | p_create s i : main s = MCreate i → (i < NTHR)%nat →
      pstep s (s <| threads := <[i := TStart]> (threads s) |> <| main := MCreate (S i) |>)
  | p_main_wait s : main s = MCreate NTHR →
      pstep s (s <| bcount := S (bcount s) |> <| main := MWait |>)
  | p_sort s i : threads s !! i = Some TStart →
      pstep s (s <| nums := sort_range i (nums s) |> <| threads := <[i := TSorted]> (threads s) |>)
  | p_wait s i : threads s !! i = Some TSorted →
      pstep s (s <| bcount := S (bcount s) |> <| threads := <[i := TWait]> (threads s) |>)
  | p_leave s i : threads s !! i = Some TWait → bcount s = S NTHR →
      pstep s (s <| threads := <[i := TDone]> (threads s) |>)
  | p_main_leave s : main s = MWait → bcount s = S NTHR → pstep s (s <| main := MMerge |>)
  | p_merge s m : main s = MMerge → merge (nums s) = Done tt m →
      pstep s (s <| snums := m_out m |> <| main := MDone |>).
End barrier.
