(* ===== verification/BarrierProps.v ===== *)
(** * Properties of the parallel sort (threads/barrier.c). *)
From Stdlib Require Import Ascii ZArith Lia.
From stdpp Require Import base strings gmap option list sorting relations.
From S2P Require Import Prelude CStr Barrier.

Abbreviation sorted := (StronglySorted Z.le).

(** Taking an element off one of several lists. *)
Lemma concat_pick {A} (f g : nat → list A) (l : list nat) j x : NoDup l → j ∈ l → f j = x :: g j →
  (∀ i, i ≠ j → f i = g i) → concat (f <$> l) ≡ₚ x :: concat (g <$> l).
Proof.
  intros Hnd Hj Hx Hne. induction Hnd as [|i l Hi Hnd IH]; [by apply elem_of_nil in Hj|].
  rewrite !fmap_cons. cbn [concat]. destruct (decide (i = j)) as [->|Hij].
  - rewrite Hx. cbn [app]. assert (E : f <$> l = g <$> l); [|by rewrite E].
    apply list_fmap_ext. intros k y Hk. apply Hne. intros ->. by apply Hi, (list_elem_of_lookup_2 _ k).
  - apply elem_of_cons in Hj as [->|Hj]; [done|]. rewrite Hne by done. rewrite IH by done.
    symmetry. apply Permutation_middle.
Qed.

Section merge.
Context (TNUM : nat) (nums : list Z).

(** What is left of range [i], and of all of them. *)
Definition rest (idx : list nat) (i : nat) : list Z :=
  let k := default O (idx !! i) in slice k ((i + 1) * TNUM - k) nums.
Definition all_rest (idx : list nat) : list Z := concat (rest idx <$> seq 0 NTHR).

Record idx_ok (idx : list nat) : Prop := {
  io_len : length idx = NTHR;
  io_nums : length nums = NUMNUM TNUM;
  io_le : ∀ i k, idx !! i = Some k → (k <= (i + 1) * TNUM)%nat;
  io_sorted : ∀ i, (i < NTHR)%nat → sorted (rest idx i) }.

(** The next element of range [i]. *)
Lemma rest_head idx i k : idx_ok idx → idx !! i = Some k →
  if (k <? (i + 1) * TNUM)%nat then ∃ x, nums !! k = Some x ∧ rest idx i = x :: rest (<[i := S k]> idx) i
  else rest idx i = [].
Proof.
  intros [Hl Hn Hle _] Hi. pose proof (lookup_lt_Some _ _ _ Hi) as Hlt. rewrite Hl in Hlt. unfold rest. rewrite Hi. simpl.
  destruct (Nat.ltb_spec k ((i + 1) * TNUM)) as [Hk|Hk].
  - assert (Hin : (k < length nums)%nat) by (rewrite Hn; unfold NUMNUM, NTHR in *; nia).
    apply lookup_lt_is_Some_2 in Hin as [x Hx]. exists x. split; [done|].
    rewrite list_lookup_insert_eq by (by rewrite Hl). simpl. unfold slice. rewrite (drop_S _ _ _ Hx).
    replace ((i + 1) * TNUM - k)%nat with (S ((i + 1) * TNUM - S k)) by lia. done.
  - unfold slice. by replace ((i + 1) * TNUM - k)%nat with O by lia.
Qed.

Lemma rest_ne idx i j k : i ≠ j → rest (<[j := k]> idx) i = rest idx i.
Proof. intros H. unfold rest. by rewrite list_lookup_insert_ne by done. Qed.

(** The inner loop finds the least of the next elements that are below [num]. *)
Lemma merge_pick_ok n : ∀ i num m, idx_ok (m_idx m) → (i + n = NTHR)%nat →
  ∃ num' m', merge_pick TNUM nums n i num m = Done num' m' ∧ m_idx m' = m_idx m ∧ m_out m' = m_out m ∧ num' <= num ∧
    (∀ k, (i <= k < NTHR)%nat → Forall (Z.le num') (rest (m_idx m) k)) ∧
    (m' = m ∧ num' = num ∨
     num' < num ∧ ∃ j, (i <= j < NTHR)%nat ∧ m_min m' = Some j ∧ head (rest (m_idx m) j) = Some num').
Proof.
  induction n as [|n IH]; intros i num m HI Hin.
  { exists num, m. split_and!; try done; [intros k Hk; lia|by left]. }
  assert (Hi : (i < length (m_idx m))%nat) by (rewrite (io_len _ HI); lia).
  apply lookup_lt_is_Some_2 in Hi as [k Hk].
  pose proof (rest_head (m_idx m) i k HI Hk) as Hr. simpl. erewrite (bind_done get) by reflexivity. rewrite Hk.
  assert (Hall : ∀ num', (∀ x, head (rest (m_idx m) i) = Some x → num' <= x) →
    (∀ k, (S i <= k < NTHR)%nat → Forall (Z.le num') (rest (m_idx m) k)) →
    ∀ k, (i <= k < NTHR)%nat → Forall (Z.le num') (rest (m_idx m) k)).
  { intros num' Hh Hrest j Hj. destruct (decide (j = i)) as [->|]; [|apply Hrest; lia].
    pose proof (io_sorted _ HI i ltac:(lia)) as Hs. destruct (rest (m_idx m) i) as [|x l]; [done|].
    specialize (Hh x eq_refl). apply StronglySorted_inv in Hs as [_ Hs]. constructor; [done|].
    eapply Forall_impl; [exact Hs|]. simpl. lia. }
  destruct (k <? (i + 1) * TNUM)%nat.
  - destruct Hr as (x & Hx & Hr). rewrite Hx. destruct (Z.ltb_spec x num) as [Hlt|Hge].
    + rewrite bind_modify.
      destruct (IH (S i) x (MState (m_idx m) (Some i) (m_out m)) HI ltac:(lia)) as (num' & m' & E & Hidx & Hout & Hle & Hrest & Hc).
      exists num', m'. split_and!; [exact E|exact Hidx|exact Hout|lia| |right].
      * apply (Hall num'); [|exact Hrest]. intros y. rewrite Hr. intros [= <-]. done.
      * split; [lia|]. destruct Hc as [[-> ->]|(Hl & j & Hj & Hm & Hh)].
        -- exists i. split; [lia|]. split; [done|]. by rewrite Hr.
        -- exists j. split; [lia|done].
    + destruct (IH (S i) num m HI ltac:(lia)) as (num' & m' & E & Hidx & Hout & Hle & Hrest & Hc).
      exists num', m'. split_and!; [done|done|done|done| |].
      * apply (Hall num'); [|exact Hrest]. intros y. rewrite Hr. intros [= <-]. lia.
      * destruct Hc as [?|(Hl & j & Hj & Hm)]; [by left|right]. split; [done|]. exists j. split; [lia|done].
  - destruct (IH (S i) num m HI ltac:(lia)) as (num' & m' & E & Hidx & Hout & Hle & Hrest & Hc).
    exists num', m'. split_and!; [done|done|done|done| |].
    + apply (Hall num'); [|exact Hrest]. by rewrite Hr.
    + destruct Hc as [?|(Hl & j & Hj & Hm)]; [by left|right]. split; [done|]. exists j. split; [lia|done].
Qed.

Lemma elem_all_rest idx y : y ∈ all_rest idx ↔ ∃ i, (i < NTHR)%nat ∧ y ∈ rest idx i.
Proof.
  unfold all_rest. rewrite list_elem_of_In, in_concat. split.
  - intros (l & Hl & Hy). apply list_elem_of_In, list_elem_of_fmap in Hl as (i & -> & Hi).
    apply elem_of_seq in Hi. exists i. split; [lia|]. by apply list_elem_of_In.
  - intros (i & Hi & Hy). exists (rest idx i). split; [|by apply list_elem_of_In].
    apply list_elem_of_In, list_elem_of_fmap. exists i. split; [done|]. apply elem_of_seq. lia.
Qed.

(** The outer loop: what is left comes out in order. *)
Lemma merge_loop_ok n : ∀ m, idx_ok (m_idx m) → length (all_rest (m_idx m)) = n →
  Forall (λ x, x < LONG_MAX) (all_rest (m_idx m)) → sorted (m_out m) →
  (∀ x y, x ∈ m_out m → y ∈ all_rest (m_idx m) → x <= y) →
  ∃ m', merge_loop TNUM nums n m = Done tt m' ∧ sorted (m_out m') ∧
    m_out m' ≡ₚ m_out m ++ all_rest (m_idx m).
Proof.
  induction n as [|n IH]; intros m HI Hlen Hmax Hs Hbnd.
  { exists m. split_and!; try done. apply length_zero_iff_nil in Hlen. by rewrite Hlen, app_nil_r. }
  destruct (merge_pick_ok NTHR 0 LONG_MAX m HI eq_refl) as (num & m1 & E & Hidx & Hout & Hle & Hall & Hc).
  cbn [merge_loop]. erewrite bind_done by exact E. erewrite (bind_done get) by reflexivity.
  destruct Hc as [[_ ->]|(Hlt & j & Hj & Hmin & Hhead)].
  { exfalso. destruct (all_rest (m_idx m)) as [|y l] eqn:Ea; [done|].
    assert (Hy : y ∈ all_rest (m_idx m)) by (rewrite Ea; by left).
    apply elem_all_rest in Hy as (i & Hi & Hy). apply Forall_cons in Hmax as [Hy1 _].
    specialize (Hall i ltac:(lia)). rewrite Forall_forall in Hall. specialize (Hall y Hy). lia. }
  assert (Hk : ∃ k, m_idx m !! j = Some k) by (apply lookup_lt_is_Some_2; rewrite (io_len _ HI); lia).
  destruct Hk as [k Hk]. pose proof (rest_head _ _ _ HI Hk) as Hr.
  destruct (Nat.ltb_spec k ((j + 1) * TNUM)) as [Hkt|]; [|by rewrite Hr in Hhead].
  destruct Hr as (x & Hx & Hr). rewrite Hr in Hhead. simpl in Hhead. injection Hhead as ->.
  rewrite Hmin, Hidx. simpl. rewrite Hk. simpl. rewrite Hx. simpl.
  rewrite bind_modify. pose (m2 := MState (<[j := S k]> (m_idx m)) (m_min m1) (m_out m1 ++ [num])).
  assert (Hperm : all_rest (m_idx m) ≡ₚ num :: all_rest (m_idx m2)).
  { apply (concat_pick (rest (m_idx m)) (rest (m_idx m2)) _ j); [apply NoDup_seq|apply elem_of_seq; lia|exact Hr|].
    intros i Hne. symmetry. by apply rest_ne. }
  destruct (IH m2) as (m' & E' & Hs' & Hp').
  - destruct HI as [H1 H2 H3 H4]. split; [by simpl; rewrite length_insert|done| |].
    + intros i k'. simpl. destruct (decide (i = j)) as [->|Hne].
      * rewrite list_lookup_insert_eq by lia. intros [= <-]. lia.
      * rewrite list_lookup_insert_ne by done. apply H3.
    + intros i Hi. simpl. destruct (decide (i = j)) as [->|Hne].
      * specialize (H4 j Hi). rewrite Hr in H4. by apply StronglySorted_inv in H4 as [H4 _].
      * rewrite rest_ne by done. by apply H4.
  - apply Permutation_length in Hperm. rewrite Hlen in Hperm. simpl in Hperm. by injection Hperm.
  - rewrite Hperm in Hmax. by apply Forall_cons in Hmax as [_ Hmax].
  - simpl. rewrite Hout. apply StronglySorted_app. split_and!; [|done|by repeat constructor].
    intros a b Ha Hb. apply list_elem_of_singleton in Hb as ->. apply Hbnd; [done|]. rewrite Hperm. by left.
  - simpl. rewrite Hout. intros a y Ha Hy. apply elem_of_app in Ha as [Ha|Ha].
    + apply Hbnd; [done|]. rewrite Hperm. by right.
    + apply list_elem_of_singleton in Ha as ->.
      assert (Hy' : y ∈ all_rest (m_idx m)) by (rewrite Hperm; by right).
      apply elem_all_rest in Hy' as (i & Hi & Hy'). specialize (Hall i ltac:(lia)).
      rewrite Forall_forall in Hall. by apply Hall.
  - exists m'. split_and!; [by rewrite Hidx|done|]. rewrite Hp'. simpl. rewrite Hout, <- app_assoc. by rewrite Hperm.
Qed.
End merge.

(** ** The ranges *)

Section ranges.
Context (TNUM : nat).
Definition range (i : nat) (l : list Z) : list Z := slice (i * TNUM) TNUM l.

Lemma slice_slice {A} a b c (l : list A) : slice a b l ++ slice (a + b) c l = slice a (b + c) l.
Proof. unfold slice. rewrite <- drop_drop. generalize (drop a l). intros k. by rewrite take_take_drop. Qed.

Lemma concat_ranges n i l : concat ((λ i, range i l) <$> seq i n) = slice (i * TNUM) (n * TNUM) l.
Proof.
  revert i. induction n as [|n IH]; intros i; [done|]. cbn [seq fmap list_fmap concat]. rewrite IH.
  unfold range. replace (S i * TNUM)%nat with (i * TNUM + TNUM)%nat by lia.
  by rewrite slice_slice.
Qed.

(** What merge() starts from. *)
Lemma merge_ok l : length l = NUMNUM TNUM → Forall (λ x, x < LONG_MAX) l →
  (∀ i, (i < NTHR)%nat → sorted (range i l)) →
  ∃ m, merge TNUM l = Done tt m ∧ sorted (m_out m) ∧ m_out m ≡ₚ l.
Proof.
  intros Hl Hmax Hs. set (idx0 := (λ i, i * TNUM)%nat <$> seq 0 NTHR).
  assert (Hidx : ∀ i, (i < NTHR)%nat → idx0 !! i = Some (i * TNUM)%nat).
  { intros i Hi. unfold idx0. rewrite list_lookup_fmap, lookup_seq_lt by done. done. }
  assert (Hrest : ∀ i, (i < NTHR)%nat → rest TNUM l idx0 i = range i l).
  { intros i Hi. unfold rest. rewrite Hidx by done. unfold range. simpl. f_equal. lia. }
  assert (Hall : all_rest TNUM l idx0 = l).
  { unfold all_rest. rewrite (list_fmap_ext _ (λ i, range i l)).
    - rewrite concat_ranges. unfold slice. simpl. apply take_ge. by rewrite Hl.
    - intros k i Hk. apply Hrest. apply lookup_seq in Hk. lia. }
  destruct (merge_loop_ok TNUM l (NUMNUM TNUM) (MState idx0 None [])) as (m & E & Hm & Hp); simpl.
  - split; [done|done| |].
    + intros i k Hi. pose proof (lookup_lt_Some _ _ _ Hi) as Hlt. rewrite Hidx in Hi by exact Hlt.
      injection Hi as <-. lia.
    + intros i Hi. rewrite Hrest by done. by apply Hs.
  - by rewrite Hall.
  - by rewrite Hall.
  - constructor.
  - intros x y Hx. by apply elem_of_nil in Hx.
  - exists m. split_and!; [exact E|done|]. rewrite Hp. simpl. by rewrite Hall.
Qed.

(** Sorting one range leaves the others as they are. *)
Lemma range_insert i j (r l : list Z) : length l = NUMNUM TNUM → length r = TNUM → (i < NTHR)%nat →
  range j (take (i * TNUM) l ++ r ++ drop (i * TNUM + TNUM) l) = if decide (j = i) then r else range j l.
Proof.
  intros Hl Hr Hi. unfold NUMNUM, NTHR in *. unfold range, slice.
  assert (Hti : length (take (i * TNUM) l) = (i * TNUM)%nat) by (rewrite length_take; nia).
  destruct (decide (j = i)) as [->|Hne].
  { by rewrite drop_app_length', take_app_length'. }
  destruct (decide (j < i)%nat) as [Hlt|Hge].
  - rewrite drop_app_le, take_app_le; [|rewrite length_drop|]; try nia.
    rewrite <- (take_drop (i * TNUM) l) at 2. rewrite drop_app_le, take_app_le; [done|rewrite length_drop|]; nia.
  - rewrite app_assoc, drop_app_ge; rewrite length_app, Hti, Hr; [|nia].
    rewrite drop_drop. do 2 f_equal. nia.
Qed.
End ranges.

(** ** Counting over the threads *)

Lemma sum_all {A} (f : A → nat) (l : list A) : (∀ x, f x <= 1)%nat →
  (sum_list_with f l <= length l)%nat ∧ (sum_list_with f l = length l → Forall (λ x, f x = 1%nat) l).
Proof.
  intros Hf. induction l as [|a l [IH1 IH2]]; [done|]. simpl. pose proof (Hf a). split; [lia|].
  intros E. constructor; [lia|]. apply IH2. lia.
Qed.

Lemma sum_short {A} (f : A → nat) (l : list A) : sum_list_with f l ≠ length l → (∀ x, f x <= 1)%nat →
  ∃ i x, l !! i = Some x ∧ f x = 0%nat.
Proof.
  intros Hne Hf. induction l as [|a l IH]; [done|]. simpl in Hne. pose proof (Hf a).
  destruct (decide (f a = 0)%nat); [by exists O, a|].
  destruct IH as (i & x & Hi & Hx); [lia|]. by exists (S i), x.
Qed.

(** Who has arrived at the barrier. *)
Definition arrived (t : tstate) : nat := match t with TWait | TDone => 1 | _ => 0 end.
Definition main_arrived (m : main_at) : nat := match m with MCreate _ => 0 | _ => 1 end.
Definition created (m : main_at) : nat := match m with MCreate i => i | _ => NTHR end.
Definition is_sorted (t : tstate) : Prop := match t with TSorted | TWait | TDone => True | _ => False end.

(** How many steps are left at most. *)
Definition t_left (t : tstate) : nat := match t with TNone | TStart => 3 | TSorted => 2 | TWait => 1 | TDone => 0 end.
Definition m_left (m : main_at) : nat := match m with MCreate i => 3 + (NTHR - i) | MWait => 2 | MMerge => 1 | MDone => 0 end.
Definition steps_left (s : psys) : nat := (sum_list_with t_left (threads s) + m_left (main s))%nat.

Section barrier.
Context (TNUM : nat) (heapsort : (Z → Z → Z) → list Z → list Z).
Context (Hsort : ∀ (R : relation Z) cmp r, Transitive R → Total R → (∀ a b, cmp a b <= 0 ↔ R a b) →
  heapsort cmp r ≡ₚ r ∧ StronglySorted R (heapsort cmp r)).
Local Abbreviation pstep := (pstep TNUM heapsort).
Context (l0 : list Z) (Hlen0 : length l0 = NUMNUM TNUM) (Hmax : Forall (λ x, x < LONG_MAX) l0).

Lemma heapsort_ok r : heapsort complong r ≡ₚ r ∧ sorted (heapsort complong r).
Proof.
  apply Hsort; [intros a b c; lia|intros a b; lia|]. intros a b. unfold complong.
  destruct (Z.eqb_spec a b), (Z.ltb_spec a b); lia.
Qed.

Record barrier_inv (s : psys) : Prop := {
  bi_len : length (threads s) = NTHR;
  bi_nums : nums s ≡ₚ l0;
  bi_created : ∀ i t, threads s !! i = Some t → (i < created (main s))%nat ↔ t ≠ TNone;
  bi_le : (created (main s) <= NTHR)%nat;
  bi_count : bcount s = (sum_list_with arrived (threads s) + main_arrived (main s))%nat;
  bi_sorted : ∀ i t, threads s !! i = Some t → is_sorted t → sorted (range TNUM i (nums s));
  bi_all : main s = MMerge ∨ main s = MDone → bcount s = S NTHR;
  bi_done : main s = MDone → sorted (snums s) ∧ snums s ≡ₚ nums s }.

Lemma barrier_inv_init : barrier_inv (psys_init l0).
Proof.
  split; try done.
  - intros i t Hi. apply lookup_replicate in Hi as [-> _]. simpl. split; [lia|done].
  - simpl. lia.
  - intros i t Hi. apply lookup_replicate in Hi as [-> _]. done.
  - by intros [|].
Qed.

Lemma sort_range_perm i l : sort_range TNUM heapsort i l ≡ₚ l.
Proof.
  unfold sort_range. rewrite (proj1 (heapsort_ok _)). unfold slice.
  by rewrite <- drop_drop, take_drop, take_drop.
Qed.

Lemma sort_range_ranges i j l : length l = NUMNUM TNUM → (i < NTHR)%nat →
  range TNUM j (sort_range TNUM heapsort i l) =
  if decide (j = i) then heapsort complong (range TNUM i l) else range TNUM j l.
Proof.
  intros Hl Hi. apply range_insert; [done| |done].
  rewrite (proj1 (heapsort_ok _)). unfold range, slice. rewrite length_take, length_drop, Hl.
  unfold NUMNUM, NTHR in *. nia.
Qed.

(** All have arrived when the count is complete. *)
Lemma all_arrived s : barrier_inv s → bcount s = S NTHR →
  main_arrived (main s) = 1%nat ∧ ∀ i t, threads s !! i = Some t → arrived t = 1%nat.
Proof.
  intros HI E. rewrite (bi_count _ HI) in E.
  destruct (sum_all arrived (threads s)) as [H1 H2]; [by intros []; simpl; lia|].
  rewrite (bi_len _ HI) in H1, H2.
  assert (main_arrived (main s) <= 1)%nat by (destruct (main s); simpl; lia).
  split; [lia|]. intros i t Hi. pose proof (H2 ltac:(lia)) as Hf. rewrite Forall_lookup in Hf. by apply (Hf i).
Qed.

(** A thread moves on. *)
Lemma thread_step s i x y c n : barrier_inv s → threads s !! i = Some x → x ≠ TNone → y ≠ TNone →
  (c + arrived x = bcount s + arrived y)%nat → (is_sorted y → is_sorted x ∧ n = nums s ∨ n = sort_range TNUM heapsort i (nums s)) →
  (n = nums s ∨ (n = sort_range TNUM heapsort i (nums s) ∧ arrived x = 0%nat)) →
  (main s = MMerge ∨ main s = MDone → c = S NTHR) →
  barrier_inv (PSys n (snums s) c (<[i := y]> (threads s)) (main s)).
Proof.
  intros HI Hi Hx Hy Hc Hs Hn Hm. pose proof (lookup_lt_Some _ _ _ Hi) as Hlt. rewrite (bi_len _ HI) in Hlt.
  assert (Hl : length (nums s) = NUMNUM TNUM) by (by rewrite (bi_nums _ HI)).
  split; simpl.
  - rewrite length_insert. apply HI.
  - destruct Hn as [->|[-> _]]; [|rewrite sort_range_perm]; apply HI.
  - intros j t. destruct (decide (j = i)) as [->|Hne].
    + rewrite list_lookup_insert_eq by (by rewrite (bi_len _ HI)). intros [= <-].
      pose proof (bi_created _ HI i x Hi). tauto.
    + rewrite list_lookup_insert_ne by done. apply HI.
  - apply HI.
  - pose proof (sum_insert arrived _ _ _ y Hi). rewrite (bi_count _ HI) in Hc. lia.
  - intros j t. destruct (decide (j = i)) as [->|Hne].
    + rewrite list_lookup_insert_eq by (by rewrite (bi_len _ HI)). intros [= <-] Ht.
      destruct (Hs Ht) as [[Hx' ->]| ->]; [by apply (bi_sorted _ HI i x)|].
      rewrite sort_range_ranges, decide_True by done. apply heapsort_ok.
    + rewrite list_lookup_insert_ne by done. intros Hj Ht. pose proof (bi_sorted _ HI j t Hj Ht).
      destruct Hn as [->|[-> _]]; [done|]. by rewrite sort_range_ranges, decide_False by done.
  - done.
  - intros E. destruct (bi_done _ HI E) as [H1 H2]. split; [done|].
    destruct Hn as [->|[-> _]]; [done|]. by rewrite sort_range_perm.
Qed.

(** When all have arrived the ranges are sorted, and can be merged. *)
Lemma inv_sorted s : barrier_inv s → bcount s = S NTHR → ∀ i, (i < NTHR)%nat → sorted (range TNUM i (nums s)).
Proof.
  intros HI Hb i Hi. destruct (all_arrived s HI Hb) as [_ Ha].
  destruct (lookup_lt_is_Some_2 (threads s) i) as [t Ht]; [by rewrite (bi_len _ HI)|].
  apply (bi_sorted _ HI i t Ht). specialize (Ha i t Ht). by destruct t.
Qed.

Lemma merge_inv s : barrier_inv s → bcount s = S NTHR →
  ∃ m, merge TNUM (nums s) = Done tt m ∧ sorted (m_out m) ∧ m_out m ≡ₚ nums s.
Proof.
  intros HI Hb. pose proof (bi_nums _ HI) as Hn.
  apply merge_ok; [by rewrite Hn|by rewrite Hn|by apply inv_sorted].
Qed.

(** The main thread moves on. *)
Lemma main_step s c m : barrier_inv s → c = (bcount s - main_arrived (main s) + main_arrived m)%nat →
  created m = created (main s) → (m = MMerge ∨ m = MDone → c = S NTHR) → m ≠ MDone →
  barrier_inv (PSys (nums s) (snums s) c (threads s) m).
Proof.
  intros [] Hc Hm Hall Hd. split; simpl; try done.
  - by rewrite Hm.
  - by rewrite Hm.
  - lia.
Qed.

Lemma barrier_inv_step s s' : barrier_inv s → pstep s s' → barrier_inv s'.
Proof.
  intros HI. inversion 1 as [? i E Hlt|? E|? i Hi|? i Hi|? i Hi Hb|? E Hb|? m E Hm]; subst; unfold update; simpl.
  - destruct HI as [H1 H2 H3 H4 H5 H6 H7 H8]. rewrite E in *. simpl in *.
    assert (Hn : threads s !! i = Some TNone).
    { destruct (lookup_lt_is_Some_2 (threads s) i) as [t Ht]; [by rewrite H1|].
      pose proof (H3 i t Ht) as Hc. rewrite Ht. destruct (decide (t = TNone)) as [->|Hne]; [done|].
      apply Hc in Hne. lia. }
    split; simpl; [by rewrite length_insert|done| |lia| | |by intros [|]|done].
    + intros j t. destruct (decide (j = i)) as [->|Hne].
      * rewrite list_lookup_insert_eq by (by rewrite H1). intros [= <-]. split; [done|intros _; lia].
      * rewrite list_lookup_insert_ne by done. intros Hj. rewrite <- (H3 j t Hj). lia.
    + pose proof (sum_insert arrived _ _ _ TStart Hn) as Hs. simpl in *. lia.
    + intros j t. destruct (decide (j = i)) as [->|Hne].
      * rewrite list_lookup_insert_eq by lia. by intros [= <-].
      * rewrite list_lookup_insert_ne by done. apply H6.
  - apply main_step; [done| | |by intros [|]|done]; rewrite E; simpl; [lia|done].
  - apply (thread_step s i TStart TSorted); try done; simpl; [intros _; by right|by right|by apply HI].
  - pose proof (bi_all _ HI). apply (thread_step s i TSorted TWait); try done; simpl; [lia|by left|by left|].
    intros E. exfalso. destruct (all_arrived s HI (H0 E)) as [_ Ha]. by specialize (Ha i _ Hi).
  - apply (thread_step s i TWait TDone); try done; by left.
  - apply main_step; [done| | |done|done]; rewrite E; simpl; lia.
  - assert (Hb : bcount s = S NTHR) by (apply HI; by left).
    destruct (merge_inv s HI Hb) as (m' & Hm' & Hs & Hp). rewrite Hm in Hm'. injection Hm' as <-.
    destruct HI as [H1 H2 H3 H4 H5 H6 H7 H8]. rewrite E in *. split; simpl; try done; intros; by split.
Qed.

Lemma steps_left_step s s' : barrier_inv s → pstep s s' → (steps_left s' < steps_left s)%nat.
Proof.
  intros HI. unfold steps_left.
  inversion 1 as [? i E Hlt|? E|? i Hi|? i Hi|? i Hi Hb|? E Hb|? m E Hm]; subst; unfold update; simpl.
  - destruct (lookup_lt_is_Some_2 (threads s) i) as [t Ht]; [by rewrite (bi_len _ HI)|].
    pose proof (sum_insert t_left _ _ _ TStart Ht) as Hs. pose proof (bi_created _ HI i t Ht) as Hc.
    rewrite E in *. unfold created, m_left, NTHR in *. cbn [t_left] in Hs.
    destruct (decide (t = TNone)) as [->|Hne]; [cbn [t_left] in Hs; lia|]. apply Hc in Hne. lia.
  - rewrite E. simpl. lia.
  - pose proof (sum_insert t_left _ _ _ TSorted Hi) as Hs. simpl in Hs. lia.
  - pose proof (sum_insert t_left _ _ _ TWait Hi) as Hs. simpl in Hs. lia.
  - pose proof (sum_insert t_left _ _ _ TDone Hi) as Hs. simpl in Hs. lia.
  - rewrite E. simpl. lia.
  - rewrite E. simpl. lia.
Qed.

(** The program only stops when it is done. *)
Lemma barrier_progress s : barrier_inv s → (∃ s', pstep s s') ∨ main s = MDone.
Proof.
  intros HI. destruct (main s) as [i| | |] eqn:E; [left|left|left|by right].
  - pose proof (bi_le _ HI) as Hle. rewrite E in Hle. simpl in Hle.
    destruct (decide (i = NTHR)) as [->|Hne]; eexists; [by apply p_main_wait|apply (p_create _ _ _ i); [done|lia]].
  - destruct (decide (bcount s = S NTHR)) as [Hb|Hb]; [eexists; by apply p_main_leave|].
    destruct (sum_short arrived (threads s)) as (i & t & Hi & Ht).
    { pose proof (bi_count _ HI) as Hc. rewrite E in Hc. simpl in Hc.
      rewrite (bi_len _ HI). intros Ha. apply Hb. lia. }
    { by intros []; simpl; lia. }
    pose proof (bi_created _ HI i t Hi) as Hc. rewrite E in Hc. simpl in Hc.
    pose proof (lookup_lt_Some _ _ _ Hi) as Hlt. rewrite (bi_len _ HI) in Hlt. apply Hc in Hlt.
    destruct t; try done; eexists; [by eapply p_sort|by eapply p_wait].
  - destruct (merge_inv s HI) as (m & Hm & _); [apply HI; by left|]. eexists. by eapply p_merge.
Qed.
End barrier.

(** C17: threads/barrier.c sorts.  Whatever the interleaving of the eight threads and the
    main thread, with a heapsort that sorts by the comparison it is given and with fewer
    numbers than LONG_MAX (merge() cannot tell that value from its sentinel): nobody
    deadlocks, no undefined access is made, the program stops within 35 steps, the main
    thread only merges when every range is sorted, and snums[] is then the sorted
    rearrangement of nums[]. *)
Theorem barrier_sorts TNUM heapsort l n s
    (Hsort : ∀ (R : relation Z) cmp r, Transitive R → Total R → (∀ a b, cmp a b <= 0 ↔ R a b) →
      heapsort cmp r ≡ₚ r ∧ StronglySorted R (heapsort cmp r))
    (Hlen : length l = NUMNUM TNUM) (Hmax : Forall (λ x, x < LONG_MAX) l)
    (Hrun : nsteps (pstep TNUM heapsort) n (psys_init l) s) :
  (n <= 35)%nat ∧
  ((∃ s', pstep TNUM heapsort s s') ∨ main s = MDone) ∧
  (main s = MMerge → ∀ i, (i < NTHR)%nat → sorted (range TNUM i (nums s))) ∧
  (main s = MDone → sorted (snums s) ∧ snums s ≡ₚ l).
Proof.
  assert (H : barrier_inv TNUM l s ∧ (n + steps_left s <= 35)%nat).
  { remember (psys_init l) as s0 eqn:E0.
    assert (H0 : barrier_inv TNUM l s0) by (subst; by apply barrier_inv_init).
    replace 35%nat with (steps_left s0) by (by subst). clear E0.
    induction Hrun as [s|n s1 s2 s3 Hs _ IH]; [by split|].
    pose proof (barrier_inv_step _ _ Hsort _ Hlen Hmax _ _ H0 Hs) as H1.
    assert (steps_left s2 < steps_left s1)%nat by by eapply steps_left_step. destruct (IH H1). split; [done|lia]. }
  destruct H as [HI Hn]. split_and!; [lia|by eapply barrier_progress| |].
  - intros E. apply (inv_sorted TNUM l Hlen); [done|]. apply HI. by left.
  - intros E. destruct (bi_done _ _ _ HI E) as [H1 H2]. split; [done|]. rewrite H2. apply HI.
Qed.

(** A heapsort for the example. *)
Definition example_heapsort (cmp : Z → Z → Z) : list Z → list Z :=
  @merge_sort Z (λ a b, cmp a b <= 0) (λ a b, Z_le_dec _ _).

Lemma example_heapsort_sorts (R : relation Z) cmp r : Transitive R → Total R → (∀ a b, cmp a b <= 0 ↔ R a b) →
  example_heapsort cmp r ≡ₚ r ∧ StronglySorted R (example_heapsort cmp r).
Proof.
  intros HT Ht Hc. split; [apply merge_sort_Permutation|].
  assert (Hs : StronglySorted (λ a b, cmp a b <= 0) (example_heapsort cmp r)).
  { apply StronglySorted_merge_sort.
    - intros a b c. rewrite !Hc. apply HT.
    - intros a b. rewrite !Hc. apply Ht. }
  induction Hs as [|a l _ IH Hl]; constructor; [done|]. eapply Forall_impl; [exact Hl|]. intros b. apply Hc.
Qed.

(** One more step of a run, by tactic [tac]. *)
Ltac run_step tac :=
  match goal with |- nsteps (pstep ?t ?h) _ ?s _ =>
    let s' := open_constr:(_ : psys) in
    apply (nsteps_l _ _ s s'); [tac; [vm_compute; reflexivity|..]; first [vm_compute; reflexivity|unfold NTHR; lia]|];
    match goal with |- nsteps ?R ?n ?s1 ?s2 => let v := eval vm_compute in s1 in change (nsteps R n v s2) end
  end.
Ltac thread_steps c l :=
  match l with [] => idtac | ?i :: ?l' => run_step ltac:(eapply (c _ i)); thread_steps c l' end.

(** A run on eight numbers. *)
Lemma barrier_sorts_witness :
  ∃ s, nsteps (pstep 1 example_heapsort) 35 (psys_init [5; 3; -8; 1; 7; 2; 6; 3]) s ∧
    snums s = [-8; 1; 2; 3; 3; 5; 6; 7] ∧ snums s ≡ₚ [5; 3; -8; 1; 7; 2; 6; 3].
Proof.
  assert (H : ∃ s, nsteps (pstep 1 example_heapsort) 35 (psys_init [5; 3; -8; 1; 7; 2; 6; 3]) s ∧
    snums s = [-8; 1; 2; 3; 3; 5; 6; 7] ∧ main s = MDone).
  { eexists. split; [|split; [|]].
    - do 8 (run_step ltac:(eapply p_create)). run_step ltac:(apply p_main_wait).
      thread_steps (p_sort 1 example_heapsort) [3; 0; 7; 1; 2; 4; 6; 5]%nat.
      thread_steps (p_wait 1 example_heapsort) [3; 0; 7; 1; 2; 4; 6; 5]%nat.
      thread_steps (p_leave 1 example_heapsort) [0; 1; 2; 3]%nat.
      run_step ltac:(apply p_main_leave). run_step ltac:(eapply p_merge).
      thread_steps (p_leave 1 example_heapsort) [7; 6; 5; 4]%nat.
      apply nsteps_O.
    - reflexivity.
    - reflexivity. }
  destruct H as (s & Hrun & Hout & Hdone). exists s. split_and!; [exact Hrun|exact Hout|].
  destruct (barrier_sorts 1 example_heapsort [5; 3; -8; 1; 7; 2; 6; 3] _ _ example_heapsort_sorts eq_refl ltac:(by repeat constructor) Hrun)
    as (_ & _ & _ & Hs). exact (proj2 (Hs Hdone)).
Defined.
