(* ===== verification/Ftw.v ===== *)
(** * Walking a file hierarchy: filedir/ftw8.c, with lib/pathalloc.c.

    The one path buffer the whole walk works in is a list of bytes; lstat and opendir are
    functions of the path, the names readdir returns a list.  The function that is called
    for every file is a program over a state of its own.  Memory that malloc and realloc
    give has arbitrary contents ([junk]); [mem] says which sizes can be had. *)
From Stdlib Require Import Ascii ZArith Lia.
From stdpp Require Import base strings gmap option list.
From S2P Require Import Prelude CStr PosixFile Sock.

(** ** lib/pathalloc.c *)

(** The static variables. *)
Record palloc := PAlloc { pa_pathmax : Z; pa_posix : Z; pa_xsi : Z }.
#[export] Instance palloc_rebuild : Rebuild palloc := λ p, PAlloc (pa_pathmax p) (pa_posix p) (pa_xsi p).

Definition PATH_MAX_GUESS : Z := 1024.

(** [version], [xopen]: what sysconf returns; [pathconf]: an error, indeterminate, or the
    limit; [ok]: the malloc.  The result is the size. *)
Definition path_alloc (version xopen : Z) (pathconf : iores (option Z)) (ok : bool) : prog palloc Z :=
  s ← get;
  (if pa_posix s =? 0 then modify (λ s, s <| pa_posix := version |>) else mret tt) ;;
  (if pa_xsi s =? 0 then modify (λ s, s <| pa_xsi := xopen |>) else mret tt) ;;
  (if pa_pathmax s =? 0 then
     match pathconf with
     | IoOk None => modify (λ s, s <| pa_pathmax := PATH_MAX_GUESS |>)
     | IoErr _ => modify (λ s, s <| pa_pathmax := -1 |>) ;; die (ErrSys "pathconf error for _PC_PATH_MAX")
     | IoOk (Some n) => modify (λ s, s <| pa_pathmax := n + 1 |>)
     end
   else mret tt) ;;
  s ← get;
  let size := if (pa_posix s <? 200112) && (pa_xsi s <? 4) then pa_pathmax s + 1 else pa_pathmax s in
  check ok (ErrSys "malloc error for pathname") ;;
  mret size.

(** ** filedir/ftw8.c *)

Definition FTW_F : Z := 1.
Definition FTW_D : Z := 2.
Definition FTW_DNR : Z := 3.
Definition FTW_NS : Z := 4.

Definition NAME_MAX : Z := 255.
Definition INT_MAX : Z := 2 ^ 31 - 1.
Definition SLASH : char := "/"%char.
Definition is_dir (mode : Z) : bool := Z.land mode S_IFMT =? S_IFDIR.

(** A name that is skipped. *)
Definition dots (name : bytes) : bool := streq name (str ".") || streq name (str "..").

(** fullpath (what it points to), pathlen, and the state of the user's function. *)
Record ftw (U : Type) := Ftw { fw_path : bytes; fw_len : Z; fw_user : U }.
Arguments Ftw {U}. Arguments fw_path {U}. Arguments fw_len {U}. Arguments fw_user {U}.
#[export] Instance ftw_rebuild U : Rebuild (ftw U) := λ w, Ftw (fw_path w) (fw_len w) (fw_user w).

Section ftw.
Context {U : Type} (func : bytes → option Z → Z → prog U Z).
Context (lstat : bytes → iores Z) (opendir : bytes → option (list bytes)).
Context (mem : Z → bool) (junk : nat → char).

Definition fresh_mem (from n : nat) : bytes := junk <$> seq from n.

(** func(fullpath, &statbuf, type); statbuf is indeterminate when lstat has failed. *)
Definition call_func (st : option Z) (type : Z) : prog (ftw U) Z := λ w,
  if bool_decide (NUL ∈ fw_path w) then
    match func (cstr (fw_path w)) st type (fw_user w) with
    | Done r u => Done r (w <| fw_user := u |>)
    | Fatal e u => Fatal e (w <| fw_user := u |>)
    | Undef u => Undef (w <| fw_user := u |>)
    | NoFuel => NoFuel
    end
  else Undef w.

(** fullpath[off...] = s, inside of the buffer. *)
Definition path_put (off : Z) (s : bytes) : prog (ftw U) unit :=
  w ← get;
  defined ((0 <=? off) && (off + Z.of_nat (length s) <=? Z.of_nat (length (fw_path w)))) ;;
  modify (λ w, w <| fw_path := put_at (fw_path w) (Z.to_nat off) s |>).

Definition path_realloc : prog (ftw U) unit :=
  w ← get;
  check (mem (fw_len w)) (ErrSys "realloc failed") ;;
  let n := Z.to_nat (fw_len w) in
  modify (λ w, w <| fw_path ::= λ b, take n b ++ fresh_mem (length b) (n - length b) |>).

(** The int n = strlen(fullpath). *)
Definition path_strlen : prog (ftw U) Z :=
  w ← get;
  defined (bool_decide (NUL ∈ fw_path w)) ;;
  mret (wrap_s 32 (Z.of_nat (strlen (fw_path w)))).

(** The loop over the directory; [visit] is the recursive call, the result is ret. *)
Fixpoint dir_loop (visit : prog (ftw U) Z) (n : Z) (names : list bytes) (ret : Z) : prog (ftw U) Z :=
  match names with
  | [] => mret ret
  | name :: names' =>
      if dots name then dir_loop visit n names' ret
      else
        path_put n (cstr name ++ [NUL]) ;;
        ret ← visit;
        if negb (ret =? 0) then mret ret else dir_loop visit n names' ret
  end.

(** The fuel is the depth of the hierarchy. *)
Fixpoint dopath (fuel : nat) : prog (ftw U) Z :=
  match fuel with
  | O => λ _, NoFuel
  | S fuel' =>
      w ← get;
      defined (bool_decide (NUL ∈ fw_path w)) ;;
      match lstat (cstr (fw_path w)) with
      | IoErr _ => call_func None FTW_NS
      | IoOk mode =>
          if negb (is_dir mode) then call_func (Some mode) FTW_F
          else
            ret ← call_func (Some mode) FTW_D;
            if negb (ret =? 0) then mret ret
            else
              n ← path_strlen;
              defined (n + NAME_MAX + 2 <=? INT_MAX) ;;
              w ← get;
              (if fw_len w <? wrap_u 64 (n + NAME_MAX + 2) then
                 modify (λ w, w <| fw_len := wrap_u 64 (fw_len w * 2) |>) ;;
                 path_realloc
               else mret tt) ;;
              path_put n [SLASH] ;;
              let n := n + 1 in
              path_put n [NUL] ;;
              w ← get;
              match opendir (cstr (fw_path w)) with
              | None => call_func (Some mode) FTW_DNR
              | Some names =>
                  ret ← dir_loop (dopath fuel') n names ret;
                  path_put (n - 1) [NUL] ;;
                  mret ret
              end
      end
  end.

(** [size]: what path_alloc has allocated. *)
Definition myftw (fuel : nat) (pathname : bytes) (size : Z) : prog (ftw U) Z :=
  modify (λ w, w <| fw_path := fresh_mem 0 (Z.to_nat size) |> <| fw_len := size |>) ;;
  (if size <=? Z.of_nat (strlen pathname) then
     modify (λ w, w <| fw_len := wrap_u 64 (Z.of_nat (strlen pathname) * 2) |>) ;;
     path_realloc
   else mret tt) ;;
  path_put 0 (cstr pathname ++ [NUL]) ;;
  dopath fuel.
End ftw.

(** The counters. *)
Record counts := Counts { nreg : Z; ndir : Z; nblk : Z; nchr : Z; nfifo : Z; nslink : Z; nsock : Z }.
#[export] Instance counts_rebuild : Rebuild counts := λ c,
  Counts (nreg c) (ndir c) (nblk c) (nchr c) (nfifo c) (nslink c) (nsock c).

(** The messages of err_ret are left out. *)
Definition myfunc (pathname : bytes) (st : option Z) (type : Z) : prog counts Z :=
  (if type =? FTW_F then
     match st with
     | None => undefined
     | Some mode =>
         let fmt := Z.land mode S_IFMT in
         if fmt =? S_IFREG then modify (λ c, c <| nreg ::= Z.succ |>)
         else if fmt =? S_IFBLK then modify (λ c, c <| nblk ::= Z.succ |>)
         else if fmt =? S_IFCHR then modify (λ c, c <| nchr ::= Z.succ |>)
         else if fmt =? S_IFIFO then modify (λ c, c <| nfifo ::= Z.succ |>)
         else if fmt =? S_IFLNK then modify (λ c, c <| nslink ::= Z.succ |>)
         else if fmt =? S_IFSOCK then modify (λ c, c <| nsock ::= Z.succ |>)
         else if fmt =? S_IFDIR then die (ErrDump "for S_IFDIR for %s")
         else mret tt
     end
   else if type =? FTW_D then modify (λ c, c <| ndir ::= Z.succ |>)
   else if type =? FTW_DNR then mret tt
   else if type =? FTW_NS then mret tt
   else die (ErrDump "unknown type %d for pathname %s")) ;;
  mret 0.

(** main: what it exits with, and ntot. *)
Definition ftw_main (lstat : bytes → iores Z) (opendir : bytes → option (list bytes)) (mem : Z → bool)
    (junk : nat → char) (fuel : nat) (argc : Z) (argv1 : bytes) (size : Z) : prog (ftw counts) (Z * Z) :=
  check (argc =? 2) (ErrQuit "usage:  ftw  <starting-pathname>") ;;
  ret ← myftw myfunc lstat opendir mem junk fuel argv1 size;
  c ← gets fw_user;
  let ntot := nreg c + ndir c + nblk c + nchr c + nfifo c + nslink c + nsock c in
  let ntot := if ntot =? 0 then 1 else ntot in
  mret (ret, ntot).
