(* ===== verification/FtwProps.v ===== *)
(** * Properties of the walk of filedir/ftw8.c. *)
From Stdlib Require Import Ascii ZArith Lia.
From stdpp Require Import base strings gmap option list.
From S2P Require Import Prelude CStr PosixFile Sock Ftw.

(** ** The reference: the files of a hierarchy, with full paths *)

(** A call of the user's function: path, mode, type. *)
Definition visit : Type := bytes * option Z * Z.

Section visits.
Context (lstat : bytes → iores Z) (opendir : bytes → option (list bytes)).

(** What there is to visit at [p], a directory before its entries; [None] when the
    hierarchy is deeper than [f]. *)
Fixpoint visits (f : nat) (p : bytes) : option (list visit) :=
  match f with
  | O => None
  | S f' =>
      match lstat p with
      | IoErr _ => Some [(p, None, FTW_NS)]
      | IoOk mode =>
          if negb (is_dir mode) then Some [(p, Some mode, FTW_F)]
          else
            match opendir (p ++ [SLASH]) with
            | None => Some [(p, Some mode, FTW_D); (p ++ [SLASH], Some mode, FTW_DNR)]
            | Some names =>
                l ← mapM (λ name, visits f' (p ++ SLASH :: name)) (filter (λ n, dots n = false) names);
                Some ((p, Some mode, FTW_D) :: concat l)
            end
      end
  end.

(** Names as readdir returns them: strings of at most NAME_MAX bytes. *)
Definition name_ok (name : bytes) : Prop := no_nul name ∧ Z.of_nat (length name) <= NAME_MAX.
Definition names_ok : Prop := ∀ d names, opendir d = Some names → Forall name_ok names.
End visits.

(** The calls, up to the first that does not return 0. *)
Fixpoint run_visits {U} (func : bytes → option Z → Z → prog U Z) (vs : list visit) : prog U Z :=
  match vs with
  | [] => mret 0
  | (p, st, ty) :: vs' =>
      r ← func p st ty;
      if negb (r =? 0) then mret r else run_visits func vs'
  end.

Section walk.
Context {U : Type} (func : bytes → option Z → Z → prog U Z).
Context (lstat : bytes → iores Z) (opendir : bytes → option (list bytes)).
Context (mem : Z → bool) (junk : nat → char).
Context (Hnames : names_ok opendir) (Hmem : ∀ n, mem n = true).
Local Abbreviation dopath := (dopath func lstat opendir mem junk).

Lemma run_visits_app vs1 vs2 u r u' : run_visits func vs1 u = Done r u' →
  run_visits func (vs1 ++ vs2) u = if r =? 0 then run_visits func vs2 u' else Done r u'.
Proof.
  revert u. induction vs1 as [|[[p st] ty] vs1 IH]; intros u; simpl.
  - by intros [= <- <-].
  - unfold mbind, prog_bind. destruct (func p st ty u) as [r1 u1| | |]; try done.
    destruct (r1 =? 0) eqn:E; simpl; [apply IH|]. intros [= <- <-]. by rewrite E.
Qed.

Lemma run_visits_app_not_done vs1 vs2 u r u' : (∀ r u', run_visits func vs1 u ≠ Done r u') →
  run_visits func (vs1 ++ vs2) u ≠ Done r u'.
Proof.
  revert u. induction vs1 as [|[[p st] ty] vs1 IH]; intros u; simpl; [by intros H; destruct (H 0 u)|].
  unfold mbind, prog_bind. destruct (func p st ty u) as [r1 u1| | |]; try done.
  destruct (r1 =? 0) eqn:E; simpl; [apply IH|]. intros H. by destruct (H r1 u1).
Qed.

(** The buffer: allocated as pathlen says, with path [p] in front. *)
Definition holds_path (p : bytes) (w : ftw U) : Prop :=
  ∃ rest, fw_path w = p ++ rest ∧ Z.of_nat (length (fw_path w)) = fw_len w ∧ 256 <= fw_len w < 2 ^ 62 ∧
    Z.of_nat (length p) < fw_len w.
Definition at_path (p : bytes) (w : ftw U) : Prop :=
  holds_path p w ∧ ∃ rest, fw_path w = p ++ NUL :: rest.

Lemma at_path_cstr p w : no_nul p → at_path p w → NUL ∈ fw_path w ∧ cstr (fw_path w) = p.
Proof.
  intros Hp [_ [rest ->]]. split; [apply elem_of_app; right; left|]. by apply cstr_app.
Qed.

Lemma call_func_at p w st ty : no_nul p → at_path p w →
  call_func func st ty w =
  match func p st ty (fw_user w) with
  | Done r u => Done r (w <| fw_user := u |>)
  | Fatal e u => Fatal e (w <| fw_user := u |>)
  | Undef u => Undef (w <| fw_user := u |>)
  | NoFuel => NoFuel
  end.
Proof.
  intros Hp Hw. destruct (at_path_cstr p w Hp Hw) as [H1 H2]. unfold call_func.
  by rewrite bool_decide_true, H2 by done.
Qed.

(** A string behind a prefix of the buffer. *)
Lemma put_at_behind (p rest s : bytes) : (length s <= length rest)%nat →
  put_at (p ++ rest) (length p) s = p ++ s ++ drop (length s) rest.
Proof.
  intros H. rewrite <- (take_drop (length s) rest) at 1. apply put_at_split; [done|]. rewrite length_take. lia.
Qed.

Lemma path_put_behind p s w off : holds_path p w → off = Z.of_nat (length p) →
  Z.of_nat (length p + length s) <= fw_len w →
  ∃ w', path_put off s w = Done tt w' ∧ fw_user w' = fw_user w ∧ fw_len w' = fw_len w ∧
    length (fw_path w') = length (fw_path w) ∧
    ∃ rest, fw_path w = p ++ rest ∧ fw_path w' = p ++ s ++ drop (length s) rest.
Proof.
  intros (rest & Hb & Hl & Hr & Hp) -> Hs. unfold path_put. erewrite (bind_done get) by reflexivity.
  assert (Hle : (length s <= length rest)%nat) by (rewrite Hb, length_app in Hl; lia).
  rewrite bind_defined_true by (apply andb_true_iff; split; apply Z.leb_le; lia).
  eexists. split; [reflexivity|]. simpl. rewrite Nat2Z.id, Hb, put_at_behind by done.
  split_and!; [done|done| |by exists rest]. rewrite !length_app, length_drop. lia.
Qed.

Lemma path_put_string p s w off : holds_path p w → off = Z.of_nat (length p) →
  Z.of_nat (length p + length s) < fw_len w →
  ∃ w', path_put off (s ++ [NUL]) w = Done tt w' ∧ fw_user w' = fw_user w ∧ fw_len w' = fw_len w ∧ at_path (p ++ s) w'.
Proof.
  intros Hw Hoff Hs. pose proof Hw as (rest0 & Hb0 & Hl & Hr & Hp).
  destruct (path_put_behind p (s ++ [NUL]) w off Hw Hoff) as (w' & E & Hu & Hlen & Hlen' & rest & Hb & Hb');
    [rewrite length_app; simpl; lia|].
  exists w'. split; [done|]. split; [done|]. split; [done|].
  rewrite <- (app_assoc s [NUL]), (app_assoc p) in Hb'. split; [|by eexists].
  eexists. split; [exact Hb'|]. rewrite Hlen, Hlen', length_app. split_and!; [done|lia|lia|lia].
Qed.

Lemma holds_prefix p q w : holds_path (p ++ q) w → holds_path p w.
Proof.
  intros (rest & Hb & Hl & Hr & Hp). exists (q ++ rest). rewrite length_app in Hp.
  split_and!; [by rewrite Hb, app_assoc|lia..].
Qed.

(** More room behind the path. *)
Lemma grow_spec p w : at_path p w → Z.of_nat (length p) + NAME_MAX + 2 <= INT_MAX → ∃ w',
  (if fw_len w <? wrap_u 64 (Z.of_nat (length p) + NAME_MAX + 2) then
     modify (λ w, w <| fw_len := wrap_u 64 (fw_len w * 2) |>) ;; path_realloc mem junk
   else mret tt) w = Done tt w' ∧
  fw_user w' = fw_user w ∧ fw_len w <= fw_len w' ∧ at_path p w' ∧ Z.of_nat (length p) + NAME_MAX + 2 <= fw_len w'.
Proof.
  intros [(rest0 & Hb0 & Hl & Hr & Hp) [rest Hb]] Hn. unfold NAME_MAX, INT_MAX in *.
  unfold wrap_u. rewrite (Z.mod_small (_ + _)) by lia.
  destruct (Z.ltb_spec (fw_len w) (Z.of_nat (length p) + 255 + 2)) as [Hlt|Hge].
  - rewrite bind_modify, (Z.mod_small (_ * 2)) by lia.
    unfold path_realloc. erewrite (bind_done get) by reflexivity. rewrite Hmem, bind_check_true by done.
    eexists. split; [reflexivity|]. unfold at_path, holds_path. simpl.
    assert (Htk : take (Z.to_nat (fw_len w * 2)) (fw_path w) = fw_path w) by (apply take_ge; lia).
    rewrite Htk. set (fr := fresh_mem _ _ _).
    assert (Hfr : length fr = (Z.to_nat (fw_len w * 2) - length (fw_path w))%nat)
      by (unfold fr, fresh_mem; rewrite length_fmap; apply length_seq).
    split; [done|]. split; [lia|]. split; [|lia]. split.
    + exists (NUL :: rest ++ fr). rewrite length_app, Hfr, Hb. split; [by rewrite <- app_assoc|].
      rewrite <- Hb. split_and!; lia.
    + exists (rest ++ fr). by rewrite Hb, <- app_assoc.
  - exists w. split; [done|]. split; [done|]. split; [lia|]. split; [|lia].
    split; [by exists rest0|by exists rest].
Qed.

(** What a walk does: the reference's calls, and the path stays in front of the buffer. *)
Definition walks (m : prog (ftw U) Z) (p : bytes) (vs : list visit) (w : ftw U) : Prop :=
  ∀ r u, run_visits func vs (fw_user w) = Done r u →
    ∃ w', m w = Done r w' ∧ fw_user w' = u ∧ holds_path p w' ∧ fw_len w <= fw_len w'.

Lemma dir_loop_spec (go : prog (ftw U) Z) (vis : bytes → option (list visit)) p names : ∀ l w,
  (∀ name vs w, name ∈ names → vis name = Some vs → at_path (p ++ SLASH :: name) w → walks go (p ++ SLASH :: name) vs w) →
  mapM vis (filter (λ n, dots n = false) names) = Some l → Forall name_ok names →
  holds_path (p ++ [SLASH]) w → Z.of_nat (length p) + NAME_MAX + 2 <= fw_len w →
  walks (dir_loop go (Z.of_nat (length p) + 1) names 0) (p ++ [SLASH]) (concat l) w.
Proof.
  induction names as [|name names IH]; intros l w Hvis Hl Hok Hw Hroom r u Hrun.
  { rewrite filter_nil in Hl. simpl in Hl. injection Hl as <-. simpl in Hrun. injection Hrun as <- <-. by exists w. }
  apply Forall_cons in Hok as [[Hnn Hnl] Hok]. cbn [dir_loop].
  destruct (dots name) eqn:Hd.
  { rewrite filter_cons_False in Hl by congruence.
    apply (IH l w); try done. intros name' vs w' Hin. apply Hvis. by right. }
  rewrite filter_cons_True in Hl by done. simpl in Hl.
  destruct (vis name) as [vs|] eqn:Hvs; [|done]. simpl in Hl.
  destruct (mapM vis _) as [l'|] eqn:Hl'; [|done]. simpl in Hl. injection Hl as <-. cbn [concat] in Hrun.
  rewrite cstr_id by done. unfold NAME_MAX in *.
  destruct (path_put_string (p ++ [SLASH]) name w (Z.of_nat (length p) + 1) Hw) as (w1 & E & Hu & Hlen & Hat);
    [rewrite length_app; simpl; lia|rewrite length_app; simpl; lia|].
  rewrite <- app_assoc in Hat. cbn [app] in Hat. erewrite bind_done by exact E.
  destruct (run_visits func vs (fw_user w)) as [r1 u1| | |] eqn:Hr1.
  2-4: by apply run_visits_app_not_done in Hrun; [|intros ? ?; rewrite Hr1].
  rewrite (run_visits_app _ _ _ _ _ Hr1) in Hrun.
  destruct (Hvis name vs w1 ltac:(left) Hvs Hat r1 u1) as (w2 & E2 & Hu2 & Hw2 & Hlen2); [by rewrite Hu|].
  erewrite bind_done by exact E2. change (SLASH :: name) with ([SLASH] ++ name) in Hw2.
  rewrite app_assoc in Hw2. apply holds_prefix in Hw2.
  destruct (r1 =? 0) eqn:Hz; cbn [negb].
  - apply Z.eqb_eq in Hz as ->. destruct (IH l' w2) with (r := r) (u := u) as (w3 & E3 & Hu3 & Hw3 & Hlen3); try done.
    + intros name' vs' w' Hin. apply Hvis. by right.
    + lia.
    + by rewrite Hu2.
    + exists w3. split_and!; [done|done|done|lia].
  - injection Hrun as <- <-. exists w2. split_and!; [done|done|done|lia].
Qed.

Lemma path_strlen_at p w : no_nul p → at_path p w → Z.of_nat (length p) <= INT_MAX →
  path_strlen w = Done (Z.of_nat (length p)) w.
Proof.
  intros Hnn Hw Hlen. destruct (at_path_cstr p w Hnn Hw) as [H1 H2].
  unfold path_strlen. erewrite (bind_done get) by reflexivity.
  rewrite bind_defined_true by (by apply bool_decide_true). unfold strlen. rewrite H2.
  unfold wrap_s, INT_MAX in *. rewrite Z.mod_small by lia.
  by destruct (Z.ltb_spec (Z.of_nat (length p)) (2 ^ (32 - 1))); [|lia].
Qed.

Lemma run_cons p st ty vs u0 r u : run_visits func ((p, st, ty) :: vs) u0 = Done r u →
  ∃ r1 u1, func p st ty u0 = Done r1 u1 ∧ if r1 =? 0 then run_visits func vs u1 = Done r u else r1 = r ∧ u1 = u.
Proof.
  simpl. unfold mbind, prog_bind. destruct (func p st ty u0) as [r1 u1| | |]; try done.
  intros H. exists r1, u1. split; [done|]. destruct (r1 =? 0); simpl in H; [done|by injection H].
Qed.

Lemma call_func_walks p st ty w : no_nul p → at_path p w → walks (call_func func st ty) p [(p, st, ty)] w.
Proof.
  intros Hnn Hat r u Hrun. apply run_cons in Hrun as (r1 & u1 & Hf & Hz). rewrite (call_func_at p), Hf by done.
  assert (r1 = r ∧ u1 = u) as [-> ->].
  { destruct (Z.eqb_spec r1 0) as [->|]; [|done]. by injection Hz. }
  eexists. split; [done|]. split_and!; [done|apply Hat|done].
Qed.

(** The slash behind the name of a directory. *)
Lemma slash_spec p w n : at_path p w → n = Z.of_nat (length p) → n + 2 <= fw_len w → ∃ w1 w2,
  path_put n [SLASH] w = Done tt w1 ∧ path_put (n + 1) [NUL] w1 = Done tt w2 ∧
  fw_user w2 = fw_user w ∧ fw_len w2 = fw_len w ∧ at_path (p ++ [SLASH]) w2.
Proof.
  intros [Hw _] -> Hn. pose proof Hw as (rest0 & Hb0 & Hl & Hr & Hp).
  destruct (path_put_behind p [SLASH] w _ Hw eq_refl) as (w1 & E1 & Hu1 & Hl1 & Hlen1 & rest & Hb & Hb1); [simpl; lia|].
  assert (Hw1 : holds_path (p ++ [SLASH]) w1).
  { exists (drop 1 rest). rewrite length_app. simpl. split_and!; [by rewrite Hb1, app_assoc|lia..]. }
  destruct (path_put_string (p ++ [SLASH]) [] w1 (Z.of_nat (length p) + 1) Hw1) as (w2 & E2 & Hu2 & Hl2 & Hat);
    [rewrite length_app; simpl; lia..|].
  rewrite app_nil_r in Hat. exists w1, w2. split_and!; [done|done|congruence|congruence|done].
Qed.

(** Cutting the path again. *)
Lemma cut_spec p w n : holds_path p w → n = Z.of_nat (length p) →
  ∃ w', path_put n [NUL] w = Done tt w' ∧ fw_user w' = fw_user w ∧ fw_len w' = fw_len w ∧ holds_path p w'.
Proof.
  intros Hw Hn. pose proof Hw as (rest & Hb & Hl & Hr & Hp).
  destruct (path_put_string p [] w n Hw Hn) as (w' & E & Hu & Hlen & Hat); [simpl; lia|].
  rewrite app_nil_r in Hat. exists w'. split_and!; [done..|apply Hat].
Qed.

Lemma no_nul_entry p q : no_nul p → no_nul q → no_nul (p ++ SLASH :: q).
Proof. intros Hp Hq. apply no_nul_app. split; [done|]. by apply no_nul_cons. Qed.

(** The calls below a directory. *)
Definition below (f : nat) (p : bytes) (mode : Z) (vs : list visit) : Prop :=
  match opendir (p ++ [SLASH]) with
  | None => vs = [(p ++ [SLASH], Some mode, FTW_DNR)]
  | Some names => ∃ l, mapM (λ name, visits lstat opendir f (p ++ SLASH :: name)) (filter (λ n, dots n = false) names) = Some l ∧ vs = concat l
  end.

Lemma visits_dir f p mode vs : lstat p = IoOk mode → is_dir mode = true → visits lstat opendir (S f) p = Some vs →
  ∃ vs', vs = (p, Some mode, FTW_D) :: vs' ∧ below f p mode vs'.
Proof.
  intros Hs Hd. cbn [visits]. rewrite Hs, Hd. cbn [negb]. unfold below.
  destruct (opendir _) as [names|]; [|intros [= <-]; by eexists].
  destruct (mapM _ _) as [l|]; [|done]. intros [= <-]. eexists. split; [done|]. by exists l.
Qed.

(** From the slash on. *)
Lemma entries_spec f p mode vs w n : 
  (∀ name vs w, name_ok name → visits lstat opendir f (p ++ SLASH :: name) = Some vs →
    at_path (p ++ SLASH :: name) w → walks (dopath f) (p ++ SLASH :: name) vs w) →
  below f p mode vs → no_nul p → at_path p w → n = Z.of_nat (length p) → n + NAME_MAX + 2 <= fw_len w →
  walks (path_put n [SLASH] ;;
         let n := n + 1 in
         path_put n [NUL] ;;
         w ← get;
         match opendir (cstr (fw_path w)) with
         | None => call_func func (Some mode) FTW_DNR
         | Some names =>
             ret ← dir_loop (dopath f) n names 0;
             path_put (n - 1) [NUL] ;;
             mret ret
         end) p vs w.
Proof.
  intros IH Hb Hnn Hat -> Hroom r u Hrun. unfold NAME_MAX in *.
  destruct (slash_spec p w _ Hat eq_refl) as (w1 & w2 & E1 & E2 & Hu & Hl & Hat2); [lia|].
  erewrite bind_done by exact E1. cbv zeta. erewrite bind_done by exact E2. erewrite (bind_done get) by reflexivity.
  assert (Hnn2 : no_nul (p ++ [SLASH])) by (apply no_nul_entry; [done|apply no_nul_nil]).
  destruct (at_path_cstr _ _ Hnn2 Hat2) as [_ ->]. unfold below in Hb. rewrite <- Hu in Hrun.
  destruct (opendir (p ++ [SLASH])) as [names|] eqn:Ho.
  - destruct Hb as (l & Hl' & ->). pose proof (Hnames _ _ Ho) as Hok.
    destruct (dir_loop_spec (dopath f) (λ name, visits lstat opendir f (p ++ SLASH :: name)) p names l w2) with (r := r) (u := u) as (w3 & E3 & Hu3 & Hw3 & Hlen3); try done.
    + intros name vs w0 Hin. rewrite Forall_forall in Hok. apply IH. by apply Hok.
    + apply Hat2.
    + unfold NAME_MAX. lia.
    + erewrite bind_done by exact E3. apply holds_prefix in Hw3.
      destruct (cut_spec p w3 (Z.of_nat (length p) + 1 - 1) Hw3) as (w4 & E4 & Hu4 & Hl4 & Hw4); [lia|].
      erewrite bind_done by exact E4. exists w4. split_and!; [done|congruence|done|lia].
  - subst vs. destruct (call_func_walks _ (Some mode) FTW_DNR w2 Hnn2 Hat2 r u Hrun) as (w3 & E3 & Hu3 & Hw3 & Hl3).
    exists w3. split_and!; [done|done|by apply holds_prefix in Hw3|lia].
Qed.

Lemma dopath_spec f : ∀ p vs w, visits lstat opendir f p = Some vs → no_nul p → at_path p w →
  Z.of_nat (length p) + 256 * Z.of_nat f + 1 <= INT_MAX → walks (dopath f) p vs w.
Proof.
  induction f as [|f IH]; intros p vs w Hvs Hnn Hat Hlen; [done|]. cbn [Ftw.dopath].
  destruct (at_path_cstr p w Hnn Hat) as [HN Hc]. intros r u Hrun. unfold INT_MAX in *.
  erewrite (bind_done get) by reflexivity. rewrite bind_defined_true by (by apply bool_decide_true). rewrite Hc.
  destruct (lstat p) as [e|mode] eqn:Hs; [cbn in Hvs; rewrite Hs in Hvs; injection Hvs as <-; by apply call_func_walks|].
  destruct (is_dir mode) eqn:Hd; cbn [negb];
    [|cbn in Hvs; rewrite Hs, Hd in Hvs; injection Hvs as <-; by apply call_func_walks].
  destruct (visits_dir _ _ _ _ Hs Hd Hvs) as (vs' & -> & Hb). apply run_cons in Hrun as (r1 & u1 & Hf & Hrest).
  erewrite bind_done by (rewrite (call_func_at p), Hf by done; reflexivity).
  destruct (Z.eqb_spec r1 0) as [->|Hz]; cbn [negb];
    [|destruct Hrest as [-> ->]; eexists; split; [done|]; split_and!; [done|apply Hat|done]].
  erewrite bind_done by (apply (path_strlen_at p); [done|exact Hat|unfold INT_MAX; lia]).
  rewrite bind_defined_true by (apply Z.leb_le; unfold NAME_MAX, INT_MAX; lia).
  erewrite (bind_done get) by reflexivity.
  destruct (grow_spec p (Ftw (fw_path w) (fw_len w) u1) Hat) as (w1 & E1 & Hu1 & Hl1 & Hat1 & Hroom); [unfold NAME_MAX, INT_MAX; lia|].
  erewrite bind_done by exact E1.
  destruct (entries_spec f p mode vs' w1 (Z.of_nat (length p))) with (r := r) (u := u) as (w2 & E2 & Hu2 & Hw2 & Hl2); try done.
  - intros name vs w0 [Hn1 Hn2] Hv Hw0. unfold NAME_MAX in *. apply (IH _ vs); [done|by apply no_nul_entry|done|].
    rewrite length_app. cbn [length]. unfold INT_MAX. lia.
  - by rewrite Hu1.
  - exists w2. split_and!; [exact E2|done|done|]. cbn in Hl1. lia.
Qed.

Lemma fresh_mem_length from n : length (fresh_mem junk from n) = n.
Proof. unfold fresh_mem. by rewrite length_fmap, length_seq. Qed.

Lemma take_fresh n k : (k <= n)%nat → length (take k (fresh_mem junk 0 n)) = k.
Proof. intros. rewrite length_take, fresh_mem_length. lia. Qed.

(** The start: the argument is copied to a buffer that has room for it. *)
Lemma myftw_start f pathname size w : no_nul pathname → 256 <= size < 2 ^ 61 → Z.of_nat (length pathname) < 2 ^ 31 →
  ∃ w1, myftw func lstat opendir mem junk f pathname size w = dopath f w1 ∧ fw_user w1 = fw_user w ∧ at_path pathname w1.
Proof.
  intros Hnn Hsz Hlen. unfold myftw. rewrite bind_modify. unfold strlen. rewrite (cstr_id pathname) by done.
  set (w1 := w <| fw_path := _ |> <| fw_len := _ |>).
  assert (∃ w2, (if size <=? Z.of_nat (length pathname) then
     modify (λ w : ftw U, w <| fw_len := wrap_u 64 (Z.of_nat (length pathname) * 2) |>) ;; path_realloc mem junk
   else mret tt) w1 = Done tt w2 ∧ fw_user w2 = fw_user w ∧ holds_path [] w2 ∧ Z.of_nat (length pathname) < fw_len w2)
    as (w2 & E & Hu & Hw2 & Hroom).
  { unfold wrap_u. destruct (Z.leb_spec size (Z.of_nat (length pathname))).
    - rewrite bind_modify, Z.mod_small by lia. unfold path_realloc. erewrite (bind_done get) by reflexivity.
      rewrite Hmem, bind_check_true by done. eexists. split; [reflexivity|]. split; [done|]. split; [|simpl; lia].
      eexists. split; [reflexivity|]. simpl. rewrite length_app, length_take, !fresh_mem_length.
      split_and!; lia.
    - eexists. split; [reflexivity|]. split; [done|]. split; [|simpl; lia].
      eexists. split; [reflexivity|]. simpl. rewrite fresh_mem_length. lia. }
  erewrite bind_done by exact E.
  destruct (path_put_string [] pathname w2 0 Hw2 eq_refl) as (w3 & E3 & Hu3 & Hl3 & Hat); [simpl; lia|].
  erewrite bind_done by exact E3. exists w3. split; [done|]. split; [congruence|done].
Qed.

Lemma myftw_spec f pathname size w vs r u : no_nul pathname → 256 <= size < 2 ^ 61 →
  Z.of_nat (length pathname) + 256 * Z.of_nat f + 1 <= INT_MAX →
  visits lstat opendir f pathname = Some vs → run_visits func vs (fw_user w) = Done r u →
  ∃ w', myftw func lstat opendir mem junk f pathname size w = Done r w' ∧ fw_user w' = u.
Proof.
  intros Hnn Hsz Hlen Hvs Hrun. unfold INT_MAX in Hlen.
  destruct (myftw_start f pathname size w Hnn Hsz) as (w1 & E & Hu & Hat); [lia|].
  rewrite E. rewrite <- Hu in Hrun.
  destruct (dopath_spec f pathname vs w1 Hvs Hnn Hat Hlen r u Hrun) as (w' & E' & Hu' & _). by exists w'.
Qed.
End walk.

(** ** The hierarchy as a set of paths *)

(** The files at and below [root]. *)
Inductive tree (lstat : bytes → iores Z) (opendir : bytes → option (list bytes)) (root : bytes) : bytes → Prop :=
  | tree_root : tree lstat opendir root root
  | tree_entry d mode names name : tree lstat opendir root d → lstat d = IoOk mode → is_dir mode = true →
      opendir (d ++ [SLASH]) = Some names → name ∈ names → dots name = false →
      tree lstat opendir root (d ++ SLASH :: name).

Definition vpath (v : visit) : bytes := v.1.1.

Section tree.
Context (lstat : bytes → iores Z) (opendir : bytes → option (list bytes)).
Local Abbreviation visits := (visits lstat opendir).
Local Abbreviation tree := (tree lstat opendir).

(** The path itself, or something behind it and a slash. *)
Definition extends (p q : bytes) : Prop := q = p ∨ ∃ t, q = p ++ SLASH :: t.

Lemma extends_up p t q : extends (p ++ SLASH :: t) q → extends p q ∧ q ≠ p.
Proof.
  intros [->|[t' ->]].
  - split; [right; by exists t|]. intros H. apply (f_equal length) in H. rewrite length_app in H. simpl in H. lia.
  - rewrite <- app_assoc. cbn [app]. split; [right; by eexists|].
    intros H. apply (f_equal length) in H. rewrite length_app in H. simpl in H. lia.
Qed.

Lemma extends_names p n1 n2 q : SLASH ∉ n1 → SLASH ∉ n2 → extends (p ++ SLASH :: n1) q → extends (p ++ SLASH :: n2) q → n1 = n2.
Proof.
  intros H1 H2 Hq1 Hq2.
  assert (Hx : ∃ t1 t2, n1 ++ t1 = n2 ++ t2 ∧ (t1 = [] ∨ ∃ t, t1 = SLASH :: t) ∧ (t2 = [] ∨ ∃ t, t2 = SLASH :: t)).
  { destruct Hq1 as [->|[t1 ->]], Hq2 as [E|[t2 E]]; rewrite <- ?app_assoc in E; simpl in E; apply app_inv_head in E; injection E as E.
    - exists [], []. rewrite !app_nil_r. auto.
    - exists [], (SLASH :: t2). rewrite app_nil_r. split_and!; [done|by left|right; by eexists].
    - exists (SLASH :: t1), []. rewrite app_nil_r. split_and!; [done|right; by eexists|by left].
    - exists (SLASH :: t1), (SLASH :: t2). split_and!; [done|right; by eexists|right; by eexists]. }
  destruct Hx as (t1 & t2 & E & Ht1 & Ht2). clear Hq1 Hq2. revert n2 H2 E.
  induction n1 as [|c n1 IH]; intros [|c' n2] H2 E; simpl in E; [done|..].
  - destruct Ht1 as [->|[t ->]]; [done|]. injection E as <- _. destruct H2. left.
  - destruct Ht2 as [->|[t ->]]; [done|]. injection E as -> _. destruct H1. left.
  - injection E as -> E. f_equal. apply IH; [intros ?; apply H1; by right|intros ?; apply H2; by right|done].
Qed.

(** What is visited in a directory, entry by entry. *)
Lemma mapM_concat_elem {A} (g : A → option (list visit)) ns : ∀ l v, mapM g ns = Some l →
  v ∈ concat l ↔ ∃ n vs, n ∈ ns ∧ g n = Some vs ∧ v ∈ vs.
Proof.
  induction ns as [|n ns IH]; intros l v H; simpl in H.
  { injection H as <-. split; [by intros ?%not_elem_of_nil|]. by intros (? & ? & ?%not_elem_of_nil & _). }
  destruct (g n) as [vs|] eqn:Hn; [|done]. simpl in H. destruct (mapM g ns) as [l'|]; [|done]. injection H as <-.
  cbn [concat]. rewrite elem_of_app, (IH l' v eq_refl). split.
  - intros [Hv|(n' & vs' & Hin & Hn' & Hv)]; [exists n, vs; split; [by left|done]|exists n', vs'; split; [by right|done]].
  - intros (n' & vs' & [->|Hin]%elem_of_cons & Hn' & Hv); [left|right; by exists n', vs'].
    by assert (vs = vs') as -> by congruence.
Qed.

Lemma mapM_Some_elem {A B} (g : A → option B) ns l n : mapM g ns = Some l → n ∈ ns → is_Some (g n).
Proof.
  revert l. induction ns as [|n' ns IH]; intros l H Hin; [by apply not_elem_of_nil in Hin|]. simpl in H.
  destruct (g n') as [vs|] eqn:Hn; [|done]. simpl in H. destruct (mapM g ns) as [l'|]; [|done].
  apply elem_of_cons in Hin as [->|Hin]; [by rewrite Hn|]. by apply (IH l').
Qed.

Lemma mapM_concat_nodup {A} (g : A → option (list visit)) (R : A → bytes → Prop) ns : ∀ l, mapM g ns = Some l →
  NoDup ns → (∀ n vs, n ∈ ns → g n = Some vs → NoDup (vpath <$> vs) ∧ ∀ v, v ∈ vs → R n (vpath v)) →
  (∀ n1 n2 q, n1 ∈ ns → n2 ∈ ns → R n1 q → R n2 q → n1 = n2) → NoDup (vpath <$> concat l).
Proof.
  induction ns as [|n ns IH]; intros l H Hnd Hvs HR; simpl in H; [injection H as <-; constructor|].
  destruct (g n) as [vs|] eqn:Hn; [|done]. simpl in H. destruct (mapM g ns) as [l'|] eqn:Hl; [|done]. injection H as <-.
  apply NoDup_cons in Hnd as [Hnin Hnd]. cbn [concat]. rewrite fmap_app. apply NoDup_app.
  destruct (Hvs n vs ltac:(left) Hn) as [Hndn HRn]. split; [done|]. split.
  - intros q (v & -> & Hv)%list_elem_of_fmap (v' & E & Hv')%list_elem_of_fmap.
    apply (mapM_concat_elem g ns l' v' Hl) in Hv' as (n' & vs' & Hin & Hn' & Hv').
    destruct (Hvs n' vs' ltac:(by right) Hn') as [_ HRn']. apply HRn in Hv. apply HRn' in Hv'.
    rewrite <- E in Hv'. apply Hnin. by rewrite (HR n n' (vpath v) ltac:(left) ltac:(by right) Hv Hv').
  - apply (IH l'); [done|done| |].
    + intros n' vs' Hin. apply Hvs. by right.
    + intros n1 n2 q H1 H2. apply HR; by right.
Qed.

(** The three shapes of a result. *)
Lemma visits_cases f p vs : visits (S f) p = Some vs →
  (∃ st ty, vs = [(p, st, ty)] ∧ ty ≠ FTW_DNR ∧ ∀ mode, lstat p = IoOk mode → is_dir mode = false) ∨
  ∃ mode, lstat p = IoOk mode ∧ is_dir mode = true ∧
    match opendir (p ++ [SLASH]) with
    | None => vs = [(p, Some mode, FTW_D); (p ++ [SLASH], Some mode, FTW_DNR)]
    | Some names => ∃ l, mapM (λ name, visits f (p ++ SLASH :: name)) (filter (λ n, dots n = false) names) = Some l ∧
        vs = (p, Some mode, FTW_D) :: concat l
    end.
Proof.
  cbn. destruct (lstat p) as [e|mode]; [intros [= <-]; left; by eexists _, _|].
  destruct (is_dir mode) eqn:Hd; cbn [negb].
  - intros H. right. exists mode. split; [done|]. split; [done|]. destruct (opendir _) as [names|]; [|by injection H].
    destruct (mapM _ _) as [l|]; [|done]. injection H as <-. by exists l.
  - intros [= <-]. left. eexists _, _. split_and!; [done|done|]. intros ? [= <-]. done.
Qed.

Lemma visits_extend f : ∀ p vs v, visits f p = Some vs → v ∈ vs → extends p (vpath v).
Proof.
  induction f as [|f IH]; intros p vs v Hvs Hv; [done|].
  apply visits_cases in Hvs as [(st & ty & -> & _)|(mode & _ & _ & H)].
  - left. by apply list_elem_of_singleton in Hv as ->.
  - destruct (opendir (p ++ [SLASH])) as [names|].
    + destruct H as (l & Hl & ->). apply elem_of_cons in Hv as [->|Hv]; [by left|].
      apply (mapM_concat_elem _ _ _ _ Hl) in Hv as (name & vs & _ & Hn & Hv).
      apply (extends_up p name). by apply (IH _ vs).
    + subst vs. apply elem_of_cons in Hv as [->|Hv]; [by left|].
      apply list_elem_of_singleton in Hv as ->. right. by exists [].
Qed.

(** Directories have each name once, and no name has a slash. *)
Definition dirs_ok : Prop := ∀ d names, opendir d = Some names → NoDup names ∧ Forall (λ n, SLASH ∉ n) names.

Lemma visits_nodup f : dirs_ok → ∀ p vs, visits f p = Some vs → NoDup (vpath <$> vs).
Proof.
  intros Hok. induction f as [|f IH]; intros p vs Hvs; [done|].
  apply visits_cases in Hvs as [(st & ty & -> & _)|(mode & _ & _ & H)]; [apply NoDup_singleton|].
  destruct (opendir (p ++ [SLASH])) as [names|] eqn:Ho.
  - destruct H as (l & Hl & ->). destruct (Hok _ _ Ho) as [Hnd Hns]. rewrite Forall_forall in Hns. cbn [fmap list_fmap].
    apply NoDup_cons. split.
    + intros (v & E & Hv)%list_elem_of_fmap. apply (mapM_concat_elem _ _ _ _ Hl) in Hv as (name & vs & _ & Hn & Hv).
      apply (visits_extend f _ vs v Hn), extends_up in Hv as [_ Hv]. by destruct Hv.
    + apply (mapM_concat_nodup _ (λ n, extends (p ++ SLASH :: n)) _ _ Hl); [by apply NoDup_filter| |].
      * intros n vs _ Hn. split; [by apply (IH _ _ Hn)|]. intros v Hv. by apply (visits_extend f _ vs v Hn).
      * intros n1 n2 q [_ H1]%list_elem_of_filter [_ H2]%list_elem_of_filter. apply extends_names; by apply Hns.
  - subst vs. cbn. apply NoDup_cons. split; [|apply NoDup_singleton].
    intros E%list_elem_of_singleton. apply (f_equal length) in E. rewrite length_app in E. simpl in E. lia.
Qed.

Lemma tree_trans root d q : tree root d → tree d q → tree root q.
Proof. intros H1 H2. induction H2; [done|]. by eapply tree_entry. Qed.

Lemma tree_inv root q : tree root q → q = root ∨ ∃ mode names name, lstat root = IoOk mode ∧ is_dir mode = true ∧
  opendir (root ++ [SLASH]) = Some names ∧ name ∈ names ∧ dots name = false ∧ tree (root ++ SLASH :: name) q.
Proof.
  induction 1 as [|d mode names name Ht IHt Hs Hd Ho Hin Hdots]; [by left|right].
  destruct IHt as [->|(mode' & names' & name' & ? & ? & ? & ? & ? & Ht')].
  - exists mode, names, name. split_and!; try done. apply tree_root.
  - exists mode', names', name'. split_and!; try done. by eapply tree_entry.
Qed.

(** The visited files, without the second call for a directory that cannot be read. *)
Lemma visits_tree f : ∀ p vs q, visits f p = Some vs →
  tree p q ↔ ∃ st ty, (q, st, ty) ∈ vs ∧ ty ≠ FTW_DNR.
Proof.
  induction f as [|f IH]; intros p vs q Hvs; [done|].
  apply visits_cases in Hvs as [(st & ty & -> & Hty & Hnd)|(mode & Hs & Hd & H)].
  - split.
    + intros [->|(mode & ? & ? & Hs & Hd & _)]%tree_inv; [exists st, ty; split; [left|done]|].
      by rewrite (Hnd _ Hs) in Hd.
    + intros (? & ? & [= -> _ _]%list_elem_of_singleton & _). apply tree_root.
  - assert (Hdir : ∃ vs', vs = (p, Some mode, FTW_D) :: vs' ∧ ((∃ st ty, (q, st, ty) ∈ vs' ∧ ty ≠ FTW_DNR) ↔
      ∃ names name, opendir (p ++ [SLASH]) = Some names ∧ name ∈ names ∧ dots name = false ∧ tree (p ++ SLASH :: name) q)).
    { destruct (opendir (p ++ [SLASH])) as [names|].
      - destruct H as (l & Hl & ->). exists (concat l). split; [done|]. split.
        + intros (st & ty & Hv & Hty). apply (mapM_concat_elem _ _ _ _ Hl) in Hv as (name & vs & [Hdt Hin]%list_elem_of_filter & Hn & Hv).
          exists names, name. split_and!; try done. apply (IH _ _ _ Hn). by exists st, ty.
        + intros (? & name & [= <-] & Hin & Hdt & Ht).
          assert (is_Some (visits f (p ++ SLASH :: name))) as [sub Hn].
          { eapply (mapM_Some_elem _ _ _ name Hl). by apply list_elem_of_filter. }
          destruct (proj1 (IH _ _ q Hn) Ht) as (st & ty & Hv & Hty). exists st, ty. split; [|done].
          apply (mapM_concat_elem _ _ _ _ Hl). exists name, sub. split_and!; try done. by apply list_elem_of_filter.
      - eexists. split; [exact H|]. split; [|by intros (? & ? & ? & _)].
        intros (? & ? & [= -> -> ->]%list_elem_of_singleton & []). done. }
    destruct Hdir as (vs' & -> & Hbelow). split.
    + intros [->|(mode' & names & name & _ & _ & Ho & Hin & Hdt & Ht)]%tree_inv.
      * exists (Some mode), FTW_D. split; [left|done].
      * destruct Hbelow as [_ Hb]. destruct Hb as (st & ty & Hv & Hty); [by exists names, name|].
        exists st, ty. split; [by right|done].
    + intros (st & ty & [[= -> _ _]|Hv]%elem_of_cons & Hty); [apply tree_root|].
      destruct Hbelow as [Hb _]. destruct Hb as (names & name & Ho & Hin & Hdt & Ht); [by exists st, ty|].
      eapply tree_trans; [|exact Ht]. eapply tree_entry; [apply tree_root|done..].
Qed.
End tree.

(** ** The program: path_alloc and the counters *)

(** The mode of a file that is no directory has format [fmt]. *)
Definition has_fmt (fmt : Z) (v : visit) : bool :=
  match v with
  | (_, Some mode, ty) => (ty =? FTW_F) && (Z.land mode S_IFMT =? fmt)
  | _ => false
  end.
Definition is_dir_visit (v : visit) : bool := v.2 =? FTW_D.
Definition how_many (P : visit → bool) (vs : list visit) : Z := Z.of_nat (length (filter (λ v, P v = true) vs)).

Definition tally (vs : list visit) : counts :=
  Counts (how_many (has_fmt S_IFREG) vs) (how_many is_dir_visit vs) (how_many (has_fmt S_IFBLK) vs)
    (how_many (has_fmt S_IFCHR) vs) (how_many (has_fmt S_IFIFO) vs) (how_many (has_fmt S_IFLNK) vs)
    (how_many (has_fmt S_IFSOCK) vs).

Definition add_counts (a b : counts) : counts :=
  Counts (nreg a + nreg b) (ndir a + ndir b) (nblk a + nblk b) (nchr a + nchr b) (nfifo a + nfifo b)
    (nslink a + nslink b) (nsock a + nsock b).

(** A call as the walk makes it. *)
Definition sound_visit (v : visit) : Prop :=
  match v with
  | (_, Some mode, ty) => ty = FTW_F ∧ is_dir mode = false ∨ ty = FTW_D ∨ ty = FTW_DNR
  | (_, None, ty) => ty = FTW_NS
  end.

Lemma how_many_cons P v vs : how_many P (v :: vs) = (if P v then 1 else 0) + how_many P vs.
Proof.
  unfold how_many. rewrite filter_cons. destruct (P v); [rewrite decide_True by done|rewrite decide_False by done];
    cbn [length]; lia.
Qed.

Lemma tally_cons v vs c : add_counts c (tally (v :: vs)) = add_counts (add_counts c (tally [v])) (tally vs).
Proof.
  unfold add_counts, tally. cbn [nreg ndir nblk nchr nfifo nslink nsock].
  assert (Hnil : ∀ P, how_many P [] = 0) by done. rewrite !how_many_cons, !Hnil. f_equal; lia.
Qed.

Lemma fmt_ne m a b : (m =? a) = true → (a =? b) = false → (m =? b) = false.
Proof. by intros ->%Z.eqb_eq. Qed.

Ltac count_fields := cbn; unfold mbind, prog_bind, modify; cbn; do 2 f_equal; lia.

Lemma myfunc_visit p st ty c : sound_visit (p, st, ty) → myfunc p st ty c = Done 0 (add_counts c (tally [(p, st, ty)])).
Proof.
  intros H. assert (Hnil : ∀ P, how_many P [] = 0) by done. destruct c as [a1 a2 a3 a4 a5 a6 a7].
  unfold tally, add_counts. rewrite !how_many_cons, !Hnil. cbn [nreg ndir nblk nchr nfifo nslink nsock].
  destruct st as [mode|]; cbn in H; [destruct H as [[-> Hd]|[-> | ->]]|subst ty];
    [|count_fields..].
  unfold is_dir in Hd. unfold myfunc, has_fmt, is_dir_visit. cbn [snd FTW_F FTW_D Z.eqb Pos.eqb andb].
  set (m := Z.land mode S_IFMT) in *. rewrite Hd.
  repeat match goal with |- context [if m =? ?k then _ else _] =>
    let E := fresh in destruct (Z.eqb_spec m k) as [E|E]; [rewrite ?E; count_fields|] end.
  count_fields.
Qed.

Lemma run_myfunc vs c : Forall sound_visit vs → run_visits myfunc vs c = Done 0 (add_counts c (tally vs)).
Proof.
  revert c. induction vs as [|[[p st] ty] vs IH]; intros c Hs.
  - destruct c. cbn. unfold add_counts, tally, how_many. cbn. do 2 f_equal; lia.
  - apply Forall_cons in Hs as [Hv Hs]. cbn [run_visits]. erewrite bind_done by (by apply myfunc_visit).
    cbn [negb Z.eqb]. rewrite (tally_cons (p, st, ty) vs). by apply IH.
Qed.

Lemma visits_sound lstat opendir f : ∀ p vs, visits lstat opendir f p = Some vs → Forall sound_visit vs.
Proof.
  induction f as [|f IH]; intros p vs Hvs; [done|]. cbn in Hvs.
  destruct (lstat p) as [e|mode]; [injection Hvs as <-; by repeat constructor|].
  destruct (is_dir mode) eqn:Hd; cbn [negb] in Hvs; [|injection Hvs as <-; constructor; [by left|constructor]].
  destruct (opendir _) as [names|]; [|injection Hvs as <-; constructor; [naive_solver|constructor; [naive_solver|constructor]]].
  destruct (mapM _ _) as [l|] eqn:Hl; [|done]. injection Hvs as <-. constructor; [naive_solver|].
  apply Forall_forall. intros v Hv. apply (mapM_concat_elem _ _ _ _ Hl) in Hv as (name & vs & _ & Hn & Hv).
  specialize (IH _ _ Hn). rewrite Forall_forall in IH. by apply IH.
Qed.

Definition total (c : counts) : Z := nreg c + ndir c + nblk c + nchr c + nfifo c + nslink c + nsock c.
Definition no_counts : counts := Counts 0 0 0 0 0 0 0.

Lemma tally_nonneg vs : 0 <= total (tally vs).
Proof. unfold total, tally, how_many. cbn. lia. Qed.

Lemma path_alloc_size version xopen limit : (∀ n, limit = Some n → 255 <= n < 2 ^ 60) → ∃ size pa,
  path_alloc version xopen (IoOk limit) true (PAlloc 0 0 0) = Done size pa ∧ 256 <= size < 2 ^ 61.
Proof.
  intros H. unfold path_alloc. cbn. unfold mbind, prog_bind, get, modify, check. cbn.
  destruct limit as [n|]; cbn; [specialize (H n eq_refl)|]; destruct (_ && _); eexists _, _; (split; [reflexivity|]);
    unfold PATH_MAX_GUESS; lia.
Qed.

(** Every call of the walk, recorded. *)
Definition record (p : bytes) (st : option Z) (ty : Z) : prog (list visit) Z :=
  modify (λ l, l ++ [(p, st, ty)]) ;; mret 0.

Lemma run_record vs l : run_visits record vs l = Done 0 (l ++ vs).
Proof.
  revert l. induction vs as [|[[p st] ty] vs IH]; intros l; [by rewrite app_nil_r|].
  cbn [run_visits]. erewrite (bind_done (record p st ty)) by reflexivity. cbn [negb Z.eqb].
  by rewrite IH, <- app_assoc.
Qed.

(** ** Properties *)

(** C22: The walk of ftw8.c calls the user's function once for every file at and below the
    start, with the file's full path, and for no other; a directory that cannot be read is
    the exception: the function is called for it with FTW_D, like for any other, and a
    second time with FTW_DNR and a slash behind the path.  For the calls [vs] of the
    reference enumeration (a directory before what is below it, in the order of the
    directories) myftw gives what calling the function for [vs] one after the other up to
    the first nonzero result gives, whatever the function does, and never writes outside
    of the path buffer, which grows with the paths; the paths of [vs], with the second
    calls, are distinct, and without them they are those of the hierarchy.  The fuel is
    the depth of the hierarchy; realloc succeeds, and lengths fit an int. *)
Theorem ftw_walk {U} (func : bytes → option Z → Z → prog U Z) lstat opendir mem junk f pathname size w vs
    (Hnames : names_ok opendir) (Hdirs : dirs_ok opendir) (Hmem : ∀ n, mem n = true) (Hp : no_nul pathname)
    (Hsize : 256 <= size < 2 ^ 61) (Hlen : Z.of_nat (length pathname) + 256 * Z.of_nat f + 1 <= INT_MAX)
    (Hvs : visits lstat opendir f pathname = Some vs) :
  (∀ r u, run_visits func vs (fw_user w) = Done r u →
    ∃ w', myftw func lstat opendir mem junk f pathname size w = Done r w' ∧ fw_user w' = u) ∧
  NoDup (vpath <$> vs) ∧
  (∀ q, tree lstat opendir pathname q ↔ ∃ st ty, (q, st, ty) ∈ vs ∧ ty ≠ FTW_DNR).
Proof.
  split_and!.
  - intros r u. by apply myftw_spec.
  - by eapply visits_nodup.
  - intros q. by eapply visits_tree.
Qed.

(** The program ftw8 exits with 0 and its counters are the numbers of regular files,
    directories, block and character devices, FIFOs, symbolic links and sockets among the
    files of the hierarchy, when path_alloc, from its initial state, finds PATH_MAX
    indeterminate or at least 255; the total is their sum, or 1 to avoid dividing by 0. *)
Theorem ftw_main_counts lstat opendir mem junk f pathname version xopen limit vs buf len
    (Hnames : names_ok opendir) (Hmem : ∀ n, mem n = true) (Hp : no_nul pathname)
    (Hlimit : ∀ n, limit = Some n → 255 <= n < 2 ^ 60)
    (Hlen : Z.of_nat (length pathname) + 256 * Z.of_nat f + 1 <= INT_MAX)
    (Hvs : visits lstat opendir f pathname = Some vs) :
  ∃ size pa w', path_alloc version xopen (IoOk limit) true (PAlloc 0 0 0) = Done size pa ∧
    ftw_main lstat opendir mem junk f 2 pathname size (Ftw buf len no_counts) =
      Done (0, Z.max 1 (total (tally vs))) w' ∧
    fw_user w' = tally vs.
Proof.
  destruct (path_alloc_size version xopen limit Hlimit) as (size & pa & E & Hsize).
  assert (Hrun : run_visits myfunc vs no_counts = Done 0 (tally vs)).
  { rewrite run_myfunc by (by eapply visits_sound). unfold add_counts, no_counts, tally.
    cbn [nreg ndir nblk nchr nfifo nslink nsock]. by rewrite !Z.add_0_l. }
  destruct (myftw_spec myfunc lstat opendir mem junk Hnames Hmem f pathname size (Ftw buf len no_counts) vs 0 (tally vs))
    as (w' & E' & Hu); try done.
  exists size, pa, w'. split; [done|]. split; [|done].
  unfold ftw_main. rewrite bind_check_true by done. erewrite bind_done by exact E'.
  rewrite bind_gets, Hu. unfold mret, prog_ret. fold (total (tally vs)). do 2 f_equal.
  pose proof (tally_nonneg vs). destruct (Z.eqb_spec (total (tally vs)) 0); lia.
Qed.

(** A hierarchy: the directory d with a file, a symbolic link and a directory that cannot
    be read. *)
Definition tree_lstat (p : bytes) : iores Z :=
  if decide (p = str "d") then IoOk 16877 else
  if decide (p = str "d/a") then IoOk 33188 else
  if decide (p = str "d/l") then IoOk 41471 else
  if decide (p = str "d/x") then IoOk 16384 else IoErr 2.
Definition tree_opendir (p : bytes) : option (list bytes) :=
  if decide (p = str "d/") then Some (str <$> ["."; ".."; "a"; "l"; "x"; "gone"]%string) else None.
Definition tree_visits : list visit :=
  [(str "d", Some 16877, FTW_D); (str "d/a", Some 33188, FTW_F); (str "d/l", Some 41471, FTW_F);
   (str "d/x", Some 16384, FTW_D); (str "d/x/", Some 16384, FTW_DNR); (str "d/gone", None, FTW_NS)].

Lemma tree_names_ok : names_ok tree_opendir.
Proof.
  intros d names. unfold tree_opendir. case_decide; [|done]. intros [= <-].
  unfold name_ok, no_nul. apply (bool_decide_unpack _). by vm_compute.
Qed.

Lemma tree_dirs_ok : dirs_ok tree_opendir.
Proof.
  intros d names. unfold tree_opendir. case_decide; [|done]. intros [= <-].
  split; apply (bool_decide_unpack _); by vm_compute.
Qed.

Lemma tree_start_ok : no_nul (str "d").
Proof. unfold no_nul. apply (bool_decide_unpack _). by vm_compute. Qed.

Lemma ftw_walk_witness : ∃ w',
  myftw record tree_lstat tree_opendir (λ _, true) (λ _, NUL) 2 (str "d") 256 (Ftw [] 0 []) = Done 0 w' ∧
  fw_user w' = tree_visits.
Proof.
  destruct (ftw_walk record tree_lstat tree_opendir (λ _, true) (λ _, NUL) 2 (str "d") 256 (Ftw [] 0 []) tree_visits
    tree_names_ok tree_dirs_ok ltac:(done) tree_start_ok ltac:(lia)
    ltac:(by vm_compute) ltac:(by vm_compute)) as [H _].
  apply H, run_record.
Defined.

Lemma ftw_main_counts_witness : ∃ size pa w', path_alloc 200809 700 (IoOk (Some 4096)) true (PAlloc 0 0 0) = Done size pa ∧
  ftw_main tree_lstat tree_opendir (λ _, true) (λ _, NUL) 2 2 (str "d") size (Ftw [] 0 no_counts) = Done (0, 4) w' ∧
  fw_user w' = Counts 1 2 0 0 0 1 0.
Proof.
  assert (Ht : tally tree_visits = Counts 1 2 0 0 0 1 0) by (by vm_compute).
  assert (Hl : ∀ n, Some 4096 = Some n → 255 <= n < 2 ^ 60) by (intros n [= <-]; lia).
  destruct (ftw_main_counts tree_lstat tree_opendir (λ _, true) (λ _, NUL) 2 (str "d") 200809 700 (Some 4096)
    tree_visits [] 0 tree_names_ok ltac:(done) tree_start_ok Hl ltac:(by vm_compute) ltac:(by vm_compute))
    as (size & pa & w' & H1 & H2 & H3).
  rewrite Ht in H2, H3. by exists size, pa, w'.
Defined.
