(* ===== verification/Aio.v ===== *)
(** * Asynchronous input and output: advio/rot13c2.c.

    The file is translated with up to eight requests under way.  The program's steps are
    the passes through the body of the inner loop and what follows the loop; the kernel
    completes requests in between, in any order, with any of the results that aio_error
    and aio_return can give. *)
From Stdlib Require Import Ascii ZArith Lia.
From stdpp Require Import base strings gmap option list.
From S2P Require Import Prelude CStr PosixFile.

Definition BSZ : Z := 4096.
Definition NBUF : nat := 8.

Inductive rwop := UNUSED | READ_PENDING | WRITE_PENDING.
#[export] Instance rwop_eq_dec : EqDecision rwop.
Proof. solve_decision. Defined.

(** The files behind the descriptors ifd and ofd. *)
Inductive aiofd := Ifd | Ofd.
#[export] Instance aiofd_eq_dec : EqDecision aiofd.
Proof. solve_decision. Defined.

(** The state of a request: what aio_error and aio_return give. *)
Inductive aiost := NoRequest | InProgress | Finished (n : Z) | Failed (err : Z).

(** struct buf, with the fields of aiocb that change. *)
Record buf := Buf {
  b_op : rwop; b_last : bool;
  b_fildes : aiofd; b_offset : Z; b_nbytes : Z; b_io : aiost;
  b_data : bytes }.
#[export] Instance buf_rebuild : Rebuild buf := λ b,
  Buf (b_op b) (b_last b) (b_fildes b) (b_offset b) (b_nbytes b) (b_io b) (b_data b).

(** The variables of main and the two files; an entry of aiolist is set or NULL. *)
Record aio := Aio {
  a_bufs : list buf; a_list : list bool; a_off : Z; a_numop : Z; a_size : Z;
  a_in : bytes; a_out : bytes }.
#[export] Instance aio_rebuild : Rebuild aio := λ s,
  Aio (a_bufs s) (a_list s) (a_off s) (a_numop s) (a_size s) (a_in s) (a_out s).

Definition translate (c : char) : char :=
  let z := char_u c in
  if isalpha c then
    if 110 <=? z then to_char (z - 13)
    else if 97 <=? z then to_char (z + 13)
    else if 78 <=? z then to_char (z - 13)
    else to_char (z + 13)
  else c.

Definition get_buf (i : nat) : prog aio buf :=
  s ← get;
  match a_bufs s !! i with Some b => mret b | None => undefined end.
Definition set_buf (i : nat) (b : buf) : prog aio unit := modify (λ s, s <| a_bufs ::= <[i := b]> |>).
Definition set_list (i : nat) (x : bool) : prog aio unit := modify (λ s, s <| a_list ::= <[i := x]> |>).

(** aio_error: EINPROGRESS is [None]. *)
Definition aio_error (b : buf) : option Z :=
  match b_io b with
  | InProgress => None
  | Failed err => Some err
  | _ => Some 0
  end.
Definition aio_return (b : buf) : Z := match b_io b with Finished n => n | _ => -1 end.

(** case UNUSED; [ok]: the aio_read is accepted. *)
Definition do_unused (i : nat) (b : buf) (ok : bool) : prog aio unit :=
  s ← get;
  if a_off s <? a_size s then
    let off := a_off s in
    modify (λ s, s <| a_off ::= λ o, o + BSZ |>) ;;
    let b := b <| b_op := READ_PENDING |> <| b_fildes := Ifd |> <| b_offset := off |>
               <| b_last ::= λ l, l || (a_size s <=? off + BSZ) |> <| b_nbytes := BSZ |> in
    check ok (ErrSys "aio_read failed") ;;
    set_buf i (b <| b_io := InProgress |>) ;;
    set_list i true ;;
    modify (λ s, s <| a_numop ::= Z.succ |>)
  else mret tt.

(** case READ_PENDING, when aio_error is not EINPROGRESS. *)
Definition do_read (i : nat) (b : buf) (err : Z) (ok : bool) : prog aio unit :=
  check (err =? 0) (if err =? -1 then ErrSys "aio_error failed" else ErrSys "read failed") ;;
  let n := aio_return b in
  check (0 <=? n) (ErrSys "aio_return failed") ;;
  check ((n =? BSZ) || b_last b) (ErrQuit "short read (%d/%d)") ;;
  let b := b <| b_data ::= λ d, (translate <$> take (Z.to_nat n) d) ++ drop (Z.to_nat n) d |>
             <| b_op := WRITE_PENDING |> <| b_fildes := Ofd |> <| b_nbytes := n |> in
  check ok (ErrSys "aio_write failed") ;;
  set_buf i (b <| b_io := InProgress |>).

(** case WRITE_PENDING, when aio_error is not EINPROGRESS. *)
Definition do_write (i : nat) (b : buf) (err : Z) : prog aio unit :=
  check (err =? 0) (if err =? -1 then ErrSys "aio_error failed" else ErrSys "write failed") ;;
  let n := aio_return b in
  check (0 <=? n) (ErrSys "aio_return failed") ;;
  check (n =? b_nbytes b) (ErrQuit "short write (%d/%d)") ;;
  set_list i false ;;
  set_buf i (b <| b_op := UNUSED |> <| b_io := NoRequest |>) ;;
  modify (λ s, s <| a_numop ::= Z.pred |>).

(** The body of the inner loop. *)
Definition body (i : nat) (ok : bool) : prog aio unit :=
  b ← get_buf i;
  match b_op b with
  | UNUSED => do_unused i b ok
  | READ_PENDING =>
      match aio_error b with
      | None => mret tt
      | Some err => do_read i b err ok
      end
  | WRITE_PENDING =>
      match aio_error b with
      | None => mret tt
      | Some err => do_write i b err
      end
  end.

(** Behind the inner loop: whether the program leaves the outer one; [ok]: aio_suspend. *)
Definition after_pass (ok : bool) : prog aio bool :=
  s ← get;
  if a_numop s =? 0 then mret (a_size s <=? a_off s)
  else check ok (ErrSys "aio_suspend failed") ;; mret false.

Definition finish (ok : bool) : prog aio unit :=
  check ok (ErrSys "aio_fsync failed") ;;
  die (Exit 0).

Definition buf_init : buf := Buf UNUSED false Ifd 0 0 NoRequest (replicate (Z.to_nat BSZ) NUL).

(** Up to the loop; [input]: the file, if it can be opened. *)
Definition rot13_start (argc : Z) (input : option bytes) (creat stat : bool) : prog unit aio :=
  check (argc =? 3) (ErrQuit "usage: rot13 infile outfile") ;;
  match input with
  | None => die (ErrSys "can't open %s")
  | Some d =>
      check creat (ErrSys "can't create %s") ;;
      check stat (ErrSys "fstat failed") ;;
      mret (Aio (replicate NBUF buf_init) (replicate NBUF false) 0 0 (Z.of_nat (length d)) d [])
  end.

(** ** Steps *)

(** Where the program is: before buffer [i] of the inner loop, behind the loop ([At NBUF]). *)
Inductive pc := At (i : nat) | Ended (e : fatal).

(** A write at an offset; nothing is written for 0 bytes. *)
Definition pwrite (out : bytes) (off : Z) (s : bytes) : bytes :=
  match s with [] => out | _ => put_at out (Z.to_nat off) s end.

(** Completion of a request.  [full]: a read gets all that is there, as read(2) promises
    for a regular file when no signal interrupts it. *)
Inductive complete (full : bool) : aio → aio → Prop :=
  | complete_read s i b n :
      a_bufs s !! i = Some b → b_op b = READ_PENDING → b_io b = InProgress → b_fildes b = Ifd →
      let avail := Z.max 0 (Z.min (b_nbytes b) (Z.of_nat (length (a_in s)) - b_offset b)) in
      0 <= n <= avail → (full = true → n = avail) →
      complete full s (s <| a_bufs ::= <[i := b <| b_io := Finished n |>
        <| b_data ::= λ d, put_at d 0 (slice (Z.to_nat (b_offset b)) (Z.to_nat n) (a_in s)) |>]> |>)
  | complete_write s i b n :
      a_bufs s !! i = Some b → b_op b = WRITE_PENDING → b_io b = InProgress → b_fildes b = Ofd →
      0 <= n <= b_nbytes b →
      complete full s (s <| a_bufs ::= <[i := b <| b_io := Finished n |>]> |>
        <| a_out ::= λ out, pwrite out (b_offset b) (take (Z.to_nat n) (b_data b)) |>)
  | complete_fail s i b err :
      a_bufs s !! i = Some b → b_io b = InProgress → err ≠ 0 →
      complete full s (s <| a_bufs ::= <[i := b <| b_io := Failed err |>]> |>).

(** A request of aiolist that is not under way any more: aio_suspend returns. *)
Definition has_completed (s : aio) : Prop :=
  ∃ i b, a_list s !! i = Some true ∧ a_bufs s !! i = Some b ∧ b_io b ≠ InProgress.

Inductive rot13_step (full : bool) : pc * aio → pc * aio → Prop :=
  | rs_body i ok s s' : (i < NBUF)%nat → body i ok s = Done tt s' → rot13_step full (At i, s) (At (S i), s')
  | rs_die i ok e s s' : (i < NBUF)%nat → body i ok s = Fatal e s' → rot13_step full (At i, s) (Ended e, s')
  | rs_again ok s s' : after_pass ok s = Done false s' → (a_numop s ≠ 0 → has_completed s) →
      rot13_step full (At NBUF, s) (At 0, s')
  | rs_suspend_fails ok e s s' : after_pass ok s = Fatal e s' → rot13_step full (At NBUF, s) (Ended e, s')
  | rs_finish ok e s s' s'' : after_pass true s = Done true s' → finish ok s' = Fatal e s'' →
      rot13_step full (At NBUF, s) (Ended e, s'')
  | rs_complete i s s' : complete full s s' → rot13_step full (At i, s) (At i, s').

Definition rot13_steps (full : bool) := rtc (rot13_step full).
