(* ===== verification/AioProps.v ===== *)
(** * Properties of the asynchronous translation of advio/rot13c2.c. *)
From Stdlib Require Import Ascii ZArith Lia Wellfounded.
From stdpp Require Import base strings gmap option list relations.
From S2P Require Import Prelude CStr PosixFile Aio.

(** ** Files, by position *)

Lemma lookup_slice {A} (b : list A) off n x : (x < n)%nat → slice off n b !! x = b !! (off + x)%nat.
Proof. intros. unfold slice. by rewrite lookup_take_lt, lookup_drop. Qed.

Lemma lookup_blit {A} (fill : A) b off s x :
  blit fill b off s !! x =
  if decide (off <= x < off + length s)%nat then s !! (x - off)%nat
  else if decide (x < length b)%nat then b !! x
  else if decide (x < off)%nat then Some fill else None.
Proof.
  unfold blit.
  assert (Hl : length (take off b ++ replicate (off - length b) fill) = off)
    by (rewrite length_app, length_take, length_replicate; lia).
  rewrite !app_assoc. destruct (decide (x < off)%nat) as [Hx|Hx].
  - rewrite decide_False by lia. rewrite <- app_assoc, lookup_app_l by (rewrite Hl; lia).
    destruct (decide (x < length b)%nat).
    + rewrite lookup_app_l by (rewrite length_take; lia). by apply lookup_take_lt.
    + rewrite lookup_app_r by (rewrite length_take; lia). apply lookup_replicate_2. rewrite length_take. lia.
  - destruct (decide (off <= x < off + length s)%nat).
    + rewrite <- app_assoc, lookup_app_r by lia. rewrite Hl, lookup_app_l by lia. done.
    + rewrite lookup_app_r by (rewrite length_app, Hl; lia). rewrite length_app, Hl, lookup_drop.
      destruct (decide (x < length b)%nat); [f_equal; lia|]. apply lookup_ge_None. lia.
Qed.

Lemma length_pwrite out off s : s ≠ [] → length (pwrite out off s) = Nat.max (length out) (Z.to_nat off + length s).
Proof. destruct s; [done|]. intros _. apply length_blit. Qed.

Lemma length_pwrite_le out off s n : (length s <= n)%nat →
  (length out <= length (pwrite out off s) <= Nat.max (length out) (Z.to_nat off + n))%nat.
Proof. intros. destruct s; [simpl; lia|]. rewrite length_pwrite by done. lia. Qed.

Lemma lookup_pwrite_in out off s x : (Z.to_nat off <= x < Z.to_nat off + length s)%nat →
  pwrite out off s !! x = s !! (x - Z.to_nat off)%nat.
Proof.
  intros H. destruct s; [simpl in H; lia|]. unfold pwrite, put_at. by rewrite lookup_blit, decide_True.
Qed.

Lemma lookup_pwrite_out out off s x : ¬ (Z.to_nat off <= x < Z.to_nat off + length s)%nat → (x < length out)%nat →
  pwrite out off s !! x = out !! x.
Proof.
  intros H Hx. destruct s; [done|]. unfold pwrite, put_at. by rewrite lookup_blit, decide_False, decide_True by done.
Qed.

(** ** The invariant *)

Definition busy (b : buf) : bool := negb (bool_decide (b_op b = UNUSED)).
Definition count (l : list buf) : Z := Z.of_nat (length (filter (λ b, busy b = true) l)).

Section inv.
Context (full : bool) (input : bytes).
Local Abbreviation size := (Z.of_nat (length input)).

(** Chunk [k]: the bytes from [BSZ * k] on; the last one is shorter. *)
Definition avail (k : nat) : Z := Z.min BSZ (size - BSZ * Z.of_nat k).
Definition lastc (k : nat) : bool := size <=? BSZ * Z.of_nat k + BSZ.

(** [n] bytes of the chunk are in the output. *)
Definition written (out : bytes) (k : nat) (n : Z) : Prop :=
  ∀ x : nat, BSZ * Z.of_nat k <= Z.of_nat x < BSZ * Z.of_nat k + n → out !! x = translate <$> input !! x.

(** How many bytes a read gets and, then, the program goes on with. *)
Definition read_len (k : nat) (n : Z) : Prop := 0 <= n <= avail k ∧ (full = true → n = avail k).
Definition chunk_len (k : nat) (n : Z) : Prop := read_len k n ∧ (lastc k = false → n = BSZ).

Definition not_beyond (out : bytes) (k : nat) (n : Z) : Prop :=
  lastc k = true → Z.of_nat (length out) <= BSZ * Z.of_nat k + n.

Definition chunk_done (out : bytes) (k : nat) : Prop :=
  ∃ n, chunk_len k n ∧ written out k n ∧ not_beyond out k n.

Definition in_chunk (k : nat) (n : Z) : bytes := slice (Z.to_nat (BSZ * Z.of_nat k)) (Z.to_nat n) input.

(** The request of a buffer that works on chunk [k]. *)
Definition request_ok (out : bytes) (b : buf) (k : nat) : Prop :=
  match b_op b, b_io b with
  | READ_PENDING, InProgress => b_fildes b = Ifd ∧ b_nbytes b = BSZ ∧ not_beyond out k 0
  | READ_PENDING, Finished n => read_len k n ∧ take (Z.to_nat n) (b_data b) = in_chunk k n ∧ not_beyond out k 0
  | WRITE_PENDING, InProgress =>
      b_fildes b = Ofd ∧ chunk_len k (b_nbytes b) ∧
      take (Z.to_nat (b_nbytes b)) (b_data b) = translate <$> in_chunk k (b_nbytes b) ∧ not_beyond out k 0
  | WRITE_PENDING, Finished m =>
      chunk_len k (b_nbytes b) ∧ 0 <= m <= b_nbytes b ∧ written out k m ∧ not_beyond out k (b_nbytes b)
  | _, Failed err => err ≠ 0
  | _, _ => False
  end.
Definition buf_ok (out : bytes) (nch : nat) (b : buf) (k : nat) : Prop :=
  b_offset b = BSZ * Z.of_nat k ∧ (k < nch)%nat ∧ b_last b = lastc k ∧ request_ok out b k.

Record inv (s : aio) : Prop := Inv {
  inv_in : a_in s = input;
  inv_size : a_size s = size;
  inv_bufs : length (a_bufs s) = NBUF;
  inv_list : ∀ i b, a_bufs s !! i = Some b → a_list s !! i = Some (busy b);
  inv_numop : a_numop s = count (a_bufs s);
  inv_nch : ∃ nch, a_off s = BSZ * Z.of_nat nch ∧ (nch = 0%nat ∨ BSZ * Z.of_nat (pred nch) < size) ∧
    (∀ i b, a_bufs s !! i = Some b → busy b = true → ∃ k, buf_ok (a_out s) nch b k) ∧
    (∀ k, (k < nch)%nat → chunk_done (a_out s) k ∨
       ∃ i b, a_bufs s !! i = Some b ∧ busy b = true ∧ b_offset b = BSZ * Z.of_nat k);
  inv_last : ∀ i b, a_bufs s !! i = Some b → b_last b = true → size <= a_off s;
  inv_len : Z.of_nat (length (a_out s)) <= Z.min (a_off s) size;
  inv_idle : ∀ i b, a_bufs s !! i = Some b → busy b = false → b_io b = NoRequest;
  inv_distinct : ∀ i j b b', a_bufs s !! i = Some b → a_bufs s !! j = Some b' → busy b = true → busy b' = true →
    b_offset b = b_offset b' → i = j }.

(** What the other chunks keep when chunk [k] is worked on. *)
Definition frame (out out' : bytes) (k : nat) : Prop :=
  (length out <= length out')%nat ∧
  Z.of_nat (length out') <= Z.max (Z.of_nat (length out)) (BSZ * Z.of_nat k + avail k) ∧
  ∀ x : nat, (x < length out)%nat → ¬ (BSZ * Z.of_nat k <= Z.of_nat x < BSZ * Z.of_nat k + BSZ) → out' !! x = out !! x.

Lemma frame_refl out k : frame out out k.
Proof. split_and!; [done|lia|done]. Qed.

Definition chunks_fit (nch : nat) : Prop := nch = 0%nat ∨ BSZ * Z.of_nat (pred nch) < size.

Lemma chunk_start nch k : chunks_fit nch → (k < nch)%nat → BSZ * Z.of_nat k < size.
Proof. unfold chunks_fit, BSZ. intros [->|H] Hk; lia. Qed.

Lemma written_frame out out' k k' n : written out k' n → n <= avail k' → frame out out' k → k ≠ k' → written out' k' n.
Proof.
  intros Hw Hn (_ & _ & Hf) Hk x Hx. rewrite <- (Hw x Hx). apply Hf.
  - apply lookup_lt_is_Some. rewrite (Hw x Hx), fmap_is_Some. apply lookup_lt_is_Some_2. unfold avail in Hn. lia.
  - unfold avail, BSZ in *. lia.
Qed.

Lemma not_beyond_frame out out' nch k k' n : not_beyond out k' n → 0 <= n → frame out out' k → k ≠ k' →
  chunks_fit nch → (k < nch)%nat → not_beyond out' k' n.
Proof.
  intros Hb Hn (_ & Hl & _) Hk Hfit Hkn Hlast. specialize (Hb Hlast). pose proof (chunk_start nch k Hfit Hkn).
  unfold lastc, avail, BSZ in *. apply Z.leb_le in Hlast. lia.
Qed.

Lemma request_frame out out' nch b k k' : buf_ok out nch b k' → frame out out' k → k ≠ k' → chunks_fit nch →
  (k < nch)%nat → buf_ok out' nch b k'.
Proof.
  intros (Ho & Hk' & Hl & Hr) Hf Hne Hfit Hk. split_and!; try done. unfold request_ok in *.
  destruct (b_op b), (b_io b); try done; destruct_and!; split_and!; try done;
    try (eapply not_beyond_frame; [done|unfold chunk_len, read_len in *; lia|done..]).
  eapply written_frame; [done|unfold chunk_len, read_len in *; lia|done..].
Qed.

Lemma chunk_done_frame out out' nch k k' : chunk_done out k' → frame out out' k → k ≠ k' → chunks_fit nch →
  (k < nch)%nat → chunk_done out' k'.
Proof.
  intros (n & Hn & Hw & Hb) Hf Hne Hfit Hk. exists n. split_and!; [done| |].
  - eapply written_frame; [done|unfold chunk_len, read_len in Hn; lia|done..].
  - eapply not_beyond_frame; [done|unfold chunk_len, read_len in Hn; lia|done..].
Qed.

Lemma count_middle l1 b l2 : count (l1 ++ b :: l2) = count l1 + (if busy b then 1 else 0) + count l2.
Proof.
  unfold count. rewrite filter_app, filter_cons, length_app.
  destruct (busy b); [rewrite decide_True by done|rewrite decide_False by done]; cbn [length]; lia.
Qed.

Lemma count_insert l i b b' : l !! i = Some b →
  count (<[i := b']> l) = count l - (if busy b then 1 else 0) + (if busy b' then 1 else 0).
Proof.
  intros H. rewrite insert_take_drop by (by eapply lookup_lt_Some).
  pose proof (take_drop_middle l i b H) as E. rewrite <- E at 3. rewrite !count_middle. lia.
Qed.

(** Work on a buffer that is busy and stays so. *)
Lemma inv_update s i b b' out' nch k : inv s → a_bufs s !! i = Some b → busy b = true → busy b' = true →
  a_off s = BSZ * Z.of_nat nch → buf_ok (a_out s) nch b k → buf_ok out' nch b' k → frame (a_out s) out' k →
  inv (Aio (<[i := b']> (a_bufs s)) (a_list s) (a_off s) (a_numop s) (a_size s) (a_in s) out').
Proof.
  intros [H1 H2 H3 H4 H5 (nch' & Hn1 & Hn2 & Hn3 & Hn4) H6 H7 H9 H8] Hi Hb Hb' Hnch (Hk1 & Hk2 & Hk3 & Hk4) Hok Hf.
  assert (nch' = nch) as -> by (unfold BSZ in *; lia). pose proof (chunk_start nch k Hn2 Hk2) as Hst.
  pose proof Hok as (Ho' & _ & Hl' & _).
  split; cbn [a_bufs a_list a_off a_numop a_size a_in a_out]; [done|done|by rewrite length_insert|..].
  - intros j bj [(<- & <- & _)|[Hne Hj]]%list_lookup_insert_Some; [|by apply H4].
    rewrite Hb'. rewrite <- Hb. by apply H4.
  - rewrite (count_insert _ _ b) by done. rewrite Hb, Hb'. lia.
  - exists nch. split; [done|]. split; [done|]. split.
    + intros j bj [(<- & <- & _)|[Hne Hj]]%list_lookup_insert_Some Hbj; [by exists k|].
      destruct (Hn3 j bj Hj Hbj) as [kj Hkj]. exists kj. eapply request_frame; [done|done| |done|done].
      intros <-. destruct Hkj as (Hoj & _). apply Hne. by apply (H8 i j b bj); try congruence.
    + intros k' Hk'. destruct (decide (k = k')) as [<-|Hkk].
      * right. exists i, b'. rewrite list_lookup_insert_eq by (by eapply lookup_lt_Some). done.
      * destruct (Hn4 k' Hk') as [Hd|(j & bj & Hj & Hbj & Hoj)]; [left; by eapply chunk_done_frame|right].
        exists j, bj. split; [|done]. rewrite list_lookup_insert_ne; [done|]. intros <-.
        assert (bj = b) as -> by congruence. unfold BSZ in *. lia.
  - intros j bj [(<- & <- & _)|[Hne Hj]]%list_lookup_insert_Some; [|by apply (H6 j bj)].
    rewrite Hl', <- Hk3. by apply (H6 i b).
  - destruct Hf as (_ & Hf & _). unfold avail, BSZ in *. lia.
  - intros j bj [(<- & <- & _)|[Hne Hj]]%list_lookup_insert_Some; [congruence|by apply (H9 j bj)].
  - intros j1 j2 b1 b2 [(<- & <- & _)|[Hne1 Hj1]]%list_lookup_insert_Some [(<- & <- & _)|[Hne2 Hj2]]%list_lookup_insert_Some.
    + done.
    + intros _ Hb2 E. apply (H8 i j2 b b2); try done. congruence.
    + intros Hb1 _ E. apply (H8 j1 i b1 b); try done. congruence.
    + by apply H8.
Qed.

(** A buffer is given the next chunk. *)
Lemma inv_schedule s i b b' : inv s → a_bufs s !! i = Some b → busy b = false → a_off s < size →
  b_op b' = READ_PENDING → b_io b' = InProgress → b_fildes b' = Ifd → b_nbytes b' = BSZ → b_offset b' = a_off s →
  b_last b' = b_last b || (size <=? a_off s + BSZ) →
  inv (Aio (<[i := b']> (a_bufs s)) (<[i := true]> (a_list s)) (a_off s + BSZ) (a_numop s + 1) (a_size s) (a_in s) (a_out s)).
Proof.
  intros [H1 H2 H3 H4 H5 (nch & Hn1 & Hn2 & Hn3 & Hn4) H6 H7 H9 H8] Hi Hb Hoff Hop Hio Hfd Hnb Ho Hl.
  assert (Hbl : b_last b = false) by (destruct (b_last b) eqn:E; [|done]; specialize (H6 i b Hi E); lia).
  assert (Hb' : busy b' = true) by (unfold busy; by rewrite Hop).
  assert (Hoffs : ∀ j bj, a_bufs s !! j = Some bj → busy bj = true → b_offset bj ≠ a_off s).
  { intros j bj Hj Hbj. destruct (Hn3 j bj Hj Hbj) as (k & -> & Hk & _). unfold BSZ in *. lia. }
  split; cbn [a_bufs a_list a_off a_numop a_size a_in a_out]; [done|done|by rewrite length_insert|..].
  - intros j bj [(<- & <- & Hlt)|[Hne Hj]]%list_lookup_insert_Some.
    + rewrite Hb'. apply list_lookup_insert_eq. apply lookup_lt_is_Some. rewrite (H4 i b) by done. done.
    + rewrite list_lookup_insert_ne by done. by apply H4.
  - rewrite (count_insert _ _ b), Hb, Hb' by done. lia.
  - exists (S nch). split; [unfold BSZ in *; lia|]. split; [right; simpl; unfold BSZ in *; lia|]. split.
    + intros j bj [(<- & <- & _)|[Hne Hj]]%list_lookup_insert_Some Hbj.
      * exists nch. split_and!; [congruence|lia|by rewrite Hl, Hbl, Hn1|]. unfold request_ok. rewrite Hop, Hio.
        split_and!; [done|done|]. intros _. unfold BSZ in *. lia.
      * destruct (Hn3 j bj Hj Hbj) as (k & Hk1 & Hk2 & Hk3). exists k. split_and!; [done|lia|apply Hk3..].
    + intros k Hk. destruct (decide (k = nch)) as [->|Hkn].
      * right. exists i, b'. rewrite list_lookup_insert_eq by (by eapply lookup_lt_Some). split_and!; [done|done|congruence].
      * destruct (Hn4 k) as [Hd|(j & bj & Hj & Hbj & Hoj)]; [lia|by left|right].
        exists j, bj. split; [|done]. rewrite list_lookup_insert_ne; [done|]. intros <-. congruence.
  - intros j bj [(<- & <- & _)|[Hne Hj]]%list_lookup_insert_Some Hlast.
    + rewrite Hl, Hbl in Hlast. by apply Z.leb_le.
    + specialize (H6 j bj Hj Hlast). lia.
  - unfold BSZ in *. lia.
  - intros j bj [(<- & <- & _)|[Hne Hj]]%list_lookup_insert_Some; [congruence|by apply (H9 j bj)].
  - intros j1 j2 b1 b2 [(<- & <- & _)|[Hne1 Hj1]]%list_lookup_insert_Some [(<- & <- & _)|[Hne2 Hj2]]%list_lookup_insert_Some.
    + done.
    + intros _ Hb2 E. destruct (Hoffs j2 b2); congruence.
    + intros Hb1 _ E. destruct (Hoffs j1 b1); congruence.
    + by apply H8.
Qed.

(** A buffer's chunk is done. *)
Lemma inv_free s i b b' k : inv s → a_bufs s !! i = Some b → busy b = true → busy b' = false →
  b_offset b = BSZ * Z.of_nat k → b_last b' = b_last b → b_io b' = NoRequest → chunk_done (a_out s) k →
  inv (Aio (<[i := b']> (a_bufs s)) (<[i := false]> (a_list s)) (a_off s) (a_numop s - 1) (a_size s) (a_in s) (a_out s)).
Proof.
  intros [H1 H2 H3 H4 H5 (nch & Hn1 & Hn2 & Hn3 & Hn4) H6 H7 H9 H8] Hi Hb Hb' Ho Hl Hnr Hd.
  split; cbn [a_bufs a_list a_off a_numop a_size a_in a_out]; [done|done|by rewrite length_insert|..].
  - intros j bj [(<- & <- & Hlt)|[Hne Hj]]%list_lookup_insert_Some.
    + rewrite Hb'. apply list_lookup_insert_eq. apply lookup_lt_is_Some. rewrite (H4 i b) by done. done.
    + rewrite list_lookup_insert_ne by done. by apply H4.
  - rewrite (count_insert _ _ b), Hb, Hb' by done. lia.
  - exists nch. split; [done|]. split; [done|]. split.
    + intros j bj [(<- & <- & _)|[Hne Hj]]%list_lookup_insert_Some Hbj; [congruence|by apply (Hn3 j)].
    + intros k' Hk'. destruct (decide (k' = k)) as [->|Hkk]; [by left|].
      destruct (Hn4 k' Hk') as [Hd'|(j & bj & Hj & Hbj & Hoj)]; [by left|right].
      exists j, bj. split; [|done]. rewrite list_lookup_insert_ne; [done|]. intros <-.
      assert (bj = b) as -> by congruence. unfold BSZ in *. lia.
  - intros j bj [(<- & <- & _)|[Hne Hj]]%list_lookup_insert_Some; [rewrite Hl; by apply (H6 i b)|by apply (H6 j bj)].
  - done.
  - intros j bj [(<- & <- & _)|[Hne Hj]]%list_lookup_insert_Some; [done|by apply (H9 j bj)].
  - intros j1 j2 b1 b2 [(<- & <- & _)|[Hne1 Hj1]]%list_lookup_insert_Some [(<- & <- & _)|[Hne2 Hj2]]%list_lookup_insert_Some;
      try congruence. by apply H8.
Qed.

Lemma length_in_chunk k n : read_len k n → Z.of_nat (length (in_chunk k n)) = n.
Proof. intros [Hn _]. unfold in_chunk, slice, avail, BSZ in *. rewrite length_take, length_drop. lia. Qed.

Lemma busy_chunk s i b : inv s → a_bufs s !! i = Some b → b_op b ≠ UNUSED → busy b = true ∧
  ∃ nch k, a_off s = BSZ * Z.of_nat nch ∧ buf_ok (a_out s) nch b k ∧ BSZ * Z.of_nat k < size.
Proof.
  intros [_ _ _ _ _ (nch & Hn1 & Hn2 & Hn3 & _) _ _ _ _] Hi Hop.
  assert (Hb : busy b = true) by (unfold busy; by rewrite bool_decide_false). split; [done|].
  destruct (Hn3 i b Hi Hb) as [k Hk]. exists nch, k. split_and!; [done|done|].
  eapply chunk_start; [done|apply Hk].
Qed.

Lemma do_unused_inv s i b ok s' : inv s → a_bufs s !! i = Some b → b_op b = UNUSED →
  do_unused i b ok s = Done tt s' → inv s'.
Proof.
  intros Hs Hi Hop. unfold do_unused. erewrite (bind_done get) by reflexivity.
  destruct (Z.ltb_spec (a_off s) (a_size s)) as [Hlt|]; [|by intros [= <-]].
  destruct ok; [|done]. intros E. injection E as <-. pose proof (inv_size _ Hs) as Hsz.
  eapply (inv_schedule s i b); try done; [|lia|].
  - unfold busy. by rewrite Hop.
  - cbn. by rewrite Hsz.
Qed.

Lemma do_read_inv s i b err ok s' : inv s → a_bufs s !! i = Some b → b_op b = READ_PENDING → aio_error b = Some err →
  do_read i b err ok s = Done tt s' → inv s'.
Proof.
  intros Hs Hi Hop Herr. destruct (busy_chunk s i b Hs Hi) as (Hb & nch & k & Hn & Hok & _); [by rewrite Hop|].
  pose proof Hok as (Ho & Hk & Hl & Hr). unfold request_ok in Hr. rewrite Hop in Hr. unfold aio_error in Herr.
  destruct (b_io b) as [| |n|e] eqn:Hio; try done; injection Herr as <-; unfold do_read;
    [|by destruct (Z.eqb_spec e 0)].
  destruct Hr as (Hlen & Hdata & Hnb). unfold aio_return. rewrite Hio, bind_check_true by done.
  rewrite bind_check_true by (apply Z.leb_le; apply Hlen).
  destruct ((n =? BSZ) || b_last b) eqn:Hshort; [|done]. rewrite bind_check_true by done.
  destruct ok; [|done]. intros E. injection E as <-. pose proof (length_in_chunk k n Hlen) as Hlc.
  eapply (inv_update s i b _ (a_out s) nch k); try done; [|apply frame_refl].
  split_and!; [done|done|done|]. unfold request_ok. cbn. split_and!; [done| | |done].
  - split; [done|]. intros Hnl. rewrite Hl, Hnl, orb_false_r in Hshort. by apply Z.eqb_eq.
  - rewrite Hdata, take_app_length'; [done|]. rewrite length_fmap. lia.
Qed.

Lemma do_write_inv s i b err s' : inv s → a_bufs s !! i = Some b → b_op b = WRITE_PENDING → aio_error b = Some err →
  do_write i b err s = Done tt s' → inv s'.
Proof.
  intros Hs Hi Hop Herr. destruct (busy_chunk s i b Hs Hi) as (Hb & nch & k & Hn & Hok & _); [by rewrite Hop|].
  pose proof Hok as (Ho & Hk & Hl & Hr). unfold request_ok in Hr. rewrite Hop in Hr. unfold aio_error in Herr.
  destruct (b_io b) as [| |n|e] eqn:Hio; try done; injection Herr as <-; unfold do_write;
    [|by destruct (Z.eqb_spec e 0)].
  destruct Hr as (Hlen & Hm & Hw & Hnb). unfold aio_return. rewrite Hio, bind_check_true by done.
  rewrite bind_check_true by (apply Z.leb_le; apply Hm).
  destruct (Z.eqb_spec n (b_nbytes b)) as [->|]; [|done]. rewrite bind_check_true by done.
  intros E. injection E as <-. eapply (inv_free s i b _ k); try done. by exists (b_nbytes b).
Qed.

Lemma body_eq s i ok b : a_bufs s !! i = Some b →
  body i ok s =
  match b_op b with
  | UNUSED => do_unused i b ok
  | READ_PENDING => match aio_error b with None => mret tt | Some err => do_read i b err ok end
  | WRITE_PENDING => match aio_error b with None => mret tt | Some err => do_write i b err end
  end s.
Proof. intros Hi. unfold body. erewrite bind_done; [|unfold get_buf, mbind, prog_bind, get; rewrite Hi; reflexivity]. by destruct (b_op b). Qed.

Lemma inv_buf s i : inv s → (i < NBUF)%nat → ∃ b, a_bufs s !! i = Some b.
Proof. intros Hs Hi. apply lookup_lt_is_Some. by rewrite (inv_bufs _ Hs). Qed.

Lemma body_inv s i ok s' : inv s → (i < NBUF)%nat → body i ok s = Done tt s' → inv s'.
Proof.
  intros Hs Hlt. destruct (inv_buf s i Hs Hlt) as [b Hi]. rewrite (body_eq s i ok b Hi).
  destruct (b_op b) eqn:Hop.
  - by eapply do_unused_inv.
  - destruct (aio_error b) eqn:He; [by eapply do_read_inv|by intros [= <-]].
  - destruct (aio_error b) eqn:He; [by eapply do_write_inv|by intros [= <-]].
Qed.

(** The kernel. *)
Lemma complete_inv s s' : inv s → complete full s s' → inv s'.
Proof.
  intros Hs Hc. destruct Hc as [s i b n Hi Hop Hio Hfd av Hn Hfull|s i b n Hi Hop Hio Hfd Hn|s i b err Hi Hio Herr].
  - destruct (busy_chunk s i b Hs Hi) as (Hb & nch & k & Hnch & Hok & Hst); [by rewrite Hop|].
    pose proof Hok as (Ho & Hk & Hl & Hr). unfold request_ok in Hr. rewrite Hop, Hio in Hr. destruct Hr as (_ & Hnb & Hby).
    assert (Hav : av = avail k) by (unfold av, avail; rewrite (inv_in _ Hs), Ho, Hnb; unfold BSZ in *; lia).
    assert (Hrl : read_len k n) by (rewrite Hav in *; unfold read_len; done). pose proof (length_in_chunk k n Hrl) as Hlc.
    eapply (inv_update s i b _ (a_out s) nch k); try done; [|apply frame_refl].
    split_and!; [done|done|done|]. unfold request_ok, update. cbn [b_op b_io b_fildes b_nbytes b_data]. rewrite Hop. split_and!; [done| |done].
    rewrite Ho, (inv_in _ Hs). fold (in_chunk k n). rewrite put_at_0, take_app_length'; [done|lia].
  - destruct (busy_chunk s i b Hs Hi) as (Hb & nch & k & Hnch & Hok & Hst); [by rewrite Hop|].
    pose proof Hok as (Ho & Hk & Hl & Hr). unfold request_ok in Hr. rewrite Hop, Hio in Hr.
    destruct Hr as (_ & Hlen & Hdata & Hby). pose proof Hlen as [[Hle _] _].
    set (d := take (Z.to_nat n) (b_data b)).
    assert (Hd : d = translate <$> in_chunk k n).
    { assert (E : take (Z.to_nat n) (take (Z.to_nat (b_nbytes b)) (b_data b)) = d)
        by (rewrite take_take, Nat.min_l by lia; done).
      rewrite <- E, Hdata, <- fmap_take. unfold in_chunk, slice. by rewrite take_take, Nat.min_l by lia. }
    assert (Hrl : 0 <= n <= avail k) by lia.
    assert (Hld : length d = Z.to_nat n).
    { rewrite Hd, length_fmap. unfold in_chunk, slice, avail, BSZ in *. rewrite length_take, length_drop. lia. }
    eapply (inv_update s i b _ (pwrite (a_out s) (b_offset b) d) nch k); try done.
    + split_and!; [done|done|done|]. unfold request_ok, update. cbn [b_op b_io b_fildes b_nbytes b_data]. rewrite Hop. split_and!; [done|lia|lia| |].
      * rewrite Ho. intros x Hx. rewrite lookup_pwrite_in by lia. rewrite Hd, list_lookup_fmap. f_equal.
        unfold in_chunk. rewrite lookup_slice by lia. f_equal. lia.
      * rewrite Ho. intros Hlast. specialize (Hby Hlast).
        pose proof (length_pwrite_le (a_out s) (BSZ * Z.of_nat k) d (Z.to_nat n)). unfold BSZ in *. lia.
    + rewrite Ho. pose proof (length_pwrite_le (a_out s) (BSZ * Z.of_nat k) d (Z.to_nat n) ltac:(lia)) as Hpl.
      split_and!; [lia|unfold BSZ in *; lia|]. intros x Hx Hout. apply lookup_pwrite_out; [|done].
      rewrite Hld. unfold avail, BSZ in *. lia.
  - assert (Hop : b_op b ≠ UNUSED).
    { intros Hu. assert (Hb : busy b = false) by (unfold busy; by rewrite Hu).
      rewrite (inv_idle _ Hs i b Hi Hb) in Hio. done. }
    destruct (busy_chunk s i b Hs Hi Hop) as (Hb & nch & k & Hnch & Hok & _). pose proof Hok as (Ho & Hk & Hl & Hr).
    eapply (inv_update s i b _ (a_out s) nch k); try done; [|apply frame_refl].
    split_and!; [done|done|done|]. unfold request_ok, update. cbn [b_op b_io b_fildes b_nbytes b_data]. by destruct (b_op b).
Qed.
End inv.

(** ** The end of the program *)

Section final.
Context (full : bool) (input : bytes).
Local Abbreviation size := (Z.of_nat (length input)).
Local Abbreviation inv := (inv full input).

(** What the output is when the program exits with 0. *)
Definition result_ok (out : bytes) : Prop :=
  (∃ L : nat, size - BSZ <= Z.of_nat L <= size ∧ out = translate <$> take L input) ∧
  (full = true → out = translate <$> input).

Lemma count_zero l i b : count l = 0 → l !! i = Some b → busy b = false.
Proof.
  intros Hc Hi. pose proof (take_drop_middle l i b Hi) as E. rewrite <- E, count_middle in Hc.
  destruct (busy b); [|done]. unfold count in Hc. lia.
Qed.

Lemma final_chunks s nch k : inv s → a_numop s = 0 → a_off s = BSZ * Z.of_nat nch → (k < nch)%nat →
  chunk_done full input (a_out s) k.
Proof.
  intros Hs H0 Hn Hk. destruct (inv_nch _ _ _ Hs) as (nch' & Hn' & _ & _ & Hd).
  assert (nch' = nch) as -> by (unfold BSZ in *; lia).
  destruct (Hd k Hk) as [Hd'|(i & b & Hi & Hb & _)]; [done|]. rewrite (inv_numop _ _ _ Hs) in H0.
  by rewrite (count_zero _ i b H0 Hi) in Hb.
Qed.

Lemma final_ok s : inv s → a_numop s = 0 → a_size s <= a_off s → result_ok (a_out s).
Proof.
  intros Hs H0 Hoff. pose proof (inv_len _ _ _ Hs) as Hlen. rewrite (inv_size _ _ _ Hs) in Hoff.
  destruct (inv_nch _ _ _ Hs) as (nch & Hn & Hfit & _). destruct nch as [|kl].
  { assert (input = []) as E by (apply nil_length_inv; lia). assert (a_out s = []) as -> by (apply nil_length_inv; lia).
    split; [exists 0%nat; rewrite E; simpl; unfold BSZ; split; [lia|done]|by rewrite E]. }
  destruct Hfit as [|Hfit]; [done|]. simpl in Hfit.
  destruct (final_chunks s (S kl) kl Hs H0 Hn ltac:(lia)) as (n & [[Hr1 Hr2] Hr3] & Hw & Hb).
  assert (Hlast : lastc input kl = true) by (apply Z.leb_le; unfold BSZ in *; lia). specialize (Hb Hlast).
  unfold avail, BSZ in *. set (L := Z.to_nat (4096 * Z.of_nat kl + n)).
  assert (HL : Z.of_nat L = 4096 * Z.of_nat kl + n) by (unfold L; lia).
  assert (Hout : a_out s = translate <$> take L input).
  { apply list_eq. intros x. rewrite list_lookup_fmap. destruct (decide (x < L)%nat) as [Hx|Hx].
    - rewrite lookup_take_lt by done. destruct (decide (4096 * Z.of_nat kl <= Z.of_nat x)); [apply Hw; unfold BSZ; lia|].
      set (k := Z.to_nat (Z.of_nat x / 4096)). assert (Hk : Z.of_nat k = Z.of_nat x / 4096) by (apply Z2Nat.id, Z.div_pos; lia).
      assert (Hdm : 4096 * Z.of_nat k <= Z.of_nat x < 4096 * Z.of_nat k + 4096)
        by (rewrite Hk; pose proof (Z.div_mod (Z.of_nat x) 4096); pose proof (Z.mod_pos_bound (Z.of_nat x) 4096); lia).
      destruct (final_chunks s (S kl) k Hs H0 ltac:(unfold BSZ; lia) ltac:(lia)) as (n' & [_ Hr3'] & Hw' & _).
      apply Hw'. unfold BSZ in *. rewrite Hr3'; [lia|]. apply Z.leb_gt. unfold BSZ. lia.
    - rewrite (lookup_take_ge input) by lia. apply lookup_ge_None. lia. }
  split; [exists L; split; [unfold BSZ; lia|done]|]. intros Hf. rewrite Hout. by rewrite take_ge by (specialize (Hr2 Hf); lia).
Qed.

Definition good (c : pc * aio) : Prop :=
  match c.1 with
  | At i => (i <= NBUF)%nat ∧ inv c.2
  | Ended (Exit 0) => result_ok (a_out c.2)
  | Ended _ => True
  end.

Lemma after_pass_done ok s b s' : after_pass ok s = Done b s' → s' = s ∧ (b = true → a_numop s = 0 ∧ a_size s <= a_off s).
Proof.
  unfold after_pass. erewrite (bind_done get) by reflexivity. destruct (Z.eqb_spec (a_numop s) 0).
  - intros [= <- <-]. split; [done|]. intros H. split; [done|]. by apply Z.leb_le.
  - destruct ok; [|done]. by intros [= <- <-].
Qed.

Lemma body_never_exits i ok s s' : inv s → (i < NBUF)%nat → body i ok s ≠ Fatal (Exit 0) s'.
Proof.
  intros Hs Hlt. destruct (inv_buf _ _ s i Hs Hlt) as [b Hi]. rewrite (body_eq s i ok b Hi).
  unfold do_unused, do_read, do_write, check, mbind, prog_bind, get, die, set_buf, set_list, modify.
  destruct (b_op b); [|destruct (aio_error b) as [err|]; [|done]..];
    repeat match goal with |- context [if ?c then _ else _] => destruct c end; done.
Qed.

Lemma step_good c c' : good c → rot13_step full c c' → good c'.
Proof.
  intros Hg Hstep. destruct Hstep as [i ok s s' Hi E|i ok e s s' Hi E|ok s s' E Hc|ok e s s' E|ok e s s' s'' E E'|i s s' Hc];
    destruct Hg as [Hle Hs]; cbn [fst snd] in *.
  - split; [lia|]. by eapply body_inv.
  - destruct e as [| | |[]|]; try done. by apply body_never_exits in E.
  - apply after_pass_done in E as [-> _]. split; [lia|done].
  - revert E. unfold after_pass. erewrite (bind_done get) by reflexivity.
    destruct (_ =? 0), ok; intros [= <- <-]; done.
  - apply after_pass_done in E as [-> Hend]. destruct (Hend eq_refl). revert E'. unfold finish, check.
    destruct ok; intros [= <- <-]; [|done]. by apply final_ok.
  - split; [done|]. by eapply complete_inv.
Qed.
End final.

(** ** Termination and progress *)

(** What is left to do with a buffer, with all of them, and with the unscheduled chunks. *)
Definition work (b : buf) : Z :=
  match b_op b, b_io b with
  | UNUSED, _ => 0
  | READ_PENDING, InProgress => 4
  | READ_PENDING, _ => 3
  | WRITE_PENDING, InProgress => 2
  | WRITE_PENDING, _ => 1
  end.
Definition works (l : list buf) : Z := foldr (λ b z, work b + z) 0 l.
Definition unscheduled (s : aio) : Z := Z.max 0 ((a_size s - a_off s + BSZ - 1) / BSZ).
Definition work_left (s : aio) : Z := 5 * unscheduled s + works (a_bufs s).

(** The program will do something at this buffer. *)
Definition in_progress (b : buf) : bool := match b_io b with InProgress => true | _ => false end.
Definition ready (s : aio) (b : buf) : bool := if busy b then negb (in_progress b) else a_off s <? a_size s.
Definition ready_from (s : aio) (i : nat) : bool := existsb (ready s) (drop i (a_bufs s)).

Definition measure (c : pc * aio) : Z :=
  match c with
  | (Ended _, _) => 0
  | (At i, s) => 20 * work_left s + (Z.of_nat (NBUF - i) + if ready_from s i then 0 else 10)
  end.

Lemma work_bound b : 0 <= work b <= 4.
Proof. unfold work. destruct (b_op b), (b_io b); lia. Qed.

Lemma works_nonneg l : 0 <= works l.
Proof. induction l as [|b l IH]; cbn; [done|]. pose proof (work_bound b). fold (works l). lia. Qed.

Lemma works_app l1 l2 : works (l1 ++ l2) = works l1 + works l2.
Proof. induction l1 as [|b l1 IH]; cbn; [done|]. fold (works (l1 ++ l2)) (works l1). lia. Qed.

Lemma works_insert l i b b' : l !! i = Some b → works (<[i := b']> l) = works l - work b + work b'.
Proof.
  intros H. rewrite insert_take_drop by (by eapply lookup_lt_Some).
  pose proof (take_drop_middle l i b H) as E. rewrite <- E at 3. rewrite !works_app. cbn.
  fold (works (drop (S i) l)). lia.
Qed.

Lemma work_left_nonneg s : 0 <= work_left s.
Proof. unfold work_left, unscheduled. pose proof (works_nonneg (a_bufs s)). lia. Qed.

Lemma unscheduled_next s o : o = a_off s + BSZ → a_off s < a_size s →
  Z.max 0 ((a_size s - o + BSZ - 1) / BSZ) < unscheduled s.
Proof.
  intros -> H. unfold unscheduled, BSZ. replace (a_size s - (a_off s + 4096) + 4096 - 1) with (a_size s - a_off s - 1) by lia.
  replace (a_size s - a_off s + 4096 - 1) with (a_size s - a_off s - 1 + 1 * 4096) by lia.
  rewrite Z.div_add by lia. assert (0 <= (a_size s - a_off s - 1) / 4096) by (apply Z.div_pos; lia). lia.
Qed.

Section progress.
Context (full : bool) (input : bytes).
Local Abbreviation inv := (inv full input).

Lemma do_read_work s i b err ok s' : a_bufs s !! i = Some b → b_op b = READ_PENDING → in_progress b = false →
  do_read i b err ok s = Done tt s' → work_left s' < work_left s.
Proof.
  intros Hi Hop Hio. unfold do_read, check, mbind, prog_bind, die, mret, prog_ret, set_buf, modify.
  repeat (match goal with |- context [if ?c then _ else _] => destruct c end; try done).
  intros E. injection E as <-. unfold work_left, unscheduled, update. cbn [a_bufs a_size a_off].
  rewrite (works_insert _ _ b) by done. unfold work. rewrite Hop. cbn. unfold in_progress in Hio. destruct (b_io b); [lia|done|lia..].
Qed.

Lemma do_write_work s i b err s' : a_bufs s !! i = Some b → b_op b = WRITE_PENDING → in_progress b = false →
  do_write i b err s = Done tt s' → work_left s' < work_left s.
Proof.
  intros Hi Hop Hio. unfold do_write, check, mbind, prog_bind, die, mret, prog_ret, set_buf, set_list, modify.
  repeat (match goal with |- context [if ?c then _ else _] => destruct c end; try done).
  intros E. injection E as <-. unfold work_left, unscheduled, update. cbn [a_bufs a_size a_off].
  rewrite (works_insert _ _ b) by done. unfold work. rewrite Hop. cbn. unfold in_progress in Hio. destruct (b_io b); [lia|done|lia..].
Qed.

Lemma aio_error_progress b : aio_error b = None → in_progress b = true.
Proof. unfold aio_error, in_progress. by destruct (b_io b). Qed.
Lemma aio_error_completed b err : aio_error b = Some err → in_progress b = false.
Proof. unfold aio_error, in_progress. by destruct (b_io b). Qed.

(** A pass through the body does nothing, at a buffer that is not ready, or some work. *)
Lemma body_work s i ok s' b : a_bufs s !! i = Some b → body i ok s = Done tt s' →
  (s' = s ∧ ready s b = false) ∨ work_left s' < work_left s.
Proof.
  intros Hi. rewrite (body_eq s i ok b Hi). unfold ready, busy. destruct (b_op b) eqn:Hop.
  - rewrite bool_decide_true by done. cbn [negb]. unfold do_unused. erewrite (bind_done get) by reflexivity.
    destruct (Z.ltb_spec (a_off s) (a_size s)) as [Hlt|]; [|intros [= <-]; by left].
    destruct ok; [|done]. intros E. injection E as <-. right. unfold work_left, update.
    pose proof (unscheduled_next s _ eq_refl Hlt) as Hu. unfold unscheduled at 1. cbn [a_bufs a_size a_off].
    rewrite (works_insert _ _ b) by done. unfold work. rewrite Hop. cbn. unfold unscheduled in *. lia.
  - rewrite bool_decide_false by done. destruct (aio_error b) eqn:He.
    + intros E. right. eapply do_read_work; try done. by eapply aio_error_completed.
    + intros [= <-]. left. by rewrite (aio_error_progress b He).
  - rewrite bool_decide_false by done. destruct (aio_error b) eqn:He.
    + intros E. right. eapply do_write_work; try done. by eapply aio_error_completed.
    + intros [= <-]. left. by rewrite (aio_error_progress b He).
Qed.

Lemma complete_work s s' : inv s → complete full s s' → work_left s' < work_left s.
Proof.
  intros Hs Hc. destruct Hc as [s i b n Hi Hop Hio _ av _ _|s i b n Hi Hop Hio _ _|s i b err Hi Hio _];
    unfold work_left, unscheduled, update; cbn [a_bufs a_size a_off]; rewrite (works_insert _ _ b) by done; unfold work.
  - cbn. rewrite Hop, Hio. lia.
  - cbn. rewrite Hop, Hio. lia.
  - cbn. destruct (b_op b) eqn:Hop; rewrite ?Hio; [|lia..].
    assert (Hb : busy b = false) by (unfold busy; by rewrite Hop). pose proof (inv_idle _ _ _ Hs i b Hi Hb). congruence.
Qed.

Lemma ready_from_step s i b : a_bufs s !! i = Some b → ready_from s i = ready s b || ready_from s (S i).
Proof. intros Hi. unfold ready_from. by rewrite (drop_S _ _ _ Hi). Qed.

Lemma ready_from_lt s i : inv s → ready_from s i = true → (i < NBUF)%nat.
Proof.
  intros Hs. unfold ready_from. destruct (decide (i < NBUF)%nat); [done|].
  rewrite drop_ge by (rewrite (inv_bufs _ _ _ Hs); lia). done.
Qed.

Lemma measure_pos s i : inv s → 0 < measure (At i, s).
Proof.
  intros Hs. unfold measure. pose proof (work_left_nonneg s). destruct (ready_from s i) eqn:Hr; [|lia].
  apply (ready_from_lt _ _ Hs) in Hr. lia.
Qed.

Lemma measure_work s s' i j : work_left s' < work_left s → measure (At j, s') < measure (At i, s).
Proof. intros H. unfold measure, NBUF. destruct (ready_from s' j), (ready_from s i); lia. Qed.

(** There is something to do after a pass that does not end the program. *)
Lemma again_ready s ok : inv s → after_pass ok s = Done false s → (a_numop s ≠ 0 → has_completed s) → ready_from s 0 = true.
Proof.
  intros Hs Hp Hc. unfold ready_from. rewrite drop_0. apply existsb_exists.
  destruct (decide (a_numop s = 0)) as [H0|H0].
  - destruct (inv_buf _ _ s 0 Hs) as [b Hi]; [unfold NBUF; lia|]. exists b.
    split; [apply list_elem_of_In; by eapply list_elem_of_lookup_2|]. unfold ready.
    rewrite (inv_numop _ _ _ Hs) in H0. rewrite (count_zero _ _ _ H0 Hi).
    revert Hp. unfold after_pass. erewrite (bind_done get) by reflexivity.
    rewrite (inv_numop _ _ _ Hs), H0. cbn. intros [= Hle]. apply Z.leb_gt in Hle. by apply Z.ltb_lt.
  - destruct (Hc H0) as (i & b & Hl & Hi & Hio). exists b. split; [apply list_elem_of_In; by eapply list_elem_of_lookup_2|].
    rewrite (inv_list _ _ _ Hs i b Hi) in Hl. injection Hl as Hb. unfold ready. rewrite Hb.
    unfold in_progress. by destruct (b_io b).
Qed.

Lemma step_measure c c' : good full input c → rot13_step full c c' → 0 <= measure c' < measure c.
Proof.
  intros Hg Hstep. assert (Hnn : ∀ c, good full input c → 0 <= measure c).
  { intros [[i|e] s]; [|done]. intros [_ Hs]. pose proof (measure_pos s i Hs). lia. }
  split; [apply Hnn; by eapply step_good|].
  destruct Hstep as [i ok s s' Hi E|i ok e s s' Hi E|ok s s' E Hc|ok e s s' E|ok e s s' s'' E E'|i s s' Hc];
    destruct Hg as [Hle Hs]; cbn [fst snd] in *; try by apply (measure_pos _ _ Hs).
  - destruct (inv_buf _ _ s i Hs Hi) as [b Hb]. destruct (body_work s i ok s' b Hb E) as [[-> Hr]|Hw]; [|by apply measure_work].
    unfold measure. rewrite (ready_from_step s i b Hb), Hr. cbn [orb]. destruct (ready_from s (S i)); lia.
  - pose proof (after_pass_done _ _ _ _ E) as [-> _]. unfold measure.
    rewrite (again_ready s ok Hs E Hc). destruct (ready_from s NBUF) eqn:Hr; [|unfold NBUF; lia].
    apply (ready_from_lt _ _ Hs) in Hr. lia.
  - apply measure_work. by apply complete_work.
Qed.

Lemma good_sn c : good full input c → sn (rot13_step full) c.
Proof.
  remember (Z.to_nat (measure c)) as m eqn:Hm. revert c Hm. induction (lt_wf m) as [m _ IH]. intros c -> Hg.
  constructor. intros c' Hstep. pose proof (step_measure c c' Hg Hstep).
  apply (IH (Z.to_nat (measure c'))); [lia|done|]. by eapply step_good.
Qed.

Lemma count_nonzero l : count l ≠ 0 → ∃ i b, l !! i = Some b ∧ busy b = true.
Proof.
  induction l as [|b l IH]; [done|]. pose proof (count_middle [] b l) as E. cbn [app] in E. rewrite E. clear E.
  destruct (busy b) eqn:Hb; [by exists 0%nat, b|]. intros H. destruct IH as (i & b' & Hi & Hb'); [unfold count in *; cbn in H; lia|].
  by exists (S i), b'.
Qed.

(** A request under way can complete. *)
Lemma busy_request s i b : inv s → a_bufs s !! i = Some b → busy b = true → in_progress b = true → ∃ s', complete full s s'.
Proof.
  intros Hs Hi Hb Hp. assert (Hop : b_op b ≠ UNUSED) by (intros E; unfold busy in Hb; by rewrite E in Hb).
  assert (Hio : b_io b = InProgress) by (unfold in_progress in Hp; by destruct (b_io b)).
  destruct (busy_chunk _ _ s i b Hs Hi Hop) as (_ & nch & k & _ & (_ & _ & _ & Hr) & _).
  unfold request_ok in Hr. rewrite Hio in Hr. destruct (b_op b) eqn:Hop'; [done|..]; eexists.
  - eapply (complete_read full s i b (Z.max 0 (Z.min (b_nbytes b) (Z.of_nat (length (a_in s)) - b_offset b)))); try done;
      [apply Hr|lia].
  - eapply (complete_write full s i b 0); try done; [apply Hr|]. destruct Hr as (_ & [[Hr _] _] & _). lia.
Qed.

Lemma body_defined s i ok b : a_bufs s !! i = Some b →
  match body i ok s with Done _ _ | Fatal _ _ => True | _ => False end.
Proof.
  intros Hi. rewrite (body_eq s i ok b Hi).
  unfold do_unused, do_read, do_write, check, mbind, prog_bind, get, die, set_buf, set_list, modify, mret, prog_ret.
  destruct (b_op b); [|destruct (aio_error b) as [err|]; [|done]..];
    repeat match goal with |- context [if ?c then _ else _] => destruct c end; done.
Qed.

(** A program that has not ended can go on: nothing is undefined, and aio_suspend does not
    wait for ever. *)
Lemma good_progress i s : good full input (At i, s) →
  ∃ c', rot13_step full (At i, s) c' ∧ (i = NBUF → ∀ e, c'.1 = Ended e → e = Exit 0).
Proof.
  intros [Hle Hs]. cbn [fst snd] in *. destruct (decide (i = NBUF)) as [->|Hne].
  - destruct (decide (a_numop s = 0)) as [H0|H0].
    + destruct (a_size s <=? a_off s) eqn:Hoff.
      * eexists (Ended (Exit 0), _). split; [|intros _ e He; cbn in He; by injection He]. eapply (rs_finish full true _ s s); [|reflexivity]. unfold after_pass.
        erewrite (bind_done get) by reflexivity. by rewrite H0, Hoff.
      * exists (At 0, s). split; [|done]. eapply (rs_again full true s s); [|done]. unfold after_pass.
        erewrite (bind_done get) by reflexivity. by rewrite H0, Hoff.
    + rewrite (inv_numop _ _ _ Hs) in H0. apply count_nonzero in H0 as (i & b & Hi & Hb).
      destruct (in_progress b) eqn:Hp.
      * destruct (busy_request s i b Hs Hi Hb Hp) as [s' Hc]. exists (At NBUF, s'). split; [by apply (rs_complete full NBUF s s')|done].
      * exists (At 0, s). split; [|done]. eapply (rs_again full true s s).
        -- unfold after_pass. erewrite (bind_done get) by reflexivity. rewrite (inv_numop _ _ _ Hs).
           destruct (Z.eqb_spec (count (a_bufs s)) 0) as [H0'|]; [|done]. by rewrite (count_zero _ _ _ H0' Hi) in Hb.
        -- intros _. exists i, b. rewrite (inv_list _ _ _ Hs i b Hi), Hb. split_and!; [done|done|].
           intros Hio. unfold in_progress in Hp. by rewrite Hio in Hp.
  - assert (Hlt : (i < NBUF)%nat) by lia. destruct (inv_buf _ _ s i Hs Hlt) as [b Hi]. pose proof (body_defined s i true b Hi) as Hd.
    destruct (body i true s) as [[] s'|e s'| |] eqn:E; try done; eexists; (split; [|by intros ->]); [by eapply rs_body|by eapply rs_die].
Qed.
End progress.

(** ** Properties *)

Lemma init_inv full input :
  inv full input (Aio (replicate NBUF buf_init) (replicate NBUF false) 0 0 (Z.of_nat (length input)) input []).
Proof.
  assert (Hb : ∀ i b, replicate NBUF buf_init !! i = Some b → b = buf_init) by (by intros i b [-> _]%lookup_replicate).
  split; cbn [a_bufs a_list a_off a_numop a_size a_in a_out]; try done.
  - intros i b Hi. rewrite (Hb i b Hi). apply lookup_replicate in Hi as [_ Hi]. by apply lookup_replicate_2.
  - exists 0%nat. split; [done|]. split; [by left|]. split; [|lia]. intros i b Hi. by rewrite (Hb i b Hi).
  - intros i b Hi. by rewrite (Hb i b Hi).
  - cbn. lia.
  - intros i b Hi _. by rewrite (Hb i b Hi).
  - intros i j b b' Hi _ Hbusy. by rewrite (Hb i b Hi) in Hbusy.
Qed.

Lemma start_good full argc input creat stat s0 : rot13_start argc (Some input) creat stat tt = Done s0 tt →
  good full input (At 0, s0).
Proof.
  unfold rot13_start, check. destruct (argc =? 3), creat, stat; try done. intros E. injection E as <-.
  split; [cbn; lia|]. apply init_inv.
Qed.

Lemma steps_good full input c c' : good full input c → rot13_steps full c c' → good full input c'.
Proof. intros Hg Hs. induction Hs as [|c c1 c2 Hstep _ IH]; [done|]. apply IH. by eapply step_good. Qed.

Lemma translate_translate c : translate (translate c) = c.
Proof. destruct c as [[] [] [] [] [] [] [] []]; vm_compute; reflexivity. Qed.

(** C23: When rot13c2 exits with 0 its output file is the input file with every byte
    translated, whatever the order in which the requests completed and the passes of the
    loop saw them, and translating the output again gives the input; a read that gets
    less than there is can only cut the last block short, which the program does not
    notice. *)
Theorem rot13_translates full argc input creat stat s0 s
    (Hstart : rot13_start argc (Some input) creat stat tt = Done s0 tt)
    (Hrun : rot13_steps full (At 0, s0) (Ended (Exit 0), s)) :
  (full = true → a_out s = translate <$> input ∧ translate <$> a_out s = input) ∧
  ∃ L : nat, Z.of_nat (length input) - BSZ <= Z.of_nat L <= Z.of_nat (length input) ∧
    a_out s = translate <$> take L input.
Proof.
  pose proof (start_good full _ _ _ _ _ Hstart) as Hg. pose proof (steps_good _ _ _ _ Hg Hrun) as [HL Hf].
  split; [|done]. intros H. cbn [snd] in *. rewrite (Hf H). split; [done|]. rewrite <- list_fmap_compose.
  rewrite <- (list_fmap_id input) at 2. apply list_fmap_ext. intros i c _. apply translate_translate.
Qed.

(** rot13c2 comes to an end, whatever requests fail or fall short and however the
    kernel interleaves with the loop: no execution is infinite, in no state it reaches is
    the program undefined, and it is never blocked, in aio_suspend, without a request under
    way whose completion wakes it. *)
Theorem rot13_ends full argc input creat stat s0
    (Hstart : rot13_start argc (Some input) creat stat tt = Done s0 tt) :
  sn (rot13_step full) (At 0, s0) ∧
  ∀ p s, rot13_steps full (At 0, s0) (p, s) → (∃ e, p = Ended e) ∨
    ∃ c, rot13_step full (p, s) c ∧ (p = At NBUF → ∀ e, c.1 = Ended e → e = Exit 0).
Proof.
  pose proof (start_good full _ _ _ _ _ Hstart) as Hg. split; [by eapply good_sn|].
  intros [i|e] s Hrun; [right|left; by exists e].
  destruct (good_progress full input i s) as (c & Hc & Hend); [by eapply steps_good|].
  exists c. split; [done|]. intros [= ->]. by apply Hend.
Qed.

(** Several passes through the body. *)
Fixpoint passes (n i : nat) (s : aio) : option aio :=
  match n with
  | O => Some s
  | S n' => match body i true s with Done _ s' => passes n' (S i) s' | _ => None end
  end.

Lemma passes_steps full n : ∀ i s s', passes n i s = Some s' → (i + n <= NBUF)%nat →
  rot13_steps full (At i, s) (At (i + n), s').
Proof.
  induction n as [|n IH]; intros i s s' H Hle; cbn in H.
  - injection H as <-. rewrite Nat.add_0_r. apply rtc_refl.
  - destruct (body i true s) as [[] s1| | |] eqn:E; [|done..]. eapply rtc_l; [by apply rs_body with (ok := true); [lia|]|].
    rewrite Nat.add_succ_r. by apply (IH (S i)); [|lia].
Qed.

(** The program on a file of one block. *)
Definition hello : bytes := str "Hello, world".
Definition hello_0 : aio := Aio (replicate NBUF buf_init) (replicate NBUF false) 0 0 12 hello [].
Definition hello_1 : aio := default hello_0 (passes NBUF 0 hello_0).
Definition hello_b1 : buf := default buf_init (a_bufs hello_1 !! 0%nat).
Definition hello_2 : aio := hello_1 <| a_bufs ::= <[0%nat := hello_b1 <| b_io := Finished 12 |>
  <| b_data ::= λ d, put_at d 0 (slice 0 12 (a_in hello_1)) |>]> |>.
Definition hello_3 : aio := default hello_0 (passes NBUF 0 hello_2).
Definition hello_b3 : buf := default buf_init (a_bufs hello_3 !! 0%nat).
Definition hello_4 : aio := hello_3 <| a_bufs ::= <[0%nat := hello_b3 <| b_io := Finished 12 |>]> |>
  <| a_out ::= λ out, pwrite out 0 (take 12 (b_data hello_b3)) |>.
Definition hello_5 : aio := default hello_0 (passes NBUF 0 hello_4).

Lemma hello_run : rot13_steps true (At 0, hello_0) (Ended (Exit 0), hello_5).
Proof.
  assert (H1 : rot13_steps true (At 0, hello_0) (At NBUF, hello_1)) by (apply (passes_steps true NBUF 0); [by vm_compute|done]).
  assert (H2 : rot13_step true (At NBUF, hello_1) (At NBUF, hello_2)).
  { apply rs_complete. apply (complete_read true hello_1 0 hello_b1 12); try (by vm_compute). }
  assert (H3 : ∀ s, after_pass true s = Done false s → (∃ b, a_list s !! 0%nat = Some true ∧ a_bufs s !! 0%nat = Some b ∧ b_io b = Finished 12) →
    rot13_step true (At NBUF, s) (At 0, s)).
  { intros s E (b & Hl & Hb & Hio). eapply rs_again; [exact E|]. intros _. exists 0%nat, b. by rewrite Hio. }
  assert (H4 : rot13_steps true (At 0, hello_2) (At NBUF, hello_3)) by (apply (passes_steps true NBUF 0); [by vm_compute|done]).
  assert (H5 : rot13_step true (At NBUF, hello_3) (At NBUF, hello_4)).
  { apply rs_complete. apply (complete_write true hello_3 0 hello_b3 12); try (by vm_compute). }
  assert (H6 : rot13_steps true (At 0, hello_4) (At NBUF, hello_5)) by (apply (passes_steps true NBUF 0); [by vm_compute|done]).
  unfold rot13_steps. etrans; [exact H1|]. eapply rtc_l; [exact H2|].
  eapply rtc_l; [apply H3; [by vm_compute|eexists; split_and!; by vm_compute]|].
  etrans; [exact H4|]. eapply rtc_l; [exact H5|].
  eapply rtc_l; [apply H3; [by vm_compute|eexists; split_and!; by vm_compute]|].
  etrans; [exact H6|]. apply rtc_once. eapply (rs_finish true true _ _ hello_5); [by vm_compute|reflexivity].
Qed.

Lemma rot13_translates_witness : ∃ s, rot13_steps true (At 0, hello_0) (Ended (Exit 0), s) ∧ a_out s = str "Uryyb, jbeyq".
Proof.
  exists hello_5. split; [exact hello_run|].
  destruct (rot13_translates true 3 hello true true hello_0 hello_5 eq_refl hello_run) as [H _].
  rewrite (proj1 (H eq_refl)). by vm_compute.
Defined.

Lemma rot13_ends_witness : sn (rot13_step true) (At 0, hello_0).
Proof. exact (proj1 (rot13_ends true 3 hello true true hello_0 eq_refl)). Defined.
