(* ===== verification/Tty.v ===== *)
(** * Terminal modes: lib/ttymodes.c, termios/getpass.c and set_noecho of pty/main.c.

    The terminals are a map from descriptors to their settings.  A request to change the
    settings goes through the driver, [accept], which may honour a part of it only and
    still succeed; each system call can fail. *)
From Stdlib Require Import Ascii ZArith Lia.
From stdpp Require Import base strings gmap option list.
From S2P Require Import Prelude CStr.

(** ** Settings *)

(** struct termios; the control characters are indexed by VMIN, VTIME, ... *)
Record termios := Termios { c_iflag : Z; c_oflag : Z; c_cflag : Z; c_lflag : Z; c_cc : gmap Z Z }.
#[export] Instance termios_rebuild : Rebuild termios := λ t,
  Termios (c_iflag t) (c_oflag t) (c_cflag t) (c_lflag t) (c_cc t).

(** The values of Linux. *)
Definition ISIG : Z := 1.
Definition ICANON : Z := 2.
Definition ECHO : Z := 8.
Definition IEXTEN : Z := 32768.
Definition BRKINT : Z := 2.
Definition INPCK : Z := 16.
Definition ISTRIP : Z := 32.
Definition ICRNL : Z := 256.
Definition IXON : Z := 1024.
Definition CSIZE : Z := 48.
Definition CS8 : Z := 48.
Definition PARENB : Z := 256.
Definition OPOST : Z := 1.
Definition VTIME : Z := 5.
Definition VMIN : Z := 6.
Definition EINVAL : Z := 22.
Definition ENOTTY : Z := 25.

(** x &= ~mask *)
Definition clear (mask x : Z) : Z := Z.ldiff x mask.
(** x & mask, as a condition *)
Definition any (x mask : Z) : bool := negb (Z.land x mask =? 0).
Definition cc (t : termios) (i : Z) : Z := default 0 (c_cc t !! i).

Definition L_CBREAK : Z := Z.lor ECHO ICANON.
Definition L_RAW : Z := Z.lor (Z.lor (Z.lor ECHO ICANON) IEXTEN) ISIG.
Definition I_RAW : Z := Z.lor (Z.lor (Z.lor (Z.lor BRKINT ICRNL) INPCK) ISTRIP) IXON.
Definition C_RAW : Z := Z.lor CSIZE PARENB.

(** What tty_cbreak and tty_raw ask for, and whether they find that it stuck. *)
Definition cbreak_of (t : termios) : termios :=
  t <| c_lflag ::= clear L_CBREAK |> <| c_cc ::= λ m, <[VTIME := 0]> (<[VMIN := 1]> m) |>.
Definition cbreak_ok (t : termios) : bool :=
  negb (any (c_lflag t) L_CBREAK || negb (cc t VMIN =? 1) || negb (cc t VTIME =? 0)).

Definition raw_of (t : termios) : termios :=
  t <| c_lflag ::= clear L_RAW |>
    <| c_iflag ::= clear I_RAW |>
    <| c_cflag ::= clear C_RAW |>
    <| c_cflag ::= λ x, Z.lor x CS8 |>
    <| c_oflag ::= clear OPOST |>
    <| c_cc ::= λ m, <[VTIME := 0]> (<[VMIN := 1]> m) |>.
Definition raw_ok (t : termios) : bool :=
  negb (any (c_lflag t) L_RAW || any (c_iflag t) I_RAW ||
        negb (Z.land (c_cflag t) (Z.lor C_RAW CS8) =? CS8) ||
        any (c_oflag t) OPOST || negb (cc t VMIN =? 1) || negb (cc t VTIME =? 0)).

(** ** The routines *)

Inductive ttymode := RESET | RAW | CBREAK.
#[export] Instance ttymode_eq_dec : EqDecision ttymode.
Proof. solve_decision. Defined.

(** The static variables, errno, the terminals, and how the calls to come will end (0, or
    an error number; success when the list is used up), and the signals that are blocked. *)
Record tty := Tty {
  t_save : termios; t_savefd : Z; t_state : ttymode;
  t_errno : Z; t_dev : gmap Z termios; t_script : list Z; t_mask : gset Z }.
#[export] Instance tty_rebuild : Rebuild tty := λ s,
  Tty (t_save s) (t_savefd s) (t_state s) (t_errno s) (t_dev s) (t_script s) (t_mask s).

Section tty.
(** The settings after a request [t] at a terminal with settings [old]. *)
Context (accept : termios → termios → termios).

Definition set_errno (e : Z) : prog tty unit := modify (λ s, s <| t_errno := e |>).

(** The settings, or errno is set. *)
Definition tcgetattr (fd : Z) : prog tty (option termios) :=
  s ← get;
  let e := default 0 (head (t_script s)) in
  modify (λ s, s <| t_script ::= tail |>) ;;
  if negb (e =? 0) then set_errno e ;; mret None
  else match t_dev s !! fd with
       | None => set_errno ENOTTY ;; mret None
       | Some t => mret (Some t)
       end.

(** TCSAFLUSH: the output is drained, the input discarded. *)
Definition tcsetattr (fd : Z) (t : termios) : prog tty Z :=
  s ← get;
  let e := default 0 (head (t_script s)) in
  modify (λ s, s <| t_script ::= tail |>) ;;
  if negb (e =? 0) then set_errno e ;; mret (-1)
  else match t_dev s !! fd with
       | None => set_errno ENOTTY ;; mret (-1)
       | Some old => modify (λ s, s <| t_dev ::= <[fd := accept old t]> |>) ;; mret 0
       end.

(** What tty_cbreak and tty_raw have in common. *)
Definition tty_mode (want : termios → termios) (stuck : termios → bool) (mode : ttymode) (fd : Z) : prog tty Z :=
  s ← get;
  if negb (bool_decide (t_state s = RESET)) then set_errno EINVAL ;; mret (-1)
  else
    buf ← tcgetattr fd;
    match buf with
    | None => mret (-1)
    | Some buf =>
        modify (λ s, s <| t_save := buf |>) ;;
        r ← tcsetattr fd (want buf);
        if r <? 0 then mret (-1)
        else
          buf ← tcgetattr fd;
          match buf with
          | None =>
              err ← gets t_errno;
              save ← gets t_save;
              tcsetattr fd save ;;
              set_errno err ;;
              mret (-1)
          | Some buf =>
              if negb (stuck buf) then
                save ← gets t_save;
                tcsetattr fd save ;;
                set_errno EINVAL ;;
                mret (-1)
              else
                modify (λ s, s <| t_state := mode |>) ;;
                modify (λ s, s <| t_savefd := fd |>) ;;
                mret 0
          end
    end.

Definition tty_cbreak : Z → prog tty Z := tty_mode cbreak_of cbreak_ok CBREAK.
Definition tty_raw : Z → prog tty Z := tty_mode raw_of raw_ok RAW.

Definition tty_reset (fd : Z) : prog tty Z :=
  s ← get;
  if bool_decide (t_state s = RESET) then mret 0
  else
    r ← tcsetattr fd (t_save s);
    if r <? 0 then mret (-1)
    else modify (λ s, s <| t_state := RESET |>) ;; mret 0.

Definition tty_atexit : prog tty unit :=
  s ← get;
  if 0 <=? t_savefd s then tty_reset (t_savefd s) ;; mret tt else mret tt.

Definition tty_termios : prog tty termios := gets t_save.

(** set_noecho of pty/main.c, for a pseudo terminal's slave. *)
Definition ECHOE : Z := 16.
Definition ECHOK : Z := 32.
Definition ECHONL : Z := 64.
Definition ONLCR : Z := 4.

Definition noecho_of (t : termios) : termios :=
  t <| c_lflag ::= clear (Z.lor (Z.lor (Z.lor ECHO ECHOE) ECHOK) ECHONL) |>
    <| c_oflag ::= clear ONLCR |>.
Definition set_noecho (fd : Z) : prog tty unit :=
  t ← tcgetattr fd;
  match t with
  | None => die (ErrSys "tcgetattr error")
  | Some t =>
      r ← tcsetattr fd (noecho_of t);
      check (negb (r <? 0)) (ErrSys "tcsetattr error")
  end.

(** termios/getpass.c: [fd] is the terminal's descriptor, [input] what getc returns up to
    the end of the file.  The result is the string in buf and what is left of the input. *)
Definition SIGINT : Z := 2.
Definition SIGTSTP : Z := 20.
Definition MAX_PASS_LEN : nat := 8.

Fixpoint getpass_loop (buf input : bytes) : bytes * bytes :=
  match input with
  | [] => (buf, [])
  | c :: input' =>
      if Ascii.eqb c NEWLINE then (buf, input')
      else getpass_loop (if (length buf <? MAX_PASS_LEN)%nat then buf ++ [c] else buf) input'
  end.

Definition getpass (fd : option Z) (input : bytes) : prog tty (option (bytes * bytes)) :=
  match fd with
  | None => mret None
  | Some fd =>
      osig ← gets t_mask;
      modify (λ s, s <| t_mask ::= λ m, m ∪ {[SIGINT; SIGTSTP]} |>) ;;
      ts ← tcgetattr fd;
      match ts with
      | None => undefined
      | Some ots =>
          let ts := ots <| c_lflag ::= clear (Z.lor (Z.lor (Z.lor ECHO ECHOE) ECHOK) ECHONL) |> in
          tcsetattr fd ts ;;
          let (buf, rest) := getpass_loop [] input in
          tcsetattr fd ots ;;
          modify (λ s, s <| t_mask := osig |>) ;;
          mret (Some (cstr (buf ++ [NUL]), rest))
      end
  end.
End tty.
