(* ===== verification/TtyProps.v ===== *)
(** * Properties of the terminal modes of lib/ttymodes.c. *)
From Stdlib Require Import Ascii ZArith Lia.
From stdpp Require Import base strings gmap option list.
From S2P Require Import Prelude CStr Tty.

(** ** Flags, bit by bit *)

Definition off (mask x : Z) : Prop := ∀ n, Z.testbit mask n = true → Z.testbit x n = false.
Definition same_but (mask x y : Z) : Prop := ∀ n, Z.testbit mask n = false → Z.testbit x n = Z.testbit y n.

Lemma any_off x mask : any x mask = false ↔ off mask x.
Proof.
  unfold any, off. rewrite negb_false_iff, Z.eqb_eq. split.
  - intros H n Hn. assert (Z.testbit (Z.land x mask) n = false) as E by (rewrite H; apply Z.bits_0).
    rewrite Z.land_spec, Hn, andb_true_r in E. done.
  - intros H. apply Z.bits_inj'. intros n _. rewrite Z.land_spec, Z.bits_0. specialize (H n).
    destruct (Z.testbit mask n); [by rewrite H|apply andb_false_r].
Qed.

Lemma clear_off mask x : off mask (clear mask x).
Proof. intros n Hn. unfold clear. rewrite Z.ldiff_spec, Hn. apply andb_false_r. Qed.

Lemma clear_same mask x : same_but mask (clear mask x) x.
Proof. intros n Hn. unfold clear. rewrite Z.ldiff_spec, Hn. apply andb_true_r. Qed.

(** The bits of [mask] are those of [v]. *)
Definition field (mask v x : Z) : Prop := ∀ n, Z.testbit mask n = true → Z.testbit x n = Z.testbit v n.

Lemma land_field x mask v : Z.land x mask = v ↔ field mask v x ∧ Z.land v mask = v.
Proof.
  split.
  - intros <-. split; [intros n Hn; by rewrite Z.land_spec, Hn, andb_true_r|].
    by rewrite <- Z.land_assoc, Z.land_diag.
  - intros [H <-]. apply Z.bits_inj'. intros n _. rewrite !Z.land_spec.
    destruct (Z.testbit mask n) eqn:Hn; [by rewrite (H n Hn)|by rewrite !andb_false_r].
Qed.

(** ** The two modes *)

Definition in_cbreak (t : termios) : Prop :=
  off ECHO (c_lflag t) ∧ off ICANON (c_lflag t) ∧ cc t VMIN = 1 ∧ cc t VTIME = 0.
Definition in_raw (t : termios) : Prop :=
  in_cbreak t ∧ off IEXTEN (c_lflag t) ∧ off ISIG (c_lflag t) ∧
  off BRKINT (c_iflag t) ∧ off ICRNL (c_iflag t) ∧ off INPCK (c_iflag t) ∧ off ISTRIP (c_iflag t) ∧ off IXON (c_iflag t) ∧
  field CSIZE CS8 (c_cflag t) ∧ off PARENB (c_cflag t) ∧ off OPOST (c_oflag t).

Lemma off_lor a b x : off (Z.lor a b) x ↔ off a x ∧ off b x.
Proof.
  unfold off. split.
  - intros H. split; intros n Hn; apply H; rewrite Z.lor_spec, Hn; [done|apply orb_true_r].
  - intros [Ha Hb] n Hn. rewrite Z.lor_spec in Hn. apply orb_true_iff in Hn as [Hn|Hn]; auto.
Qed.

Lemma field_lor a b v x : field (Z.lor a b) v x ↔ field a v x ∧ field b v x.
Proof.
  unfold field. split.
  - intros H. split; intros n Hn; apply H; rewrite Z.lor_spec, Hn; [done|apply orb_true_r].
  - intros [Ha Hb] n Hn. rewrite Z.lor_spec in Hn. apply orb_true_iff in Hn as [Hn|Hn]; auto.
Qed.

Lemma field_off mask v x : Z.land v mask = 0 → field mask v x ↔ off mask x.
Proof.
  intros Hv. assert (H : ∀ n, Z.testbit mask n = true → Z.testbit v n = false).
  { apply any_off. unfold any. by rewrite Hv. }
  split; intros Hf n Hn; [rewrite (Hf n Hn)|rewrite (Hf n Hn), H]; auto.
Qed.

Lemma cbreak_ok_spec t : cbreak_ok t = true ↔ in_cbreak t.
Proof.
  unfold cbreak_ok, in_cbreak, L_CBREAK. rewrite negb_true_iff, !orb_false_iff, any_off, off_lor, !negb_false_iff, !Z.eqb_eq.
  tauto.
Qed.

Lemma raw_ok_spec t : raw_ok t = true ↔ in_raw t.
Proof.
  unfold raw_ok, in_raw, in_cbreak, L_RAW, I_RAW, C_RAW.
  rewrite negb_true_iff, !orb_false_iff, !any_off, !off_lor, !negb_false_iff, !Z.eqb_eq, land_field, !field_lor.
  rewrite (field_off PARENB) by done.
  assert (Z.land CS8 (Z.lor (Z.lor CSIZE PARENB) CS8) = CS8) by done. tauto.
Qed.

Lemma cc_set (m : gmap Z Z) (v1 v2 : Z) : let m' := <[VTIME := v2]> (<[VMIN := v1]> m) in
  default 0 (m' !! VMIN) = v1 ∧ default 0 (m' !! VTIME) = v2.
Proof. cbv zeta. split; [by rewrite lookup_insert_ne, lookup_insert_eq|by rewrite lookup_insert_eq]. Qed.

Lemma cbreak_of_in t : cbreak_ok (cbreak_of t) = true.
Proof.
  apply cbreak_ok_spec. unfold in_cbreak, cc. pose proof (clear_off L_CBREAK (c_lflag t)) as H.
  unfold L_CBREAK in H. apply off_lor in H as [H1 H2]. destruct (cc_set (c_cc t) 1 0). by split_and!.
Qed.

Lemma raw_of_in t : raw_ok (raw_of t) = true.
Proof.
  apply raw_ok_spec. unfold in_raw, in_cbreak, cc.
  pose proof (clear_off L_RAW (c_lflag t)) as H. unfold L_RAW in H. rewrite !off_lor in H.
  pose proof (clear_off I_RAW (c_iflag t)) as H'. unfold I_RAW in H'. rewrite !off_lor in H'.
  pose proof (clear_off OPOST (c_oflag t)). destruct (cc_set (c_cc t) 1 0).
  assert (field CSIZE CS8 (c_cflag (raw_of t)) ∧ off PARENB (c_cflag (raw_of t))) as [Hc Hp].
  { change (c_cflag (raw_of t)) with (Z.lor (clear C_RAW (c_cflag t)) CS8).
    pose proof (clear_off C_RAW (c_cflag t)) as Hc. apply (off_lor CSIZE PARENB) in Hc as [Hc Hp].
    split; intros n Hn; rewrite Z.lor_spec; [by rewrite (Hc n Hn)|]. rewrite (Hp n Hn). cbn [orb].
    by apply (proj1 (any_off CS8 PARENB)). }
  split_and!; try done; apply H || apply H'.
Qed.

(** ** Entering a mode *)

Section mode.
Context (accept : termios → termios → termios).

Lemma tcgetattr_fails fd s e es : t_script s = e :: es → e ≠ 0 →
  tcgetattr fd s = Done None (s <| t_script := es |> <| t_errno := e |>).
Proof.
  intros Hs He. unfold tcgetattr. erewrite (bind_done get) by reflexivity. rewrite Hs, bind_modify. change (default 0 (head (e :: es))) with e.
  rewrite (proj2 (Z.eqb_neq e 0) He). cbn [negb]. unfold set_errno. rewrite bind_modify.
  unfold update. cbn. by rewrite Hs.
Qed.

Lemma tcgetattr_ok fd s es t : t_script s = 0 :: es → t_dev s !! fd = Some t →
  tcgetattr fd s = Done (Some t) (s <| t_script := es |>).
Proof.
  intros Hs Ht. unfold tcgetattr. erewrite (bind_done get) by reflexivity. rewrite Hs, bind_modify. cbn. rewrite Ht.
  unfold update. cbn. by rewrite Hs.
Qed.

Lemma tcsetattr_fails fd t s e es : t_script s = e :: es → e ≠ 0 →
  tcsetattr accept fd t s = Done (-1) (s <| t_script := es |> <| t_errno := e |>).
Proof.
  intros Hs He. unfold tcsetattr. erewrite (bind_done get) by reflexivity. rewrite Hs, bind_modify. change (default 0 (head (e :: es))) with e.
  rewrite (proj2 (Z.eqb_neq e 0) He). cbn [negb]. unfold set_errno. rewrite bind_modify.
  unfold update. cbn. by rewrite Hs.
Qed.

Lemma tcsetattr_ok fd t s es old : t_script s = 0 :: es → t_dev s !! fd = Some old →
  tcsetattr accept fd t s = Done 0 (s <| t_script := es |> <| t_dev := <[fd := accept old t]> (t_dev s) |>).
Proof.
  intros Hs Ht. unfold tcsetattr. erewrite (bind_done get) by reflexivity. rewrite Hs, bind_modify. cbn. rewrite Ht.
  unfold update. cbn. by rewrite Hs.
Qed.

(** Giving the old settings back, with whatever result. *)
Lemma restore_spec fd t s e es old : t_script s = e :: es → t_dev s !! fd = Some old → ∃ r s',
  tcsetattr accept fd t s = Done r s' ∧ t_state s' = t_state s ∧ t_savefd s' = t_savefd s ∧ t_save s' = t_save s ∧
  t_script s' = es ∧ t_mask s' = t_mask s ∧ t_dev s' = if e =? 0 then <[fd := accept old t]> (t_dev s) else t_dev s.
Proof.
  intros Hs Ht. destruct (Z.eqb_spec e 0) as [->|He].
  - rewrite (tcsetattr_ok fd t s es old) by done. by eexists _, _.
  - rewrite (tcsetattr_fails fd t s e es) by done. by eexists _, _.
Qed.

(** The four system calls end with [e1], ..., [e4]. *)
Lemma tty_mode_spec want stuck mode fd s t0 e1 e2 e3 e4 es :
  t_state s = RESET → t_script s = e1 :: e2 :: e3 :: e4 :: es → t_dev s !! fd = Some t0 →
  let t := accept t0 (want t0) in
  let won := (e1 =? 0) && (e2 =? 0) && (e3 =? 0) && stuck t in
  ∃ s', tty_mode accept want stuck mode fd s = Done (if won then 0 else -1) s' ∧
    if won then s' = Tty t0 fd mode (t_errno s) (<[fd := t]> (t_dev s)) (e4 :: es) (t_mask s)
    else t_state s' = RESET ∧ t_savefd s' = t_savefd s ∧
      t_errno s' = (if e1 =? 0 then if e2 =? 0 then if e3 =? 0 then EINVAL else e3 else e2 else e1) ∧
      t_dev s' = if (e1 =? 0) && (e2 =? 0) then if e4 =? 0 then <[fd := accept t t0]> (t_dev s) else <[fd := t]> (t_dev s)
                 else t_dev s.
Proof.
  intros Hst Hs Ht t won. subst won. unfold tty_mode. erewrite (bind_done get) by reflexivity.
  rewrite Hst, bool_decide_true by done. cbn [negb]. destruct (Z.eqb_spec e1 0) as [->|H1].
  2: { erewrite bind_done by (by eapply tcgetattr_fails). cbn. eexists. split; [reflexivity|]. done. }
  erewrite bind_done by (by eapply tcgetattr_ok). cbv iota beta. rewrite bind_modify.
  destruct (Z.eqb_spec e2 0) as [->|H2].
  2: { erewrite bind_done by (by eapply tcsetattr_fails). cbn. eexists. split; [reflexivity|]. done. }
  erewrite bind_done by (by eapply tcsetattr_ok). cbv beta. cbn [Z.ltb Z.compare].
  set (s1 := Tty t0 (t_savefd s) (t_state s) (t_errno s) (<[fd := t]> (t_dev s)) (e3 :: e4 :: es) (t_mask s)).
  match goal with |- ∃ _, _ ?X = _ ∧ _ => change X with s1 end.
  assert (Hdev : t_dev s1 !! fd = Some t) by apply lookup_insert_eq. change (accept t0 (want t0)) with t.
  destruct (Z.eqb_spec e3 0) as [->|H3]; cbn [andb].
  - erewrite bind_done by (by eapply tcgetattr_ok). cbv iota beta.
    set (s2 := s1 <| t_script := e4 :: es |>). destruct (stuck t) eqn:Hok; cbn [negb].
    + eexists. split; reflexivity.
    + rewrite bind_gets. destruct (restore_spec fd t0 s2 e4 es t eq_refl Hdev) as (r & s3 & E & H1 & H2 & H3 & H4 & H5 & H6).
      erewrite bind_done by exact E. eexists. split; [reflexivity|]. unfold update. cbn [t_state t_savefd t_errno t_dev].
      rewrite H1, H2, H6. split_and!; [done|done|done|]. destruct (e4 =? 0); [apply insert_insert_eq|done].
  - erewrite bind_done by (by eapply tcgetattr_fails). cbv iota beta. rewrite !bind_gets.
    set (s2 := s1 <| t_script := e4 :: es |> <| t_errno := e3 |>).
    destruct (restore_spec fd t0 s2 e4 es t eq_refl Hdev) as (r & s3 & E & H1 & H2 & H4 & H5 & H6 & H7).
    erewrite bind_done by exact E. eexists. split; [reflexivity|]. unfold update. cbn [t_state t_savefd t_errno t_dev].
    rewrite H1, H2, H7. split_and!; [done|done|done|]. destruct (e4 =? 0); [apply insert_insert_eq|done].
Qed.

Lemma tty_mode_busy want stuck mode fd s : t_state s ≠ RESET →
  tty_mode accept want stuck mode fd s = Done (-1) (s <| t_errno := EINVAL |>).
Proof.
  intros Hst. unfold tty_mode. erewrite (bind_done get) by reflexivity. by rewrite bool_decide_false.
Qed.

Lemma tty_reset_spec fd s old es : t_state s ≠ RESET → t_script s = 0 :: es → t_dev s !! fd = Some old →
  tty_reset accept fd s =
  Done 0 (Tty (t_save s) (t_savefd s) RESET (t_errno s) (<[fd := accept old (t_save s)]> (t_dev s)) es (t_mask s)).
Proof.
  intros Hst Hs Ht. unfold tty_reset. erewrite (bind_done get) by reflexivity. rewrite bool_decide_false by done.
  erewrite bind_done by (by eapply tcsetattr_ok). done.
Qed.
End mode.

(** ** Properties *)

(** The two routines, and what they promise. *)
Inductive is_mode : ((termios → termios → termios) → Z → prog tty Z) → (termios → termios) → (termios → Prop) → ttymode → Prop :=
  | is_cbreak : is_mode tty_cbreak cbreak_of in_cbreak CBREAK
  | is_raw : is_mode tty_raw raw_of in_raw RAW.

Lemma is_mode_eq enter want promise mode : is_mode enter want promise mode →
  ∃ stuck, (∀ accept fd, enter accept fd = tty_mode accept want stuck mode fd) ∧ (∀ t, stuck t = true ↔ promise t) ∧
    (∀ t, stuck (want t) = true) ∧ mode ≠ RESET.
Proof.
  intros [].
  - exists cbreak_ok. split_and!; [done|apply cbreak_ok_spec|apply cbreak_of_in|done].
  - exists raw_ok. split_and!; [done|apply raw_ok_spec|apply raw_of_in|done].
Qed.

(** The error of the first call that failed. *)
Fixpoint first_error (es : list Z) : Z :=
  match es with
  | [] => EINVAL
  | e :: es' => if e =? 0 then first_error es' else e
  end.

(** C24: tty_cbreak and tty_raw, whichever of their four system calls fail (with [e1] to [e4])
    and whatever part of the request the driver honours: they return 0 exactly when no call
    they need has failed and the terminal is now really in the mode, bit by bit (echo,
    canonical mode and, for raw, signals, input and output processing off, eight bits, a
    read of one byte); then the old settings are saved.  Otherwise they return -1, with
    errno of the call that failed, or EINVAL when the driver honoured a part only, the state
    stays RESET, and the terminal has its old settings, unless giving them back failed. *)
Theorem tty_mode_entered enter want promise mode accept fd s t0 e1 e2 e3 e4 es
    (Hmode : is_mode enter want promise mode) (Hstate : t_state s = RESET) (Hfd : t_dev s !! fd = Some t0)
    (Hscript : t_script s = e1 :: e2 :: e3 :: e4 :: es) (Hback : ∀ t, accept t t0 = t0) :
  ∃ r s', enter accept fd s = Done r s' ∧
    ((r = 0 ∧ e1 = 0 ∧ e2 = 0 ∧ e3 = 0 ∧ promise (accept t0 (want t0)) ∧
      t_dev s' = <[fd := accept t0 (want t0)]> (t_dev s) ∧
      t_state s' = mode ∧ t_save s' = t0 ∧ t_savefd s' = fd) ∨
     (r = -1 ∧ (e1 ≠ 0 ∨ e2 ≠ 0 ∨ e3 ≠ 0 ∨ ¬ promise (accept t0 (want t0))) ∧
      t_state s' = RESET ∧ t_savefd s' = t_savefd s ∧
      t_errno s' = first_error [e1; e2; e3] ∧
      (e4 = 0 → t_dev s' = t_dev s))).
Proof.
  destruct (is_mode_eq _ _ _ _ Hmode) as (stuck & Heq & Hspec & _ & _). rewrite Heq.
  destruct (tty_mode_spec accept want stuck mode fd s t0 e1 e2 e3 e4 es Hstate Hscript Hfd) as (s' & E & H).
  eexists _, s'. split; [exact E|]. clear E.
  destruct ((e1 =? 0) && (e2 =? 0) && (e3 =? 0) && stuck (accept t0 (want t0))) eqn:Hwon.
  - left. rewrite !andb_true_iff, !Z.eqb_eq, Hspec in Hwon. destruct_and!. subst s'. by split_and!.
  - right. destruct H as (H1 & H2 & H3 & H4). split; [done|]. split_and!; [|done|done|done|].
    + rewrite !andb_false_iff, !Z.eqb_neq in Hwon. rewrite <- Hspec, not_true_iff_false. tauto.
    + intros ->. rewrite H4. destruct ((e1 =? 0) && (e2 =? 0)); [|done]. cbn. rewrite Hback. by apply insert_id.
Qed.

(** What a mode leaves as it is. *)
Definition keeps (mode : ttymode) (t t' : termios) : Prop :=
  same_but (match mode with RAW => L_RAW | _ => L_CBREAK end) (c_lflag t') (c_lflag t) ∧
  same_but (match mode with RAW => I_RAW | _ => 0 end) (c_iflag t') (c_iflag t) ∧
  same_but (match mode with RAW => Z.lor C_RAW CS8 | _ => 0 end) (c_cflag t') (c_cflag t) ∧
  same_but (match mode with RAW => OPOST | _ => 0 end) (c_oflag t') (c_oflag t) ∧
  ∀ i, i ≠ VMIN → i ≠ VTIME → c_cc t' !! i = c_cc t !! i.

Lemma mode_keeps enter want promise mode t : is_mode enter want promise mode → keeps mode t (want t).
Proof.
  assert (Hcc : ∀ m : gmap Z Z, ∀ i, i ≠ VMIN → i ≠ VTIME → <[VTIME := 0]> (<[VMIN := 1]> m) !! i = m !! i)
    by (intros m i H1 H2; by rewrite !lookup_insert_ne by congruence).
  intros []; split_and!; try apply clear_same; try done; try apply Hcc.
  change (c_cflag (raw_of t)) with (Z.lor (clear C_RAW (c_cflag t)) CS8). intros n Hn.
  rewrite Z.lor_spec in *. apply orb_false_iff in Hn as [H1 H2]. rewrite H2, orb_false_r. by apply clear_same.
Qed.

(** The modes round trip: with a driver that does what it is asked, tty_cbreak and
    tty_raw return 0, every bit outside of the flags in question and every control
    character but VMIN and VTIME is as before, entering either mode again is refused with
    EINVAL and changes nothing, and tty_reset, or tty_atexit at the end of the process, gives
    the terminal exactly the settings it had and allows the next mode. *)
Theorem tty_roundtrip enter want promise mode enter' want' promise' mode' fd s t0 fd'
    (Hmode : is_mode enter want promise mode) (Hmode' : is_mode enter' want' promise' mode')
    (Hstate : t_state s = RESET) (Hfd : t_dev s !! fd = Some t0) (Hscript : t_script s = replicate 5 0) (Hpos : 0 <= fd) :
  let accept := λ old t : termios, t in
  ∃ s1 s3 s4, enter accept fd s = Done 0 s1 ∧ t_dev s1 = <[fd := want t0]> (t_dev s) ∧ promise (want t0) ∧
    enter' accept fd' s1 = Done (-1) (s1 <| t_errno := EINVAL |>) ∧
    tty_reset accept fd (s1 <| t_errno := EINVAL |>) = Done 0 s3 ∧ t_dev s3 = t_dev s ∧ t_state s3 = RESET ∧
    tty_atexit accept s1 = Done tt s4 ∧ t_dev s4 = t_dev s ∧ t_state s4 = RESET ∧
    keeps mode t0 (want t0).
Proof.
  intros accept. destruct (is_mode_eq _ _ _ _ Hmode) as (stuck & Heq & Hspec & Hwant & Hne).
  destruct (is_mode_eq _ _ _ _ Hmode') as (stuck' & Heq' & _ & _ & _).
  destruct (tty_mode_spec accept want stuck mode fd s t0 0 0 0 0 [0] Hstate Hscript Hfd) as (s1 & E & H).
  cbn [Z.eqb andb] in E, H. rewrite (Hwant t0 : stuck (accept t0 (want t0)) = true) in E, H. subst s1.
  rewrite Heq, Heq'. eexists _, _, _. split; [exact E|]. split; [done|]. split; [by apply Hspec|].
  split; [by apply tty_mode_busy|].
  split; [by eapply (tty_reset_spec accept fd _ (want t0) [0]); [|done|apply lookup_insert_eq]|].
  split; [cbn; rewrite insert_insert_eq; by apply insert_id|]. split; [done|]. split; [|split; [|split]].
  - unfold tty_atexit. erewrite (bind_done get) by reflexivity. cbn [t_savefd]. rewrite (proj2 (Z.leb_le 0 fd) Hpos).
    erewrite bind_done by (by eapply (tty_reset_spec accept fd _ (want t0) [0]); [|done|apply lookup_insert_eq]).
    reflexivity.
  - cbn. rewrite insert_insert_eq. by apply insert_id.
  - done.
  - by eapply mode_keeps.
Qed.

(** ** getpass *)

Lemma getpass_loop_spec line rest : NEWLINE ∉ line → ∀ buf, (length buf <= MAX_PASS_LEN)%nat →
  getpass_loop buf (line ++ NEWLINE :: rest) = (take MAX_PASS_LEN (buf ++ line), rest).
Proof.
  induction line as [|c line IH]; intros Hnl buf Hlen; cbn [app getpass_loop].
  - rewrite Ascii.eqb_refl, app_nil_r. by rewrite take_ge by lia.
  - apply not_elem_of_cons in Hnl as [Hc Hnl]. rewrite (proj2 (Ascii.eqb_neq c NEWLINE)) by congruence.
    destruct (Nat.ltb_spec (length buf) MAX_PASS_LEN).
    + rewrite IH by (done || (rewrite length_app; cbn; lia)). by rewrite <- app_assoc.
    + rewrite IH by done. by rewrite !take_app_le by lia.
Qed.

(** getpass gives the first eight bytes of the line, and the terminal and the signal mask
    are as before. *)
Lemma getpass_restores accept fd s t0 line rest : t_dev s !! fd = Some t0 → t_script s = [0; 0; 0] →
  (∀ t, accept t t0 = t0) → NEWLINE ∉ line → no_nul line →
  ∃ s', getpass accept (Some fd) (line ++ NEWLINE :: rest) s = Done (Some (take MAX_PASS_LEN line, rest)) s' ∧
    t_dev s' = t_dev s ∧ t_mask s' = t_mask s.
Proof.
  intros Hfd Hs Hback Hnl Hnn. unfold getpass. rewrite bind_gets, bind_modify.
  erewrite bind_done by (by eapply tcgetattr_ok). cbv iota beta.
  erewrite bind_done by (by eapply tcsetattr_ok). rewrite getpass_loop_spec by (done || (cbn; lia)). cbv iota beta.
  erewrite bind_done by (eapply tcsetattr_ok; [done|apply lookup_insert_eq]). rewrite bind_modify. cbn [app].
  rewrite cstr_app by (by apply no_nul_take). eexists. split; [reflexivity|]. split; [|done].
  unfold update. cbn. rewrite insert_insert_eq, Hback. by apply insert_id.
Qed.

(** ** Witnesses *)

(** A terminal with seven bits and parity, and a driver that cannot change that. *)
Definition tty_cooked : termios := Termios 1280 5 288 35387 {[VMIN := 1; VTIME := 0]}.
Definition tty_start (es : list Z) : tty := Tty (Termios 0 0 0 0 ∅) (-1) RESET 0 {[0 := tty_cooked]} es ∅.
Definition seven_bits (old t : termios) : termios := t <| c_cflag := 288 |>.

Lemma tty_mode_entered_witness : ∃ s', tty_raw seven_bits 0 (tty_start [0; 0; 0; 0]) = Done (-1) s' ∧
  t_errno s' = EINVAL ∧ t_dev s' = {[0 := tty_cooked]}.
Proof.
  destruct (tty_mode_entered tty_raw raw_of in_raw RAW seven_bits 0 (tty_start [0; 0; 0; 0]) tty_cooked 0 0 0 0 []
    is_raw eq_refl eq_refl eq_refl ltac:(done)) as (r & s' & E & [H|H]).
  - destruct H as (_ & _ & _ & _ & H & _). apply raw_ok_spec in H. by vm_compute in H.
  - destruct H as (-> & _ & _ & _ & He & Hd). exists s'. split; [done|]. split; [done|]. by apply Hd.
Defined.

Lemma tty_roundtrip_witness : ∃ s1 s3, tty_cbreak (λ _ t, t) 0 (tty_start [0; 0; 0; 0; 0]) = Done 0 s1 ∧
  tty_reset (λ _ t, t) 0 (s1 <| t_errno := EINVAL |>) = Done 0 s3 ∧ t_dev s3 = {[0 := tty_cooked]}.
Proof.
  destruct (tty_roundtrip tty_cbreak cbreak_of in_cbreak CBREAK tty_raw raw_of in_raw RAW 0 (tty_start [0; 0; 0; 0; 0])
    tty_cooked 1 is_cbreak is_raw eq_refl eq_refl eq_refl ltac:(done)) as (s1 & s3 & s4 & H1 & _ & _ & _ & H2 & H3 & _).
  by exists s1, s3.
Defined.
