(* ===== verification/Err.v ===== *)
(** * Messages: lib/error.c, lib/errorlog.c and lib/strerror.c.

    The other parts take an error routine for the end of the process ([Fatal]); here are
    the routines themselves, with the buffer in which the message is put together.  Where
    standard output and standard error go is one place, in the order of writing. *)
From Stdlib Require Import Ascii ZArith Lia.
From stdpp Require Import base strings gmap option list.
From S2P Require Import Prelude CStr.

Definition MAXLINE : nat := 4096.
Definition LOG_ERR : Z := 3.

(** Buffered standard output, what has been written, what syslog got, and errno. *)
Record errio := ErrIO { e_pending : bytes; e_written : bytes; e_log : list (Z * bytes); e_errno : Z }.
#[export] Instance errio_rebuild : Rebuild errio := λ s, ErrIO (e_pending s) (e_written s) (e_log s) (e_errno s).

Definition fflush_stdout : prog errio unit :=
  modify (λ s, s <| e_written ::= λ w, w ++ e_pending s |> <| e_pending := [] |>).
Definition fputs_stderr (b : bytes) : prog errio unit :=
  defined (bool_decide (NUL ∈ b)) ;;
  modify (λ s, s <| e_written ::= λ w, w ++ cstr b |>).
Definition syslog (priority : Z) (b : bytes) : prog errio unit :=
  defined (bool_decide (NUL ∈ b)) ;;
  modify (λ s, s <| e_log ::= λ l, l ++ [(priority, cstr b)] |>).

(** snprintf(b + off, size, "%s", text), inside of the buffer. *)
Definition snprintf_at (b : bytes) (off : nat) (size : Z) (text : bytes) : prog errio bytes :=
  let s := take (Z.to_nat (size - 1)) text ++ [NUL] in
  defined ((1 <=? size) && (off + length s <=? length b)%nat) ;;
  mret (put_at b off s).

Definition strlen_of (b : bytes) : prog errio nat :=
  defined (bool_decide (NUL ∈ b)) ;; mret (strlen b).

Definition strcat_to (b s : bytes) : prog errio bytes :=
  n ← strlen_of b;
  defined (n + length s + 1 <=? length b)%nat ;;
  mret (put_at b n (s ++ [NUL])).

Section err.
(** What strerror gives, and the contents of a fresh buffer. *)
Context (strerror : Z → bytes) (junk : bytes).

(** The message in buf: the same lines in err_doit and log_doit; [text]: what fmt and its
    arguments expand to. *)
Definition message (errnoflag error : Z) (text : bytes) : prog errio bytes :=
  let buf := take MAXLINE (junk ++ replicate MAXLINE NUL) in
  buf ← snprintf_at buf 0 (Z.of_nat MAXLINE - 1) text;
  buf ← (if negb (errnoflag =? 0) then
           n ← strlen_of buf;
           snprintf_at buf n (Z.of_nat MAXLINE - Z.of_nat n - 1) (str ": " ++ cstr (strerror error))
         else mret buf);
  strcat_to buf [NEWLINE].

(** ** lib/error.c *)

Definition err_doit (errnoflag error : Z) (text : bytes) : prog errio unit :=
  buf ← message errnoflag error text;
  fflush_stdout ;;
  fputs_stderr buf ;;
  fflush_stdout.

Definition err_ret (text : bytes) : prog errio unit :=
  errno ← gets e_errno; err_doit 1 errno text.
Definition err_sys (text : bytes) : prog errio unit :=
  errno ← gets e_errno; err_doit 1 errno text ;; die (Exit 1).
Definition err_cont (error : Z) (text : bytes) : prog errio unit := err_doit 1 error text.
Definition err_exit (error : Z) (text : bytes) : prog errio unit := err_doit 1 error text ;; die (Exit 1).
(** abort() is [ErrDump]. *)
Definition err_dump (text : bytes) : prog errio unit :=
  errno ← gets e_errno; err_doit 1 errno text ;; (die (ErrDump "") : prog errio unit) ;; die (Exit 1).
Definition err_msg (text : bytes) : prog errio unit := err_doit 0 0 text.
Definition err_quit (text : bytes) : prog errio unit := err_doit 0 0 text ;; die (Exit 1).

(** ** lib/errorlog.c *)

Context (log_to_stderr : Z).

Definition log_doit (errnoflag error priority : Z) (text : bytes) : prog errio unit :=
  buf ← message errnoflag error text;
  if negb (log_to_stderr =? 0) then
    fflush_stdout ;;
    fputs_stderr buf
  else syslog priority buf.

Definition log_ret (text : bytes) : prog errio unit :=
  errno ← gets e_errno; log_doit 1 errno LOG_ERR text.
Definition log_sys (text : bytes) : prog errio unit :=
  errno ← gets e_errno; log_doit 1 errno LOG_ERR text ;; die (Exit 2).
Definition log_msg (text : bytes) : prog errio unit := log_doit 0 0 LOG_ERR text.
Definition log_quit (text : bytes) : prog errio unit := log_doit 0 0 LOG_ERR text ;; die (Exit 2).
Definition log_exit (error : Z) (text : bytes) : prog errio unit := log_doit 1 error LOG_ERR text ;; die (Exit 2).
End err.

(** ** lib/strerror.c *)

(** sys_errlist, of sys_nerr elements, and the static mesg; the result is the string. *)
Definition sys_strerror (sys_errlist : list bytes) (error : Z) : prog bytes bytes :=
  if (0 <=? error) && (error <=? Z.of_nat (length sys_errlist)) then
    match sys_errlist !! Z.to_nat error with
    | Some m => mret m
    | None => undefined
    end
  else
    let s := str "Unknown error (" ++ dec error ++ str ")" in
    mesg ← get;
    defined (length s <? length mesg)%nat ;;
    modify (λ m, put_at m 0 (s ++ [NUL])) ;;
    mesg ← get;
    mret (cstr mesg).
