(* ===== verification/ErrProps.v ===== *)
(** * Properties of the messages of lib/error.c, errorlog.c and strerror.c. *)
From Stdlib Require Import Ascii ZArith Lia.
From stdpp Require Import base strings gmap option list.
From S2P Require Import Prelude CStr Err.

(** A string that is written out has no NUL. *)
Ltac no_nul_lit := apply (bool_decide_unpack _); by vm_compute.

Lemma no_nul_newline : no_nul [NEWLINE].
Proof. no_nul_lit. Qed.

Section message.
Context (strerror : Z → bytes) (junk : bytes).

(** The line that is meant: as much of the text and the description of the error as fits. *)
Definition line (errnoflag error : Z) (text : bytes) : bytes :=
  take (MAXLINE - 2) (if errnoflag =? 0 then cstr text else cstr text ++ str ": " ++ cstr (strerror error)) ++ [NEWLINE].

Lemma line_length errnoflag error text : (length (line errnoflag error text) < MAXLINE)%nat.
Proof. unfold line. rewrite length_app, length_take. unfold MAXLINE. simpl length. lia. Qed.

Lemma snprintf_at_spec a r (size : Z) t s : 1 <= size → (Z.to_nat size <= length r)%nat →
  ∃ r', snprintf_at (a ++ r) (length a) size t s = Done (a ++ take (Z.to_nat (size - 1)) t ++ NUL :: r') s ∧
    (length (a ++ take (Z.to_nat (size - 1)) t ++ NUL :: r') = length (a ++ r))%nat.
Proof.
  intros Hsize Hr. unfold snprintf_at. set (tt := take _ t).
  assert (Ht : (length tt + 1 <= length r)%nat) by (unfold tt; rewrite length_take; lia).
  rewrite bind_defined_true.
  2: { apply andb_true_iff. split; [by apply Z.leb_le|]. apply Nat.leb_le. rewrite !length_app. simpl. lia. }
  exists (drop (length tt + 1) r). split.
  - unfold mret, prog_ret. f_equal. rewrite <- (take_drop (length tt + 1) r) at 1.
    rewrite put_at_split by (rewrite ?length_take, ?length_app; simpl; lia). by rewrite <- app_assoc.
  - rewrite !length_app. simpl. rewrite length_drop. lia.
Qed.

Lemma cstr_front t r : cstr (t ++ NUL :: r) = cstr t.
Proof. induction t as [|c t IH]; simpl; [done|]. destruct (decide (c = NUL)); [done|]. by rewrite IH. Qed.

Lemma strcat_to_spec b t s : NUL ∈ b → (strlen b + length t + 1 <= length b)%nat → no_nul t →
  ∃ b', strcat_to b t s = Done b' s ∧ NUL ∈ b' ∧ cstr b' = cstr b ++ t.
Proof.
  intros Hb Hlen Ht. unfold strcat_to, strlen_of.
  erewrite bind_done; [|by rewrite bind_defined_true by (by apply bool_decide_true)].
  rewrite bind_defined_true by (apply Nat.leb_le; lia). destruct (cstr_split b Hb) as [r Hr].
  eexists. split; [reflexivity|]. unfold strlen in *. set (a := cstr b) in *. rewrite Hr in *.
  assert (Hr' : (length t < length (NUL :: r))%nat) by (rewrite length_app in Hlen; simpl in *; lia).
  rewrite <- (take_drop (length t + 1) (NUL :: r)), put_at_split by (rewrite ?length_take, ?length_app; simpl in *; lia).
  rewrite <- app_assoc, (app_assoc a t). split; [apply elem_of_app; right; by left|].
  apply cstr_app. apply no_nul_app. split; [|done]. unfold a. apply no_nul_cstr.
Qed.

Lemma message_spec errnoflag error text s : ∃ b, message strerror junk errnoflag error text s = Done b s ∧
  NUL ∈ b ∧ cstr b = line errnoflag error text.
Proof.
  unfold message. set (b0 := take MAXLINE _).
  assert (Hb0 : length b0 = MAXLINE).
  { unfold b0. rewrite length_take, length_app, length_replicate. lia. }
  destruct (snprintf_at_spec [] b0 (Z.of_nat MAXLINE - 1) text s) as (r1 & E1 & Hl1); [unfold MAXLINE; lia|unfold MAXLINE in *; lia|].
  cbn [app length] in E1, Hl1. erewrite bind_done by exact E1.
  set (b1 := take _ text ++ NUL :: r1) in *. set (x := cstr text).
  assert (Ha : cstr b1 = take (MAXLINE - 2) x).
  { unfold b1. rewrite cstr_front, cstr_take. f_equal. }
  assert (Hb1 : NUL ∈ b1) by (apply elem_of_app; right; left).
  assert (Hal : (length (cstr b1) <= MAXLINE - 2)%nat) by (rewrite Ha, length_take; lia).
  unfold line. fold x. destruct (Z.eqb_spec errnoflag 0) as [->|Hf]; cbn [negb].
  { rewrite bind_ret. destruct (strcat_to_spec b1 [NEWLINE] s) as (b2 & E2 & H2 & H3);
      [done|unfold strlen, MAXLINE in *; simpl length in *; lia|apply no_nul_newline|].
    exists b2. by rewrite E2, H3, Ha. }
  unfold strlen_of. rewrite !bind_assoc, bind_defined_true by (by apply bool_decide_true). rewrite bind_ret.
  destruct (cstr_split b1 Hb1) as [r2 Hr2]. unfold strlen. set (y := str ": " ++ cstr (strerror error)).
  set (c := cstr b1) in *. assert (Hr2l : (length (NUL :: r2) + length c = MAXLINE)%nat)
    by (rewrite Hr2, length_app in Hl1; lia).
  destruct (snprintf_at_spec c (NUL :: r2) (Z.of_nat MAXLINE - Z.of_nat (length c) - 1) y s) as (r3 & E3 & Hl3);
    [unfold MAXLINE in *; lia|lia|].
  rewrite <- Hr2 in E3. erewrite bind_done by exact E3. set (b3 := c ++ _ ++ NUL :: r3) in *.
  assert (Hy : no_nul y) by (apply no_nul_app; split; [no_nul_lit|apply no_nul_cstr]).
  assert (Hc3 : cstr b3 = take (MAXLINE - 2) (x ++ y)).
  { unfold b3. rewrite app_assoc, cstr_app by (apply no_nul_app; split; [apply no_nul_cstr|by apply no_nul_take]).
    rewrite take_app, Ha. do 2 f_equal. rewrite length_take. unfold MAXLINE. lia. }
  destruct (strcat_to_spec b3 [NEWLINE] s) as (b4 & E4 & H4 & H5); 
    [apply elem_of_app; right; apply elem_of_app; right; left| |apply no_nul_newline|].
  { unfold strlen. rewrite Hc3, Hl3, length_take, <- Hr2, Hl1, Hb0. change (length [NEWLINE]) with 1%nat.
    unfold MAXLINE. lia. }
  exists b4. by rewrite E4, H5, Hc3.
Qed.
End message.

(** ** Properties *)

(** How a routine ends. *)
Inductive ending := Returns | Ends (e : fatal).
Definition ends_as (e : ending) (m : outcome errio unit) (s : errio) : Prop :=
  match e with Returns => m = Done tt s | Ends f => m = Fatal f s end.

(** The routines, with the error number they describe (if any) and their end. *)
Section routines.
Context (strerror : Z → bytes) (junk : bytes) (log_to_stderr : Z).

Inductive err_routine (errno : Z) : (bytes → prog errio unit) → option Z → ending → Prop :=
  | r_err_ret : err_routine errno (err_ret strerror junk) (Some errno) Returns
  | r_err_sys : err_routine errno (err_sys strerror junk) (Some errno) (Ends (Exit 1))
  | r_err_cont e : err_routine errno (err_cont strerror junk e) (Some e) Returns
  | r_err_exit e : err_routine errno (err_exit strerror junk e) (Some e) (Ends (Exit 1))
  | r_err_dump : err_routine errno (err_dump strerror junk) (Some errno) (Ends (ErrDump ""))
  | r_err_msg : err_routine errno (err_msg strerror junk) None Returns
  | r_err_quit : err_routine errno (err_quit strerror junk) None (Ends (Exit 1)).

Inductive log_routine (errno : Z) : (bytes → prog errio unit) → option Z → ending → Prop :=
  | r_log_ret : log_routine errno (log_ret strerror junk log_to_stderr) (Some errno) Returns
  | r_log_sys : log_routine errno (log_sys strerror junk log_to_stderr) (Some errno) (Ends (Exit 2))
  | r_log_msg : log_routine errno (log_msg strerror junk log_to_stderr) None Returns
  | r_log_quit : log_routine errno (log_quit strerror junk log_to_stderr) None (Ends (Exit 2))
  | r_log_exit e : log_routine errno (log_exit strerror junk log_to_stderr e) (Some e) (Ends (Exit 2)).

(** The message of a routine. *)
Definition text_of (err : option Z) (text : bytes) : bytes :=
  take (MAXLINE - 2) (match err with None => cstr text | Some e => cstr text ++ str ": " ++ cstr (strerror e) end) ++ [NEWLINE].

Lemma err_doit_spec flag error text s : err_doit strerror junk flag error text s =
  Done tt (ErrIO [] (e_written s ++ e_pending s ++ line strerror flag error text) (e_log s) (e_errno s)).
Proof.
  unfold err_doit. destruct (message_spec strerror junk flag error text s) as (b & E & Hb & Hc).
  erewrite bind_done by exact E. unfold fflush_stdout. rewrite bind_modify. unfold fputs_stderr.
  rewrite bind_assoc, bind_defined_true by (by apply bool_decide_true). rewrite bind_modify. unfold modify, update. cbn.
  by rewrite Hc, app_nil_r, <- app_assoc.
Qed.

Lemma log_doit_spec flag error priority text s : log_doit strerror junk log_to_stderr flag error priority text s =
  Done tt (if log_to_stderr =? 0
           then s <| e_log ::= λ l, l ++ [(priority, line strerror flag error text)] |>
           else ErrIO [] (e_written s ++ e_pending s ++ line strerror flag error text) (e_log s) (e_errno s)).
Proof.
  unfold log_doit. destruct (message_spec strerror junk flag error text s) as (b & E & Hb & Hc).
  erewrite bind_done by exact E. destruct (log_to_stderr =? 0); cbn [negb].
  - unfold syslog. rewrite bind_defined_true by (by apply bool_decide_true). by rewrite Hc.
  - unfold fflush_stdout. rewrite bind_modify. unfold fputs_stderr.
    rewrite bind_defined_true by (by apply bool_decide_true). unfold modify, update. cbn. by rewrite Hc, <- app_assoc.
Qed.
End routines.

(** C40: Every routine of error.c writes, after what standard output has buffered, one line:
    the expanded text and, for those that describe an error, a colon and the description
    of that error, cut to what fits the buffer of MAXLINE bytes, and a newline, which is
    always there; the buffer is never overrun.  It then returns or ends the process, as
    its comment says, with exit status 1 or, for err_dump, by abort.  The routines of
    errorlog.c send the same line to standard error or, as a daemon, to syslog, and end
    with status 2. *)
Theorem err_routines strerror junk log_to_stderr text s :
  (∀ f err e, err_routine strerror junk (e_errno s) f err e →
    ends_as e (f text s) (ErrIO [] (e_written s ++ e_pending s ++ text_of strerror err text) (e_log s) (e_errno s))) ∧
  (∀ f err e, log_routine strerror junk log_to_stderr (e_errno s) f err e →
    ends_as e (f text s)
      (if log_to_stderr =? 0
       then s <| e_log ::= λ l, l ++ [(LOG_ERR, text_of strerror err text)] |>
       else ErrIO [] (e_written s ++ e_pending s ++ text_of strerror err text) (e_log s) (e_errno s))) ∧
  (∀ err, (length (text_of strerror err text) < MAXLINE)%nat).
Proof.
  split_and!.
  - intros f err e []; unfold err_ret, err_sys, err_cont, err_exit, err_dump, err_msg, err_quit;
      rewrite ?bind_gets; try apply err_doit_spec; (erewrite bind_done by apply err_doit_spec); done.
  - intros f err e []; unfold log_ret, log_sys, log_msg, log_quit, log_exit;
      rewrite ?bind_gets; try apply log_doit_spec; (erewrite bind_done by apply log_doit_spec); done.
  - intros [e|]; [apply (line_length strerror 1 e)|apply (line_length strerror 0 0)].
Qed.

Lemma dec_pos n : 0 <= n → dec n = udec n.
Proof. intros. unfold dec. by rewrite (proj2 (Z.ltb_ge n 0)). Qed.

(** strerror.c: the entry of the table for its numbers, "Unknown error" with the number, that
    always fits mesg, for the others, except that for the number behind the last one it
    reads behind the end of the table. *)
Lemma sys_strerror_spec sys_errlist error mesg : - 2 ^ 31 <= error < 2 ^ 31 → length mesg = 30%nat →
  let n := Z.of_nat (length sys_errlist) in
  (∀ m, sys_errlist !! Z.to_nat error = Some m → 0 <= error → sys_strerror sys_errlist error mesg = Done m mesg) ∧
  (error < 0 ∨ n < error → ∃ mesg', sys_strerror sys_errlist error mesg =
    Done (str "Unknown error (" ++ dec error ++ str ")") mesg' ∧ length mesg' = 30%nat) ∧
  (error = n → sys_strerror sys_errlist error mesg = Undef mesg).
Proof.
  intros He Hm n. unfold sys_strerror. fold n. split_and!.
  - intros m Hl Hpos. apply lookup_lt_Some in Hl as Hlt. rewrite (proj2 (Z.leb_le 0 error) Hpos).
    rewrite (proj2 (Z.leb_le error n)) by (unfold n; lia). cbn [andb]. by rewrite Hl.
  - intros Hout. assert ((0 <=? error) && (error <=? n) = false) as ->.
    { apply andb_false_iff. rewrite !Z.leb_gt. lia. }
    set (t := str "Unknown error (" ++ dec error ++ str ")"). erewrite (bind_done get) by reflexivity.
    assert (Ht : (length t <= 28)%nat).
    { unfold t. rewrite !length_app. simpl (length (str _)). unfold dec. destruct (Z.ltb_spec error 0).
      - pose proof (udec_length_le (- error) 10 ltac:(lia) ltac:(lia)). simpl. lia.
      - pose proof (udec_length_le error 10 ltac:(lia) ltac:(lia)). lia. }
    rewrite bind_defined_true by (apply Nat.ltb_lt; lia). rewrite bind_modify. erewrite (bind_done get) by reflexivity.
    assert (Hnn : no_nul t).
    { unfold t. rewrite !no_nul_app. split_and!; try no_nul_lit.
      unfold dec. destruct (Z.ltb_spec error 0); [|by rewrite <- (dec_pos error) by lia; apply no_nul_dec_str].
      apply no_nul_cons. split; [done|]. rewrite <- (dec_pos (- error)) by lia. apply no_nul_dec_str. lia. }
    exists (t ++ [NUL] ++ drop (length t + 1) mesg). unfold mret, prog_ret.
    rewrite put_at_0, length_app, <- app_assoc. cbn [length app]. split; [by rewrite cstr_app|].
    rewrite length_app. cbn [length]. rewrite length_drop. lia.
  - intros ->. rewrite (proj2 (Z.leb_le 0 n)) by lia. rewrite Z.leb_refl. cbn [andb].
    rewrite (lookup_ge_None_2 sys_errlist) by (unfold n; lia). done.
Qed.

Lemma err_routines_witness : ∃ s', err_sys (λ _, str "No such file or directory") [] (str "can't open x")
    (ErrIO (str "> ") [] [] 2) = Fatal (Exit 1) s' ∧
  e_written s' = str "> can't open x: No such file or directory" ++ [NEWLINE].
Proof.
  destruct (err_routines (λ _, str "No such file or directory") [] 0 (str "can't open x") (ErrIO (str "> ") [] [] 2))
    as (H & _). eexists. split; [apply (H _ _ _ (r_err_sys _ _ _))|by vm_compute].
Defined.
