(* ===== verification/Fds.v ===== *)
(** * Descriptor tables: the part of open, dup, dup2, close and pipe that decides which
    descriptor number is used, for the programs that arrange their descriptors. *)
From Stdlib Require Import ZArith Lia.
From stdpp Require Import base strings gmap option list.
From S2P Require Import Prelude.

(** What is open under which number. *)
Abbreviation fdtab A := (gmap Z A).

Section fds.
Context {A : Type}.
Implicit Types t : fdtab A.

(** The lowest number that is not in use; at most [size t] numbers are. *)
Fixpoint lowest_from (fuel : nat) (i : Z) t : Z :=
  match fuel with
  | O => i
  | S f => match t !! i with None => i | Some _ => lowest_from f (i + 1) t end
  end.
Definition lowest t : Z := lowest_from (size t) 0 t.

(** open and dup: the new descriptor. *)
Definition fd_open (a : A) t : Z * fdtab A := let i := lowest t in (i, <[i := a]> t).
Definition fd_dup (fd : Z) t : Z * fdtab A :=
  match t !! fd with None => (-1, t) | Some a => fd_open a t end.
(** dup2: nothing to do when both are the same. *)
Definition fd_dup2 (fd fd2 : Z) t : Z * fdtab A :=
  match t !! fd with None => (-1, t) | Some a => (fd2, <[fd2 := a]> t) end.
Definition fd_close (fd : Z) t : fdtab A := delete fd t.

(** for (i = 0; i < n; i++) close(i); *)
Fixpoint close_below (n : nat) t : fdtab A :=
  match n with O => t | S n' => fd_close (Z.of_nat n') (close_below n' t) end.

Lemma lowest_from_used n : ∀ i t j, i <= j < lowest_from n i t → is_Some (t !! j).
Proof.
  induction n as [|n IH]; intros i t j Hj; simpl in Hj; [lia|].
  destruct (t !! i) eqn:Hi; [|lia]. destruct (decide (j = i)) as [->|]; [by rewrite Hi|]. apply (IH (i + 1)). lia.
Qed.

Lemma lowest_from_free n : ∀ i t, lowest_from n i t < i + Z.of_nat n → t !! lowest_from n i t = None.
Proof.
  induction n as [|n IH]; intros i t H; simpl in *; [lia|].
  destruct (t !! i) eqn:Hi; [|done]. apply IH. lia.
Qed.

Lemma lowest_from_range n : ∀ i t, i <= lowest_from n i t <= i + Z.of_nat n.
Proof.
  induction n as [|n IH]; intros i t; simpl; [lia|]. destruct (t !! i); [|lia]. specialize (IH (i + 1) t). lia.
Qed.

Lemma lowest_used t j : 0 <= j < lowest t → is_Some (t !! j).
Proof. apply lowest_from_used. Qed.

Lemma lowest_nonneg t : 0 <= lowest t.
Proof. pose proof (lowest_from_range (size t) 0 t). unfold lowest. lia. Qed.

(** The first [n] numbers, as a set. *)
Definition first_fds (n : nat) : gset Z := list_to_set (Z.of_nat <$> seq 0 n).

Lemma first_fds_size n : size (first_fds n) = n.
Proof.
  unfold first_fds. rewrite size_list_to_set by (apply NoDup_fmap_2; [intros x y ?; lia|apply NoDup_seq]).
  by rewrite length_fmap, length_seq.
Qed.

Lemma elem_of_first_fds n i : i ∈ first_fds n ↔ 0 <= i < Z.of_nat n.
Proof.
  unfold first_fds. rewrite elem_of_list_to_set, list_elem_of_fmap. split.
  - intros (k & -> & Hk). apply elem_of_seq in Hk. lia.
  - intros H. exists (Z.to_nat i). split; [lia|]. apply elem_of_seq. lia.
Qed.

Lemma lowest_free t : t !! lowest t = None.
Proof.
  destruct (decide (lowest t < Z.of_nat (size t))) as [H|H]; [by apply lowest_from_free|].
  pose proof (lowest_from_range (size t) 0 t) as Hr. assert (Hl : lowest t = Z.of_nat (size t)) by (unfold lowest in *; lia).
  destruct (t !! lowest t) as [a|] eqn:Ha; [|done]. exfalso.
  assert (Hsub : first_fds (S (size t)) ⊆ dom t).
  { intros i Hi%elem_of_first_fds. apply elem_of_dom. destruct (decide (i = lowest t)) as [->|]; [by rewrite Ha|].
    apply lowest_used. lia. }
  apply subseteq_size in Hsub. rewrite first_fds_size, size_dom in Hsub. lia.
Qed.

(** The lowest number is determined by what is in use below it. *)
Lemma lowest_unique t i : 0 <= i → t !! i = None → (∀ j, 0 <= j < i → is_Some (t !! j)) → lowest t = i.
Proof.
  intros Hi Hn Hu. destruct (Z.lt_trichotomy (lowest t) i) as [H|[H|H]]; [|done|].
  - pose proof (lowest_nonneg t). destruct (Hu (lowest t) ltac:(lia)) as [a Ha]. by rewrite lowest_free in Ha.
  - destruct (lowest_used t i ltac:(lia)) as [a Ha]. congruence.
Qed.

Lemma close_below_lookup n t i : close_below n t !! i = if decide (0 <= i < Z.of_nat n) then None else t !! i.
Proof.
  induction n as [|n IH]; cbn [close_below]; [by rewrite decide_False by lia|]. unfold fd_close.
  destruct (decide (i = Z.of_nat n)) as [->|Hne].
  - rewrite lookup_delete_eq, decide_True by lia. done.
  - rewrite lookup_delete_ne, IH by done. repeat case_decide; done || lia.
Qed.
End fds.
