(* ===== verification/Popen.v ===== *)
(** * Commands through pipes: lib/popen.c and lib/openmax.c.

    The state is the caller's: the table childpid, the descriptors, the streams that fdopen
    has made, and the processes that have been started, each with the descriptors with
    which the shell begins.  The status with which a process ends is a parameter. *)
From Stdlib Require Import Ascii ZArith Lia.
From stdpp Require Import base strings gmap option list.
From S2P Require Import Prelude CStr Sock Fds.

Definition EINVAL : Z := 22.
Definition EMFILE : Z := 24.
Definition EINTR : Z := 4.
Definition ECHILD : Z := 10.
Definition STDIN_FILENO : Z := 0.
Definition STDOUT_FILENO : Z := 1.

(** What a descriptor is open on: an end of the [n]-th pipe, or something else. *)
Inductive pobj := PipeR (n : nat) | PipeW (n : nat) | Other (n : nat).
#[export] Instance pobj_eq_dec : EqDecision pobj.
Proof. solve_decision. Defined.

(** A process that has been started with sh -c. *)
Record child := Child { ch_cmd : bytes; ch_fds : fdtab pobj }.

Record popens := Popens {
  po_childpid : option (list Z); po_maxfd : Z; po_openmax : Z;
  po_fds : fdtab pobj; po_streams : gset Z; po_npipes : nat;
  po_children : gmap Z child; po_errno : Z }.
#[export] Instance popens_rebuild : Rebuild popens := λ s,
  Popens (po_childpid s) (po_maxfd s) (po_openmax s) (po_fds s) (po_streams s) (po_npipes s) (po_children s) (po_errno s).

(** ** lib/openmax.c *)

Definition OPEN_MAX_GUESS : Z := 256.

(** [sysconf]: an error, indeterminate, or the limit. *)
Definition open_max (sysconf : iores (option Z)) : prog popens Z :=
  s ← get;
  (if po_openmax s =? 0 then
     match sysconf with
     | IoOk (Some n) => modify (λ s, s <| po_errno := 0 |> <| po_openmax := n |>)
     | IoOk None => modify (λ s, s <| po_errno := 0 |> <| po_openmax := OPEN_MAX_GUESS |>)
     | IoErr _ => die (ErrSys "sysconf error for _SC_OPEN_MAX")
     end
   else mret tt) ;;
  gets po_openmax.

(** ** lib/popen.c *)

Definition set_errno (e : Z) : prog popens unit := modify (λ s, s <| po_errno := e |>).

(** What the system calls of one popen give: pipe and fork an error number, or success. *)
Record popen_calls := PopenCalls {
  pc_sysconf : iores (option Z); pc_calloc : bool; pc_pipe : iores unit; pc_fork : iores Z; pc_fdopen : iores unit }.

(** if (from != to) { dup2(from, to); close(from); } *)
Definition move_fd (from to : Z) (t : fdtab pobj) : fdtab pobj :=
  if from =? to then t else fd_close from (fd_dup2 from to t).2.

(** for (i = 0; i < maxfd; i++) if (childpid[i] > 0) close(i); *)
Fixpoint close_children (i : Z) (childpid : list Z) (t : fdtab pobj) : fdtab pobj :=
  match childpid with
  | [] => t
  | pid :: l => close_children (i + 1) l (if 0 <? pid then fd_close i t else t)
  end.

(** The child's descriptors when it calls execl. *)
Definition popen_child (read : bool) (pfd0 pfd1 : Z) (childpid : list Z) (t : fdtab pobj) : fdtab pobj :=
  let t := if read then move_fd pfd1 STDOUT_FILENO (fd_close pfd0 t)
           else move_fd pfd0 STDIN_FILENO (fd_close pfd1 t) in
  close_children 0 childpid t.

(** The table is allocated by the first call; false: that failed. *)
Definition popen_ready (c : popen_calls) : prog popens bool :=
  s ← get;
  match po_childpid s with
  | Some _ => mret true
  | None =>
      maxfd ← open_max (pc_sysconf c);
      modify (λ s, s <| po_maxfd := wrap_s 32 maxfd |>) ;;
      s ← get;
      if pc_calloc c then
        modify (λ s, s <| po_childpid := Some (replicate (Z.to_nat (po_maxfd s)) 0) |>) ;; mret true
      else mret false
  end.

(** From the pipe on; the result is the stream, named by its descriptor. *)
Definition popen_start (c : popen_calls) (cmdstring : bytes) (read : bool) : prog popens (option Z) :=
  match pc_pipe c with
  | IoErr e => set_errno e ;; mret None
  | IoOk _ =>
      s ← get;
      let n := po_npipes s in
      let '(pfd0, t) := fd_open (PipeR n) (po_fds s) in
      let '(pfd1, t) := fd_open (PipeW n) t in
      modify (λ s, s <| po_fds := t |> <| po_npipes := S n |>) ;;
      if (po_maxfd s <=? pfd0) || (po_maxfd s <=? pfd1) then
        modify (λ s, s <| po_fds ::= λ t, fd_close pfd1 (fd_close pfd0 t) |>) ;;
        set_errno EMFILE ;;
        mret None
      else
        match pc_fork c with
        | IoErr e => set_errno e ;; mret None
        | IoOk pid =>
            modify (λ s, s <| po_children ::= <[pid := Child (cstr cmdstring)
              (popen_child read pfd0 pfd1 (default [] (po_childpid s)) t)]> |>) ;;
            modify (λ s, s <| po_fds ::= fd_close (if read then pfd1 else pfd0) |>) ;;
            let fp := if read then pfd0 else pfd1 in
            match pc_fdopen c with
            | IoErr e => set_errno e ;; mret None
            | IoOk _ =>
                modify (λ s, s <| po_streams ::= λ l, l ∪ {[fp]} |>) ;;
                modify (λ s, s <| po_childpid ::= fmap (<[Z.to_nat fp := pid]>) |>) ;;
                mret (Some fp)
            end
        end
  end.

Definition popen (c : popen_calls) (cmdstring type : bytes) : prog popens (option Z) :=
  match cstr type with
  | [t] =>
      if negb (bool_decide (t = "r"%char ∨ t = "w"%char)) then set_errno EINVAL ;; mret None
      else
        ready ← popen_ready c;
        if negb ready then mret None else popen_start c cmdstring (bool_decide (t = "r"%char))
  | _ => set_errno EINVAL ;; mret None
  end.

(** The loop on waitpid: [waits] are the errors it returns before the status. *)
Fixpoint wait_loop (status : Z → Z) (pid : Z) (waits : list Z) : prog popens Z :=
  match waits with
  | e :: waits' =>
      set_errno e ;;
      if negb (e =? EINTR) then mret (-1) else wait_loop status pid waits'
  | [] =>
      s ← get;
      match po_children s !! pid with
      | None => set_errno ECHILD ;; mret (-1)
      | Some _ => modify (λ s, s <| po_children ::= delete pid |>) ;; mret (status pid)
      end
  end.

(** [flush]: fclose succeeds.  Using a stream that is not open is undefined. *)
Definition pclose (status : Z → Z) (flush : bool) (waits : list Z) (fp : Z) : prog popens Z :=
  s ← get;
  match po_childpid s with
  | None => set_errno EINVAL ;; mret (-1)
  | Some childpid =>
      defined (bool_decide (fp ∈ po_streams s)) ;;
      if po_maxfd s <=? fp then set_errno EINVAL ;; mret (-1)
      else
        match childpid !! Z.to_nat fp with
        | None => undefined
        | Some pid =>
            if pid =? 0 then set_errno EINVAL ;; mret (-1)
            else
              modify (λ s, s <| po_childpid ::= fmap (<[Z.to_nat fp := 0]>) |>) ;;
              modify (λ s, s <| po_streams ::= λ l, l ∖ {[fp]} |> <| po_fds ::= fd_close fp |>) ;;
              if negb flush then mret (-1)
              else wait_loop status pid waits
        end
  end.
