(* ===== verification/PopenProps.v ===== *)
(** * Properties of popen and pclose. *)
From Stdlib Require Import Ascii ZArith Lia.
From stdpp Require Import base strings gmap option list.
From S2P Require Import Prelude CStr Sock Fds Popen.

(** Field by field. *)
Ltac po_simpl := unfold update;
  cbn [po_childpid po_maxfd po_openmax po_fds po_streams po_npipes po_children po_errno fmap option_fmap option_map].

(** ** The invariant *)

(** [M]: the streams that popen has returned and pclose has not closed, with their
    processes. *)
Definition table_ok (childpid : option (list Z)) (maxfd : Z) (M : gmap Z Z) : Prop :=
  match childpid with
  | None => M = ∅
  | Some l => Z.of_nat (length l) = maxfd ∧ ∀ fd, 0 <= fd < maxfd → l !! Z.to_nat fd = Some (default 0 (M !! fd))
  end.

Record pinv (s : popens) (M : gmap Z Z) : Prop := PInv {
  pi_openmax : 0 <= po_openmax s < 2 ^ 31;
  pi_table : table_ok (po_childpid s) (po_maxfd s) M;
  pi_streams : ∀ fd pid, M !! fd = Some pid → 0 <= fd < po_maxfd s ∧ 0 < pid ∧ fd ∈ po_streams s ∧
    is_Some (po_fds s !! fd) ∧ is_Some (po_children s !! pid);
  pi_inj : ∀ fd fd' pid, M !! fd = Some pid → M !! fd' = Some pid → fd = fd' }.

(** What the system promises: the limit is positive and fits, a new process has a number
    that no other has. *)
Definition calls_ok (c : popen_calls) (s : popens) : Prop :=
  (match pc_sysconf c with IoOk (Some n) => 0 < n < 2 ^ 31 | IoOk None => True | IoErr _ => False end) ∧
  ∀ pid, pc_fork c = IoOk pid → 0 < pid ∧ po_children s !! pid = None.

Definition is_type (read : bool) (type : bytes) : Prop := cstr type = if read then str "r" else str "w".
Definition std_fd (read : bool) : Z := if read then STDOUT_FILENO else STDIN_FILENO.
Definition child_end (read : bool) (n : nat) : pobj := if read then PipeW n else PipeR n.
Definition parent_end (read : bool) (n : nat) : pobj := if read then PipeR n else PipeW n.

(** ** The child's descriptors *)

Lemma move_fd_lookup from to t a i : t !! from = Some a →
  move_fd from to t !! i = if decide (i = to) then Some a else if decide (i = from) then None else t !! i.
Proof.
  intros Ha. unfold move_fd, fd_close, fd_dup2. rewrite Ha. destruct (Z.eqb_spec from to) as [->|Hne]; cbn [snd].
  - by destruct (decide (i = to)) as [->|].
  - destruct (decide (i = from)) as [->|Hif].
    + rewrite lookup_delete_eq. by case_decide.
    + rewrite lookup_delete_ne by done. destruct (decide (i = to)) as [->|]; [apply lookup_insert_eq|by rewrite lookup_insert_ne].
Qed.

Lemma close_children_lookup l : ∀ base t i,
  close_children base l t !! i =
  if decide (base <= i) then
    match l !! Z.to_nat (i - base) with Some pid => if 0 <? pid then None else t !! i | None => t !! i end
  else t !! i.
Proof.
  induction l as [|pid l IH]; intros base t i; cbn [close_children].
  - rewrite lookup_nil. by case_decide.
  - rewrite IH. destruct (decide (i = base)) as [->|Hne].
    + rewrite decide_False by lia. rewrite decide_True by lia. rewrite Z.sub_diag. change ((pid :: l) !! Z.to_nat 0) with (Some pid). cbv iota beta.
      destruct (0 <? pid); [apply lookup_delete_eq|done].
    + assert (Ht : (if 0 <? pid then fd_close base t else t) !! i = t !! i)
        by (destruct (0 <? pid); [by apply lookup_delete_ne|done]). rewrite Ht.
      destruct (decide (base <= i)); [|by rewrite decide_False by lia]. rewrite decide_True by lia.
      replace (Z.to_nat (i - base)) with (S (Z.to_nat (i - (base + 1)))) by lia. done.
Qed.

Lemma popen_child_lookup read n t maxfd l M i : table_ok (Some l) maxfd M →
  (∀ fd pid, M !! fd = Some pid → 0 <= fd < maxfd ∧ 0 < pid) →
  let '(pfd0, t0) := fd_open (PipeR n) t in
  let '(pfd1, t1) := fd_open (PipeW n) t0 in
  popen_child read pfd0 pfd1 l t1 !! i =
  if decide (is_Some (M !! i)) then None else if decide (i = std_fd read) then Some (child_end read n) else t !! i.
Proof.
  intros [Hlen Hl] HM. unfold fd_open. pose proof (lowest_free t) as Hf0. set (pfd0 := lowest t) in *.
  set (t0 := <[pfd0 := PipeR n]> t). pose proof (lowest_free t0) as Hf1. set (pfd1 := lowest t0) in *.
  assert (Hne : pfd0 ≠ pfd1) by (intros E; unfold t0 in Hf1; rewrite E, lookup_insert_eq in Hf1; done).
  assert (Hf1' : t !! pfd1 = None) by (unfold t0 in Hf1; by rewrite lookup_insert_ne in Hf1).
  unfold popen_child. rewrite close_children_lookup.
  assert (Hmoved : (if read then move_fd pfd1 STDOUT_FILENO (fd_close pfd0 (<[pfd1 := PipeW n]> t0))
      else move_fd pfd0 STDIN_FILENO (fd_close pfd1 (<[pfd1 := PipeW n]> t0))) !! i =
      if decide (i = std_fd read) then Some (child_end read n) else t !! i).
  { unfold std_fd, child_end, fd_close, t0. destruct read; erewrite move_fd_lookup;
      try (by rewrite lookup_delete_ne, ?lookup_insert_eq by done);
      try (by rewrite lookup_delete_ne, lookup_insert_ne, lookup_insert_eq by done).
    - case_decide; [done|]. destruct (decide (i = pfd1)) as [->|]; [done|].
      destruct (decide (i = pfd0)) as [->|]; [by rewrite lookup_delete_eq|]. by rewrite lookup_delete_ne, !lookup_insert_ne.
    - case_decide; [done|]. destruct (decide (i = pfd0)) as [->|]; [done|].
      destruct (decide (i = pfd1)) as [->|]; [by rewrite lookup_delete_eq|]. by rewrite lookup_delete_ne, !lookup_insert_ne. }
  rewrite Hmoved, Z.sub_0_r. destruct (M !! i) as [pid|] eqn:Hi.
  - destruct (HM i pid Hi) as [Hr Hp]. rewrite (decide_True (P := 0 <= i)) by lia. rewrite (Hl i Hr), Hi. cbn.
    by rewrite (proj2 (Z.ltb_lt 0 pid) Hp).
  - destruct (decide (is_Some None)) as [[? ?]|_]; [done|]. destruct (decide (0 <= i)) as [H0|]; [|done].
    destruct (decide (i < maxfd)) as [H1|H1]; [by rewrite (Hl i (conj H0 H1)), Hi|].
    by rewrite lookup_ge_None_2 by lia.
Qed.

(** ** popen *)

Definition same_world (s s' : popens) : Prop :=
  po_fds s' = po_fds s ∧ po_streams s' = po_streams s ∧ po_npipes s' = po_npipes s ∧ po_children s' = po_children s.

Lemma open_max_spec c s : calls_ok c s → 0 <= po_openmax s < 2 ^ 31 →
  ∃ n s', open_max (pc_sysconf c) s = Done n s' ∧ po_openmax s' = n ∧ 0 < n < 2 ^ 31 ∧
    same_world s s' ∧ po_childpid s' = po_childpid s ∧ po_maxfd s' = po_maxfd s.
Proof.
  intros [Hc _] Hr. unfold open_max. erewrite (bind_done get) by reflexivity.
  destruct (Z.eqb_spec (po_openmax s) 0) as [H0|H0].
  - destruct (pc_sysconf c) as [e|[n|]]; [done|..]; rewrite bind_modify; eexists _, _; (split; [reflexivity|]); unfold update; cbn;
      unfold OPEN_MAX_GUESS; unfold same_world; split_and!; (done || lia).
  - rewrite bind_ret. eexists _, s. split; [reflexivity|]. unfold same_world; split_and!; (done || lia).
Qed.

Lemma popen_ready_spec c s M : pinv s M → calls_ok c s → ∃ b s', popen_ready c s = Done b s' ∧ pinv s' M ∧ same_world s s' ∧
  (b = true → ∃ l, po_childpid s' = Some l) ∧ (po_childpid s ≠ None ∨ pc_calloc c = true → b = true).
Proof.
  intros Hs Hc. unfold popen_ready. erewrite (bind_done get) by reflexivity. pose proof (pi_table _ _ Hs) as Ht.
  destruct (po_childpid s) as [l|] eqn:Hl; [exists true, s; split_and!; try done; by exists l|]. cbn in Ht. subst M.
  destruct (open_max_spec c s Hc (pi_openmax _ _ Hs)) as (n & s1 & E & Hn & Hr & (H1 & H2 & H3 & H4) & Hl1 & Hm1).
  erewrite bind_done by exact E. rewrite bind_modify. erewrite (bind_done get) by reflexivity.
  assert (Hw : wrap_s 32 n = n).
  { unfold wrap_s. rewrite Z.mod_small by lia. by rewrite (proj2 (Z.ltb_lt n (2 ^ (32 - 1)))) by lia. }
  rewrite Hw. destruct (pc_calloc c); [rewrite bind_modify|]; eexists _, _; (split; [reflexivity|]); split_and!; try done.
  - unfold update; split; cbn; [lia| |by intros ? ? ?|by intros ? ? ? ?]. rewrite length_replicate. split; [lia|].
    intros fd Hfd. apply lookup_replicate_2. lia.
  - intros _. by eexists.
  - unfold update; split; cbn; [lia| |by intros ? ? ?|by intros ? ? ? ?]. by rewrite Hl1, Hl.
  - by intros [|].
Qed.

Lemma type_char read type : is_type read type → ∃ t, cstr type = [t] ∧ (t = "r"%char ∨ t = "w"%char) ∧
  bool_decide (t = "r"%char) = read.
Proof. unfold is_type. destruct read; intros ->; eexists; split_and!; auto. Qed.

(** What a popen that starts a process has done. *)
Record opened (s s' : popens) (M : gmap Z Z) (read : bool) (cmd : bytes) (pid fp : Z) : Prop := Opened {
  op_fp : fp = lowest (if read then po_fds s else <[lowest (po_fds s) := PipeR (po_npipes s)]> (po_fds s));
  op_new : po_fds s !! fp = None;
  op_fds : po_fds s' = <[fp := parent_end read (po_npipes s)]> (po_fds s);
  op_streams : po_streams s' = po_streams s ∪ {[fp]};
  op_child : ∃ t, po_children s' = <[pid := Child (cstr cmd) t]> (po_children s) ∧
    ∀ i, t !! i = if decide (is_Some (M !! i)) then None
                  else if decide (i = std_fd read) then Some (child_end read (po_npipes s)) else po_fds s !! i }.

Lemma popen_eq c cmd type read : is_type read type →
  popen c cmd type = (ready ← popen_ready c; if negb ready then mret None else popen_start c cmd read).
Proof.
  intros Ht. destruct (type_char read type Ht) as (t & Hc & Hrw & Hr). unfold popen.
  by rewrite Hc, (bool_decide_true _ Hrw), Hr.
Qed.

Lemma popen_bad_type c cmd type s : (∀ read, ¬ is_type read type) →
  popen c cmd type s = Done None (s <| po_errno := EINVAL |>).
Proof.
  intros H. unfold popen. destruct (cstr type) as [|t [|t' l]] eqn:Hc; try done.
  rewrite bool_decide_false; [done|]. unfold is_type in H. rewrite Hc in H. intros [->| ->].
  - by apply (H true).
  - by apply (H false).
Qed.

(** A pipe's two new descriptors, one of which is closed. *)
Lemma pipe_fds {A} (a b : A) (t : fdtab A) : let pfd0 := lowest t in let t0 := <[pfd0 := a]> t in let pfd1 := lowest t0 in
  pfd0 ≠ pfd1 ∧ t !! pfd0 = None ∧ t !! pfd1 = None ∧ 0 <= pfd0 ∧ 0 <= pfd1 ∧
  delete pfd1 (<[pfd1 := b]> t0) = <[pfd0 := a]> t ∧ delete pfd0 (<[pfd1 := b]> t0) = <[pfd1 := b]> t ∧
  delete pfd1 (delete pfd0 (<[pfd1 := b]> t0)) = t.
Proof.
  intros pfd0 t0 pfd1. pose proof (lowest_free t : t !! pfd0 = None) as H0. pose proof (lowest_free t0 : t0 !! pfd1 = None) as H1.
  assert (Hne : pfd0 ≠ pfd1) by (intros E; unfold t0 in H1; rewrite E, lookup_insert_eq in H1; done).
  assert (H1' : t !! pfd1 = None) by (unfold t0 in H1; by rewrite lookup_insert_ne in H1).
  split_and!; try done; try apply lowest_nonneg.
  - rewrite delete_insert_eq. by apply delete_id.
  - unfold t0. rewrite insert_insert_ne by done. rewrite delete_insert_eq. apply delete_id. by rewrite lookup_insert_ne.
  - unfold t0. rewrite insert_insert_ne, delete_insert_eq by done. rewrite delete_insert_ne, delete_insert_eq by done.
    rewrite (delete_id _ pfd0) by done. by apply delete_id.
Qed.

(** Other descriptors, processes and errno do not matter. *)
Lemma pinv_mono s s' M : pinv s M → po_openmax s' = po_openmax s → po_childpid s' = po_childpid s →
  po_maxfd s' = po_maxfd s → po_streams s' = po_streams s →
  (∀ fd, is_Some (M !! fd) → is_Some (po_fds s !! fd) → is_Some (po_fds s' !! fd)) →
  (∀ pid, is_Some (po_children s !! pid) → is_Some (po_children s' !! pid)) → pinv s' M.
Proof.
  intros [H1 H2 H3 H4] E1 E2 E3 E4 Hf Hc. split; rewrite ?E1, ?E2, ?E3, ?E4; try done.
  intros fd pid Hm. destruct (H3 fd pid Hm) as (? & ? & ? & ? & ?). split_and!; auto; lia.
Qed.

Lemma pinv_add s M l fp pid : pinv s M → po_childpid s = Some l → M !! fp = None → 0 <= fp < po_maxfd s → 0 < pid →
  (∀ fd pid', M !! fd = Some pid' → pid' ≠ pid) → fp ∈ po_streams s → is_Some (po_fds s !! fp) →
  is_Some (po_children s !! pid) →
  pinv (s <| po_childpid := Some (<[Z.to_nat fp := pid]> l) |>) (<[fp := pid]> M).
Proof.
  intros [H1 H2 H3 H4] Hl Hn Hr Hp Hfresh Hst Hfd Hch. rewrite Hl in H2. destruct H2 as [Hlen Htab].
  unfold update. split; cbn; [done| | |].
  - rewrite length_insert. split; [done|]. intros fd Hd. destruct (decide (fd = fp)) as [->|Hne].
    + rewrite lookup_insert_eq. apply list_lookup_insert_eq. lia.
    + rewrite lookup_insert_ne by done. rewrite list_lookup_insert_ne by lia. by apply Htab.
  - intros fd pid' [[<- <-]|[Hne Hm]]%lookup_insert_Some; [by split_and!; try lia|]. by apply H3.
  - intros fd fd' p [[<- <-]|[Hne Hm]]%lookup_insert_Some [[<- E]|[Hne' Hm']]%lookup_insert_Some; try done.
    + by destruct (Hfresh fd' pid Hm').
    + subst p. by destruct (Hfresh fd pid Hm).
    + by apply (H4 fd fd' p).
Qed.

(** Nothing fails, and the two descriptors have a place in the table. *)
Definition popen_can (c : popen_calls) (s : popens) : Prop :=
  let pfd0 := lowest (po_fds s) in
  let pfd1 := lowest (<[pfd0 := PipeR (po_npipes s)]> (po_fds s)) in
  pc_pipe c = IoOk tt ∧ (∃ pid, pc_fork c = IoOk pid) ∧ pc_fdopen c = IoOk tt ∧ pfd0 < po_maxfd s ∧ pfd1 < po_maxfd s.

Lemma popen_start_spec c cmd read s M l : pinv s M → calls_ok c s → po_childpid s = Some l →
  ∃ r s', popen_start c cmd read s = Done r s' ∧
  match r with
  | None => pinv s' M ∧ ¬ popen_can c s
  | Some fp => ∃ pid, pc_fork c = IoOk pid ∧ M !! fp = None ∧ opened s s' M read cmd pid fp ∧ pinv s' (<[fp := pid]> M)
  end.
Proof.
  intros Hs [_ Hfork] Hl. unfold popen_start. unfold popen_can. destruct (pc_pipe c) as [e|].
  { eexists None, _. split; [reflexivity|]. split; [by eapply pinv_mono|by intros [? _]]. }
  erewrite (bind_done get) by reflexivity. unfold fd_open.
  destruct (pipe_fds (PipeR (po_npipes s)) (PipeW (po_npipes s)) (po_fds s)) as (Hne & Hn0 & Hn1 & Hp0 & Hp1 & Hd1 & Hd0 & Hd01).
  pose proof (popen_child_lookup read (po_npipes s) (po_fds s) (po_maxfd s) l M) as Hchild.
  unfold fd_open in Hchild.
  set (pfd0 := lowest (po_fds s)) in *. set (pfd1 := lowest (<[pfd0 := _]> (po_fds s))) in *.
  set (t1 := <[pfd1 := PipeW (po_npipes s)]> _) in *. rewrite bind_modify.
  destruct ((po_maxfd s <=? pfd0) || (po_maxfd s <=? pfd1)) eqn:Hmax.
  { rewrite bind_modify. eexists None, _. split; [reflexivity|]. split.
    - eapply pinv_mono; try done. intros fd _ Hfd. unfold update, fd_close. cbn [po_fds]. by rewrite Hd01.
    - intros (_ & _ & _ & H0 & H1). apply orb_true_iff in Hmax as [H%Z.leb_le|H%Z.leb_le]; lia. }
  apply orb_false_iff in Hmax as [Hm0%Z.leb_gt Hm1%Z.leb_gt].
  destruct (pc_fork c) as [e|pid].
  { eexists None, _. split; [reflexivity|]. split; [|by intros (_ & [? ?] & _)]. eapply pinv_mono; try done.
    intros fd _ Hfd. unfold update, t1. cbn [po_fds]. rewrite !lookup_insert. repeat case_decide; done. }
  destruct (Hfork pid eq_refl) as [Hpid Hnew]. rewrite !bind_modify.
  set (fp := if read then pfd0 else pfd1).
  assert (Hfds : fd_close (if read then pfd1 else pfd0) t1 = <[fp := parent_end read (po_npipes s)]> (po_fds s))
    by (unfold fp, fd_close; by destruct read).
  assert (Hfp : po_fds s !! fp = None ∧ 0 <= fp < po_maxfd s) by (unfold fp; destruct read; split; done || lia).
  destruct Hfp as [Hfpn Hfpr].
  assert (HMfp : M !! fp = None).
  { destruct (M !! fp) as [p|] eqn:HM; [|done]. destruct (pi_streams _ _ Hs fp p HM) as (_ & _ & _ & [? ?] & _). congruence. }
  set (ch := Child (cstr cmd) (popen_child read pfd0 pfd1 l t1)).
  set (s1 := Popens (Some l) (po_maxfd s) (po_openmax s) (<[fp := parent_end read (po_npipes s)]> (po_fds s))
    (po_streams s) (S (po_npipes s)) (<[pid := ch]> (po_children s)) (po_errno s)).
  match goal with |- ∃ _ _, _ ?X = _ ∧ _ => assert (Hs1 : X = s1) by (po_simpl; by rewrite Hl, Hfds) end.
  rewrite Hs1. clear Hs1. assert (Hp1' : pinv s1 M).
  { eapply pinv_mono; [exact Hs|done|by rewrite Hl|done|done| |]; [intros fd _ Hf|intros p Hf]; unfold s1; po_simpl;
      rewrite lookup_insert; case_decide; done. }
  destruct (pc_fdopen c) as [e|[]].
  { eexists None, _. split; [reflexivity|]. split; [by eapply pinv_mono|by intros (_ & _ & ? & _)]. }
  rewrite !bind_modify. eexists (Some fp), _. split; [reflexivity|]. exists pid. split; [done|]. split; [done|].
  set (s2 := s1 <| po_streams ::= λ l0, l0 ∪ {[fp]} |>).
  assert (Hp2 : pinv s2 M).
  { destruct Hp1' as [P1 P2 P3 P4]. split; try done. intros fd p Hm. destruct (P3 fd p Hm) as (?&?&?&?&?).
    unfold s2. po_simpl. split_and!; try assumption; [lia..|apply elem_of_union; by left]. }
  split.
  - split; try done.
    + unfold fp. by destruct read.
    + exists (popen_child read pfd0 pfd1 l t1). split; [done|]. intros i. apply Hchild.
      * pose proof (pi_table _ _ Hs) as Ht. by rewrite Hl in Ht.
      * intros fd p Hm. destruct (pi_streams _ _ Hs fd p Hm) as (? & ? & _). done.
  - assert (Hp3 : pinv (s2 <| po_childpid := Some (<[Z.to_nat fp := pid]> l) |>) (<[fp := pid]> M)).
    { apply pinv_add; try done.
      - intros fd p Hm ->. destruct (pi_streams _ _ Hs fd pid Hm) as (_ & _ & _ & _ & [? ?]). congruence.
      - unfold s2. po_simpl. apply elem_of_union. right. by apply elem_of_singleton.
      - cbn. by rewrite lookup_insert_eq.
      - cbn. by rewrite lookup_insert_eq. }
    match goal with |- pinv ?X _ => replace X with (s2 <| po_childpid := Some (<[Z.to_nat fp := pid]> l) |>) end; [done|].
    done.
Qed.

(** ** pclose *)

Lemma wait_loop_spec status pid waits : Forall (λ e, e = EINTR) waits → ∀ s, is_Some (po_children s !! pid) →
  ∃ s', wait_loop status pid waits s = Done (status pid) s' ∧ po_children s' = delete pid (po_children s) ∧
    po_openmax s' = po_openmax s ∧ po_childpid s' = po_childpid s ∧ po_maxfd s' = po_maxfd s ∧
    po_streams s' = po_streams s ∧ po_fds s' = po_fds s.
Proof.
  induction 1 as [|e waits -> _ IH]; intros s [c Hc]; cbn [wait_loop].
  - erewrite (bind_done get) by reflexivity. rewrite Hc, bind_modify. by eexists.
  - unfold set_errno. rewrite bind_modify. cbn [Z.eqb negb]. destruct (IH (s <| po_errno := EINTR |>)) as (s' & E & H); [by exists c|].
    exists s'. by split.
Qed.

Lemma pinv_del s M l fp pid : pinv s M → po_childpid s = Some l → M !! fp = Some pid →
  pinv (Popens (Some (<[Z.to_nat fp := 0]> l)) (po_maxfd s) (po_openmax s) (delete fp (po_fds s)) (po_streams s ∖ {[fp]})
    (po_npipes s) (delete pid (po_children s)) (po_errno s)) (delete fp M).
Proof.
  intros [H1 H2 H3 H4] Hl Hm. rewrite Hl in H2. destruct H2 as [Hlen Htab]. destruct (H3 fp pid Hm) as (Hr & Hp & _).
  split; cbn [po_openmax po_childpid po_maxfd po_streams po_fds po_children table_ok]; [done| | |].
  - rewrite length_insert. split; [done|]. intros fd Hd. destruct (decide (fd = fp)) as [->|Hne].
    + rewrite lookup_delete_eq. apply list_lookup_insert_eq. lia.
    + rewrite lookup_delete_ne by done. rewrite list_lookup_insert_ne by lia. by apply Htab.
  - intros fd p [Hne Hd]%lookup_delete_Some. destruct (H3 fd p Hd) as (?&?&?&?&?). split_and!; try assumption; try lia.
    + apply elem_of_difference. split; [done|]. intros E%elem_of_singleton. congruence.
    + by rewrite lookup_delete_ne.
    + rewrite lookup_delete_ne; [done|]. intros ->. apply Hne. by apply (H4 fp fd p).
  - intros fd fd' p [_ Hd]%lookup_delete_Some [_ Hd']%lookup_delete_Some. by apply (H4 fd fd' p).
Qed.

(** ** Properties *)

Lemma pinv_init fds streams errno : pinv (Popens None 0 0 fds streams 0 ∅ errno) ∅.
Proof. split; [cbn; lia|done|by intros ? ? ?|by intros ? ? ? ?]. Qed.

Lemma popen_spec c cmd type read s M : pinv s M → calls_ok c s → is_type read type →
  ∃ r s', popen c cmd type s = Done r s' ∧
  match r with
  | None => pinv s' M ∧ ¬ (pc_calloc c = true ∧ ∃ s1, popen_ready c s = Done true s1 ∧ popen_can c s1)
  | Some fp => ∃ pid, pc_fork c = IoOk pid ∧ M !! fp = None ∧ opened s s' M read cmd pid fp ∧ pinv s' (<[fp := pid]> M)
  end.
Proof.
  intros Hs Hc Ht. rewrite (popen_eq c cmd type read Ht).
  destruct (popen_ready_spec c s M Hs Hc) as (b & s1 & E & Hs1 & (W1 & W2 & W3 & W4) & Hb & Hb').
  erewrite bind_done by exact E. destruct b; cbn [negb].
  2: { eexists None, s1. split; [done|]. split; [done|]. intros [Hca _]. discriminate Hb'. by right. }
  destruct (Hb eq_refl) as [l Hl]. assert (Hc1 : calls_ok c s1) by (destruct Hc as [C1 C2]; split; [done|by rewrite W4]).
  destruct (popen_start_spec c cmd read s1 M l Hs1 Hc1 Hl) as (r & s' & E' & H). exists r, s'. split; [done|].
  destruct r as [fp|].
  - destruct H as (pid & Hf & Hn & [O1 O2 O3 O4 O5] & Hp). exists pid. split; [done|]. split; [done|]. split; [|done].
    rewrite ?W1, ?W2, ?W3, ?W4 in *. by split.
  - destruct H as [Hp Hcan]. split; [done|]. intros (_ & s1' & E1 & Hcan'). rewrite E in E1. by injection E1 as <-.
Qed.

(** C25: popen and pclose keep, for any number of streams, the process of each: starting from
    the state in which no stream is open, a popen with mode "r" or "w" that succeeds
    returns a stream that none of the open ones is and adds it with the number of the new
    process, one that fails adds nothing, and it does not fail when no system call does and
    the two descriptors are below the limit; any other mode is refused with EINVAL.  pclose
    of an open stream waits for the process that was started for it, however often the wait
    is interrupted, returns its status and removes it, and pclose of a stream that popen
    has not made is refused with EINVAL. *)
Theorem popen_pclose s M c cmd type (Hinv : pinv s M) (Hcalls : calls_ok c s) :
  (∀ read, is_type read type → ∃ r s', popen c cmd type s = Done r s' ∧
    match r with
    | Some fp => ∃ pid, pc_fork c = IoOk pid ∧ M !! fp = None ∧ pinv s' (<[fp := pid]> M)
    | None => pinv s' M ∧ ¬ (pc_calloc c = true ∧ ∃ s1, popen_ready c s = Done true s1 ∧ popen_can c s1)
    end) ∧
  ((∀ read, ¬ is_type read type) → popen c cmd type s = Done None (s <| po_errno := EINVAL |>)) ∧
  (∀ fp pid status waits, M !! fp = Some pid → Forall (λ e, e = EINTR) waits →
    ∃ s', pclose status true waits fp s = Done (status pid) s' ∧ pinv s' (delete fp M) ∧
      po_fds s' = delete fp (po_fds s) ∧ po_children s' = delete pid (po_children s)) ∧
  (∀ fp status flush waits, M !! fp = None → fp ∈ po_streams s → 0 <= fp →
    pclose status flush waits fp s = Done (-1) (s <| po_errno := EINVAL |>)).
Proof.
  split_and!.
  - intros read Ht. destruct (popen_spec c cmd type read s M Hinv Hcalls Ht) as (r & s' & E & H).
    exists r, s'. split; [done|]. destruct r as [fp|]; [|done]. destruct H as (pid & ? & ? & _ & ?). by exists pid.
  - apply popen_bad_type.
  - intros fp pid status waits Hm Hw. destruct (pi_streams _ _ Hinv fp pid Hm) as (Hr & Hp & Hst & Hfd & Hch).
    unfold pclose. erewrite (bind_done get) by reflexivity. pose proof (pi_table _ _ Hinv) as Ht.
    destruct (po_childpid s) as [l|] eqn:Hl; [|cbn in Ht; by subst M]. destruct Ht as [Hlen Htab].
    rewrite bind_defined_true by (by apply bool_decide_true). rewrite (proj2 (Z.leb_gt _ _)) by lia.
    rewrite (Htab fp) by lia. rewrite Hm. change (default 0 (Some pid)) with pid. cbv iota beta. rewrite (proj2 (Z.eqb_neq pid 0)) by lia. rewrite !bind_modify. cbn [negb].
    pose proof (pinv_del s M l fp pid Hinv Hl Hm) as Hd.
    match goal with |- ∃ _, wait_loop _ _ _ ?X = _ ∧ _ => set (s1 := X) end.
    assert (Hs1 : po_children s1 = po_children s) by done.
    destruct (wait_loop_spec status pid waits Hw s1) as (s' & E & H1 & H2 & H3 & H4 & H5 & H6); [by rewrite Hs1|].
    exists s'. split; [done|]. split; [|split; [by rewrite H6|by rewrite H1]].
    eapply pinv_mono; [exact Hd|by rewrite H2|by rewrite H3; unfold s1; po_simpl; rewrite Hl|by rewrite H4|by rewrite H5| |].
    + intros fd _. by rewrite H6.
    + intros p. by rewrite H1.
  - intros fp status flush waits Hm Hst Hpos. unfold pclose. erewrite (bind_done get) by reflexivity.
    pose proof (pi_table _ _ Hinv) as Ht. destruct (po_childpid s) as [l|] eqn:Hl; [|done]. destruct Ht as [Hlen Htab].
    rewrite bind_defined_true by (by apply bool_decide_true).
    destruct (Z.leb_spec (po_maxfd s) fp); [done|]. rewrite (Htab fp) by lia. by rewrite Hm.
Qed.

(** What the command of popen sees: its standard output, for "r", or standard input, for
    "w", is the other end of the caller's pipe, none of the descriptors of the streams that
    are open from earlier calls is open in it, so that their readers still get an end of
    file, no further end of the new pipe is open, and every other descriptor is the
    caller's; the caller has gained exactly the stream's descriptor. *)
Theorem popen_child_descriptors s M c cmd type read fp s'
    (Hinv : pinv s M) (Hcalls : calls_ok c s) (Htype : is_type read type) 
    (Hnew : ∀ i n, (po_npipes s <= n)%nat → po_fds s !! i ≠ Some (PipeR n) ∧ po_fds s !! i ≠ Some (PipeW n))
    (Hstd : M !! std_fd read = None) (Hrun : popen c cmd type s = Done (Some fp) s') :
  ∃ pid t n, pc_fork c = IoOk pid ∧ po_children s' !! pid = Some (Child (cstr cmd) t) ∧
    t !! std_fd read = Some (child_end read n) ∧
    po_fds s' = <[fp := parent_end read n]> (po_fds s) ∧ po_fds s !! fp = None ∧
    (∀ i p, M !! i = Some p → t !! i = None) ∧
    (∀ i, i ≠ std_fd read → t !! i ≠ Some (PipeR n) ∧ t !! i ≠ Some (PipeW n)) ∧
    (∀ i, i ≠ std_fd read → M !! i = None → t !! i = po_fds s !! i).
Proof.
  destruct (popen_spec c cmd type read s M Hinv Hcalls Htype) as (r & s1 & E & H). rewrite Hrun in E. injection E as <- <-.
  destruct H as (pid & Hf & Hn & [O1 O2 O3 O4 (t & Ht & Htl)] & _). exists pid, t, (po_npipes s).
  assert (Hother : ∀ i, i ≠ std_fd read → t !! i = if decide (is_Some (M !! i)) then None else po_fds s !! i).
  { intros i Hi. rewrite Htl. case_decide; [done|]. by rewrite decide_False. }
  split_and!; try done.
  - rewrite Ht. by rewrite lookup_insert_eq.
  - rewrite Htl, Hstd. rewrite decide_False by (by intros [? ?]). by rewrite decide_True.
  - intros i p Hm. rewrite Htl, Hm. by rewrite decide_True.
  - intros i Hi. rewrite (Hother i Hi). case_decide; [done|]. by apply Hnew.
  - intros i Hi Hm. rewrite (Hother i Hi), Hm. by rewrite decide_False by (by intros [? ?]).
Qed.

(** When fork fails, popen returns NULL and the pipe stays open. *)
Lemma popen_fork_leak c s e l : pc_pipe c = IoOk tt → pc_fork c = IoErr e → po_childpid s = Some l →
  let pfd0 := lowest (po_fds s) in let pfd1 := lowest (<[pfd0 := PipeR (po_npipes s)]> (po_fds s)) in
  pfd0 < po_maxfd s → pfd1 < po_maxfd s →
  ∃ s', popen c (str "ls") (str "r") s = Done None s' ∧
    po_fds s' = <[pfd1 := PipeW (po_npipes s)]> (<[pfd0 := PipeR (po_npipes s)]> (po_fds s)).
Proof.
  intros Hp Hf Hl pfd0 pfd1 H0 H1. rewrite (popen_eq c _ _ true) by done. unfold popen_ready.
  rewrite bind_assoc. erewrite (bind_done get) by reflexivity. rewrite Hl, bind_ret. cbn [negb].
  unfold popen_start. rewrite Hp. erewrite (bind_done get) by reflexivity. unfold fd_open. rewrite bind_modify.
  fold pfd0 pfd1. rewrite (proj2 (Z.leb_gt _ _) H0), (proj2 (Z.leb_gt _ _) H1). cbn [orb]. rewrite Hf. by eexists.
Qed.

(** A stream of an earlier popen that has the number of standard output: the next command's
    standard output is closed. *)
Lemma popen_std_closed s M c cmd fp s' p : pinv s M → calls_ok c s → M !! STDOUT_FILENO = Some p →
  popen c cmd (str "r") s = Done (Some fp) s' →
  ∃ pid t, po_children s' !! pid = Some (Child (cstr cmd) t) ∧ t !! STDOUT_FILENO = None.
Proof.
  intros Hs Hc Hm Hrun. destruct (popen_spec c cmd (str "r") true s M Hs Hc ltac:(done)) as (r & s1 & E & H).
  rewrite Hrun in E. injection E as <- <-. destruct H as (pid & _ & _ & [_ _ _ _ (t & Ht & Htl)] & _).
  exists pid, t. split; [rewrite Ht; by rewrite lookup_insert_eq|]. rewrite Htl, Hm. by rewrite decide_True.
Qed.

(** ** Witnesses *)

Definition shell_fds : fdtab pobj := {[0 := Other 0; 1 := Other 1; 2 := Other 2]}.
Definition shell_state : popens := Popens None 0 0 shell_fds {[0; 1; 2]} 0 ∅ 0.
Definition good_calls (pid : Z) : popen_calls := PopenCalls (IoOk (Some 1024)) true (IoOk tt) (IoOk pid) (IoOk tt).

Lemma good_calls_ok pid s : 0 < pid → po_children s !! pid = None → calls_ok (good_calls pid) s.
Proof. intros Hp Hn. split; [cbn; lia|]. by intros p [= <-]. Qed.

Definition ls_open : popens :=
  match popen (good_calls 100) (str "ls") (str "r") shell_state with Done _ s => s | _ => shell_state end.

Lemma ls_opened : popen (good_calls 100) (str "ls") (str "r") shell_state = Done (Some 3) ls_open.
Proof. by vm_compute. Qed.

Lemma ls_shell : pinv shell_state ∅ ∧ calls_ok (good_calls 100) shell_state.
Proof. split; [apply pinv_init|by apply good_calls_ok]. Qed.

Lemma popen_pclose_witness : ∃ s2, popen (good_calls 100) (str "ls") (str "r") shell_state = Done (Some 3) ls_open ∧
  pclose (λ _, 256) true [EINTR; EINTR] 3 ls_open = Done 256 s2 ∧ po_fds s2 = delete 3 (po_fds ls_open).
Proof.
  destruct ls_shell as [H0 Hc]. pose proof ls_opened as E0.
  destruct (popen_pclose shell_state ∅ (good_calls 100) (str "ls") (str "r") H0 Hc) as (H1 & _).
  destruct (H1 true ltac:(by vm_compute)) as (r & s1 & E & Hr). rewrite E0 in E. injection E as <- <-.
  destruct Hr as (pid & [= <-] & _ & Hinv).
  destruct (popen_pclose ls_open _ (good_calls 101) (str "ls") (str "r") Hinv (good_calls_ok 101 ls_open eq_refl eq_refl))
    as (_ & _ & H3 & _).
  destruct (H3 3 100 (λ _, 256) [EINTR; EINTR] (lookup_insert_eq _ _ _) ltac:(by repeat constructor)) as (s2 & E2 & _ & Hf & _).
  exists s2. split; [exact E0|]. split; [exact E2|exact Hf].
Defined.

Lemma popen_child_descriptors_witness : ∃ t, po_children ls_open !! 100 = Some (Child (str "ls") t) ∧
  t !! 1 = Some (PipeW 0) ∧ t !! 3 = None ∧ t !! 2 = Some (Other 2).
Proof.
  destruct ls_shell as [H0 Hc].
  assert (Hnew : ∀ i n, (po_npipes shell_state <= n)%nat →
    po_fds shell_state !! i ≠ Some (PipeR n) ∧ po_fds shell_state !! i ≠ Some (PipeW n)).
  { intros i n _. unfold shell_state, shell_fds. cbn [po_fds]. rewrite !lookup_insert, lookup_singleton.
    repeat case_decide; done. }
  destruct (popen_child_descriptors shell_state ∅ (good_calls 100) (str "ls") (str "r") true 3 ls_open H0 Hc
    ltac:(by vm_compute) Hnew eq_refl ls_opened) as (pid & t & n & [= <-] & H1 & H2 & H3 & _ & _ & _ & H4).
  exists t. split; [exact H1|]. assert (E : n = 0%nat).
  { assert (po_fds ls_open !! 3 = Some (PipeR n)) as E by (rewrite H3; apply lookup_insert_eq). by vm_compute in E; injection E. }
  subst n. split; [exact H2|]. split; by rewrite H4.
Defined.
