(* ===== verification/Daemonize.v ===== *)
(** * Becoming a daemon: lib/daemonize.c, daemons/init.c and my_daemonize.c (in exercises/
    and sockets/, the same code).

    The state is the process that goes on: after a fork that is the child, and the parent,
    which exits, is added to [d_gone].  The lock file is shared by the daemons of a machine
    (the steps at the end). *)
From Stdlib Require Import Ascii ZArith Lia.
From stdpp Require Import base strings gmap option list.
From S2P Require Import Prelude CStr Sock Fds.

(** ** Processes *)

(** The descriptors are open on paths; [d_forks]: the numbers of the new processes, [None]
    for a fork that fails. *)
Record daemon := Daemon {
  d_pid : Z; d_sid : Z; d_tty : bool; d_umask : Z; d_cwd : bytes; d_ignore_hup : bool;
  d_fds : fdtab bytes; d_forks : list (option Z); d_gone : list (Z * Z); d_out : list bytes }.
#[export] Instance daemon_rebuild : Rebuild daemon := λ s,
  Daemon (d_pid s) (d_sid s) (d_tty s) (d_umask s) (d_cwd s) (d_ignore_hup s) (d_fds s) (d_forks s) (d_gone s) (d_out s).

(** The results of the other calls: the limit of getrlimit ([None]: RLIM_INFINITY), which
    paths can be opened. *)
Record daemon_calls := DaemonCalls {
  dc_limit : iores (option Z); dc_sigaction : bool; dc_chdir : bool; dc_open : bytes → bool }.

(** if ((pid = fork()) < 0) error; else if (pid != 0) exit(0); *)
Definition fork_and_leave (e : fatal) : prog daemon unit :=
  s ← get;
  match d_forks s with
  | Some pid :: l =>
      modify (λ s, s <| d_gone ::= λ g, g ++ [(d_pid s, 0)] |> <| d_pid := pid |> <| d_forks := l |>)
  | _ => die e
  end.

(** A process that leads no group gets a session of its own, without a terminal. *)
Definition setsid : prog daemon unit :=
  modify (λ s, s <| d_sid := d_pid s |> <| d_tty := false |>).

Definition ignore_sighup (ok : bool) (e : fatal) : prog daemon unit :=
  check ok e ;;
  modify (λ s, s <| d_ignore_hup := true |>).

Definition chdir_root (ok : bool) (e : fatal) : prog daemon unit :=
  check ok e ;;
  modify (λ s, s <| d_cwd := str "/" |>).

(** The loop counter is an int. *)
Definition close_all (limit : option Z) : prog daemon unit :=
  let rlim_max := default 1024 limit in
  defined (rlim_max <=? 2 ^ 31 - 1) ;;
  modify (λ s, s <| d_fds ::= close_below (Z.to_nat rlim_max) |>).

Definition open_path (c : daemon_calls) (path : bytes) : prog daemon Z :=
  s ← get;
  if dc_open c path then
    let '(fd, t) := fd_open path (d_fds s) in
    modify (λ s, s <| d_fds := t |>) ;; mret fd
  else mret (-1).
Definition dup_fd (fd : Z) : prog daemon Z :=
  s ← get;
  let '(fd', t) := fd_dup fd (d_fds s) in
  modify (λ s, s <| d_fds := t |>) ;; mret fd'.

Definition DEVNULL : bytes := str "/dev/null".

(** ** lib/daemonize.c *)

Definition daemonize (c : daemon_calls) : prog daemon unit :=
  modify (λ s, s <| d_umask := 0 |>) ;;
  match dc_limit c with
  | IoErr _ => die (ErrQuit "%s: can't get file limit")
  | IoOk limit =>
      fork_and_leave (ErrQuit "%s: can't fork") ;;
      setsid ;;
      ignore_sighup (dc_sigaction c) (ErrQuit "%s: can't ignore SIGHUP") ;;
      fork_and_leave (ErrQuit "%s: can't fork") ;;
      chdir_root (dc_chdir c) (ErrQuit "%s: can't change directory to /") ;;
      close_all limit ;;
      fd0 ← open_path c DEVNULL;
      fd1 ← dup_fd 0;
      fd2 ← dup_fd 0;
      check ((fd0 =? 0) && (fd1 =? 1) && (fd2 =? 2)) (Exit 1)
  end.

(** ** daemons/init.c *)

(** The name of the log file in logfile[64]. *)
Definition log_name (pid : Z) : bytes := take 63 (str "/var/log/apue/daemon_log" ++ str "." ++ dec pid).

Definition init_daemonize (c : daemon_calls) : prog daemon unit :=
  modify (λ s, s <| d_umask := 0 |>) ;;
  match dc_limit c with
  | IoErr _ => die (ErrQuit "%s: can't get file limit")
  | IoOk limit =>
      fork_and_leave (ErrQuit "%s: can't fork") ;;
      setsid ;;
      ignore_sighup (dc_sigaction c) (ErrQuit "%s: can't ignore SIGHUP") ;;
      fork_and_leave (ErrQuit "%s: can't fork") ;;
      chdir_root (dc_chdir c) (ErrQuit "%s: can't change directory to /") ;;
      close_all limit ;;
      pid ← gets d_pid;
      fd0 ← open_path c DEVNULL;
      fd1 ← open_path c (log_name pid);
      fd2 ← dup_fd fd1;
      check ((fd0 =? 0) && (fd1 =? 1) && (fd2 =? 2)) (ErrQuit "%s: can't freopen fd1")
  end.

(** ** my_daemonize.c *)

Definition PATH_MAX : nat := 4096.
Definition my_log_name (cmd : bytes) (pid : Z) : bytes :=
  take (PATH_MAX - 1) (str "/log/" ++ cstr cmd ++ str "." ++ dec pid ++ str ".log").

Definition my_daemonize (c : daemon_calls) (cmd : option bytes) : prog daemon unit :=
  match cmd with
  | None => mret tt
  | Some cmd =>
      modify (λ s, s <| d_umask := 0 |>) ;;
      fork_and_leave (Exit 1) ;;
      setsid ;;
      ignore_sighup (dc_sigaction c) (Exit 1) ;;
      fork_and_leave (Exit 1) ;;
      chdir_root (dc_chdir c) (Exit 1) ;;
      match dc_limit c with
      | IoErr _ => die (Exit 1)
      | IoOk limit =>
          close_all limit ;;
          pid ← gets d_pid;
          fd0 ← open_path c DEVNULL;
          fd1 ← open_path c (my_log_name cmd pid);
          check (0 <=? fd1) (Exit 1) ;;
          fd2 ← dup_fd fd1;
          check ((fd0 =? 0) && (fd1 =? 1) && (fd2 =? 2)) (Exit 1) ;;
          modify (λ s, s <| d_out ::= λ o, o ++ [cmd ++ str " processing "] |>)
      end
  end.

(** ** The lock file of daemons/init.c *)

(** Its bytes, and the process that has the write lock on all of it. *)
Record lockf := Lockf { lk_data : bytes; lk_owner : option Z }.
#[export] Instance lockf_rebuild : Rebuild lockf := λ l, Lockf (lk_data l) (lk_owner l).

(** lockfile: F_SETLK; [None]: EACCES or EAGAIN. *)
Definition lockfile (p : Z) (l : lockf) : option lockf :=
  match lk_owner l with
  | Some q => if q =? p then Some l else None
  | None => Some (l <| lk_owner := Some p |>)
  end.

(** lock_test: F_GETLK. *)
Definition lock_test (p : Z) (l : lockf) : Z :=
  match lk_owner l with Some q => if q =? p then 0 else q | None => 0 end.

(** sprintf(buf, "%ld", getpid()) into buf[16]. *)
Definition pid_text (p : Z) : bytes := dec p ++ [NUL].

(** ftruncate and write, whose results the code ignores: [ok] is whether the first one
    succeeds, [k] how many bytes the second one writes (0: it fails). *)
Definition truncate_lock (ok : bool) : prog lockf unit :=
  if ok then modify (λ l, l <| lk_data := [] |>) else mret tt.
Definition write_pid (p : Z) (k : nat) : prog lockf unit :=
  defined (length (pid_text p) <=? 16)%nat ;;
  modify (λ l, l <| lk_data ::= λ d, put_at d 0 (take k (pid_text p)) |>).

(** already_running, when nothing happens in between: 1, or 0 with the lock. *)
Definition already_running (p : Z) (opened truncates : bool) (k : nat) : prog lockf Z :=
  check opened (Exit 1) ;;
  l ← get;
  match lockfile p l with
  | None => mret 1
  | Some l' =>
      modify (λ _, l') ;;
      truncate_lock truncates ;;
      write_pid p k ;;
      mret 0
  end.

(** ** The signals of the daemon *)

Definition SIGHUP : Z := 1.
Definition SIGTERM : Z := 15.

(** thr_fn: [sigs] are the results of sigwait, [None] an error; [NoFuel]: it still waits. *)
Fixpoint thr_fn (sigs : list (option Z)) : prog (list bytes) unit :=
  match sigs with
  | [] => λ _, NoFuel
  | None :: _ => modify (λ o, o ++ [str "sigwait failed "]) ;; die (Exit 1)
  | Some signo :: sigs' =>
      if signo =? SIGHUP then
        modify (λ o, o ++ [str "Re-reading configuration file "]) ;; thr_fn sigs'
      else if signo =? SIGTERM then
        modify (λ o, o ++ [str "got SIGTERM; exiting "]) ;; die (Exit 0)
      else
        modify (λ o, o ++ [str "unexpected signal " ++ dec signo]) ;; thr_fn sigs'
  end.

(** ** Several daemons at once *)

(** Where a process is in already_running: before open, fcntl, ftruncate, write, F_GETLK;
    it has returned 0 or 1. *)
Inductive apc := AOpen | ALock | ATruncate | AWrite | ATest | AReturned (r : Z).
#[export] Instance apc_eq_dec : EqDecision apc.
Proof. solve_decision. Defined.

(** [ds_failed]: the processes whose ftruncate or write has failed. *)
Record daemons := Daemons { ds_lock : lockf; ds_procs : gmap Z apc; ds_failed : gset Z }.

Definition note (p : Z) (ok : bool) (f : gset Z) : gset Z := if ok then f else {[p]} ∪ f.

(** One system call of process [p]; process numbers are those of the kernel. *)
Inductive daemons_step : daemons → daemons → Prop :=
  | step_start l m f p : m !! p = None → 0 < p < 2 ^ 31 →
      daemons_step (Daemons l m f) (Daemons l (<[p := AOpen]> m) (f ∖ {[p]}))
  | step_open l m f p : m !! p = Some AOpen → daemons_step (Daemons l m f) (Daemons l (<[p := ALock]> m) f)
  | step_lock l m f p l' : m !! p = Some ALock → lockfile p l = Some l' →
      daemons_step (Daemons l m f) (Daemons l' (<[p := ATruncate]> m) f)
  | step_locked l m f p : m !! p = Some ALock → lockfile p l = None →
      daemons_step (Daemons l m f) (Daemons l (<[p := ATest]> m) f)
  | step_test l m f p : m !! p = Some ATest → daemons_step (Daemons l m f) (Daemons l (<[p := AReturned 1]> m) f)
  | step_truncate l m f p ok l' : m !! p = Some ATruncate → truncate_lock ok l = Done tt l' →
      daemons_step (Daemons l m f) (Daemons l' (<[p := AWrite]> m) (note p ok f))
  | step_write l m f p k l' : m !! p = Some AWrite → write_pid p k l = Done tt l' →
      daemons_step (Daemons l m f) (Daemons l' (<[p := AReturned 0]> m) (note p (length (pid_text p) <=? k)%nat f))
  (* the process ends, wherever it is; its lock goes with it *)
  | step_end l m f p pc : m !! p = Some pc →
      daemons_step (Daemons l m f)
        (Daemons (if decide (lk_owner l = Some p) then l <| lk_owner := None |> else l) (delete p m) f).

(** ** main of daemons/init.c *)

(** The part of a path behind its last slash. *)
Fixpoint behind_slash (acc s : bytes) : bytes :=
  match s with
  | [] => acc
  | c :: s' => if Ascii.eqb c "/"%char then behind_slash s' s' else behind_slash acc s'
  end.
Definition command_name (argv0 : bytes) : bytes := behind_slash (cstr argv0) (cstr argv0).

(** What happens after daemonize: the lock, the signals.  [calls]: sigaction, pthread_sigmask
    and pthread_create; the message of the first has no argument for its %s. *)
Definition init_main (c : daemon_calls) (lock : lockf) (opened truncates : bool) (k : nat) (calls : bool * bool * bool)
    (sigs : list (option Z)) : prog daemon unit :=
  init_daemonize c ;;
  modify (λ s, s <| d_out ::= λ o, o ++ [str "test_daemon start "] |>) ;;
  pid ← gets d_pid;
  match already_running pid opened truncates k lock with
  | Done r _ =>
      (if negb (r =? 0) then
         modify (λ s, s <| d_out ::= λ o, o ++ [str "daemon already running "] |>) ;; die (Exit 1)
       else mret tt) ;;
      let '(sigaction, sigmask, create) := calls in
      defined sigaction ;;
      modify (λ s, s <| d_ignore_hup := false |>) ;;
      check sigmask (ErrSys "SIG_BLOCK error") ;;
      check create (ErrSys "can't create thread") ;;
      s ← get;
      match thr_fn sigs (d_out s) with
      | Done _ o => modify (λ s, s <| d_out := o |>) ;; die (Exit 0)
      | Fatal e o => modify (λ s, s <| d_out := o |>) ;; die e
      | Undef _ => undefined
      | NoFuel => λ _, NoFuel
      end
  | Fatal e _ => die e
  | Undef _ => undefined
  | NoFuel => λ _, NoFuel
  end.
