(* ===== verification/DaemonizeProps.v ===== *)
(** * Properties of becoming a daemon and of the single instance. *)
From Stdlib Require Import Ascii ZArith Lia.
From stdpp Require Import base strings gmap option list relations.
From S2P Require Import Prelude CStr Sock Fds Daemonize.

(** ** The descriptors *)

(** Three opens when 0, 1 and 2 are free. *)
Lemma lowest_three {A} (t : fdtab A) (a b c : A) : t !! 0 = None → t !! 1 = None → t !! 2 = None →
  lowest t = 0 ∧ lowest (<[0 := a]> t) = 1 ∧ lowest (<[1 := b]> (<[0 := a]> t)) = 2.
Proof.
  intros H0 H1 H2. split_and!.
  - apply lowest_unique; [lia|done|intros j Hj; lia].
  - apply lowest_unique; [lia|by rewrite lookup_insert_ne|]. intros j Hj. assert (j = 0) as -> by lia.
    by rewrite lookup_insert_eq.
  - apply lowest_unique; [lia|by rewrite !lookup_insert_ne|]. intros j Hj. assert (j = 0 ∨ j = 1) as [-> | ->] by lia.
    + by rewrite lookup_insert_ne, lookup_insert_eq.
    + by rewrite lookup_insert_eq.
Qed.

(** The table of the daemon: [a] on 0, [b] on 1 and 2, nothing else below the limit. *)
Definition daemon_fds (n : Z) (a b : bytes) (t : fdtab bytes) : fdtab bytes :=
  <[2 := b]> (<[1 := b]> (<[0 := a]> (close_below (Z.to_nat n) t))).

Lemma daemon_fds_lookup n a b t i : 3 <= n → daemon_fds n a b t !! i =
  if decide (i = 0) then Some a else if decide (i = 1 ∨ i = 2) then Some b
  else if decide (0 <= i < n) then None else t !! i.
Proof.
  intros Hn. unfold daemon_fds. rewrite !lookup_insert, close_below_lookup, Z2Nat.id by lia.
  repeat case_decide; done || lia.
Qed.

Lemma close_below_std n t : 3 <= n → let t' := close_below (A := bytes) (Z.to_nat n) t in
  t' !! 0 = None ∧ t' !! 1 = None ∧ t' !! 2 = None.
Proof. intros Hn t'. unfold t'. rewrite !close_below_lookup, !decide_True by lia. done. Qed.

(** ** The three versions *)

Definition limit_of (c : daemon_calls) : Z := match dc_limit c with IoOk l => default 1024 l | IoErr _ => 0 end.

(** The calls succeed; the limit fits an int and leaves room for three descriptors. *)
Record calls_succeed (c : daemon_calls) (s : daemon) (p1 p2 : Z) (fs : list (option Z)) : Prop := CallsSucceed {
  cs_limit : ∃ l, dc_limit c = IoOk l;
  cs_range : 3 <= limit_of c <= 2 ^ 31 - 1;
  cs_sigaction : dc_sigaction c = true;
  cs_chdir : dc_chdir c = true;
  cs_open : ∀ path, dc_open c path = true;
  cs_forks : d_forks s = Some p1 :: Some p2 :: fs }.

(** The process that goes on. *)
Definition daemon_of (s : daemon) (c : daemon_calls) (p1 p2 : Z) (fs : list (option Z)) (a b : bytes) : daemon :=
  Daemon p2 p1 false 0 (str "/") true (daemon_fds (limit_of c) a b (d_fds s)) fs
    (d_gone s ++ [(d_pid s, 0); (p1, 0)]) (d_out s).

(** With all the fields at hand a run computes, up to the lookups of free descriptors. *)
Ltac run_daemon :=
  unfold fork_and_leave, setsid, ignore_sighup, chdir_root, close_all, open_path, dup_fd, fd_open, fd_dup, check, defined,
    mbind, prog_bind, mret, prog_ret, get, gets, modify, update;
  cbn [d_pid d_sid d_tty d_umask d_cwd d_ignore_hup d_fds d_forks d_gone d_out].

Lemma daemonize_spec c s p1 p2 fs : calls_succeed c s p1 p2 fs →
  daemonize c s = Done tt (daemon_of s c p1 p2 fs DEVNULL DEVNULL).
Proof.
  intros [[l Hl] Hr Hsig Hch Hop Hf]. unfold daemonize, daemon_of, limit_of in *. rewrite Hl in *.
  set (n := default 1024 l) in *. pose proof (close_below_std n (d_fds s)) as Hstd.
  destruct s as [pid sid tty um cwd hup fds forks gone out]; cbn [d_fds d_forks d_pid d_gone d_out] in *.
  destruct Hstd as (H0 & H1 & H2); [lia|]. subst forks. run_daemon. rewrite Hsig, Hch. run_daemon. fold n.
  rewrite (proj2 (Z.leb_le _ _)) by lia. rewrite Hop. run_daemon.
  destruct (lowest_three (close_below (Z.to_nat n) fds) DEVNULL DEVNULL DEVNULL H0 H1 H2) as (E0 & E1 & E2).
  rewrite E0, lookup_insert_eq. run_daemon. rewrite E1, lookup_insert_ne, lookup_insert_eq by done. run_daemon.
  rewrite E2. cbn. by rewrite <- app_assoc.
Qed.

Lemma init_daemonize_spec c s p1 p2 fs : calls_succeed c s p1 p2 fs →
  init_daemonize c s = Done tt (daemon_of s c p1 p2 fs DEVNULL (log_name p2)).
Proof.
  intros [[l Hl] Hr Hsig Hch Hop Hf]. unfold init_daemonize, daemon_of, limit_of in *. rewrite Hl in *.
  set (n := default 1024 l) in *. pose proof (close_below_std n (d_fds s)) as Hstd.
  destruct s as [pid sid tty um cwd hup fds forks gone out]; cbn [d_fds d_forks d_pid d_gone d_out] in *.
  destruct Hstd as (H0 & H1 & H2); [lia|]. subst forks. run_daemon. rewrite Hsig, Hch. run_daemon. fold n.
  rewrite (proj2 (Z.leb_le _ _)) by lia. rewrite !Hop. run_daemon.
  destruct (lowest_three (close_below (Z.to_nat n) fds) DEVNULL (log_name p2) DEVNULL H0 H1 H2) as (E0 & E1 & E2).
  rewrite E0. run_daemon. rewrite E1. run_daemon. cbn [Z.leb Z.compare]. run_daemon. rewrite lookup_insert_eq.
  run_daemon. rewrite E2. cbn. by rewrite <- app_assoc.
Qed.

Lemma my_daemonize_spec c s p1 p2 fs cmd : calls_succeed c s p1 p2 fs →
  my_daemonize c (Some cmd) s =
  Done tt (daemon_of s c p1 p2 fs DEVNULL (my_log_name cmd p2) <| d_out ::= λ o, o ++ [cmd ++ str " processing "] |>).
Proof.
  intros [[l Hl] Hr Hsig Hch Hop Hf]. unfold my_daemonize, daemon_of, limit_of in *. rewrite Hl in *.
  set (n := default 1024 l) in *. pose proof (close_below_std n (d_fds s)) as Hstd.
  destruct s as [pid sid tty um cwd hup fds forks gone out]; cbn [d_fds d_forks d_pid d_gone d_out] in *.
  destruct Hstd as (H0 & H1 & H2); [lia|]. subst forks. run_daemon. rewrite Hsig, Hch. run_daemon. fold n.
  rewrite (proj2 (Z.leb_le _ _)) by lia. rewrite !Hop. run_daemon.
  destruct (lowest_three (close_below (Z.to_nat n) fds) DEVNULL (my_log_name cmd p2) DEVNULL H0 H1 H2) as (E0 & E1 & E2).
  rewrite E0. run_daemon. rewrite E1. run_daemon. cbn [Z.leb Z.compare]. run_daemon. rewrite lookup_insert_eq.
  run_daemon. rewrite E2. cbn. by rewrite <- app_assoc.
Qed.

(** The name of the log file is not cut. *)
Lemma log_name_fits pid : 0 <= pid < 2 ^ 31 → log_name pid = str "/var/log/apue/daemon_log." ++ dec pid.
Proof.
  intros Hp. unfold log_name. rewrite take_ge; [done|]. rewrite !length_app. unfold dec.
  rewrite (proj2 (Z.ltb_ge pid 0)) by lia. pose proof (udec_length_le pid 10 ltac:(lia) ltac:(lia)). simpl (length (str _)). lia.
Qed.

(** What has succeeded when a version of daemonize returns: the calls, and the opening of
    /dev/null and of the log file [log] has, for the number of the process.  Otherwise the
    process has ended, or, with a limit that is no int, left the defined behaviour. *)
Definition succeeded (c : daemon_calls) (s : daemon) (log : Z → option bytes) : Prop :=
  (∃ l, dc_limit c = IoOk l) ∧ dc_sigaction c = true ∧ dc_chdir c = true ∧ dc_open c DEVNULL = true ∧
  ∃ p1 p2 fs, d_forks s = Some p1 :: Some p2 :: fs ∧ ∀ name, log p2 = Some name → dc_open c name = true.

Definition ends_unless {A} (c : daemon_calls) (m : prog daemon A) (s : daemon) (Q : A → daemon → Prop) : Prop :=
  match m s with
  | Done a s' => Q a s'
  | Fatal _ _ => True
  | Undef _ => 2 ^ 31 - 1 < limit_of c
  | NoFuel => False
  end.

Section ends.
Context (c : daemon_calls).

Lemma unless_bind {A B} (m : prog daemon A) (k : A → prog daemon B) s Q :
  ends_unless c m s (λ a s', ends_unless c (k a) s' Q) → ends_unless c (m ≫= k) s Q.
Proof. unfold ends_unless, mbind, prog_bind. by destruct (m s). Qed.
Lemma unless_check b e s (Q : unit → daemon → Prop) : (b = true → Q tt s) → ends_unless c (check b e) s Q.
Proof. destruct b; [by intros H; apply H|done]. Qed.
Lemma ends_fork e s (Q : unit → daemon → Prop) :
  (∀ p fs s', d_forks s = Some p :: fs → d_forks s' = fs → d_pid s' = p → Q tt s') → ends_unless c (fork_and_leave e) s Q.
Proof.
  unfold ends_unless, fork_and_leave, mbind, prog_bind, get. intros H.
  destruct (d_forks s) as [|[p|] fs]; [done| |done]. by apply (H p fs).
Qed.
(** A step that leaves the process numbers alone. *)
Definition same_forks (s s' : daemon) : Prop := d_forks s' = d_forks s ∧ d_pid s' = d_pid s.
Lemma ends_modify f s (Q : unit → daemon → Prop) : (same_forks s (f s)) →
  (∀ s', same_forks s s' → Q tt s') → ends_unless c (modify f) s Q.
Proof. intros Hf HQ. by apply HQ. Qed.
Lemma ends_close s (Q : unit → daemon → Prop) l : dc_limit c = IoOk l →
  (∀ s', same_forks s s' → Q tt s') → ends_unless c (close_all l) s Q.
Proof.
  intros Hl HQ. unfold close_all. cbv zeta. apply unless_bind. unfold ends_unless at 1, defined, limit_of. rewrite Hl.
  destruct (Z.leb_spec (default 1024 l) (2 ^ 31 - 1)); [|done]. by apply HQ.
Qed.
Lemma ends_open path s (Q : Z → daemon → Prop) :
  (∀ fd s', same_forks s s' → (0 <= fd → dc_open c path = true) → Q fd s') → ends_unless c (open_path c path) s Q.
Proof.
  intros HQ. unfold ends_unless, open_path, mbind, prog_bind, get. destruct (dc_open c path).
  - by apply HQ.
  - apply HQ; [done|]. intros H. exfalso. by apply H.
Qed.
Lemma ends_dup fd s (Q : Z → daemon → Prop) : (∀ fd' s', same_forks s s' → Q fd' s') →
  ends_unless c (dup_fd fd) s Q.
Proof.
  intros HQ. unfold ends_unless, dup_fd, mbind, prog_bind, get. destruct (fd_dup fd (d_fds s)) as [fd' t] eqn:E.
  by apply HQ.
Qed.
Lemma ends_checked (ok : bool) e f s (Q : unit → daemon → Prop) : same_forks s (f s) →
  (ok = true → ∀ s', same_forks s s' → Q tt s') → ends_unless c (check ok e ;; modify f) s Q.
Proof. intros Hf HQ. apply unless_bind, unless_check. intros Hok. by apply HQ. Qed.

(** The part all three have in common: two forks with setsid, sigaction and chdir. *)
Lemma ends_front (k : prog daemon unit) e1 e2 e3 e4 s (Q : unit → daemon → Prop) :
  (∀ p1 p2 fs s', d_forks s = Some p1 :: Some p2 :: fs → dc_sigaction c = true → dc_chdir c = true → d_pid s' = p2 →
    ends_unless c k s' Q) →
  ends_unless c (fork_and_leave e1 ;; setsid ;; ignore_sighup (dc_sigaction c) e2 ;; fork_and_leave e3 ;;
    chdir_root (dc_chdir c) e4 ;; k) s Q.
Proof.
  intros Hk. apply unless_bind, ends_fork. intros p1 fs1 s1 E1 F1 _. apply unless_bind, ends_modify; [done|]. intros s2 [F2 _].
  apply unless_bind, ends_checked; [done|]. intros Hs s3 [F3 _]. apply unless_bind, ends_fork. intros p2 fs s4 E4 _ P4.
  apply unless_bind, ends_checked; [done|]. intros Hc s5 [_ P5]. apply (Hk p1 p2 fs); [|done|done|congruence].
  rewrite E1. f_equal. congruence.
Qed.

Lemma fds_opened (fd0 fd1 fd2 : Z) : (fd0 =? 0) && (fd1 =? 1) && (fd2 =? 2) = true → 0 <= fd0 ∧ 0 <= fd1.
Proof. lia. Qed.

Lemma daemonize_ends s : ends_unless c (daemonize c) s (λ _ _, succeeded c s (λ _, None)).
Proof.
  unfold daemonize. apply unless_bind, ends_modify; [done|]. intros s1 [F1 _].
  destruct (dc_limit c) as [e|l] eqn:Hl; [done|]. apply ends_front. intros p1 p2 fs s2 Ef Hs Hc _. rewrite F1 in Ef.
  apply unless_bind, ends_close; [done|]. intros s3 _. apply unless_bind, ends_open. intros fd0 s4 _ H0.
  apply unless_bind, ends_dup. intros fd1 s5 _. apply unless_bind, ends_dup. intros fd2 s6 _.
  apply unless_check. intros [Hfd _]%fds_opened. split_and!; [by exists l|done|done|auto|]. by exists p1, p2, fs.
Qed.

Lemma init_daemonize_ends s : ends_unless c (init_daemonize c) s (λ _ _, succeeded c s (λ p, Some (log_name p))).
Proof.
  unfold init_daemonize. apply unless_bind, ends_modify; [done|]. intros s1 [F1 _].
  destruct (dc_limit c) as [e|l] eqn:Hl; [done|]. apply ends_front. intros p1 p2 fs s2 Ef Hs Hc Hp. rewrite F1 in Ef.
  apply unless_bind, ends_close; [done|]. intros s3 [_ P3]. apply unless_bind. unfold ends_unless at 1, gets. rewrite P3, Hp.
  apply unless_bind, ends_open. intros fd0 s4 _ H0. apply unless_bind, ends_open. intros fd1 s5 _ H1.
  apply unless_bind, ends_dup. intros fd2 s6 _. apply unless_check. intros [Hfd Hfd1]%fds_opened.
  split_and!; [by exists l|done|done|auto|]. exists p1, p2, fs. split; [done|]. intros name [= <-]. auto.
Qed.

Lemma my_daemonize_ends cmd s :
  ends_unless c (my_daemonize c (Some cmd)) s (λ _ _, succeeded c s (λ p, Some (my_log_name cmd p))).
Proof.
  unfold my_daemonize. apply unless_bind, ends_modify; [done|]. intros s1 [F1 _].
  apply ends_front. intros p1 p2 fs s2 Ef Hs Hc Hp. rewrite F1 in Ef. destruct (dc_limit c) as [e|l] eqn:Hl; [done|].
  apply unless_bind, ends_close; [done|]. intros s3 [_ P3]. apply unless_bind. unfold ends_unless at 1, gets. rewrite P3, Hp.
  apply unless_bind, ends_open. intros fd0 s4 _ H0. apply unless_bind, ends_open. intros fd1 s5 _ H1.
  apply unless_bind, unless_check. intros _. apply unless_bind, ends_dup. intros fd2 s6 _. apply unless_bind, unless_check.
  intros [Hfd Hfd1]%fds_opened. apply ends_modify; [done|]. intros _ _.
  split_and!; [by exists l|done|done|auto|]. exists p1, p2, fs. split; [done|]. intros name [= <-]. auto.
Qed.
End ends.

(** ** The single instance *)

(** Where a process has the lock. *)
Definition holds (pc : apc) : Prop := pc = ATruncate ∨ pc = AWrite ∨ pc = AReturned 0.

Record daemons_inv (d : daemons) : Prop := DaemonsInv {
  di_owner : ∀ p pc, ds_procs d !! p = Some pc → holds pc → lk_owner (ds_lock d) = Some p;
  di_pid : ∀ p pc, ds_procs d !! p = Some pc → 0 < p < 2 ^ 31;
  di_empty : ∀ p, ds_procs d !! p = Some AWrite → p ∉ ds_failed d → lk_data (ds_lock d) = [];
  di_data : ∀ p, ds_procs d !! p = Some (AReturned 0) → p ∉ ds_failed d → lk_data (ds_lock d) = pid_text p }.

Lemma write_pid_spec p k l : 0 < p < 2 ^ 31 →
  write_pid p k l = Done tt (l <| lk_data ::= λ d, put_at d 0 (take k (pid_text p)) |>).
Proof.
  intros Hp. unfold write_pid, pid_text. rewrite bind_defined_true; [done|]. apply Nat.leb_le. rewrite length_app. unfold dec.
  rewrite (proj2 (Z.ltb_ge p 0)) by lia. pose proof (udec_length_le p 10 ltac:(lia) ltac:(lia)). simpl. lia.
Qed.

(** A process moves without the lock. *)
Lemma daemons_move l m f f' p pc : daemons_inv (Daemons l m f) → ¬ holds pc → 0 < p < 2 ^ 31 →
  (∀ q, q ≠ p → q ∉ f' → q ∉ f) → daemons_inv (Daemons l (<[p := pc]> m) f').
Proof.
  intros [H1 H2 H3 H4] Hpc Hp Hf. split; cbn [ds_lock ds_procs ds_failed] in *.
  - intros q pc' [[<- <-]|[_ Hq]]%lookup_insert_Some Hh; [done|by eapply H1].
  - intros q pc' [[<- _]|[_ Hq]]%lookup_insert_Some; [done|by eapply H2].
  - intros q [[_ ->]|[Hne Hq]]%lookup_insert_Some Hqf; [|by eapply H3; [|apply Hf]]. destruct Hpc. right. by left.
  - intros q [[_ ->]|[Hne Hq]]%lookup_insert_Some Hqf; [|by eapply H4; [|apply Hf]]. destruct Hpc. right. by right.
Qed.

(** A process moves with the lock; nobody else has it. *)
Lemma inv_hold l m f f' p pc l' : daemons_inv (Daemons l m f) → 0 < p < 2 ^ 31 → lk_owner l' = Some p →
  (∀ q pc', m !! q = Some pc' → holds pc' → q = p) →
  (pc = AWrite → p ∉ f' → lk_data l' = []) → (pc = AReturned 0 → p ∉ f' → lk_data l' = pid_text p) →
  daemons_inv (Daemons l' (<[p := pc]> m) f').
Proof.
  intros [H1 H2 H3 H4] Hp Ho Hq Hw Hr. split; cbn [ds_lock ds_procs ds_failed] in *.
  - intros q pc' [[<- _]|[Hne Hl]]%lookup_insert_Some Hh; [done|]. by destruct Hne; rewrite (Hq q pc' Hl Hh).
  - intros q pc' [[<- _]|[_ Hl]]%lookup_insert_Some; [done|by eapply H2].
  - intros q [[<- E]|[Hne Hl]]%lookup_insert_Some; [by apply Hw|]. destruct Hne. symmetry. eapply Hq; [exact Hl|]. right. by left.
  - intros q [[<- E]|[Hne Hl]]%lookup_insert_Some; [by apply Hr|]. destruct Hne. symmetry. eapply Hq; [exact Hl|]. right. by right.
Qed.

Lemma put_at_nil s : put_at [] 0 s = s.
Proof. rewrite put_at_0, drop_nil. apply app_nil_r. Qed.

Lemma daemons_step_inv d d' : daemons_inv d → daemons_step d d' → daemons_inv d'.
Proof.
  intros Hd Hstep. pose proof Hd as [H1 H2 H3 H4]. destruct Hstep as [l m f p Hp Hr|l m f p Hp|l m f p l' Hp Hl|l m f p Hp Hl|
    l m f p Hp|l m f p ok l' Hp Hw|l m f p k l' Hp Hw|l m f p pc Hp]; cbn [ds_lock ds_procs ds_failed] in *.
  - eapply daemons_move; [done|by intros [|[]]|done|set_solver].
  - eapply daemons_move; [done|by intros [|[]]|by eapply H2|done].
  - unfold lockfile in Hl. destruct (lk_owner l) as [q|] eqn:Ho.
    + destruct (Z.eqb_spec q p) as [->|]; [|done]. injection Hl as <-.
      apply (inv_hold l _ f); try done; [by eapply H2|]. intros q pc Hq Hh. specialize (H1 q pc Hq Hh). congruence.
    + injection Hl as <-. apply (inv_hold l _ f); try done; [by eapply H2|].
      intros q pc Hq Hh. specialize (H1 q pc Hq Hh). congruence.
  - eapply daemons_move; [done|by intros [|[]]|by eapply H2|done].
  - eapply daemons_move; [done|intros [|[|[=]]]; done|by eapply H2|done].
  - assert (Ho : lk_owner l = Some p) by (eapply H1; [exact Hp|by left]).
    assert (Hl : lk_owner l' = Some p ∧ (ok = true → lk_data l' = [])).
    { unfold truncate_lock in Hw. destruct ok; by injection Hw as <-. }
    destruct Hl as [Ho' Hd']. apply (inv_hold l _ f); try done; [by eapply H2| |].
    + intros q pc Hq Hh. specialize (H1 q pc Hq Hh). congruence.
    + intros _ Hn. apply Hd'. destruct ok; [done|]. set_solver.
  - assert (Ho : lk_owner l = Some p) by (eapply H1; [exact Hp|right; by left]).
    rewrite write_pid_spec in Hw by (by eapply H2). injection Hw as <-.
    apply (inv_hold l _ f); try done; [by eapply H2| |].
    + intros q pc Hq Hh. specialize (H1 q pc Hq Hh). congruence.
    + intros _ Hn. unfold update. cbn [lk_data]. unfold note in Hn.
      destruct (Nat.leb_spec (length (pid_text p)) k); [|set_solver]. by rewrite (H3 p Hp), put_at_nil, take_ge.
  - assert (Hl : ∀ q pc', delete p m !! q = Some pc' → holds pc' →
      (if decide (lk_owner l = Some p) then l <| lk_owner := None |> else l) = l).
    { intros q pc' [Hne Hq]%lookup_delete_Some Hh. specialize (H1 q pc' Hq Hh). case_decide; [|done]. congruence. }
    split; cbn [ds_lock ds_procs ds_failed].
    + intros q pc' Hq Hh. rewrite (Hl q pc' Hq Hh). apply lookup_delete_Some in Hq as [_ Hq]. by eapply H1.
    + intros q pc' [_ Hq]%lookup_delete_Some. by eapply H2.
    + intros q Hq Hf. rewrite (Hl q _ Hq) by (right; by left). apply lookup_delete_Some in Hq as [_ Hq]. by eapply H3.
    + intros q Hq Hf. rewrite (Hl q _ Hq) by (right; by right). apply lookup_delete_Some in Hq as [_ Hq]. by eapply H4.
Qed.

(** ** Properties *)

(** C29: A process gets out of a version of daemonize only when getrlimit, both forks,
    sigaction, chdir and the opening of /dev/null and of the log file have succeeded; if one
    of them fails it ends (a limit of descriptors that does not fit an int is undefined), and
    my_daemonize without a name does nothing.  What the three versions make of a process
    when no call fails: the original process and its child have exited with 0; the process that goes on is not the
    leader of its session and the session has no terminal, so that no open can give it
    one; file mode mask 0, directory /, SIGHUP ignored; descriptor 0 is /dev/null, 1 and 2
    are /dev/null (lib) or the log file with the name of the process (init.c,
    my_daemonize), every other descriptor below the limit is closed. *)
Theorem daemonize_daemon c s cmd :
  ends_unless c (daemonize c) s (λ _ _, succeeded c s (λ _, None)) ∧
  ends_unless c (init_daemonize c) s (λ _ _, succeeded c s (λ p, Some (log_name p))) ∧
  ends_unless c (my_daemonize c (Some cmd)) s (λ _ _, succeeded c s (λ p, Some (my_log_name cmd p))) ∧
  my_daemonize c None s = Done tt s ∧
  ∀ p1 p2 fs, calls_succeed c s p1 p2 fs → p1 ≠ p2 ∧ 0 <= p2 < 2 ^ 31 →
  ∃ d1 d2 d3, daemonize c s = Done tt d1 ∧ init_daemonize c s = Done tt d2 ∧ my_daemonize c (Some cmd) s = Done tt d3 ∧
  (∀ d, d ∈ [d1; d2; d3] → d_pid d = p2 ∧ d_sid d ≠ d_pid d ∧ d_tty d = false ∧ d_umask d = 0 ∧ d_cwd d = str "/" ∧
    d_ignore_hup d = true ∧ d_gone d = d_gone s ++ [(d_pid s, 0); (p1, 0)] ∧ d_fds d !! 0 = Some DEVNULL ∧
    d_fds d !! 1 = d_fds d !! 2 ∧
    ∀ i, i ≠ 0 → i ≠ 1 → i ≠ 2 → d_fds d !! i = if decide (0 <= i < limit_of c) then None else d_fds s !! i) ∧
  d_fds d1 !! 1 = Some DEVNULL ∧
  d_fds d2 !! 1 = Some (str "/var/log/apue/daemon_log." ++ dec p2) ∧
  d_fds d3 !! 1 = Some (my_log_name cmd p2).
Proof.
  split_and!; [apply daemonize_ends|apply init_daemonize_ends|apply my_daemonize_ends|done|].
  intros p1 p2 fs Hcalls [Hne Hp2]. pose proof (cs_range _ _ _ _ _ Hcalls) as Hr.
  eexists _, _, _. split; [by apply (daemonize_spec c s p1 p2 fs)|]. split; [by apply (init_daemonize_spec c s p1 p2 fs)|].
  split; [by apply (my_daemonize_spec c s p1 p2 fs)|].
  assert (Hcommon : ∀ a b, daemon_fds (limit_of c) a b (d_fds s) !! 0 = Some a ∧
    daemon_fds (limit_of c) a b (d_fds s) !! 1 = Some b ∧ daemon_fds (limit_of c) a b (d_fds s) !! 2 = Some b ∧
    ∀ i, i ≠ 0 → i ≠ 1 → i ≠ 2 → daemon_fds (limit_of c) a b (d_fds s) !! i =
      if decide (0 <= i < limit_of c) then None else d_fds s !! i).
  { intros a b. split_and!; [| | |intros i H0 H1 H2]; rewrite daemon_fds_lookup by lia.
    - done.
    - done.
    - done.
    - rewrite (decide_False (P := i = 0)) by done. by rewrite decide_False by tauto. }
  split; [|split; [|split]].
  - intros d Hd. assert (∃ b o, d = Daemon p2 p1 false 0 (str "/") true (daemon_fds (limit_of c) DEVNULL b (d_fds s)) fs
      (d_gone s ++ [(d_pid s, 0); (p1, 0)]) o) as (b & o & ->).
    { rewrite !elem_of_cons, elem_of_nil in Hd. destruct Hd as [->|[->|[->|[]]]]; by eexists _, _. }
    destruct (Hcommon DEVNULL b) as (H0 & H1 & H2 & H3). cbn [d_pid d_sid d_tty d_umask d_cwd d_ignore_hup d_gone d_fds].
    split_and!; try done. by rewrite H1, H2.
  - apply (Hcommon DEVNULL DEVNULL).
  - rewrite <- log_name_fits by done. apply (Hcommon DEVNULL (log_name p2)).
  - apply (Hcommon DEVNULL (my_log_name cmd p2)).
Qed.

(** C30: Of any number of daemons that call already_running at the same time, that end at any
    moment and are started again, at most one has got 0 and goes on; while it runs it has
    the lock on the file, and the file holds exactly its process number, unless its ftruncate
    or its write has failed, which the code ignores; a process gets 1 only when another has
    the lock at that moment. *)
Theorem single_instance data d (Hreach : rtc daemons_step (Daemons (Lockf data None) ∅ ∅) d) :
  (∀ p q, ds_procs d !! p = Some (AReturned 0) → ds_procs d !! q = Some (AReturned 0) → p = q) ∧
  (∀ p, ds_procs d !! p = Some (AReturned 0) →
    lk_owner (ds_lock d) = Some p ∧ (p ∉ ds_failed d → lk_data (ds_lock d) = dec p ++ [NUL]) ∧ ∀ q, q ≠ p → lockfile q (ds_lock d) = None) ∧
  (∀ p, lockfile p (ds_lock d) = None → ∃ q, q ≠ p ∧ lk_owner (ds_lock d) = Some q).
Proof.
  assert (Hinv : daemons_inv d).
  { remember (Daemons (Lockf data None) ∅ ∅) as d0 eqn:E. assert (H0 : daemons_inv d0) by (subst; by split; intros ? ?).
    clear E. induction Hreach as [|d0 d1 d2 Hstep _ IH]; [done|]. apply IH. by eapply daemons_step_inv. }
  destruct Hinv as [H1 H2 H3 H4]. assert (Hown : ∀ p, ds_procs d !! p = Some (AReturned 0) → lk_owner (ds_lock d) = Some p).
  { intros p Hp. eapply H1; [exact Hp|right; by right]. }
  split_and!.
  - intros p q Hp Hq. apply Hown in Hp, Hq. congruence.
  - intros p Hp. split_and!; [by apply Hown|by apply H4|]. intros q Hne. unfold lockfile. rewrite (Hown p Hp).
    destruct (Z.eqb_spec p q); congruence.
  - intros p. unfold lockfile. destruct (lk_owner (ds_lock d)) as [q|]; [|done].
    destruct (Z.eqb_spec q p); [done|]. intros _. by exists q.
Qed.

(** The thread goes on until SIGTERM. *)
Lemma thr_fn_sigterm sigs : Forall (λ s, ∃ n, s = Some n ∧ n ≠ SIGTERM) sigs → ∀ o,
  ∃ o', thr_fn (sigs ++ [Some SIGTERM]) o = Fatal (Exit 0) (o ++ o' ++ [str "got SIGTERM; exiting "]) ∧ length o' = length sigs.
Proof.
  induction 1 as [|s sigs (n & -> & Hn) _ IH]; intros o; cbn [app thr_fn].
  - by exists [].
  - rewrite (proj2 (Z.eqb_neq n SIGTERM) Hn). destruct (n =? SIGHUP); rewrite bind_modify.
    + destruct (IH (o ++ [str "Re-reading configuration file "])) as (o' & E & Hl).
      exists (str "Re-reading configuration file " :: o'). rewrite E, <- app_assoc. split; [done|]. cbn. by rewrite Hl.
    + destruct (IH (o ++ [str "unexpected signal " ++ dec n])) as (o' & E & Hl).
      exists ((str "unexpected signal " ++ dec n) :: o'). rewrite E, <- app_assoc. split; [done|]. cbn. by rewrite Hl.
Qed.

(** ** Witnesses *)

Definition login_shell : daemon := Daemon 100 90 true 18 (str "/home") false
  {[0 := str "/dev/tty"; 1 := str "/dev/tty"; 2 := str "/dev/tty"; 5 := str "/home/x"]} [Some 101; Some 102] [] [].
Definition all_succeed : daemon_calls := DaemonCalls (IoOk (Some 64)) true true (λ _, true).

Lemma daemonize_daemon_witness : ∃ d, daemonize all_succeed login_shell = Done tt d ∧ d_pid d = 102 ∧ d_sid d ≠ d_pid d ∧
  d_gone d = [(100, 0); (101, 0)] ∧ d_fds d !! 1 = Some DEVNULL ∧ d_fds d !! 5 = None.
Proof.
  assert (Hc : calls_succeed all_succeed login_shell 101 102 []).
  { split; [by eexists|by vm_compute|done|done|done|done]. }
  destruct (daemonize_daemon all_succeed login_shell (str "cmd")) as (_ & _ & _ & _ & Hd).
  destruct (Hd 101 102 [] Hc ltac:(lia)) as (d1 & d2 & d3 & E1 & _ & _ & H & H1 & _).
  destruct (H d1 ltac:(left)) as (Hp & Hs & _ & _ & _ & _ & Hg & _ & _ & Hi).
  exists d1. split_and!; try done. by rewrite (Hi 5).
Defined.

Lemma single_instance_witness : ∃ d, rtc daemons_step (Daemons (Lockf [] None) ∅ ∅) d ∧ ds_procs d !! 7 = Some (AReturned 0) ∧
  lk_data (ds_lock d) = str "7" ++ [NUL].
Proof.
  set (l := Lockf (str "7" ++ [NUL]) (Some 7)).
  assert (Hrun : rtc daemons_step (Daemons (Lockf [] None) ∅ ∅)
    (Daemons l (<[7 := AReturned 0]> (<[7 := AWrite]> (<[7 := ATruncate]> (<[7 := ALock]> (<[7 := AOpen]> ∅))))) (∅ ∖ {[7]}))).
  { eapply rtc_l; [by apply (step_start _ _ _ 7)|]. eapply rtc_l; [by apply (step_open _ _ _ 7); rewrite lookup_insert_eq|].
    eapply rtc_l; [by eapply (step_lock _ _ _ 7); [rewrite lookup_insert_eq|]|].
    eapply rtc_l; [by eapply (step_truncate _ _ _ 7 true); [rewrite lookup_insert_eq|]|].
    apply rtc_once. by eapply (step_write _ _ _ 7 2); [rewrite lookup_insert_eq|]. }
  eexists. split; [exact Hrun|]. destruct (single_instance [] _ Hrun) as (_ & H & _). cbn [ds_procs ds_lock ds_failed] in *.
  split; [apply lookup_insert_eq|]. destruct (H 7 (lookup_insert_eq _ _ _)) as (_ & Hd & _). apply Hd. set_solver.
Defined.
