(* ===== verification/TellWait.v ===== *)
(** * Synchronising parent and child: lib/tellwait.c with signals, ipc1/tellwait.c with
    pipes, and the programs that use them (ipc1/devzero.c, proc/tellwait2.c).

    A process is a list of operations; the routines for parent and child mirror each other
    and are one definition each.  A step is what a process does between two moments at
    which a signal can come: [step w] is the next step of process [w], [None] when it is
    blocked or has finished, so that a schedule, a list of processes, is an execution. *)
From Stdlib Require Import Ascii ZArith Lia.
From stdpp Require Import base strings gmap option list.
From S2P Require Import Prelude.

Inductive who := Parent | Child.
#[export] Instance who_eq_dec : EqDecision who.
Proof. solve_decision. Defined.
Definition other (w : who) : who := match w with Parent => Child | Child => Parent end.

(** [Update i]: update() of devzero.c, whose result must be [i]; [Tell]: TELL_CHILD or
    TELL_PARENT; [Wait]: WAIT_CHILD or WAIT_PARENT; [Work n]: anything else. *)
Inductive op := Update (i : Z) | Tell | Wait | Work (n : nat).
#[export] Instance op_eq_dec : EqDecision op.
Proof. solve_decision. Defined.

(** ** The programs *)

(** main of devzero.c, rounds [k], ..., [k + n - 1]; NLOOPS is twice the number of rounds. *)
Fixpoint devzero_parent (n : nat) (i : Z) : list op :=
  match n with O => [] | S n' => Update i :: Tell :: Wait :: devzero_parent n' (i + 2) end.
Fixpoint devzero_child (n : nat) (i : Z) : list op :=
  match n with O => [] | S n' => Wait :: Update i :: Tell :: devzero_child n' (i + 2) end.
Definition NLOOPS : nat := 1000.
Definition devzero_ops (n : nat) (w : who) : list op :=
  match w with Parent => devzero_parent n 0 | Child => devzero_child n 1 end.

(** proc/tellwait2.c: the parent writes its line first. *)
Definition tellwait2_ops (w : who) : list op :=
  match w with Parent => [Work 1; Tell; Wait] | Child => [Wait; Work 2; Tell] end.

(** advio/deadlock.c, between the forks and the second locks. *)
Definition deadlock_ops (w : who) : list op :=
  match w with Parent => [Work 1; Tell; Wait; Work 3] | Child => [Work 2; Tell; Wait; Work 4] end.

(** ** With signals *)

Module Sig.
(** Where a process is in WAIT_PARENT or WAIT_CHILD: at the test of sigflag, before and in
    sigsuspend, before sigflag = 0, before sigprocmask. *)
Inductive wpc := WNone | WTest | WEnter | WAsleep | WClear | WUnmask.

(** sigflag, whether the signals are blocked, whether one is pending. *)
Record sproc := SProc { s_flag : bool; s_blocked : bool; s_pending : bool; s_wait : wpc; s_ops : list op }.
Record sys := Sys { s_parent : sproc; s_child : sproc; s_counter : Z; s_failed : bool; s_trace : list nat }.

Definition proc (w : who) (s : sys) : sproc := match w with Parent => s_parent s | Child => s_child s end.
Definition set_proc (w : who) (p : sproc) (s : sys) : sys :=
  match w with
  | Parent => Sys p (s_child s) (s_counter s) (s_failed s) (s_trace s)
  | Child => Sys (s_parent s) p (s_counter s) (s_failed s) (s_trace s)
  end.

(** After TELL_WAIT and fork. *)
Definition start (ops : who → list op) : sys :=
  Sys (SProc false true false WNone (ops Parent)) (SProc false true false WNone (ops Child)) 0 false [].

(** kill: a blocked signal becomes pending; else the handler sets sigflag, and a process in
    sigsuspend goes on, with the mask it had. *)
Definition raise (p : sproc) : sproc :=
  match s_wait p with
  | WAsleep => SProc true (s_blocked p) false WTest (s_ops p)
  | pc => if s_blocked p then SProc (s_flag p) true true pc (s_ops p)
          else SProc true false (s_pending p) pc (s_ops p)
  end.

(** A step inside of a wait; the last one unblocks the signals. *)
Definition wait_step (p : sproc) : option sproc :=
  match s_wait p with
  | WNone => None
  | WTest => Some (SProc (s_flag p) (s_blocked p) (s_pending p) (if s_flag p then WClear else WEnter) (s_ops p))
  | WEnter =>
      Some (if s_pending p then SProc true (s_blocked p) false WTest (s_ops p)
            else SProc (s_flag p) (s_blocked p) false WAsleep (s_ops p))
  | WAsleep => None
  | WClear => Some (SProc false (s_blocked p) (s_pending p) WUnmask (s_ops p))
  | WUnmask => Some (SProc (s_flag p || s_pending p) false false WNone (tail (s_ops p)))
  end.

Definition step (w : who) (s : sys) : option sys :=
  let p := proc w s in
  if s_failed s then None
  else
    match s_wait p with
    | WNone =>
        match s_ops p with
        | [] => None
        | Update i :: r =>
            Some (if s_counter s =? i then
                    let s := set_proc w (SProc (s_flag p) (s_blocked p) (s_pending p) WNone r) s in
                    Sys (s_parent s) (s_child s) (s_counter s + 1) (s_failed s) (s_trace s)
                  else Sys (s_parent s) (s_child s) (s_counter s + 1) true (s_trace s))
        | Work n :: r =>
            let s := set_proc w (SProc (s_flag p) (s_blocked p) (s_pending p) WNone r) s in
            Some (Sys (s_parent s) (s_child s) (s_counter s) (s_failed s) (s_trace s ++ [n]))
        | Tell :: r =>
            let s := set_proc w (SProc (s_flag p) (s_blocked p) (s_pending p) WNone r) s in
            Some (set_proc (other w) (raise (proc (other w) s)) s)
        | Wait :: r => Some (set_proc w (SProc (s_flag p) (s_blocked p) (s_pending p) WTest (Wait :: r)) s)
        end
    | _ => (λ p, set_proc w p s) <$> wait_step p
    end.
End Sig.

(** ** With pipes *)

Module Pipe.
(** pfd1 carries the parent's bytes, pfd2 the child's. *)
Record sys := Sys {
  p_parent : list op; p_child : list op; p_pfd1 : list ascii; p_pfd2 : list ascii;
  p_counter : Z; p_failed : bool; p_trace : list nat }.

Definition ops (w : who) (s : sys) : list op := match w with Parent => p_parent s | Child => p_child s end.
Definition set_ops (w : who) (l : list op) (s : sys) : sys :=
  match w with
  | Parent => Sys l (p_child s) (p_pfd1 s) (p_pfd2 s) (p_counter s) (p_failed s) (p_trace s)
  | Child => Sys (p_parent s) l (p_pfd1 s) (p_pfd2 s) (p_counter s) (p_failed s) (p_trace s)
  end.
Definition start (ops : who → list op) : sys := Sys (ops Parent) (ops Child) [] [] 0 false [].

(** write of TELL_CHILD and TELL_PARENT. *)
Definition tell (w : who) (s : sys) : sys :=
  match w with
  | Parent => Sys (p_parent s) (p_child s) (p_pfd1 s ++ ["p"%char]) (p_pfd2 s) (p_counter s) (p_failed s) (p_trace s)
  | Child => Sys (p_parent s) (p_child s) (p_pfd1 s) (p_pfd2 s ++ ["c"%char]) (p_counter s) (p_failed s) (p_trace s)
  end.

(** read of WAIT_CHILD and WAIT_PARENT; [None]: it blocks. *)
Definition wait (w : who) (s : sys) : option sys :=
  match w with
  | Parent =>
      match p_pfd2 s with
      | [] => None
      | c :: r => Some (Sys (p_parent s) (p_child s) (p_pfd1 s) r (p_counter s) (negb (Ascii.eqb c "c"%char)) (p_trace s))
      end
  | Child =>
      match p_pfd1 s with
      | [] => None
      | c :: r => Some (Sys (p_parent s) (p_child s) r (p_pfd2 s) (p_counter s) (negb (Ascii.eqb c "p"%char)) (p_trace s))
      end
  end.

Definition step (w : who) (s : sys) : option sys :=
  if p_failed s then None
  else
    match ops w s with
    | [] => None
    | Update i :: r =>
        let s' := set_ops w r s in
        Some (Sys (p_parent s') (p_child s') (p_pfd1 s') (p_pfd2 s') (p_counter s + 1) (negb (p_counter s =? i)) (p_trace s'))
    | Work n :: r =>
        let s' := set_ops w r s in
        Some (Sys (p_parent s') (p_child s') (p_pfd1 s') (p_pfd2 s') (p_counter s') (p_failed s') (p_trace s' ++ [n]))
    | Tell :: r => Some (tell w (set_ops w r s))
    | Wait :: r => wait w (set_ops w r s)
    end.
End Pipe.

(** An execution: the processes that step. *)
Fixpoint run {S} (step : who → S → option S) (sched : list who) (s : S) : option S :=
  match sched with
  | [] => Some s
  | w :: sched' => s' ← step w s; run step sched' s'
  end.
