(* ===== verification/TellWaitProps.v ===== *)
(** * Properties of the synchronisation of parent and child. *)
From Stdlib Require Import Ascii ZArith Lia.
From stdpp Require Import base strings gmap option list.
From S2P Require Import Prelude TellWait.

Definition count_op (o : op) (l : list op) : nat := length (filter (λ x, x = o) l).

Lemma count_op_cons o x l : count_op o (x :: l) = ((if decide (x = o) then 1 else 0) + count_op o l)%nat.
Proof. unfold count_op. rewrite filter_cons. by case_decide. Qed.

(** An operation of the program that has been carried out. *)
Definition executed (o : op) (ops : who → list op) (w : who) (left : list op) : bool :=
  (count_op o left <? count_op o (ops w))%nat.

Lemma run_inv {S} (step : who → S → option S) (I : S → Prop) sched : ∀ s s',
  (∀ w s s', I s → step w s = Some s' → I s') → I s → run step sched s = Some s' → I s'.
Proof.
  induction sched as [|w sched IH]; intros s s' Hstep Hs Hrun; simpl in Hrun; [by injection Hrun as <-|].
  destruct (step w s) as [s1|] eqn:E; [|done]. simpl in Hrun. apply (IH s1); [done|by eapply Hstep|done].
Qed.

(** ** Signals *)

Section signals.
Import Sig.
Context (ops : who → list op).
Context (Honce : ∀ w, (count_op Tell (ops w) <= 1)%nat ∧ (count_op Wait (ops w) <= 1)%nat).

Definition left (w : who) (s : sys) : list op := s_ops (proc w s).
(** Process [w] has told; it has waited. *)
Definition told (w : who) (s : sys) : bool := executed Tell ops w (left w s).
Definition waited (w : who) (s : sys) : bool := executed Wait ops w (left w s).

(** The state of the signal that [p] waits for; [t]: it has been sent. *)
Definition sig_ok (t : bool) (waited : bool) (p : sproc) : Prop :=
  if waited then s_wait p = WNone ∧ s_blocked p = false ∧ s_pending p = false ∧ s_flag p = false ∧ t = true
  else s_blocked p = true ∧
    match s_wait p with
    | WNone | WEnter => s_flag p = false ∧ s_pending p = t
    | WTest => (s_flag p = false ∧ s_pending p = t) ∨ (s_flag p = true ∧ s_pending p = false ∧ t = true)
    | WAsleep => s_flag p = false ∧ s_pending p = false ∧ t = false
    | WClear => s_flag p = true ∧ s_pending p = false ∧ t = true
    | WUnmask => s_flag p = false ∧ s_pending p = false ∧ t = true
    end ∧
    (s_wait p ≠ WNone → head (s_ops p) = Some Wait).

Definition sig_inv (s : sys) : Prop :=
  ∀ w, sig_ok (told (other w) s) (waited w s) (proc w s) ∧
    (count_op Tell (left w s) <= count_op Tell (ops w))%nat ∧ (count_op Wait (left w s) <= count_op Wait (ops w))%nat.

Lemma proc_set w w' p s : proc w' (set_proc w p s) = if decide (w = w') then p else proc w' s.
Proof. by destruct w, w'. Qed.

Lemma other_ne w : other w ≠ w.
Proof. by destruct w. Qed.
Lemma who_cases w w' : w' = w ∨ w' = other w.
Proof. destruct w, w'; auto. Qed.

(** Only [w] moves, and does not tell. *)
Lemma sig_move s s' w : sig_inv s → proc (other w) s' = proc (other w) s →
  count_op Tell (left w s') = count_op Tell (left w s) →
  (count_op Wait (left w s') <= count_op Wait (left w s))%nat →
  sig_ok (told (other w) s) (waited w s') (proc w s') → sig_inv s'.
Proof.
  intros Hs Ho Ht Hw Hok w'. assert (Hto : told (other w) s' = told (other w) s) by (unfold told, left; by rewrite Ho).
  destruct (Hs w) as (_ & Hc1 & Hc2). destruct (Hs (other w)) as (Hok' & Hc3 & Hc4).
  destruct (who_cases w w') as [->| ->].
  - rewrite Hto. split; [done|]. split; [by rewrite Ht|lia].
  - unfold left in *. rewrite Ho. split; [|done]. destruct w; cbn [other] in *.
    + replace (told Parent s') with (told Parent s) by (unfold told, executed, left; by rewrite Ht).
      replace (waited Child s') with (waited Child s) by (unfold waited, left; by rewrite Ho). done.
    + replace (told Child s') with (told Child s) by (unfold told, executed, left; by rewrite Ht).
      replace (waited Parent s') with (waited Parent s) by (unfold waited, left; by rewrite Ho). done.
Qed.

Lemma sig_start : sig_inv (start ops).
Proof.
  intros w. unfold left, told, waited, executed, left.
  replace (s_ops (proc w (start ops))) with (ops w) by (by destruct w).
  replace (s_ops (proc (other w) (start ops))) with (ops (other w)) by (by destruct w).
  rewrite !Nat.ltb_irrefl. split; [|done]. by destruct w.
Qed.

(** A step inside of a wait. *)
Lemma wait_step_ok t p p' wt : sig_ok t wt p → wait_step p = Some p' → (count_op Wait (s_ops p) <= 1)%nat →
  s_wait p ≠ WNone ∧ wt = false ∧
  ((s_ops p' = s_ops p ∧ sig_ok t false p') ∨ (s_ops p = Wait :: s_ops p' ∧ sig_ok t true p')).
Proof.
  intros Hok Hstep Hc. unfold sig_ok in *. destruct wt; [destruct Hok as (E & _); unfold wait_step in Hstep; by rewrite E in Hstep|].
  destruct Hok as (Hb & Hpc & Hhd). unfold wait_step in Hstep. destruct p as [fl bl pe pc ops']. cbn in *.
  destruct pc; try done; specialize (Hhd ltac:(done)); injection Hstep as <-; cbn in *; (split; [done|]); (split; [done|]).
  - left. split; [done|]. destruct Hpc as [[-> ->]|(-> & -> & ->)]; cbn; by split_and!.
  - left. split; [by destruct pe|]. destruct Hpc as [-> ->]. destruct t; cbn; split_and!; auto.
  - left. split; [done|]. by destruct Hpc as (-> & -> & ->).
  - right. destruct Hpc as (-> & -> & ->). destruct ops' as [|o r]; [done|].
    injection Hhd as ->. by split_and!.
Qed.

(** The signal arrives; it has not been sent before. *)
Lemma raise_ok p wt : sig_ok false wt p → sig_ok true wt (raise p) ∧ s_ops (raise p) = s_ops p.
Proof.
  unfold sig_ok, raise. destruct p as [fl bl pe pc ops']. destruct wt; cbn.
  - by intros (-> & -> & -> & -> & [=]).
  - intros (-> & Hpc & Hhd). destruct pc; cbn in *; destruct_and?; subst; (split; [|done]); split_and!; auto.
    destruct Hpc as [[-> ->]|(_ & _ & [=])]. by left.
Qed.

Lemma sig_wait_step w s p' : sig_inv s → wait_step (proc w s) = Some p' → sig_inv (set_proc w p' s).
Proof.
  intros Hs E. destruct (Hs w) as (Hok & Hc1 & Hc2). destruct (Honce w) as [Ht1 Hw1].
  destruct (wait_step_ok _ _ _ _ Hok E) as (_ & Hwt & Hcase); [unfold left in Hc2; lia|].
  assert (Hp : proc w (set_proc w p' s) = p') by (rewrite proc_set; by rewrite decide_True).
  apply (sig_move s _ w Hs); [by destruct w| | |]; unfold left, waited, executed, left in *; rewrite Hp.
  - by destruct Hcase as [[-> _]|[-> _]].
  - destruct Hcase as [[-> _]|[-> _]]; [done|]. rewrite count_op_cons. lia.
  - destruct Hcase as [[-> H]|[E' H]]; [by rewrite Hwt|]. rewrite E', count_op_cons, decide_True in Hc2 by done.
    by rewrite (proj2 (Nat.ltb_lt _ _)) by lia.
Qed.

(** Any operation but Tell and Wait. *)
Lemma sig_plain w s s' o r : sig_inv s → s_wait (proc w s) = WNone → s_ops (proc w s) = o :: r → o ≠ Tell → o ≠ Wait →
  proc w s' = SProc (s_flag (proc w s)) (s_blocked (proc w s)) (s_pending (proc w s)) WNone r →
  proc (other w) s' = proc (other w) s → sig_inv s'.
Proof.
  intros Hs Hw Ho Ht Hwt Hp Hoth. destruct (Hs w) as (Hok & _ & _).
  apply (sig_move s s' w Hs Hoth); unfold left, waited, executed, left in *; rewrite Hp, Ho in *; cbn [s_ops] in *;
    rewrite ?count_op_cons, ?decide_False in * by done; [done|done|].
  unfold sig_ok in *. rewrite Hw in Hok. cbn [s_wait s_flag s_blocked s_pending]. destruct (_ <? _)%nat; [done|].
  by destruct Hok as (-> & Hf & _).
Qed.

Lemma sig_wait_start w s r : sig_inv s → s_wait (proc w s) = WNone → s_ops (proc w s) = Wait :: r →
  sig_inv (set_proc w (SProc (s_flag (proc w s)) (s_blocked (proc w s)) (s_pending (proc w s)) WTest (Wait :: r)) s).
Proof.
  intros Hs Hw Ho. destruct (Hs w) as (Hok & _ & _). destruct (Honce w) as [_ Hw1].
  set (p' := SProc _ _ _ _ _). assert (Hp : proc w (set_proc w p' s) = p') by (rewrite proc_set; by rewrite decide_True).
  apply (sig_move s _ w Hs); [by destruct w| | |]; unfold left, waited, executed, left in *; rewrite Hp, Ho in *; try done.
  unfold p'. cbn [s_ops]. rewrite count_op_cons, decide_True in * by done.
  rewrite (proj2 (Nat.ltb_ge _ _)) in * by lia. unfold sig_ok in *. rewrite Hw in Hok. cbn.
  destruct Hok as (-> & (-> & ->) & _). split_and!; [done|by left|done].
Qed.

Lemma sig_tell w s r : sig_inv s → s_wait (proc w s) = WNone → s_ops (proc w s) = Tell :: r →
  let s1 := set_proc w (SProc (s_flag (proc w s)) (s_blocked (proc w s)) (s_pending (proc w s)) WNone r) s in
  sig_inv (set_proc (other w) (raise (proc (other w) s1)) s1).
Proof.
  intros Hs Hw Ho s1. destruct (Hs w) as (Hok & Hc1 & Hc2). destruct (Hs (other w)) as (Hoo & Hc3 & Hc4).
  destruct (Honce w) as [Ht1 _]. set (p1 := SProc _ _ _ WNone r) in s1.
  assert (Hp1 : proc w s1 = p1) by (unfold s1; rewrite proc_set; by rewrite decide_True).
  assert (Hp2 : proc (other w) s1 = proc (other w) s) by (unfold s1; rewrite proc_set; by destruct w).
  rewrite Hp2. set (q := raise (proc (other w) s)).
  assert (Hoow : other (other w) = w) by (by destruct w). rewrite Hoow in Hoo.
  assert (Hnt : told w s = false ∧ (count_op Tell r < count_op Tell (ops w))%nat ∧ count_op Wait r = count_op Wait (left w s)).
  { unfold told, executed, left in *. rewrite Ho in *. rewrite !count_op_cons, decide_True, decide_False in * by done.
    split; [apply Nat.ltb_ge; lia|]. split; lia. }
  destruct Hnt as (Hnt & Hlt & Hcw). rewrite Hnt in Hoo. destruct (raise_ok _ _ Hoo) as [Hq Hqo]. fold q in Hq, Hqo.
  set (s2 := set_proc (other w) q s1).
  assert (H1 : proc w s2 = p1) by (unfold s2; rewrite proc_set; by destruct w).
  assert (H2 : proc (other w) s2 = q) by (unfold s2; rewrite proc_set; by rewrite decide_True).
  intros w'. destruct (who_cases w w') as [->| ->]; rewrite ?Hoow; unfold told, waited, executed, left in *; rewrite ?H1, ?H2, ?Hqo.
  - cbn [s_ops p1]. split; [|split; [lia|rewrite Hcw; lia]]. rewrite Hcw. unfold sig_ok in *. rewrite Hw in Hok.
    cbn [s_wait s_flag s_blocked s_pending p1]. destruct (_ <? _)%nat in Hok |- *; [done|].
    destruct Hok as (-> & [-> ->] & _). split_and!; [done..|by intros []].
  - cbn [s_ops p1]. rewrite (proj2 (Nat.ltb_lt _ _) Hlt). by split_and!.
Qed.

Lemma sig_step w s s' : sig_inv s → step w s = Some s' → sig_inv s'.
Proof.
  intros Hs Hstep. unfold step in Hstep. destruct (s_failed s); [done|].
  destruct (s_wait (proc w s)) eqn:Hw;
    [|destruct (wait_step (proc w s)) as [p'|] eqn:E; [|done]; injection Hstep as <-; by apply sig_wait_step..].
  destruct (s_ops (proc w s)) as [|[i| | |n] r] eqn:Ho; [done|..]; injection Hstep as <-.
  - destruct (s_counter s =? i).
    + eapply (sig_plain w s _ (Update i) r); try done; by destruct w.
    + intros w'. specialize (Hs w'). by destruct w'.
  - by apply sig_tell.
  - by apply sig_wait_start.
  - eapply (sig_plain w s _ (Work n) r); try done; by destruct w.
Qed.
End signals.

(** ** Executions are finite *)

(** How far a process is in the operation at the head of its list. *)
Definition wait_progress (p : Sig.sproc) : nat :=
  match Sig.s_wait p with
  | Sig.WNone => 0
  | Sig.WTest => if Sig.s_flag p then 4 else 1
  | Sig.WEnter => 2
  | Sig.WAsleep => 3
  | Sig.WClear => 5
  | Sig.WUnmask => 6
  end.
Definition proc_left (p : Sig.sproc) : nat := 7 * length (Sig.s_ops p) - wait_progress p.
(** In a wait the operation is still there. *)
Definition in_wait (p : Sig.sproc) : Prop := Sig.s_wait p ≠ Sig.WNone → Sig.s_ops p ≠ [].

Lemma wait_progress_bound p : (wait_progress p <= 6)%nat.
Proof. unfold wait_progress. destruct (Sig.s_wait p); try destruct (Sig.s_flag p); lia. Qed.

Lemma raise_left p : in_wait p → (proc_left (Sig.raise p) <= proc_left p)%nat ∧ in_wait (Sig.raise p).
Proof.
  unfold in_wait, proc_left, Sig.raise, wait_progress. destruct p as [fl bl pe pc l]. cbn. intros Hl.
  destruct pc, bl; cbn; try destruct fl; (split; [lia|]); intros H; try (by destruct H); by apply Hl.
Qed.

Lemma wait_step_left p p' : in_wait p → Sig.wait_step p = Some p' → (proc_left p' < proc_left p)%nat ∧ in_wait p'.
Proof.
  unfold in_wait, proc_left, Sig.wait_step, wait_progress. destruct p as [fl bl pe pc l]. cbn.
  intros Hl H. destruct pc; try done; injection H as <-; cbn; specialize (Hl ltac:(done));
    destruct l as [|o l]; try done; destruct fl, pe; cbn; split; (done || lia).
Qed.

Definition sys_left (s : Sig.sys) : nat :=
  proc_left (Sig.s_parent s) + proc_left (Sig.s_child s) + (if Sig.s_failed s then 0 else 1).
Definition sys_in_wait (s : Sig.sys) : Prop := ∀ w, in_wait (Sig.proc w s).

Lemma sys_left_eq w s : sys_left s =
  (proc_left (Sig.proc w s) + proc_left (Sig.proc (other w) s) + (if Sig.s_failed s then 0 else 1))%nat.
Proof. unfold sys_left. destruct w; cbn; lia. Qed.

(** The operation [o] is done by [w], and [q] is the other process afterwards. *)
Lemma sig_op_left w s s' o r q : sys_in_wait s → Sig.s_failed s = false → Sig.s_wait (Sig.proc w s) = Sig.WNone →
  Sig.s_ops (Sig.proc w s) = o :: r → Sig.s_ops (Sig.proc w s') = r → Sig.s_wait (Sig.proc w s') = Sig.WNone →
  Sig.proc (other w) s' = q → (proc_left q <= proc_left (Sig.proc (other w) s))%nat → in_wait q → Sig.s_failed s' = false →
  (sys_left s' < sys_left s)%nat ∧ sys_in_wait s'.
Proof.
  intros Hs Hf Hw Ho Ho' Hw' Hq Hle Hiq Hf'. split.
  - rewrite (sys_left_eq w s'), (sys_left_eq w s), Hf, Hf', Hq. unfold proc_left at 1 3, wait_progress. rewrite Ho, Ho', Hw, Hw'. cbn [length]. lia.
  - intros w'. destruct (who_cases w w') as [->| ->]; [|by rewrite Hq]. intros H. by rewrite Hw' in H.
Qed.

Lemma sig_step_left w s s' : sys_in_wait s → Sig.step w s = Some s' → (sys_left s' < sys_left s)%nat ∧ sys_in_wait s'.
Proof.
  intros Hs Hstep. unfold Sig.step in Hstep. destruct (Sig.s_failed s) eqn:Hf; [done|].
  destruct (Sig.s_wait (Sig.proc w s)) eqn:Hw.
  2-6: destruct (Sig.wait_step (Sig.proc w s)) as [p'|] eqn:E; [|done]; injection Hstep as <-;
    destruct (wait_step_left _ _ (Hs w) E) as [Hlt Hin];
    (split; [rewrite (sys_left_eq w), (sys_left_eq w s), !proc_set, decide_True, decide_False by (done || by destruct w);
             replace (Sig.s_failed (Sig.set_proc w p' s)) with (Sig.s_failed s) by (by destruct w); lia
            |intros w'; rewrite proc_set; case_decide; [done|apply Hs]]).
  destruct (Sig.s_ops (Sig.proc w s)) as [|[i| | |n] r] eqn:Ho; [done|..]; injection Hstep as <-.
  - destruct (Sig.s_counter s =? i).
    + eapply (sig_op_left w s _ (Update i) r (Sig.proc (other w) s)); try done; try apply Hs; by destruct w.
    + split; [|intros w'; specialize (Hs w'); by destruct w']. unfold sys_left. cbn. rewrite Hf. lia.
  - destruct (raise_left (Sig.proc (other w) s) (Hs (other w))) as [Hle Hin].
    eapply (sig_op_left w s _ Tell r (Sig.raise (Sig.proc (other w) s))); try done; by destruct w.
  - split.
    + rewrite (sys_left_eq w), (sys_left_eq w s), !proc_set, decide_True, decide_False by (done || by destruct w).
      replace (Sig.s_failed (Sig.set_proc w _ s)) with (Sig.s_failed s) by (by destruct w).
      unfold proc_left at 1 3, wait_progress. rewrite Ho, Hw. cbn [Sig.s_ops Sig.s_wait Sig.s_flag length].
      destruct (Sig.s_flag _); lia.
    + intros w'. rewrite proc_set. case_decide; [|apply Hs]. by intros _.
  - eapply (sig_op_left w s _ (Work n) r (Sig.proc (other w) s)); try done; try apply Hs; by destruct w.
Qed.

Lemma sig_run_length sched : ∀ s s', sys_in_wait s → run Sig.step sched s = Some s' → (length sched <= sys_left s)%nat.
Proof.
  induction sched as [|w sched IH]; intros s s' Hs Hrun; cbn [length run] in *; [lia|].
  destruct (Sig.step w s) as [s1|] eqn:E; [|done]. cbn in Hrun. destruct (sig_step_left w s s1 Hs E) as [Hlt Hs1].
  specialize (IH s1 s' Hs1 Hrun). lia.
Qed.

(** ** Pipes: the rounds of devzero.c *)

Section pipes.
Import Pipe.

(** Where the two processes are in round [k] of [n]; the counter is at [i]. *)
Inductive phase (n : nat) : sys → Prop :=
  | ph_parent k i tr : i = 2 * (Z.of_nat n - Z.of_nat k) → (k <= n)%nat →
      phase n (Sys (devzero_parent k i) (devzero_child k (i + 1)) [] [] i false tr)
  | ph_tell k i tr : i = 2 * (Z.of_nat n - Z.of_nat (S k)) → (S k <= n)%nat →
      phase n (Sys (Tell :: Wait :: devzero_parent k (i + 2)) (devzero_child (S k) (i + 1)) [] [] (i + 1) false tr)
  | ph_told k i tr : i = 2 * (Z.of_nat n - Z.of_nat (S k)) → (S k <= n)%nat →
      phase n (Sys (Wait :: devzero_parent k (i + 2)) (devzero_child (S k) (i + 1)) ["p"%char] [] (i + 1) false tr)
  | ph_child k i tr : i = 2 * (Z.of_nat n - Z.of_nat (S k)) → (S k <= n)%nat →
      phase n (Sys (Wait :: devzero_parent k (i + 2)) (Update (i + 1) :: Tell :: devzero_child k (i + 1 + 2)) [] [] (i + 1) false tr)
  | ph_child_tell k i tr : i = 2 * (Z.of_nat n - Z.of_nat (S k)) → (S k <= n)%nat →
      phase n (Sys (Wait :: devzero_parent k (i + 2)) (Tell :: devzero_child k (i + 1 + 2)) [] [] (i + 2) false tr)
  | ph_child_told k i tr : i = 2 * (Z.of_nat n - Z.of_nat (S k)) → (S k <= n)%nat →
      phase n (Sys (Wait :: devzero_parent k (i + 2)) (devzero_child k (i + 1 + 2)) [] ["c"%char] (i + 2) false tr).

Ltac phase_lengths := cbn [p_parent p_child devzero_parent devzero_child length]; lia.

Definition finished (s : sys) : Prop := p_parent s = [] ∧ p_child s = [].

Lemma phase_step n s : phase n s →
  (finished s ∧ p_counter s = 2 * Z.of_nat n ∧ p_failed s = false) ∨
  ∃ w s', step w s = Some s' ∧ step (other w) s = None ∧ phase n s' ∧
    (length (p_parent s') + length (p_child s') < length (p_parent s) + length (p_child s))%nat.
Proof.
  intros [k i tr Hi Hk|k i tr Hi Hk|k i tr Hi Hk|k i tr Hi Hk|k i tr Hi Hk|k i tr Hi Hk].
  - destruct k as [|k]; [left; cbn; split_and!; (done || lia)|right].
    exists Parent, (Sys (Tell :: Wait :: devzero_parent k (i + 2)) (devzero_child (S k) (i + 1)) [] [] (i + 1) false tr).
    split; [unfold step; cbn; by rewrite Z.eqb_refl|]. split; [done|]. split; [by apply ph_tell|phase_lengths].
  - right. exists Parent, (Sys (Wait :: devzero_parent k (i + 2)) (devzero_child (S k) (i + 1)) ["p"%char] [] (i + 1) false tr).
    split; [done|]. split; [done|]. split; [by apply ph_told|phase_lengths].
  - right. exists Child, (Sys (Wait :: devzero_parent k (i + 2)) (Update (i + 1) :: Tell :: devzero_child k (i + 1 + 2)) [] [] (i + 1) false tr).
    split; [done|]. split; [done|]. split; [by apply ph_child|phase_lengths].
  - right. exists Child, (Sys (Wait :: devzero_parent k (i + 2)) (Tell :: devzero_child k (i + 1 + 2)) [] [] (i + 2) false tr).
    split; [unfold step; cbn; rewrite Z.eqb_refl; by replace (i + 1 + 1) with (i + 2) by lia|]. split; [done|].
    split; [by apply ph_child_tell|phase_lengths].
  - right. exists Child, (Sys (Wait :: devzero_parent k (i + 2)) (devzero_child k (i + 1 + 2)) [] ["c"%char] (i + 2) false tr).
    split; [done|]. split; [done|]. split; [by apply ph_child_told|phase_lengths].
  - right. exists Parent, (Sys (devzero_parent k (i + 2)) (devzero_child k (i + 2 + 1)) [] [] (i + 2) false tr).
    split; [by replace (i + 1 + 2) with (i + 2 + 1) by lia|]. split; [by destruct k|].
    split; [apply ph_parent; lia|]. replace (i + 1 + 2) with (i + 2 + 1) by lia. phase_lengths.
Qed.

Lemma phase_run n sched : ∀ s s', phase n s → run step sched s = Some s' →
  phase n s' ∧ (length sched <= length (p_parent s) + length (p_child s))%nat.
Proof.
  induction sched as [|w sched IH]; intros s s' Hs Hrun; cbn in Hrun; [injection Hrun as <-; split; [done|cbn; lia]|].
  destruct (step w s) as [s1|] eqn:E; [|done]. cbn in Hrun.
  destruct (phase_step n s Hs) as [(Hfin & _)|(w' & s2 & E1 & E2 & Hs2 & Hlt)].
  - exfalso. destruct Hfin as [Hp Hc]. unfold step in E. by destruct (p_failed s), w; cbn in E; rewrite ?Hp, ?Hc in E.
  - destruct (who_cases w' w) as [->| ->]; [|congruence]. assert (s2 = s1) as -> by congruence.
    destruct (IH s1 s' Hs2 Hrun) as [Hs' Hl]. split; [done|cbn; lia].
Qed.
End pipes.

Lemma devzero_lengths n : ∀ i, length (devzero_parent n i) = (3 * n)%nat ∧ length (devzero_child n i) = (3 * n)%nat.
Proof. induction n as [|n IH]; intros i; [done|]. destruct (IH (i + 2)) as [H1 H2]. cbn. rewrite H1, H2. lia. Qed.

(** ** Properties *)

(** With the signals of lib/tellwait.c, parent and child that each tell at most once and
    wait at most once synchronise, however they interleave and whenever the signals
    arrive: a process comes out of its wait only after the other has told, and a process
    that cannot go on has finished, or waits for a message that has not been sent (no
    signal is lost between the test of the flag and sigsuspend), or the program has ended
    itself.  There is a bound on the length of the executions. *)
Theorem signals_once ops sched s
    (Honce : ∀ w, (count_op Tell (ops w) <= 1)%nat ∧ (count_op Wait (ops w) <= 1)%nat)
    (Hrun : run Sig.step sched (Sig.start ops) = Some s) :
  (∀ w, waited ops w s = true → told ops (other w) s = true) ∧
  (∀ w, Sig.step w s = None → left w s = [] ∨ Sig.s_failed s = true ∨
    (head (left w s) = Some Wait ∧ told ops (other w) s = false)) ∧
  (length sched <= 7 * (length (ops Parent) + length (ops Child)) + 1)%nat.
Proof.
  assert (Hinv : sig_inv ops s) by (eapply (run_inv _ (sig_inv ops)); [intros ? ? ?; by apply sig_step|by apply sig_start|done]).
  split_and!.
  - intros w Hw. destruct (Hinv w) as (Hok & _). unfold sig_ok in Hok. rewrite Hw in Hok. apply Hok.
  - intros w Hstep. destruct (Hinv w) as (Hok & _). unfold left. unfold Sig.step in Hstep.
    destruct (Sig.s_failed s); [by right; left|].
    destruct (Sig.s_wait (Sig.proc w s)) eqn:Hw; unfold Sig.wait_step in Hstep; try (rewrite Hw in Hstep; done).
    + left. by destruct (Sig.s_ops (Sig.proc w s)) as [|[]].
    + right. right. unfold sig_ok in Hok. rewrite Hw in Hok. destruct (waited ops w s); [by destruct Hok|].
      destruct Hok as (_ & (_ & _ & Ht) & Hhd). split; [by apply Hhd|done].
  - assert (Hs0 : sys_in_wait (Sig.start ops)) by (by intros [] []).
    pose proof (sig_run_length sched _ _ Hs0 Hrun). unfold sys_left, proc_left in *. cbn in *. lia.
Qed.

(** C31: devzero.c with the pipes of ipc1/tellwait.c, for any number of rounds: in every state
    of every execution exactly one of the two processes can go on, until both have
    finished; the counter in the shared memory has the value that each of them expects at
    each update, so that neither ends itself, and in the end counts all the updates. *)
Theorem devzero_alternates n sched s (Hrun : run Pipe.step sched (Pipe.start (devzero_ops n)) = Some s) :
  Pipe.p_failed s = false ∧ (length sched <= 6 * n)%nat ∧
  ((finished s ∧ Pipe.p_counter s = 2 * Z.of_nat n) ∨
   ∃ w s', Pipe.step w s = Some s' ∧ Pipe.step (other w) s = None).
Proof.
  assert (H0 : phase n (Pipe.start (devzero_ops n))) by (apply (ph_parent n n 0); lia).
  destruct (phase_run n sched _ _ H0 Hrun) as [Hs Hl]. destruct (devzero_lengths n 0) as [L1 _].
  destruct (devzero_lengths n 1) as [_ L2]. cbn in Hl. rewrite L1, L2 in Hl. split; [by destruct Hs|]. split; [lia|].
  destruct (phase_step n s Hs) as [(H1 & H2 & _)|(w & s' & E1 & E2 & _)]; [by left|right; by exists w, s'].
Qed.

(** With the signals the second round of devzero.c can lose a wakeup: the child's signal
    comes between the parent's test of sigflag and its sigsuspend, and then both wait for
    ever. *)
Definition lost_schedule : list who :=
  replicate 5 Parent ++ replicate 8 Child ++ replicate 7 Parent ++ replicate 6 Child ++ [Parent] ++ replicate 3 Child.

Lemma devzero_lost_wakeup : ∃ s, run Sig.step lost_schedule (Sig.start (devzero_ops (Nat.div2 NLOOPS))) = Some s ∧
  Sig.s_failed s = false ∧ Sig.s_counter s = 4 ∧ ∀ w, Sig.step w s = None ∧ left w s ≠ [].
Proof.
  destruct (run Sig.step lost_schedule (Sig.start (devzero_ops (Nat.div2 NLOOPS)))) as [s|] eqn:E; [|by vm_compute in E].
  vm_compute in E. injection E as <-. eexists. split; [reflexivity|]. split; [done|]. split; [done|]. by intros [].
Qed.

(** proc/tellwait2.c: the parent's line comes first in every execution that has ended, and
    deadlock.c's processes do both their first steps before both their second ones.
    [all_ends]: the executions of at most [fuel] steps end, in states with [P]. *)
Fixpoint all_ends (fuel : nat) (P : Sig.sys → bool) (s : Sig.sys) : bool :=
  match fuel with
  | O => false
  | S f =>
      match Sig.step Parent s, Sig.step Child s with
      | None, None => P s
      | Some s1, None => all_ends f P s1
      | None, Some s2 => all_ends f P s2
      | Some s1, Some s2 => all_ends f P s1 && all_ends f P s2
      end
  end.

Lemma all_ends_sound fuel P : ∀ s sched s', all_ends fuel P s = true → run Sig.step sched s = Some s' →
  (∀ w, Sig.step w s' = None) → P s' = true.
Proof.
  induction fuel as [|f IH]; intros s sched s' H Hrun Hend; cbn in H; [done|].
  destruct sched as [|w sched]; cbn in Hrun.
  - injection Hrun as <-. by rewrite (Hend Parent), (Hend Child) in H.
  - destruct (Sig.step w s) as [s1|] eqn:E; [|done]. cbn in Hrun. apply (IH s1 sched); [|done|done].
    destruct w; rewrite E in H.
    + destruct (Sig.step Child s); [by apply andb_true_iff in H as []|done].
    + destruct (Sig.step Parent s); [by apply andb_true_iff in H as []|done].
Qed.

Definition done_with (traces : list (list nat)) (s : Sig.sys) : bool :=
  bool_decide (left Parent s = [] ∧ left Child s = []) && bool_decide (Sig.s_trace s ∈ traces).

Lemma tellwait2_order sched s : run Sig.step sched (Sig.start tellwait2_ops) = Some s → (∀ w, Sig.step w s = None) →
  left Parent s = [] ∧ left Child s = [] ∧ Sig.s_trace s = [1; 2]%nat.
Proof.
  intros Hrun Hend. assert (H : all_ends 30 (done_with [[1; 2]%nat]) (Sig.start tellwait2_ops) = true) by (by vm_compute).
  pose proof (all_ends_sound _ _ _ _ _ H Hrun Hend) as Hd. clear H Hend. unfold done_with in Hd.
  apply andb_true_iff in Hd as [[H1 H2]%bool_decide_eq_true Ht%bool_decide_eq_true].
  by apply list_elem_of_singleton in Ht.
Qed.

Lemma deadlock_order sched s : run Sig.step sched (Sig.start deadlock_ops) = Some s → (∀ w, Sig.step w s = None) →
  left Parent s = [] ∧ left Child s = [] ∧ (Sig.s_trace s = [1; 2; 3; 4] ∨ Sig.s_trace s = [1; 2; 4; 3] ∨
    Sig.s_trace s = [2; 1; 3; 4] ∨ Sig.s_trace s = [2; 1; 4; 3])%nat.
Proof.
  intros Hrun Hend. assert (H : all_ends 40 (done_with [[1; 2; 3; 4]; [1; 2; 4; 3]; [2; 1; 3; 4]; [2; 1; 4; 3]]%nat)
    (Sig.start deadlock_ops) = true) by (by vm_compute).
  pose proof (all_ends_sound _ _ _ _ _ H Hrun Hend) as Hd. clear H Hend. unfold done_with in Hd.
  apply andb_true_iff in Hd as [[H1 H2]%bool_decide_eq_true Ht%bool_decide_eq_true].
  rewrite !elem_of_cons, elem_of_nil in Ht. tauto.
Qed.

(** ** Witnesses *)

Lemma signals_once_witness : ∃ s, run Sig.step [Parent; Parent; Child; Child] (Sig.start tellwait2_ops) = Some s ∧
  (Sig.step Child s = None → left Child s = [] ∨ Sig.s_failed s = true ∨ (head (left Child s) = Some Wait ∧ told tellwait2_ops Parent s = false)).
Proof.
  destruct (run Sig.step [Parent; Parent; Child; Child] (Sig.start tellwait2_ops)) as [s|] eqn:E; [|by vm_compute in E].
  exists s. split; [done|].
  apply (signals_once tellwait2_ops _ s ltac:(intros []; vm_compute; lia) E).
Defined.

Lemma devzero_alternates_witness : ∃ s, run Pipe.step [Parent; Parent; Child; Child] (Pipe.start (devzero_ops 2)) = Some s ∧
  Pipe.p_failed s = false.
Proof.
  destruct (run Pipe.step [Parent; Parent; Child; Child] (Pipe.start (devzero_ops 2))) as [s|] eqn:E; [|by vm_compute in E].
  exists s. split; [done|]. apply (devzero_alternates 2 _ s E).
Defined.
