(* ===== verification/Signals.v ===== *)
(** * Signals of one process, and the routines built on them: signal (lib/signal.c),
      signal_intr (lib/signalintr.c), sleep (lib/sleep.c), system (signals/system.c,
      proc/system.c) and abort (signals/abort.c).

    The part of the kernel is the documented behaviour of sigaction, sigprocmask, sigsuspend,
    alarm and kill.  The environment is a script: for each system call, in order, what
    happens before it returns (signals, seconds that pass) and whether it fails. *)
From Stdlib Require Import Ascii ZArith Lia.
From stdpp Require Import base strings gmap option list.
From S2P Require Import Prelude CStr.

Definition SIGINT : Z := 2.
Definition SIGQUIT : Z := 3.
Definition SIGABRT : Z := 6.
Definition SIGALRM : Z := 14.
Definition SIGCHLD : Z := 17.
Definition SA_RESTART : Z := 2 ^ 28.
Definition EINTR : Z := 4.

(** sigfillset. *)
Definition all_signals : gset Z := list_to_set (seqZ 1 64).

(** The signals whose default action leaves the process as it was: those that are ignored,
    and those that stop it until it is continued. *)
Definition harmless : gset Z := {[17; 18; 19; 20; 21; 22; 23; 28]}.

(** Handlers: sig_alrm of lib/sleep.c, and those of the program. *)
Inductive hname := SigAlrm | User (n : nat).
Inductive action := SIG_DFL | SIG_IGN | Catch (h : hname).
#[export] Instance hname_eq_dec : EqDecision hname.
Proof. solve_decision. Defined.
#[export] Instance action_eq_dec : EqDecision action.
Proof. solve_decision. Defined.

(** struct sigaction. *)
Record sigact := SigAct { sa_handler : action; sa_mask : gset Z; sa_flags : Z }.

Inductive event := Raise (signo : Z) | Second.
#[export] Instance event_eq_dec : EqDecision event.
Proof. solve_decision. Defined.
Record turn := Turn { tn_events : list event; tn_err : Z }.

(** What has been seen from outside: handlers that ran, fflush(NULL). *)
Inductive mark := Caught (signo : Z) | Flushed.

(** A process that calls execl("/bin/sh", "sh", "-c", cmd). *)
Record child := Child { ch_cmd : bytes; ch_act : Z → sigact; ch_mask : gset Z }.

Record sproc (U : Type) := SProc {
  sg_act : gmap Z sigact; sg_mask : gset Z; sg_pending : gset Z;
  sg_alarm : Z; sg_clock : Z; sg_errno : Z; sg_log : list mark;
  sg_children : list child; sg_script : list turn; sg_user : U }.
Arguments SProc {U}. Arguments sg_act {U}. Arguments sg_mask {U}. Arguments sg_pending {U}. Arguments sg_alarm {U}.
Arguments sg_clock {U}. Arguments sg_errno {U}. Arguments sg_log {U}. Arguments sg_children {U}.
Arguments sg_script {U}. Arguments sg_user {U}.
#[export] Instance sproc_rebuild U : Rebuild (sproc U) := λ s,
  SProc (sg_act s) (sg_mask s) (sg_pending s) (sg_alarm s) (sg_clock s) (sg_errno s) (sg_log s)
    (sg_children s) (sg_script s) (sg_user s).

Section signals.
Context {U : Type}.
Implicit Types s : sproc U.

(** What the handlers of the program do. *)
Context (user : nat → prog (sproc U) unit).

(** ** The kernel *)

Definition action_of s (signo : Z) : sigact := default (SigAct SIG_DFL ∅ 0) (sg_act s !! signo).

Definition run_handler (h : hname) : prog (sproc U) unit :=
  match h with SigAlrm => mret tt | User n => user n end.

(** A handler runs with the signal and sa_mask blocked as well. *)
Definition deliver (signo : Z) : prog (sproc U) unit := λ s,
  let a := action_of s signo in
  match sa_handler a with
  | SIG_IGN => Done tt s
  | SIG_DFL => if decide (signo ∈ harmless) then Done tt s else Fatal (Killed signo) s
  | Catch h =>
      (run_handler h ;; modify (λ s', s' <| sg_mask := sg_mask s |>))
        (s <| sg_mask ::= λ m, m ∪ sa_mask a ∪ {[signo]} |> <| sg_log ::= λ l, l ++ [Caught signo] |>)
  end.

Definition raise (signo : Z) : prog (sproc U) unit := λ s,
  if decide (signo ∈ sg_mask s) then Done tt (s <| sg_pending ::= λ p, p ∪ {[signo]} |>) else deliver signo s.

Definition happen (e : event) : prog (sproc U) unit := λ s,
  match e with
  | Raise signo => raise signo s
  | Second =>
      let s' := s <| sg_clock ::= Z.succ |> in
      if sg_alarm s =? 0 then Done tt s'
      else if sg_alarm s =? 1 then raise SIGALRM (s' <| sg_alarm := 0 |>)
      else Done tt (s' <| sg_alarm ::= Z.pred |>)
  end.

Fixpoint happens (l : list event) : prog (sproc U) unit :=
  match l with [] => mret tt | e :: l => happen e ;; happens l end.

(** Pending signals that are not blocked any more. *)
Fixpoint settle_list (l : list Z) : prog (sproc U) unit :=
  match l with
  | [] => mret tt
  | signo :: l =>
      s ← get;
      (if decide (signo ∈ sg_pending s ∖ sg_mask s) then
         modify (λ s, s <| sg_pending ::= λ p, p ∖ {[signo]} |>) ;; deliver signo
       else mret tt) ;;
      settle_list l
  end.
Definition settle : prog (sproc U) unit := λ s, settle_list (elements (sg_pending s ∖ sg_mask s)) s.

Definition next_turn : prog (sproc U) turn :=
  s ← get;
  match sg_script s with
  | [] => mret (Turn [] 0)
  | t :: l => modify (λ s, s <| sg_script := l |>) ;; mret t
  end.

(** What a system call has to do with the environment; false: it fails. *)
Definition syscall : prog (sproc U) bool :=
  t ← next_turn;
  happens (tn_events t) ;;
  if tn_err t =? 0 then mret true
  else modify (λ s, s <| sg_errno := tn_err t |>) ;; mret false.

(** Setting an action to ignore a signal also discards it when it is pending. *)
Definition set_action (signo : Z) (a : sigact) : prog (sproc U) unit :=
  modify (λ s, s <| sg_act ::= <[signo := a]> |>
    <| sg_pending ::= λ p, if decide (sa_handler a = SIG_IGN) then p ∖ {[signo]} else p |>).

Definition sigaction (signo : Z) (act : option sigact) : prog (sproc U) (option sigact) :=
  ok ← syscall;
  if negb ok then mret None
  else
    old ← gets (λ s, action_of s signo);
    (match act with None => mret tt | Some a => set_action signo a end) ;;
    mret (Some old).

Definition set_mask (m : gset Z) : prog (sproc U) unit := modify (λ s, s <| sg_mask := m |>) ;; settle.

(** sigprocmask with SIG_BLOCK and with SIG_SETMASK. *)
Definition sigblock (set : gset Z) : prog (sproc U) (option (gset Z)) :=
  ok ← syscall;
  if negb ok then mret None
  else
    old ← gets sg_mask;
    set_mask (old ∪ set) ;;
    mret (Some old).
Definition sigsetmask (set : gset Z) : prog (sproc U) bool :=
  ok ← syscall;
  if negb ok then mret false else set_mask set ;; mret true.

(** alarm cannot fail. *)
Definition alarm (seconds : Z) : prog (sproc U) Z :=
  syscall ;;
  old ← gets sg_alarm;
  modify (λ s, s <| sg_alarm := seconds |>) ;;
  mret old.

(** A process that waits for a signal: the events up to the first that makes a handler run;
    the others happen before the next call returns.  [NoFuel]: it waits for ever. *)
Fixpoint wait_caught (n : nat) (l : list event) : prog (sproc U) unit :=
  s ← get;
  if (n <? length (sg_log s))%nat then
    modify (λ s, s <| sg_script ::= λ sc,
      match sc with [] => [Turn l 0] | t :: sc => Turn (l ++ tn_events t) (tn_err t) :: sc end |>)
  else match l with [] => λ _, NoFuel | e :: l => happen e ;; wait_caught n l end.

(** One turn before the call and one while it waits. *)
Definition sigsuspend (mask : gset Z) : prog (sproc U) unit :=
  syscall ;;
  t ← next_turn;
  s ← get;
  set_mask mask ;;
  wait_caught (length (sg_log s)) (tn_events t) ;;
  set_mask (sg_mask s).

Definition kill_self (signo : Z) : prog (sproc U) unit := syscall ;; raise signo.
Definition fflush_all : prog (sproc U) unit := modify (λ s, s <| sg_log ::= λ l, l ++ [Flushed] |>).

(** ** lib/signal.c, lib/signalintr.c, where SA_INTERRUPT is not defined; [None]: SIG_ERR *)

Definition signal (signo : Z) (func : action) : prog (sproc U) (option action) :=
  let flags := if signo =? SIGALRM then 0 else Z.lor 0 SA_RESTART in
  old ← sigaction signo (Some (SigAct func ∅ flags));
  mret (sa_handler <$> old).

Definition signal_intr (signo : Z) (func : action) : prog (sproc U) (option action) :=
  old ← sigaction signo (Some (SigAct func ∅ 0));
  mret (sa_handler <$> old).

(** ** lib/sleep.c *)

Definition sleep (seconds : Z) : prog (sproc U) Z :=
  oldact ← sigaction SIGALRM (Some (SigAct (Catch SigAlrm) ∅ 0));
  oldmask ← sigblock {[SIGALRM]};
  alarm seconds ;;
  match oldact, oldmask with
  | Some oldact, Some oldmask =>
      let suspmask := oldmask ∖ {[SIGALRM]} in
      sigsuspend suspmask ;;
      unslept ← alarm 0;
      sigaction SIGALRM (Some oldact) ;;
      sigsetmask oldmask ;;
      mret unslept
  | _, _ => undefined
  end.

(** ** signals/system.c *)

(** The loop on waitpid; [status] is the one of the child. *)
Fixpoint wait_status (fuel : nat) (status : Z) : prog (sproc U) Z :=
  match fuel with
  | O => λ _, NoFuel
  | S fuel =>
      ok ← syscall;
      if (ok : bool) then mret status
      else
        errno ← gets sg_errno;
        if negb (errno =? EINTR) then mret (-1) else wait_status fuel status
  end.
Definition wait_child (status : Z) : prog (sproc U) Z := λ s, wait_status (S (length (sg_script s))) status s.

(** What the child does between fork and execl: nothing is pending in it and its calls do
    not fail. *)
Definition sh_child (saveintr savequit : sigact) (savemask : gset Z) : prog (sproc U) unit :=
  sigaction SIGINT (Some saveintr) ;;
  sigaction SIGQUIT (Some savequit) ;;
  sigsetmask savemask ;;
  mret tt.

(** fork: [None] when it fails; the child runs up to execl. *)
Definition fork_sh (cmd : bytes) (before : prog (sproc U) unit) : prog (sproc U) bool :=
  ok ← syscall;
  if negb ok then mret false
  else
    s ← get;
    match before (s <| sg_script := [] |> <| sg_pending := ∅ |> <| sg_alarm := 0 |>) with
    | Done _ c => modify (λ s, s <| sg_children ::= λ l, l ++ [Child (cstr cmd) (action_of c) (sg_mask c)] |>) ;; mret true
    | _ => undefined
    end.

(** The end of system: "restore previous signal actions & reset signal mask". *)
Definition system_restore (saveintr savequit : sigact) (savemask : gset Z) (status : Z) : prog (sproc U) Z :=
  r ← sigaction SIGINT (Some saveintr);
  match r with None => mret (-1) | Some _ =>
    r ← sigaction SIGQUIT (Some savequit);
    match r with None => mret (-1) | Some _ =>
      ok ← sigsetmask savemask;
      if negb ok then mret (-1) else mret status
    end
  end.

Definition system (cmdstring : option bytes) (status : Z) : prog (sproc U) Z :=
  match cmdstring with
  | None => mret 1
  | Some cmdstring =>
      let ignore := SigAct SIG_IGN ∅ 0 in
      saveintr ← sigaction SIGINT (Some ignore);
      match saveintr with None => mret (-1) | Some saveintr =>
      savequit ← sigaction SIGQUIT (Some ignore);
      match savequit with None => mret (-1) | Some savequit =>
      savemask ← sigblock {[SIGCHLD]};
      match savemask with None => mret (-1) | Some savemask =>
        forked ← fork_sh cmdstring (sh_child saveintr savequit savemask);
        status ← (if negb forked then mret (-1) else wait_child status);
        system_restore saveintr savequit savemask status
      end end end
  end.

(** proc/system.c *)
Definition system_nosig (cmdstring : option bytes) (status : Z) : prog (sproc U) Z :=
  match cmdstring with
  | None => mret 1
  | Some cmdstring =>
      forked ← fork_sh cmdstring (mret tt);
      if negb forked then mret (-1) else wait_child status
  end.

(** ** signals/abort.c *)

Definition abort {A} : prog (sproc U) A :=
  act ← sigaction SIGABRT None;
  match act with
  | None => undefined
  | Some act =>
      act ← (if decide (sa_handler act = SIG_IGN) then
               let act := SigAct SIG_DFL (sa_mask act) (sa_flags act) in
               sigaction SIGABRT (Some act) ;; mret act
             else mret act);
      (if decide (sa_handler act = SIG_DFL) then fflush_all else mret tt) ;;
      let mask := all_signals ∖ {[SIGABRT]} in
      sigsetmask mask ;;
      kill_self SIGABRT ;;
      fflush_all ;;
      let act := SigAct SIG_DFL (sa_mask act) (sa_flags act) in
      sigaction SIGABRT (Some act) ;;
      sigsetmask mask ;;
      kill_self SIGABRT ;;
      die (Exit 1)
  end.
End signals.
