(* ===== verification/SignalsProps.v ===== *)
(** * Properties of the routines built on signals: sleep, system and abort. *)
From Stdlib Require Import Ascii ZArith Lia.
From stdpp Require Import base strings gmap option list.
From S2P Require Import Prelude CStr Signals.

(** A call before which [k] seconds pass. *)
Definition sec (k : nat) : turn := Turn (replicate k Second) 0.

Section props.
Context {U : Type} (user : nat → prog (sproc U) unit).
Implicit Types (a : gmap Z sigact) (m p : gset Z) (c e al : Z) (l : list mark) (ch : list child) (sc : list turn) (u : U).

Lemma settle_idle a m p al c e l ch sc u : p ⊆ m →
  settle user (SProc a m p al c e l ch sc u) = Done tt (SProc a m p al c e l ch sc u).
Proof. intros H. unfold settle. cbn. by rewrite (subseteq_empty_difference_L p m H), elements_empty. Qed.

Lemma settle_one g a m p al c e l ch sc u : p ∖ m = {[g]} →
  settle user (SProc a m p al c e l ch sc u) = deliver user g (SProc a m (p ∖ {[g]}) al c e l ch sc u).
Proof.
  intros H. unfold settle. cbn. rewrite H, elements_singleton. cbn [settle_list]. unfold get, mbind, prog_bind at 1 2. cbn.
  rewrite decide_True by (rewrite H; by apply elem_of_singleton). cbn.
  by destruct (deliver user g _) as [[]| | |].
Qed.

Lemma set_mask_idle a m p al c e l ch sc u m' : p ⊆ m' →
  set_mask user m' (SProc a m p al c e l ch sc u) = Done tt (SProc a m' p al c e l ch sc u).
Proof. intros H. unfold set_mask. rewrite bind_modify. by apply settle_idle. Qed.

Lemma set_mask_one g a m p al c e l ch sc u m' : p ∖ m' = {[g]} →
  set_mask user m' (SProc a m p al c e l ch sc u) = deliver user g (SProc a m' (p ∖ {[g]}) al c e l ch sc u).
Proof. intros H. unfold set_mask. rewrite bind_modify. by apply settle_one. Qed.

(** Seconds without an alarm, before it expires, and when it expires and is blocked. *)
Lemma seconds_off k a m p c e l ch sc u :
  happens user (replicate k Second) (SProc a m p 0 c e l ch sc u) = Done tt (SProc a m p 0 (c + Z.of_nat k) e l ch sc u).
Proof.
  revert c. induction k as [|k IH]; intros c; [by rewrite Z.add_0_r|]. cbn [replicate happens].
  erewrite bind_done by reflexivity. cbn. rewrite IH. do 2 f_equal. lia.
Qed.

Lemma seconds_on k a m p al c e l ch sc u : Z.of_nat k < al →
  happens user (replicate k Second) (SProc a m p al c e l ch sc u) = Done tt (SProc a m p (al - Z.of_nat k) (c + Z.of_nat k) e l ch sc u).
Proof.
  revert al c. induction k as [|k IH]; intros al c H; [by rewrite Z.add_0_r, Z.sub_0_r|]. cbn [replicate happens].
  erewrite bind_done.
  2:{ unfold happen. cbn. rewrite (proj2 (Z.eqb_neq _ _)), (proj2 (Z.eqb_neq _ _)) by lia. reflexivity. }
  cbn. rewrite IH by lia. do 2 f_equal; lia.
Qed.

Lemma seconds_keep k a m p al c e l ch sc u : al = 0 ∨ Z.of_nat k < al →
  happens user (replicate k Second) (SProc a m p al c e l ch sc u)
  = Done tt (SProc a m p (if al =? 0 then 0 else al - Z.of_nat k) (c + Z.of_nat k) e l ch sc u).
Proof.
  intros [->|H]; [apply seconds_off|]. rewrite (proj2 (Z.eqb_neq _ _)) by lia. by apply seconds_on.
Qed.

Lemma happens_app (l1 l2 : list event) s : happens user (l1 ++ l2) s = (happens user l1 ;; happens user l2) s.
Proof.
  revert s. induction l1 as [|x l1 IH]; intros s; [done|]. cbn [app happens]. unfold mbind, prog_bind in *.
  destruct (happen user x s); [apply IH|done..].
Qed.

Lemma seconds_expire k a m p al c e l ch sc u : 0 < al <= Z.of_nat k → SIGALRM ∈ m →
  happens user (replicate k Second) (SProc a m p al c e l ch sc u)
  = Done tt (SProc a m (p ∪ {[SIGALRM]}) 0 (c + Z.of_nat k) e l ch sc u).
Proof.
  intros H Hm. replace k with (Z.to_nat (al - 1) + S (k - Z.to_nat al))%nat by lia.
  rewrite replicate_add, happens_app. erewrite bind_done by (apply seconds_on; lia). cbn [replicate happens].
  erewrite bind_done.
  2:{ unfold happen. cbn. rewrite (proj2 (Z.eqb_neq _ _)), (proj2 (Z.eqb_eq _ _)) by lia. unfold raise. cbn.
      rewrite decide_True by done. reflexivity. }
  cbn. rewrite seconds_off. do 2 f_equal. lia.
Qed.

Lemma next_turn_cons t a m p al c e l ch sc u :
  next_turn (SProc a m p al c e l ch (t :: sc) u) = Done t (SProc a m p al c e l ch sc u).
Proof. done. Qed.

Lemma syscall_sec k a m p al c e l ch sc u s' :
  happens user (replicate k Second) (SProc a m p al c e l ch sc u) = Done tt s' →
  syscall user (SProc a m p al c e l ch (sec k :: sc) u) = Done true s'.
Proof. intros H. unfold syscall. erewrite bind_done by reflexivity. cbn. by erewrite bind_done by exact H. Qed.

(** ** sleep *)

(** Events that come after the one that ended the wait belong to the next call. *)
Definition put (l : list event) (sc : list turn) : list turn :=
  match sc with [] => [Turn l 0] | t :: sc => Turn (l ++ tn_events t) (tn_err t) :: sc end.

Lemma put_sec n k sc : put (replicate n Second) (sec k :: sc) = sec (n + k) :: sc.
Proof. unfold put, sec. cbn. by rewrite replicate_add. Qed.

Abbreviation alrm := (SigAct (Catch SigAlrm) ∅ 0).

Lemma wait_done n evs a m p al c e l ch sc u : (n < length l)%nat →
  wait_caught user n evs (SProc a m p al c e l ch sc u) = Done tt (SProc a m p al c e l ch (put evs sc) u).
Proof. intros H. destruct evs; cbn -[Nat.ltb]; unfold mbind, prog_bind, get; by rewrite (proj2 (Nat.ltb_lt _ _)). Qed.

Lemma wait_event n x evs s s' : (length (sg_log s) <= n)%nat → happen user x s = Done tt s' →
  wait_caught user n (x :: evs) s = wait_caught user n evs s'.
Proof.
  intros H E. cbn -[Nat.ltb]. unfold mbind at 1, prog_bind at 1, get. rewrite (proj2 (Nat.ltb_ge _ _)) by done.
  by erewrite bind_done.
Qed.

Lemma wait_seconds k evs a m p al c e l ch sc u : Z.of_nat k < al →
  wait_caught user (length l) (replicate k Second ++ evs) (SProc a m p al c e l ch sc u)
  = wait_caught user (length l) evs (SProc a m p (al - Z.of_nat k) (c + Z.of_nat k) e l ch sc u).
Proof.
  revert al c. induction k as [|k IH]; intros al c H; [by rewrite Z.add_0_r, Z.sub_0_r|]. cbn [replicate app].
  erewrite wait_event; [|done|].
  2:{ unfold happen. cbn. rewrite (proj2 (Z.eqb_neq _ _)), (proj2 (Z.eqb_neq _ _)) by lia. reflexivity. }
  cbn. rewrite IH by lia. do 2 f_equal; lia.
Qed.

Lemma deliver_alrm a m p al c e l ch sc u : a !! SIGALRM = Some alrm →
  deliver user SIGALRM (SProc a m p al c e l ch sc u) = Done tt (SProc a m p al c e (l ++ [Caught SIGALRM]) ch sc u).
Proof. intros H. unfold deliver, action_of. cbn. by rewrite H. Qed.

Lemma wait_alarm n a m p al c e l ch sc u : a !! SIGALRM = Some alrm → SIGALRM ∉ m → 0 < al <= Z.of_nat n →
  wait_caught user (length l) (replicate n Second) (SProc a m p al c e l ch sc u)
  = Done tt (SProc a m p 0 (c + al) e (l ++ [Caught SIGALRM]) ch (put (replicate (n - Z.to_nat al) Second) sc) u).
Proof.
  intros Ha Hm H. replace n with (Z.to_nat (al - 1) + S (n - Z.to_nat al))%nat at 1 by lia.
  rewrite replicate_add, wait_seconds by lia. cbn [replicate]. erewrite wait_event; [|done|].
  2:{ unfold happen. cbn. rewrite (proj2 (Z.eqb_neq _ _)), (proj2 (Z.eqb_eq _ _)) by lia. unfold raise. cbn.
      rewrite decide_False by done. by apply deliver_alrm. }
  rewrite wait_done by (rewrite length_app; simpl; lia). do 2 f_equal. lia.
Qed.

Lemma suspend_alarm k n k' a m m' p al c e l ch sc u :
  a !! SIGALRM = Some alrm → SIGALRM ∈ m → SIGALRM ∉ m' → p ⊆ m → p ⊆ m' → SIGALRM ∉ p →
  0 < al <= Z.of_nat (k + n) →
  ∃ j, (j <= k + n)%nat ∧ al <= Z.of_nat (j + (k + n - j)) ∧
    sigsuspend user m' (SProc a m p al c e l ch (sec k :: sec n :: sec k' :: sc) u)
    = Done tt (SProc a m p 0 (c + Z.of_nat j) e (l ++ [Caught SIGALRM]) ch (sec (k + n - j + k') :: sc) u).
Proof.
  intros Ha Hm Hm' Hp Hp' Hn H. unfold sigsuspend. destruct (decide (al <= Z.of_nat k)) as [Hk|Hk].
  - exists k. split_and!; [lia..|].
    erewrite bind_done by (by apply syscall_sec, seconds_expire; [lia|]).
    erewrite bind_done by apply next_turn_cons. erewrite bind_done by reflexivity.
    erewrite (bind_done (set_mask _ _)).
    2:{ rewrite (set_mask_one SIGALRM) by set_solver. rewrite deliver_alrm by done.
        assert ((p ∪ {[SIGALRM]}) ∖ {[SIGALRM]} = p) as -> by set_solver. reflexivity. }
    change (tn_events (sec n)) with (replicate n Second). cbn [sg_log sg_mask].
    erewrite bind_done by (apply wait_done; rewrite length_app; simpl; lia).
    rewrite put_sec, set_mask_idle by done. by replace (k + n - k + k')%nat with (n + k')%nat by lia.
  - exists (Z.to_nat al). split_and!; [lia..|].
    erewrite bind_done by (by apply syscall_sec, seconds_on; lia).
    erewrite bind_done by apply next_turn_cons. erewrite bind_done by reflexivity.
    erewrite (bind_done (set_mask _ _)) by (by apply set_mask_idle).
    change (tn_events (sec n)) with (replicate n Second). cbn [sg_log sg_mask].
    erewrite bind_done by (apply wait_alarm; [done|done|lia]).
    rewrite put_sec, set_mask_idle by done.
    replace (k + n - Z.to_nat al + k')%nat with (n - Z.to_nat (al - Z.of_nat k) + k')%nat by lia. do 2 f_equal. lia.
Qed.

(** A handler of the program that keeps to its own data. *)
Definition quiet (h : nat) (f : U → U) : Prop := ∀ s, user h s = Done tt (s <| sg_user ::= f |>).

Lemma deliver_quiet g h f a m p al c e l ch sc u :
  quiet h f → sa_handler (default (SigAct SIG_DFL ∅ 0) (a !! g)) = Catch (User h) →
  deliver user g (SProc a m p al c e l ch sc u) = Done tt (SProc a m p al c e (l ++ [Caught g]) ch sc (f u)).
Proof. intros Hq Hh. unfold deliver, action_of. cbn. rewrite Hh. cbn. unfold mbind, prog_bind. by rewrite Hq. Qed.

Lemma suspend_other k n k' g h f a m m' p al c e l ch sc u :
  quiet h f → sa_handler (default (SigAct SIG_DFL ∅ 0) (a !! g)) = Catch (User h) →
  g ∉ m' → p ⊆ m → p ⊆ m' → Z.of_nat (k + n) < al →
  sigsuspend user m' (SProc a m p al c e l ch (sec k :: Turn (replicate n Second ++ [Raise g]) 0 :: sec k' :: sc) u)
    = Done tt (SProc a m p (al - Z.of_nat (k + n)) (c + Z.of_nat (k + n)) e (l ++ [Caught g]) ch (sec k' :: sc) (f u)).
Proof.
  intros Hq Hh Hg Hp Hp' H. unfold sigsuspend.
  erewrite bind_done by (by apply syscall_sec, seconds_on; lia).
  erewrite bind_done by apply next_turn_cons. erewrite bind_done by reflexivity.
  erewrite (bind_done (set_mask _ _)) by (by apply set_mask_idle). cbn [tn_events sg_log sg_mask].
  erewrite (bind_done (wait_caught _ _ _)).
  2:{ rewrite wait_seconds by lia. erewrite wait_event; [|done|].
      2:{ unfold happen, raise. cbn. rewrite decide_False by done. by eapply deliver_quiet. }
      apply wait_done. rewrite length_app. simpl. lia. }
  rewrite set_mask_idle by done. cbn. do 2 f_equal; lia.
Qed.

(** The part of sleep before it waits. *)
Lemma sleep_front {B} (K : option sigact → option (gset Z) → prog (sproc U) B) seconds k1 k2 k3 a m p c e l ch sc u : p ⊆ m →
  (oldact ← sigaction user SIGALRM (Some alrm); oldmask ← sigblock user {[SIGALRM]}; alarm user seconds ;; K oldact oldmask)
    (SProc a m p 0 c e l ch (sec k1 :: sec k2 :: sec k3 :: sc) u)
  = K (Some (default (SigAct SIG_DFL ∅ 0) (a !! SIGALRM))) (Some m)
      (SProc (<[SIGALRM := alrm]> a) (m ∪ {[SIGALRM]}) p seconds (c + Z.of_nat (k1 + k2 + k3)) e l ch sc u).
Proof.
  intros Hp. erewrite bind_done.
  2:{ unfold sigaction. erewrite bind_done by apply syscall_sec, seconds_off. reflexivity. }
  unfold update; cbn. erewrite bind_done.
  2:{ unfold sigblock. erewrite bind_done by apply syscall_sec, seconds_off. cbn [negb]. rewrite bind_gets.
      erewrite bind_done by (apply set_mask_idle; cbn; set_solver). reflexivity. }
  cbn. erewrite bind_done.
  2:{ unfold alarm. erewrite bind_done by apply syscall_sec, seconds_off. reflexivity. }
  unfold update; cbn. do 2 f_equal. lia.
Qed.

(** The part behind the wait. *)
Lemma sleep_tail old k6 k7 k8 a m p al c e l ch sc u : p ⊆ m → SIGALRM ∉ p → al = 0 ∨ Z.of_nat k6 < al →
  (unslept ← alarm user 0; sigaction user SIGALRM (Some old) ;; sigsetmask user m ;; mret unslept)
    (SProc a (m ∪ {[SIGALRM]}) p al c e l ch (sec k6 :: sec k7 :: sec k8 :: sc) u)
  = Done (if al =? 0 then 0 else al - Z.of_nat k6)
      (SProc (<[SIGALRM := old]> a) m p 0 (c + Z.of_nat (k6 + k7 + k8)) e l ch sc u).
Proof.
  intros Hp Hn Hal. erewrite bind_done.
  2:{ unfold alarm. erewrite bind_done by (by apply syscall_sec, seconds_keep). reflexivity. }
  unfold update; cbn. erewrite bind_done.
  2:{ unfold sigaction. erewrite bind_done by apply syscall_sec, seconds_off. reflexivity. }
  unfold update; cbn.
  assert ((if decide (sa_handler old = SIG_IGN) then p ∖ {[SIGALRM]} else p) = p) as ->.
  { destruct (decide _); [set_solver|done]. }
  unfold sigsetmask at 1. rewrite !bind_assoc. erewrite bind_done by apply syscall_sec, seconds_off. cbn [negb].
  rewrite bind_assoc. erewrite bind_done by (by apply set_mask_idle). cbn. do 2 f_equal. lia.
Qed.

Lemma suspend_asleep k n a m m' p al c e l ch sc u :
  p ⊆ m' → al = 0 ∨ Z.of_nat (k + n) < al →
  sigsuspend user m' (SProc a m p al c e l ch (sec k :: sec n :: sc) u) = NoFuel.
Proof.
  intros Hp' H. unfold sigsuspend.
  erewrite bind_done by (apply syscall_sec, seconds_keep; lia).
  erewrite bind_done by apply next_turn_cons. erewrite bind_done by reflexivity.
  erewrite (bind_done (set_mask _ _)) by (by apply set_mask_idle). cbn [sg_log sg_mask].
  change (tn_events (sec n)) with (replicate n Second). unfold mbind at 1, prog_bind at 1.
  assert (∀ k c al, al = 0 ∨ Z.of_nat k < al →
    wait_caught user (length l) (replicate k Second) (SProc a m' p al c e l ch sc u) = NoFuel) as ->; [|done|].
  - clear. induction k as [|k IH]; intros c al H.
    + cbn -[Nat.ltb]. unfold mbind, prog_bind, get. cbn -[Nat.ltb]. by rewrite Nat.ltb_irrefl.
    + cbn [replicate]. erewrite wait_event; [|done|].
      2:{ change [Second] with (replicate 1 Second). unfold happen. cbn.
          rewrite (proj2 (Z.eqb_neq al 1)) by lia.
          instantiate (1 := SProc a m' p (if al =? 0 then 0 else Z.pred al) (Z.succ c) e l ch sc u).
          by destruct (Z.eqb_spec al 0) as [->|]. }
      apply IH. destruct (Z.eqb_spec al 0); lia.
  - destruct (Z.eqb_spec al 0); lia.
Qed.
End props.

(** What sleep leaves as it was, after [k] seconds. *)
Definition slept {U} (s s' : sproc U) (k : nat) : Prop :=
  (∀ n, action_of s' n = action_of s n) ∧ sg_mask s' = sg_mask s ∧ sg_pending s' = sg_pending s ∧
  sg_alarm s' = 0 ∧ sg_errno s' = sg_errno s ∧ sg_clock s' = sg_clock s + Z.of_nat k.

(** C27: sleep of lib/sleep.c for at least one second, in a process without an alarm,
    whatever its action for SIGALRM and its mask, and however the seconds fall between its
    calls: when no other signal comes it returns 0 once [seconds] seconds have passed since
    the call of alarm, also when the alarm expires before sigsuspend, and not before; when
    a signal with a handler of the program comes during the wait, and the alarm does not
    expire before sleep turns it off, that handler runs once and sleep returns the seconds
    that were left.  In each case the action for SIGALRM, the mask and the pending signals
    are those of before, and no alarm is left. *)
Theorem sleep_sleeps {U} (user : nat → prog (sproc U) unit) s seconds k1 k2 k3 k4 wait k6 k7 k8 sc
    (Hpos : 0 < seconds) (Hoff : sg_alarm s = 0) (Hp : sg_pending s ⊆ sg_mask s) (Hn : SIGALRM ∉ sg_pending s)
    (Hsc : sg_script s = sec k1 :: sec k2 :: sec k3 :: sec k4 :: Turn wait 0 :: sec k6 :: sec k7 :: sec k8 :: sc) :
  (∀ n, wait = replicate n Second →
    (seconds <= Z.of_nat (k4 + n) → ∃ s', sleep user seconds s = Done 0 s' ∧
      slept s s' (k1 + k2 + k3 + k4 + n + k6 + k7 + k8) ∧
      sg_log s' = sg_log s ++ [Caught SIGALRM] ∧ sg_user s' = sg_user s) ∧
    (Z.of_nat (k4 + n) < seconds → sleep user seconds s = NoFuel)) ∧
  (∀ n g h f, wait = replicate n Second ++ [Raise g] → quiet user h f → sa_handler (action_of s g) = Catch (User h) →
    g ∉ sg_mask s → g ≠ SIGALRM → Z.of_nat (k4 + n + k6) < seconds →
    ∃ s', sleep user seconds s = Done (seconds - Z.of_nat (k4 + n + k6)) s' ∧
      slept s s' (k1 + k2 + k3 + k4 + n + k6 + k7 + k8) ∧
      sg_log s' = sg_log s ++ [Caught g] ∧ sg_user s' = f (sg_user s)).
Proof.
  destruct s as [a m p al c e l ch sc0 u]. cbn in *. subst al sc0.
  assert (∀ x : sigact, <[SIGALRM := x]> (<[SIGALRM := SigAct (Catch SigAlrm) ∅ 0]> a) = <[SIGALRM := x]> a) as Hii
    by (intros; apply insert_insert_eq).
  assert (∀ p c l (u : U) n, action_of (SProc (<[SIGALRM := default (SigAct SIG_DFL ∅ 0) (a !! SIGALRM)]> a) m p 0 c e l ch sc u) n
    = default (SigAct SIG_DFL ∅ 0) (a !! n)) as Hact.
  { intros. unfold action_of. cbn. destruct (decide (n = SIGALRM)) as [->|]; [by rewrite lookup_insert_eq|by rewrite lookup_insert_ne]. }
  assert ((p ⊆ m ∖ {[SIGALRM]}) ∧ (p ⊆ m ∪ {[SIGALRM]})) as [Hp1 Hp2] by set_solver.
  assert ((SIGALRM ∉ m ∖ {[SIGALRM]}) ∧ (SIGALRM ∈ m ∪ {[SIGALRM]})) as [Hm1 Hm2] by set_solver.
  split.
  - intros n ->. split; intros H; unfold sleep; rewrite sleep_front by done; cbv beta iota zeta.
    + destruct (suspend_alarm user k4 n k6 (<[SIGALRM := SigAct (Catch SigAlrm) ∅ 0]> a) (m ∪ {[SIGALRM]}) (m ∖ {[SIGALRM]}) p
        seconds (c + Z.of_nat (k1 + k2 + k3)) e l ch (sec k7 :: sec k8 :: sc) u) as (j & Hj & _ & E);
        [by rewrite lookup_insert_eq|done..|lia|].
      erewrite bind_done by exact E. rewrite sleep_tail by auto. rewrite Hii.
      eexists. split; [done|]. unfold slept. cbn. split_and!; try done. lia.
    + change (Turn (replicate n Second) 0) with (sec n). unfold mbind at 1, prog_bind at 1.
      rewrite suspend_asleep by (done || lia). done.
  - intros n g h f -> Hq Hh Hg Hne H. unfold sleep. rewrite sleep_front by done; cbv beta iota zeta.
    erewrite bind_done.
    2:{ eapply suspend_other; [done| |set_solver|done|done|lia]. by rewrite lookup_insert_ne. }
    rewrite sleep_tail by (done || lia). rewrite Hii, (proj2 (Z.eqb_neq _ _)) by lia.
    eexists. split; [f_equal; lia|]. unfold slept. cbn. split_and!; try done. lia.
Qed.

(** sleep(0) turns the alarm off and then waits for a signal that does not come. *)
Lemma sleep_zero {U} (user : nat → prog (sproc U) unit) s k1 k2 k3 k4 n sc
    (Hoff : sg_alarm s = 0) (Hp : sg_pending s ⊆ sg_mask s) (Hn : SIGALRM ∉ sg_pending s)
    (Hsc : sg_script s = sec k1 :: sec k2 :: sec k3 :: sec k4 :: sec n :: sc) :
  sleep user 0 s = NoFuel.
Proof.
  destruct s as [a m p al c e l ch sc0 u]. cbn in Hoff, Hp, Hn, Hsc. subst al sc0. unfold sleep. rewrite sleep_front by done.
  cbv beta iota zeta. unfold mbind at 1, prog_bind at 1. rewrite suspend_asleep; [done|set_solver|by left].
Qed.

(** A process whose handlers count, with one for SIGINT. *)
Definition counting (n : nat) : prog (sproc nat) unit := modify (λ s, s <| sg_user ::= Nat.add n |>).
Definition ex_caller (sc : list turn) : sproc nat :=
  SProc (<[SIGINT := SigAct (Catch (User 3)) ∅ 0]> ∅) ∅ ∅ 0 0 0 [] [] sc 0%nat.

(** A signal with a handler ends the wait; when the alarm expires before it is turned off,
    the signal is still pending when the old action, the default one, is back. *)
Lemma sleep_killed : ∃ s',
  sleep counting 2 (ex_caller [sec 0; sec 0; sec 0; sec 1; Turn [Raise SIGINT] 0; sec 1]) = Fatal (Killed SIGALRM) s'.
Proof. eexists. vm_compute. reflexivity. Qed.

Lemma sleep_sleeps_witness :
  (∃ s', sleep counting 2 (ex_caller [sec 1; sec 0; sec 0; sec 1; sec 3; sec 0; sec 1; sec 0]) = Done 0 s' ∧
    sg_clock s' = 6 ∧ sg_log s' = [Caught SIGALRM]) ∧
  (∃ s', sleep counting 9 (ex_caller [sec 1; sec 0; sec 0; sec 1; Turn [Second; Raise SIGINT] 0; sec 1; sec 0; sec 0]) = Done 6 s' ∧
    sg_log s' = [Caught SIGINT] ∧ sg_user s' = 3%nat).
Proof.
  split.
  - destruct (sleep_sleeps counting (ex_caller [sec 1; sec 0; sec 0; sec 1; sec 3; sec 0; sec 1; sec 0]) 2 1 0 0 1
      (replicate 3 Second) 0 1 0 []) as [H _]; [done|done|done|set_solver|done|].
    destruct (H 3%nat eq_refl) as [Hs _]. destruct Hs as (s' & E & Hs & Hl & _); [lia|].
    exists s'. split_and!; [done|apply (proj2 (proj2 (proj2 (proj2 (proj2 Hs)))))|done].
  - destruct (sleep_sleeps counting (ex_caller [sec 1; sec 0; sec 0; sec 1; Turn [Second; Raise SIGINT] 0; sec 1; sec 0; sec 0]) 9 1 0 0 1
      [Second; Raise SIGINT] 1 0 0 []) as [_ H]; [done|done|done|set_solver|done|].
    destruct (H 1%nat SIGINT 3%nat (Nat.add 3) eq_refl) as (s' & E & Hs & Hl & Hu); [done|done|set_solver|done|lia|].
    exists s'. by split_and!.
Defined.

(** ** system *)

Section system.
Context {U : Type} (user : nat → prog (sproc U) unit).
Implicit Types (a : gmap Z sigact) (m p : gset Z) (c e al : Z) (l : list mark) (ch : list child) (sc : list turn) (u : U).

Abbreviation ignore := (SigAct SIG_IGN ∅ 0).

(** What a terminal and a child send while the command runs. *)
Definition job_event (x : event) : Prop := x = Raise SIGINT ∨ x = Raise SIGQUIT ∨ x = Raise SIGCHLD.
#[export] Instance job_event_dec x : Decision (job_event x).
Proof. unfold job_event. apply _. Defined.
Definition reaped (evs : list event) : gset Z := if decide (Raise SIGCHLD ∈ evs) then {[SIGCHLD]} else ∅.

Lemma reaped_cons x evs : reaped (x :: evs) = reaped [x] ∪ reaped evs.
Proof. unfold reaped. repeat case_decide; set_solver. Qed.
Lemma reaped_app (l1 l2 : list event) : reaped (l1 ++ l2) = reaped l1 ∪ reaped l2.
Proof. unfold reaped. repeat case_decide; set_solver. Qed.

(** The caller during the command. *)
Definition waiting a m : Prop :=
  a !! SIGINT = Some ignore ∧ a !! SIGQUIT = Some ignore ∧ SIGCHLD ∈ m ∧ SIGINT ∉ m ∧ SIGQUIT ∉ m.

Lemma job_events evs a m p al c e l ch sc u : waiting a m → Forall job_event evs →
  happens user evs (SProc a m p al c e l ch sc u) = Done tt (SProc a m (p ∪ reaped evs) al c e l ch sc u).
Proof.
  intros Hw Hev. revert p. induction Hev as [|x evs Hx Hev IH]; intros p; cbn [happens].
  { change (reaped []) with (∅ : gset Z). by rewrite (right_id_L ∅ (∪)). }
  rewrite reaped_cons, (assoc_L (∪)). erewrite bind_done; [apply IH|]. destruct Hw as (H1 & H2 & H3 & H4 & H5).
  destruct Hx as [->|[->| ->]]; unfold happen, raise, reaped; cbn.
  - rewrite decide_False, (decide_False (P := Raise SIGCHLD ∈ _)), (right_id_L ∅ (∪)) by set_solver.
    unfold deliver, action_of. cbn. by rewrite H1.
  - rewrite decide_False, (decide_False (P := Raise SIGCHLD ∈ _)), (right_id_L ∅ (∪)) by set_solver.
    unfold deliver, action_of. cbn. by rewrite H2.
  - by rewrite decide_True, (decide_True (P := Raise SIGCHLD ∈ _)) by set_solver.
Qed.

Lemma job_call evs err a m p al c e l ch sc u : waiting a m → Forall job_event evs →
  syscall user (SProc a m p al c e l ch (Turn evs err :: sc) u)
  = Done (err =? 0) (SProc a m (p ∪ reaped evs) al c (if err =? 0 then e else err) l ch sc u).
Proof.
  intros Hw Hev. unfold syscall. erewrite bind_done by apply next_turn_cons. cbn [tn_events tn_err].
  erewrite bind_done by (by apply job_events). by destruct (err =? 0).
Qed.

(** Interruptions of waitpid, and how it ends. *)
Lemma wait_jobs waits evs err status a m p al c e l ch sc u :
  waiting a m → Forall (λ t, Forall job_event (tn_events t) ∧ tn_err t = EINTR) waits →
  Forall job_event evs → err ≠ EINTR →
  ∃ e', wait_child user status (SProc a m p al c e l ch (waits ++ Turn evs err :: sc) u)
    = Done (if err =? 0 then status else -1)
        (SProc a m (p ∪ reaped (mjoin (tn_events <$> waits) ++ evs)) al c e' l ch sc u).
Proof.
  intros Hw Hwaits Hev Herr. unfold wait_child. cbn [sg_script].
  assert (length waits < S (length (waits ++ Turn evs err :: sc)))%nat as Hf by (rewrite length_app; simpl; lia).
  revert Hf. generalize (S (length (waits ++ Turn evs err :: sc))). intros fuel. revert p e fuel.
  induction Hwaits as [|[evs1 err1] waits [Hev1 Herr1] _ IH]; intros p e [|fuel] Hf; simpl in Hf; try lia; cbn [wait_status app].
  - erewrite bind_done by (by apply job_call). destruct (Z.eqb_spec err 0) as [->|Hne]; [by eexists|].
    rewrite bind_gets. cbn [sg_errno]. rewrite (proj2 (Z.eqb_neq _ _)) by done. by eexists.
  - simpl in Hev1, Herr1. subst err1. erewrite bind_done by (by apply job_call). cbn [EINTR].
    change (EINTR =? 0) with false. cbv iota. rewrite bind_gets. cbn [sg_errno]. change (negb (EINTR =? EINTR)) with false. cbv iota.
    destruct (IH (p ∪ reaped evs1) EINTR fuel) as [e' E]; [lia|]. exists e'. rewrite E. cbn. do 2 f_equal.
    rewrite !reaped_app. set_solver.
Qed.

Lemma keep_pending P `{Decision P} (p : gset Z) g : g ∉ p → (if decide P then p ∖ {[g]} else p) = p.
Proof. intros Hg. destruct (decide P); [set_solver|done]. Qed.

(** A call at which nothing happens. *)
Definition idle : turn := Turn [] 0.

Lemma sigaction_idle g x a m p al c e l ch sc u :
  sigaction user g (Some x) (SProc a m p al c e l ch (idle :: sc) u)
  = Done (Some (default (SigAct SIG_DFL ∅ 0) (a !! g)))
      (SProc (<[g := x]> a) m (if decide (sa_handler x = SIG_IGN) then p ∖ {[g]} else p) al c e l ch sc u).
Proof. done. Qed.

Lemma sigblock_idle set a m p al c e l ch sc u : p ⊆ m →
  sigblock user set (SProc a m p al c e l ch (idle :: sc) u) = Done (Some m) (SProc a (m ∪ set) p al c e l ch sc u).
Proof.
  intros H. unfold sigblock. erewrite bind_done by reflexivity. cbn [negb]. rewrite bind_gets.
  by erewrite bind_done by (apply set_mask_idle; cbn; set_solver).
Qed.

(** The four assignments of the caller's actions give back the old ones. *)
Lemma restored a (n : Z) :
  let i := default (SigAct SIG_DFL ∅ 0) (a !! SIGINT) in let q := default (SigAct SIG_DFL ∅ 0) (a !! SIGQUIT) in
  default (SigAct SIG_DFL ∅ 0) (<[SIGQUIT := q]> (<[SIGINT := i]> (<[SIGQUIT := ignore]> (<[SIGINT := ignore]> a))) !! n)
  = default (SigAct SIG_DFL ∅ 0) (a !! n).
Proof.
  intros i q. destruct (decide (n = SIGQUIT)) as [->|H1]; [by rewrite lookup_insert_eq|]. rewrite lookup_insert_ne by done.
  destruct (decide (n = SIGINT)) as [->|H2]; [by rewrite lookup_insert_eq|]. by rewrite !lookup_insert_ne by done.
Qed.

Lemma sh_child_runs i q mk a m al c e l ch u :
  ∃ s', sh_child user i q mk (SProc a m ∅ al c e l ch [] u) = Done tt s' ∧
    sg_act s' = <[SIGQUIT := q]> (<[SIGINT := i]> a) ∧ sg_mask s' = mk.
Proof.
  eexists. unfold sh_child.
  erewrite bind_done by reflexivity. unfold update; cbn.
  rewrite keep_pending by set_solver.
  erewrite bind_done by reflexivity. unfold update; cbn. rewrite keep_pending by set_solver.
  erewrite bind_done.
  2:{ unfold sigsetmask. erewrite bind_done by reflexivity. cbn [negb]. by erewrite bind_done by (by apply set_mask_idle). }
  by split_and!.
Qed.

Lemma fork_runs cmd i q mk evs err a m p al c e l ch sc u : waiting a m → Forall job_event evs →
  ∃ x, fork_sh user cmd (sh_child user i q mk) (SProc a m p al c e l ch (Turn evs err :: sc) u)
    = Done (err =? 0) (SProc a m (p ∪ reaped evs) al c (if err =? 0 then e else err) l
        (if err =? 0 then ch ++ [x] else ch) sc u) ∧
    ch_cmd x = cstr cmd ∧ ch_mask x = mk ∧
    ∀ n, ch_act x n = default (SigAct SIG_DFL ∅ 0) (<[SIGQUIT := q]> (<[SIGINT := i]> a) !! n).
Proof.
  intros Hw Hev. destruct (sh_child_runs i q mk a m 0 c e l ch u) as (s' & E & Ha & Hm).
  exists (Child (cstr cmd) (action_of s') (sg_mask s')). split; [|split_and!; try done].
  - unfold fork_sh. erewrite bind_done by (by apply job_call). destruct (err =? 0); [|done]. cbn [negb].
    erewrite bind_done by reflexivity. unfold update. cbn. rewrite E. done.
  - intros n. cbn. unfold action_of. by rewrite Ha.
Qed.

(** A handler for SIGCHLD, if there is one, keeps to its own data. *)
Definition chld_quiet (h : action) : Prop := match h with Catch (User h) => ∃ f, quiet user h f | _ => True end.

(** The handler for SIGCHLD runs when the signal has come and the caller does not block it. *)
Definition chld_log (h : action) (r m : gset Z) : list mark :=
  match h with Catch _ => if decide (SIGCHLD ∈ r ∖ m) then [Caught SIGCHLD] else [] | _ => [] end.

Lemma unblock_chld r a m m0 p al c e l ch sc u :
  p ⊆ m → r = ∅ ∨ r = {[SIGCHLD]} → chld_quiet (sa_handler (default (SigAct SIG_DFL ∅ 0) (a !! SIGCHLD))) →
  ∃ u', set_mask user m (SProc a m0 (p ∪ r) al c e l ch sc u)
    = Done tt (SProc a m (p ∪ (r ∩ m)) al c e
        (l ++ chld_log (sa_handler (default (SigAct SIG_DFL ∅ 0) (a !! SIGCHLD))) r m) ch sc u').
Proof.
  intros Hp Hr Hq. destruct (decide (SIGCHLD ∈ r ∖ m)) as [Hin|Hin].
  - assert (r = {[SIGCHLD]}) as -> by (destruct Hr as [->|]; [set_solver|done]).
    rewrite (set_mask_one user SIGCHLD) by set_solver.
    assert ((p ∪ {[SIGCHLD]}) ∖ {[SIGCHLD]} = p ∪ ({[SIGCHLD]} ∩ m)) as -> by set_solver.
    unfold deliver, action_of, chld_log. rewrite (decide_True (P := SIGCHLD ∈ {[SIGCHLD]} ∖ m)) by done. cbn [sg_act].
    destruct (sa_handler _) as [| |[|h]]; cbv iota.
    + rewrite decide_True by (apply (bool_decide_unpack _); by vm_compute). rewrite app_nil_r. by eexists.
    + rewrite app_nil_r. by eexists.
    + by eexists.
    + destruct Hq as [f Hq]. cbn. unfold mbind, prog_bind. rewrite Hq. by eexists.
  - assert (r ⊆ m) by (destruct Hr as [-> | ->]; set_solver). rewrite set_mask_idle by set_solver.
    assert (r ∩ m = r) as -> by set_solver.
    assert (chld_log (sa_handler (default (SigAct SIG_DFL ∅ 0) (a !! SIGCHLD))) r m = []) as ->.
    { unfold chld_log. rewrite decide_False by done. by destruct (sa_handler _). }
    rewrite app_nil_r. by eexists.
Qed.

(** The end of system: actions and mask of the caller come back. *)
Lemma system_tail (i q : sigact) st r a m p al c e l ch sc u :
  p ∪ r ⊆ m ∪ {[SIGCHLD]} → SIGINT ∉ m → SIGQUIT ∉ m → 
  system_restore user i q m st
    (SProc a (m ∪ {[SIGCHLD]}) (p ∪ r) al c e l ch (idle :: idle :: idle :: sc) u)
  = (set_mask user m ;; mret st)
      (SProc (<[SIGQUIT := q]> (<[SIGINT := i]> a)) (m ∪ {[SIGCHLD]}) (p ∪ r) al c e l ch sc u).
Proof.
  intros Hp Hi Hq. unfold system_restore.
  erewrite bind_done by apply sigaction_idle. cbv iota. rewrite keep_pending by set_solver.
  erewrite bind_done by apply sigaction_idle. cbv iota. rewrite keep_pending by set_solver.
  unfold sigsetmask. rewrite bind_assoc. erewrite bind_done by reflexivity. cbn [negb]. rewrite bind_assoc. done.
Qed.

(** What system leaves as it was; [r] is {SIGCHLD} when that signal has come. *)
Definition left_alone (s s' : sproc U) (r : gset Z) : Prop :=
  (∀ n, action_of s' n = action_of s n) ∧ sg_mask s' = sg_mask s ∧
  sg_pending s' = sg_pending s ∪ (r ∩ sg_mask s) ∧
  sg_log s' = sg_log s ++ chld_log (sa_handler (action_of s SIGCHLD)) r (sg_mask s).
End system.

(** C26: system of signals/system.c, while the terminal sends SIGINT and SIGQUIT, the children
    SIGCHLD, and waitpid is interrupted, any number of times: the signals do not end the
    caller and no handler of it runs before the child has been waited for; the command runs
    with the actions and the mask the caller had; the result is the status of the command, or
    -1 when fork or waitpid fails; and then the actions and the mask are those of before,
    with a SIGCHLD that came delivered once, or pending when the caller blocks it. *)
Theorem system_runs {U} (user : nat → prog (sproc U) unit) s cmd status evf errf waits evs err sc
    (Hp : sg_pending s ⊆ sg_mask s) (Hi : SIGINT ∉ sg_mask s) (Hq : SIGQUIT ∉ sg_mask s)
    (Hchld : chld_quiet user (sa_handler (action_of s SIGCHLD)))
    (Hevf : Forall job_event evf) (Hevs : Forall job_event evs) (Herr : err ≠ EINTR)
    (Hwaits : Forall (λ t, Forall job_event (tn_events t) ∧ tn_err t = EINTR) waits) :
  (errf = 0 → sg_script s = idle :: idle :: idle :: Turn evf errf :: waits ++ Turn evs err :: idle :: idle :: idle :: sc →
    ∃ s' c, system user (Some cmd) status s = Done (if err =? 0 then status else -1) s' ∧
      left_alone s s' (reaped (evf ++ mjoin (tn_events <$> waits) ++ evs)) ∧
      sg_children s' = sg_children s ++ [c] ∧ ch_cmd c = cstr cmd ∧ (∀ n, ch_act c n = action_of s n) ∧ ch_mask c = sg_mask s) ∧
  (errf ≠ 0 → sg_script s = idle :: idle :: idle :: Turn evf errf :: idle :: idle :: idle :: sc →
    ∃ s', system user (Some cmd) status s = Done (-1) s' ∧ left_alone s s' (reaped evf) ∧ sg_children s' = sg_children s).
Proof.
  destruct s as [a m p al c e l ch sc0 u]. unfold action_of in *. cbn [sg_act sg_mask sg_pending sg_script sg_children] in *.
  assert (∀ evs, reaped evs = ∅ ∨ reaped evs = {[SIGCHLD]}) as Hr by (intros ev; unfold reaped; case_decide; auto).
  assert (∀ ev, p ∪ reaped ev ⊆ m ∪ {[SIGCHLD]}) as Hpr by (intros ev; destruct (Hr ev) as [-> | ->]; set_solver).
  set (i := default (SigAct SIG_DFL ∅ 0) (a !! SIGINT)). set (q := default (SigAct SIG_DFL ∅ 0) (a !! SIGQUIT)).
  set (a2 := <[SIGQUIT := SigAct SIG_IGN ∅ 0]> (<[SIGINT := SigAct SIG_IGN ∅ 0]> a)).
  assert (waiting a2 (m ∪ {[SIGCHLD]})) as Hw.
  { unfold a2. split_and!; [by rewrite lookup_insert_ne, lookup_insert_eq|by rewrite lookup_insert_eq|set_solver..]. }
  assert (∀ sc1, system user (Some cmd) status (SProc a m p al c e l ch (idle :: idle :: idle :: sc1) u)
    = (forked ← fork_sh user cmd (sh_child user i q m);
       st ← (if negb forked then mret (-1) else wait_child user status);
       system_restore user i q m st) (SProc a2 (m ∪ {[SIGCHLD]}) p al c e l ch sc1 u)) as Hfront.
  { intros sc1. unfold system. erewrite bind_done by apply sigaction_idle. cbv iota.
    rewrite keep_pending by set_solver. fold i.
    erewrite bind_done by apply sigaction_idle. cbv iota. rewrite keep_pending by set_solver.
    rewrite lookup_insert_ne by done. fold q a2.
    erewrite bind_done by (by apply sigblock_idle). done. }
  assert (∀ n, default (SigAct SIG_DFL ∅ 0) (<[SIGQUIT := q]> (<[SIGINT := i]> a2) !! n) = default (SigAct SIG_DFL ∅ 0) (a !! n))
    as Hrest by (intros n; apply restored).
  assert (∀ st e ch sc r ev, r = reaped ev → ∃ s',
    system_restore user i q m st (SProc a2 (m ∪ {[SIGCHLD]}) (p ∪ r) al c e l ch (idle :: idle :: idle :: sc) u) = Done st s' ∧
    left_alone (SProc a m p al c e l ch sc0 u) s' r ∧ sg_children s' = ch) as Hback.
  { intros st e1 ch1 sc1 r ev ->. rewrite system_tail by done.
    destruct (unblock_chld user (reaped ev) (<[SIGQUIT := q]> (<[SIGINT := i]> a2)) m (m ∪ {[SIGCHLD]}) p al c e1 l ch1 sc1 u)
      as [u' E]; [done|done| |].
    { by rewrite Hrest. }
    erewrite bind_done by exact E. rewrite Hrest. eexists. split; [reflexivity|]. split; [|done].
    unfold left_alone, action_of. cbn. by split_and!. }
  split; intros He ->; rewrite Hfront.
  - subst errf. destruct (fork_runs user cmd i q m evf 0 a2 (m ∪ {[SIGCHLD]}) p al c e l ch
      (waits ++ Turn evs err :: idle :: idle :: idle :: sc) u Hw Hevf) as (x & E & Hc & Hmx & Hx).
    erewrite bind_done by exact E. cbn [Z.eqb negb].
    destruct (wait_jobs user waits evs err status a2 (m ∪ {[SIGCHLD]}) (p ∪ reaped evf) al c e l (ch ++ [x])
      (idle :: idle :: idle :: sc) u Hw Hwaits Hevs Herr) as [e' E'].
    erewrite bind_done by exact E'. rewrite <- (assoc_L (∪)), <- reaped_app.
    destruct (Hback (if err =? 0 then status else -1) e' (ch ++ [x]) sc _ (evf ++ mjoin (tn_events <$> waits) ++ evs) eq_refl) as (s' & -> & Hl & Hch).
    exists s', x. split_and!; try done. intros n. rewrite Hx. apply Hrest.
  - destruct (fork_runs user cmd i q m evf errf a2 (m ∪ {[SIGCHLD]}) p al c e l ch (idle :: idle :: idle :: sc) u Hw Hevf)
      as (x & E & _). rewrite (proj2 (Z.eqb_neq _ _)) in E by done.
    erewrite bind_done by exact E. cbn [negb]. erewrite bind_done by reflexivity.
    destruct (Hback (-1) errf ch sc _ evf eq_refl) as (s' & -> & Hl & Hch). by exists s'.
Qed.

Lemma system_runs_witness : ∃ s' c,
  system counting (Some (str "make")) 256 (ex_caller [idle; idle; idle; Turn [Raise SIGINT] 0;
    Turn [Raise SIGQUIT] EINTR; Turn [Raise SIGCHLD; Raise SIGINT] 0; idle; idle; idle]) = Done 256 s' ∧
  sg_log s' = [] ∧ sg_children s' = [c] ∧ ch_cmd c = str "make" ∧ ch_act c SIGINT = SigAct (Catch (User 3)) ∅ 0.
Proof.
  destruct (system_runs counting (ex_caller [idle; idle; idle; Turn [Raise SIGINT] 0;
    Turn [Raise SIGQUIT] EINTR; Turn [Raise SIGCHLD; Raise SIGINT] 0; idle; idle; idle]) (str "make") 256
    [Raise SIGINT] 0 [Turn [Raise SIGQUIT] EINTR] [Raise SIGCHLD; Raise SIGINT] 0 []) as [H _];
    try done; try by (apply (bool_decide_unpack _); vm_compute).
  destruct (H eq_refl eq_refl) as (s' & c & E & (_ & _ & _ & Hl) & Hc & H1 & H2 & _). exists s', c. by split_and!.
Defined.

(** When the second sigaction fails system returns with SIGINT ignored. *)
Lemma system_leaves_ignored : ∃ s',
  system counting (Some (str "make")) 0 (ex_caller [idle; Turn [] EINTR]) = Done (-1) s' ∧
  sa_handler (action_of s' SIGINT) = SIG_IGN.
Proof. eexists. split; [vm_compute; reflexivity|done]. Qed.

(** The version of proc/system.c returns the status of the command, too, but a SIGINT for the
    whole foreground, while the command runs, ends the caller. *)
Lemma system_nosig_runs {U} (user : nat → prog (sproc U) unit) s cmd status sc
    (Hsc : sg_script s = idle :: idle :: sc) :
  ∃ s', system_nosig user (Some cmd) status s = Done status s' ∧ sg_act s' = sg_act s ∧ sg_mask s' = sg_mask s ∧
    sg_children s' = sg_children s ++ [Child (cstr cmd) (action_of s) (sg_mask s)].
Proof. destruct s as [a m p al c e l ch sc0 u]. cbn in Hsc. subst sc0. by eexists. Qed.

Lemma system_nosig_killed : ∃ s',
  system_nosig counting (Some (str "make")) 0 (ex_caller [idle; Turn [Raise SIGQUIT] EINTR]) = Fatal (Killed SIGQUIT) s'.
Proof. eexists. vm_compute. reflexivity. Qed.
