(* ===== verification/AbortProps.v ===== *)
(** * abort of signals/abort.c never returns. *)
From Stdlib Require Import Ascii ZArith Lia.
From stdpp Require Import base strings gmap option list.
From S2P Require Import Prelude CStr Signals SignalsProps.

(** What happens around the calls are the signals of the system, and the calls themselves,
    whose arguments are right, do not fail. *)
Definition real_event (x : event) : Prop := match x with Raise g => g ∈ all_signals | Second => True end.
Definition real_turn (t : turn) : Prop := tn_err t = 0 ∧ Forall real_event (tn_events t).
Definition realistic {U} (s : sproc U) : Prop := Forall real_turn (sg_script s) ∧ sg_pending s ⊆ all_signals.

(** A program that returns with [Q], or whose process a signal or a handler ends. *)
Definition ends {U A} (user : nat → prog (sproc U) unit) (Q : A → sproc U → Prop) (o : outcome (sproc U) A) : Prop :=
  match o with
  | Done x s => Q x s
  | Fatal e s => (∃ g, e = Killed g) ∨ ∃ n s1, user n s1 = Fatal e s
  | _ => False
  end.

(** A handler returns, or ends the process. *)
Definition handlers_end {U} (user : nat → prog (sproc U) unit) : Prop :=
  ∀ n s, realistic s → ends user (λ _ s', realistic s') (user n s).

Section ends.
Context {U : Type} (user : nat → prog (sproc U) unit) (Huser : handlers_end user).
Implicit Types s : sproc U.

Lemma ends_bind {A B} (m : prog (sproc U) A) (k : A → prog (sproc U) B) s Q R :
  ends user Q (m s) → (∀ x s', Q x s' → ends user R (k x s')) → ends user R ((m ≫= k) s).
Proof. intros H Hk. unfold mbind, prog_bind. destruct (m s); [by apply Hk|done..]. Qed.

Lemma ends_mono {A} (Q R : A → sproc U → Prop) o : ends user Q o → (∀ x s, Q x s → R x s) → ends user R o.
Proof. destruct o; simpl; auto. Qed.

(** A signal leaves the mask as it was. *)
Lemma ends_deliver g s : realistic s → ends user (λ _ s', realistic s' ∧ sg_mask s' = sg_mask s) (deliver user g s).
Proof.
  intros Hs. unfold deliver. destruct (sa_handler (action_of s g)) as [| |h].
  - destruct (decide _); simpl; eauto.
  - done.
  - eapply (ends_bind _ _ _ (λ _ s', realistic s')); [|intros [] s' [H1 H2]; by split].
    destruct h as [|n]; [by destruct Hs|]. by apply Huser; destruct Hs.
Qed.

(** Invariants of the calls: [I] holds whatever signal comes, and does not depend on the rest. *)
Section inv.
Context (I : sproc U → Prop).
Hypothesis I_real : ∀ s, I s → realistic s.
Hypothesis I_raise : ∀ g s, I s → g ∈ all_signals → ends user (λ _, I) (raise user g s).
Hypothesis I_settle : ∀ g s, I s → g ∈ sg_pending s ∖ sg_mask s →
  ends user (λ _, I) (deliver user g (s <| sg_pending ::= λ p, p ∖ {[g]} |>)).
Hypothesis I_rest : ∀ s s', I s → sg_act s' = sg_act s → sg_mask s' = sg_mask s → sg_pending s' = sg_pending s →
  Forall real_turn (sg_script s') → I s'.

Lemma ends_happen x s : I s → real_event x → ends user (λ _, I) (happen user x s).
Proof.
  intros HI Hx. destruct x as [g|]; [by apply I_raise|]. unfold happen. destruct (I_real s HI) as [Hr _].
  repeat case_match; simpl.
  - by apply (I_rest s).
  - apply I_raise; [by apply (I_rest s)|]. apply (bool_decide_unpack _). by vm_compute.
  - by apply (I_rest s).
Qed.

Lemma ends_happens l s : I s → Forall real_event l → ends user (λ _, I) (happens user l s).
Proof.
  intros HI Hl. revert s HI. induction Hl as [|x l Hx Hl IH]; intros s HI; [done|]. cbn [happens].
  eapply ends_bind; [by apply ends_happen|]. intros [] s' Hs'. by apply IH.
Qed.

Lemma ends_syscall s : I s → ends user (λ ok s', ok = true ∧ I s') (syscall user s).
Proof.
  intros HI. destruct (I_real s HI) as [Hr Hp].
  destruct (sg_script s) as [|t l] eqn:E.
  - unfold syscall. erewrite bind_done by (unfold next_turn, mbind, prog_bind, get; rewrite E; reflexivity). done.
  - apply Forall_cons in Hr as [[He Ht] Hl]. unfold syscall.
    erewrite bind_done by (unfold next_turn, mbind, prog_bind, get; rewrite E; reflexivity).
    eapply ends_bind; [apply ends_happens; [|done]|].
    + by apply (I_rest s).
    + intros [] s' Hs'. by rewrite He.
Qed.

Lemma ends_settle s : I s → ends user (λ _, I) (settle user s).
Proof.
  unfold settle. generalize (elements (sg_pending s ∖ sg_mask s)). intros l. revert s.
  induction l as [|g l IH]; intros s HI; [done|]. cbn [settle_list]. unfold mbind at 1, prog_bind at 1, get.
  apply (ends_bind _ _ _ (λ _, I)); [|intros [] s' Hs'; by apply IH].
  destruct (decide _) as [Hg|]; [by apply I_settle|done].
Qed.

Lemma ends_sigaction g act s (J : sproc U → Prop) : I s →
  (∀ s1, I s1 → J (match act with None => s1 | Some a => s1 <| sg_act ::= <[g := a]> |>
     <| sg_pending ::= λ p, if decide (sa_handler a = SIG_IGN) then p ∖ {[g]} else p |> end)) →
  ends user (λ old s', (∃ a, old = Some a) ∧ J s') (sigaction user g act s).
Proof.
  intros HI HJ. unfold sigaction. eapply ends_bind; [by apply ends_syscall|]. intros ok s1 [-> H1]. cbn [negb].
  rewrite bind_gets. destruct act as [a|]; (split; [by eexists|]); by apply HJ.
Qed.

Lemma ends_kill g s : I s → g ∈ all_signals → ends user (λ _, I) (kill_self user g s).
Proof.
  intros HI Hg. unfold kill_self. eapply ends_bind; [by apply ends_syscall|]. intros ok s1 [_ H1]. by apply I_raise.
Qed.
End inv.

(** The three stages of abort: any state, SIGABRT the only signal that is not blocked, and
    with its default action. *)
Abbreviation M := (all_signals ∖ {[SIGABRT]}).
Definition stage1 s : Prop := realistic s ∧ sg_mask s = M.
Definition stage2 s : Prop := stage1 s ∧ sa_handler (action_of s SIGABRT) = SIG_DFL.

Lemma sigabrt_real : SIGABRT ∈ all_signals.
Proof. apply (bool_decide_unpack _). by vm_compute. Qed.

Lemma ends_raise g s : realistic s → g ∈ all_signals →
  ends user (λ _ s', realistic s' ∧ sg_mask s' = sg_mask s) (raise user g s).
Proof.
  intros [H1 H2] Hg. unfold raise. destruct (decide _); [|by apply ends_deliver].
  split; [|done]. split; [done|]. unfold update; cbn. set_solver.
Qed.

Lemma realistic_settle g s : realistic s → realistic (s <| sg_pending ::= λ p, p ∖ {[g]} |>).
Proof. intros [H1 H2]. split; [done|]. unfold update; cbn. set_solver. Qed.

Lemma killed_by_abort s : sa_handler (action_of s SIGABRT) = SIG_DFL → deliver user SIGABRT s = Fatal (Killed SIGABRT) s.
Proof. intros H. unfold deliver. rewrite H. rewrite decide_False; [done|]. apply (bool_decide_unpack _). by vm_compute. Qed.

Lemma only_abort g p : p ⊆ all_signals → g ∈ p → g ∉ M → g = SIGABRT.
Proof. intros Hp Hg Hm. destruct (decide (g = SIGABRT)); [done|]. set_solver. Qed.

Lemma stage2_raise g s : stage2 s → g ∈ all_signals → ends user (λ _, stage2) (raise user g s).
Proof.
  intros [[[H1 H2] Hm] Hd] Hg. unfold raise. destruct (decide _) as [Hb|Hb].
  - split; [|done]. split; [|done]. split; [done|]. unfold update; cbn. set_solver.
  - rewrite Hm in Hb. rewrite (only_abort g all_signals) by done. rewrite killed_by_abort by done. simpl. eauto.
Qed.

Lemma stage2_settle g s : stage2 s → g ∈ sg_pending s ∖ sg_mask s →
  ends user (λ _, stage2) (deliver user g (s <| sg_pending ::= λ p, p ∖ {[g]} |>)).
Proof.
  intros [[[H1 H2] Hm] Hd] Hg. rewrite Hm in Hg. apply elem_of_difference in Hg as [Hg Hb].
  rewrite (only_abort g (sg_pending s)) by done. rewrite killed_by_abort by done. simpl. eauto.
Qed.

(** What the stages give for the calls of abort. *)
Record stage (I : sproc U → Prop) : Prop := {
  stage_real : ∀ s, I s → realistic s;
  stage_raise : ∀ g s, I s → g ∈ all_signals → ends user (λ _, I) (raise user g s);
  stage_settle : ∀ g s, I s → g ∈ sg_pending s ∖ sg_mask s →
    ends user (λ _, I) (deliver user g (s <| sg_pending ::= λ p, p ∖ {[g]} |>));
  stage_rest : ∀ s s', I s → sg_act s' = sg_act s → sg_mask s' = sg_mask s → sg_pending s' = sg_pending s →
    Forall real_turn (sg_script s') → I s' }.

Lemma stage_0 : stage realistic.
Proof.
  split; [done| | |].
  - intros g s H Hg. eapply ends_mono; [by apply ends_raise|]. by intros ? ? [].
  - intros g s H Hg. eapply ends_mono; [by apply ends_deliver, realistic_settle|]. by intros ? ? [].
  - intros s s' [H1 H2] _ _ Hp Hs. split; [done|by rewrite Hp].
Qed.

Lemma stage_1 : stage stage1.
Proof.
  split; [by intros s []| | |].
  - intros g s [H Hm] Hg. eapply ends_mono; [by apply ends_raise|]. intros ? s' [H1 H2]. split; [done|congruence].
  - intros g s [H Hm] Hg. eapply ends_mono; [by apply ends_deliver, realistic_settle|].
    intros ? s' [H1 H2]. split; [done|]. by rewrite H2.
  - intros s s' [[H1 H2] Hm] _ Em Hp Hs. split; [|congruence]. split; [done|by rewrite Hp].
Qed.

Lemma stage_2 : stage stage2.
Proof.
  split; [by intros s [[] _]|apply stage2_raise|apply stage2_settle|].
  intros s s' [[[H1 H2] Hm] Hd] Ea Em Hp Hs. split; [|by unfold action_of; rewrite Ea].
  split; [|congruence]. split; [done|by rewrite Hp].
Qed.

Lemma stage_sigaction I g act s (J : sproc U → Prop) : stage I → I s →
  (∀ s1, I s1 → J (match act with None => s1 | Some a => s1 <| sg_act ::= <[g := a]> |>
     <| sg_pending ::= λ p, if decide (sa_handler a = SIG_IGN) then p ∖ {[g]} else p |> end)) →
  ends user (λ old s', (∃ a, old = Some a) ∧ J s') (sigaction user g act s).
Proof. intros [] ?. by apply ends_sigaction. Qed.

Lemma stage_sigsetmask I m s (J : sproc U → Prop) : stage I → stage J → I s →
  (∀ s1, I s1 → J (s1 <| sg_mask := m |>)) → ends user (λ _, J) (sigsetmask user m s).
Proof.
  intros [] [] HI HJ. unfold sigsetmask. eapply ends_bind; [by apply (ends_syscall I)|]. intros ok s1 [-> H1]. cbn [negb].
  eapply (ends_bind _ _ _ (λ _, J)); [|by intros [] s2]. unfold set_mask. rewrite bind_modify.
  apply ends_settle; auto.
Qed.

Lemma stage_kill I g s : stage I → I s → g ∈ all_signals → ends user (λ _, I) (kill_self user g s).
Proof. intros []. by apply ends_kill. Qed.

(** Without other signals. *)
Lemma abort_unhandled {A} a m p al c e l ch u :
  p ⊆ M → (∀ h, sa_handler (default (SigAct SIG_DFL ∅ 0) (a !! SIGABRT)) ≠ Catch h) →
  ∃ s', @abort U user A (SProc a m p al c e l ch [] u) = Fatal (Killed SIGABRT) s' ∧ sg_log s' = l ++ [Flushed].
Proof.
  intros Hp Hh. set (act := default (SigAct SIG_DFL ∅ 0) (a !! SIGABRT)) in *. unfold abort.
  erewrite bind_done by reflexivity. cbv iota. unfold action_of. cbn [sg_act]. fold act.
  assert (∀ a, sa_handler (default (SigAct SIG_DFL ∅ 0) (a !! SIGABRT)) = SIG_DFL →
    ∃ s', (sigsetmask user M ;; kill_self user SIGABRT) (SProc a m p al c e (l ++ [Flushed]) ch [] u)
      = Fatal (Killed SIGABRT) s' ∧ sg_log s' = l ++ [Flushed]) as Hkill.
  { intros a' Ha. eexists. erewrite bind_done.
    2:{ unfold sigsetmask. erewrite bind_done by reflexivity. cbn [negb]. by erewrite bind_done by (by apply set_mask_idle). }
    unfold kill_self. erewrite bind_done by reflexivity. unfold raise. cbn [sg_mask]. rewrite decide_False by set_solver.
    by rewrite killed_by_abort. }
  assert (∀ a (k : prog (sproc U) A), sa_handler (default (SigAct SIG_DFL ∅ 0) (a !! SIGABRT)) = SIG_DFL →
    ∃ s', (fflush_all ;; sigsetmask user M ;; kill_self user SIGABRT ;; k) (SProc a m p al c e l ch [] u)
      = Fatal (Killed SIGABRT) s' ∧ sg_log s' = l ++ [Flushed]) as Hrest.
  { intros a' k Ha. destruct (Hkill a' Ha) as (s' & E & Hl). exists s'. split; [|done].
    erewrite bind_done by reflexivity. unfold update; cbn. rewrite <- bind_assoc. unfold mbind at 1, prog_bind at 1.
    by rewrite E. }
  destruct (sa_handler act) as [| |h] eqn:Eh; [..|by destruct (Hh h)]; clear Hh; rename Eh into Hh.
  - rewrite decide_False by done. rewrite bind_ret, decide_True by done. by apply Hrest.
  - rewrite decide_True by done. rewrite bind_assoc. erewrite bind_done by reflexivity. rewrite bind_ret.
    cbn [sa_handler]. rewrite decide_True by done. unfold update; cbn. rewrite decide_False by done.
    apply Hrest. by rewrite lookup_insert_eq.
Qed.

Lemma abort_handled {A} h f a m p al c e l ch u :
  p ⊆ M → quiet user h f → sa_handler (default (SigAct SIG_DFL ∅ 0) (a !! SIGABRT)) = Catch (User h) →
  ∃ s', @abort U user A (SProc a m p al c e l ch [] u) = Fatal (Killed SIGABRT) s' ∧
    sg_log s' = l ++ [Caught SIGABRT; Flushed] ∧ sg_user s' = f u.
Proof.
  intros Hp Hq Hh. unfold abort.
  erewrite bind_done by reflexivity. cbv iota. unfold action_of. cbn [sg_act].
  rewrite decide_False by (by rewrite Hh). rewrite bind_ret. rewrite decide_False by (by rewrite Hh). rewrite bind_ret. cbv zeta.
  erewrite bind_done.
  2:{ unfold sigsetmask. erewrite bind_done by reflexivity. cbn [negb]. by erewrite bind_done by (by apply set_mask_idle). }
  erewrite bind_done.
  2:{ unfold kill_self. erewrite bind_done by reflexivity. unfold raise. cbn [sg_mask]. rewrite decide_False by set_solver.
      by eapply deliver_quiet. }
  erewrite bind_done by reflexivity. unfold update; cbn -[all_signals].
  erewrite bind_done by reflexivity. unfold update; cbn -[all_signals]. rewrite decide_False by done.
  eexists. erewrite bind_done.
  2:{ unfold sigsetmask. erewrite bind_done by reflexivity. cbn [negb]. by erewrite bind_done by (by apply set_mask_idle). }
  unfold kill_self. rewrite bind_assoc. erewrite bind_done by reflexivity. unfold mbind, prog_bind, raise. cbn [sg_mask].
  rewrite decide_False by set_solver. rewrite killed_by_abort by (unfold action_of; cbn; by rewrite lookup_insert_eq).
  split; [done|]. cbn. by rewrite <- app_assoc.
Qed.
End ends.

(** abort in any state. *)
Lemma abort_never_returns {U A} (user : nat → prog (sproc U) unit) s (Huser : handlers_end user) (Hs : realistic s) :
  ends user (λ (_ : A) _, False) (abort user s).
Proof.
  unfold abort.
  eapply ends_bind; [by apply (stage_sigaction user realistic _ _ _ realistic); [by apply stage_0|..]|].
  intros old s1 [[act ->] H1].
  apply (ends_bind user _ _ _ (λ _, realistic)).
  { case_decide; [|done]. eapply ends_bind.
    - apply (stage_sigaction user realistic _ _ _ realistic); [by apply stage_0|done|].
      intros s2 [H2 H3]. split; [done|]. unfold update; cbn. case_decide; set_solver.
    - by intros old s2 [_ H2]. }
  clear s1 act H1. intros act s1 H1.
  apply (ends_bind user _ _ _ (λ _, realistic)); [by case_decide|]. clear s1 H1. intros [] s1 H1. cbv zeta.
  eapply ends_bind.
  { apply (stage_sigsetmask user realistic _ _ stage1); [by apply stage_0|by apply stage_1|done|by intros s2]. }
  clear s1 H1. intros ? s1 H1.
  eapply ends_bind; [apply (stage_kill user stage1); [by apply stage_1|done|apply sigabrt_real]|].
  clear s1 H1. intros ? s1 H1.
  apply (ends_bind user _ _ _ (λ _, stage1)); [done|]. clear s1 H1. intros [] s1 H1.
  eapply ends_bind.
  { apply (stage_sigaction user stage1 _ _ _ stage2); [by apply stage_1|done|].
    intros s2 [[H2 H3] Hm]. split.
    - split; [|done]. split; [done|]. unfold update; cbn. case_decide; set_solver.
    - unfold action_of, update; cbn. by rewrite lookup_insert_eq. }
  clear s1 H1. intros ? s1 [_ H1].
  eapply ends_bind.
  { apply (stage_sigsetmask user stage2 _ _ stage2); [by apply (stage_2 user)..|done|]. intros s2 [[H2 Hm] Hd]. done. }
  clear s1 H1. intros ? s1 H1.
  unfold kill_self. rewrite bind_assoc. eapply ends_bind; [by apply (ends_syscall user stage2); [apply (stage_2 user)..|done]|].
  intros ok s2 [_ [[Hr Hm] Hd]]. unfold mbind, prog_bind, raise. rewrite decide_False by (rewrite Hm; set_solver).
  rewrite killed_by_abort by done. simpl. eauto.
Qed.

(** C28: abort of signals/abort.c does not return, whatever the action for SIGABRT and the mask
    are, whatever other signals come and are pending, and whatever the handlers do, even if
    they set SIGABRT's action again: a signal ends the process, or a handler does.  When
    nothing else happens it is SIGABRT that ends it, after the streams have been written
    out: before the signal if it is ignored or has its default action, after its handler
    has run once if it has one. *)
Theorem abort_ends {U A} (user : nat → prog (sproc U) unit) s (Huser : handlers_end user) (Hs : realistic s) :
  ends user (λ (_ : A) _, False) (abort user s) ∧
  (sg_script s = [] → sg_pending s ⊆ all_signals ∖ {[SIGABRT]} →
    match sa_handler (action_of s SIGABRT) with
    | Catch (User h) => ∀ f, quiet user h f → ∃ s', @abort U user A s = Fatal (Killed SIGABRT) s' ∧
        sg_log s' = sg_log s ++ [Caught SIGABRT; Flushed] ∧ sg_user s' = f (sg_user s)
    | Catch SigAlrm => True
    | _ => ∃ s', @abort U user A s = Fatal (Killed SIGABRT) s' ∧ sg_log s' = sg_log s ++ [Flushed]
    end).
Proof.
  split; [by apply abort_never_returns|]. destruct s as [a m p al c e l ch sc u]. cbn [sg_script sg_pending].
  intros -> Hp. unfold action_of. cbn [sg_act sg_log sg_user].
  destruct (sa_handler _) as [| |[|h]] eqn:Eh; [..|intros f Hf; by eapply abort_handled].
  - apply (abort_unhandled user); [done|done|intros ?; congruence].
  - apply (abort_unhandled user); [done|done|intros ?; congruence].
  - done.
Qed.

(** A process whose handlers count, with one for SIGABRT and SIGINT. *)
Lemma counting_ends : handlers_end counting.
Proof. intros n s [H1 H2]. by split. Qed.

Definition ex_proc (sc : list turn) : sproc nat :=
  SProc (<[SIGABRT := SigAct (Catch (User 2)) ∅ 0]> (<[SIGINT := SigAct (Catch (User 3)) ∅ 0]> ∅)) {[SIGABRT]} ∅ 0 0 0 [] [] sc 0%nat.

Lemma abort_ends_witness : ∃ s', @abort nat counting unit (ex_proc []) = Fatal (Killed SIGABRT) s' ∧
  sg_log s' = [Caught SIGABRT; Flushed] ∧ sg_user s' = 2%nat.
Proof.
  destruct (@abort_ends nat unit counting (ex_proc []) counting_ends) as [_ H].
  - split; [done|]. apply (bool_decide_unpack _). by vm_compute.
  - change (sa_handler (action_of (ex_proc []) SIGABRT)) with (Catch (User 2)) in H.
    apply (H eq_refl) with (f := Nat.add 2); [|done]. apply (bool_decide_unpack _). by vm_compute.
Defined.
