(* ===== verification/Sigset.v ===== *)
(** * Signal sets as integers: signals/setops.c. *)
From Stdlib Require Import Ascii ZArith Lia.
From stdpp Require Import base strings gmap option list.
From S2P Require Import Prelude.

Definition EINVAL : Z := 22.

(** The set, an unsigned int, and errno. *)
Record sigset := Sigset { ss_set : Z; ss_errno : Z }.
#[export] Instance sigset_rebuild : Rebuild sigset := λ s, Sigset (ss_set s) (ss_errno s).

Section setops.
(** The number of signals of the system, signal 0 included. *)
Context (NSIG : Z).

Definition SIGBAD (signo : Z) : bool := (signo <=? 0) || (NSIG <=? signo).

(** 1 << (signo - 1): the shift of an int is defined up to 30. *)
Definition sigbit (signo : Z) : prog sigset Z :=
  defined (signo - 1 <=? 30) ;;
  mret (Z.shiftl 1 (signo - 1)).

Definition set_einval : prog sigset Z := modify (λ s, s <| ss_errno := EINVAL |>) ;; mret (-1).

Definition sigaddset (signo : Z) : prog sigset Z :=
  if SIGBAD signo then set_einval
  else
    b ← sigbit signo;
    modify (λ s, s <| ss_set ::= λ x, Z.lor x b |>) ;;
    mret 0.

Definition sigdelset (signo : Z) : prog sigset Z :=
  if SIGBAD signo then set_einval
  else
    b ← sigbit signo;
    modify (λ s, s <| ss_set ::= λ x, Z.land x (wrap_u 32 (Z.lnot b)) |>) ;;
    mret 0.

Definition sigismember (signo : Z) : prog sigset Z :=
  if SIGBAD signo then set_einval
  else
    b ← sigbit signo;
    x ← gets ss_set;
    mret (Z.b2z (negb (Z.land x b =? 0))).
End setops.

(** The set of signals an integer stands for. *)
Definition signals (x : Z) : gset Z := filter (λ n, Z.testbit x (n - 1) = true) (list_to_set (seqZ 1 32)).

Lemma elem_of_signals n x : n ∈ signals x ↔ 1 <= n <= 32 ∧ Z.testbit x (n - 1) = true.
Proof. unfold signals. rewrite elem_of_filter, elem_of_list_to_set, elem_of_seqZ. intuition lia. Qed.

Lemma testbit_one k n : 0 <= k -> Z.testbit (Z.shiftl 1 k) n = (n =? k).
Proof.
  intros Hk. rewrite Z.shiftl_1_l. destruct (Z.eqb_spec n k) as [->|Hne]; [by apply Z.pow2_bits_true|].
  by apply Z.pow2_bits_false.
Qed.

Lemma testbit_mask k n : 0 <= n < 32 → 0 <= k → Z.testbit (wrap_u 32 (Z.lnot (Z.shiftl 1 k))) n = negb (n =? k).
Proof.
  intros Hn Hk. unfold wrap_u. rewrite Z.mod_pow2_bits_low, Z.lnot_spec by lia. by rewrite testbit_one.
Qed.

Lemma testbit_high x n : 0 <= x < 2 ^ 32 → 32 <= n → Z.testbit x n = false.
Proof.
  intros H Hn. destruct (decide (x = 0)) as [->|]; [by apply Z.bits_0|]. apply Z.bits_above_log2; [lia|].
  apply Z.lt_le_trans with 32; [|done]. apply Z.log2_lt_pow2; lia.
Qed.

Lemma bits_32 x : (∀ n, 32 <= n → Z.testbit x n = false) → 0 <= x < 2 ^ 32.
Proof.
  intros H. assert (x = x mod 2 ^ 32) as ->; [|apply Z.mod_pos_bound; lia]. apply Z.bits_inj'. intros n Hn.
  destruct (decide (n < 32)); [by rewrite Z.mod_pow2_bits_low|]. rewrite Z.mod_pow2_bits_high, H by lia. done.
Qed.

Lemma land_pow2 x k : 0 <= k → (Z.land x (Z.shiftl 1 k) =? 0) = negb (Z.testbit x k).
Proof.
  intros Hk. destruct (Z.testbit x k) eqn:E; cbn.
  - apply Z.eqb_neq. intros E0. assert (Z.testbit (Z.land x (Z.shiftl 1 k)) k = true) as E1.
    { rewrite Z.land_spec, E, testbit_one, Z.eqb_refl by lia. done. }
    by rewrite E0, Z.bits_0 in E1.
  - apply Z.eqb_eq, Z.bits_inj'. intros n Hn. rewrite Z.land_spec, testbit_one, Z.bits_0 by lia.
    destruct (Z.eqb_spec n k) as [->|]; [by rewrite E|by rewrite andb_false_r].
Qed.

(** With at most 31 signals the routines of setops.c are those of a finite set: sigaddset
    adds the signal, sigdelset removes it, sigismember tells whether it is in the set, and
    the set stays one of 32 bits; a number that is no signal is refused with EINVAL and
    changes nothing. *)
Theorem setops_sets NSIG signo s (Hn : NSIG <= 32) (Hs : 0 <= ss_set s < 2 ^ 32) :
  (1 <= signo < NSIG →
    (∃ x, sigaddset NSIG signo s = Done 0 (Sigset x (ss_errno s)) ∧ 0 <= x < 2 ^ 32 ∧ signals x = signals (ss_set s) ∪ {[signo]}) ∧
    (∃ x, sigdelset NSIG signo s = Done 0 (Sigset x (ss_errno s)) ∧ 0 <= x < 2 ^ 32 ∧ signals x = signals (ss_set s) ∖ {[signo]}) ∧
    sigismember NSIG signo s = Done (if decide (signo ∈ signals (ss_set s)) then 1 else 0) s) ∧
  (signo < 1 ∨ NSIG <= signo → ∀ f, f ∈ [sigaddset; sigdelset; sigismember] →
    f NSIG signo s = Done (-1) (Sigset (ss_set s) EINVAL)).
Proof.
  split.
  - intros H. assert (SIGBAD NSIG signo = false) as Hbad by (unfold SIGBAD; lia).
    assert (∀ P : Z → sigset → outcome sigset Z, (b ← sigbit signo; P b) s = P (Z.shiftl 1 (signo - 1)) s) as Hbit.
    { intros P. unfold sigbit. rewrite bind_assoc, bind_defined_true by (apply Z.leb_le; lia). by rewrite bind_ret. }
    unfold sigaddset, sigdelset, sigismember. rewrite Hbad, !Hbit. split_and!.
    + eexists. split; [reflexivity|]. destruct s as [x e]. unfold update; cbn in *. split.
      * apply bits_32. intros n Hle. rewrite Z.lor_spec, testbit_one, testbit_high by lia. lia.
      * apply set_eq. intros n. rewrite elem_of_union, !elem_of_signals, elem_of_singleton.
        destruct (decide (1 <= n <= 32)) as [Hn1|]; [|lia]. rewrite Z.lor_spec, testbit_one, orb_true_iff, Z.eqb_eq by lia. intuition lia.
    + eexists. split; [reflexivity|]. destruct s as [x e]. unfold update; cbn in *. split.
      * apply bits_32. intros n Hle. rewrite Z.land_spec, testbit_high by lia. done.
      * apply set_eq. intros n. rewrite elem_of_difference, !elem_of_signals, elem_of_singleton.
        destruct (decide (1 <= n <= 32)) as [Hn1|]; [|lia]. rewrite Z.land_spec, testbit_mask, andb_true_iff, negb_true_iff, Z.eqb_neq by lia. intuition lia.
    + rewrite bind_gets. unfold mret, prog_ret. f_equal. rewrite (land_pow2 (ss_set s) (signo - 1)) by lia.
      destruct (decide _) as [Hin|Hin]; [by apply elem_of_signals in Hin as [_ ->]|].
      destruct (Z.testbit _ _) eqn:E; [|done]. destruct Hin. apply elem_of_signals. split; [lia|done].
  - intros H f Hf. assert (SIGBAD NSIG signo = true) as Hbad by (unfold SIGBAD; lia).
    rewrite !elem_of_cons, elem_of_nil in Hf. destruct Hf as [->|[->|[->|[]]]];
      unfold sigaddset, sigdelset, sigismember; by rewrite Hbad.
Qed.

(** With the 64 signals of Linux the routines are not defined for signal 32 and above. *)
Lemma setops_many_signals signo s : 32 <= signo < 65 → sigaddset 65 signo s = Undef s.
Proof.
  intros H. unfold sigaddset. assert (SIGBAD 65 signo = false) as -> by (unfold SIGBAD; lia).
  unfold sigbit, defined. assert (signo - 1 <=? 30 = false) as -> by lia. done.
Qed.

Lemma setops_sets_witness :
  (∃ x, sigaddset 32 2 (Sigset 0x20 0) = Done 0 (Sigset x 0) ∧ signals x = {[6]} ∪ {[2]}) ∧
  sigismember 32 6 (Sigset 0x20 0) = Done 1 (Sigset 0x20 0) ∧ sigdelset 32 32 (Sigset 0x20 0) = Done (-1) (Sigset 0x20 22).
Proof.
  split_and!.
  - destruct (setops_sets 32 2 (Sigset 0x20 0)) as [H _]; [done|done|]. destruct H as [(x & E & _ & H) _]; [lia|].
    exists x. split; [done|]. rewrite H. by apply (bool_decide_unpack _); vm_compute.
  - destruct (setops_sets 32 6 (Sigset 0x20 0)) as [H _]; [done|done|]. destruct H as (_ & _ & H); [lia|].
    rewrite H. by rewrite decide_True by (apply (bool_decide_unpack _); by vm_compute).
  - destruct (setops_sets 32 32 (Sigset 0x20 0)) as [_ H]; [done|done|]. apply H; [lia|in_list; done].
Defined.
