(* ===== verification/Servers.v ===== *)
(** * The uptime servers and their client: sockets/ and exercises/test_16.3.c to 16.5.c.

    init_server in its three versions, the loops that accept connections and answer them, the
    server that waits for several sockets with select, and the client that connects with
    exponential backoff.  Network and kernel are a state: the descriptor table of the
    server, the connections that wait at each socket, and what has been answered. *)
From Stdlib Require Import Ascii ZArith Lia.
From stdpp Require Import base strings gmap option list.
From S2P Require Import Prelude CStr Fds.

Definition EAGAIN : Z := 11.
Definition EBADF : Z := 9.
Definition STDOUT_FILENO : Z := 1.
Definition STDERR_FILENO : Z := 2.
Definition FD_SETSIZE : Z := 1024.
Definition BUFLEN : nat := 128.

(** A socket that listens at an address, a connection, something else. *)
Inductive sobj := Listener (k : nat) | Conn (c : nat) | Other (n : nat).
#[export] Instance sobj_eq_dec : EqDecision sobj.
Proof. solve_decision. Defined.

(** What a client has been sent by the server itself, or the descriptors of the process
    that answers. *)
Inductive reply := Sent (b : bytes) | Ran (t : fdtab sobj).

Record srv := Srv {
  v_fds : fdtab sobj; v_queue : nat → list nat; v_nonblock : gset nat; v_cloexec : gset Z;
  v_errno : Z; v_log : list (nat * reply) }.
#[export] Instance srv_rebuild : Rebuild srv := λ s,
  Srv (v_fds s) (v_queue s) (v_nonblock s) (v_cloexec s) (v_errno s) (v_log s).

Definition set_errno (e : Z) : prog srv unit := modify (λ s, s <| v_errno := e |>).
Definition close (fd : Z) : prog srv unit :=
  modify (λ s, s <| v_fds ::= fd_close fd |> <| v_cloexec ::= λ x, x ∖ {[fd]} |>).
Definition new_fd (a : sobj) : prog srv Z :=
  s ← get;
  let '(fd, t) := fd_open a (v_fds s) in
  modify (λ s, s <| v_fds := t |>) ;; mret fd.

(** ** initserver *)

(** The errors of the calls for one address, 0 for success. *)
Record addr := Addr { ad_socket : Z; ad_reuseaddr : Z; ad_reuseport : Z; ad_bind : Z; ad_listen : Z }.

(** errout. *)
Definition errout (fd : Z) : prog srv Z :=
  err ← gets v_errno;
  close fd ;;
  set_errno err ;;
  mret (-1).

(** The calls behind socket(), in their order. *)
Fixpoint set_up (calls : list Z) (fd : Z) : prog srv Z :=
  match calls with
  | [] => mret fd
  | e :: calls => if negb (e =? 0) then set_errno e ;; errout fd else set_up calls fd
  end.

Definition init_with (options : addr → list Z) (stream : bool) (k : nat) (a : addr) : prog srv Z :=
  if negb (ad_socket a =? 0) then set_errno (ad_socket a) ;; mret (-1)
  else
    fd ← new_fd (Listener k);
    set_up (options a ++ [ad_bind a] ++ (if stream then [ad_listen a] else [])) fd.

(** sockets/initsrv1.c, initsrv2.c, ruptimed-reuse.c. *)
Definition initserver1 : bool → nat → addr → prog srv Z := init_with (λ _, []).
Definition initserver2 : bool → nat → addr → prog srv Z := init_with (λ a, [ad_reuseaddr a]).
Definition init_server : bool → nat → addr → prog srv Z := init_with (λ a, [ad_reuseaddr a; ad_reuseport a]).

(** ** accept *)

(** lib/setfd.c and lib/setfl.c, with O_NONBLOCK. *)
Definition set_cloexec (fd : Z) : prog srv unit :=
  s ← get;
  match v_fds s !! fd with None => set_errno EBADF | Some _ => modify (λ s, s <| v_cloexec ::= λ x, x ∪ {[fd]} |>) end.
Definition set_nonblock (fd : Z) : prog srv unit :=
  s ← get;
  match v_fds s !! fd with
  | Some (Listener k) => modify (λ s, s <| v_nonblock ::= λ x, x ∪ {[k]} |>)
  | Some _ => mret tt
  | None => die (ErrSys "fcntl F_GETFL error")
  end.

(** [NoFuel]: it waits for a connection. *)
Definition accept (sockfd : Z) : prog srv Z :=
  s ← get;
  match v_fds s !! sockfd with
  | Some (Listener k) =>
      match v_queue s k with
      | c :: q =>
          modify (λ s, s <| v_queue ::= λ f, λ k', if decide (k' = k) then q else f k' |>) ;;
          new_fd (Conn c)
      | [] => if decide (k ∈ v_nonblock s) then set_errno EAGAIN ;; mret (-1) else λ _, NoFuel
      end
  | _ => set_errno EBADF ;; mret (-1)
  end.

Definition client_of (s : srv) (fd : Z) : nat := match v_fds s !! fd with Some (Conn c) => c | _ => 0%nat end.
Definition tell (fd : Z) (r : reply) : prog srv unit :=
  modify (λ s, s <| v_log ::= λ l, l ++ [(client_of s fd, r)] |>).

(** ** Answers *)

(** exercises/test_16.4.c: the number of processes, from the first line of the pipeline;
    [ps]: what it prints, or popen's error text. *)
Definition count_reply (ps : bytes + bytes) : prog srv (option bytes) :=
  match ps with
  | inr err =>
      let buf := str "error: " ++ cstr err ++ [NEWLINE] in
      defined (length buf <? BUFLEN)%nat ;; mret (Some buf)
  | inl out =>
      match (fgets (BUFLEN - 1) out).1 with
      | [] => mret None
      | line => mret (Some (dec (atoi line - 2)))
      end
  end.
Definition answer_count (ps : nat → bytes + bytes) (fd : Z) : prog srv unit :=
  s ← get;
  r ← count_reply (ps (client_of s fd));
  match r with Some b => tell fd (Sent b) | None => mret tt end ;;
  close fd.

(** sockets/ruptimed.c and ruptimed-reuse.c: the output of uptime, in pieces of a buffer. *)
Fixpoint copy_lines (fuel : nat) (out : bytes) : prog srv bytes :=
  match fuel with
  | O => λ _, NoFuel
  | S fuel =>
      match fgets (BUFLEN - 1) out with
      | ([], _) => mret []
      | (buf, out) => rest ← copy_lines fuel out; mret (cstr buf ++ rest)
      end
  end.
Definition answer_uptime (uptime : nat → bytes + bytes) (fd : Z) : prog srv unit :=
  s ← get;
  match uptime (client_of s fd) with
  | inr err =>
      let buf := str "error: " ++ cstr err ++ [NEWLINE] in
      defined (length buf <? BUFLEN)%nat ;; tell fd (Sent buf)
  | inl out => b ← copy_lines (S (length out)) out; tell fd (Sent b)
  end ;;
  close fd.

(** sockets/ruptimed-fd.c and exercises/test_16.5.c: the child's descriptors when it calls
    execl, which closes those of [cloexec]; the second also closes sockfd.  [forks]: whether
    fork succeeds for a client; the server ends when it does not. *)
Definition exec_fds (cloexec : gset Z) (t : fdtab sobj) : fdtab sobj := filter (λ p, p.1 ∉ cloexec) t.
Definition uptime_child (close_listener : bool) (sockfd clfd : Z) (t : fdtab sobj) : fdtab sobj :=
  let t := (fd_dup2 clfd STDOUT_FILENO t).2 in
  let t := (fd_dup2 clfd STDERR_FILENO t).2 in
  let t := fd_close clfd t in
  if close_listener then fd_close sockfd t else t.
Definition answer_exec (forks : nat → bool) (close_listener : bool) (sockfd fd : Z) : prog srv unit :=
  s ← get;
  check (forks (client_of s fd)) (Exit 1) ;;
  tell fd (Ran (exec_fds (v_cloexec s ∖ {[STDOUT_FILENO; STDERR_FILENO]}) (uptime_child close_listener sockfd fd (v_fds s)))) ;;
  close fd.

(** ** The loops on accept *)

Fixpoint accept_all (fuel : nat) (answer : Z → prog srv unit) (sockfd : Z) : prog srv unit :=
  match fuel with
  | O => λ _, NoFuel
  | S fuel =>
      connect_fd ← accept sockfd;
      if connect_fd =? -1 then mret tt else answer connect_fd ;; accept_all fuel answer sockfd
  end.

(** serve of test_16.4.c and test_16.5.c; each round of the loop takes a connection from the
    queue. *)
Definition serve_nonblock (answer : Z → prog srv unit) (sockfd : Z) : prog srv unit :=
  set_cloexec sockfd ;;
  set_nonblock sockfd ;;
  s ← get;
  let waiting := match v_fds s !! sockfd with Some (Listener k) => length (v_queue s k) | _ => 0%nat end in
  accept_all (S waiting) answer sockfd.

Definition serve_count (ps : nat → bytes + bytes) (sockfd : Z) : prog srv unit :=
  serve_nonblock (λ fd, set_cloexec fd ;; answer_count ps fd) sockfd.
Definition serve_exec (forks : nat → bool) (sockfd : Z) : prog srv unit := serve_nonblock (answer_exec forks true sockfd) sockfd.

(** serve of ruptimed.c and ruptimed-reuse.c (popen) and of ruptimed-fd.c (fork), on a socket
    that blocks: the first [n] rounds of a loop that ends only when accept fails. *)
Fixpoint serve_rounds (n : nat) (answer : Z → prog srv unit) (sockfd : Z) : prog srv unit :=
  match n with
  | O => mret tt
  | S n =>
      clfd ← accept sockfd;
      check (0 <=? clfd) (Exit 1) ;;
      answer clfd ;;
      serve_rounds n answer sockfd
  end.
Definition serve_popen (uptime : nat → bytes + bytes) (n : nat) (sockfd : Z) : prog srv unit :=
  set_cloexec sockfd ;; serve_rounds n (λ fd, set_cloexec fd ;; answer_uptime uptime fd) sockfd.
Definition serve_fork (forks : nat → bool) (n : nat) (sockfd : Z) : prog srv unit :=
  set_cloexec sockfd ;; serve_rounds n (answer_exec forks false sockfd) sockfd.

(** ** Several sockets: main of test_16.4.c and test_16.5.c *)

(** The loop over the addresses: the list of sockets, in the order of the addresses, and the
    variable sockfd. *)
Fixpoint init_all (init : nat → addr → prog srv Z) (mem : nat → bool) (k : nat) (addrs : list addr) (fds : list Z) (sockfd : Z) :
    prog srv (list Z * Z) :=
  match addrs with
  | [] => mret (fds, sockfd)
  | a :: addrs =>
      sockfd ← init k a;
      if 0 <=? sockfd then
        check (mem k) (ErrSys "malloc error") ;;
        init_all init mem (S k) addrs (fds ++ [sockfd]) sockfd
      else init_all init mem (S k) addrs fds sockfd
  end.

(** FD_SET for each socket, and the computation of max_fd. *)
Fixpoint fill_set (sockfd : Z) (fds : list Z) (max_fd : Z) : prog srv Z :=
  match fds with
  | [] => mret max_fd
  | fd :: fds =>
      defined (fd <? FD_SETSIZE) ;;
      fill_set sockfd fds (if max_fd <? fd then sockfd else max_fd)
  end.

(** Whether select finds a socket of its set ready. *)
Definition ready (s : srv) (max_fd fd : Z) : bool :=
  (fd <? max_fd + 1) && match v_fds s !! fd with Some (Listener k) => negb (length (v_queue s k) =? 0)%nat | _ => false end.

(** What happens while the server is in select: connections to addresses, or a signal. *)
Inductive input := Arrive (l : list (nat * nat)) | Interrupt.

Definition connect_to (k c : nat) (s : srv) : srv :=
  s <| v_queue ::= λ f, λ k', if decide (k' = k) then f k' ++ [c] else f k' |>.
Definition arrive (l : list (nat * nat)) (s : srv) : srv := foldl (λ s p, connect_to p.1 p.2 s) s l.

Fixpoint serve_ready (serve : Z → prog srv unit) (rd : Z → bool) (fds : list Z) : prog srv unit :=
  match fds with
  | [] => mret tt
  | fd :: fds => (if rd fd then serve fd else mret tt) ;; serve_ready serve rd fds
  end.

(** A round of the loop; [eintr]: the server goes on after a signal (test_16.5.c).  When
    nothing of the set is ready select goes on waiting. *)
Definition server_round (serve : Z → prog srv unit) (eintr : bool) (fds : list Z) (sockfd : Z) (x : input) : prog srv unit :=
  max_fd ← fill_set sockfd fds 0;
  match x with
  | Interrupt => check eintr (ErrSys "select error")
  | Arrive l =>
      modify (arrive l) ;;
      s ← get;
      serve_ready serve (ready s max_fd) fds
  end.

Fixpoint server_loop (serve : Z → prog srv unit) (eintr : bool) (fds : list Z) (sockfd : Z) (xs : list input) : prog srv unit :=
  match xs with
  | [] => mret tt
  | x :: xs => server_round serve eintr fds sockfd x ;; server_loop serve eintr fds sockfd xs
  end.

Definition server_main (init : nat → addr → prog srv Z) (serve : Z → prog srv unit) (eintr : bool)
    (mem : nat → bool) (addrs : list addr) (sockfd : Z) (xs : list input) : prog srv unit :=
  p ← init_all init mem 0 addrs [] sockfd;
  let '(fds, sockfd) := p in
  match fds with
  | [] => die (Exit 1)
  | _ => server_loop serve eintr fds sockfd xs
  end.

(** ** The client: sockets/clconn.c, clconn2.c and ruptime.c *)

Record cli := Cli { x_fds : fdtab nat; x_slept : list Z; x_errno : Z; x_out : bytes }.
#[export] Instance cli_rebuild : Rebuild cli := λ s, Cli (x_fds s) (x_slept s) (x_errno s) (x_out s).

Definition INT_MAX : Z := 2 ^ 31 - 1.

Section connect_retry.
Context (MAXSLEEP : Z).
(** The errors of the calls of connect and of socket, 0 for success. *)
Context (conn sock : nat → Z).

Definition delay (numsec : Z) : prog cli unit :=
  if numsec <=? MAXSLEEP / 2 then modify (λ s, s <| x_slept ::= λ l, l ++ [numsec] |>) else mret tt.
Definition next_numsec (numsec : Z) : prog cli Z := defined (numsec * 2 <=? INT_MAX) ;; mret (Z.shiftl numsec 1).

(** clconn.c: [i] counts the attempts. *)
Fixpoint retry_same (fuel i : nat) (numsec : Z) : prog cli Z :=
  if numsec <=? MAXSLEEP then
    match fuel with
    | O => λ _, NoFuel
    | S fuel =>
        if conn i =? 0 then mret 0
        else
          modify (λ s, s <| x_errno := conn i |>) ;;
          delay numsec ;;
          numsec ← next_numsec numsec;
          retry_same fuel (S i) numsec
    end
  else mret (-1).

(** clconn2.c and ruptime.c: a new socket for each attempt. *)
Fixpoint retry_new (fuel i : nat) (numsec : Z) : prog cli Z :=
  if numsec <=? MAXSLEEP then
    match fuel with
    | O => λ _, NoFuel
    | S fuel =>
        if negb (sock i =? 0) then modify (λ s, s <| x_errno := sock i |>) ;; mret (-1)
        else
          s ← get;
          let '(fd, t) := fd_open i (x_fds s) in
          modify (λ s, s <| x_fds := t |>) ;;
          if conn i =? 0 then mret fd
          else
            modify (λ s, s <| x_errno := conn i |>) ;;
            modify (λ s, s <| x_fds ::= fd_close fd |>) ;;
            delay numsec ;;
            numsec ← next_numsec numsec;
            retry_new fuel (S i) numsec
    end
  else mret (-1).
End connect_retry.

(** numsec is doubled in each round: 32 rounds are enough for an int. *)
Definition connect_retry_same MAXSLEEP conn : prog cli Z := retry_same MAXSLEEP conn 32 0 1.
Definition connect_retry MAXSLEEP conn sock : prog cli Z := retry_new MAXSLEEP conn sock 32 0 1.

(** print_uptime of ruptime.c: what recv returns, and the error it ends with, or 0. *)
Definition print_uptime (pieces : list bytes) (err : Z) : prog cli unit :=
  foldr (λ b rest, modify (λ s, s <| x_out ::= λ o, o ++ b |>) ;; rest)
    (check (err =? 0) (ErrSys "recv error")) pieces.

(** The loop of main of ruptime.c over the addresses: for each the calls of connect and socket,
    and what is received. *)
Record host := Host { ho_conn : nat → Z; ho_sock : nat → Z; ho_pieces : list bytes; ho_err : Z }.
Definition RUPTIME_MAXSLEEP : Z := 64.
Fixpoint ruptime (hosts : list host) : prog cli unit :=
  match hosts with
  | [] => die (ErrSys "can't connect to %s")
  | h :: hosts =>
      sockfd ← connect_retry RUPTIME_MAXSLEEP (ho_conn h) (ho_sock h);
      if sockfd <? 0 then ruptime hosts
      else print_uptime (ho_pieces h) (ho_err h) ;; die (Exit 0)
  end.
