(* ===== verification/ServersProps.v ===== *)
(** * Properties of the uptime servers and their client. *)
From Stdlib Require Import Ascii ZArith Lia.
From stdpp Require Import base strings gmap option list.
From S2P Require Import Prelude CStr Fds Servers.

(** ** Descriptors *)

Section lowest.
Context {A : Type}.
Implicit Types t : fdtab A.

Lemma lowest_grows t a : lowest t < lowest (<[lowest t := a]> t).
Proof.
  pose proof (lowest_free (<[lowest t := a]> t)) as Hf. set (m := lowest (<[lowest t := a]> t)) in *.
  destruct (Z.lt_trichotomy m (lowest t)) as [H|[H|H]]; [|by rewrite H, lookup_insert_eq in Hf|done].
  destruct (lowest_used t m) as [x Hx]; [pose proof (lowest_nonneg (<[lowest t := a]> t)); lia|].
  rewrite lookup_insert_ne in Hf by lia. congruence.
Qed.

Lemma open_close t a : fd_close (lowest t) (<[lowest t := a]> t) = t.
Proof. apply delete_insert_id, lowest_free. Qed.
End lowest.

(** What is true of the server between two calls: the descriptors 0, 1 and 2 are in use (by
    my_daemonize), no connection is left open, and the flags are those of descriptors. *)
Definition tidy (s : srv) : Prop :=
  (∀ i, 0 <= i < 3 → is_Some (v_fds s !! i)) ∧ (∀ i c, v_fds s !! i ≠ Some (Conn c)) ∧ v_cloexec s ⊆ dom (v_fds s).

Lemma tidy_lowest s : tidy s → 3 <= lowest (v_fds s) ∧ lowest (v_fds s) ∉ v_cloexec s.
Proof.
  intros (H1 & _ & H2). pose proof (lowest_free (v_fds s)) as Hf. split.
  - pose proof (lowest_nonneg (v_fds s)). destruct (decide (lowest (v_fds s) < 3)); [|lia].
    destruct (H1 (lowest (v_fds s))) as [x Hx]; [lia|]. congruence.
  - intros H%H2. apply elem_of_dom in H as [x Hx]. congruence.
Qed.

(** ** initserver *)

Lemma set_up_done calls fd s :
  set_up calls fd s =
    match filter (λ e, e ≠ 0) calls with
    | [] => Done fd s
    | e :: _ => Done (-1) (Srv (fd_close fd (v_fds s)) (v_queue s) (v_nonblock s) (v_cloexec s ∖ {[fd]}) e (v_log s))
    end.
Proof.
  induction calls as [|e calls IH]; [done|]. cbn [set_up]. rewrite filter_cons.
  destruct (Z.eqb_spec e 0) as [->|He]; cbn [negb]; [by rewrite decide_False by auto|].
  rewrite decide_True by done. by destruct s.
Qed.

Lemma init_with_done options stream k a s : tidy s →
  ∃ r s', init_with options stream k a s = Done r s' ∧ tidy s' ∧
    v_queue s' = v_queue s ∧ v_log s' = v_log s ∧ v_nonblock s' = v_nonblock s ∧
    match filter (λ e, e ≠ 0) (ad_socket a :: options a ++ [ad_bind a] ++ (if stream then [ad_listen a] else [])) with
    | [] => r = lowest (v_fds s) ∧ v_fds s' = <[r := Listener k]> (v_fds s) ∧ v_errno s' = v_errno s
    | e :: _ => r = -1 ∧ v_fds s' = v_fds s ∧ v_errno s' = e
    end.
Proof.
  intros Ht. pose proof (tidy_lowest s Ht) as [Hl1 Hl2]. unfold init_with. rewrite filter_cons.
  destruct (Z.eqb_spec (ad_socket a) 0) as [E|E]; cbn [negb].
  - rewrite decide_False by auto. set (calls := options a ++ _). clearbody calls.
    unfold new_fd, fd_open. erewrite bind_done by (erewrite bind_done by reflexivity; reflexivity).
    rewrite set_up_done. destruct s as [t q nb ce e l], Ht as (H1 & H2 & H3). unfold update; cbn in *.
    destruct (filter (λ e, e ≠ 0) calls) as [|e' rest].
    + eexists _, _. split; [reflexivity|]. split; [|by split_and!]. split_and!; cbn.
      * intros i Hi. rewrite lookup_insert_is_Some. destruct (decide (lowest t = i)); auto.
      * intros i c. destruct (decide (i = lowest t)) as [->|]; [by rewrite lookup_insert_eq|by rewrite lookup_insert_ne].
      * rewrite dom_insert_L. set_solver.
    + eexists _, _. split; [reflexivity|]. cbn. rewrite open_close.
      assert (ce ∖ {[lowest t]} = ce) as -> by set_solver. by split_and!.
  - rewrite decide_True by done. eexists _, _. split; [reflexivity|]. destruct s. by split_and!.
Qed.

(** ** What the servers rely on in the routine that answers a connection: it leaves nothing
    behind but its answer, of which [P] holds. *)
Class Service (answer : Z → prog srv unit) (P : nat → reply → Prop) : Prop := answer_done :
  ∀ s fd c, tidy s → fd = lowest (v_fds s) → ∃ r, P c r ∧
    answer fd (s <| v_fds ::= <[fd := Conn c]> |>) = Done tt (s <| v_log ::= λ l, l ++ [(c, r)] |>).

Lemma client_of_new s c : client_of (s <| v_fds ::= <[lowest (v_fds s) := Conn c]> |>) (lowest (v_fds s)) = c.
Proof. unfold client_of. destruct s. unfold update; cbn. by rewrite lookup_insert_eq. Qed.

Lemma close_new s c : tidy s → close (lowest (v_fds s)) (s <| v_fds ::= <[lowest (v_fds s) := Conn c]> |>) = Done tt s.
Proof.
  intros Ht. pose proof (tidy_lowest s Ht) as [_ Hl]. destruct s as [t q nb ce e l]. unfold close, modify, update; cbn in *.
  rewrite open_close. assert (ce ∖ {[lowest t]} = ce) as -> by set_solver. done.
Qed.

(** test_16.4.c: popen fails, or its output has at least one byte. *)
Definition count_text (ps : bytes + bytes) : bytes :=
  match ps with
  | inr err => str "error: " ++ cstr err ++ [NEWLINE]
  | inl out => dec (atoi (fgets (BUFLEN - 1) out).1 - 2)
  end.
Definition count_ok (ps : bytes + bytes) : Prop :=
  match ps with inr err => (strlen err < 100)%nat | inl out => out ≠ [] end.

Lemma fgets_nonempty n b : b ≠ [] → (0 < n)%nat → (fgets n b).1 ≠ [].
Proof.
  intros Hb Hn. destruct n as [|n], b as [|c b]; try done; [lia|]. simpl. case_decide; [done|]. by destruct (fgets n b).
Qed.

#[export] Instance count_service ps : (∀ c, count_ok (ps c)) →
  Service (λ fd, set_cloexec fd ;; answer_count ps fd) (λ c r, r = Sent (count_text (ps c))).
Proof.
  intros Hps s fd c Ht ->. eexists. split; [reflexivity|]. pose proof (tidy_lowest s Ht) as [_ Hl].
  destruct s as [t q nb ce e l]. unfold update; cbn in *. set (fd := lowest t) in *.
  erewrite bind_done.
  2:{ unfold set_cloexec. erewrite bind_done by reflexivity. cbn. rewrite lookup_insert_eq. reflexivity. }
  unfold answer_count, update; cbn. erewrite bind_done by reflexivity. unfold client_of; cbn. rewrite lookup_insert_eq.
  erewrite (bind_done (count_reply _)).
  2:{ instantiate (2 := Some (count_text (ps c))). specialize (Hps c). unfold count_reply, count_ok, count_text in *.
      destruct (ps c) as [out|err].
      - pose proof (fgets_nonempty (BUFLEN - 1) out Hps ltac:(unfold BUFLEN; lia)) as Hf.
        by destruct (fgets (BUFLEN - 1) out).1.
      - rewrite bind_defined_true; [reflexivity|]. unfold strlen, BUFLEN in *. rewrite !length_app. apply Nat.ltb_lt. simpl. lia. }
  erewrite bind_done by reflexivity. unfold client_of, update; cbn. rewrite lookup_insert_eq.
  unfold close, modify, update; cbn. unfold fd. rewrite open_close. do 3 f_equal. set_solver.
Qed.

(** ruptimed.c: the output of uptime, a text, or popen's error text. *)
Definition uptime_text (u : bytes + bytes) : bytes :=
  match u with inr err => str "error: " ++ cstr err ++ [NEWLINE] | inl out => out end.
Definition uptime_ok (u : bytes + bytes) : Prop :=
  match u with inr err => (strlen err < 100)%nat | inl out => no_nul out end.

Lemma fgets_split n b : (fgets n b).1 ++ (fgets n b).2 = b.
Proof.
  revert b. induction n as [|n IH]; intros [|c b]; simpl; try done. case_decide; [done|].
  specialize (IH b). destruct (fgets n b). simpl in *. by rewrite IH.
Qed.

Lemma copy_lines_all fuel out s : no_nul out → (length out < fuel)%nat → copy_lines fuel out s = Done out s.
Proof.
  revert out. induction fuel as [|fuel IH]; intros out Hout Hf; [lia|]. cbn [copy_lines].
  pose proof (fgets_split (BUFLEN - 1) out) as Hs. pose proof (fgets_nonempty (BUFLEN - 1) out) as Hne.
  destruct (fgets (BUFLEN - 1) out) as [[|c buf] rest]; simpl in Hs, Hne.
  - destruct out; [done|]. by destruct Hne; [|unfold BUFLEN; lia|].
  - subst out. change (no_nul ((c :: buf) ++ rest)) in Hout. apply no_nul_app in Hout as [H1 H2]. simpl in Hf. rewrite length_app in Hf.
    erewrite bind_done by (apply IH; [done|lia]). rewrite (cstr_id (c :: buf)) by done. done.
Qed.

#[export] Instance uptime_service u : (∀ c, uptime_ok (u c)) →
  Service (λ fd, set_cloexec fd ;; answer_uptime u fd) (λ c r, r = Sent (uptime_text (u c))).
Proof.
  intros Hu s fd c Ht ->. eexists. split; [reflexivity|]. pose proof (tidy_lowest s Ht) as [_ Hl].
  destruct s as [t q nb ce e l]. unfold update; cbn in *. set (fd := lowest t) in *.
  erewrite bind_done.
  2:{ unfold set_cloexec. erewrite bind_done by reflexivity. cbn. rewrite lookup_insert_eq. reflexivity. }
  unfold answer_uptime, update; cbn -[copy_lines]. erewrite bind_done by reflexivity. unfold client_of; cbn -[copy_lines]. rewrite lookup_insert_eq.
  erewrite bind_done.
  2:{ instantiate (1 := Srv (<[fd := Conn c]> t) q nb (ce ∪ {[fd]}) e (l ++ [(c, Sent (uptime_text (u c)))])).
      specialize (Hu c). unfold uptime_ok, uptime_text in *. destruct (u c) as [out|err].
      - erewrite bind_done by (apply copy_lines_all; [done|lia]). unfold tell, modify, client_of, update; cbn.
        by rewrite lookup_insert_eq.
      - rewrite bind_defined_true by (unfold strlen, BUFLEN in *; rewrite ?length_app; apply Nat.leb_le; simpl; lia).
        unfold tell, modify, client_of, update; cbn. by rewrite lookup_insert_eq. }
  unfold close, modify, update; cbn. unfold fd. rewrite open_close. do 3 f_equal. set_solver.
Qed.

(** test_16.5.c: standard output and error of uptime are the connection, and it has no other
    descriptor of a client, so that the client gets an end of file when it is done. *)
Definition uptime_fds (c : nat) (r : reply) : Prop :=
  ∃ t, r = Ran t ∧ t !! STDOUT_FILENO = Some (Conn c) ∧ t !! STDERR_FILENO = Some (Conn c) ∧
    ∀ i c', t !! i = Some (Conn c') → c' = c ∧ (i = STDOUT_FILENO ∨ i = STDERR_FILENO).

Lemma uptime_child_lookup close_listener sockfd fd c t i : 3 <= fd → 3 <= sockfd →
  uptime_child close_listener sockfd fd (<[fd := Conn c]> t) !! i =
    if decide (i = fd) then None else if decide (i = STDOUT_FILENO ∨ i = STDERR_FILENO) then Some (Conn c)
    else if decide (close_listener = true ∧ i = sockfd) then None else t !! i.
Proof.
  intros Hfd Hs. unfold uptime_child, fd_dup2. rewrite lookup_insert_eq. cbn [snd].
  rewrite lookup_insert_ne by (unfold STDOUT_FILENO; lia). rewrite lookup_insert_eq. cbn [snd]. unfold fd_close.
  unfold STDOUT_FILENO, STDERR_FILENO.
  assert (delete fd (<[2 := Conn c]> (<[1 := Conn c]> (<[fd := Conn c]> t))) !! i
    = if decide (i = fd) then None else if decide (i = 1 ∨ i = 2) then Some (Conn c) else t !! i) as E.
  { destruct (decide (i = fd)) as [->|]; [apply lookup_delete_eq|]. rewrite lookup_delete_ne by done.
    destruct (decide (i = 2)) as [->|]; [by rewrite lookup_insert_eq, decide_True by auto|]. rewrite lookup_insert_ne by done.
    destruct (decide (i = 1)) as [->|]; [by rewrite lookup_insert_eq, decide_True by auto|]. rewrite lookup_insert_ne by done.
    rewrite lookup_insert_ne, decide_False by (done || lia). done. }
  destruct close_listener; cbn.
  - destruct (decide (i = sockfd)) as [->|Hne].
    + rewrite lookup_delete_eq. repeat case_decide; done || lia.
    + rewrite lookup_delete_ne, E by done. repeat case_decide; done || lia || intuition lia.
  - rewrite E. repeat case_decide; done || intuition congruence.
Qed.

#[export] Instance exec_service forks close_listener sockfd : (∀ c, forks c = true) → 3 <= sockfd →
  Service (answer_exec forks close_listener sockfd) uptime_fds.
Proof.
  intros Hforks Hsock s fd c Ht ->. pose proof (tidy_lowest s Ht) as [Hl0 Hl]. destruct Ht as (H1 & H2 & H3).
  destruct s as [t q nb ce e l]. unfold update; cbn in *. set (fd := lowest t) in *.
  eexists. split.
  2:{ unfold answer_exec, tell. erewrite bind_done by reflexivity. rewrite bind_check_true by apply Hforks.
      erewrite bind_done by reflexivity.
      unfold client_of, close, modify, update; cbn. rewrite lookup_insert_eq. unfold fd. rewrite open_close.
      do 3 f_equal. set_solver. }
  eexists. split; [reflexivity|]. unfold exec_fds.
  assert (∀ i, uptime_child close_listener sockfd fd (<[fd := Conn c]> t) !! i =
    if decide (i = fd) then None else if decide (i = STDOUT_FILENO ∨ i = STDERR_FILENO) then Some (Conn c)
    else if decide (close_listener = true ∧ i = sockfd) then None else t !! i) as Hlook.
  { intros i. apply uptime_child_lookup; [lia|done]. }
  assert (∀ i, i = STDOUT_FILENO ∨ i = STDERR_FILENO →
    filter (λ p, p.1 ∉ ce ∖ {[STDOUT_FILENO; STDERR_FILENO]}) (uptime_child close_listener sockfd fd (<[fd := Conn c]> t)) !! i
    = Some (Conn c)) as H12.
  { intros i Hi. apply map_lookup_filter_Some. split; [|cbn; set_solver]. rewrite Hlook.
    rewrite decide_False by (unfold STDOUT_FILENO, STDERR_FILENO in *; lia). by rewrite decide_True. }
  split_and!; [apply H12; auto..|]. intros i c' [Hi _]%map_lookup_filter_Some. rewrite Hlook in Hi.
  repeat case_decide; simplify_eq; first [by split|exfalso; by eapply H2].
Qed.

(** ** The loop on accept *)

(** The state after the connections of the listener [k] have been answered. *)
Definition answered (s : srv) (k : nat) (sockfd : Z) (rs : list (nat * reply)) : srv :=
  s <| v_queue ::= λ f, λ k', if decide (k' = k) then [] else f k' |>
    <| v_nonblock ::= λ x, x ∪ {[k]} |> <| v_cloexec ::= λ x, x ∪ {[sockfd]} |>
    <| v_errno := EAGAIN |> <| v_log ::= λ l, l ++ rs |>.

Section serve.
Context (answer : Z → prog srv unit) (P : nat → reply → Prop) `{!Service answer P}.

Lemma accept_conn sockfd k c q t f nb ce e l : t !! sockfd = Some (Listener k) → f k = c :: q →
  accept sockfd (Srv t f nb ce e l)
  = Done (lowest t) (Srv (<[lowest t := Conn c]> t) (λ k', if decide (k' = k) then q else f k') nb ce e l).
Proof.
  intros Ht Hf. unfold accept. erewrite bind_done by reflexivity. cbn. rewrite Ht, Hf. reflexivity.
Qed.

Lemma accept_all_done q : ∀ f fuel sockfd k t nb ce e l,
  t !! sockfd = Some (Listener k) → f k = q → k ∈ nb → tidy (Srv t f nb ce e l) → (length q < fuel)%nat →
  ∃ rs f', accept_all fuel answer sockfd (Srv t f nb ce e l) = Done tt (Srv t f' nb ce EAGAIN (l ++ rs)) ∧
    (∀ k', f' k' = if decide (k' = k) then [] else f k') ∧ rs.*1 = q ∧ Forall (λ p, P p.1 p.2) rs.
Proof.
  induction q as [|c q IH]; intros f [|fuel] sockfd k t nb ce e l Ht Hf Hk Htidy Hfuel; simpl in Hfuel; try lia; cbn [accept_all].
  - exists [], f. erewrite bind_done.
    2:{ unfold accept. erewrite bind_done by reflexivity. cbn. rewrite Ht, Hf, decide_True by done. reflexivity. }
    rewrite app_nil_r. split; [done|]. split_and!; [|done|done]. intros k'. by case_decide; subst.
  - erewrite bind_done by by apply accept_conn.
    pose proof (tidy_lowest _ Htidy) as [Hl _]. cbn in Hl. rewrite (proj2 (Z.eqb_neq _ _)) by lia.
    set (f1 := λ k', if decide (k' = k) then q else f k').
    assert (Htidy1 : tidy (Srv t f1 nb ce e l)) by exact Htidy.
    destruct (answer_done (Srv t f1 nb ce e l) (lowest t) c Htidy1 eq_refl) as (r & Hr & E).
    erewrite bind_done by exact E. unfold update; cbn.
    destruct (IH f1 fuel sockfd k t nb ce e (l ++ [(c, r)])) as (rs & f' & E' & Hf' & Hrs & HP); try done; [|lia|].
    { unfold f1. by rewrite decide_True. }
    exists ((c, r) :: rs), f'. rewrite E', <- app_assoc. split; [done|]. split_and!.
    + intros k'. rewrite Hf'. unfold f1. by case_decide.
    + rewrite fmap_cons. by rewrite Hrs.
    + by constructor.
Qed.

Lemma serve_nonblock_done sockfd k t f nb ce e l :
  t !! sockfd = Some (Listener k) → tidy (Srv t f nb ce e l) →
  ∃ rs f', serve_nonblock answer sockfd (Srv t f nb ce e l)
      = Done tt (Srv t f' (nb ∪ {[k]}) (ce ∪ {[sockfd]}) EAGAIN (l ++ rs)) ∧
    (∀ k', f' k' = if decide (k' = k) then [] else f k') ∧ rs.*1 = f k ∧ Forall (λ p, P p.1 p.2) rs ∧
    tidy (Srv t f' (nb ∪ {[k]}) (ce ∪ {[sockfd]}) EAGAIN (l ++ rs)).
Proof.
  intros Ht Htidy. assert (Htidy1 : tidy (Srv t f (nb ∪ {[k]}) (ce ∪ {[sockfd]}) e l)).
  { destruct Htidy as (H1 & H2 & H3). split_and!; [done|done|]. cbn in *. apply elem_of_dom_2 in Ht. set_solver. }
  destruct (accept_all_done (f k) f (S (length (f k))) sockfd k t (nb ∪ {[k]}) (ce ∪ {[sockfd]}) e l)
    as (rs & f' & E & Hf' & Hrs & HP); try done; [set_solver|lia|].
  exists rs, f'. split; [|by split_and!].
  unfold serve_nonblock. erewrite bind_done.
  2:{ unfold set_cloexec. erewrite bind_done by reflexivity. cbn. rewrite Ht. reflexivity. }
  unfold update; cbn. erewrite bind_done.
  2:{ unfold set_nonblock. erewrite bind_done by reflexivity. cbn. rewrite Ht. reflexivity. }
  unfold update; cbn. erewrite bind_done by reflexivity. cbn. by rewrite Ht.
Qed.
End serve.

(** The servers with one socket answer the connections in their order. *)
Lemma serve_rounds_done answer P `{!Service answer P} n : ∀ sockfd k t f nb ce e l,
  t !! sockfd = Some (Listener k) → tidy (Srv t f nb ce e l) → (n <= length (f k))%nat →
  ∃ rs f', serve_rounds n answer sockfd (Srv t f nb ce e l) = Done tt (Srv t f' nb ce e (l ++ rs)) ∧
    (∀ k', f' k' = if decide (k' = k) then drop n (f k) else f k') ∧ rs.*1 = take n (f k) ∧ Forall (λ p, P p.1 p.2) rs.
Proof.
  induction n as [|n IH]; intros sockfd k t f nb ce e l Ht Htidy Hn; cbn [serve_rounds].
  - exists [], f. rewrite app_nil_r. split_and!; try done. intros k'. by case_decide; subst.
  - destruct (f k) as [|c q] eqn:Hf; simpl in Hn; [lia|].
    erewrite bind_done by by apply accept_conn. pose proof (tidy_lowest _ Htidy) as [Hl _]. cbn in Hl.
    rewrite bind_check_true by lia.
    set (f1 := λ k', if decide (k' = k) then q else f k').
    assert (Htidy1 : tidy (Srv t f1 nb ce e l)) by exact Htidy.
    assert (f1 k = q) as Hq by (unfold f1; by rewrite decide_True).
    destruct (answer_done (Srv t f1 nb ce e l) (lowest t) c Htidy1 eq_refl) as (r & Hr & E).
    erewrite bind_done by exact E. unfold update; cbn.
    destruct (IH sockfd k t f1 nb ce e (l ++ [(c, r)]) Ht Htidy1) as (rs & f' & E' & Hf' & Hrs & HP); [rewrite Hq; lia|].
    exists ((c, r) :: rs), f'. rewrite E', <- app_assoc. split; [done|]. split_and!.
    + intros k'. rewrite Hf', Hq. unfold f1. by case_decide.
    + rewrite fmap_cons, Hrs, Hq. done.
    + by constructor.
Qed.

(** ** The loop on select *)

Lemma arrive_queues l : ∀ t f nb ce e lg, ∃ f', arrive l (Srv t f nb ce e lg) = Srv t f' nb ce e lg ∧
  ∀ k, f' k = f k ++ (filter (λ p, p.1 = k) l).*2.
Proof.
  induction l as [|[k c] l IH]; intros t f nb ce e lg.
  - exists f. split; [done|]. intros k. by rewrite app_nil_r.
  - destruct (IH t (λ k', if decide (k' = k) then f k' ++ [c] else f k') nb ce e lg) as (f' & E & H).
    exists f'. split; [exact E|]. intros k'. rewrite H, filter_cons. cbn.
    destruct (decide (k' = k)) as [->|Hne]; [rewrite decide_True by done|rewrite decide_False by congruence; done].
    by rewrite <- app_assoc.
Qed.

(** Each arrival is at one of the sockets. *)
Lemma arrivals_split (l : list (nat * nat)) ks : NoDup ks → (∀ p, p ∈ l → p.1 ∈ ks) →
  concat ((λ k, (filter (λ p, p.1 = k) l).*2) <$> ks) ≡ₚ l.*2.
Proof.
  intros Hks. revert l. induction Hks as [|k ks Hk Hks IH]; intros l Hl.
  - destruct l as [|p l]; [done|]. destruct (not_elem_of_nil p.1). apply Hl. left.
  - assert (((λ k0, (filter (λ p, p.1 = k0) l).*2) <$> ks)
      = ((λ k0, (filter (λ p, p.1 = k0) (filter (λ p, p.1 ≠ k) l)).*2) <$> ks)) as E.
    { apply list_fmap_ext. intros i k0 Hk0%list_elem_of_lookup_2. f_equal. rewrite list_filter_filter.
      apply list_filter_iff. intros p. split; [intros ->; split; congruence|by intros []]. }
    cbn. rewrite E, IH.
    + rewrite <- fmap_app. apply fmap_Permutation, (filter_app_complement (λ p : nat * nat, p.1 = k)).
    + intros p [Hp1 Hp2]%list_elem_of_filter. apply Hl in Hp2. apply elem_of_cons in Hp2 as [|]; done.
Qed.

Lemma fill_set_max sockfd fds m s : Forall (λ fd, fd <= m ∧ fd < FD_SETSIZE) fds → fill_set sockfd fds m s = Done m s.
Proof.
  intros H. revert m H. induction fds as [|fd fds IH]; intros m H; [done|]. apply Forall_cons in H as [[H1 H2] H].
  cbn [fill_set]. rewrite bind_defined_true by lia. rewrite (proj2 (Z.ltb_ge _ _)) by done. by apply IH.
Qed.

(** max_fd is sockfd when that is the highest descriptor of the list ... *)
Lemma fill_set_last sockfd fds s : fds ≠ [] → Forall (λ fd, 0 < fd <= sockfd ∧ fd < FD_SETSIZE) fds →
  fill_set sockfd fds 0 s = Done sockfd s.
Proof.
  intros Hne H. destruct fds as [|fd fds]; [done|]. apply Forall_cons in H as [H1 H]. cbn [fill_set].
  rewrite bind_defined_true by lia. rewrite (proj2 (Z.ltb_lt _ _)) by lia. apply fill_set_max.
  eapply Forall_impl; [exact H|]. cbn. lia.
Qed.

(** ... and -1 when the last address failed. *)
Lemma fill_set_failed fds s : fds ≠ [] → Forall (λ fd, 0 < fd < FD_SETSIZE) fds → fill_set (-1) fds 0 s = Done (-1) s.
Proof.
  intros Hne H. assert (∀ m, m <= 0 → fill_set (-1) fds m s = Done (-1) s) as Hm; [|by apply Hm]. revert Hne.
  induction H as [|fd fds H1 H IH]; intros Hne m Hm; [done|]. cbn [fill_set].
  rewrite bind_defined_true by lia. rewrite (proj2 (Z.ltb_lt _ _)) by lia.
  destruct fds as [|fd' fds]; [done|]. by apply IH.
Qed.

Section rounds.
Context (answer : Z → Z → prog srv unit) (P : nat → reply → Prop) (Hservice : ∀ sockfd, 3 <= sockfd → Service (answer sockfd) P).
Abbreviation serve := (λ fd, serve_nonblock (answer fd) fd).

Definition listening (t : fdtab sobj) (fds : list Z) (ks : list nat) : Prop :=
  Forall2 (λ fd k, 3 <= fd < FD_SETSIZE ∧ t !! fd = Some (Listener k)) fds ks.

Lemma serve_ready_done rd fds ks t : listening t fds ks → NoDup ks → ∀ f nb ce e l,
  tidy (Srv t f nb ce e l) → Forall2 (λ fd k, rd fd = negb (length (f k) =? 0)%nat) fds ks →
  ∃ rs f' nb' ce' e', serve_ready serve rd fds (Srv t f nb ce e l) = Done tt (Srv t f' nb' ce' e' (l ++ rs)) ∧
    (∀ k, f' k = if decide (k ∈ ks) then [] else f k) ∧ rs.*1 = concat (f <$> ks) ∧ Forall (λ p, P p.1 p.2) rs ∧
    tidy (Srv t f' nb' ce' e' (l ++ rs)).
Proof.
  induction 1 as [|fd k fds ks [Hfd Hk] _ IH]; intros Hnd f nb ce e l Ht Hrd.
  { exists [], f, nb, ce, e. rewrite app_nil_r. by split_and!. }
  apply NoDup_cons in Hnd as [Hnk Hnd]. apply Forall2_cons in Hrd as [Hrd1 Hrd]. cbn [serve_ready].
  assert (∃ rs f1 nb1 ce1 e1, (if rd fd then serve fd else mret tt) (Srv t f nb ce e l) = Done tt (Srv t f1 nb1 ce1 e1 (l ++ rs)) ∧
    (∀ k', f1 k' = if decide (k' = k) then [] else f k') ∧ rs.*1 = f k ∧ Forall (λ p, P p.1 p.2) rs ∧
    tidy (Srv t f1 nb1 ce1 e1 (l ++ rs))) as (rs & f1 & nb1 & ce1 & e1 & E & Hf1 & Hrs & HP & Ht1).
  { rewrite Hrd1. destruct (f k) as [|c q] eqn:Hq; cbn [length Nat.eqb negb].
    - exists [], f, nb, ce, e. rewrite app_nil_r. split_and!; try done. intros k'. by case_decide; subst.
    - destruct (serve_nonblock_done (answer fd) P (Service0 := Hservice fd ltac:(lia)) fd k t f nb ce e l Hk Ht)
        as (rs & f1 & E & Hf1 & Hrs & HP & Ht1). rewrite Hq in Hrs. eexists rs, f1, _, _, _. split; [exact E|]. done. }
  erewrite bind_done by exact E.
  destruct (IH Hnd f1 nb1 ce1 e1 (l ++ rs) Ht1) as (rs2 & f2 & nb2 & ce2 & e2 & E2 & Hf2 & Hrs2 & HP2 & Ht2).
  { rewrite Forall2_lookup in *. intros i. specialize (Hrd i). destruct (ks !! i) as [k'|] eqn:Ek; inversion Hrd; constructor.
    rewrite Hf1, decide_False; [done|]. intros ->. by apply Hnk, (list_elem_of_lookup_2 _ i). }
  exists (rs ++ rs2), f2, nb2, ce2, e2. rewrite app_assoc. split; [exact E2|]. split_and!.
  - intros k'. rewrite Hf2, Hf1. repeat case_decide; try done; set_solver.
  - rewrite fmap_app, Hrs, Hrs2. cbn. f_equal. f_equal. apply list_fmap_ext. intros i k' Hk'%list_elem_of_lookup_2.
    rewrite Hf1. by rewrite decide_False by congruence.
  - by apply Forall_app.
  - done.
Qed.

(** What is true between two rounds: nothing waits at the sockets. *)
Definition between (t : fdtab sobj) (ks : list nat) (s : srv) : Prop :=
  v_fds s = t ∧ tidy s ∧ ∀ k, k ∈ ks → v_queue s k = [].

Definition arrivals (xs : list input) : list (nat * nat) :=
  mjoin ((λ x, match x with Arrive l => l | Interrupt => [] end) <$> xs).

Lemma round_done fds ks t eintr sockfd x s : listening t fds ks → NoDup ks → fds ≠ [] → Forall (λ fd, fd <= sockfd) fds →
  between t ks s → (∀ p, p ∈ arrivals [x] → p.1 ∈ ks) → (x = Interrupt → eintr = true) →
  ∃ rs s', server_round serve eintr fds sockfd x s = Done tt s' ∧ between t ks s' ∧ v_log s' = v_log s ++ rs ∧
    rs.*1 ≡ₚ (arrivals [x]).*2 ∧ Forall (λ p, P p.1 p.2) rs.
Proof.
  intros Hl Hnd Hne Hmax (Ht & Htidy & Hq) Hx Hi. destruct s as [t' f nb ce e l]. cbn in Ht, Hq. subst t'.
  unfold server_round. erewrite bind_done.
  2:{ apply fill_set_last; [done|]. apply Forall_lookup. intros i fd Hfd.
      destruct (Forall2_lookup_l _ _ _ _ _ Hl Hfd) as (k & _ & H & _). rewrite Forall_lookup in Hmax.
      specialize (Hmax i fd Hfd). lia. }
  destruct x as [a|].
  - unfold arrivals in *. cbn in Hx |- *. rewrite app_nil_r in *.
    destruct (arrive_queues a t f nb ce e l) as (f1 & E & Hf1).
    erewrite bind_done by (unfold modify; by rewrite E). erewrite bind_done by reflexivity.
    destruct (serve_ready_done (ready (Srv t f1 nb ce e l) sockfd) fds ks t Hl Hnd f1 nb ce e l)
      as (rs & f' & nb' & ce' & e' & E' & Hf' & Hrs & HP & Ht').
    + destruct Htidy as (H1 & H2 & H3). by split_and!.
    + unfold listening in Hl. rewrite Forall2_lookup in Hl |- *. intros i. specialize (Hl i).
      destruct (fds !! i) as [fd|] eqn:Efd; inversion Hl as [? k [_ Hk] Ek1 Ek2|];
        constructor. unfold ready. cbn. rewrite Hk. rewrite Forall_lookup in Hmax. specialize (Hmax i fd Efd).
      rewrite (proj2 (Z.ltb_lt _ _)) by lia. done.
    + eexists rs, _. split; [exact E'|]. split_and!; try done.
      * split_and!; [done|done|]. intros k Hk. cbn. rewrite Hf'. by rewrite decide_True.
      * rewrite Hrs, <- (arrivals_split a ks Hnd Hx).
        assert (f1 <$> ks = (λ k, (filter (λ p, p.1 = k) a).*2) <$> ks) as ->; [|done].
        apply list_fmap_ext. intros i k Hk%list_elem_of_lookup_2. by rewrite Hf1, Hq.
  - exists [], (Srv t f nb ce e l). rewrite (Hi eq_refl). cbn. rewrite app_nil_r. by split_and!.
Qed.

Lemma loop_done fds ks t eintr sockfd xs : listening t fds ks → NoDup ks → fds ≠ [] → Forall (λ fd, fd <= sockfd) fds →
  (∀ p, p ∈ arrivals xs → p.1 ∈ ks) → (Interrupt ∈ xs → eintr = true) → ∀ s, between t ks s →
  ∃ rs s', server_loop serve eintr fds sockfd xs s = Done tt s' ∧ between t ks s' ∧ v_log s' = v_log s ++ rs ∧
    rs.*1 ≡ₚ (arrivals xs).*2 ∧ Forall (λ p, P p.1 p.2) rs.
Proof.
  intros Hl Hnd Hne Hmax. induction xs as [|x xs IH]; intros Hx Hi s Hs.
  { exists [], s. rewrite app_nil_r. by split_and!. }
  assert (arrivals (x :: xs) = arrivals [x] ++ arrivals xs) as Ea.
  { unfold arrivals. cbn. by rewrite app_nil_r. }
  rewrite Ea in *. cbn [server_loop].
  destruct (round_done fds ks t eintr sockfd x s Hl Hnd Hne Hmax Hs) as (rs & s1 & E & Hs1 & Hlog & Hrs & HP).
  { intros p Hp. apply Hx, elem_of_app. by left. }
  { intros ->. apply Hi. left. }
  erewrite bind_done by exact E.
  destruct (IH) with (s := s1) as (rs2 & s2 & E2 & Hs2 & Hlog2 & Hrs2 & HP2); [|by intros ?; apply Hi; right|done|].
  { intros p Hp. apply Hx, elem_of_app. by right. }
  exists (rs ++ rs2), s2. split_and!; [done|done|by rewrite Hlog2, Hlog, app_assoc|by rewrite !fmap_app, Hrs, Hrs2|by apply Forall_app].
Qed.
End rounds.

(** ** The sockets of main *)

Section init.
Context (options : addr → list Z).

(** The address can be listened at. *)
Definition works (a : addr) : Prop := filter (λ e, e ≠ 0) (ad_socket a :: options a ++ [ad_bind a] ++ [ad_listen a]) = [].
#[export] Instance works_dec a : Decision (works a).
Proof. unfold works. apply _. Defined.

(** The addresses from number [k] on that work. *)
Fixpoint working (k : nat) (addrs : list addr) : list nat :=
  match addrs with [] => [] | a :: addrs => (if decide (works a) then [k] else []) ++ working (S k) addrs end.

Lemma working_ge k addrs i : i ∈ working k addrs → (k <= i)%nat.
Proof.
  revert k. induction addrs as [|a addrs IH]; intros k; cbn [working]; [by intros ?%not_elem_of_nil|].
  rewrite elem_of_app. intros [Hi|Hi]; [|apply IH in Hi; lia]. case_decide; [|by apply not_elem_of_nil in Hi].
  apply list_elem_of_singleton in Hi. lia.
Qed.

Lemma working_nodup k addrs : NoDup (working k addrs).
Proof.
  revert k. induction addrs as [|a addrs IH]; intros k; cbn [working]; [constructor|]. case_decide; [|apply IH].
  constructor; [|apply IH]. intros Hw%working_ge. lia.
Qed.

Definition opened (t : fdtab sobj) (fds : list Z) (ks : list nat) : Prop :=
  Forall2 (λ fd k, 3 <= fd < lowest t ∧ t !! fd = Some (Listener k)) fds ks.

Lemma init_all_done mem addrs : (∀ k, mem k = true) → ∀ k fds ks sock s, tidy s → opened (v_fds s) fds ks →
  ∃ fds' sockfd s', init_all (init_with options true) mem k addrs fds sock s = Done (fds', sockfd) s' ∧
    tidy s' ∧ v_queue s' = v_queue s ∧ v_log s' = v_log s ∧ opened (v_fds s') fds' (ks ++ working k addrs) ∧
    (size (v_fds s') <= size (v_fds s) + length addrs)%nat ∧
    match last addrs with
    | None => sockfd = sock ∧ fds' = fds
    | Some a => if decide (works a) then Forall (λ fd, fd <= sockfd) fds' else sockfd = -1
    end.
Proof.
  intros Hmem. induction addrs as [|a addrs IH]; intros k fds ks sock s Ht Ho.
  { exists fds, sock, s. rewrite app_nil_r. split_and!; try done. simpl. lia. }
  cbn [init_all working].
  destruct (init_with_done options true k a s Ht) as (r & s1 & E & Ht1 & Hq1 & Hl1 & _ & Hr).
  erewrite bind_done by exact E. fold (works a) in Hr.
  destruct (filter _ _) as [|e rest] eqn:Ew in Hr.
  - destruct Hr as (-> & Hf & _). pose proof (tidy_lowest s Ht) as [Hlow _].
    rewrite (proj2 (Z.leb_le _ _)) by lia. rewrite bind_check_true by done.
    rewrite (decide_True (P := works a)) by exact Ew.
    pose proof (lowest_grows (v_fds s) (Listener k)) as Hg. rewrite <- Hf in Hg.
    destruct (IH (S k) (fds ++ [lowest (v_fds s)]) (ks ++ [k]) (lowest (v_fds s)) s1 Ht1)
      as (fds' & sockfd & s' & E' & Ht' & Hq' & Hl' & Ho' & Hsz & Hlast).
    { unfold opened in *. apply Forall2_app; [|constructor; [|constructor]].
      - eapply Forall2_impl; [exact Ho|]. intros fd k' [H1 H2]. cbn. split; [lia|]. rewrite Hf, lookup_insert_ne by lia. done.
      - split; [lia|]. by rewrite Hf, lookup_insert_eq. }
    exists fds', sockfd, s'. rewrite <- app_assoc in Ho'. split_and!; try done; [by rewrite Hq'|by rewrite Hl'| |].
    + rewrite Hf in Hsz. rewrite map_size_insert_None in Hsz by apply lowest_free. simpl. lia.
    + rewrite last_cons. destruct (last addrs) as [a'|]; [done|]. destruct Hlast as [-> ->]. cbv beta iota. rewrite (decide_True (P := works a)) by exact Ew.
      apply Forall_app. split; [|by constructor]. apply Forall_lookup. intros i fd Hfd.
      destruct (Forall2_lookup_l _ _ _ _ _ Ho Hfd) as (k' & _ & H & _). lia.
  - destruct Hr as (-> & Hf & _). cbn [Z.leb Z.compare]. rewrite (decide_False (P := works a)) by (unfold works; congruence).
    destruct (IH (S k) fds ks (-1) s1 Ht1) as (fds' & sockfd & s' & E' & Ht' & Hq' & Hl' & Ho' & Hsz & Hlast); [by rewrite Hf|].
    exists fds', sockfd, s'. split_and!; try done; [by rewrite Hq'|by rewrite Hl'| |].
    + rewrite Hf in Hsz. simpl. lia.
    + rewrite last_cons. destruct (last addrs) as [a'|]; [done|]. destruct Hlast as [-> _]. cbv beta iota. rewrite (decide_False (P := works a)) by (unfold works; congruence). done.
Qed.
End init.

(** With max_fd = -1 select watches no socket. *)
Lemma loop_deaf answer eintr fds xs : fds ≠ [] → Forall (λ fd, 0 < fd < FD_SETSIZE) fds → (Interrupt ∈ xs → eintr = true) →
  ∀ t f nb ce e l, ∃ f',
  server_loop (λ fd, serve_nonblock (answer fd) fd) eintr fds (-1) xs (Srv t f nb ce e l) = Done tt (Srv t f' nb ce e l) ∧
  ∀ k, f' k = f k ++ (filter (λ p, p.1 = k) (arrivals xs)).*2.
Proof.
  intros Hne Hfds. induction xs as [|x xs IH]; intros Hi t f nb ce e l.
  { exists f. split; [done|]. intros k. by rewrite app_nil_r. }
  cbn [server_loop]. specialize (IH (λ H, Hi (list_elem_of_further _ _ _ H))).
  assert (∀ rd s, (∀ fd, fd ∈ fds → rd fd = false) → serve_ready (λ fd, serve_nonblock (answer fd) fd) rd fds s = Done tt s) as Hrd.
  { intros rd s. clear. induction fds as [|fd fds IHf]; intros H; [done|]. cbn [serve_ready]. rewrite H by left.
    apply IHf. intros fd' Hfd'. apply H. by right. }
  unfold server_round. rewrite bind_assoc. erewrite bind_done by (by apply fill_set_failed). destruct x as [a|].
  - destruct (arrive_queues a t f nb ce e l) as (f1 & E & Hf1). destruct (IH t f1 nb ce e l) as (f2 & E2 & Hf2).
    exists f2. split.
    + rewrite bind_assoc. erewrite bind_done by (unfold modify; by rewrite E). rewrite bind_assoc.
      erewrite bind_done by reflexivity. erewrite bind_done; [exact E2|]. apply Hrd. intros fd Hfd. unfold ready.
      rewrite Forall_forall in Hfds. specialize (Hfds fd Hfd). by rewrite (proj2 (Z.ltb_ge _ _)) by lia.
    + intros k. rewrite Hf2, Hf1, <- app_assoc. unfold arrivals. cbn. by rewrite filter_app, fmap_app.
  - destruct (IH t f nb ce e l) as (f2 & E2 & Hf2). exists f2. split; [|done].
    rewrite bind_check_true by (apply Hi; left). exact E2.
Qed.

(** C32: The servers that wait with select for the sockets of several addresses (test_16.4.c
    counts processes, test_16.5.c runs uptime): when the last address could be listened at,
    every connection at any of the addresses that could is accepted and answered exactly
    once, in whatever groups the connections arrive, and between two rounds none is left
    waiting and no descriptor of a client is left open.  When the last address failed, the
    variable sockfd from which max_fd is computed is -1, and the server never answers any. *)
Theorem select_servers options mem addrs xs s eintr answer P sock a
    (Hservice : ∀ sockfd, 3 <= sockfd → Service (answer sockfd) P) (Ht : tidy s) (Hq : ∀ k, v_queue s k = [])
    (Hmem : ∀ k, mem k = true) (Hsize : (size (v_fds s) + length addrs <= 1023)%nat) (Hlast : last addrs = Some a)
    (Hworks : working options 0 addrs ≠ []) (Hx : ∀ p, p ∈ arrivals xs → p.1 ∈ working options 0 addrs)
    (Hi : Interrupt ∈ xs → eintr = true) :
  (works options a → ∃ s' rs,
    server_main (init_with options true) (λ fd, serve_nonblock (answer fd) fd) eintr mem addrs sock xs s = Done tt s' ∧
    v_log s' = v_log s ++ rs ∧ rs.*1 ≡ₚ (arrivals xs).*2 ∧ Forall (λ p, P p.1 p.2) rs ∧ tidy s' ∧
    ∀ k, k ∈ working options 0 addrs → v_queue s' k = []) ∧
  (¬ works options a → ∃ s',
    server_main (init_with options true) (λ fd, serve_nonblock (answer fd) fd) eintr mem addrs sock xs s = Done tt s' ∧
    v_log s' = v_log s ∧ ∀ k, v_queue s' k = (filter (λ p, p.1 = k) (arrivals xs)).*2).
Proof.
  destruct (init_all_done options mem addrs Hmem 0 [] [] sock s Ht) as (fds & sockfd & s1 & E & Ht1 & Hq1 & Hl1 & Ho & Hsz & Hl);
    [constructor|]. rewrite app_nil_l in Ho. rewrite Hlast in Hl.
  assert (fds ≠ []) as Hne by (intros ->; inversion Ho; congruence).
  assert (listening (v_fds s1) fds (working options 0 addrs)) as Hls.
  { eapply Forall2_impl; [exact Ho|]. intros fd k [H1 H2]. split; [|done].
    pose proof (lowest_from_range (size (v_fds s1)) 0 (v_fds s1)) as Hr. unfold lowest, FD_SETSIZE in *. lia. }
  assert (∀ R, server_loop (λ fd, serve_nonblock (answer fd) fd) eintr fds sockfd xs s1 = R →
    server_main (init_with options true) (λ fd, serve_nonblock (answer fd) fd) eintr mem addrs sock xs s = R) as Hmain.
  { intros R <-. unfold server_main. erewrite bind_done by exact E. by destruct fds. }
  split; intros Hw.
  - rewrite decide_True in Hl by done.
    destruct (loop_done answer P Hservice fds (working options 0 addrs) (v_fds s1) eintr sockfd xs Hls (working_nodup _ _ _) Hne Hl Hx Hi s1)
      as (rs & s' & E' & (_ & Ht' & Hq') & Hlog & Hrs & HP).
    { split_and!; [done|done|]. intros k _. by rewrite Hq1, Hq. }
    exists s', rs. rewrite <- Hl1. split; [by apply Hmain|]. by split_and!.
  - rewrite decide_False in Hl by done. subst sockfd. destruct s1 as [t f nb ce e l].
    destruct (loop_deaf answer eintr fds xs Hne) with (t := t) (f := f) (nb := nb) (ce := ce) (e := e) (l := l)
      as (f' & E' & Hf'); [|done|].
    { apply Forall_lookup. intros i fd Hfd. destruct (Forall2_lookup_l _ _ _ _ _ Hls Hfd) as (k & _ & H & _). lia. }
    eexists. split; [apply Hmain; exact E'|]. split; [done|]. intros k. cbn in *. by rewrite Hf', Hq1, Hq.
Qed.

(** ** The client *)

(** The delays of the first [k] attempts. *)
Definition powers (k : nat) : list Z := (λ i : nat, 2 ^ Z.of_nat i) <$> seq 0 k.

Lemma powers_S k : powers (S k) = powers k ++ [2 ^ Z.of_nat k].
Proof. unfold powers. by rewrite seq_S, fmap_app. Qed.

Lemma powers_sum k : foldr Z.add 0 (powers k) = 2 ^ Z.of_nat k - 1.
Proof.
  induction k as [|k IH]; [done|]. rewrite powers_S, foldr_app. cbn [foldr].
  assert (∀ l z, foldr Z.add z l = foldr Z.add 0 l + z) as H.
  { induction l as [|x l IHl]; intros z; simpl; [lia|]. rewrite IHl. lia. }
  rewrite H, IH, Nat2Z.inj_succ, Z.pow_succ_r by lia. lia.
Qed.

Section backoff.
Context (m : nat) (Hm : (m <= 29)%nat) (conn sock : nat → Z).
Abbreviation M := (2 ^ Z.of_nat m).

Lemma delay_pow i t sl e o : (i <= m)%nat →
  delay M (2 ^ Z.of_nat i) (Cli t sl e o) = Done tt (Cli t (sl ++ if decide (i < m)%nat then [2 ^ Z.of_nat i] else []) e o).
Proof.
  intros Hi. unfold delay. destruct (decide (i < m)%nat) as [Hlt|Hge].
  - rewrite (proj2 (Z.leb_le _ _)); [done|]. replace (Z.of_nat m) with (Z.succ (Z.of_nat (m - 1))) by lia.
    rewrite Z.pow_succ_r, (Z.mul_comm 2), Z.div_mul by lia. apply Z.pow_le_mono_r; lia.
  - replace i with m by lia. rewrite (proj2 (Z.leb_gt _ _)); [by rewrite app_nil_r|].
    apply Z.div_lt_upper_bound; [lia|]. pose proof (Z.pow_pos_nonneg 2 (Z.of_nat m)). lia.
Qed.

Lemma next_pow i s : (i <= m)%nat → next_numsec (2 ^ Z.of_nat i) s = Done (2 ^ Z.of_nat (S i)) s.
Proof.
  intros Hi. unfold next_numsec, INT_MAX. assert (2 ^ Z.of_nat i * 2 = 2 ^ Z.of_nat (S i)) as E.
  { rewrite Nat2Z.inj_succ, Z.pow_succ_r by lia. lia. }
  rewrite bind_defined_true.
  - rewrite Z.shiftl_mul_pow2 by lia. change (2 ^ 1) with 2. by rewrite E.
  - apply Z.leb_le. rewrite E. assert (2 ^ Z.of_nat (S i) <= 2 ^ 30) by (apply Z.pow_le_mono_r; lia). lia.
Qed.

Lemma pow_le_M i : (i <= m)%nat → (2 ^ Z.of_nat i <=? M) = true.
Proof. intros Hi. apply Z.leb_le, Z.pow_le_mono_r; lia. Qed.

(** A failed attempt of both versions. *)
Lemma retry_same_fail fuel i t sl e o : (i <= m)%nat → conn i ≠ 0 →
  retry_same M conn (S fuel) i (2 ^ Z.of_nat i) (Cli t sl e o)
  = retry_same M conn fuel (S i) (2 ^ Z.of_nat (S i)) (Cli t (sl ++ if decide (i < m)%nat then [2 ^ Z.of_nat i] else []) (conn i) o).
Proof.
  intros Hi Hc. cbn [retry_same]. rewrite pow_le_M, (proj2 (Z.eqb_neq _ _)) by done.
  erewrite bind_done by reflexivity. unfold update; cbn -[retry_same]. erewrite bind_done by by apply delay_pow.
  by erewrite bind_done by by apply next_pow.
Qed.

Lemma retry_new_fail fuel i t sl e o : (i <= m)%nat → conn i ≠ 0 → sock i = 0 →
  retry_new M conn sock (S fuel) i (2 ^ Z.of_nat i) (Cli t sl e o)
  = retry_new M conn sock fuel (S i) (2 ^ Z.of_nat (S i)) (Cli t (sl ++ if decide (i < m)%nat then [2 ^ Z.of_nat i] else []) (conn i) o).
Proof.
  intros Hi Hc Hs. cbn [retry_new]. rewrite pow_le_M, Hs by done. cbn [Z.eqb negb].
  erewrite bind_done by reflexivity. cbn. erewrite bind_done by reflexivity. unfold update; cbn -[retry_new].
  rewrite (proj2 (Z.eqb_neq _ _)) by done. erewrite bind_done by reflexivity. unfold update; cbn -[retry_new].
  erewrite bind_done by reflexivity. unfold update; cbn -[retry_new]. rewrite open_close.
  erewrite bind_done by by apply delay_pow. by erewrite bind_done by by apply next_pow.
Qed.
Definition err_after (e : Z) (k : nat) : Z := match k with O => e | S k => conn k end.

Lemma powers_fail sl k : (k <= m)%nat →
  (sl ++ powers (k `min` m)) ++ (if decide (k < m)%nat then [2 ^ Z.of_nat k] else []) = sl ++ powers (S k `min` m).
Proof.
  intros Hk. rewrite <- app_assoc. f_equal. destruct (decide (k < m)%nat) as [H|H].
  - rewrite !Nat.min_l, powers_S by lia. done.
  - rewrite app_nil_r. f_equal. lia.
Qed.

Lemma retry_same_fails k fuel t sl e o : (k <= S m)%nat → (∀ i, (i < k)%nat → conn i ≠ 0) →
  retry_same M conn (fuel + k) 0 1 (Cli t sl e o)
  = retry_same M conn fuel k (2 ^ Z.of_nat k) (Cli t (sl ++ powers (k `min` m)) (err_after e k) o).
Proof.
  revert fuel. induction k as [|k IH]; intros fuel Hk Hc; [by rewrite Nat.add_0_r, app_nil_r|].
  rewrite Nat.add_succ_r, <- Nat.add_succ_l, IH by (lia || auto). rewrite retry_same_fail by (lia || auto).
  by rewrite powers_fail by lia.
Qed.

Lemma retry_new_fails k fuel t sl e o : (k <= S m)%nat → (∀ i, (i < k)%nat → conn i ≠ 0) → (∀ i, (i < k)%nat → sock i = 0) →
  retry_new M conn sock (fuel + k) 0 1 (Cli t sl e o)
  = retry_new M conn sock fuel k (2 ^ Z.of_nat k) (Cli t (sl ++ powers (k `min` m)) (err_after e k) o).
Proof.
  revert fuel. induction k as [|k IH]; intros fuel Hk Hc Hs; [by rewrite Nat.add_0_r, app_nil_r|].
  rewrite Nat.add_succ_r, <- Nat.add_succ_l, IH by (lia || auto). rewrite retry_new_fail by (lia || auto).
  by rewrite powers_fail by lia.
Qed.
End backoff.

(** C33: connect_retry, with MAXSLEEP a power of two, in both versions: it tries at most
    1 + log2 MAXSLEEP times, waits 1, 2, 4, ... seconds between the attempts, 2^k - 1 in all
    when attempt k (from 0) is the first that succeeds, and returns the socket of that
    attempt; otherwise -1 with the error of the last attempt after MAXSLEEP - 1 seconds, or
    at once when there is no socket.  The version with a new socket for each attempt
    leaves no other descriptor open. *)
Theorem connect_backoff m conn sock s (Hm : (m <= 29)%nat) :
  (∀ k, (k <= m)%nat → (∀ i, (i < k)%nat → conn i ≠ 0) → conn k = 0 → 
    (∃ s', connect_retry_same (2 ^ Z.of_nat m) conn s = Done 0 s' ∧ x_slept s' = x_slept s ++ powers k ∧ x_fds s' = x_fds s) ∧
    ((∀ i, (i <= k)%nat → sock i = 0) → ∃ fd s', connect_retry (2 ^ Z.of_nat m) conn sock s = Done fd s' ∧
      x_fds s !! fd = None ∧ x_fds s' = <[fd := k]> (x_fds s) ∧ x_slept s' = x_slept s ++ powers k) ∧
    foldr Z.add 0 (powers k) = 2 ^ Z.of_nat k - 1) ∧
  ((∀ i, (i <= m)%nat → conn i ≠ 0) →
    connect_retry_same (2 ^ Z.of_nat m) conn s = Done (-1) (Cli (x_fds s) (x_slept s ++ powers m) (conn m) (x_out s)) ∧
    ((∀ i, (i <= m)%nat → sock i = 0) →
      connect_retry (2 ^ Z.of_nat m) conn sock s = Done (-1) (Cli (x_fds s) (x_slept s ++ powers m) (conn m) (x_out s)))) ∧
  (∀ k, (k <= m)%nat → (∀ i, (i < k)%nat → conn i ≠ 0 ∧ sock i = 0) → sock k ≠ 0 →
    connect_retry (2 ^ Z.of_nat m) conn sock s = Done (-1) (Cli (x_fds s) (x_slept s ++ powers k) (sock k) (x_out s))).
Proof.
  destruct s as [t sl e o]. cbn [x_fds x_slept x_out]. unfold connect_retry_same, connect_retry. split_and!.
  - intros k Hk Hc Hk0. split_and!; [| |apply powers_sum].
    + replace 32%nat with (S (31 - k) + k)%nat by lia. rewrite retry_same_fails by (lia || done).
      cbn [retry_same]. rewrite pow_le_M, Hk0 by lia. cbn [Z.eqb]. eexists. split; [reflexivity|]. cbn.
      by rewrite Nat.min_l by lia.
    + intros Hs. replace 32%nat with (S (31 - k) + k)%nat by lia.
      rewrite retry_new_fails by first [lia|done|intros; apply Hs; lia].
      cbn [retry_new]. rewrite pow_le_M, Hs by lia. cbn [Z.eqb negb]. eexists _, _.
      erewrite bind_done by reflexivity. cbn. erewrite bind_done by reflexivity. rewrite Hk0. cbn.
      split; [reflexivity|]. unfold update; cbn. rewrite Nat.min_l by lia. split_and!; try done. apply lowest_free.
  - intros Hc. replace 32%nat with (S (30 - m) + S m)%nat by lia.
    assert ((2 ^ Z.of_nat (S m) <=? 2 ^ Z.of_nat m) = false) as Hout.
    { apply Z.leb_gt, Z.pow_lt_mono_r; lia. }
    split; [|intros Hs].
    + rewrite retry_same_fails by first [lia|intros; apply Hc; lia]. cbn [retry_same]. rewrite Hout, Nat.min_r by lia. done.
    + rewrite retry_new_fails by first [lia|intros; apply Hc; lia|intros; apply Hs; lia].
      cbn [retry_new]. rewrite Hout, Nat.min_r by lia. done.
  - intros k Hk Hc Hs. replace 32%nat with (S (31 - k) + k)%nat by lia.
    rewrite retry_new_fails by first [lia|intros i Hi; by apply Hc].
    cbn [retry_new]. rewrite pow_le_M, (proj2 (Z.eqb_neq _ _)) by first [lia|done]. cbn [negb].
    by rewrite Nat.min_l by lia.
Qed.

(** ruptime prints what the first address that can be reached sends. *)
Lemma ruptime_prints h hosts s : ho_conn h 0%nat = 0 → ho_sock h 0%nat = 0 → ho_err h = 0 →
  ∃ s', ruptime (h :: hosts) s = Fatal (Exit 0) s' ∧ x_out s' = x_out s ++ concat (ho_pieces h).
Proof.
  intros Hc Hs He. destruct s as [t sl e o]. cbn [ruptime x_out].
  erewrite bind_done.
  2:{ unfold connect_retry. cbn [retry_new]. change (1 <=? RUPTIME_MAXSLEEP) with true. cbv iota. rewrite Hs.
      cbn [Z.eqb negb]. erewrite bind_done by reflexivity. cbn. erewrite bind_done by reflexivity. rewrite Hc. reflexivity. }
  unfold update; cbn. pose proof (lowest_nonneg t). rewrite (proj2 (Z.ltb_ge _ _)) by done.
  assert (∀ ps o t, print_uptime ps (ho_err h) (Cli t sl e o) = Done tt (Cli t sl e (o ++ concat ps))) as E.
  { induction ps as [|b ps IH]; intros o1 t1; unfold print_uptime in *; cbn; [rewrite He, app_nil_r; done|].
    erewrite bind_done by reflexivity. unfold update; cbn. by rewrite IH, <- app_assoc. }
  erewrite bind_done by apply E. by eexists.
Qed.

Lemma connect_backoff_witness :
  ∃ fd s', connect_retry 128 (λ i, if decide (i = 3%nat) then 0 else 111) (λ _, 0) (Cli {[0 := 9%nat]} [] 0 []) = Done fd s' ∧
    x_fds s' = <[fd := 3%nat]> {[0 := 9%nat]} ∧ x_slept s' = [1; 2; 4].
Proof.
  destruct (connect_backoff 7 (λ i, if decide (i = 3%nat) then 0 else 111) (λ _, 0) (Cli {[0 := 9%nat]} [] 0 [])) as [H _]; [lia|].
  destruct (H 3%nat) as (_ & Hr & _); [lia| |done|].
  { intros i Hi. rewrite decide_False by lia. done. }
  destruct Hr as (fd & s' & E & _ & Hf & Hs); [done|]. exists fd, s'. by split_and!.
Defined.

Definition ex_srv : srv := Srv (<[0 := Other 0]> (<[1 := Other 1]> {[2 := Other 1]})) (λ _, []) ∅ ∅ 0 [].
Definition ex_good : addr := Addr 0 0 0 0 0.
Definition ex_bad : addr := Addr 0 0 0 98 0.

Lemma ex_tidy : tidy ex_srv.
Proof.
  split_and!; [| |set_solver].
  - intros i Hi. assert (i = 0 ∨ i = 1 ∨ i = 2) as [->|[->| ->]] by lia; by eexists.
  - intros i c. unfold ex_srv. cbn. rewrite !lookup_insert, lookup_singleton. repeat case_decide; done.
Qed.

Lemma select_servers_witness :
  (∃ s' rs, server_main (initserver2 true) (serve_exec (λ _, true)) true (λ _, true) [ex_good; ex_bad; ex_good] 0
      [Arrive [(2, 7); (0, 8)]%nat; Interrupt; Arrive [(0, 9)]%nat] ex_srv = Done tt s' ∧
    v_log s' = rs ∧ rs.*1 ≡ₚ [7; 8; 9]%nat ∧ Forall (λ p, uptime_fds p.1 p.2) rs) ∧
  (∃ s', server_main (initserver2 true) (serve_exec (λ _, true)) true (λ _, true) [ex_good; ex_bad] 0 [Arrive [(0, 8)]%nat] ex_srv = Done tt s' ∧
    v_log s' = [] ∧ v_queue s' 0%nat = [8%nat]).
Proof.
  split.
  - destruct (select_servers (λ a, [ad_reuseaddr a]) (λ _, true) [ex_good; ex_bad; ex_good]
      [Arrive [(2, 7); (0, 8)]%nat; Interrupt; Arrive [(0, 9)]%nat] ex_srv true (answer_exec (λ _, true) true) uptime_fds 0 ex_good) as [H _];
      [intros; by apply exec_service|apply ex_tidy|done|done|vm_compute; lia|done|done| |done|].
    { intros p Hp. apply (bool_decide_unpack _). revert p Hp. apply Forall_forall. by repeat constructor. }
    destruct H as (s' & rs & E & Hl & Hrs & HP & _); [done|]. exists s', rs. by split_and!.
  - destruct (select_servers (λ a, [ad_reuseaddr a]) (λ _, true) [ex_good; ex_bad] [Arrive [(0, 8)]%nat] ex_srv true
      (answer_exec (λ _, true) true) uptime_fds 0 ex_bad) as [_ H];
      [intros; by apply exec_service|apply ex_tidy|done|done|vm_compute; lia|done|done| |done|].
    { intros p Hp. apply (bool_decide_unpack _). revert p Hp. apply Forall_forall. by repeat constructor. }
    destruct H as (s' & E & Hl & Hq); [done|]. exists s'. split_and!; [done|done|]. by rewrite Hq.
Defined.
