(* ===== verification/PtyLoop.v ===== *)
(** * The loop of pty (pty/loop.c): a child copies standard input to the master of the pseudo
    terminal, the parent the master to standard output, and SIGTERM tells either of them
    that the other is done.

    [step] is what a process does between two moments at which the others can act: a read
    and a write are entered and left in separate steps by the parent, which a signal can
    interrupt there.  The user, who types, and the program behind the slave are moves too. *)
From Stdlib Require Import Ascii ZArith Lia.
From stdpp Require Import base strings gmap option list.
From S2P Require Import Prelude.

Definition BUFFSIZE : nat := 512.

(** exit(0), err_sys, SIGTERM. *)
Inductive ending := ByExit | ByError | BySignal.
#[export] Instance ending_eq_dec : EqDecision ending.
Proof. solve_decision. Defined.

Inductive child_pc := CRead | CWrite (buf : bytes) | CNotify | CLeave | CGone (e : ending).
(** [PSetup]: before signal_intr; [PInRead], [PInWrite]: in the system call; [PAfter]: behind the
    loop, at the test of sigcaught. *)
Inductive parent_pc := PSetup | PRead | PInRead | PWrite (buf : bytes) | PInWrite (buf : bytes) | PAfter | PReturned | PGone (e : ending).
#[export] Instance child_pc_eq_dec : EqDecision child_pc.
Proof. solve_decision. Defined.
#[export] Instance parent_pc_eq_dec : EqDecision parent_pc.
Proof. solve_decision. Defined.

(** The processes, sigcaught, standard input and the end of it, what waits at the master and
    whether the slave is closed, what has been written to the master and to standard output;
    and what has been typed and what the slave has written in all, and whether a read of the
    master failed. *)
Record pty := Pty {
  y_child : child_pc; y_parent : parent_pc; y_sigcaught : bool;
  y_in : bytes; y_eof : bool; y_out : bytes; y_hup : bool; y_master : bytes; y_stdout : bytes;
  y_typed : bytes; y_emitted : bytes; y_failed : bool }.
#[export] Instance pty_rebuild : Rebuild pty := λ s,
  Pty (y_child s) (y_parent s) (y_sigcaught s) (y_in s) (y_eof s) (y_out s) (y_hup s) (y_master s) (y_stdout s)
    (y_typed s) (y_emitted s) (y_failed s).

(** After fork. *)
Definition start : pty := Pty CRead PSetup false [] false [] false [] [] [] [] false.

(** ** Signals *)

(** sig_term, or the default action before signal_intr.  It interrupts a read that waits, and
    a write of which nothing ([k] = 0) or only the first [k] bytes have been written: without
    SA_RESTART the write returns -1 or [k]. *)
Definition sig_term (k : nat) (s : pty) : option pty :=
  match y_parent s with
  | PSetup => Some (s <| y_parent := PGone BySignal |>)
  | PGone _ => Some s
  | PInRead => Some (s <| y_sigcaught := true |> <| y_parent := if decide (y_out s = []) then PAfter else PInRead |>)
  | PInWrite buf =>
      let s := s <| y_sigcaught := true |> in
      if decide (k < length buf)%nat then
        Some (if decide (k = 0%nat) then s <| y_parent := PGone ByError |>
              else s <| y_stdout ::= λ b, b ++ take k buf |> <| y_parent := PWrite (drop k buf) |>)
      else None
  | _ => Some (s <| y_sigcaught := true |>)
  end.

Definition kill_child (s : pty) : pty :=
  match y_child s with CGone _ => s | _ => s <| y_child := CGone BySignal |> end.

(** ** The processes *)

(** A read of at most BUFFSIZE bytes that gives [n] of them. *)
Definition read_some (n : nat) (l : bytes) : option (bytes * bytes) :=
  if decide ((1 <= n <= BUFFSIZE) ∧ n <= length l)%nat then Some (take n l, drop n l) else None.

Definition child_step (ignoreeof : bool) (n : nat) (s : pty) : option pty :=
  match y_child s with
  | CRead =>
      if decide (y_in s = []) then if y_eof s then Some (s <| y_child := CNotify |>) else None
      else '(buf, rest) ← read_some n (y_in s); Some (s <| y_in := rest |> <| y_child := CWrite buf |>)
  | CWrite buf => Some (s <| y_master ::= λ b, b ++ buf |> <| y_child := CRead |>)
  | CNotify => (if negb ignoreeof then sig_term n s else Some s) ≫= λ s, Some (s <| y_child := CLeave |>)
  | CLeave => Some (s <| y_child := CGone ByExit |>)
  | CGone _ => None
  end.

(** A read or write that fails: err_sys. *)
Definition child_fails (s : pty) : option pty :=
  match y_child s with CRead | CWrite _ => Some (s <| y_child := CGone ByError |>) | _ => None end.

Definition parent_step (n : nat) (s : pty) : option pty :=
  match y_parent s with
  | PSetup => Some (s <| y_parent := PRead |>)
  | PRead => Some (s <| y_parent := PInRead |>)
  | PInRead =>
      if decide (y_out s = []) then if y_hup s then Some (s <| y_parent := PAfter |>) else None
      else '(buf, rest) ← read_some n (y_out s); Some (s <| y_out := rest |> <| y_parent := PWrite buf |>)
  | PWrite buf => Some (s <| y_parent := PInWrite buf |>)
  | PInWrite buf => Some (s <| y_stdout ::= λ b, b ++ buf |> <| y_parent := PRead |>)
  | PAfter => Some ((if y_sigcaught s then s else kill_child s) <| y_parent := PReturned |>)
  | PReturned | PGone _ => None
  end.

(** A read that fails ends the loop, a write err_sys; signal_intr can fail as well. *)
Definition parent_fails (s : pty) : option pty :=
  match y_parent s with
  | PSetup | PInWrite _ => Some (s <| y_parent := PGone ByError |>)
  | PInRead => Some (s <| y_failed := true |> <| y_parent := PAfter |>)
  | _ => None
  end.

(** ** Executions *)

Inductive move :=
  | Typed (b : bytes) | Eof | Emit (b : bytes) | Hangup
  | Child (n : nat) | ChildFails | Parent (n : nat) | ParentFails.

Definition step (ignoreeof : bool) (m : move) (s : pty) : option pty :=
  match m with
  | Typed b => if y_eof s then None else Some (s <| y_in ::= λ l, l ++ b |> <| y_typed ::= λ l, l ++ b |>)
  | Eof => Some (s <| y_eof := true |>)
  | Emit b => if y_hup s then None else Some (s <| y_out ::= λ l, l ++ b |> <| y_emitted ::= λ l, l ++ b |>)
  | Hangup => Some (s <| y_hup := true |>)
  | Child n => child_step ignoreeof n s
  | ChildFails => child_fails s
  | Parent n => parent_step n s
  | ParentFails => parent_fails s
  end.

Fixpoint steps (ignoreeof : bool) (ms : list move) (s : pty) : option pty :=
  match ms with [] => Some s | m :: ms => step ignoreeof m s ≫= steps ignoreeof ms end.

Inductive reach (ignoreeof : bool) : pty → Prop :=
  | reach_start : reach ignoreeof start
  | reach_step m s s' : reach ignoreeof s → step ignoreeof m s = Some s' → reach ignoreeof s'.
