(* ===== verification/PtyLoopProps.v ===== *)
(** * Properties of the loop of pty. *)
From Stdlib Require Import Ascii ZArith Lia.
From stdpp Require Import base strings gmap option list.
From S2P Require Import Prelude PtyLoop.

(** ** The invariant *)

(** Whether a process is behind its loop. *)
Definition child_left (p : child_pc) : Prop := p = CLeave ∨ ∃ e, p = CGone e.
Definition parent_done (p : parent_pc) : Prop := p = PReturned ∨ ∃ e, p = PGone e.

(** The bytes between standard input and the master, and between the master and standard
    output; those of a process that has been ended are lost. *)
Definition child_bytes (s : pty) : Prop :=
  match y_child s with
  | CRead => y_typed s = y_master s ++ y_in s
  | CWrite buf => y_typed s = y_master s ++ buf ++ y_in s
  | CNotify | CLeave | CGone ByExit => y_typed s = y_master s ∧ y_eof s = true
  | CGone _ => ∃ lost, y_typed s = y_master s ++ lost
  end.
Definition parent_bytes (s : pty) : Prop :=
  match y_parent s with
  | PWrite buf | PInWrite buf => y_emitted s = y_stdout s ++ buf ++ y_out s
  | PGone _ => ∃ lost, y_emitted s = y_stdout s ++ lost
  | _ => y_emitted s = y_stdout s ++ y_out s
  end.

(** Why the parent is behind its loop. *)
Definition after_loop (s : pty) : Prop :=
  match y_parent s with
  | PAfter => y_sigcaught s = true ∨ y_failed s = true ∨ (y_hup s = true ∧ y_out s = [])
  | PReturned => (y_sigcaught s = true ∨ y_failed s = true ∨ (y_hup s = true ∧ y_out s = [])) ∧ child_left (y_child s)
  | _ => True
  end.

Definition inv (ignoreeof : bool) (s : pty) : Prop :=
  child_bytes s ∧ parent_bytes s ∧ after_loop s ∧
  (y_sigcaught s = true → ignoreeof = false ∧ child_left (y_child s) ∧ y_eof s = true ∧ y_typed s = y_master s).

Lemma read_some_eq n l buf rest : read_some n l = Some (buf, rest) → l = buf ++ rest ∧ buf ≠ [].
Proof.
  unfold read_some. case_decide as H; [|done]. intros [= <- <-]. split; [by rewrite take_drop|].
  destruct n, l; simpl in *; done || lia.
Qed.

Lemma inv_start ignoreeof : inv ignoreeof start.
Proof. by repeat split. Qed.

Ltac split_state s := destruct s as [c p sg i eo o hu ma so ty em fa]; unfold inv, child_bytes, parent_bytes, after_loop, child_left, update in *; cbn in *.

(** The signal, from a child at the end of its loop. *)
Lemma sig_term_inv k s s' : inv false s → y_child s = CNotify → sig_term k s = Some s' →
  inv false (s' <| y_child := CLeave |>).
Proof.
  split_state s. intros Hinv -> E. destruct Hinv as ([Hty Heo] & Hp & Ha & Hs).
  assert (sg = false) as ->.
  { destruct sg; [|done]. by destruct (Hs eq_refl) as (_ & [?|[? ?]] & _). }
  unfold sig_term in E; unfold update in E; cbn in E.
  assert (∀ b : bool, b = true → false = false ∧ (CLeave = CLeave ∨ ∃ e, CLeave = CGone e) ∧ eo = true ∧ ty = ma)
    as Hleft by (intros; by auto).
  destruct p as [| | |buf|buf| | |e].
  - simplify_eq; cbn. split_and!; try apply Hleft; by eauto.
  - simplify_eq; cbn. split_and!; try apply Hleft; done.
  - simplify_eq; cbn. case_decide; subst; cbn; split_and!; try apply Hleft; by auto.
  - simplify_eq; cbn. split_and!; try apply Hleft; done.
  - case_decide; [|done]. case_decide; simplify_eq; cbn; split_and!; try apply Hleft; try done; [by eauto|].
    by rewrite <- app_assoc, (app_assoc (take k buf)), take_drop.
  - simplify_eq; cbn. split_and!; try apply Hleft; by auto.
  - destruct Ha as [_ [?|[? ?]]]; done.
  - simplify_eq; cbn. split_and!; try apply Hleft; done.
Qed.

(** A move of the child that does not touch the parent. *)
Ltac parent_untouched p := split; [assumption|]; split; [by destruct p; naive_solver|]; naive_solver.

Lemma child_inv ignoreeof n s s' : inv ignoreeof s → child_step ignoreeof n s = Some s' → inv ignoreeof s'.
Proof.
  intros Hinv E. unfold child_step in E. destruct (y_child s) as [|buf| | |e] eqn:Ec; [| | | |done].
  - split_state s. subst c. destruct Hinv as (Hc & Hp & Ha & Hs). case_decide as Hi.
    + destruct eo; simplify_eq. cbn. rewrite app_nil_r in *. split; [done|]. parent_untouched p.
    + destruct (read_some n i) as [[buf rest]|] eqn:Er; simplify_eq/=. apply read_some_eq in Er as [-> _].
      split; [done|]. parent_untouched p.
  - split_state s. subst c. destruct Hinv as (Hc & Hp & Ha & Hs). simplify_eq; cbn.
    split; [by rewrite <- app_assoc|]. parent_untouched p.
  - destruct ignoreeof; cbn in E.
    + simplify_eq. split_state s. subst c. destruct Hinv as (Hc & Hp & Ha & Hs). split; [done|]. parent_untouched p.
    + destruct (sig_term n s) as [s1|] eqn:E1; simplify_eq/=. by eapply sig_term_inv.
  - split_state s. subst c. destruct Hinv as (Hc & Hp & Ha & Hs). simplify_eq; cbn. split; [done|]. parent_untouched p.
Qed.

Lemma child_fails_inv ignoreeof s s' : inv ignoreeof s → child_fails s = Some s' → inv ignoreeof s'.
Proof.
  intros Hinv E. unfold child_fails in E. split_state s. destruct Hinv as (Hc & Hp & Ha & Hs).
  destruct c; simplify_eq; cbn; (split; [by eauto|]); parent_untouched p.
Qed.

Lemma parent_inv ignoreeof n s s' : inv ignoreeof s → parent_step n s = Some s' → inv ignoreeof s'.
Proof.
  intros Hinv E. unfold parent_step in E. split_state s. destruct Hinv as (Hc & Hp & Ha & Hs).
  destruct p as [| | |buf|buf| | |e]; simplify_eq; cbn.
  - by split_and!.
  - by split_and!.
  - case_decide as Ho.
    + destruct hu; simplify_eq; cbn. split_and!; auto.
    + destruct (read_some n o) as [[buf rest]|] eqn:Er; simplify_eq/=. apply read_some_eq in Er as [-> _]. by split_and!.
  - by split_and!.
  - split_and!; auto. by rewrite <- app_assoc.
  - destruct sg; cbn.
    + destruct (Hs eq_refl) as (H1 & H2 & H3 & H4). split_and!; done.
    + unfold kill_child; cbn. destruct c as [|buf| | |e]; cbn; (split; [|split; [done|split; [split; [done|by eauto]|done]]]).
      * by eauto.
      * by eauto.
      * exists []. rewrite app_nil_r. apply Hc.
      * exists []. rewrite app_nil_r. apply Hc.
      * done.
Qed.

Lemma parent_fails_inv ignoreeof s s' : inv ignoreeof s → parent_fails s = Some s' → inv ignoreeof s'.
Proof.
  intros Hinv E. unfold parent_fails in E. split_state s. destruct Hinv as (Hc & Hp & Ha & Hs).
  destruct p; simplify_eq; cbn; split_and!; eauto.
Qed.

Lemma pty_reach_inv ignoreeof s : reach ignoreeof s → inv ignoreeof s.
Proof.
  induction 1 as [|m s s' _ IH E]; [apply inv_start|]. destruct m; cbn in E.
  - split_state s. destruct eo; simplify_eq; cbn. destruct IH as (Hc & Hp & Ha & Hs).
    split; [|split; [done|split; [done|]]].
    + destruct c as [|buf| | |[]]; try (destruct Hc; done); try (rewrite Hc, <- ?app_assoc; done).
      all: destruct Hc as [lost ->]; rewrite <- app_assoc; by eexists.
    + intros Hsg. by destruct (Hs Hsg) as (_ & _ & ? & _).
  - split_state s. simplify_eq; cbn. destruct IH as (Hc & Hp & Ha & Hs).
    split; [|split; [done|split; [done|]]].
    + destruct c as [|buf| | |[]]; first [done | by destruct Hc].
    + intros Hsg. by destruct (Hs Hsg) as (? & ? & _ & ?).
  - split_state s. destruct hu; simplify_eq; cbn. destruct IH as (Hc & Hp & Ha & Hs).
    split; [done|split; [|split; [|done]]].
    + destruct p; try (rewrite Hp, <- ?app_assoc; done). destruct Hp as [lost ->]. rewrite <- app_assoc. by eexists.
    + destruct p; naive_solver.
  - split_state s. simplify_eq; cbn. destruct IH as (Hc & Hp & Ha & Hs).
    split; [done|split; [done|split; [|done]]]. destruct p; naive_solver.
  - by eapply child_inv.
  - by eapply child_fails_inv.
  - by eapply parent_inv.
  - by eapply parent_fails_inv.
Qed.

(** ** Termination *)

Definition child_left_to_do (p : child_pc) : nat :=
  match p with CRead => 5 | CWrite _ => 6 | CNotify => 4 | CLeave => 1 | CGone _ => 0 end.
Definition parent_left_to_do (p : parent_pc) : nat :=
  match p with PSetup => 5 | PRead => 4 | PInRead => 3 | PWrite _ => 6 | PInWrite _ => 5 | PAfter => 1 | PReturned | PGone _ => 0 end.
Definition left_to_do (s : pty) : nat :=
  child_left_to_do (y_child s) + 4 * length (y_in s) + parent_left_to_do (y_parent s) + 4 * length (y_out s).

(** The moves of the two processes; the others are those of the user and of the slave. *)
Definition process_move (m : move) : bool :=
  match m with Child _ | ChildFails | Parent _ | ParentFails => true | _ => false end.

Lemma read_some_length n l buf rest : read_some n l = Some (buf, rest) → (length rest < length l)%nat.
Proof.
  intros H. apply read_some_eq in H as [-> Hb]. rewrite length_app. destruct buf; [done|simpl; lia].
Qed.

Lemma sig_term_left k s s' : sig_term k s = Some s' →
  y_child s' = y_child s ∧ y_in s' = y_in s ∧ y_out s' = y_out s ∧
  (parent_left_to_do (y_parent s') <= S (parent_left_to_do (y_parent s)))%nat.
Proof.
  destruct s as [c p sg i eo o hu ma so ty em fa]. unfold sig_term, update; cbn.
  destruct p; intros E; repeat (case_decide; try done); simplify_eq; cbn; repeat (case_decide; cbn); split_and!; done || lia.
Qed.

Lemma process_decreases ignoreeof m s s' : process_move m = true → step ignoreeof m s = Some s' →
  (left_to_do s' < left_to_do s)%nat.
Proof.
  intros Hm E. destruct m; try done; cbn [step] in E; unfold left_to_do.
  - unfold child_step in E. destruct (y_child s) eqn:Ec; try done.
    + case_decide as Hi; [destruct (y_eof s); simplify_eq; destruct s; simpl in *; subst; simpl; lia|].
      destruct (read_some n (y_in s)) as [[b r]|] eqn:Er; simplify_eq/=. apply read_some_length in Er.
      destruct s; simpl in *; subst; simpl; lia.
    + simplify_eq. destruct s; simpl in *; subst; simpl; lia.
    + destruct ignoreeof; cbn in E; [simplify_eq; destruct s; simpl in *; subst; simpl; lia|].
      destruct (sig_term n s) as [s1|] eqn:E1; simplify_eq/=. apply sig_term_left in E1 as (H1 & -> & -> & H4). lia.
    + simplify_eq. destruct s; simpl in *; subst; simpl; lia.
  - unfold child_fails in E. destruct (y_child s) eqn:Ec; simplify_eq; destruct s; simpl in *; subst; simpl; lia.
  - unfold parent_step in E. destruct (y_parent s) eqn:Ec; try done.
    + simplify_eq. destruct s; simpl in *; subst; simpl; lia.
    + simplify_eq. destruct s; simpl in *; subst; simpl; lia.
    + case_decide as Hi; [destruct (y_hup s); simplify_eq; destruct s; simpl in *; subst; simpl; lia|].
      destruct (read_some n (y_out s)) as [[b r]|] eqn:Er; simplify_eq/=. apply read_some_length in Er.
      destruct s; simpl in *; subst; simpl; lia.
    + simplify_eq. destruct s; simpl in *; subst; simpl; lia.
    + simplify_eq. destruct s; simpl in *; subst; simpl; lia.
    + simplify_eq. unfold kill_child. destruct s as [[| | | |] ? [] ?]; simpl in *; subst; simpl; lia.
  - unfold parent_fails in E. destruct (y_parent s) eqn:Ec; simplify_eq; destruct s; simpl in *; subst; simpl; lia.
Qed.

Lemma process_moves_bounded ignoreeof ms : ∀ s s', forallb process_move ms = true →
  steps ignoreeof ms s = Some s' → (length ms + left_to_do s' <= left_to_do s)%nat.
Proof.
  induction ms as [|m ms IH]; intros s s' Hms E; simpl in *; [by simplify_eq|].
  apply andb_true_iff in Hms as [Hm Hms]. destruct (step ignoreeof m s) as [s1|] eqn:E1; [|done].
  apply process_decreases in E1; [|done]. specialize (IH s1 s' Hms E). lia.
Qed.

Lemma parent_can_move ignoreeof s : y_hup s = true → ¬ parent_done (y_parent s) → is_Some (step ignoreeof (Parent 1) s).
Proof.
  intros Hh Hd. cbn. unfold parent_step, parent_done in *. rewrite Hh. destruct (y_parent s); eauto; try naive_solver.
  case_decide as Ho; [by eexists|]. unfold read_some.
  rewrite decide_True; [by eexists|]. destruct (y_out s); [done|]. unfold BUFFSIZE. simpl. lia.
Qed.

(** C15: loop of pty/loop.c, in every interleaving of its two processes with the user and the
    program behind the slave.  What has been written to the master is the beginning of what
    was typed, in order, and all of it when the child has ended normally; what has been
    written to standard output is the beginning of what the slave has written, and all of it
    when the parent has returned without SIGTERM and without an error, which it does only
    after the slave was closed.  When the parent has returned the child is behind its loop or
    has been killed (not the other way round: the parent goes on without the child when
    SIGTERM is ignored, lost or not sent).  SIGTERM has been caught only after the child has
    copied all the input.  The processes make a bounded number of moves, and from the moment
    the slave is closed nothing but the parent's own end stops the parent. *)
Theorem pty_loop ignoreeof s (Hreach : reach ignoreeof s) :
  (∃ rest, y_typed s = y_master s ++ rest ∧ (y_child s = CGone ByExit → rest = [])) ∧
  (∃ rest, y_emitted s = y_stdout s ++ rest ∧
    (y_parent s = PReturned → y_sigcaught s = false → y_failed s = false → rest = [] ∧ y_hup s = true)) ∧
  (y_parent s = PReturned → y_child s = CLeave ∨ ∃ e, y_child s = CGone e) ∧
  (y_sigcaught s = true → ignoreeof = false ∧ y_eof s = true ∧ y_master s = y_typed s) ∧
  (∀ ms s', forallb process_move ms = true → steps ignoreeof ms s = Some s' → (length ms <= left_to_do s)%nat) ∧
  (y_hup s = true → (y_parent s = PReturned ∨ ∃ e, y_parent s = PGone e) ∨ is_Some (step ignoreeof (Parent 1) s)).
Proof.
  pose proof (pty_reach_inv ignoreeof s Hreach) as (Hc & Hp & Ha & Hs). unfold child_bytes, parent_bytes, after_loop in *.
  split; [|split; [|split; [|split; [|split]]]].
  - destruct (y_child s) as [|buf| | |[]];
      [by exists (y_in s)|by exists (buf ++ y_in s)|destruct Hc as [Hc _]; exists []; by rewrite app_nil_r..| |];
      destruct Hc as [x ?]; by exists x.
  - destruct (y_parent s) as [| | |buf|buf| | |e]; try by exists (y_out s).
    + by exists (buf ++ y_out s).
    + by exists (buf ++ y_out s).
    + exists (y_out s). split; [done|]. intros _ Hsg Hf. destruct Ha as [[H|[H|[H1 H2]]] _]; [congruence|congruence|by split].
    + destruct Hp as [lost ?]. by exists lost.
  - intros Hr. rewrite Hr in Ha. apply Ha.
  - intros Hsg. destruct (Hs Hsg) as (? & _ & ? & ?). by split_and!.
  - intros ms s' Hms E. apply process_moves_bounded in E; [lia|done].
  - intros Hh. destruct (y_parent s) eqn:Ep; [..|by left; left|by left; right; eexists];
      right; (apply parent_can_move; [done|]; rewrite Ep; by intros [?|[? ?]]).
Qed.

(** A session: the user types a line, the program answers and ends. *)
Definition ex_session : list move :=
  [Parent 0; Parent 0; Typed (str "ls"); Child 2; Child 0; Emit (str "a b"); Parent 2; Parent 0; Parent 0; Hangup;
   Parent 0; Parent 1; Parent 0; Parent 0; Parent 0; Parent 0; Parent 0].

Lemma steps_reach ignoreeof ms : ∀ s s', reach ignoreeof s → steps ignoreeof ms s = Some s' → reach ignoreeof s'.
Proof.
  induction ms as [|m ms IH]; intros s s' Hr E; simpl in E; [by simplify_eq|].
  destruct (step ignoreeof m s) as [s1|] eqn:E1; [|done]. apply (IH s1); [|done]. by eapply reach_step.
Qed.

Lemma pty_loop_witness : ∃ s, steps false ex_session start = Some s ∧ y_parent s = PReturned ∧
  y_child s = CGone BySignal ∧ y_master s = str "ls" ∧ y_stdout s = str "a b" ∧ y_emitted s = y_stdout s.
Proof.
  assert (∃ s, steps false ex_session start = Some s) as [s E] by (eexists; vm_compute; reflexivity).
  destruct (pty_loop false s) as (_ & (rest & Hem & H) & _); [by apply (steps_reach false ex_session start); [apply reach_start|]|].
  vm_compute in E. injection E as <-. eexists. split; [vm_compute; reflexivity|]. do 4 (split; [reflexivity|]).
  rewrite Hem. destruct H as [-> _]; [reflexivity..|]. apply app_nil_r.
Defined.

(** ** What goes wrong *)

(** When the end of file on standard input is seen before the parent has called signal_intr,
    SIGTERM kills the parent; atexit handlers such as tty_atexit do not run. *)
Lemma pty_early_eof : ∃ s, steps false [Eof; Child 0; Child 0; Child 0] start = Some s ∧ y_parent s = PGone BySignal.
Proof. eexists. split; [vm_compute; reflexivity|done]. Qed.

(** When SIGTERM comes between two calls of read the parent does not look at sigcaught, and
    waits in read for as long as the slave is open and silent. *)
Lemma pty_lost_sigterm : ∃ s, steps false [Parent 0; Eof; Child 0; Child 0; Child 0; Parent 0] start = Some s ∧
  y_sigcaught s = true ∧ y_child s = CGone ByExit ∧ y_parent s = PInRead ∧ ∀ n, parent_step n s = None.
Proof. eexists. split; [vm_compute; reflexivity|]. by split_and!. Qed.

(** When its read of standard input fails, the child ends without a signal to the parent. *)
Lemma pty_read_error : ∃ s, steps false [Parent 0; Parent 0; ChildFails] start = Some s ∧
  y_sigcaught s = false ∧ y_child s = CGone ByError ∧ ∀ n, parent_step n s = None.
Proof. eexists. split; [vm_compute; reflexivity|]. by split_and!. Qed.

(** When SIGTERM interrupts a write to standard output that waits, the parent ends with an
    error and the bytes are lost. *)
Lemma pty_write_interrupted : ∃ s,
  steps false [Parent 0; Parent 0; Emit (str "x"); Parent 1; Parent 0; Eof; Child 0; Child 0] start = Some s ∧
  y_parent s = PGone ByError ∧ y_stdout s = [].
Proof. eexists. split; [vm_compute; reflexivity|done]. Qed.
