(* ===== verification/Pty.v ===== *)
(** * Pseudo terminals: lib/ptyopen.c, lib/ptyfork.c, lib/spipe.c, pty/driver.c, and what
    pty/main.c does with them.

    A process is its descriptor table, its session and controlling terminal, and errno.  A
    routine that forks is run once for each process, with what fork returns there.  The
    errors of the system calls are a list, one number for each call in order and 0 for
    success; when the list is used up the calls succeed. *)
From Stdlib Require Import Ascii ZArith Lia.
From stdpp Require Import base strings gmap option list.
From S2P Require Import Prelude CStr Fds Tty.

Definition STDIN_FILENO : Z := 0.
Definition STDOUT_FILENO : Z := 1.
Definition STDERR_FILENO : Z := 2.
Definition ENOENT : Z := 2.
Definition ENOTTY : Z := 25.

(** The pseudo terminal, the ends of the pipe to the driver, other files. *)
Inductive pobj := Master | Slave | Pipe0 | Pipe1 | Other (n : nat).
#[export] Instance pobj_eq_dec : EqDecision pobj.
Proof. solve_decision. Defined.

Record winsize := Winsize { ws_row : Z; ws_col : Z }.

(** [q_tty]: whether the controlling terminal is the slave, another terminal, or none;
    [q_termios], [q_winsize]: the settings of the slave; [q_slave_name] and [q_fdm]: the
    variables of the caller of pty_fork. *)
Record ptyproc := Ptyproc {
  q_fds : fdtab pobj; q_errors : list Z; q_errno : Z; q_leader : bool; q_tty : option pobj;
  q_termios : termios; q_winsize : winsize; q_slave_name : bytes; q_fdm : Z }.
#[export] Instance ptyproc_rebuild : Rebuild ptyproc := λ s,
  Ptyproc (q_fds s) (q_errors s) (q_errno s) (q_leader s) (q_tty s) (q_termios s) (q_winsize s) (q_slave_name s) (q_fdm s).

Section pty.
(** The name of the slave, the files other names stand for, the settings a terminal takes on
    request (TCSANOW). *)
Context (pts : bytes) (files : bytes → option nat) (accept : termios → termios → termios).

(** ** System calls *)

(** The next call: whether it succeeds. *)
Definition syscall : prog ptyproc bool := λ s,
  match q_errors s with
  | [] => Done true s
  | e :: l => let s := s <| q_errors := l |> in if e =? 0 then Done true s else Done false (s <| q_errno := e |>)
  end.

Definition close (fd : Z) : prog ptyproc unit := modify (λ s, s <| q_fds ::= fd_close fd |>).
Definition new_fd (a : pobj) : prog ptyproc Z :=
  s ← get; let '(fd, t) := fd_open a (q_fds s) in modify (λ s, s <| q_fds := t |>) ;; mret fd.

Definition posix_openpt : prog ptyproc Z :=
  ok ← syscall; if negb ok then mret (-1) else new_fd Master.

(** open of a terminal by the leader of a session that has none makes it its terminal. *)
Definition open (name : bytes) : prog ptyproc Z :=
  ok ← syscall;
  if negb ok then mret (-1)
  else if decide (cstr name = pts) then
    modify (λ s, if q_leader s && bool_decide (q_tty s = None) then s <| q_tty := Some Slave |> else s) ;;
    new_fd Slave
  else match files (cstr name) with
       | Some n => new_fd (Other n)
       | None => modify (λ s, s <| q_errno := ENOENT |>) ;; mret (-1)
       end.

(** The new session has no terminal. *)
Definition setsid : prog ptyproc Z :=
  ok ← syscall;
  if negb ok then mret (-1) else modify (λ s, s <| q_leader := true |> <| q_tty := None |>) ;; mret 1.

Definition dup2 (fd fd2 : Z) : prog ptyproc Z :=
  ok ← syscall;
  if negb ok then mret (-1)
  else s ← get; let '(r, t) := fd_dup2 fd fd2 (q_fds s) in modify (λ s, s <| q_fds := t |>) ;; mret r.

(** A change of the settings of the terminal behind [fd]. *)
Definition set_terminal (fd : Z) (f : ptyproc → ptyproc) : prog ptyproc Z :=
  ok ← syscall;
  if negb ok then mret (-1)
  else
    s ← get;
    if decide (q_fds s !! fd = Some Slave) then modify f ;; mret 0
    else modify (λ s, s <| q_errno := ENOTTY |>) ;; mret (-1).
Definition tcsetattr (fd : Z) (t : termios) : prog ptyproc Z :=
  set_terminal fd (λ s, s <| q_termios ::= λ old, accept old t |>).
Definition set_winsize (fd : Z) (w : winsize) : prog ptyproc Z := set_terminal fd (λ s, s <| q_winsize := w |>).

(** ** lib/ptyopen.c *)

(** strncpy(dst, src, n); dst[n - 1] = '\0'; as a string. *)
Definition copy_name (n : nat) (src : bytes) : bytes := take (n - 1) (cstr src).

(** errout of ptym_open; also what the errors of its three calls do. *)
Definition ptym_errout (fdm : Z) : prog ptyproc (Z * bytes) :=
  err ← gets q_errno;
  close fdm ;;
  modify (λ s, s <| q_errno := err |>) ;;
  mret (-1, []).

(** The descriptor and pts_name. *)
Definition ptym_open (pts_namesz : nat) : prog ptyproc (Z * bytes) :=
  fdm ← posix_openpt;
  if fdm <? 0 then mret (-1, [])
  else
    grantpt ← syscall;
    if negb grantpt then ptym_errout fdm
    else
      unlockpt ← syscall;
      if negb unlockpt then ptym_errout fdm
      else
        ptsname ← syscall;
        if negb ptsname then ptym_errout fdm
        else
          defined (0 <? pts_namesz)%nat ;;
          mret (fdm, copy_name pts_namesz pts).

Definition ptys_open (pts_name : bytes) : prog ptyproc Z := open pts_name.

(** ** lib/ptyfork.c *)

Definition PTS_NAMESZ : nat := 20.

(** The slave as standard input, output and error. *)
Definition slave_stdio (fds : Z) : prog ptyproc unit :=
  r ← dup2 fds STDIN_FILENO;
  check (r =? STDIN_FILENO) (ErrSys "dup2 error to stdin") ;;
  r ← dup2 fds STDOUT_FILENO;
  check (r =? STDOUT_FILENO) (ErrSys "dup2 error to stdout") ;;
  r ← dup2 fds STDERR_FILENO;
  check (r =? STDERR_FILENO) (ErrSys "dup2 error to stderr") ;;
  if negb (fds =? STDIN_FILENO) && negb (fds =? STDOUT_FILENO) && negb (fds =? STDERR_FILENO) then close fds else mret tt.

Definition pty_child (fdm : Z) (pts_name : bytes) (tio : option termios) (ws : option winsize) : prog ptyproc unit :=
  r ← setsid;
  check (negb (r <? 0)) (ErrSys "setsid error") ;;
  fds ← ptys_open pts_name;
  check (negb (fds <? 0)) (ErrSys "can't open slave pty") ;;
  close fdm ;;
  match tio with
  | Some t => r ← tcsetattr fds t; check (negb (r <? 0)) (ErrSys "tcsetattr error on slave pty")
  | None => mret tt
  end ;;
  match ws with
  | Some w => r ← set_winsize fds w; check (negb (r <? 0)) (ErrSys "TIOCSWINSZ error on slave pty")
  | None => mret tt
  end ;;
  slave_stdio fds.

(** [fork]: -1, 0 in the child, the child's number in the parent; [slave_namesz]: the size of
    slave_name when it is not NULL.  A message that prints pts_name before it has been set
    is undefined. *)
Definition pty_fork (fork : Z) (slave_namesz : option nat) (tio : option termios) (ws : option winsize) : prog ptyproc Z :=
  '(fdm, pts_name) ← ptym_open PTS_NAMESZ;
  if fdm <? 0 then undefined
  else
    match slave_namesz with
    | Some n => defined (0 <? n)%nat ;; modify (λ s, s <| q_slave_name := copy_name n pts_name |>)
    | None => mret tt
    end ;;
    if fork <? 0 then mret (-1)
    else if fork =? 0 then pty_child fdm pts_name tio ws ;; mret 0
    else modify (λ s, s <| q_fdm := fdm |>) ;; mret fork.

(** ** pty/driver.c *)

(** fd_pipe of lib/spipe.c. *)
Definition fd_pipe : prog ptyproc (option (Z * Z)) :=
  ok ← syscall;
  if negb ok then mret None else fd0 ← new_fd Pipe0; fd1 ← new_fd Pipe1; mret (Some (fd0, fd1)).

(** An end of the pipe as standard input and output. *)
Definition pipe_stdio (fd : Z) : prog ptyproc unit :=
  r ← dup2 fd STDIN_FILENO;
  check (r =? STDIN_FILENO) (ErrSys "dup2 error to stdin") ;;
  r ← dup2 fd STDOUT_FILENO;
  check (r =? STDOUT_FILENO) (ErrSys "dup2 error to stdout") ;;
  if negb (fd =? STDIN_FILENO) && negb (fd =? STDOUT_FILENO) then close fd else mret tt.

(** true: the process is the driver and its program has been started by execlp. *)
Definition do_driver (fork : Z) : prog ptyproc bool :=
  p ← fd_pipe;
  match p with
  | None => die (ErrSys "can't create stream pipe")
  | Some (fd0, fd1) =>
      check (negb (fork <? 0)) (ErrSys "fork error") ;;
      if fork =? 0 then
        close fd1 ;;
        pipe_stdio fd0 ;;
        ok ← syscall;
        check ok (ErrSys "execlp error for: %s") ;;
        mret true
      else
        close fd0 ;;
        pipe_stdio fd1 ;;
        mret false
  end.

(** ** pty/main.c *)

(** set_noecho, on the slave as standard input. *)
Definition set_noecho (fd : Z) : prog ptyproc unit :=
  ok ← syscall;
  s ← get;
  check (ok && bool_decide (q_fds s !! fd = Some Slave)) (ErrSys "tcgetattr error") ;;
  r ← tcsetattr fd (noecho_of (q_termios s));
  check (negb (r <? 0)) (ErrSys "tcsetattr error").

(** From pty_fork to execvp in the child, to the call of loop in the parent, to the driver's
    program in the driver; true: a program has been started.  tty_raw and atexit of the
    parent are in Tty. *)
Definition pty_main (fork dfork : Z) (interactive : option (termios * winsize)) (noecho driver : bool) : prog ptyproc bool :=
  pid ← pty_fork fork (Some 20%nat) (fst <$> interactive) (snd <$> interactive);
  check (negb (pid <? 0)) (ErrSys "fork error") ;;
  if pid =? 0 then
    (if noecho then set_noecho STDIN_FILENO else mret tt) ;;
    ok ← syscall;
    check ok (ErrSys "can't execute: %s") ;;
    mret true
  else if driver then do_driver dfork else mret false.
End pty.
