(* ===== verification/PtyProps.v ===== *)
(** * Properties of the routines around pseudo terminals. *)
From Stdlib Require Import Ascii ZArith Lia.
From stdpp Require Import base strings gmap option list.
From S2P Require Import Prelude CStr Fds Tty Pty.

(** ** Every way a routine can end *)

(** [ends m s Q F]: it returns with [Q], or ends the process in err_sys, which needs [F]. *)
Definition ends {A} (m : prog ptyproc A) (s : ptyproc) (Q : A → ptyproc → Prop) (F : Prop) : Prop :=
  match m s with Done a s' => Q a s' | Fatal (ErrSys _) _ => F | _ => False end.

Lemma ends_pty_bind {A B} (m : prog ptyproc A) (k : A → prog ptyproc B) s Q (F : Prop) :
  ends m s (λ a s', ends (k a) s' Q F) F → ends (m ≫= k) s Q F.
Proof. unfold ends, mbind, prog_bind. destruct (m s) as [a s'|[] s'|s'|]; done. Qed.

Lemma ends_pty_mono {A} (m : prog ptyproc A) s (Q Q' : A → ptyproc → Prop) (F F' : Prop) :
  ends m s Q F → (∀ a s', Q a s' → Q' a s') → (F → F') → ends m s Q' F'.
Proof. unfold ends. destruct (m s) as [a s'|[] s'|s'|]; auto. Qed.

Lemma ends_check b e s Q (F : Prop) : (b = true → Q tt s) → (b = false → F) → ends (check b (ErrSys e)) s Q F.
Proof. destruct b; unfold ends, check; cbn; auto. Qed.

(** Some system call fails. *)
Definition fails (l : list Z) : Prop := Exists (λ e, e ≠ 0) l.

(** What a state shows to the rest of a routine when only the errors to come are unknown. *)
Definition with_errors (l : list Z) (e : Z) (s : ptyproc) : ptyproc := s <| q_errors := l |> <| q_errno := e |>.

Lemma ends_pty_syscall s Q F :
  (∀ l, (fails l → fails (q_errors s)) → Q true (with_errors l (q_errno s) s)) →
  (∀ l e, fails (q_errors s) → (fails l → fails (q_errors s)) → Q false (with_errors l e s)) → ends syscall s Q F.
Proof.
  destruct s as [t l en ld tt1 tio ws nm fdm]. unfold ends, syscall, with_errors, update; cbn. intros Ht Hf.
  destruct l as [|e l]; [by apply (Ht [])|]. destruct (Z.eqb_spec e 0).
  - apply (Ht l). intros H. by right.
  - apply (Hf l e); [by left|]. intros H. by right.
Qed.

(** The descriptors are [t], and some errors of the list have been used. *)
Definition with_fds (s : ptyproc) (t : fdtab pobj) (s' : ptyproc) : Prop :=
  ∃ l e, s' = with_errors l e (s <| q_fds := t |>) ∧ (fails l → fails (q_errors s)).

Lemma with_fds_fds s t s' : with_fds s t s' → q_fds s' = t.
Proof. by intros (l & e & -> & _). Qed.
Lemma with_fds_fails s t s' : with_fds s t s' → fails (q_errors s') → fails (q_errors s).
Proof. by intros (l & e & -> & H). Qed.
Lemma with_fds_trans s t s' t' s'' : with_fds s t s' → with_fds s' t' s'' → with_fds s t' s''.
Proof. intros (l & e & -> & H) (l' & e' & -> & H'). exists l', e'. split; [by destruct s|]. intros Hf. by apply H, H'. Qed.
Lemma with_fds_close s t s' fd : with_fds s t s' → with_fds s (fd_close fd t) (s' <| q_fds ::= fd_close fd |>).
Proof. intros (l & e & -> & H). exists l, e. by destruct s. Qed.
Lemma with_fds_open s t s' t' : with_fds s t s' → with_fds s t' (s' <| q_fds := t' |>).
Proof. intros (l & e & -> & H). exists l, e. by destruct s. Qed.
Lemma with_fds_refl s : with_fds s (q_fds s) s.
Proof. exists (q_errors s), (q_errno s). by destruct s. Qed.

(** dup2 and the check of its result, as the routines use it. *)
Lemma dup2_then {A} fd fd2 msg (k : prog ptyproc A) s a Q F :
  q_fds s !! fd = Some a → 0 <= fd2 → (fails (q_errors s) → F) →
  (∀ s', with_fds s (<[fd2 := a]> (q_fds s)) s' → ends k s' Q F) →
  ends (r ← dup2 fd fd2; check (r =? fd2) (ErrSys msg) ;; k) s Q F.
Proof.
  intros Ha H2 HF Hk. apply ends_pty_bind. unfold dup2. apply ends_pty_bind, ends_pty_syscall.
  - intros l Hl. cbn [negb]. specialize (Hk (with_errors l (q_errno s) (s <| q_fds := <[fd2 := a]> (q_fds s) |>))).
    destruct s as [t l0 en ld tt1 tio ws nm fdm]. unfold ends, with_errors, fd_dup2, mbind, prog_bind, get, update in *; cbn in *.
    rewrite Ha. cbn. rewrite Z.eqb_refl. cbn. apply Hk. by exists l, en.
  - intros l e Hf _. assert ((-1 =? fd2) = false) as E by lia.
    unfold ends. cbn [negb]. unfold mret, prog_ret, mbind, prog_bind. rewrite E. by apply HF.
Qed.

(** [fd] becomes the descriptors of [l] and is closed unless it is one of them. *)
Definition as_stdio (l : list Z) (a : pobj) (fd : Z) (t t' : fdtab pobj) : Prop :=
  ∀ i, t' !! i = if decide (i ∈ l) then Some a else if decide (i = fd) then None else t !! i.

Lemma insert_here (t : fdtab pobj) fd a i : t !! fd = Some a → <[i := a]> t !! fd = Some a.
Proof. intros H. destruct (decide (fd = i)) as [->|]; [apply lookup_insert_eq|by rewrite lookup_insert_ne]. Qed.

Lemma insert_stdio (t0 t : fdtab pobj) a l fd : (∀ i, t !! i = if decide (i ∈ l) then Some a else t0 !! i) →
  ∀ i, <[fd := a]> t !! i = if decide (i ∈ fd :: l) then Some a else t0 !! i.
Proof.
  intros Ht i. destruct (decide (i = fd)) as [->|Hne].
  - rewrite lookup_insert_eq. by rewrite decide_True by left.
  - rewrite lookup_insert_ne, Ht by done. destruct (decide (i ∈ l)); [by rewrite decide_True by by right|].
    rewrite decide_False; [done|]. rewrite elem_of_cons. tauto.
Qed.

(** The end of the routines: the descriptor is closed unless it is one of [l]. *)
Lemma close_unless (b : bool) l a fd s t s' F : with_fds s t s' →
  (∀ i, t !! i = if decide (i ∈ l) then Some a else q_fds s !! i) → (b = false ↔ fd ∈ l) →
  ends (if b then close fd else mret tt) s' (λ _ s'', ∃ t', with_fds s t' s'' ∧ as_stdio l a fd (q_fds s) t') F.
Proof.
  intros Hw Ht Hb. destruct b; unfold ends; cbn.
  - eexists. split; [by apply with_fds_close|]. intros i. unfold fd_close. destruct (decide (i = fd)) as [->|].
    + rewrite lookup_delete_eq, decide_False; [done|]. intros Hi%Hb. done.
    + by rewrite lookup_delete_ne, Ht.
  - eexists. split; [done|]. intros i. rewrite Ht. destruct (decide (i ∈ l)) as [|Hi]; [done|].
    rewrite decide_False; [done|]. intros ->. by apply Hi, Hb.
Qed.

Lemma pipe_stdio_ends fd s a : q_fds s !! fd = Some a →
  ends (pipe_stdio fd) s (λ _ s', ∃ t', with_fds s t' s' ∧ as_stdio [1; 0] a fd (q_fds s) t') (fails (q_errors s)).
Proof.
  intros Ha. unfold pipe_stdio. eapply dup2_then; [done|done|done|]. intros s1 H1.
  eapply dup2_then with (a := a); [rewrite (with_fds_fds _ _ _ H1); by apply insert_here|done|by eapply with_fds_fails|].
  intros s2 H2. rewrite (with_fds_fds _ _ _ H1) in H2. pose proof (with_fds_trans _ _ _ _ _ H1 H2) as H.
  eapply close_unless; [exact H|by do 2 apply insert_stdio|].
  rewrite !elem_of_cons, elem_of_nil. unfold STDIN_FILENO, STDOUT_FILENO. lia.
Qed.

Lemma slave_stdio_ends fd s a : q_fds s !! fd = Some a →
  ends (slave_stdio fd) s (λ _ s', ∃ t', with_fds s t' s' ∧ as_stdio [2; 1; 0] a fd (q_fds s) t') (fails (q_errors s)).
Proof.
  intros Ha. unfold slave_stdio. eapply dup2_then; [done|done|done|]. intros s1 H1.
  eapply dup2_then with (a := a); [rewrite (with_fds_fds _ _ _ H1); by apply insert_here|done|by eapply with_fds_fails|].
  intros s2 H2. rewrite (with_fds_fds _ _ _ H1) in H2. pose proof (with_fds_trans _ _ _ _ _ H1 H2) as H.
  eapply dup2_then with (a := a); [rewrite (with_fds_fds _ _ _ H); by do 2 apply insert_here|done|by eapply with_fds_fails|].
  intros s3 H3. rewrite (with_fds_fds _ _ _ H) in H3. pose proof (with_fds_trans _ _ _ _ _ H H3) as H'.
  eapply close_unless; [exact H'|by do 3 apply insert_stdio|].
  rewrite !elem_of_cons, elem_of_nil. unfold STDIN_FILENO, STDOUT_FILENO, STDERR_FILENO. lia.
Qed.

Lemma do_driver_ends dfork s :
  ends (do_driver dfork) s (λ r s', r = bool_decide (dfork = 0) ∧ ∃ t', with_fds s t' s' ∧
    ∀ i, t' !! i = if decide (i ∈ [1; 0]) then Some (if decide (dfork = 0) then Pipe0 else Pipe1) else q_fds s !! i)
    (fails (q_errors s) ∨ dfork < 0).
Proof.
  unfold do_driver, fd_pipe. apply ends_pty_bind, ends_pty_bind, ends_pty_syscall.
  2:{ intros l e Hf _. unfold ends; cbn. by left. }
  intros l Hl. cbn [negb].
  pose proof (lowest_free (q_fds s)) as Hf0. pose proof (lowest_free (<[lowest (q_fds s) := Pipe0]> (q_fds s))) as Hf1.
  set (fd0 := lowest (q_fds s)) in *. set (fd1 := lowest (<[fd0 := Pipe0]> (q_fds s))) in *.
  assert (fd0 ≠ fd1) as Hne by (intros Eq; rewrite <- Eq, lookup_insert_eq in Hf1; done).
  rewrite lookup_insert_ne in Hf1 by done.
  set (t := <[fd1 := Pipe1]> (<[fd0 := Pipe0]> (q_fds s))).
  assert (with_fds s t (with_errors l (q_errno s) (s <| q_fds := t |>))) as Hw by (by exists l, (q_errno s)).
  set (s1 := with_errors l (q_errno s) (s <| q_fds := t |>)) in *.
  assert (∀ A (k : option (Z * Z) → prog ptyproc A) Q F, ends (k (Some (fd0, fd1))) s1 Q F →
    ends (fd0 ← new_fd Pipe0; fd1 ← new_fd Pipe1; mret (Some (fd0, fd1))) (with_errors l (q_errno s) s)
      (λ a s', ends (k a) s' Q F) F) as Hpipe.
  { intros A k Q F H. unfold ends, s1, with_errors, new_fd, fd_open, mbind, prog_bind, get, modify, update in *. destruct s; exact H. }
  apply (Hpipe _ (λ p, match p with None => _ | Some (a, b) => _ end)). clear Hpipe.
  apply ends_pty_bind, ends_check; [|intros; right; lia]. intros Hd.
  assert (∀ fd other a, t !! fd = Some a → other ≠ fd → (fd = fd0 ∧ other = fd1 ∨ fd = fd1 ∧ other = fd0) →
    ∀ (k : prog ptyproc bool) Q (F : Prop), (fails (q_errors s) → F) →
      (∀ s' t', with_fds s t' s' → (∀ i, t' !! i = if decide (i ∈ [1; 0]) then Some a else q_fds s !! i) → ends k s' Q F) →
      ends (close other ;; pipe_stdio fd ;; k) s1 Q F) as Hside.
  { intros fd other a Hfd Hno Hor k Q F HF HQ. apply ends_pty_bind. unfold ends at 1; cbn. apply ends_pty_bind.
    pose proof (with_fds_close s t s1 other Hw) as Hw1. set (s2 := s1 <| q_fds ::= fd_close other |>) in *.
    eapply ends_pty_mono; [apply (pipe_stdio_ends fd s2 a)| |intros H; apply HF; exact (with_fds_fails _ _ _ Hw1 H)].
    - rewrite (with_fds_fds _ _ _ Hw1). unfold fd_close. by rewrite lookup_delete_ne.
    - intros [] s' (t' & Hw' & Ht'). apply (HQ s' t'); [by eapply with_fds_trans|]. intros i. rewrite Ht'.
      destruct (decide (i ∈ [1; 0])); [done|]. rewrite (with_fds_fds _ _ _ Hw1). unfold fd_close, t.
      destruct (decide (i = fd)) as [->|]; [by destruct Hor as [[-> ->]|[-> ->]]|].
      destruct (decide (i = other)) as [->|]; [rewrite lookup_delete_eq; by destruct Hor as [[-> ->]|[-> ->]]|].
      rewrite lookup_delete_ne by done. by destruct Hor as [[-> ->]|[-> ->]]; rewrite !lookup_insert_ne by done. }
  destruct (Z.eqb_spec dfork 0) as [->|Hdf].
  - eapply Hside; [unfold t; by rewrite lookup_insert_ne, lookup_insert_eq|done|by left|by left|]. intros s' t' Hw' Ht'.
    apply ends_pty_bind, ends_pty_syscall.
    + intros l' Hl'. unfold ends; cbn. split; [done|]. exists t'. split; [|done].
      destruct Hw' as (l1 & e1 & -> & H1). exists l', e1. split; [by destruct s|]. intros H'. apply H1, Hl', H'.
    + intros l' e Hf _. unfold ends; cbn. left. by eapply with_fds_fails.
  - eapply Hside; [unfold t; by rewrite lookup_insert_eq|done|by right|by left|]. intros s' t' Hw' Ht'.
    unfold ends; cbn. rewrite bool_decide_eq_false_2 by done. split; [done|]. exists t'. split; [done|].
    rewrite decide_False by done. done.
Qed.

Section pty.
Context (pts : bytes) (files : bytes → option nat) (accept : termios → termios → termios).
Context (Hpts : no_nul pts) (Hlen : (length pts < 20)%nat).

Lemma pts_name : copy_name 20 pts = pts.
Proof. unfold copy_name. rewrite cstr_id by done. apply take_ge. simpl. lia. Qed.

Lemma ptym_open_ends s : ends (ptym_open pts PTS_NAMESZ) s (λ r s',
  (r = (lowest (q_fds s), pts) ∧ with_fds s (<[lowest (q_fds s) := Master]> (q_fds s)) s') ∨
  (r.1 = -1 ∧ fails (take 4 (q_errors s)))) False.
Proof.
  destruct s as [t l en ld tt1 tio ws nm fdm]. pose proof (lowest_nonneg t) as Hl0.
  unfold ends, ptym_open, posix_openpt, new_fd, fd_open, syscall, ptym_errout, close, mbind, prog_bind, get, gets, modify, update, PTS_NAMESZ.
  rewrite pts_name. cbn.
  assert ((lowest t <? 0) = false) as Hl by lia.
  assert (∀ l', (fails l' → fails l) → with_fds (Ptyproc t l en ld tt1 tio ws nm fdm)
    (<[lowest t := Master]> t) (Ptyproc (<[lowest t := Master]> t) l' en ld tt1 tio ws nm fdm)) as Hok by (intros l' Hl'; by exists l', en).
  assert (∀ e l', fails l' → fails (e :: l')) as Hcons by (intros; by right).
  destruct l as [|y1 l]; cbn; [rewrite Hl; cbn; left; split; [done|by apply Hok]|].
  destruct (Z.eqb_spec y1 0); cbn; [rewrite Hl; cbn|right; split; [done|by left]].
  destruct l as [|y2 l]; cbn; [left; split; [done|by apply Hok; auto]|].
  destruct (Z.eqb_spec y2 0); cbn; [|right; split; [done|by right; left]].
  destruct l as [|y3 l]; cbn; [left; split; [done|by apply Hok; auto]|].
  destruct (Z.eqb_spec y3 0); cbn; [|right; split; [done|by right; right; left]].
  destruct l as [|y4 l]; cbn; [left; split; [done|by apply Hok; auto]|].
  destruct (Z.eqb_spec y4 0); cbn; [|right; split; [done|by right; right; right; left]].
  left; split; [done|]. apply Hok. auto.
Qed.

(** What the routines preserve besides the descriptors. *)
Lemma with_fds_rest s t s' : with_fds s t s' → q_leader s' = q_leader s ∧ q_tty s' = q_tty s ∧ q_termios s' = q_termios s ∧
  q_winsize s' = q_winsize s ∧ q_slave_name s' = q_slave_name s ∧ q_fdm s' = q_fdm s.
Proof. intros (l & e & -> & _). by destruct s. Qed.

(** The program's process: the slave is its standard input, output and error and its
    terminal, with the settings asked for; its other descriptors are those of [t]. *)
Definition slave_of (t : fdtab pobj) (tio : termios) (ws : winsize) (name : bytes) (s' : ptyproc) : Prop :=
  (∀ i, q_fds s' !! i = if decide (i ∈ [2; 1; 0]) then Some Slave else t !! i) ∧
  q_leader s' = true ∧ q_tty s' = Some Slave ∧ q_termios s' = tio ∧ q_winsize s' = ws ∧ q_slave_name s' = name.

(** The settings of the slave after a request. *)
Definition asked (old : termios) (t : option termios) : termios := match t with Some t => accept old t | None => old end.

(** A setting that is made when it is given. *)
Lemma optional_setting {X} (o : option X) (set : X → ptyproc → ptyproc) fd msg s : q_fds s !! fd = Some Slave →
  ends (match o with Some x => r ← set_terminal fd (set x); check (negb (r <? 0)) (ErrSys msg) | None => mret tt end) s
    (λ _ s', ∃ l, (fails l → fails (q_errors s)) ∧
      s' = match o with Some x => set x | None => id end (with_errors l (q_errno s) s)) (fails (q_errors s)).
Proof.
  intros Hfd. destruct o as [x|].
  2:{ exists (q_errors s). by destruct s. }
  apply ends_pty_bind. unfold set_terminal. apply ends_pty_bind, ends_pty_syscall; [|done].
  intros l Hl. destruct s. unfold ends, with_errors, update, mbind, prog_bind, get, modify in *; cbn in *.
  rewrite decide_True by done. cbn. by exists l.
Qed.

(** A descriptor table with the master and the slave, as the child has it at slave_stdio. *)
Lemma child_table (t t' : fdtab pobj) fdm : t !! fdm = None →
  as_stdio [2; 1; 0] Slave (lowest (<[fdm := Master]> t))
    (fd_close fdm (<[lowest (<[fdm := Master]> t) := Slave]> (<[fdm := Master]> t))) t' →
  ∀ i, t' !! i = if decide (i ∈ [2; 1; 0]) then Some Slave else t !! i.
Proof.
  intros Hm H i. rewrite H. destruct (decide (i ∈ [2; 1; 0])); [done|].
  pose proof (lowest_free (<[fdm := Master]> t)) as Hf. set (fds := lowest _) in *. unfold fd_close.
  destruct (decide (fds = fdm)) as [->|Hne]; [by rewrite lookup_insert_eq in Hf|]. rewrite lookup_insert_ne in Hf by done.
  destruct (decide (i = fds)) as [->|]; [done|]. destruct (decide (i = fdm)) as [->|]; [by rewrite lookup_delete_eq|].
  by rewrite lookup_delete_ne, !lookup_insert_ne by done.
Qed.

Lemma setsid_open {A} msg1 msg2 (k : Z → prog ptyproc A) s Q F :
  (fails (q_errors s) → F) →
  (∀ l e, (fails l → fails (q_errors s)) → let fds := lowest (q_fds s) in
    ends (k fds) (with_errors l e (s <| q_fds := <[fds := Slave]> (q_fds s) |> <| q_leader := true |> <| q_tty := Some Slave |>)) Q F) →
  ends (r ← setsid; check (negb (r <? 0)) (ErrSys msg1) ;;
        fds ← ptys_open pts files pts; check (negb (fds <? 0)) (ErrSys msg2) ;; k fds) s Q F.
Proof.
  intros HF Hk. apply ends_pty_bind. unfold setsid. apply ends_pty_bind, ends_pty_syscall.
  2:{ intros l e Hf _. unfold ends; cbn. by apply HF. }
  intros l Hl. unfold ends at 1. cbn. apply ends_pty_bind. unfold ends at 1; cbn.
  apply ends_pty_bind. unfold ptys_open, open. apply ends_pty_bind, ends_pty_syscall.
  2:{ intros l' e Hf _. unfold ends; cbn. apply HF, Hl. destruct s; exact Hf. }
  intros l' Hl'. rewrite cstr_id, decide_True by done. cbn [negb].
  assert ((fails l' → fails (q_errors s))) as Hl2 by (intros H'; apply Hl, (Hl' H')).
  specialize (Hk l' (q_errno s) Hl2). pose proof (lowest_nonneg (q_fds s)).
  destruct s as [t l0 en ld tt1 tio0 ws0 nm fd0].
  unfold ends, with_errors, update, mbind, prog_bind, get, modify, new_fd, fd_open in *; cbn in *.
  unfold mbind, prog_bind, get, modify, update in *; cbn in *.
  assert ((lowest t <? 0) = false) as -> by lia. exact Hk.
Qed.

Lemma child_ends s t fdm tio ws : q_fds s = <[fdm := Master]> t → t !! fdm = None →
  ends (pty_child pts files accept fdm pts tio ws) s
    (λ _ s', slave_of t (asked (q_termios s) tio) (default (q_winsize s) ws) (q_slave_name s) s' ∧
             (fails (q_errors s') → fails (q_errors s))) (fails (q_errors s)).
Proof.
  intros Et Hm. unfold pty_child. apply setsid_open; [done|]. intros l e Hl. rewrite Et. cbv zeta.
  pose proof (child_table t) as Hct. pose proof (lowest_free (<[fdm := Master]> t)) as Hfree. set (fds := lowest (<[fdm := Master]> t)) in *.
  assert (fds ≠ fdm) as Hne by (intros Eq; rewrite Eq, lookup_insert_eq in Hfree; done).
  destruct s as [t0 l0 en ld tt1 tio0 ws0 nm fd0]. unfold with_errors, update; cbn in *. subst t0.
  apply ends_pty_bind. unfold ends at 1; cbn. set (t1 := fd_close fdm _).
  assert (t1 !! fds = Some Slave) as Hs1 by (unfold t1, fd_close; by rewrite lookup_delete_ne, lookup_insert_eq by done).
  assert (∀ l e tio1 ws1, (fails l → fails l0) →
    ends (slave_stdio fds) (Ptyproc t1 l e true (Some Slave) tio1 ws1 nm fd0)
      (λ _ s', slave_of t tio1 ws1 nm s' ∧ (fails (q_errors s') → fails l0)) (fails l0)) as Hlast.
  { intros l1 e1 tio1 ws1 Hl1. eapply ends_pty_mono; [exact (slave_stdio_ends fds (Ptyproc t1 l1 e1 true (Some Slave) tio1 ws1 nm fd0) Slave Hs1)| |exact Hl1].
    intros _ s' (t' & Hw & Ht'). split; [|intros H; apply Hl1; exact (with_fds_fails _ _ _ Hw H)].
    destruct (with_fds_rest _ _ _ Hw) as (H1 & H2 & H3 & H4 & H5 & _). rewrite <- (with_fds_fds _ _ _ Hw) in Ht'.
    split_and!; try done. intros i. by apply (Hct (q_fds s') fdm). }
  clearbody t1. unfold tcsetattr, set_winsize. apply ends_pty_bind. eapply ends_pty_mono; [by apply optional_setting| |exact Hl].
  intros _ s1 (l1 & Hl1 & ->). cbn in Hl1. apply ends_pty_bind.
  eapply ends_pty_mono; [apply optional_setting; by destruct tio| |intros H; apply Hl, Hl1; by destruct tio].
  intros _ s2 (l2 & Hl2 & ->). destruct tio as [tio|], ws as [ws|]; apply Hlast; auto.
Qed.

Lemma pty_fork_opens fork tio ws s :
  (∃ s', pty_fork pts files accept fork (Some 20%nat) tio ws s = Undef s' ∧ fails (take 4 (q_errors s))) ∨
  (∃ s1, with_fds s (<[lowest (q_fds s) := Master]> (q_fds s)) s1 ∧
    pty_fork pts files accept fork (Some 20%nat) tio ws s =
      (if fork <? 0 then mret (-1)
       else if fork =? 0 then pty_child pts files accept (lowest (q_fds s)) pts tio ws ;; mret 0
       else modify (λ s', s' <| q_fdm := lowest (q_fds s) |>) ;; mret fork) (s1 <| q_slave_name := pts |>)).
Proof.
  pose proof (ptym_open_ends s) as H. unfold ends in H. pose proof (lowest_nonneg (q_fds s)) as Hl.
  unfold pty_fork. destruct (ptym_open pts PTS_NAMESZ s) as [[fd nm] s1|[]| |] eqn:E; try done.
  erewrite bind_done by exact E. destruct H as [[[= -> ->] H]|[Hfd H]].
  - right. exists s1. split; [done|]. assert ((lowest (q_fds s) <? 0) = false) as -> by lia. rewrite pts_name. done.
  - left. simpl in Hfd. subst fd. cbn. by eexists.
Qed.

Lemma set_noecho_ends s : q_fds s !! STDIN_FILENO = Some Slave →
  ends (set_noecho accept STDIN_FILENO) s (λ _ s', ∃ l e, (fails l → fails (q_errors s)) ∧
    s' = with_errors l e (s <| q_termios := accept (q_termios s) (noecho_of (q_termios s)) |>)) (fails (q_errors s)).
Proof.
  intros Hfd. unfold set_noecho. apply ends_pty_bind, ends_pty_syscall.
  2:{ intros l e Hf _. unfold ends; cbn. done. }
  intros l Hl. apply ends_pty_bind. unfold ends at 1; cbn [get]. apply ends_pty_bind, ends_check.
  2:{ intros H. apply andb_false_iff in H as [H|H]; [done|]. apply bool_decide_eq_false in H. by destruct s. }
  intros _. unfold tcsetattr. set (old := q_termios (with_errors l (q_errno s) s)).
  eapply ends_pty_mono; [apply (optional_setting (Some (noecho_of old)) (λ t s', s' <| q_termios ::= λ o, accept o t |>));
    by destruct s| |intros H; apply Hl; by destruct s].
  intros _ s' (l' & Hl' & ->). exists l', (q_errno s). destruct s. split; [intros H; apply Hl, Hl', H|done].
Qed.

(** What becomes of the processes of pty_main: the program's, pty's own and the driver's. *)
Definition settled (s : ptyproc) (fork dfork : Z) (interactive : option (termios * winsize)) (noecho driver started : bool) (s' : ptyproc) : Prop :=
  let tio := asked (q_termios s) (fst <$> interactive) in
  let fdm := lowest (q_fds s) in
  if decide (fork = 0) then
    started = true ∧
    slave_of (q_fds s) (if noecho then accept tio (noecho_of tio) else tio) (default (q_winsize s) (snd <$> interactive)) pts s'
  else
    started = driver && bool_decide (dfork = 0) ∧ q_slave_name s' = pts ∧ q_fdm s' = fdm ∧
    ∀ i, q_fds s' !! i =
      if decide (driver = true ∧ i ∈ [1; 0]) then Some (if decide (dfork = 0) then Pipe0 else Pipe1)
      else if decide (i = fdm) then Some Master else q_fds s !! i.
End pty.

(** C16: pty_fork and do_driver as pty/main.c uses them, with 0, 1 and 2 in use at the start
    and a slave whose name fits its array, whatever system calls fail.  The program starts
    with the slave as standard input, output and error, as the leader of a session whose
    terminal is the slave, with the settings of the user's terminal (without echo when that
    was asked for), and otherwise with pty's descriptors: neither the master nor a second
    descriptor of the slave.  pty itself has the master and, with a driver, its end of the
    pipe as standard input and output; the driver has the other end.  A system call that
    fails ends the process in err_sys, with one exception: when the pseudo terminal cannot
    be opened, the message prints a variable that has not been set. *)
Theorem pty_processes pts files accept s fork dfork interactive noecho driver
    (Hpts : no_nul pts) (Hlen : (length pts < 20)%nat) (Hstd : ∀ i, 0 <= i < 3 → is_Some (q_fds s !! i)) :
  match pty_main pts files accept fork dfork interactive noecho driver s with
  | Done started s' => settled pts accept s fork dfork interactive noecho driver started s'
  | Fatal (ErrSys _) _ => Exists (λ e, e ≠ 0) (q_errors s) ∨ fork < 0 ∨ dfork < 0
  | Undef _ => Exists (λ e, e ≠ 0) (take 4 (q_errors s))
  | _ => False
  end.
Proof.
  set (F := Exists _ (q_errors s) ∨ fork < 0 ∨ dfork < 0).
  unfold pty_main. destruct (pty_fork_opens pts files accept Hpts Hlen fork (fst <$> interactive) (snd <$> interactive) s)
    as [(s' & E & Hf)|(s1 & Hw & E)]; [by rewrite (bind_eq _ (λ _, Undef s') _ s s' E)|].
  assert (3 <= lowest (q_fds s)) as Hl3.
  { pose proof (lowest_free (q_fds s)). pose proof (lowest_nonneg (q_fds s)).
    destruct (decide (lowest (q_fds s) < 3)); [|lia]. destruct (Hstd (lowest (q_fds s))) as [x Hx]; [lia|]. congruence. }
  rewrite (bind_eq _ _ _ _ _ E). clear E.
  enough (ends ((if fork <? 0 then mret (-1)
       else if fork =? 0 then pty_child pts files accept (lowest (q_fds s)) pts (fst <$> interactive) (snd <$> interactive) ;; mret 0
       else modify (λ s', s' <| q_fdm := lowest (q_fds s) |>) ;; mret fork) ≫= (λ pid : Z,
    check (negb (pid <? 0)) (ErrSys "fork error") ;;
    if pid =? 0 then
      (if noecho then set_noecho accept STDIN_FILENO else mret tt) ;;
      ok ← syscall;
      check ok (ErrSys "can't execute: %s") ;;
      mret true
    else if driver then do_driver dfork else mret false)) (s1 <| q_slave_name := pts |>)
    (settled pts accept s fork dfork interactive noecho driver) F) as H.
  { match type of H with ends ?m ?x _ _ => unfold ends in H; destruct (m x) as [|[]| |]; done end. }
  set (s2 := s1 <| q_slave_name := pts |>). assert (q_slave_name s2 = pts) as Hnm by by destruct s1.
  assert (∀ t, with_fds s t s1 → with_fds (s <| q_slave_name := pts |>) t s2) as Hw2.
  { intros t (l & e & -> & H). exists l, e. by destruct s. }
  apply Hw2 in Hw. clearbody s2. clear Hw2 s1.
  assert (fails (q_errors s2) → F) as HF by (intros H; left; apply (with_fds_fails _ _ _ Hw) in H; by destruct s).
  destruct (with_fds_rest _ _ _ Hw) as (_ & _ & Htio & Hws & _). pose proof (with_fds_fds _ _ _ Hw) as Hfds.
  destruct (Z.ltb_spec fork 0) as [Hn|Hn].
  { unfold ends; cbn. by right; left. }
  apply ends_pty_bind. destruct (Z.eqb_spec fork 0) as [->|Hne].
  - apply ends_pty_bind. eapply ends_pty_mono; [apply child_ends; [done|done|exact Hfds|apply lowest_free]| |exact HF].
    intros _ s3 [Hsl Hf3]. unfold ends at 1; cbn. apply ends_pty_bind. unfold ends at 1; cbn. apply ends_pty_bind.
    assert (∀ s4, slave_of (q_fds s) (if noecho then accept (asked accept (q_termios s) (fst <$> interactive)) (noecho_of (asked accept (q_termios s) (fst <$> interactive))) else asked accept (q_termios s) (fst <$> interactive)) (default (q_winsize s) (snd <$> interactive)) pts s4 → (fails (q_errors s4) → F) →
      ends (ok ← syscall; check ok (ErrSys "can't execute: %s") ;; mret true) s4
        (settled pts accept s 0 dfork interactive noecho driver) F) as Hexec.
    { intros s4 H4 Hf4. apply ends_pty_bind, ends_pty_syscall.
      - intros l Hl. unfold ends; cbn. unfold settled. destruct (decide (0 = 0)) as [_|]; [|done]. split; [done|]. destruct s4; exact H4.
      - intros l e Hf _. unfold ends; cbn. exact (Hf4 Hf). }
    rewrite Htio, Hws, Hnm in Hsl. change (q_termios (s <| q_slave_name := pts |>)) with (q_termios s) in Hsl.
    change (q_winsize (s <| q_slave_name := pts |>)) with (q_winsize s) in Hsl.
    pose proof Hsl as (H1 & H2 & H3 & H4 & H5 & H6). destruct noecho.
    + eapply ends_pty_mono; [apply set_noecho_ends; by rewrite H1| |auto].
      intros _ s4 (l & e & Hl & ->). apply Hexec; [|by destruct s3; auto]. rewrite <- H4. by destruct s3.
    + unfold ends at 1; cbn. apply Hexec; auto.
  - apply ends_pty_bind. unfold ends at 1; cbn. unfold ends at 1; cbn.
    apply ends_pty_bind, ends_check; [intros _|intros; right; left; lia]. rewrite (proj2 (Z.eqb_neq fork 0)) by done.
    set (s3 := s2 <| q_fdm := lowest (q_fds s) |>).
    assert (q_fds s3 = <[lowest (q_fds s) := Master]> (q_fds s) ∧ q_slave_name s3 = pts ∧ q_fdm s3 = lowest (q_fds s) ∧
      q_errors s3 = q_errors s2) as (H1 & H2 & H3 & H4) by (by destruct s2). clearbody s3.
    destruct driver.
    + eapply ends_pty_mono; [apply do_driver_ends| |intros [H|H]; [apply HF; by rewrite <- H4|by right; right]].
      intros r s' (-> & t' & Hw' & Ht'). destruct (with_fds_rest _ _ _ Hw') as (_ & _ & _ & _ & Hn' & Hf').
      unfold settled. rewrite decide_False by done. rewrite Hn', Hf', (with_fds_fds _ _ _ Hw'). split_and!; try done.
      intros i. rewrite Ht', H1. destruct (decide (i ∈ [1; 0])) as [Hi|Hi].
      * by rewrite (decide_True (P := _ ∧ _)) by (by split).
      * rewrite (decide_False (P := _ ∧ _)) by tauto. destruct (decide (i = lowest (q_fds s))) as [->|];
          [by rewrite lookup_insert_eq|by rewrite lookup_insert_ne].
    + unfold ends; cbn. unfold settled. rewrite decide_False by done. split_and!; try done.
      intros i. rewrite H1, (decide_False (P := _ ∧ _)) by (by intros [? _]). destruct (decide (i = lowest (q_fds s))) as [->|];
          [by rewrite lookup_insert_eq|by rewrite lookup_insert_ne].
Qed.

Definition ex_pts : bytes := str "/dev/pts/4".
Definition ex_termios : termios := Termios 0 5 0 59 ∅.
Definition ex_pty (errors : list Z) : ptyproc :=
  Ptyproc (<[0 := Other 0]> (<[1 := Other 1]> {[2 := Other 2]})) errors 0 false (Some (Other 0)) ex_termios (Winsize 24 80) [] 0.

Lemma pty_processes_witness :
  (∃ s', pty_main ex_pts (λ _, None) (λ _ t, t) 0 9 None true true (ex_pty []) = Done true s' ∧
    q_fds s' !! 1 = Some Slave ∧ q_tty s' = Some Slave ∧ q_fds s' !! 3 = None) ∧
  (∃ s', pty_main ex_pts (λ _, None) (λ _ t, t) 8 9 None true true (ex_pty []) = Done false s' ∧
    q_fds s' !! 1 = Some Pipe1 ∧ q_fds s' !! 2 = Some (Other 2)).
Proof.
  assert (∀ i, 0 <= i < 3 → is_Some (q_fds (ex_pty []) !! i)) as Hstd.
  { intros i Hi. assert (i = 0 ∨ i = 1 ∨ i = 2) as [->|[-> | ->]] by lia; by eexists. }
  assert (no_nul ex_pts) as Hpts by by apply (bool_decide_unpack _); vm_compute.
  split.
  - pose proof (pty_processes ex_pts (λ _, None) (λ _ t, t) (ex_pty []) 0 9 None true true Hpts ltac:(simpl; lia) Hstd) as H.
    destruct (pty_main _ _ _ _ _ _ _ _ _) as [r s'|[]| |] eqn:E; try by vm_compute in E.
    destruct H as (-> & H1 & _ & H2 & _). exists s'. split_and!; [done|by rewrite H1|done|by rewrite H1].
  - pose proof (pty_processes ex_pts (λ _, None) (λ _ t, t) (ex_pty []) 8 9 None true true Hpts ltac:(simpl; lia) Hstd) as H.
    destruct (pty_main _ _ _ _ _ _ _ _ _) as [r s'|[]| |] eqn:E; try by vm_compute in E.
    destruct H as (-> & _ & _ & H1). exists s'. split_and!; [done|by rewrite H1|by rewrite H1].
Defined.

(** ** What goes wrong *)

(** When fork fails pty_fork returns -1 and leaves the master open. *)
Lemma pty_fork_leak : ∃ s', pty_fork ex_pts (λ _, None) (λ _ t, t) (-1) None None None (ex_pty []) = Done (-1) s' ∧
  q_fds s' !! 3 = Some Master ∧ q_fdm s' = 0.
Proof. eexists. split; [vm_compute; reflexivity|done]. Qed.

(** The message for a pseudo terminal that cannot be opened prints pts_name, which has not
    been set. *)
Lemma pty_fork_unset : ∃ s', pty_fork ex_pts (λ _, None) (λ _ t, t) 0 None None None (ex_pty [11]) = Undef s'.
Proof. eexists. vm_compute. reflexivity. Qed.

(** A name of 20 bytes is cut, and the child opens another file or none. *)
Lemma pty_name_cut : ∃ s',
  pty_fork (str "/dev/pts/12345678901") (λ _, None) (λ _ t, t) 0 None None None (ex_pty []) = Fatal (ErrSys "can't open slave pty") s'.
Proof. eexists. vm_compute. reflexivity. Qed.

(** The driver's program is started with the master open, so that the program on the slave
    is not told when pty ends before the driver. *)
Lemma driver_has_master : ∃ s', pty_main ex_pts (λ _, None) (λ _ t, t) 8 0 None false true (ex_pty []) = Done true s' ∧
  q_fds s' !! 3 = Some Master.
Proof. eexists. split; [vm_compute; reflexivity|done]. Qed.
