(* ===== verification/Timeout.v ===== *)
(** * Calling a function at a later time: threadctl/timeout.c, threadctl/detach.c.

    timeout makes a detached thread that sleeps and then calls the function.  The state is
    the clock, the blocks from malloc, the threads, and the calls that have been made; a
    function is a number.  A move is a call of timeout, time that passes, or a step of a
    thread: it begins to sleep some time after it was created. *)
From Stdlib Require Import Ascii ZArith Lia.
From stdpp Require Import base strings gmap option list.
From S2P Require Import Prelude.

(** struct timespec and struct timeval. *)
Record timespec := Timespec { tv_sec : Z; tv_nsec : Z }.
Record timeval := Timeval { tval_sec : Z; tval_usec : Z }.

Definition SECTONSEC : Z := 1000000000.
Definition USECTONSEC : Z := 1000.

(** A time in nanoseconds, and back. *)
Definition nsecs (t : timespec) : Z := tv_sec t * SECTONSEC + tv_nsec t.
Definition timespec_of (n : Z) : timespec := Timespec (n / SECTONSEC) (n mod SECTONSEC).

(** struct to_info; [to_when] is the time that was asked for, which the block does not hold. *)
Record to_info := ToInfo { to_fn : nat; to_arg : Z; to_wait : timespec; to_when : timespec }.

(** What a caller has asked for; a call of the function: when, and by whom: a thread that has
    slept, a thread whose sleep a signal has ended, or timeout itself. *)
Record request := Request { rq_fn : nat; rq_arg : Z; rq_when : timespec }.
Inductive caller := ByThread | ByInterrupted | ByTimeout.
Record call := Call { ca_req : request; ca_time : Z; ca_by : caller }.

(** [w_clock] in nanoseconds; a thread is known by the block it was given, and sleeps until
    a time once it has begun. *)
Record world := World {
  w_clock : Z; w_heap : gmap nat to_info; w_threads : gmap nat (option Z); w_calls : list call; w_requests : list request }.
#[export] Instance world_rebuild : Rebuild world := λ s,
  World (w_clock s) (w_heap s) (w_threads s) (w_calls s) (w_requests s).

(** ** The routines *)

(** clock_gettime by means of gettimeofday, whose result is [tv]. *)
Definition clock_gettime_tv (tv : timeval) : timespec := Timespec (tval_sec tv) (tval_usec tv * USECTONSEC).
Definition clock_gettime : prog world timespec := gets (λ s, timespec_of (w_clock s)).

(** The call of the function. *)
Definition call_fn (by_ : caller) (r : request) : prog world unit :=
  modify (λ s, s <| w_calls ::= λ l, l ++ [Call r (w_clock s) by_] |>).

Definition free (tip : nat) : prog world unit :=
  s ← get; defined (bool_decide (is_Some (w_heap s !! tip))) ;; modify (λ s, s <| w_heap ::= delete tip |>).

(** makethread of detach.c, with the errors of its three calls that can have one. *)
Definition makethread (init detach create : Z) (arg : nat) : prog world Z :=
  if negb (init =? 0) then mret init
  else if negb (detach =? 0) then mret detach
  else if negb (create =? 0) then mret create
  else modify (λ s, s <| w_threads ::= <[arg := None]> |>) ;; mret 0.

(** when > now *)
Definition later (when now : timespec) : bool :=
  (tv_sec now <? tv_sec when) || ((tv_sec when =? tv_sec now) && (tv_nsec now <? tv_nsec when)).

(** to_wait *)
Definition time_to_wait (when now : timespec) : timespec :=
  let sec := tv_sec when - tv_sec now in
  if tv_nsec now <=? tv_nsec when then Timespec sec (tv_nsec when - tv_nsec now)
  else Timespec (sec - 1) (SECTONSEC - tv_nsec now + tv_nsec when).

(** [block]: what malloc returns. *)
Definition timeout (block : option nat) (init detach create : Z) (when : timespec) (func : nat) (arg : Z) : prog world unit :=
  let now_call := call_fn ByTimeout (Request func arg when) in
  now ← clock_gettime;
  if later when now then
    match block with
    | Some tip =>
        modify (λ s, s <| w_heap ::= <[tip := ToInfo func arg (time_to_wait when now) when]> |>) ;;
        err ← makethread init detach create tip;
        if err =? 0 then mret tt else free tip ;; now_call
    | None => now_call
    end
  else now_call.

(** timeout_helper up to the sleep, and from the end of the sleep, whatever clock_nanosleep
    has returned: its result is ignored. *)
Definition helper_sleeps (arg : nat) : prog world unit :=
  s ← get;
  match w_heap s !! arg with
  | None => undefined
  | Some tip => modify (λ s, s <| w_threads ::= <[arg := Some (w_clock s + nsecs (to_wait tip))]> |>)
  end.
Definition helper_wakes (by_ : caller) (arg : nat) : prog world unit :=
  s ← get;
  match w_heap s !! arg with
  | None => undefined
  | Some tip =>
      call_fn by_ (Request (to_fn tip) (to_arg tip) (to_when tip)) ;;
      free arg ;;
      modify (λ s, s <| w_threads ::= delete arg |>)
  end.

(** ** Executions *)

Inductive move :=
  | Ask (block : option nat) (init detach create : Z) (r : request)
  | Tick (n : Z)
  | Sleep (arg : nat)
  | Wake (arg : nat)
  | Interrupt (arg : nat).

(** What can happen: malloc returns a block that is not in use; clock_nanosleep returns when
    the time has come, or at any moment with EINTR. *)
Definition enabled (m : move) (s : world) : Prop :=
  match m with
  | Ask block _ _ _ r => (0 <= tv_nsec (rq_when r) < SECTONSEC) ∧ match block with Some a => w_heap s !! a = None | None => True end
  | Tick n => 0 <= n
  | Sleep arg => w_threads s !! arg = Some None
  | Wake arg => ∃ t, w_threads s !! arg = Some (Some t) ∧ t <= w_clock s
  | Interrupt arg => ∃ t, w_threads s !! arg = Some (Some t)
  end.
Definition perform (m : move) : prog world unit :=
  match m with
  | Ask block init detach create r =>
      modify (λ s, s <| w_requests ::= λ l, l ++ [r] |>) ;;
      timeout block init detach create (rq_when r) (rq_fn r) (rq_arg r)
  | Tick n => modify (λ s, s <| w_clock ::= Z.add n |>)
  | Sleep arg => helper_sleeps arg
  | Wake arg => helper_wakes ByThread arg
  | Interrupt arg => helper_wakes ByInterrupted arg
  end.

(** The states of executions from clock [t]; [o]: how the last move ended. *)
Inductive runs (t : Z) : outcome world unit → Prop :=
  | runs_start : runs t (Done tt (World t ∅ ∅ [] []))
  | runs_move m s : runs t (Done tt s) → enabled m s → runs t (perform m s).

(** * Properties *)

(** ** Times *)

(** A struct timespec that clock_nanosleep takes. *)
Definition valid (t : timespec) : Prop := 0 <= tv_sec t ∧ 0 <= tv_nsec t < SECTONSEC.

Lemma timespec_of_nsecs n : nsecs (timespec_of n) = n.
Proof. unfold nsecs, timespec_of, SECTONSEC; cbn [tv_sec tv_nsec]. pose proof (Z.div_mod n 1000000000). lia. Qed.

Lemma timespec_of_valid n : 0 <= n → valid (timespec_of n).
Proof.
  intros H. unfold valid, timespec_of, SECTONSEC; cbn [tv_sec tv_nsec].
  pose proof (Z.mod_pos_bound n 1000000000). pose proof (Z.div_pos n 1000000000). lia.
Qed.

(** The test of timeout compares the times. *)
Lemma later_spec when now : 0 <= tv_nsec when < SECTONSEC → 0 <= tv_nsec now < SECTONSEC →
  later when now = true ↔ nsecs now < nsecs when.
Proof.
  unfold later, nsecs, SECTONSEC. rewrite orb_true_iff, andb_true_iff, !Z.ltb_lt, Z.eqb_eq. lia.
Qed.

Lemma time_to_wait_spec when now : 0 <= tv_nsec when < SECTONSEC → 0 <= tv_nsec now < SECTONSEC → later when now = true →
  valid (time_to_wait when now) ∧ nsecs (time_to_wait when now) = nsecs when - nsecs now.
Proof.
  intros H1 H2 H%later_spec; [|done..]. unfold time_to_wait, valid, nsecs, SECTONSEC in *.
  destruct (Z.leb_spec (tv_nsec now) (tv_nsec when)); cbn [tv_sec tv_nsec]; lia.
Qed.

(** ** The invariant *)

Definition req_of (tip : to_info) : request := Request (to_fn tip) (to_arg tip) (to_when tip).

(** A block: the time to wait is valid, and whenever the thread begins to sleep it sleeps
    until the time asked for at least. *)
Definition block_ok (clock : Z) (tip : to_info) (th : option Z) : Prop :=
  valid (to_wait tip) ∧ nsecs (to_when tip) <= clock + nsecs (to_wait tip) ∧
  match th with None => True | Some t => nsecs (to_when tip) <= t end.

Record ok (s : world) : Prop := Ok {
  ok_clock : 0 <= w_clock s;
  ok_dom : dom (w_heap s) = dom (w_threads s);
  ok_blocks : ∀ a tip th, w_heap s !! a = Some tip → w_threads s !! a = Some th → block_ok (w_clock s) tip th;
  ok_requests : w_requests s ≡ₚ (req_of <$> (map_to_list (w_heap s)).*2) ++ (ca_req <$> w_calls s);
  ok_calls : ∀ c, c ∈ w_calls s → ca_by c = ByThread → nsecs (rq_when (ca_req c)) <= ca_time c }.

Lemma block_ok_later c c' tip th : c <= c' → block_ok c tip th → block_ok c' tip th.
Proof. intros H (H1 & H2 & H3). split_and!; [done|lia|done]. Qed.

(** A request, and a call of its function at once. *)
Lemma ok_call_now s r : ok (s <| w_requests ::= λ l, l |>) →
  ok (s <| w_requests ::= λ l, l ++ [r] |> <| w_calls ::= λ l, l ++ [Call r (w_clock s) ByTimeout] |>).
Proof.
  destruct s as [c h th ca rq]. intros [H1 H2 H3 H4 H5]. unfold update in *; cbn in *. split; cbn; try done.
  - by rewrite H4, fmap_app, (assoc_L (++)).
  - intros x [Hx|Hx%list_elem_of_singleton]%elem_of_app; [by apply H5|by subst].
Qed.

(** A request, and a thread for it. *)
Lemma ok_thread s r a w : ok s → w_heap s !! a = None → valid w → nsecs (rq_when r) <= w_clock s + nsecs w →
  ok (World (w_clock s) (<[a := ToInfo (rq_fn r) (rq_arg r) w (rq_when r)]> (w_heap s)) (<[a := None]> (w_threads s))
    (w_calls s) (w_requests s ++ [r])).
Proof.
  destruct s as [c h th ca rq]. intros [H1 H2 H3 H4 H5] Ha Hw Hr. cbn in *. split; cbn; try done.
  - by rewrite !dom_insert_L, H2.
  - intros a' tip t. destruct (decide (a' = a)) as [->|Hne].
    + rewrite !lookup_insert_eq. intros [= <-] [= <-]. by split_and!.
    + rewrite !lookup_insert_ne by done. apply H3.
  - rewrite map_to_list_insert by done. rewrite H4. cbn. destruct r as [f x w']. unfold req_of at 2; cbn.
    rewrite Permutation_app_comm. done.
Qed.

Lemma ok_ask s block init detach create r : ok s → enabled (Ask block init detach create r) s →
  ∃ s', perform (Ask block init detach create r) s = Done tt s' ∧ ok s' ∧ w_clock s' = w_clock s ∧
    (block ≠ None → init = 0 → detach = 0 → create = 0 → w_clock s < nsecs (rq_when r) → w_calls s' = w_calls s).
Proof.
  intros Hok [Hn Hb]. pose proof (timespec_of_valid (w_clock s) (ok_clock s Hok)) as [_ Hnow].
  pose proof (timespec_of_nsecs (w_clock s)) as Hns. cbn [perform].
  destruct s as [c h th ca rq]; cbn in Hb, Hns, Hnow. destruct r as [f x when]; cbn in Hn.
  assert (ok (World c h th (ca ++ [Call (Request f x when) c ByTimeout]) (rq ++ [Request f x when]))) as Hdirect.
  { by apply (ok_call_now (World c h th ca rq)). }
  rewrite bind_modify. unfold timeout, clock_gettime, update; cbn -[later time_to_wait]. rewrite bind_gets. cbn -[later time_to_wait].
  destruct (later when (timespec_of c)) eqn:El.
  2:{ eexists. split; [reflexivity|]. split_and!; [done|done|]. intros _ _ _ _ Hlt. exfalso.
      change (c < nsecs when) in Hlt. rewrite <- Hns in Hlt. apply later_spec in Hlt; [congruence|done|done]. }
  destruct block as [a|]; [|eexists; split; [reflexivity|]; by split_and!].
  pose proof (time_to_wait_spec when (timespec_of c) Hn Hnow El) as [Hv Hw]. rewrite Hns in Hw.
  rewrite bind_modify. unfold makethread, update; cbn -[time_to_wait].
  assert (∀ err, err ≠ 0 → ∃ s', (if err =? 0 then mret tt else free a ;; call_fn ByTimeout (Request f x when))
    (World c (<[a := ToInfo f x (time_to_wait when (timespec_of c)) when]> h) th ca (rq ++ [Request f x when])) = Done tt s' ∧
    ok s' ∧ w_clock s' = c ∧ w_calls s' = ca ++ [Call (Request f x when) c ByTimeout]) as Hfree.
  { intros err Herr. rewrite (proj2 (Z.eqb_neq err 0)) by done. unfold free, call_fn, defined, mbind, prog_bind, get, modify, update; cbn -[time_to_wait].
    rewrite lookup_insert_eq. cbn -[time_to_wait]. rewrite delete_insert_id by done. eexists. by split_and!. }
  destruct (Z.eqb_spec init 0) as [->|Hi]; cbn [negb].
  2:{ rewrite bind_ret. destruct (Hfree init Hi) as (s' & -> & H1 & H2 & _). exists s'. by split_and!. }
  destruct (Z.eqb_spec detach 0) as [->|Hd]; cbn [negb].
  2:{ rewrite bind_ret. destruct (Hfree detach Hd) as (s' & -> & H1 & H2 & _). exists s'. by split_and!. }
  destruct (Z.eqb_spec create 0) as [->|Hc]; cbn [negb].
  2:{ rewrite bind_ret. destruct (Hfree create Hc) as (s' & -> & H1 & H2 & _). exists s'. by split_and!. }
  rewrite bind_assoc, bind_modify, bind_ret. eexists. split; [reflexivity|]. split_and!; [|done|done].
  apply (ok_thread (World c h th ca rq) (Request f x when)); [done|done|done|]. cbn [w_clock rq_when]. lia.
Qed.

Lemma ok_sleep s a : ok s → enabled (Sleep a) s → ∃ s', perform (Sleep a) s = Done tt s' ∧ ok s' ∧ w_clock s' = w_clock s.
Proof.
  destruct s as [c h th ca rq]. intros [H1 H2 H3 H4 H5] He. cbn in *. unfold helper_sleeps.
  assert (a ∈ dom h) as [tip Htip]%elem_of_dom by (rewrite H2; by apply elem_of_dom).
  erewrite bind_done by reflexivity. cbn. rewrite Htip. eexists. split; [reflexivity|]. split; [|done].
  split; cbn; try done.
  - rewrite dom_insert_L, H2. assert (a ∈ dom th) by by apply elem_of_dom. set_solver.
  - intros a' tip' t Ht. destruct (decide (a' = a)) as [->|Hne].
    + rewrite lookup_insert_eq. intros [= <-]. assert (tip' = tip) as -> by congruence.
      destruct (H3 a tip None Htip He) as (Hv & Hw & _). by split_and!.
    + rewrite lookup_insert_ne by done. by apply H3.
Qed.

Lemma ok_wakes s a t by_ : ok s → w_threads s !! a = Some (Some t) → (by_ = ByThread → t <= w_clock s) →
  ∃ s', helper_wakes by_ a s = Done tt s' ∧ ok s' ∧ w_clock s' = w_clock s.
Proof.
  destruct s as [c h th ca rq]. intros [H1 H2 H3 H4 H5] Ht Hc. cbn in *. unfold helper_wakes.
  assert (a ∈ dom h) as [tip Htip]%elem_of_dom by (rewrite H2; by apply elem_of_dom).
  destruct (H3 a tip _ Htip Ht) as (_ & _ & Hw).
  erewrite bind_done by reflexivity. cbn. rewrite Htip.
  unfold call_fn, free, defined, mbind, prog_bind, get, modify, update; cbn. rewrite Htip. cbn.
  eexists. split; [reflexivity|]. split; [|done]. split; cbn; try done.
  - by rewrite !dom_delete_L, H2.
  - intros a' tip' th' (_ & Hh)%lookup_delete_Some (_ & Hth)%lookup_delete_Some. by apply (H3 a').
  - rewrite H4, <- (map_to_list_delete h a tip Htip). rewrite fmap_app. cbn.
    change (Request (to_fn tip) (to_arg tip) (to_when tip)) with (req_of tip).
    rewrite Permutation_middle. apply Permutation_app; [done|]. apply Permutation_cons_append.
  - intros x [Hx|Hx%list_elem_of_singleton]%elem_of_app; [by apply H5|subst; cbn]. intros Hby. specialize (Hc Hby). lia.
Qed.

Lemma ok_tick s n : ok s → 0 <= n → ok (s <| w_clock ::= Z.add n |>).
Proof.
  destruct s as [c h th ca rq]. intros [H1 H2 H3 H4 H5]. unfold update; cbn in *. split; cbn; try done; [lia|].
  intros a tip t Hh Hth. eapply block_ok_later; [|by apply (H3 a)]. lia.
Qed.

Lemma runs_ok t o : 0 <= t → runs t o → ∃ s, o = Done tt s ∧ ok s.
Proof.
  intros Ht. induction 1 as [|m s _ (s0 & [= <-] & Hok) He].
  - eexists. split; [done|]. split; cbn; try done; try set_solver.
  - destruct m as [b i d c r|n|a|a|a].
    + destruct (ok_ask s b i d c r Hok He) as (s' & E & H & _). by exists s'.
    + eexists. split; [done|]. by apply ok_tick.
    + destruct (ok_sleep s a Hok He) as (s' & E & H & _). by exists s'.
    + destruct He as (u & Hu & Hc). destruct (ok_wakes s a u ByThread Hok Hu) as (s' & E & H & _); [done|]. by exists s'.
    + destruct He as (u & Hu). destruct (ok_wakes s a u ByInterrupted Hok Hu) as (s' & E & H & _); [done|]. by exists s'.
Qed.

(** C35: timeout of threadctl/timeout.c.  Whatever times are asked for, in whatever order the
    threads run, and whether malloc or makethread fail: no move is undefined; every block
    that is in use belongs to one thread and has a time to wait that is a valid struct
    timespec; every request has either been answered by one call of its function with its
    argument or has one thread waiting for it; a thread whose sleep no signal has ended
    never calls before the time asked for (an interrupted one calls at once); and timeout itself calls the function at once only for a time that is not in the
    future or when there is no block or no thread. *)
Theorem timeout_valid t o (Ht : 0 <= t) (Hruns : runs t o) : ∃ s, o = Done tt s ∧
  dom (w_heap s) = dom (w_threads s) ∧
  (∀ a tip, w_heap s !! a = Some tip → 0 <= tv_sec (to_wait tip) ∧ 0 <= tv_nsec (to_wait tip) < SECTONSEC) ∧
  w_requests s ≡ₚ ((λ tip, Request (to_fn tip) (to_arg tip) (to_when tip)) <$> (map_to_list (w_heap s)).*2) ++ (ca_req <$> w_calls s) ∧
  (∀ c, c ∈ w_calls s → ca_by c = ByThread → nsecs (rq_when (ca_req c)) <= ca_time c) ∧
  (∀ a r, w_heap s !! a = None → 0 <= tv_nsec (rq_when r) < SECTONSEC → w_clock s < nsecs (rq_when r) →
    ∃ s', timeout (Some a) 0 0 0 (rq_when r) (rq_fn r) (rq_arg r) s = Done tt s' ∧ w_calls s' = w_calls s).
Proof.
  destruct (runs_ok t o Ht Hruns) as (s & -> & Hok). pose proof Hok as [H1 H2 H3 H4 H5]. exists s.
  split_and!; try done.
  - intros a tip Ha. assert (a ∈ dom (w_threads s)) as [th Hth]%elem_of_dom by (rewrite <- H2; apply elem_of_dom; by eexists).
    by destruct (H3 a tip th Ha Hth) as (Hv & _).
  - intros a r Ha Hn Hr. pose proof (timespec_of_valid (w_clock s) H1) as [_ Hnow].
    rewrite <- (timespec_of_nsecs (w_clock s)) in Hr. apply (later_spec _ _ Hn Hnow) in Hr.
    unfold timeout, clock_gettime. rewrite bind_gets, Hr. eexists. split; [reflexivity|]. by destruct s.
Qed.

Definition ex_request : request := Request 3 5 (Timespec 1 200000000).

Lemma runs_step t m s s' : runs t (Done tt s) → enabled m s → perform m s = Done tt s' → runs t (Done tt s').
Proof. intros Hr He <-. by apply runs_move. Qed.

Lemma timeout_valid_witness :
  (∃ s, timeout (Some 1%nat) 0 0 0 (Timespec 1 200000000) 3 5 (World 700000000 ∅ ∅ [] []) = Done tt s ∧
    (to_wait <$> w_heap s !! 1%nat) = Some (Timespec 0 500000000)) ∧
  ∃ s, runs 700000000 (Done tt s) ∧ w_calls s = [Call ex_request 1200000609 ByThread] ∧
    nsecs (rq_when ex_request) <= 1200000609 ∧ w_heap s = ∅.
Proof.
  split; [eexists; by split|].
  pose proof (runs_start 700000000) as H0.
  pose proof (runs_step _ (Ask (Some 1%nat) 0 0 0 ex_request) _ _ H0 ltac:(by split) eq_refl) as H1.
  pose proof (runs_step _ (Tick 609) _ _ H1 ltac:(done) eq_refl) as H2.
  pose proof (runs_step _ (Sleep 1) _ _ H2 ltac:(done) eq_refl) as H3.
  pose proof (runs_step _ (Tick 500000000) _ _ H3 ltac:(done) eq_refl) as H4.
  pose proof (runs_step _ (Wake 1) _ _ H4 ltac:(by eexists; split) eq_refl) as Hr.
  match type of Hr with runs _ (Done _ ?s) => remember s as s5 eqn:E end.
  assert (w_calls s5 = [Call ex_request 1200000609 ByThread] ∧ w_heap s5 = ∅) as [Hc Hh] by by subst s5.
  exists s5. split; [done|split; [done|split; [|done]]]. destruct (timeout_valid 700000000 (Done tt s5)) as (s' & [= <-] & _ & _ & _ & H & _); [done|done|].
  apply (H (Call ex_request 1200000609 ByThread)); [rewrite Hc; left|done].
Defined.

(** clock_nanosleep that is ended by a signal returns early, and the thread does not look at
    its result: the function is called before its time. *)
Lemma timeout_interrupted : ∃ s, runs 0 (Done tt s) ∧ w_calls s = [Call (Request 3 5 (Timespec 5 0)) 0 ByInterrupted].
Proof.
  pose proof (runs_start 0) as H0.
  pose proof (runs_step _ (Ask (Some 1%nat) 0 0 0 (Request 3 5 (Timespec 5 0))) _ _ H0 ltac:(by split) eq_refl) as H1.
  pose proof (runs_step _ (Sleep 1) _ _ H1 ltac:(done) eq_refl) as H2.
  pose proof (runs_step _ (Interrupt 1) _ _ H2 ltac:(by eexists) eq_refl) as Hr.
  eexists. split; [exact Hr|]. reflexivity.
Qed.
