(* ===== verification/Ttyname.v ===== *)
(** * The name of a terminal: termios/ttyname.c.

    ttyname looks for the file of a terminal in /dev and then in the directories below it,
    which it collects in a list while it goes along the list.  The file system is given by
    what stat and readdir return for a path. *)
From Stdlib Require Import Ascii ZArith Lia.
From stdpp Require Import base strings gmap option list.
From S2P Require Import Prelude CStr.

(** struct stat, as far as it is used. *)
Inductive ftype := Directory | CharDevice | OtherFile.
#[export] Instance ftype_eq_dec : EqDecision ftype.
Proof. solve_decision. Defined.
Record stat := Stat { st_type : ftype; st_ino : Z; st_dev : Z }.

Definition POSIX_PATH_MAX : nat := 256.

(** The list from head to tail, by its names; the static array pathname as a string; the blocks
    that are allocated; what the calls of malloc and strdup to come give, in order (success
    when the list is used up). *)
Record ttynames := Ttynames { n_list : list bytes; n_pathname : bytes; n_blocks : nat; n_mem : list bool }.
#[export] Instance ttynames_rebuild : Rebuild ttynames := λ s, Ttynames (n_list s) (n_pathname s) (n_blocks s) (n_mem s).

Section ttyname.
(** stat; opendir and readdir: the names in a directory. *)
Context (stat_of : bytes → option stat) (readdir : bytes → option (list bytes)).

(** malloc and strdup. *)
Definition alloc : prog ttynames bool := λ s,
  let ok := default true (head (n_mem s)) in
  Done ok (Ttynames (n_list s) (n_pathname s) (if ok then S (n_blocks s) else n_blocks s) (tail (n_mem s))).
Definition free (n : nat) : prog ttynames unit :=
  s ← get; defined (n <=? n_blocks s)%nat ;; modify (λ s, s <| n_blocks := (n_blocks s - n)%nat |>).

(** Whether a directory is not added: ., .. and /dev/fd. *)
Definition last_chars (dirname : bytes) : ascii * ascii * ascii :=
  let at_end k := default NUL (dirname !! (length dirname - k)%nat) in (at_end 1%nat, at_end 2%nat, at_end 3%nat).
Definition is_dot (dirname : bytes) : bool :=
  let '(c1, c2, c3) := last_chars dirname in
  Ascii.eqb c1 "."%char && (Ascii.eqb c2 "/"%char || (Ascii.eqb c2 "."%char && Ascii.eqb c3 "/"%char)).

Definition add (dirname : bytes) : prog ttynames unit :=
  defined (3 <=? length dirname)%nat ;;
  if is_dot dirname then mret tt
  else if decide (dirname = str "/dev/fd") then mret tt
  else
    ddp ← alloc;
    if negb ddp then mret tt
    else
      name ← alloc;
      if negb name then free 1
      else modify (λ s, s <| n_list ::= λ l, l ++ [dirname] |>).

(** cleanup: two blocks for each element of the list. *)
Fixpoint free_list (l : list bytes) : prog ttynames unit :=
  match l with [] => mret tt | _ :: l => free 1 ;; free 1 ;; free_list l end.
Definition cleanup : prog ttynames unit :=
  l ← gets n_list; free_list l ;; modify (λ s, s <| n_list := [] |>).

(** strncpy(pathname + devlen, d_name, _POSIX_PATH_MAX - devlen): the last byte of the array is
    always 0. *)
Definition join (dir name : bytes) : bytes := dir ++ take (POSIX_PATH_MAX - length dir) name.
Definition alias (path : bytes) : bool :=
  bool_decide (path = str "/dev/stdin") || bool_decide (path = str "/dev/stdout") || bool_decide (path = str "/dev/stderr").

(** The loop on readdir; [dir] is the directory's name with its slash. *)
Fixpoint search_names (fd : stat) (dir : bytes) (names : list bytes) : prog ttynames (option bytes) :=
  match names with
  | [] => mret None
  | name :: names =>
      let path := join dir name in
      modify (λ s, s <| n_pathname := path |>) ;;
      if alias path then search_names fd dir names
      else
        match stat_of path with
        | None => search_names fd dir names
        | Some devstat =>
            if decide (st_type devstat = Directory) then add path ;; search_names fd dir names
            else if (st_ino devstat =? st_ino fd) && (st_dev devstat =? st_dev fd) then mret (Some path)
            else search_names fd dir names
        end
  end.
Definition searchdir (dirname : bytes) (fd : stat) : prog ttynames (option bytes) :=
  defined (length dirname <=? POSIX_PATH_MAX)%nat ;;
  modify (λ s, s <| n_pathname := dirname |>) ;;
  match readdir dirname with
  | None => mret None
  | Some names =>
      defined (S (length dirname) <=? POSIX_PATH_MAX)%nat ;;
      search_names fd (dirname ++ str "/") names
  end.

(** The loop on the list; [pos]: the element ddp points at. *)
Fixpoint search_list (fuel pos : nat) (fd : stat) : prog ttynames (option bytes) :=
  l ← gets n_list;
  match l !! pos with
  | None => mret None
  | Some d =>
      match fuel with
      | O => (λ _, NoFuel) : prog ttynames (option bytes)
      | S fuel =>
          rval ← searchdir d fd;
          match rval with Some path => mret (Some path) | None => search_list fuel (S pos) fd end
      end
  end.

(** [isatty] and [fstat]: what these calls give for the descriptor. *)
Definition ttyname (fuel : nat) (isatty : bool) (fstat : option stat) : prog ttynames (option bytes) :=
  if negb isatty then mret None
  else
    match fstat with
    | None => mret None
    | Some fd =>
        if negb (bool_decide (st_type fd = CharDevice)) then mret None
        else
          rval ← searchdir (str "/dev") fd;
          rval ← (match rval with Some path => mret (Some path) | None => search_list fuel 0 fd end);
          cleanup ;;
          mret rval
    end.
End ttyname.

(** * Properties *)

Section ttyname.
Context (stat_of : bytes → option stat) (readdir : bytes → option (list bytes)).

(** ** The reference *)

Definition path (d name : bytes) : bytes := d ++ str "/" ++ name.
Definition names (d : bytes) : list bytes := default [] (readdir d).

(** A name stands for a directory that is searched, or for the file. *)
Definition is_subdir (d name : bytes) : bool :=
  negb (bool_decide (name = str ".")) && negb (bool_decide (name = str "..")) &&
  negb (bool_decide (path d name = str "/dev/fd")) && negb (alias (path d name)) &&
  bool_decide ((st_type <$> stat_of (path d name)) = Some Directory).
Definition is_hit (fd : stat) (d name : bytes) : bool :=
  negb (alias (path d name)) &&
  match stat_of (path d name) with
  | Some st => negb (bool_decide (st_type st = Directory)) && (st_ino st =? st_ino fd) && (st_dev st =? st_dev fd)
  | None => false
  end.
Definition subdirs (d : bytes) : list bytes := path d <$> filter (λ n, is_subdir d n = true) (names d).
Definition hits (fd : stat) (d : bytes) : list bytes := path d <$> filter (λ n, is_hit fd d n = true) (names d).

(** The directories below /dev, by their depth; all of them down to depth [n]. *)
Fixpoint level (n : nat) : list bytes :=
  match n with O => [str "/dev"] | S n => level n ≫= subdirs end.
Definition dirs (n : nat) : list bytes := mjoin (level <$> seq 0 n).

(** What the code relies on: names are those of directory entries, paths fit pathname. *)
Definition fits (d : bytes) : Prop :=
  (length d < POSIX_PATH_MAX)%nat ∧
  Forall (λ n, n ≠ [] ∧ "/"%char ∉ n ∧ (length (path d n) < POSIX_PATH_MAX)%nat) (names d).

(** ** The steps of the code *)

Lemma lookup_from_end (l : bytes) x m : (l ++ x :: m) !! (length (l ++ x :: m) - S (length m))%nat = Some x.
Proof.
  rewrite length_app. simpl. rewrite lookup_app_r by lia.
  by replace (length l + S (length m) - S (length m) - length l)%nat with 0%nat by lia.
Qed.

Lemma last_chars_eq (l : bytes) a b c : last_chars (l ++ [a; b; c]) = (c, b, a).
Proof.
  unfold last_chars. pose proof (lookup_from_end l a [b; c]) as H1. pose proof (lookup_from_end (l ++ [a]) b [c]) as H2.
  pose proof (lookup_from_end (l ++ [a; b]) c []) as H3. rewrite <- !app_assoc in *. simpl in *. by rewrite H1, H2, H3.
Qed.

Lemma is_dot_path d n : d ≠ [] → n ≠ [] → "/"%char ∉ n → is_dot (path d n) = bool_decide (n = str ".") || bool_decide (n = str "..").
Proof.
  intros Hd Hn Hs. unfold is_dot, path.
  destruct n as [|c n] using rev_ind; [done|]. clear Hn IHn. rewrite elem_of_app, list_elem_of_singleton in Hs.
  destruct n as [|b n _] using rev_ind.
  { destruct d as [|a d _] using rev_ind; [done|]. replace ((d ++ [a]) ++ str "/" ++ [] ++ [c]) with (d ++ [a; "/"%char; c]) by (by rewrite <- app_assoc).
    rewrite last_chars_eq. cbn.
    destruct (Ascii.eqb_spec c "."%char) as [->|Hne]; [done|]. symmetry. apply orb_false_iff; split; apply bool_decide_eq_false; by intros [=]. }
  rewrite elem_of_app, list_elem_of_singleton in Hs.
  assert (Ascii.eqb b "/"%char = false) as Hb by (apply Ascii.eqb_neq; intros ->; tauto).
  destruct n as [|a n _] using rev_ind.
  { change (d ++ str "/" ++ ([] ++ [b]) ++ [c]) with (d ++ ["/"%char; b; c]). rewrite last_chars_eq, Hb. cbn.
    destruct (Ascii.eqb_spec c "."%char) as [->|Hc]; cbn.
    - destruct (Ascii.eqb_spec b "."%char) as [->|Hb']; [done|]. symmetry. apply orb_false_iff; split; apply bool_decide_eq_false; by intros [=].
    - symmetry. apply orb_false_iff; split; apply bool_decide_eq_false; by intros [=]. }
  rewrite elem_of_app, list_elem_of_singleton in Hs.
  assert (Ascii.eqb a "/"%char = false) as Ha by (apply Ascii.eqb_neq; intros ->; tauto).
  replace (d ++ str "/" ++ ((n ++ [a]) ++ [b]) ++ [c]) with ((d ++ str "/" ++ n) ++ [a; b; c]) by (by rewrite <- !app_assoc).
  rewrite last_chars_eq, Ha, Hb, !andb_false_r. symmetry.
  apply orb_false_iff; split; apply bool_decide_eq_false; intros E%(f_equal length); rewrite !length_app in E; simpl in E; lia.
Qed.

(** No call of malloc fails, and there are two blocks for each element of the list. *)
Definition tidy (b : nat) (s : ttynames) : Prop := n_mem s = [] ∧ n_blocks s = (b + 2 * length (n_list s))%nat.

Lemma join_fits d n : (length (path d n) < POSIX_PATH_MAX)%nat → join (d ++ str "/") n = path d n.
Proof.
  unfold join, path. rewrite !length_app. simpl. intros H. rewrite <- app_assoc. do 2 f_equal. apply take_ge. lia.
Qed.

Lemma add_path d n b s : d ≠ [] → n ≠ [] → "/"%char ∉ n → tidy b s →
  ∃ s', add (path d n) s = Done tt s' ∧ tidy b s' ∧
    n_list s' = n_list s ++ if negb (bool_decide (n = str ".")) && negb (bool_decide (n = str "..")) && negb (bool_decide (path d n = str "/dev/fd"))
                            then [path d n] else [].
Proof.
  intros Hd Hn Hs [Hm Hb]. unfold add.
  rewrite bind_defined_true by (apply Nat.leb_le; unfold path; rewrite !length_app; destruct d, n; simpl; done || lia).
  rewrite is_dot_path by done. destruct (bool_decide (n = str ".")), (bool_decide (n = str "..")); cbn [orb andb negb];
    try (exists s; by rewrite app_nil_r).
  destruct (decide (path d n = str "/dev/fd")) as [E|E]; [rewrite bool_decide_eq_true_2 by done|rewrite bool_decide_eq_false_2 by done];
    cbn [negb]; [exists s; by rewrite app_nil_r|].
  destruct s as [l p bl m]; cbn in *. subst m bl. unfold alloc, mbind, prog_bind, modify, update; cbn.
  eexists. split; [reflexivity|]. split; [|done]. split; [done|]. cbn. rewrite length_app. cbn. lia.
Qed.

Lemma search_names_ok fd d l : d ≠ [] → (∀ n, n ∈ l → n ≠ [] ∧ "/"%char ∉ n ∧ (length (path d n) < POSIX_PATH_MAX)%nat) →
  ∀ b s, tidy b s → ∃ s',
    search_names stat_of fd (d ++ str "/") l s = Done (head (path d <$> filter (λ n, is_hit fd d n = true) l)) s' ∧ tidy b s' ∧
    (filter (λ n, is_hit fd d n = true) l = [] →
      n_list s' = n_list s ++ (path d <$> filter (λ n, is_subdir d n = true) l)).
Proof.
  intros Hd. induction l as [|n l IH]; intros Hl b s Ht; [exists s; split_and!; [done|done|by rewrite app_nil_r]|].
  destruct (Hl n) as (Hn & Hs & Hf); [left|].
  assert (∀ n, n ∈ l → n ≠ [] ∧ "/"%char ∉ n ∧ (length (path d n) < POSIX_PATH_MAX)%nat) as Hl' by (intros; apply Hl; by right).
  specialize (IH Hl'). cbn [search_names]. rewrite join_fits by done. rewrite bind_modify.
  set (s1 := s <| n_pathname := path d n |>). assert (tidy b s1 ∧ n_list s1 = n_list s) as [Ht1 El] by by destruct s.
  clearbody s1.
  assert (is_hit fd d n = false → is_subdir d n = false → ∃ s',
    search_names stat_of fd (d ++ str "/") l s1 = Done (head (path d <$> filter (λ n, is_hit fd d n = true) (n :: l))) s' ∧ tidy b s' ∧
    (filter (λ n, is_hit fd d n = true) (n :: l) = [] →
      n_list s' = n_list s ++ (path d <$> filter (λ n, is_subdir d n = true) (n :: l)))) as Hskip.
  { intros E1 E2. rewrite !filter_cons_False by congruence. rewrite <- El. by apply IH. }
  destruct (alias (path d n)) eqn:Ea.
  { apply Hskip; unfold is_hit, is_subdir; rewrite Ea; cbn; [done|by rewrite andb_false_r]. }
  destruct (stat_of (path d n)) as [st|] eqn:Es.
  2:{ apply Hskip; unfold is_hit, is_subdir; rewrite Ea, Es; cbn; [done|by rewrite andb_false_r]. }
  destruct (decide (st_type st = Directory)) as [Hdir|Hdir].
  - destruct (add_path d n b s1 Hd Hn Hs Ht1) as (s2 & E2 & Ht2 & El2). erewrite bind_done by exact E2.
    assert (is_hit fd d n = false) as Eh.
    { unfold is_hit. rewrite Ea, Es. cbn. by rewrite (bool_decide_eq_true_2 (st_type st = Directory)). }
    rewrite filter_cons_False by congruence. destruct (IH b s2 Ht2) as (s' & E & H1 & H2). exists s'. split; [done|]. split; [done|].
    intros Hnil. rewrite H2, El2, El, <- app_assoc by done. f_equal.
    assert (is_subdir d n = negb (bool_decide (n = str ".")) && negb (bool_decide (n = str "..")) && negb (bool_decide (path d n = str "/dev/fd"))) as Esub.
    { unfold is_subdir. rewrite Ea, Es. cbn. rewrite (bool_decide_eq_true_2 (Some _ = Some _)) by congruence. by rewrite !andb_true_r. }
    rewrite <- Esub. destruct (is_subdir d n) eqn:E3; [by rewrite filter_cons_True|by rewrite filter_cons_False by congruence].
  - assert (is_subdir d n = false) as Esub.
    { unfold is_subdir. rewrite Es. cbn. rewrite (bool_decide_eq_false_2 (Some _ = Some _)) by congruence. by rewrite andb_false_r. }
    assert (is_hit fd d n = (st_ino st =? st_ino fd) && (st_dev st =? st_dev fd)) as Eh.
    { unfold is_hit. rewrite Ea, Es. cbn. by rewrite (bool_decide_eq_false_2 (st_type st = Directory)). }
    destruct ((st_ino st =? st_ino fd) && (st_dev st =? st_dev fd)) eqn:Em; [|by apply Hskip].
    rewrite (filter_cons_True (λ n, is_hit fd d n = true)) by done. exists s1. by split_and!.
Qed.

Lemma searchdir_ok fd d b s : d ≠ [] → fits d → tidy b s → ∃ s',
  searchdir stat_of readdir d fd s = Done (head (hits fd d)) s' ∧ tidy b s' ∧ (hits fd d = [] → n_list s' = n_list s ++ subdirs d).
Proof.
  intros Hd [Hlen Hf] Ht. unfold searchdir, hits, subdirs, names in *. rewrite Forall_forall in Hf.
  rewrite bind_defined_true by (apply Nat.leb_le; lia). rewrite bind_modify.
  set (s1 := s <| n_pathname := d |>). assert (tidy b s1 ∧ n_list s1 = n_list s) as [Ht1 <-] by by destruct s. clearbody s1.
  destruct (readdir d) as [l|]; cbn [default] in *.
  - rewrite bind_defined_true by (apply Nat.leb_le; lia).
    destruct (search_names_ok fd d l Hd Hf b s1 Ht1) as (s' & E & H1 & H2). exists s'. split_and!; [done|done|].
    intros Hnil. apply H2. by apply fmap_nil_inv in Hnil.
  - exists s1. split_and!; [done|done|]. by rewrite app_nil_r.
Qed.

(** Going along a part of the list. *)
Lemma search_part fd l : Forall (λ d, d ≠ [] ∧ fits d) l → ∀ fuel pos t b s, tidy b s → drop pos (n_list s) = l ++ t → ∃ s', tidy b s' ∧
  match head (l ≫= hits fd) with
  | Some p => search_list stat_of readdir (length l + fuel) pos fd s = Done (Some p) s'
  | None => search_list stat_of readdir (length l + fuel) pos fd s = search_list stat_of readdir fuel (pos + length l) fd s' ∧
      drop (pos + length l) (n_list s') = t ++ (l ≫= subdirs)
  end.
Proof.
  induction 1 as [|d l [Hd Hf] _ IH]; intros fuel pos t b s Ht Hdrop.
  { exists s. split; [done|]. cbn. rewrite Nat.add_0_r, app_nil_r. done. }
  assert (n_list s !! pos = Some d) as Hpos by (rewrite <- (Nat.add_0_r pos), <- lookup_drop, Hdrop; done).
  assert (drop (S pos) (n_list s) = l ++ t) as Hdrop1 by (replace (S pos) with (pos + 1)%nat by lia; by rewrite <- drop_drop, Hdrop).
  pose proof (lookup_lt_Some _ _ _ Hpos) as Hlt.
  destruct (searchdir_ok fd d b s Hd Hf Ht) as (s1 & E1 & Ht1 & Hl1).
  cbn [length Nat.add search_list]. rewrite bind_gets, Hpos. erewrite bind_done by exact E1.
  change ((d :: l) ≫= hits fd) with (hits fd d ++ (l ≫= hits fd)). destruct (hits fd d) as [|p h]; cbn [head app]; [|by exists s1].
  specialize (Hl1 eq_refl). destruct (IH fuel (S pos) (t ++ subdirs d) b s1 Ht1) as (s' & Ht' & H').
  { rewrite Hl1, drop_app_le by lia. by rewrite Hdrop1, <- app_assoc. }
  exists s'. split; [done|]. destruct (head (l ≫= hits fd)); [done|]. destruct H' as [H1 H2]. split.
  - rewrite H1. f_equal. lia.
  - replace (pos + S (length l))%nat with (S pos + length l)%nat by lia. rewrite H2, <- app_assoc. done.
Qed.

(** Going along the levels from [k] on, [n] of them. *)
Lemma search_levels fd n : ∀ k fuel pos b s, Forall (λ d, d ≠ [] ∧ fits d) (mjoin (level <$> seq k n)) → level (k + n) = [] →
  tidy b s → drop pos (n_list s) = level k → ∃ s', tidy b s' ∧
    search_list stat_of readdir (length (mjoin (level <$> seq k n)) + fuel) pos fd s
    = Done (head (mjoin (level <$> seq k n) ≫= hits fd)) s'.
Proof.
  induction n as [|n IH]; intros k fuel pos b s Hf Hend Ht Hdrop.
  - rewrite Nat.add_0_r in Hend. rewrite Hend in Hdrop. exists s. split; [done|]. cbn.
    assert (n_list s !! pos = None) as Hpos by (rewrite <- (Nat.add_0_r pos), <- lookup_drop, Hdrop; done).
    destruct fuel; cbn [search_list]; by rewrite bind_gets, Hpos.
  - assert (mjoin (level <$> seq k (S n)) = level k ++ mjoin (level <$> seq (S k) n)) as E by done.
    rewrite E in *. clear E. apply Forall_app in Hf as [Hf1 Hf2].
    rewrite length_app, <- Nat.add_assoc.
    destruct (search_part fd (level k) Hf1 (length (mjoin (level <$> seq (S k) n)) + fuel) pos [] b s Ht) as (s1 & Ht1 & H1);
      [by rewrite app_nil_r|].
    rewrite bind_app. destruct (level k ≫= hits fd) as [|p h]; cbn [head app] in *; [|by exists s1].
    destruct H1 as [-> H1]. apply IH; [done|by rewrite Nat.add_succ_comm|done|done].
Qed.

Lemma cleanup_ok b s : tidy b s → ∃ s', cleanup s = Done tt s' ∧ n_list s' = [] ∧ n_blocks s' = b.
Proof.
  destruct s as [l p bl m]. intros [_ Hb]; cbn in Hb. unfold cleanup. rewrite bind_gets. cbn [n_list].
  assert (∀ l0 l' bl, bl = (b + 2 * length l')%nat → free_list l' (Ttynames l0 p bl m) = Done tt (Ttynames l0 p b m)) as H.
  { intros l0 l'. induction l' as [|x l' IH]; intros bl0 ->; [cbn; by rewrite Nat.add_0_r|].
    cbn [free_list length]. unfold free. rewrite !bind_assoc.
    replace (b + 2 * S (length l'))%nat with (S (S (b + 2 * length l'))) by lia.
    unfold defined, mbind, prog_bind, get, modify, update; cbn [n_blocks Nat.leb].
    cbn -[Nat.sub]. rewrite !Nat.sub_succ, !Nat.sub_0_r. apply IH. cbn. lia. }
  erewrite bind_done by (by apply H). eexists. by split_and!.
Qed.

Lemma level_nonempty n : Forall (λ d, d ≠ []) (level n).
Proof.
  destruct n as [|n]; cbn [level]; [by repeat constructor|]. apply Forall_forall.
  intros d (d0 & Hd & _)%list_elem_of_bind. unfold subdirs in Hd. apply list_elem_of_fmap in Hd as (x & -> & _). by destruct d0.
Qed.
End ttyname.

(** C36: ttyname of termios/ttyname.c, for a terminal, when the directories below /dev end
    at some depth, paths fit the array and no call of malloc fails.  The result is the
    first file with the terminal's numbers in a search of /dev level by level, where ., ..,
    /dev/fd and the aliases /dev/stdin, /dev/stdout and /dev/stderr are left out, or NULL
    when there is none; the loop ends after at most one round for each directory, nothing
    is undefined, and all of the list is freed. *)
Theorem ttyname_finds stat_of readdir fd n fuel s (Hchar : st_type fd = CharDevice)
    (Hend : level stat_of readdir (S n) = []) (Hfits : Forall (fits readdir) (dirs stat_of readdir (S n)))
    (Hlist : n_list s = []) (Hmem : n_mem s = []) (Hfuel : (length (dirs stat_of readdir (S n)) <= fuel)%nat) :
  ∃ s', ttyname stat_of readdir fuel true (Some fd) s = Done (head (dirs stat_of readdir (S n) ≫= hits stat_of readdir fd)) s' ∧
    n_list s' = [] ∧ n_blocks s' = n_blocks s.
Proof.
  assert (tidy (n_blocks s) s) as Ht by (split; [done|]; rewrite Hlist; simpl; lia).
  unfold dirs in *. assert (mjoin (level stat_of readdir <$> seq 0 (S n)) = [str "/dev"] ++ mjoin (level stat_of readdir <$> seq 1 n)) as E by done.
  rewrite E in *. clear E. apply Forall_app in Hfits as [[Hdev _]%Forall_cons Hrest].
  unfold ttyname. cbn [negb]. rewrite bool_decide_eq_true_2 by done. cbn [negb].
  destruct (searchdir_ok stat_of readdir fd (str "/dev") (n_blocks s) s ltac:(done) Hdev Ht) as (s1 & E1 & Ht1 & Hl1).
  erewrite bind_done by exact E1. rewrite bind_app.
  change ([str "/dev"] ≫= hits stat_of readdir fd) with (hits stat_of readdir fd (str "/dev") ++ []). rewrite app_nil_r.
  destruct (hits stat_of readdir fd (str "/dev")) as [|p h]; cbn [head app].
  - specialize (Hl1 eq_refl). rewrite Hlist in Hl1. cbn [app] in Hl1. rewrite length_app in Hfuel.
    replace fuel with (length (mjoin (level stat_of readdir <$> seq 1 n)) + (fuel - length (mjoin (level stat_of readdir <$> seq 1 n))))%nat by lia.
    destruct (search_levels stat_of readdir fd n 1 (fuel - length (mjoin (level stat_of readdir <$> seq 1 n))) 0 (n_blocks s) s1)
      as (s2 & Ht2 & E2); [|done|done|by rewrite Hl1; cbn; rewrite app_nil_r|].
    { rewrite Forall_forall in Hrest |- *. intros d Hd. split; [|by apply Hrest].
      apply list_elem_of_join in Hd as (l & Hd & Hl). apply list_elem_of_fmap in Hl as (k & -> & _).
      pose proof (level_nonempty stat_of readdir k) as Hne. rewrite Forall_forall in Hne. by apply Hne. }
    erewrite bind_done by exact E2. destruct (cleanup_ok (n_blocks s) s2 Ht2) as (s3 & E3 & H1 & H2).
    erewrite bind_done by exact E3. by exists s3.
  - rewrite bind_ret. destruct (cleanup_ok (n_blocks s) s1 Ht1) as (s3 & E3 & H1 & H2).
    erewrite bind_done by exact E3. by exists s3.
Qed.

(** A small /dev: the terminal is /dev/pts/1; /dev/stdin is an alias of it. *)
Definition ex_stat (p : bytes) : option stat :=
  if decide (p ∈ [str "/dev/stdin"; str "/dev/pts/1"]) then Some (Stat CharDevice 7 3)
  else if decide (p ∈ [str "/dev/."; str "/dev/.."; str "/dev/fd"; str "/dev/pts"; str "/dev/pts/."]) then Some (Stat Directory 1 3)
  else if decide (p = str "/dev/null") then Some (Stat CharDevice 8 3) else None.
Definition ex_readdir (d : bytes) : option (list bytes) :=
  if decide (d = str "/dev") then Some (str <$> ["."; ".."; "stdin"; "fd"; "null"; "pts"]%string)
  else if decide (d = str "/dev/pts") then Some (str <$> ["."; "0"; "1"]%string) else None.

Lemma ttyname_finds_witness :
  ∃ s', ttyname ex_stat ex_readdir 5 true (Some (Stat CharDevice 7 3)) (Ttynames [] [] 0 []) = Done (Some (str "/dev/pts/1")) s' ∧
    n_blocks s' = 0%nat.
Proof.
  destruct (ttyname_finds ex_stat ex_readdir (Stat CharDevice 7 3) 2 5 (Ttynames [] [] 0 [])) as (s' & E & _ & Hb);
    [done|by vm_compute| |done|done|vm_compute; lia|].
  - unfold fits. by apply (bool_decide_unpack _); vm_compute.
  - exists s'. split; [|done]. rewrite E. by vm_compute.
Defined.

(** A directory whose path fills pathname: the slash that strcat appends takes the last byte
    of the array, and the NUL is written behind it. *)
Lemma ttyname_overflow d stat_of readdir fd s l : length d = POSIX_PATH_MAX → readdir d = Some l →
  ∃ s', searchdir stat_of readdir d fd s = Undef s'.
Proof.
  intros Hd Hl. unfold searchdir. rewrite bind_defined_true by (by rewrite Hd). rewrite bind_modify, Hl.
  unfold defined. rewrite Hd. by eexists.
Qed.
