(* ===== verification/Getenv.v ===== *)
(** * The environment: getenv in its three versions, threadctl/getenv1.c, getenv2.c and
    getenv3.c.

    Buffers are arrays of bytes that may not have been set.  A call of getenv3.c and of
    getenv_r is one step, for it holds env_mutex. *)
From Stdlib Require Import Ascii ZArith Lia.
From stdpp Require Import base strings gmap option list.
From S2P Require Import Prelude CStr.

Definition MAXSTRINGSZ : nat := Z.to_nat 4096.
Definition ENOENT : Z := 2.
Definition ENOSPC : Z := 28.

(** ** Buffers *)

(** envbuf of getenv1.c, the buffer of a thread, a buffer of the caller. *)
Inductive place := Static | OfThread (t : nat) | User (k : nat).
#[export] Instance place_eq_dec : EqDecision place.
Proof. solve_decision. Defined.
#[export] Instance place_countable : Countable place.
Proof.
  refine (inj_countable' (λ p, match p with Static => inl () | OfThread t => inr (inl t) | User k => inr (inr k) end)
    (λ s, match s with inl _ => Static | inr (inl t) => OfThread t | inr (inr k) => User k end) _). by intros [].
Defined.

Abbreviation buffer := (list (option ascii)).

(** The string in a buffer; [None]: it is not terminated, or not set. *)
Fixpoint buf_string (b : buffer) : option bytes :=
  match b with
  | Some c :: b => if decide (c = NUL) then Some [] else (λ s, c :: s) <$> buf_string b
  | _ => None
  end.

(** strncpy(dst, src, n) and strcpy(dst, src) for a string [src] without its NUL. *)
Definition strncpy (dst : buffer) (src : bytes) (n : nat) : buffer :=
  (Some <$> take n src ++ replicate (n - length src) NUL) ++ drop n dst.
Definition strcpy (dst : buffer) (src : bytes) : buffer := (Some <$> src ++ [NUL]) ++ drop (S (length src)) dst.

(** ** State: the buffers, the mutex, whether thread_init has run, and what malloc gives. *)
Record envs := Envs { v_bufs : gmap place buffer; v_locked : bool; v_init : bool; v_mem : list bool }.
#[export] Instance envs_rebuild : Rebuild envs := λ s, Envs (v_bufs s) (v_locked s) (v_init s) (v_mem s).

Section getenv.
(** The strings of environ. *)
Context (environ : list bytes).

(** The loop: the string behind the first entry that is the name and a '='. *)
Fixpoint search (name : bytes) (env : list bytes) : option bytes :=
  let len := length name in
  match env with
  | [] => None
  | e :: env =>
      if strneq len name e && bool_decide (e !! len = Some "="%char) then Some (drop (len + 1) e) else search name env
  end.

Definition write (p : place) (b : buffer) : prog envs unit := modify (λ s, s <| v_bufs ::= <[p := b]> |>).
Definition lock : prog envs unit := s ← get; defined (negb (v_locked s)) ;; modify (λ s, s <| v_locked := true |>).
Definition unlock : prog envs unit := modify (λ s, s <| v_locked := false |>).
Definition once : prog envs unit := modify (λ s, s <| v_init := true |>).
Definition malloc : prog envs bool := λ s,
  Done (default true (head (v_mem s))) (Envs (v_bufs s) (v_locked s) (v_init s) (tail (v_mem s))).

(** getenv1.c; [None]: NULL. *)
Definition getenv1 (name : bytes) : prog envs (option place) :=
  match search name environ with
  | None => mret None
  | Some value =>
      s ← get;
      let envbuf := default [] (v_bufs s !! Static) in
      write Static (strncpy envbuf value (MAXSTRINGSZ - 1)) ;;
      mret (Some Static)
  end.

(** getenv3.c, in thread [t]. *)
Definition getenv3 (t : nat) (name : bytes) : prog envs (option place) :=
  once ;;
  lock ;;
  s ← get;
  ok ← (match v_bufs s !! OfThread t with
        | Some _ => mret true
        | None => ok ← malloc; (if ok : bool then write (OfThread t) (replicate MAXSTRINGSZ None) else mret tt) ;; mret ok
        end);
  if negb ok then unlock ;; mret None
  else
    match search name environ with
    | None => unlock ;; mret None
    | Some value =>
        s ← get;
        let envbuf := default [] (v_bufs s !! OfThread t) in
        write (OfThread t) (strncpy envbuf value (MAXSTRINGSZ - 1)) ;;
        unlock ;;
        mret (Some (OfThread t))
    end.

(** getenv2.c, with the caller's buffer [buf]. *)
Definition getenv_r (name : bytes) (buf : place) (buflen : nat) : prog envs Z :=
  once ;;
  lock ;;
  match search name environ with
  | None => unlock ;; mret ENOENT
  | Some value =>
      let olen := length value in
      if (buflen <=? olen)%nat then unlock ;; mret ENOSPC
      else
        s ← get;
        let b := default [] (v_bufs s !! buf) in
        defined (olen <? length b)%nat ;;
        write buf (strcpy b value) ;;
        unlock ;;
        mret 0
  end.
End getenv.

(** * Properties *)

(** ** The reference: the value of the first entry with the name. *)

(** "NAME=value" *)
Fixpoint split_entry (e : bytes) : option (bytes * bytes) :=
  match e with
  | [] => None
  | c :: e => if decide (c = "="%char) then Some ([], e) else (λ p, (c :: p.1, p.2)) <$> split_entry e
  end.
Definition env_value (environ : list bytes) (name : bytes) : option bytes :=
  snd <$> head (filter (λ p, p.1 = name) (omap split_entry environ)).

Definition c_strings (environ : list bytes) : Prop := Forall no_nul environ.

Lemma entry_matches name e : no_nul name → "="%char ∉ name → no_nul e →
  (strneq (length name) name e && bool_decide (e !! length name = Some "="%char)) =
    bool_decide (fst <$> split_entry e = Some name) ∧
  (fst <$> split_entry e = Some name → snd <$> split_entry e = Some (drop (length name + 1) e)).
Proof.
  revert e. induction name as [|x name IH]; intros e Hn He Hne.
  - destruct e as [|c e]; cbn; [done|]. destruct (decide (c = "="%char)) as [->|Hc]; cbn; [done|].
    rewrite (bool_decide_eq_false_2 (Some c = _)) by congruence. split.
    + symmetry. apply bool_decide_eq_false_2. by destruct (split_entry e).
    + by destruct (split_entry e).
  - apply no_nul_cons in Hn as [Hx Hn]. apply not_elem_of_cons in He as [Hx' He].
    destruct e as [|c e]; [cbn; by rewrite (bool_decide_eq_false_2 (x = NUL)) by done|].
    cbn [length strneq split_entry]. change ((c :: e) !! S (length name)) with (e !! length name).
    apply no_nul_cons in Hne as [Hc Hne]. destruct (IH e Hn He Hne) as [IH1 IH2].
    destruct (decide (x = c)) as [->|Hxc]; cbn [andb].
    + rewrite (decide_False (P := c = NUL)) by done. rewrite (decide_False (P := c = "="%char)) by done. rewrite IH1. clear IH1.
      destruct (split_entry e) as [[a b]|]; cbn in *; [|done]. split.
      * apply bool_decide_ext. split; [by intros [= ->]|by intros [= ->]].
      * intros [= ->]. by apply IH2.
    + match goal with |- _ = bool_decide ?P ∧ _ => assert (¬ P) as HP end.
      { destruct (decide (c = "="%char)); cbn; [by intros [=]|]. destruct (split_entry e); cbn; [|done].
        intros [= ? _]. congruence. }
      split; [symmetry; by apply bool_decide_eq_false_2|done].
Qed.

Lemma search_value environ name : no_nul name → "="%char ∉ name → c_strings environ → search name environ = env_value environ name.
Proof.
  intros Hn He. unfold env_value. induction 1 as [|e env Hne _ IH]; [done|]. cbn [search].
  destruct (entry_matches name e Hn He Hne) as [E1 E2]. rewrite E1. clear E1.
  change (omap split_entry (e :: env)) with
    (match split_entry e with Some p => p :: omap split_entry env | None => omap split_entry env end).
  destruct (split_entry e) as [[a b]|]; [|by rewrite bool_decide_eq_false_2].
  destruct (decide (a = name)) as [->|Ha].
  - rewrite bool_decide_eq_true_2, filter_cons_True by done. cbn in *. by specialize (E2 eq_refl).
  - rewrite bool_decide_eq_false_2, filter_cons_False; [apply IH|done|]. cbn. congruence.
Qed.

(** ** Buffers *)

Lemma buf_string_of (s : bytes) (b : buffer) : no_nul s → buf_string ((Some <$> s ++ [NUL]) ++ b) = Some s.
Proof.
  induction s as [|c s IH]; intros H; cbn; [by rewrite decide_True|]. apply no_nul_cons in H as [Hc H].
  rewrite decide_False by done. rewrite IH by done. done.
Qed.

Lemma strncpy_string dst src n : no_nul src → (length src < n)%nat → buf_string (strncpy dst src n) = Some src.
Proof.
  intros Hs Hl. unfold strncpy. rewrite take_ge by lia.
  destruct (n - length src)%nat as [|k] eqn:E; [lia|]. cbn [replicate].
  change (NUL :: replicate k NUL) with ([NUL] ++ replicate k NUL). rewrite (assoc_L (++)), fmap_app, <- (assoc_L (++)).
  by apply buf_string_of.
Qed.

(** A long string is cut, when the byte behind the ones that are copied is a NUL. *)
Lemma strncpy_cut dst src n r : no_nul src → (n <= length src)%nat → drop n dst = Some NUL :: r →
  buf_string (strncpy dst src n) = Some (take n src).
Proof.
  intros Hs Hl Hd. unfold strncpy. replace (n - length src)%nat with 0%nat by lia. cbn [replicate]. rewrite app_nil_r, Hd.
  change (Some NUL :: r) with ((Some <$> [NUL]) ++ r). rewrite (assoc_L (++)), <- fmap_app. apply buf_string_of.
  by apply no_nul_take.
Qed.

Lemma strcpy_string dst src : no_nul src → buf_string (strcpy dst src) = Some src.
Proof. apply buf_string_of. Qed.

Lemma split_entry_no_nul e a b : no_nul e → split_entry e = Some (a, b) → no_nul b.
Proof.
  revert a. induction e as [|c e IH]; intros a He; [done|]. apply no_nul_cons in He as [_ He]. cbn.
  case_decide; [by intros [= _ <-]|]. destruct (split_entry e) as [[a' b']|]; [|done]. intros [= _ <-]. by apply (IH a').
Qed.

Lemma env_value_no_nul environ name v : c_strings environ → env_value environ name = Some v → no_nul v.
Proof.
  unfold env_value. intros He H. apply fmap_Some in H as ([a b] & H & ->).
  apply head_Some_elem_of, list_elem_of_filter in H as [_ (e & He' & H)%list_elem_of_omap].
  apply split_entry_no_nul in H; [done|]. unfold c_strings in He. rewrite Forall_forall in He. by apply He.
Qed.

(** The static buffer is set, and its last byte is a NUL; the mutex is free. *)
Definition envbuf_ok (s : envs) : Prop :=
  ∃ b, v_bufs s !! Static = Some b ∧ ∃ r, drop (MAXSTRINGSZ - 1) b = Some NUL :: r.
Definition string_at (s : envs) (p : place) : option bytes := v_bufs s !! p ≫= buf_string.
Definition only_changes (p : place) (s s' : envs) : Prop :=
  (∀ q, q ≠ p → v_bufs s' !! q = v_bufs s !! q) ∧ v_locked s' = false.

Lemma strncpy_drop dst src n : (n <= length dst)%nat → drop n (strncpy dst src n) = drop n dst.
Proof.
  intros H. unfold strncpy. rewrite drop_app_ge; rewrite length_fmap, length_app, length_take, length_replicate; [|lia].
  replace (n - _)%nat with 0%nat by lia. done.
Qed.

Lemma drop_cons_length {A} n (l : list A) x r : drop n l = x :: r → (n <= length l)%nat.
Proof. intros H. apply (f_equal length) in H. rewrite length_drop in H. simpl in H. lia. Qed.

(** What getenv1.c and getenv3.c put into their buffer. *)
Lemma getenv_buffer b v r : no_nul v → drop (MAXSTRINGSZ - 1) b = Some NUL :: r →
  buf_string (strncpy b v (MAXSTRINGSZ - 1)) = Some (take (MAXSTRINGSZ - 1) v).
Proof.
  intros Hv Hd. destruct (decide (length v < MAXSTRINGSZ - 1)%nat) as [Hl|Hl].
  - rewrite strncpy_string by done. rewrite take_ge; [done|lia].
  - eapply strncpy_cut; [done|lia|done].
Qed.

Lemma getenv1_ok environ name s v : search name environ = Some v → no_nul v → v_locked s = false → envbuf_ok s →
  ∃ s', getenv1 environ name s = Done (Some Static) s' ∧ only_changes Static s s' ∧
    string_at s' Static = Some (take (MAXSTRINGSZ - 1) v) ∧ envbuf_ok s'.
Proof.
  destruct s as [bufs l i m]. intros Es Hv Hl (b & Hb & r & Hr). cbn in Hl, Hb. subst l. unfold getenv1. rewrite Es.
  unfold write, mbind, prog_bind, get, modify, update; cbn -[strncpy MAXSTRINGSZ]. rewrite Hb. cbn -[strncpy MAXSTRINGSZ].
  eexists. split; [reflexivity|]. unfold only_changes, string_at, envbuf_ok. cbn -[strncpy MAXSTRINGSZ Nat.sub].
  rewrite lookup_insert_eq. split_and!; [|done| |].
  - intros q Hq. by rewrite lookup_insert_ne.
  - by eapply getenv_buffer.
  - eexists. split; [done|]. exists r. rewrite strncpy_drop; [done|by eapply drop_cons_length].
Qed.

(** getenv3.c, once the thread has its buffer [b]. *)
Lemma getenv3_buffer environ t name s : v_locked s = false → v_bufs s !! OfThread t = None → head (v_mem s) ≠ Some false →
  ∃ s1, v_locked s1 = false ∧ v_bufs s1 = <[OfThread t := replicate MAXSTRINGSZ None]> (v_bufs s) ∧
    getenv3 environ t name s = getenv3 environ t name s1.
Proof.
  destruct s as [bufs l i m]. intros Hl Hb Hm. cbn in *. subst l.
  exists (Envs (<[OfThread t := replicate MAXSTRINGSZ None]> bufs) false i (tail m)). split; [done|]. split; [done|].
  destruct m as [|[] m]; [| |done];
    unfold getenv3, once, lock, malloc, write, mbind, prog_bind, get, modify, update, defined; cbn -[strncpy MAXSTRINGSZ replicate];
    rewrite Hb, lookup_insert_eq; done.
Qed.

Lemma getenv3_no_memory environ t name s : v_locked s = false → v_bufs s !! OfThread t = None → head (v_mem s) = Some false →
  ∃ s', getenv3 environ t name s = Done None s' ∧ v_bufs s' = v_bufs s ∧ v_locked s' = false.
Proof.
  destruct s as [bufs l i m]. intros Hl Hb Hm. cbn in *. subst l. destruct m as [|[] m]; simplify_eq.
  unfold getenv3, once, lock, unlock, malloc, mbind, prog_bind, get, modify, update, defined; cbn. rewrite Hb. cbn.
  eexists. by split_and!.
Qed.

Lemma getenv3_ok environ t name s b : v_locked s = false → v_bufs s !! OfThread t = Some b →
  match search name environ with
  | None => ∃ s', getenv3 environ t name s = Done None s' ∧ v_bufs s' = v_bufs s ∧ v_locked s' = false
  | Some v => ∃ s', getenv3 environ t name s = Done (Some (OfThread t)) s' ∧ v_locked s' = false ∧
      v_bufs s' = <[OfThread t := strncpy b v (MAXSTRINGSZ - 1)]> (v_bufs s)
  end.
Proof.
  destruct s as [bufs l i m]. intros Hl Hb. cbn in *. subst l. unfold getenv3.
  unfold once, lock, unlock, malloc, write, mbind, prog_bind, get, modify, update, defined; cbn -[strncpy MAXSTRINGSZ replicate].
  rewrite Hb. cbn -[strncpy MAXSTRINGSZ]. destruct (search name environ) as [v|]; cbn -[strncpy MAXSTRINGSZ].
  - rewrite Hb. eexists. by split_and!.
  - eexists. by split_and!.
Qed.

Lemma getenv_r_ok environ name s buf b buflen : v_locked s = false → v_bufs s !! buf = Some b → (buflen <= length b)%nat →
  match search name environ with
  | None => ∃ s', getenv_r environ name buf buflen s = Done ENOENT s' ∧ v_bufs s' = v_bufs s ∧ v_locked s' = false
  | Some v => ∃ s', getenv_r environ name buf buflen s = Done (if (length v <? buflen)%nat then 0 else ENOSPC) s' ∧ v_locked s' = false ∧
      v_bufs s' = if (length v <? buflen)%nat then <[buf := strcpy b v]> (v_bufs s) else v_bufs s
  end.
Proof.
  destruct s as [bufs l i m]. intros Hl Hb Hlen. cbn in Hl, Hb. subst l. unfold getenv_r.
  unfold once, lock, unlock, write, mbind, prog_bind, get, modify, update; cbn -[strcpy Nat.leb Nat.ltb].
  destruct (search name environ) as [v|]; [|eexists; by split_and!]. cbn -[strcpy Nat.leb Nat.ltb].
  rewrite Nat.ltb_antisym. destruct (Nat.leb_spec buflen (length v)); cbn -[strcpy Nat.leb Nat.ltb]; [eexists; by split_and!|].
  rewrite Hb. unfold defined. cbn -[strcpy Nat.leb Nat.ltb]. assert ((length v <? length b)%nat = true) as -> by (apply Nat.ltb_lt; lia).
  eexists. by split_and!.
Qed.

(** getenv of getenv1.c and getenv3.c and getenv_r of getenv2.c agree with the first
    entry of the environment with the name, when the name has no '='.  The first returns the
    value in its static buffer, cut to MAXSTRINGSZ - 1 bytes; the second in a buffer of the
    thread, when it has less than MAXSTRINGSZ - 1 bytes; getenv_r copies it to the caller's
    buffer or fails with ENOSPC when it does not fit, and with ENOENT when there is none.
    NULL and the errors change no string; no call changes a buffer of another thread or
    caller, so that only getenv1.c can change what an earlier call returned to another
    thread; and the mutex is free again on every path. *)
Theorem getenv_versions environ name s t buf b buflen
    (Henv : c_strings environ) (Hname : no_nul name) (Heq : "="%char ∉ name) (Hlock : v_locked s = false)
    (Hstatic : envbuf_ok s) (Hbuf : v_bufs s !! buf = Some b) (Hlen : (buflen <= length b)%nat) :
  match env_value environ name with
  | None =>
      getenv1 environ name s = Done None s ∧
      (∃ s', getenv3 environ t name s = Done None s' ∧ only_changes (OfThread t) s s' ∧ string_at s' (OfThread t) = string_at s (OfThread t)) ∧
      (∃ s', getenv_r environ name buf buflen s = Done ENOENT s' ∧ v_bufs s' = v_bufs s ∧ v_locked s' = false)
  | Some v =>
      (∃ s', getenv1 environ name s = Done (Some Static) s' ∧ only_changes Static s s' ∧
        string_at s' Static = Some (take (MAXSTRINGSZ - 1) v) ∧ envbuf_ok s') ∧
      (is_Some (v_bufs s !! OfThread t) ∨ head (v_mem s) ≠ Some false → (length v < MAXSTRINGSZ - 1)%nat →
        ∃ s', getenv3 environ t name s = Done (Some (OfThread t)) s' ∧ only_changes (OfThread t) s s' ∧ string_at s' (OfThread t) = Some v) ∧
      (v_bufs s !! OfThread t = None → head (v_mem s) = Some false →
        ∃ s', getenv3 environ t name s = Done None s' ∧ v_bufs s' = v_bufs s ∧ v_locked s' = false) ∧
      (∃ s', getenv_r environ name buf buflen s = Done (if (length v <? buflen)%nat then 0 else ENOSPC) s' ∧
        if (length v <? buflen)%nat then only_changes buf s s' ∧ string_at s' buf = Some v
        else v_bufs s' = v_bufs s ∧ v_locked s' = false)
  end.
Proof.
  pose proof (env_value_no_nul environ name) as Hv. pose proof (search_value environ name Hname Heq Henv) as Es.
  pose proof (getenv_r_ok environ name s buf b buflen Hlock Hbuf Hlen) as H3.
  pose proof (getenv1_ok environ name s) as H1. pose proof (getenv3_ok environ t name) as H2.
  rewrite Es in H1, H2, H3. destruct (env_value environ name) as [v|] eqn:Ev.
  - specialize (Hv v Henv eq_refl). split_and!.
    + by apply H1.
    + intros Hm Hl.
      assert (∃ s1 b1, v_locked s1 = false ∧ v_bufs s1 !! OfThread t = Some b1 ∧ (∀ q, q ≠ OfThread t → v_bufs s1 !! q = v_bufs s !! q) ∧
        getenv3 environ t name s = getenv3 environ t name s1) as (s1 & b1 & Hl1 & Hb1 & Hq1 & ->).
      { destruct (v_bufs s !! OfThread t) as [b1|] eqn:Hb1; [by exists s, b1|]. destruct Hm as [[? ?]|Hm]; [done|].
        destruct (getenv3_buffer environ t name s Hlock Hb1 Hm) as (s1 & Hl1 & E & E'). eexists s1, _.
        split_and!; [done|by rewrite E, lookup_insert_eq| |done]. intros q Hq. by rewrite E, lookup_insert_ne. }
      destruct (H2 s1 b1 Hl1 Hb1) as (s' & E & Hl' & Hb'). exists s'. unfold only_changes, string_at. rewrite Hb'. split_and!; try done.
      * intros q Hq. rewrite lookup_insert_ne by done. by apply Hq1.
      * rewrite lookup_insert_eq. by apply strncpy_string.
    + apply getenv3_no_memory. done.
    + destruct H3 as (s' & E & Hl' & Hb'). exists s'. split; [done|]. destruct (length v <? buflen)%nat eqn:Eb; [|by split].
      unfold only_changes, string_at. rewrite Hb'. split_and!; [|done|].
      * intros q Hq. by rewrite lookup_insert_ne.
      * rewrite lookup_insert_eq. by apply strcpy_string.
  - split_and!; [|clear H1 H3|done].
    + unfold getenv1. by rewrite Es.
    + unfold only_changes, string_at. destruct (v_bufs s !! OfThread t) as [b1|] eqn:Hb1.
      * destruct (H2 s b1 Hlock Hb1) as (s' & E & Hb' & Hl'). exists s'. by rewrite Hb', Hb1.
      * destruct (decide (head (v_mem s) = Some false)) as [Hm|Hm].
        -- destruct (getenv3_no_memory environ t name s Hlock Hb1 Hm) as (s' & E & Hb' & Hl'). exists s'. by rewrite Hb', Hb1.
        -- destruct (getenv3_buffer environ t name s Hlock Hb1 Hm) as (s1 & Hl1 & E1 & ->).
           destruct (H2 s1 (replicate MAXSTRINGSZ None) Hl1) as (s' & E & Hb' & Hl'); [by rewrite E1, lookup_insert_eq|].
           exists s'. rewrite Hb', E1, lookup_insert_eq. split_and!; [done| |done|done]. intros q Hq. by rewrite lookup_insert_ne.
Qed.

Definition ex_environ : list bytes := str <$> ["HOME=/root"; "PATH"; "PATH=/bin:/usr/bin"; "HOM=x"]%string.
Definition ex_envs : envs := Envs (<[Static := replicate MAXSTRINGSZ (Some NUL)]> {[User 0 := replicate 8 None]}) false false [].

Lemma getenv_versions_witness :
  (∃ s', getenv3 ex_environ 4 (str "PATH") ex_envs = Done (Some (OfThread 4)) s' ∧ string_at s' (OfThread 4) = Some (str "/bin:/usr/bin")) ∧
  (∃ s', getenv_r ex_environ (str "PATH") (User 0) 8 ex_envs = Done ENOSPC s' ∧ v_bufs s' = v_bufs ex_envs).
Proof.
  pose proof (getenv_versions ex_environ (str "PATH") ex_envs 4 (User 0) (replicate 8 None) 8) as H.
  assert (env_value ex_environ (str "PATH") = Some (str "/bin:/usr/bin")) as E by reflexivity. rewrite E in H.
  destruct H as (_ & H2 & _ & H3).
  - by apply (bool_decide_unpack _); vm_compute.
  - by apply (bool_decide_unpack _); vm_compute.
  - by apply (bool_decide_unpack _); vm_compute.
  - done.
  - exists (replicate MAXSTRINGSZ (Some NUL)). split; [done|]. exists []. by vm_compute.
  - done.
  - simpl. lia.
  - split.
    + destruct H2 as (s' & E2 & _ & Hs'); [by right|vm_compute; lia|]. by exists s'.
    + destruct H3 as (s' & E3 & Hs' & _). by exists s'.
Defined.

(** A value of MAXSTRINGSZ - 1 bytes or more leaves the fresh buffer of a thread without a
    NUL: its last byte is what malloc found there. *)
Lemma getenv3_unterminated name v s t : no_nul v → (MAXSTRINGSZ - 1 <= length v)%nat → search name [name ++ str "=" ++ v] = Some v →
  v_locked s = false → v_bufs s !! OfThread t = None → head (v_mem s) ≠ Some false →
  ∃ s', getenv3 [name ++ str "=" ++ v] t name s = Done (Some (OfThread t)) s' ∧ string_at s' (OfThread t) = None.
Proof.
  intros Hv Hl Es Hlock Hb Hm. destruct (getenv3_buffer [name ++ str "=" ++ v] t name s Hlock Hb Hm) as (s1 & Hl1 & E1 & ->).
  pose proof (getenv3_ok [name ++ str "=" ++ v] t name s1 (replicate MAXSTRINGSZ None) Hl1) as H. rewrite Es in H.
  destruct H as (s' & E & _ & Hb'); [by rewrite E1, lookup_insert_eq|]. exists s'. split; [done|].
  unfold string_at. rewrite Hb', lookup_insert_eq. cbn [mbind option_bind]. unfold strncpy.
  replace (MAXSTRINGSZ - 1 - length v)%nat with 0%nat by lia. cbn [replicate]. rewrite app_nil_r, drop_replicate.
  replace (MAXSTRINGSZ - (MAXSTRINGSZ - 1))%nat with 1%nat by (unfold MAXSTRINGSZ; lia).
  pose proof (no_nul_take (MAXSTRINGSZ - 1) v Hv) as Ht. clear -Ht.
  induction (take (MAXSTRINGSZ - 1) v) as [|c l IH]; [done|]. apply no_nul_cons in Ht as [Hc Ht]. cbn [fmap list_fmap app buf_string].
  rewrite decide_False by done. by rewrite IH.
Qed.

(** getenv1.c: what one thread was given changes when another thread asks. *)
Lemma getenv1_shared : ∃ s1 s2, getenv1 ex_environ (str "HOME") ex_envs = Done (Some Static) s1 ∧
  string_at s1 Static = Some (str "/root") ∧
  getenv1 ex_environ (str "HOM") s1 = Done (Some Static) s2 ∧ string_at s2 Static = Some (str "x").
Proof.
  assert (envbuf_ok ex_envs) as H0 by (eexists; split; [done|]; exists []; by vm_compute).
  destruct (getenv1_ok ex_environ (str "HOME") ex_envs (str "/root")) as (s1 & E1 & [_ Hl1] & Hs1 & H1);
    [done|by apply (bool_decide_unpack _); vm_compute|done|done|].
  destruct (getenv1_ok ex_environ (str "HOM") s1 (str "x")) as (s2 & E2 & _ & Hs2 & _);
    [done|by apply (bool_decide_unpack _); vm_compute|done|done|].
  exists s1, s2. rewrite take_ge in Hs1, Hs2 by (vm_compute; lia). by split_and!.
Qed.
