(* ===== verification/Condvar.v ===== *)
(** * A queue of messages with a condition variable: threads/condvar.c.

    Any number of threads run process_msg; messages are put into the queue by enqueue_msg.
    A section under qlock is one step; enqueue_msg signals after it has released the lock,
    which is a step of its own, and pthread_cond_wait may return without a signal. *)
From Stdlib Require Import Ascii ZArith Lia.
From stdpp Require Import base strings gmap option list.
From S2P Require Import Prelude.

(** A thread in process_msg: before the lock, in pthread_cond_wait, woken up but without the
    lock, with the message [mp] after it has released the lock. *)
Inductive worker := WLock | WWait | WWoken | WHas (mp : nat).
#[export] Instance worker_eq_dec : EqDecision worker.
Proof. solve_decision. Defined.

(** workq and the fields m_next of the messages, by their addresses; the calls of
    pthread_cond_signal to come; the messages that were enqueued and that were processed. *)
Record msgs := Msgs {
  q_workq : option nat; q_next : gmap nat (option nat); q_workers : list worker; q_signals : nat;
  q_enqueued : list nat; q_processed : list nat }.
#[export] Instance msgs_rebuild : Rebuild msgs := λ s,
  Msgs (q_workq s) (q_next s) (q_workers s) (q_signals s) (q_enqueued s) (q_processed s).

Definition start (workers : nat) : msgs := Msgs None ∅ (replicate workers WLock) 0 [] [].

(** enqueue_msg up to the end of the lock. *)
Definition enqueue_msg (mp : nat) (s : msgs) : msgs :=
  s <| q_next ::= <[mp := q_workq s]> |> <| q_workq := Some mp |>
    <| q_signals ::= S |> <| q_enqueued ::= λ l, l ++ [mp] |>.

(** pthread_cond_signal wakes a thread that waits, if there is one. *)
Definition signal (w : nat) (s : msgs) : option msgs :=
  match q_signals s with
  | O => None
  | S n =>
      if decide (WWait ∈ q_workers s) then
        if decide (q_workers s !! w = Some WWait) then
          Some (s <| q_signals := n |> <| q_workers ::= <[w := WWoken]> |>)
        else None
      else Some (s <| q_signals := n |>)
  end.

(** process_msg: under the lock, and the processing of a message. *)
Definition process_msg (w : nat) : prog msgs unit :=
  s ← get;
  match q_workers s !! w with
  | Some WLock | Some WWoken =>
      match q_workq s with
      | None => modify (λ s, s <| q_workers ::= <[w := WWait]> |>)
      | Some mp =>
          match q_next s !! mp with
          | None => undefined
          | Some next => modify (λ s, s <| q_workq := next |> <| q_workers ::= <[w := WHas mp]> |>)
          end
      end
  | Some (WHas mp) => modify (λ s, s <| q_workers ::= <[w := WLock]> |> <| q_processed ::= λ l, l ++ [mp] |>)
  | _ => mret tt
  end.

(** Whether a thread can go on by itself. *)
Definition runnable (w : nat) (s : msgs) : bool :=
  match q_workers s !! w with Some WWait | None => false | _ => true end.

(** A message that is enqueued is in nobody's hands. *)
Definition free_msg (mp : nat) (s : msgs) : Prop := mp ∉ q_enqueued s.

(** The states of executions with [n] threads, and how the last move has ended. *)
Inductive runs (n : nat) : outcome msgs unit → Prop :=
  | runs_start : runs n (Done tt (start n))
  | runs_enqueue mp s : runs n (Done tt s) → free_msg mp s → runs n (Done tt (enqueue_msg mp s))
  | runs_signal w s s' : runs n (Done tt s) → signal w s = Some s' → runs n (Done tt s')
  | runs_work w s : runs n (Done tt s) → runnable w s = true → runs n (process_msg w s)
  | runs_spurious w s : runs n (Done tt s) → q_workers s !! w = Some WWait →
      runs n (Done tt (s <| q_workers ::= <[w := WWoken]> |>)).

(** * Properties *)

(** The list behind workq. *)
Fixpoint chain (next : gmap nat (option nat)) (head : option nat) (l : list nat) : Prop :=
  match l with
  | [] => head = None
  | m :: l => head = Some m ∧ ∃ nx, next !! m = Some nx ∧ chain next nx l
  end.

Lemma chain_insert next head l m x : m ∉ l → chain next head l → chain (<[m := x]> next) head l.
Proof.
  revert head. induction l as [|a l IH]; intros head Hm; [done|]. apply not_elem_of_cons in Hm as [Ha Hm].
  intros (-> & nx & Hn & Hc). split; [done|]. exists nx. by rewrite lookup_insert_ne by done; auto.
Qed.

(** The messages in the hands of the threads. *)
Definition in_hand (p : worker) : option nat := match p with WHas mp => Some mp | _ => None end.
Definition held (s : msgs) : list nat := omap in_hand (q_workers s).
Definition awake (p : worker) : nat := match p with WLock | WWoken => 1 | _ => 0 end.

Lemma omap_update {A B} (f : A → option B) (l : list A) i x y : l !! i = Some x →
  option_list (f x) ++ omap f (<[i := y]> l) ≡ₚ option_list (f y) ++ omap f l.
Proof.
  revert i. induction l as [|a l IH]; intros [|i] Hi; try done; simpl in *.
  - injection Hi as ->. destruct (f x), (f y); simpl; try done. apply perm_swap.
  - specialize (IH i Hi). destruct (f a) as [b|]; [|done].
    rewrite !(Permutation_app_comm _ (b :: _)). simpl. f_equiv. by rewrite Permutation_app_comm, IH, Permutation_app_comm.
Qed.

(** While a thread waits, there is for each message in the queue a thread on its way or a
    signal to come. *)
Record inv (n : nat) (s : msgs) (l : list nat) : Prop := Inv {
  i_workers : length (q_workers s) = n;
  i_chain : chain (q_next s) (q_workq s) l;
  i_msgs : q_enqueued s ≡ₚ l ++ held s ++ q_processed s;
  i_nodup : NoDup (q_enqueued s);
  i_signal : WWait ∉ q_workers s ∨ (length l <= sum_list_with awake (q_workers s) + q_signals s)%nat }.

Lemma not_waiting_insert (ws : list worker) (w : nat) p : p ≠ WWait → WWait ∉ ws → WWait ∉ (<[w := p]> ws).
Proof. intros Hp H [i Hi]%list_elem_of_lookup. apply list_lookup_insert_Some in Hi as [(_ & -> & _)|[_ Hi]]; [done|]. apply H. by eapply list_elem_of_lookup_2. Qed.

Lemma msgs_start n : inv n (start n) [].
Proof. split; cbn; [apply length_replicate|done| |constructor|right; lia]. unfold held. cbn. by induction n. Qed.

Lemma inv_enqueue n s l mp : inv n s l → free_msg mp s → inv n (enqueue_msg mp s) (mp :: l).
Proof.
  destruct s as [q nx ws sg en pr]. intros [H1 H2 H3 H4 H5] Hf. unfold free_msg, held in *; cbn in *. split; cbn; try done.
  - split; [done|]. exists q. split; [apply lookup_insert_eq|]. apply chain_insert; [|done]. intros Hin. apply Hf. rewrite H3. set_solver.
  - rewrite H3. by rewrite Permutation_app_comm.
  - apply NoDup_app. split; [done|]. split; [|apply NoDup_singleton]. intros x Hx ->%list_elem_of_singleton. done.
  - destruct H5 as [|H5]; [by left|right; lia].
Qed.

(** A thread wakes up, by a signal or without one. *)
Lemma inv_wake n s l w k : inv n s l → q_workers s !! w = Some WWait → (q_signals s <= S k)%nat →
  inv n (s <| q_signals := k |> <| q_workers ::= <[w := WWoken]> |>) l.
Proof.
  destruct s as [q nx ws sg en pr]. intros [H1 H2 H3 H4 H5] Hw Hk. unfold held in *; cbn in *.
  pose proof (omap_update in_hand ws w WWait WWoken Hw) as Hh. pose proof (sum_insert awake ws w WWait WWoken Hw) as Hs. simpl in Hh, Hs.
  split; cbn; [by rewrite length_insert|done|by rewrite H3, Hh|done|]. right.
  destruct H5 as [H5|H5]; [|lia]. exfalso. apply H5. by eapply list_elem_of_lookup_2.
Qed.

(** A thread at the lock. *)
Lemma inv_lock n s l w p : inv n s l → q_workers s !! w = Some p → p = WLock ∨ p = WWoken →
  ∃ s' l', process_msg w s = Done tt s' ∧ inv n s' l' ∧ q_enqueued s' = q_enqueued s ∧ q_processed s' = q_processed s ∧
    q_signals s' = q_signals s ∧ q_workers s' = <[w := match l with [] => WWait | m :: _ => WHas m end]> (q_workers s).
Proof.
  destruct s as [q nx ws sg en pr]. intros [H1 H2 H3 H4 H5] Hw Hp. unfold held in *; cbn in *.
  pose proof (λ y, omap_update in_hand ws w p y Hw) as Hh. pose proof (λ y, sum_insert awake ws w p y Hw) as Hs.
  assert (in_hand p = None ∧ awake p = 1%nat) as [Ep Ea] by by destruct Hp as [-> | ->]. rewrite Ep in Hh. rewrite Ea in Hs.
  assert (process_msg w (Msgs q nx ws sg en pr) =
    (match q with
     | None => modify (λ s, s <| q_workers ::= <[w := WWait]> |>)
     | Some mp => match nx !! mp with
                  | None => undefined
                  | Some next => modify (λ s, s <| q_workq := next |> <| q_workers ::= <[w := WHas mp]> |>)
                  end
     end) (Msgs q nx ws sg en pr)) as E.
  { unfold process_msg. rewrite (bind_done get _ _ _ _ eq_refl). cbn. rewrite Hw. by destruct Hp as [-> | ->]. }
  rewrite E. clear E. destruct l as [|m l]; cbn in H2.
  - subst q. eexists _, []. split; [reflexivity|]. split_and!; try done. specialize (Hh WWait). simpl in Hh.
    split; cbn; [by rewrite length_insert|done|by rewrite H3; unfold held; cbn; rewrite Hh|done|right; lia].
  - destruct H2 as (-> & nx' & Hn & Hc). rewrite Hn. eexists _, l. split; [reflexivity|]. split_and!; try done.
    specialize (Hh (WHas m)). specialize (Hs (WHas m)). simpl in Hh, Hs.
    split; cbn; [by rewrite length_insert|done| |done|].
    + unfold held; cbn. rewrite H3, Hh. simpl. by rewrite Permutation_middle.
    + destruct H5 as [H5|H5]; [left; by apply not_waiting_insert|right; simpl in H5; lia].
Qed.

(** A thread that processes its message. *)
Lemma inv_has n s l w mp : inv n s l → q_workers s !! w = Some (WHas mp) → ∃ s', process_msg w s = Done tt s' ∧ inv n s' l ∧
  q_enqueued s' = q_enqueued s ∧ q_processed s' = q_processed s ++ [mp] ∧ q_signals s' = q_signals s ∧ q_workers s' = <[w := WLock]> (q_workers s).
Proof.
  destruct s as [q nx ws sg en pr]. intros [H1 H2 H3 H4 H5] Hw. unfold held in *; cbn in *.
  pose proof (omap_update in_hand ws w _ WLock Hw) as Hh. pose proof (sum_insert awake ws w _ WLock Hw) as Hs. simpl in Hh, Hs.
  unfold process_msg. rewrite (bind_done get _ _ _ _ eq_refl). cbn. rewrite Hw. eexists. split; [reflexivity|].
  split_and!; try done. split; cbn; [by rewrite length_insert|done| |done|].
  - unfold held; cbn. rewrite H3, <- Hh. simpl. f_equiv. rewrite Permutation_middle. f_equiv. apply Permutation_cons_append.
  - destruct H5 as [H5|H5]; [left; by apply not_waiting_insert|right; lia].
Qed.

Lemma inv_work n s l w : inv n s l → runnable w s = true → ∃ s' l', process_msg w s = Done tt s' ∧ inv n s' l'.
Proof.
  intros Hi Hr. unfold runnable in Hr. destruct (q_workers s !! w) as [[| | |mp]|] eqn:Hw; try done.
  - destruct (inv_lock n s l w _ Hi Hw) as (s' & l' & E & H & _); [by left|by exists s', l'].
  - destruct (inv_lock n s l w _ Hi Hw) as (s' & l' & E & H & _); [by right|by exists s', l'].
  - destruct (inv_has n s l w mp Hi Hw) as (s' & E & H & _). by exists s', l.
Qed.

Lemma signal_cases w s s' : signal w s = Some s' → ∃ k, q_signals s = S k ∧
  ((q_workers s !! w = Some WWait ∧ s' = s <| q_signals := k |> <| q_workers ::= <[w := WWoken]> |>) ∨
   (WWait ∉ q_workers s ∧ s' = s <| q_signals := k |>)).
Proof.
  unfold signal. destruct (q_signals s) as [|k]; [done|]. intros H. exists k. split; [done|].
  case_decide; [case_decide; [|done]; left|right]; by simplify_eq.
Qed.

Lemma inv_signal n s l w s' : inv n s l → signal w s = Some s' → inv n s' l.
Proof.
  intros Hi (k & Hk & [[Hw ->]|[Hw ->]])%signal_cases.
  - apply (inv_wake n s l w k); [done|done|lia].
  - destruct s as [q nx ws sg en pr], Hi as [H1 H2 H3 H4 H5]. by split; cbn; auto.
Qed.

Lemma runs_inv n o : runs n o → ∃ s l, o = Done tt s ∧ inv n s l.
Proof.
  induction 1 as [|mp s _ (s0 & l & [= <-] & Hi) Hf|w s s' _ (s0 & l & [= <-] & Hi) E|w s _ (s0 & l & [= <-] & Hi) Hr|w s _ (s0 & l & [= <-] & Hi) Hw].
  - exists (start n), []. split; [done|apply msgs_start].
  - exists (enqueue_msg mp s), (mp :: l). split; [done|by apply inv_enqueue].
  - exists s', l. split; [done|by eapply inv_signal].
  - destruct (inv_work n s l w Hi Hr) as (s' & l' & E & Hi'). by exists s', l'.
  - eexists _, l. split; [done|]. pose proof (inv_wake n s l w (q_signals s) Hi Hw ltac:(lia)) as H. by destruct s.
Qed.

(** ** Termination *)

Definition weight (p : worker) : nat := match p with WLock | WWoken => 2 | WHas _ => 1 | WWait => 0 end.
Definition left_to_do (s : msgs) : nat :=
  3 * (length (q_enqueued s) - length (q_processed s)) + 3 * q_signals s + sum_list_with weight (q_workers s).

Lemma held_length n s l w mp : inv n s l → q_workers s !! w = Some (WHas mp) → (length (q_processed s) < length (q_enqueued s))%nat.
Proof.
  intros Hi Hw. rewrite (Permutation_length (i_msgs _ _ _ Hi)), !length_app.
  pose proof (Permutation_length (omap_update in_hand _ w _ WLock Hw)) as H. unfold held. simpl in H. lia.
Qed.

Lemma work_decreases n s l w s' : inv n s l → runnable w s = true → process_msg w s = Done tt s' → (left_to_do s' < left_to_do s)%nat.
Proof.
  intros Hi Hr E. unfold runnable in Hr. unfold left_to_do.
  destruct (q_workers s !! w) as [p|] eqn:Hw; [|done]. pose proof (λ y, sum_insert weight _ w p y Hw) as Hs.
  assert (p = WLock ∨ p = WWoken ∨ ∃ mp, p = WHas mp) as [Hp|[Hp|[mp ->]]] by (destruct p; naive_solver).
  1,2: destruct (inv_lock n s l w _ Hi Hw) as (s1 & l1 & E1 & _ & He & Hp' & Hg & Hws); [auto|]; rewrite E in E1; injection E1 as <-; subst p;
    rewrite He, Hp', Hg, Hws; specialize (Hs (match l with [] => WWait | m :: _ => WHas m end)); destruct l; simpl in *; lia.
  pose proof (held_length _ _ _ _ _ Hi Hw) as Hh.
  destruct (inv_has n s l w mp Hi Hw) as (s1 & E1 & _ & He & Hp' & Hg & Hws). rewrite E in E1. injection E1 as <-.
  rewrite He, Hp', Hg, Hws, length_app. specialize (Hs WLock). simpl in *. lia.
Qed.

Lemma signal_decreases w s s' : signal w s = Some s' → (left_to_do s' < left_to_do s)%nat.
Proof.
  intros (k & Hk & [[Hw ->]|[_ ->]])%signal_cases; destruct s as [q nx ws sg en pr]; unfold left_to_do; cbn -[Nat.mul Nat.sub] in *; subst sg; [|lia].
  pose proof (sum_insert weight ws w _ WWoken Hw) as Hs. simpl weight in Hs. lia.
Qed.

(** All threads wait. *)
Lemma nobody_runs n s l : inv n s l → (0 < n)%nat → q_signals s = 0%nat → (∀ w, runnable w s = false) →
  q_processed s ≡ₚ q_enqueued s ∧ q_workq s = None.
Proof.
  intros Hi Hn Hg Hr.
  assert (Forall (eq WWait) (q_workers s)) as Hw.
  { apply Forall_lookup. intros i p Hp. specialize (Hr i). unfold runnable in Hr. rewrite Hp in Hr. by destruct p. }
  assert (held s = [] ∧ sum_list_with awake (q_workers s) = 0%nat) as [Hh Ha].
  { unfold held. clear -Hw. induction Hw as [|p ws <- _ [IH1 IH2]]; [done|]. by split. }
  assert (l = []) as ->.
  { destruct (i_signal _ _ _ Hi) as [H|H]; [exfalso; apply H|apply nil_length_inv; lia].
    pose proof (i_workers _ _ _ Hi). destruct (q_workers s) as [|p ws]; [simpl in *; lia|].
    apply Forall_cons in Hw as [<- _]. by left. }
  split; [by rewrite (i_msgs _ _ _ Hi), Hh|apply (i_chain _ _ _ Hi)].
Qed.

(** C34: with any number of threads in process_msg, messages put in one at a time and threads
    woken up with and without a signal: no thread follows a link that is not there; the queue
    is a list; the messages in it, those the threads hold and those they have processed are
    together the ones that were enqueued, each once.  Without new messages and wakeups
    that nobody asked for the threads come to rest: each step and each signal makes
    left_to_do smaller.  And when they have come to rest, no thread waits in vain: all messages
    have been processed, though enqueue_msg signals after it has released the lock and
    though it signals no more than one thread. *)
Theorem condvar_no_lost_wakeup n o (Hruns : runs n o) : ∃ s l, o = Done tt s ∧
  chain (q_next s) (q_workq s) l ∧ q_enqueued s ≡ₚ l ++ held s ++ q_processed s ∧ NoDup (q_enqueued s) ∧
  (∀ w, runnable w s = true → ∃ s', process_msg w s = Done tt s' ∧ (left_to_do s' < left_to_do s)%nat) ∧
  (∀ w s', signal w s = Some s' → (left_to_do s' < left_to_do s)%nat) ∧
  (0 < q_signals s → ∃ w s', signal w s = Some s')%nat ∧
  ((0 < n)%nat → q_signals s = 0%nat → (∀ w, runnable w s = false) → q_processed s ≡ₚ q_enqueued s ∧ q_workq s = None).
Proof.
  destruct (runs_inv n o Hruns) as (s & l & -> & Hi). exists s, l. split_and!; [done|apply Hi|apply Hi|apply Hi| | | |].
  - intros w Hr. destruct (inv_work n s l w Hi Hr) as (s' & l' & E & _). exists s'. split; [done|]. by eapply work_decreases.
  - intros w s'. apply signal_decreases.
  - intros Hg. unfold signal. destruct (q_signals s) as [|k]; [lia|]. case_decide as Hw; [|by exists 0%nat; eexists].
    apply list_elem_of_lookup in Hw as [w Hw]. exists w. rewrite decide_True by done. by eexists.
  - by apply (nobody_runs n s l).
Qed.

(** Two threads that wait, one message: the thread that is woken up finds that the other one,
    which has woken up by itself, has taken it. *)
Lemma condvar_no_lost_wakeup_witness : ∃ s, q_workers s = [WWait; WHas 7] ∧ q_enqueued s = [7]%nat ∧ q_signals s = 0%nat ∧
  ∃ s', process_msg 1 s = Done tt s' ∧ (left_to_do s' < left_to_do s)%nat.
Proof.
  pose proof (runs_start 2) as H.
  apply (runs_work 2 0) in H; [vm_compute in H|done]. apply (runs_work 2 1) in H; [vm_compute in H|done].
  apply (runs_enqueue 2 7) in H; [|by apply (bool_decide_unpack _); vm_compute].
  apply (runs_spurious 2 1) in H; [|done].
  apply (runs_work 2 1) in H; [vm_compute in H|done].
  eapply (runs_signal 2 0) in H; [|by vm_compute].
  apply (runs_work 2 0) in H; [vm_compute in H|done].
  pose proof (condvar_no_lost_wakeup 2 _ H) as (s & l & [= <-] & _ & _ & _ & Hw & _).
  eexists. split_and!; [| | |apply (Hw 1%nat)]; by vm_compute.
Defined.
