(* ===== verification/SemPair.v ===== *)
(** * Parent and child that take turns with two semaphores: exercises/test_15.15.c.

    The system calls on the set are those of Semaph, SEM_UNDO and exit included; a process
    is what it has still to do, as in TellWait.  A step is one system call or one update of
    the counter in the shared memory. *)
From Stdlib Require Import Ascii ZArith Lia.
From stdpp Require Import base strings gmap option list.
From S2P Require Import Prelude Semaph TellWait.

(** [Turn i]: update(), whose result must be [i]; [Sem n by]: a semop with SEM_UNDO on
    member [n]; the end of the two branches. *)
Inductive act := Turn (i : Z) | Sem (n : nat) (by_ : Z) | Shmdt | Shm_rm | Sem_rm | Leave.
#[export] Instance act_eq_dec : EqDecision act.
Proof. solve_decision. Defined.

(** The set has the identifier 0; a process knows whether its memory is attached; [x_area]:
    the counter, with whether it is marked for removal. *)
Record pair := Pair {
  x_kern : kern; x_area : Z; x_marked : bool;
  x_acts : who → list act; x_attached : who → bool; x_end : who → option fatal }.
#[export] Instance pair_rebuild : Rebuild pair := λ s,
  Pair (x_kern s) (x_area s) (x_marked s) (x_acts s) (x_attached s) (x_end s).

Definition sem_id : Z := 0.
Definition pid (w : who) : nat := match w with Parent => 0%nat | Child => 1%nat end.
Definition set_of {A} (w : who) (x : A) (f : who → A) : who → A := λ w', if decide (w' = w) then x else f w'.

(** The loops, with [n] rounds to go, and what follows them. *)
Fixpoint parent_acts (n : nat) (i : Z) : list act :=
  match n with
  | O => [Shmdt; Shm_rm; Sem_rm; Leave]
  | S n' => Turn i :: Sem 1 1 :: Sem 0 (-1) :: parent_acts n' (i + 2)
  end.
Fixpoint child_acts (n : nat) (i : Z) : list act :=
  match n with
  | O => [Shmdt; Leave]
  | S n' => Sem 1 (-1) :: Turn i :: Sem 0 1 :: child_acts n' (i + 2)
  end.

(** After shmget, semget, SETALL, fork and the two shmat; NLOOPS is twice [n]. *)
Definition begin (n : nat) : pair :=
  Pair (Kern {[sem_id := SemSet IPC_PRIVATE tzero ∅]} ∅ (sem_id + 1)) 0 false
    (λ w, match w with Parent => parent_acts n 0 | Child => child_acts n 1 end) (λ _, true) (λ _, None).

(** The process ends: exit, or err_sys and err_quit. *)
Definition finish (w : who) (e : fatal) (s : pair) : pair :=
  s <| x_kern ::= do_exit (pid w) |> <| x_acts ::= set_of w [] |> <| x_attached ::= set_of w false |>
    <| x_end ::= set_of w (Some e) |>.

Definition goes_on (w : who) (r : list act) (s : pair) : pair := s <| x_acts ::= set_of w r |>.

(** A call on the set whose failure is err_sys; [None]: it blocks. *)
Definition sem_call (w : who) (c : syscall) (msg : string) (r : list act) (s : pair) : option pair :=
  match do_call (pid w) false c (x_kern s) with
  | KBlock => None
  | KRet (SErr _) k => Some (finish w (ErrSys msg) (s <| x_kern := k |>))
  | KRet (SOk _) k => Some (goes_on w r (s <| x_kern := k |>))
  end.

Definition SIGSEGV : Z := 11.

(** The next step of process [w]. *)
Definition pair_step (w : who) (s : pair) : option pair :=
  match x_acts s w with
  | [] => None
  | Turn i :: r =>
      let s' := s <| x_area ::= Z.add 1 |> in
      Some (if negb (x_attached s w) then finish w (Killed SIGSEGV) s
            else if x_area s =? i then goes_on w r s'
            else finish w (ErrQuit (match w with Parent => "parent: expected %d, got %d" | Child => "child: expected %d, got %d" end)) s')
  | Sem n b :: r => sem_call w (Semop sem_id [Sembuf n b true])
      (match w with Parent => "semop error" | Child => "child semop error" end) r s
  | Shmdt :: r => Some (goes_on w r (s <| x_attached ::= set_of w false |>))
  | Shm_rm :: r => Some (goes_on w r (s <| x_marked := true |>))
  | Sem_rm :: r => sem_call w (Rmid sem_id) "shmctl error" r s
  | Leave :: _ => Some (finish w (Exit 0) s)
  end.

(** The memory is gone. *)
Definition freed (s : pair) : bool := x_marked s && negb (x_attached s Parent) && negb (x_attached s Child).

(** * Properties *)

(** The set is there, with values [v] and adjustments [p] and [c]. *)
Definition sems (k : kern) (v p c : trip) : Prop :=
  ∃ s, k_sets k !! sem_id = Some s ∧ ss_val s = v ∧ adj_of s 0 = p ∧ adj_of s 1 = c.

Lemma sems_eq k v p c v' p' c' : sems k v p c → v = v' → p = p' → c = c' → sems k v' p' c'.
Proof. by intros H -> -> ->. Qed.

Definition adj_if (b : bool) (n : nat) (by_ : Z) (a : trip) : trip := if b then tset n (tget n a - by_) a else a.
Definition is_parent (w : who) : bool := match w with Parent => true | Child => false end.

Lemma semop_done w n b k v p c : sems k v p c → b ≠ 0 → 0 <= tget n v + b <= 1 →
  (- SEMVMX <= tget n (if is_parent w then p else c) - b <= SEMVMX) →
  ∃ k', do_call (pid w) false (Semop sem_id [Sembuf n b true]) k = KRet (SOk 0) k' ∧
    sems k' (tset n (tget n v + b) v) (adj_if (is_parent w) n b p) (adj_if (negb (is_parent w)) n b c).
Proof.
  intros (s & Hs & Hv & Hp & Hc) Hb Hv' Ha. cbn [do_call]. rewrite Hs. unfold do_ops, do_op; cbn [sem_num sem_by sem_undo].
  rewrite Hv. rewrite (proj2 (Z.eqb_neq b 0)) by done. rewrite (proj2 (Z.ltb_ge _ 0)) by lia.
  assert ((SEMVMX <? tget n v + b) = false) as -> by (apply Z.ltb_ge; unfold SEMVMX; lia).
  assert (adj_of s (pid w) = if is_parent w then p else c) as -> by by destruct w.
  cbn [andb]. assert ((tget n (if is_parent w then p else c) - b <? - SEMVMX - 1) = false) as -> by (apply Z.ltb_ge; lia).
  rewrite (proj2 (Z.ltb_ge SEMVMX _)) by lia. cbn [orb]. eexists. split; [reflexivity|].
  eexists. split; [apply lookup_insert_eq|]. split; [done|]. unfold adj_of. cbn [ss_adj].
  destruct w; cbn [is_parent pid negb adj_if]; rewrite lookup_insert_eq, lookup_insert_ne by done; done.
Qed.

Lemma semop_blocks w n k v p c : sems k v p c → tget n v = 0 → do_call (pid w) false (Semop sem_id [Sembuf n (-1) true]) k = KBlock.
Proof. intros (s & Hs & Hv & _) Hn. cbn [do_call]. rewrite Hs. unfold do_ops, do_op; cbn [sem_num sem_by]. by rewrite Hv, Hn. Qed.

(** ** The states *)

Definition alive (s : pair) : Prop := ∀ w, x_end s w = None ∧ x_attached s w = true.
Definition at_acts (s : pair) (pa ca : list act) (area : Z) : Prop :=
  x_acts s Parent = pa ∧ x_acts s Child = ca ∧ x_area s = area.

(** The end of the parent from its act [i] on, of the child from [j] on. *)
Definition ended (n : nat) (i j : nat) (s : pair) : Prop :=
  at_acts s (drop i (parent_acts 0 0)) (drop j (child_acts 0 0)) (2 * Z.of_nat n) ∧
  x_attached s Parent = (i <? 1)%nat ∧ x_attached s Child = (j <? 1)%nat ∧ x_marked s = (1 <? i)%nat ∧
  x_end s Parent = (if (3 <? i)%nat then Some (Exit 0) else None) ∧
  x_end s Child = (if (1 <? j)%nat then Some (Exit 0) else None) ∧
  (is_Some (k_sets (x_kern s) !! sem_id) ↔ (i < 3)%nat).

(** The parent before its last semop, the child before its act [j]. *)
Definition last_wait (n : nat) (j : nat) (s : pair) : Prop :=
  at_acts s (Sem 0 (-1) :: parent_acts 0 0) (drop j (child_acts 0 0)) (2 * Z.of_nat n) ∧
  x_attached s Parent = true ∧ x_attached s Child = (j <? 1)%nat ∧ x_marked s = false ∧ x_end s Parent = None ∧
  x_end s Child = (if (1 <? j)%nat then Some (Exit 0) else None).

(** Round [k], with [r] more to come after it. *)
Definition in_round (n : nat) (s : pair) (r : nat) (k : Z) (pa ca : list act) (area : Z) (v p c : trip) : Prop :=
  Z.of_nat r + 1 + k = Z.of_nat n ∧ 0 <= k ∧ alive s ∧ x_marked s = false ∧ at_acts s pa ca area ∧ sems (x_kern s) v p c.

Inductive phase (n : nat) (s : pair) : Prop :=
  | ph_turn r k : in_round n s r k (parent_acts (S r) (2 * k)) (child_acts (S r) (2 * k + 1)) (2 * k)
      (T3 0 0 0) (T3 k (- k) 0) (T3 (- k) k 0) → phase n s
  | ph_up r k : in_round n s r k (Sem 1 1 :: Sem 0 (-1) :: parent_acts r (2 * k + 2)) (child_acts (S r) (2 * k + 1)) (2 * k + 1)
      (T3 0 0 0) (T3 k (- k) 0) (T3 (- k) k 0) → phase n s
  | ph_wait r k : in_round n s r k (Sem 0 (-1) :: parent_acts r (2 * k + 2)) (child_acts (S r) (2 * k + 1)) (2 * k + 1)
      (T3 0 1 0) (T3 k (- k - 1) 0) (T3 (- k) k 0) → phase n s
  | ph_child r k : in_round n s r k (Sem 0 (-1) :: parent_acts r (2 * k + 2)) (Turn (2 * k + 1) :: Sem 0 1 :: child_acts r (2 * k + 3)) (2 * k + 1)
      (T3 0 0 0) (T3 k (- k - 1) 0) (T3 (- k) (k + 1) 0) → phase n s
  | ph_child_up r k : in_round n s r k (Sem 0 (-1) :: parent_acts r (2 * k + 2)) (Sem 0 1 :: child_acts r (2 * k + 3)) (2 * k + 2)
      (T3 0 0 0) (T3 k (- k - 1) 0) (T3 (- k) (k + 1) 0) → phase n s
  | ph_back r k : 1 <= k → in_round n s r k (Sem 0 (-1) :: parent_acts (S r) (2 * k)) (child_acts (S r) (2 * k + 1)) (2 * k)
      (T3 1 0 0) (T3 (k - 1) (- k) 0) (T3 (- k) k 0) → phase n s
  | ph_last j : (j < 2)%nat → (0 < n)%nat → last_wait n j s →
      sems (x_kern s) (T3 1 0 0) (T3 (Z.of_nat n - 1) (- Z.of_nat n) 0) (T3 (- Z.of_nat n) (Z.of_nat n) 0) → phase n s
  | ph_stuck : (0 < n)%nat → last_wait n 2 s → (∃ v p c, sems (x_kern s) v p c ∧ t0 v = 0) → phase n s
  | ph_end i j : (i <= 4)%nat → (j <= 2)%nat → ended n i j s → phase n s.

(** ** Steps *)

Lemma step_turn w i r s : x_acts s w = Turn i :: r → alive s → x_area s = i →
  pair_step w s = Some (goes_on w r (s <| x_area ::= Z.add 1 |>)).
Proof. intros Ha Hl Hi. unfold pair_step. rewrite Ha. destruct (Hl w) as [_ ->]. cbn [negb]. by rewrite (proj2 (Z.eqb_eq _ _)). Qed.

Lemma step_sem w n b r s v p c : x_acts s w = Sem n b :: r → sems (x_kern s) v p c → b ≠ 0 → 0 <= tget n v + b <= 1 →
  (- SEMVMX <= tget n (if is_parent w then p else c) - b <= SEMVMX) →
  ∃ k', pair_step w s = Some (goes_on w r (s <| x_kern := k' |>)) ∧
    sems k' (tset n (tget n v + b) v) (adj_if (is_parent w) n b p) (adj_if (negb (is_parent w)) n b c).
Proof.
  intros Ha Hs Hb Hv Hp. destruct (semop_done w n b _ _ _ _ Hs Hb Hv Hp) as (k' & E & Hk).
  exists k'. split; [|done]. unfold pair_step, sem_call. by rewrite Ha, E.
Qed.

Lemma step_blocked w n r s v p c : x_acts s w = Sem n (-1) :: r → sems (x_kern s) v p c → tget n v = 0 → pair_step w s = None.
Proof. intros Ha Hs Hv. unfold pair_step, sem_call. rewrite Ha. by rewrite (semop_blocks w n _ v p c). Qed.

(** A step within the rounds. *)
Lemma in_round_turn n s r k w i rest pa ca v p c area : in_round n s r k pa ca area v p c →
  (if is_parent w then pa else ca) = Turn i :: rest → area = i → ∃ s', pair_step w s = Some s' ∧
  in_round n s' r k (if is_parent w then rest else pa) (if is_parent w then ca else rest) (area + 1) v p c.
Proof.
  intros (H1 & H2 & Hl & Hm & (<- & <- & <-) & Hs) Ha Hi.
  assert (x_acts s w = Turn i :: rest) as Ha' by by destruct w.
  rewrite (step_turn w i rest s Ha' Hl Hi). eexists. split; [done|].
  destruct s as [kn ar mk ac at' en], w; unfold at_acts, alive in *; cbn -[Z.add] in *; split_and!; try done;
    unfold at_acts; cbn -[Z.add]; split_and!; try done; lia.
Qed.

Lemma in_round_sem n s r k w m b rest pa ca v p c area : in_round n s r k pa ca area v p c →
  (if is_parent w then pa else ca) = Sem m b :: rest → b ≠ 0 → 0 <= tget m v + b <= 1 →
  (- SEMVMX <= tget m (if is_parent w then p else c) - b <= SEMVMX) → ∃ s', pair_step w s = Some s' ∧
  in_round n s' r k (if is_parent w then rest else pa) (if is_parent w then ca else rest) area
    (tset m (tget m v + b) v) (adj_if (is_parent w) m b p) (adj_if (negb (is_parent w)) m b c).
Proof.
  intros (H1 & H2 & Hl & Hm & (<- & <- & <-) & Hs) Ha Hb Hv Hp.
  assert (x_acts s w = Sem m b :: rest) as Ha' by by destruct w.
  destruct (step_sem w m b rest s v p c Ha' Hs Hb Hv Hp) as (k' & -> & Hk). eexists. split; [done|].
  destruct s as [kn ar mk ac at' en], w; unfold alive in *; cbn in *; split_and!; try done; unfold at_acts; cbn; by split_and!.
Qed.

Lemma in_round_blocked n s r k w m rest pa ca v p c area : in_round n s r k pa ca area v p c →
  (if is_parent w then pa else ca) = Sem m (-1) :: rest → tget m v = 0 → pair_step w s = None.
Proof.
  intros (_ & _ & _ & _ & (<- & <- & <-) & Hs) Ha. apply (step_blocked w m rest s v p c); [by destruct w|done].
Qed.

(** What one of the phases says of the next step of each process. *)
Definition one_goes (n : nat) (s : pair) (w : who) : Prop := ∃ s', pair_step w s = Some s' ∧ phase n s' ∧ pair_step (other w) s = None.

Lemma turn_steps n s r k : in_round n s r k (parent_acts (S r) (2 * k)) (child_acts (S r) (2 * k + 1)) (2 * k)
  (T3 0 0 0) (T3 k (- k) 0) (T3 (- k) k 0) → one_goes n s Parent.
Proof.
  intros H. destruct (in_round_turn _ _ _ _ Parent (2 * k) _ _ _ _ _ _ _ H eq_refl eq_refl) as (s' & E & H').
  exists s'. split; [done|]. split; [by apply (ph_up n s' r k)|]. by eapply (in_round_blocked _ _ _ _ Child).
Qed.

Lemma up_steps n s r k : Z.of_nat n <= SEMVMX → in_round n s r k (Sem 1 1 :: Sem 0 (-1) :: parent_acts r (2 * k + 2)) (child_acts (S r) (2 * k + 1)) (2 * k + 1)
  (T3 0 0 0) (T3 k (- k) 0) (T3 (- k) k 0) → one_goes n s Parent.
Proof.
  intros Hn H. pose proof H as (Hr & Hk & _).
  destruct (in_round_sem _ _ _ _ Parent 1 1 _ _ _ _ _ _ _ H eq_refl) as (s' & E & H'); [done|done|unfold SEMVMX in *; cbn; lia|].
  exists s'. split; [done|]. split; [by apply (ph_wait n s' r k)|]. by eapply (in_round_blocked _ _ _ _ Child).
Qed.

Lemma wait_steps n s r k : Z.of_nat n <= SEMVMX → in_round n s r k (Sem 0 (-1) :: parent_acts r (2 * k + 2)) (child_acts (S r) (2 * k + 1)) (2 * k + 1)
  (T3 0 1 0) (T3 k (- k - 1) 0) (T3 (- k) k 0) → one_goes n s Child.
Proof.
  intros Hn H. pose proof H as (Hr & Hk & _).
  destruct (in_round_sem _ _ _ _ Child 1 (-1) _ _ _ _ _ _ _ H eq_refl) as (s' & E & H'); [done|done|unfold SEMVMX in *; cbn; lia|].
  exists s'. split; [done|]. split; [|by eapply (in_round_blocked _ _ _ _ Parent)].
  apply (ph_child n s' r k). cbn in H'. replace (2 * k + 1 + 2) with (2 * k + 3) in H' by lia.
  by replace (k - -1) with (k + 1) in H' by lia.
Qed.

Lemma child_steps n s r k : in_round n s r k (Sem 0 (-1) :: parent_acts r (2 * k + 2)) (Turn (2 * k + 1) :: Sem 0 1 :: child_acts r (2 * k + 3)) (2 * k + 1)
  (T3 0 0 0) (T3 k (- k - 1) 0) (T3 (- k) (k + 1) 0) → one_goes n s Child.
Proof.
  intros H. destruct (in_round_turn _ _ _ _ Child (2 * k + 1) _ _ _ _ _ _ _ H eq_refl eq_refl) as (s' & E & H').
  exists s'. split; [done|]. split; [|by eapply (in_round_blocked _ _ _ _ Parent)].
  apply (ph_child_up n s' r k). by replace (2 * k + 1 + 1) with (2 * k + 2) in H' by lia.
Qed.

Lemma child_up_steps n s r k : Z.of_nat n <= SEMVMX → in_round n s r k (Sem 0 (-1) :: parent_acts r (2 * k + 2)) (Sem 0 1 :: child_acts r (2 * k + 3)) (2 * k + 2)
  (T3 0 0 0) (T3 k (- k - 1) 0) (T3 (- k) (k + 1) 0) → one_goes n s Child.
Proof.
  intros Hn H. pose proof H as (Hr & Hk & _).
  destruct (in_round_sem _ _ _ _ Child 0 1 _ _ _ _ _ _ _ H eq_refl) as (s' & E & H'); [done|done|unfold SEMVMX in *; cbn; lia|].
  exists s'. split; [done|]. split; [|by eapply (in_round_blocked _ _ _ _ Parent)].
  cbn -[Z.mul] in H'. destruct H' as (_ & _ & Hl & Hm & Ha & Hs). destruct r as [|r].
  - apply (ph_last n s' 0); [lia|lia| |].
    + cbn -[Z.mul] in Ha. replace (2 * k + 2) with (2 * Z.of_nat n) in Ha by lia.
      split_and!; [done|apply Hl|apply Hl|done|apply Hl|apply Hl].
    + by eapply sems_eq; [exact Hs|..]; cbn; f_equal; lia.
  - apply (ph_back n s' r (k + 1)); [lia|]. split_and!; [lia|lia|done|done| |].
    + replace (2 * (k + 1)) with (2 * k + 2) by lia. by replace (2 * k + 2 + 1) with (2 * k + 3) by lia.
    + by eapply sems_eq; [exact Hs|..]; cbn; f_equal; lia.
Qed.

Lemma back_steps n s r k : Z.of_nat n <= SEMVMX → 1 <= k → in_round n s r k (Sem 0 (-1) :: parent_acts (S r) (2 * k)) (child_acts (S r) (2 * k + 1)) (2 * k)
  (T3 1 0 0) (T3 (k - 1) (- k) 0) (T3 (- k) k 0) → one_goes n s Parent.
Proof.
  intros Hn Hk1 H. pose proof H as (Hr & Hk & _).
  destruct (in_round_sem _ _ _ _ Parent 0 (-1) _ _ _ _ _ _ _ H eq_refl) as (s' & E & H'); [done|done|unfold SEMVMX in *; cbn; lia|].
  exists s'. split; [done|]. split; [|by eapply (in_round_blocked _ _ _ _ Child)].
  apply (ph_turn n s' r k). destruct H' as (H1 & H2 & Hl & Hm & Ha & Hs). split_and!; try done.
  eapply sems_eq; [exact Hs|..]; cbn; f_equal; lia.
Qed.

(** ** The end *)

Definition late (n : nat) (s : pair) : Prop :=
  (∃ j, (j < 2)%nat ∧ (0 < n)%nat ∧ last_wait n j s ∧
     sems (x_kern s) (T3 1 0 0) (T3 (Z.of_nat n - 1) (- Z.of_nat n) 0) (T3 (- Z.of_nat n) (Z.of_nat n) 0)) ∨
  ((0 < n)%nat ∧ last_wait n 2 s ∧ ∃ v p c, sems (x_kern s) v p c ∧ t0 v = 0) ∨
  (∃ i j, (i <= 4)%nat ∧ (j <= 2)%nat ∧ ended n i j s).

Lemma phase_cases n s : Z.of_nat n <= SEMVMX → phase n s → (∃ w, one_goes n s w) ∨ late n s.
Proof.
  intros Hn []; [left; exists Parent|left; exists Parent|left; exists Child|left; exists Child|left; exists Child|left; exists Parent|right..].
  - by eapply turn_steps.
  - by eapply up_steps.
  - by eapply wait_steps.
  - by eapply child_steps.
  - by eapply child_up_steps.
  - by eapply back_steps.
  - left. by exists j.
  - right. by left.
  - right. right. by exists i, j.
Qed.

Lemma late_phase n s : late n s → phase n s.
Proof.
  intros [(j & ? & ? & ? & ?)|[(? & ? & ?)|(i & j & ? & ? & ?)]]; [by apply (ph_last n s j)|by apply ph_stuck|by apply (ph_end n s i j)].
Qed.

Lemma ended_child n i j s s' : ended n i j s → (j <= 2)%nat → pair_step Child s = Some s' → (j < 2)%nat ∧ ended n i (S j) s'.
Proof.
  destruct s as [kn ar mk ac at' en]. intros ((H1 & H2 & H3) & H4 & H5 & H6 & H7 & H8 & H9) Hj. unfold pair_step. rewrite H2. cbn in *.
  destruct j as [|[|[|j]]]; cbn; [| |done|lia]; intros [= <-]; (split; [lia|]); unfold ended, at_acts; cbn -[drop]; split_and!; try done.
  unfold do_exit; cbn. by rewrite lookup_fmap, fmap_is_Some.
Qed.

Lemma ended_parent n i j s s' : ended n i j s → (i <= 4)%nat → pair_step Parent s = Some s' → (i < 4)%nat ∧ ended n (S i) j s'.
Proof.
  destruct s as [kn ar mk ac at' en]. intros ((H1 & H2 & H3) & H4 & H5 & H6 & H7 & H8 & H9) Hi. unfold pair_step. rewrite H1. cbn in *.
  destruct i as [|[|[|[|[|i]]]]]; cbn; [| | | |done|lia].
  - intros [= <-]. split; [lia|]. unfold ended, at_acts; cbn -[drop]; split_and!; try done. rewrite H9. lia.
  - intros [= <-]. split; [lia|]. unfold ended, at_acts; cbn -[drop]; split_and!; try done. rewrite H9. lia.
  - assert (is_Some (k_sets kn !! sem_id)) as [ss Hss] by (apply H9; lia). unfold sem_call. cbn. rewrite Hss. intros [= <-].
    split; [lia|]. unfold ended, at_acts; cbn -[drop]; split_and!; try done. rewrite lookup_delete_eq. split; [by intros []|lia].
  - intros [= <-]. split; [lia|]. unfold ended, at_acts; cbn -[drop]; split_and!; try done.
    unfold do_exit; cbn. rewrite lookup_fmap, fmap_is_Some, H9. lia.
Qed.

Lemma last_child n j s s' : (j < 2)%nat → (0 < n)%nat → last_wait n j s →
  sems (x_kern s) (T3 1 0 0) (T3 (Z.of_nat n - 1) (- Z.of_nat n) 0) (T3 (- Z.of_nat n) (Z.of_nat n) 0) →
  pair_step Child s = Some s' → late n s'.
Proof.
  destruct s as [kn ar mk ac at' en]. intros Hj Hn ((H1 & H2 & H3) & H4 & H5 & H6 & H7 & H8) Hs. unfold pair_step. rewrite H2. cbn in *.
  destruct j as [|[|j]]; cbn; [| |lia]; intros [= <-].
  - left. exists 1%nat. unfold last_wait, at_acts. cbn -[drop]. by split_and!; try done; lia.
  - right. left. split; [done|]. split; [unfold last_wait, at_acts; cbn -[drop]; by split_and!|].
    destruct Hs as (ss & Hss & Hv & Hp & Hc). eexists _, _, _. split.
    + eexists. split; [cbn; rewrite lookup_fmap, Hss; done|]. done.
    + cbn. rewrite Hv, Hc. cbn. unfold clamp, SEMVMX. lia.
Qed.

Lemma last_parent n j s : (j < 2)%nat → Z.of_nat n <= SEMVMX → (0 < n)%nat → last_wait n j s →
  sems (x_kern s) (T3 1 0 0) (T3 (Z.of_nat n - 1) (- Z.of_nat n) 0) (T3 (- Z.of_nat n) (Z.of_nat n) 0) →
  ∃ s', pair_step Parent s = Some s' ∧ late n s'.
Proof.
  intros Hj Hm Hn ((H1 & H2 & H3) & H4 & H5 & H6 & H7 & H8) Hs.
  destruct (step_sem Parent 0 (-1) _ s _ _ _ H1 Hs) as (k' & E & Hk); [done|done|unfold SEMVMX in *; cbn; lia|].
  eexists. split; [exact E|]. right. right. exists 0%nat, j. split; [lia|]. split; [lia|].
  destruct s as [kn ar mk ac at' en]. unfold ended, at_acts. cbn -[drop] in *. split_and!; try done.
  destruct Hk as (ss & -> & _). split; [lia|done].
Qed.

Lemma phase_next n s w s' : Z.of_nat n <= SEMVMX → phase n s → pair_step w s = Some s' → phase n s'.
Proof.
  intros Hn Hp E. destruct (phase_cases n s Hn Hp) as [(w0 & s1 & E1 & Hp1 & E0)|[(j & Hj & Hn0 & Hl & Hs)|[(Hn0 & Hl & v & p & c & Hs & Hv)|(i & j & Hi & Hj & He)]]].
  - destruct w, w0; cbn in E0; congruence.
  - apply late_phase. destruct w; [|by eapply last_child].
    destruct (last_parent n j s Hj Hn Hn0 Hl Hs) as (s1 & E1 & H1). congruence.
  - destruct Hl as ((H1 & H2 & _) & _). destruct w.
    + by rewrite (step_blocked _ _ _ _ _ _ _ H1 Hs Hv) in E.
    + unfold pair_step in E. by rewrite H2 in E.
  - apply late_phase. right. right. destruct w.
    + destruct (ended_parent n i j s s' He Hi E) as [Hi' He']. exists (S i), j. by split_and!.
    + destruct (ended_child n i j s s' He Hj E) as [Hj' He']. exists i, (S j). by split_and!.
Qed.

Lemma phase_begin n : phase n (begin n).
Proof.
  destruct n as [|n].
  - apply (ph_end _ _ 0 0); [lia|lia|]. unfold ended, at_acts; cbn. split_and!; try done. split; [lia|by eexists].
  - apply (ph_turn _ _ n 0). split_and!; [lia|lia|done|done|done|]. by eexists.
Qed.

Definition acts_left (s : pair) : nat := (length (x_acts s Parent) + length (x_acts s Child))%nat.

Lemma set_of_length {A} w (r : list A) (f : who → list A) :
  (length (set_of w r f Parent) + length (set_of w r f Child) + length (f w) = length (f Parent) + length (f Child) + length r)%nat.
Proof.
  destruct w.
  - change (set_of Parent r f Parent) with r. change (set_of Parent r f Child) with (f Child). lia.
  - change (set_of Child r f Parent) with (f Parent). change (set_of Child r f Child) with r. lia.
Qed.

Ltac shorter s w r Ha := unfold acts_left; pose proof (set_of_length w r (x_acts s)) as H1; pose proof (set_of_length w [] (x_acts s)) as H2;
  rewrite Ha in H1, H2; destruct s; cbn -[set_of] in *; lia.

Lemma pair_step_shorter w s s' : pair_step w s = Some s' → (acts_left s' < acts_left s)%nat.
Proof.
  unfold pair_step, sem_call. destruct (x_acts s w) as [|a r] eqn:Ha; [done|].
  destruct a as [i|m b| | | |]; try destruct (do_call _ _ _ _) as [[] k|]; try done; intros [= <-].
  1: destruct (x_attached s w); [destruct (x_area s =? i)|].
  all: cbn [negb]; shorter s w r Ha.
Qed.

Lemma pair_run n sched s0 s : Z.of_nat n <= SEMVMX → phase n s0 → run pair_step sched s0 = Some s →
  phase n s ∧ (length sched <= acts_left s0)%nat.
Proof.
  intros Hn. revert s0. induction sched as [|w sched IH]; intros s0 Hp Hrun; cbn in *; [injection Hrun as <-; by split; [|lia]|].
  destruct (pair_step w s0) as [s1|] eqn:E; [|done]. cbn in Hrun.
  destruct (IH s1 (phase_next n s0 w s1 Hn Hp E) Hrun) as [Hs Hl]. pose proof (pair_step_shorter w s0 s1 E). split; [done|lia].
Qed.

Lemma acts_lengths n i : length (parent_acts n i) = (3 * n + 4)%nat ∧ length (child_acts n i) = (3 * n + 2)%nat.
Proof. revert i. induction n as [|n IH]; intros i; [done|]. destruct (IH (i + 2)) as [H1 H2]. cbn [parent_acts child_acts length]. lia. Qed.

(** The parent waits for a semaphore that nobody will raise. *)
Definition parent_stuck (s : pair) : Prop :=
  x_acts s Parent = Sem 0 (-1) :: parent_acts 0 0 ∧ x_end s Parent = None ∧ is_Some (k_sets (x_kern s) !! sem_id).

Lemma late_stops n s : late n s → Z.of_nat n <= SEMVMX → (∀ w, pair_step w s = None) → x_end s Child = Some (Exit 0) ∧
  ((x_end s Parent = Some (Exit 0) ∧ freed s = true ∧ k_sets (x_kern s) !! sem_id = None) ∨ parent_stuck s).
Proof.
  intros [(j & Hj & Hn0 & Hl & Hs)|[(Hn0 & Hl & v & p & c & Hs & Hv)|(i & j & Hi & Hj & He)]] Hn Hstop.
  - destruct (last_parent n j s Hj Hn Hn0 Hl Hs) as (s1 & E1 & _). by rewrite Hstop in E1.
  - destruct Hl as ((H1 & _) & _ & _ & _ & H5 & H6), Hs as (ss & Hss & _). split; [done|]. right. (split_and!; [done|done|by eexists]).
  - destruct He as ((H1 & H2 & H3) & H4 & H5 & H6 & H7 & H8 & H9).
    assert (j = 2%nat) as ->.
    { specialize (Hstop Child). unfold pair_step in Hstop. rewrite H2 in Hstop. by destruct j as [|[|[|j]]]; [..|lia]. }
    split; [done|]. left. assert (i = 4%nat) as ->.
    { specialize (Hstop Parent). unfold pair_step in Hstop. rewrite H1 in Hstop. destruct i as [|[|[|[|[|i]]]]]; try done; [|lia].
      assert (is_Some (k_sets (x_kern s) !! sem_id)) as [ss Hss] by (apply H9; lia). cbn [drop parent_acts] in Hstop. unfold sem_call, do_call in Hstop.
      by rewrite Hss in Hstop. }
    split; [done|]. split; [unfold freed; by rewrite H4, H5, H6|]. apply eq_None_not_Some. rewrite H9. lia.
Qed.

Lemma late_facts n s : late n s → x_area s = 2 * Z.of_nat n ∧ ∀ w, x_end s w = None ∨ x_end s w = Some (Exit 0).
Proof.
  intros [(j & Hj & Hn0 & Hl & Hs)|[(Hn0 & Hl & _)|(i & j & Hi & Hj & He)]].
  - destruct Hl as ((H1 & _ & H3) & _ & _ & _ & H5 & H6). split; [done|]. intros []; rewrite ?H5, ?H6; [by left|]. destruct (1 <? j)%nat; auto.
  - destruct Hl as ((H1 & _ & H3) & _ & _ & _ & H5 & H6). split; [done|]. intros []; rewrite ?H5, ?H6; auto.
  - destruct He as ((H1 & H2 & H3) & _ & _ & _ & H7 & H8 & _). split; [done|].
    intros []; rewrite ?H7, ?H8; [destruct (3 <? i)%nat|destruct (1 <? j)%nat]; auto.
Qed.

Lemma phase_ok n s : phase n s → ∀ w, x_end s w = None ∨ x_end s w = Some (Exit 0).
Proof.
  intros Hp. destruct Hp as [r k H|r k H|r k H|r k H|r k H|r k _ H|j Hj Hn Hl Hs|Hn Hl Hs|i j Hi Hj He].
  1-6: destruct H as (_ & _ & H & _); intros w; left; apply H.
  - apply (late_facts n). left. by exists j.
  - apply (late_facts n). right. by left.
  - apply (late_facts n). right. right. by exists i, j.
Qed.

(** test_15.15.c with any number of rounds that the adjustments of SEM_UNDO allow: exactly
    one of the two processes can go on, until the counter has been updated for the last time;
    both find the value they expect at each update, and no call fails; an execution has at
    most 6n + 6 steps; and when it stops the child has ended, and the parent has ended and
    the set and the memory are gone, or the parent is stuck. *)
Theorem semop_alternates n sched s (Hn : Z.of_nat n <= SEMVMX) (Hrun : run pair_step sched (begin n) = Some s) :
  (∀ w, x_end s w = None ∨ x_end s w = Some (Exit 0)) ∧ (length sched <= 6 * n + 6)%nat ∧
  ((∃ w s', pair_step w s = Some s' ∧ pair_step (other w) s = None) ∨ x_area s = 2 * Z.of_nat n) ∧
  ((∀ w, pair_step w s = None) → x_area s = 2 * Z.of_nat n ∧ x_end s Child = Some (Exit 0) ∧
    ((x_end s Parent = Some (Exit 0) ∧ freed s = true ∧ k_sets (x_kern s) !! sem_id = None) ∨ parent_stuck s)).
Proof.
  destruct (pair_run n sched _ _ Hn (phase_begin n) Hrun) as [Hp Hl].
  destruct (acts_lengths n 0) as [L1 _], (acts_lengths n 1) as [_ L2]. unfold acts_left in Hl. cbn in Hl. rewrite L1, L2 in Hl.
  destruct (phase_cases n s Hn Hp) as [(w & s' & E & Hp' & E')|Hlate].
  - split_and!; [by apply phase_ok with n|lia|left; by exists w, s'|]. intros Hstop. by rewrite Hstop in E.
  - destruct (late_facts n s Hlate) as [Ha He]. split_and!; [done|lia|by right|]. intros Hstop. split; [done|]. by apply (late_stops n s).
Qed.

Definition one_round : list who := [Parent; Parent; Child; Child; Child; Parent].

Lemma semop_alternates_witness : ∃ s, run pair_step (one_round ++ one_round ++ replicate 4 Parent ++ replicate 2 Child) (begin 2) = Some s ∧
  x_end s Parent = Some (Exit 0) ∧ x_area s = 4.
Proof.
  destruct (run pair_step (one_round ++ one_round ++ replicate 4 Parent ++ replicate 2 Child) (begin 2)) as [s|] eqn:E; [|by vm_compute in E].
  exists s. split; [done|]. pose proof (semop_alternates 2 _ s ltac:(by vm_compute) E) as (_ & _ & _ & H).
  vm_compute in E. injection E as <-. destruct H as (Ha & _ & _); [by intros []|]. done.
Defined.

(** The parent does get stuck: when the child ends before the parent's last semop, SEM_UNDO
    takes back what the child has added. *)
Definition is_none {A} (x : option A) : bool := match x with None => true | Some _ => false end.
Definition stuck_check (s : pair) : bool :=
  is_none (pair_step Parent s) && is_none (pair_step Child s) && bool_decide (x_acts s Parent = Sem 0 (-1) :: parent_acts 0 0) &&
  is_none (x_end s Parent) && negb (is_none (k_sets (x_kern s) !! sem_id)).
Definition stuck_schedule (n : nat) : list who := concat (replicate (n - 1) one_round) ++ [Parent; Parent] ++ replicate 5 Child.

Lemma is_none_true {A} (x : option A) : is_none x = true → x = None.
Proof. by destruct x. Qed.

Lemma semop_stuck : ∃ s, run pair_step (stuck_schedule (Nat.div2 NLOOPS)) (begin (Nat.div2 NLOOPS)) = Some s ∧
  (∀ w, pair_step w s = None) ∧ parent_stuck s.
Proof.
  assert (match run pair_step (stuck_schedule (Nat.div2 NLOOPS)) (begin (Nat.div2 NLOOPS)) with Some s => stuck_check s | None => false end = true)
    as H by (by vm_compute).
  destruct (run _ _ _) as [s|]; [|done]. exists s. split; [done|]. unfold stuck_check in H.
  rewrite !andb_true_iff in H. destruct H as [[[[H1%is_none_true H2%is_none_true] H3%bool_decide_eq_true] H4%is_none_true] H5].
  split; [by intros []|]. split_and!; [done|done|]. destruct (k_sets (x_kern s) !! sem_id) as [x|]; [by exists x|done].
Qed.
