(* ===== verification/Pollmsg.v ===== *)
(** * Polling message queues with helper threads: exercises/pollmsg2.c and ipc2/pollmsg.c.

    One helper thread for each queue receives its messages and tells main over a socket;
    main polls the sockets.  In pollmsg2.c the message stays in the memory that both share,
    and the helper waits for main; in pollmsg.c it travels over the socket.  The threads and
    those who send messages take turns. *)
From Stdlib Require Import Ascii ZArith Lia.
From stdpp Require Import base strings gmap option list.
From S2P Require Import Prelude CStr.

Definition NQ : nat := 3.
Definition MAXMSZ : nat := 512.

(** The next state of a thread: it waits, goes on, or writes behind a buffer. *)
Inductive next (S : Type) := Blocked | Goes (s : S) | Overrun.
Arguments Blocked {S}. Arguments Goes {S} s. Arguments Overrun {S}.

(** msgrcv with MSG_NOERROR: a long message is cut. *)
Definition msgrcv (m : bytes) : bytes := take MAXMSZ m.

(** ** pollmsg2.c *)

Module Shared.
(** Where a helper is; [HWait] is before, [HAsleep] in, [HWoken] at the end of pthread_cond_wait. *)
Inductive hpc := HClear | HRecv | HLock | HWrite | HWait | HAsleep | HWoken | HUnlock.
Inductive thread := Helper | Main.

(** struct threadinfo with the queue, the bytes in the socket, the helper, all messages
    that were sent to the queue, and what main has printed for it. *)
Record tinfo := Tinfo {
  t_pc : hpc; t_text : bytes; t_len : nat; t_sock : nat; t_mutex : option thread;
  t_queue : list bytes; t_sent : list bytes; t_shown : list bytes }.
#[export] Instance tinfo_rebuild : Rebuild tinfo := λ t,
  Tinfo (t_pc t) (t_text t) (t_len t) (t_sock t) (t_mutex t) (t_queue t) (t_sent t) (t_shown t).

(** main: in poll, or in the loop at queue [i] with the revents. *)
Inductive mpc := MPoll | MScan (i : nat) (rev : list bool) | MShow (i : nat) (rev : list bool)
  | MLock (i : nat) (rev : list bool) | MSignal (i : nat) (rev : list bool) | MUnlock (i : nat) (rev : list bool).

Record sys := Sys { y_ti : list tinfo; y_main : mpc }.
#[export] Instance sys_rebuild : Rebuild sys := λ s, Sys (y_ti s) (y_main s).

Definition blank : bytes := replicate (MAXMSZ + 1) NUL.
Definition start : sys := Sys (replicate NQ (Tinfo HClear [] 0 0 None [] [] [])) MPoll.

Definition lock (who : thread) (pc : tinfo → tinfo) (t : tinfo) : option tinfo :=
  match t_mutex t with None => Some (pc t <| t_mutex := Some who |>) | Some _ => None end.

(** helper; [None]: it waits. *)
Definition helper (t : tinfo) : option tinfo :=
  match t_pc t with
  | HClear => Some (t <| t_text := blank |> <| t_pc := HRecv |>)
  | HRecv =>
      match t_queue t with
      | [] => None
      | m :: r =>
          let b := msgrcv m in
          Some (t <| t_queue := r |> <| t_text ::= λ x, b ++ drop (length b) x |> <| t_len := length b |> <| t_pc := HLock |>)
      end
  | HLock => lock Helper (λ t, t <| t_pc := HWrite |>) t
  | HWrite => Some (t <| t_sock ::= S |> <| t_pc := HWait |>)
  | HWait => Some (t <| t_mutex := None |> <| t_pc := HAsleep |>)
  | HAsleep => None
  | HWoken => lock Helper (λ t, t <| t_pc := HUnlock |>) t
  | HUnlock => Some (t <| t_mutex := None |> <| t_pc := HClear |>)
  end.

(** The body of the loop of main. *)
Definition show (t : tinfo) : next tinfo :=
  if (t_len t <? length (t_text t))%nat then
    let text := <[t_len t := NUL]> (t_text t) in
    Goes (t <| t_text := text |> <| t_shown ::= λ l, l ++ [cstr text] |>)
  else Overrun.
Definition signal (t : tinfo) : tinfo :=
  match t_pc t with HAsleep => t <| t_pc := HWoken |> | _ => t end.

(** A change of the entry of queue [i], after which main is at [m]. *)
Definition upd (i : nat) (t : tinfo) (m : mpc) (s : sys) : next sys := Goes (s <| y_ti ::= <[i := t]> |> <| y_main := m |>).
Definition main_at (i : nat) (s : sys) (k : tinfo → next sys) : next sys :=
  match y_ti s !! i with Some t => k t | None => Overrun end.

Definition main_step (s : sys) : next sys :=
  match y_main s with
  | MPoll =>
      let rev := (λ t, (0 <? t_sock t)%nat) <$> y_ti s in
      if existsb id rev then Goes (s <| y_main := MScan 0 rev |>) else Blocked
  | MScan i rev =>
      if (i <? NQ)%nat then
        if default false (rev !! i) then
          main_at i s (λ t, match t_sock t with O => Blocked | S n => upd i (t <| t_sock := n |>) (MShow i rev) s end)
        else Goes (s <| y_main := MScan (S i) rev |>)
      else Goes (s <| y_main := MPoll |>)
  | MShow i rev =>
      main_at i s (λ t, match show t with Goes t => upd i t (MLock i rev) s | _ => Overrun end)
  | MLock i rev =>
      main_at i s (λ t, match lock Main id t with Some t => upd i t (MSignal i rev) s | None => Blocked end)
  | MSignal i rev => main_at i s (λ t, upd i (signal t) (MUnlock i rev) s)
  | MUnlock i rev => main_at i s (λ t, upd i (t <| t_mutex := None |>) (MScan (S i) rev) s)
  end.

(** A helper moves, main moves, somebody sends a message. *)
Inductive runs : next sys → Prop :=
  | runs_start : runs (Goes start)
  | runs_helper i s t t' : runs (Goes s) → y_ti s !! i = Some t → helper t = Some t' →
      runs (Goes (s <| y_ti ::= <[i := t']> |>))
  | runs_main s : runs (Goes s) → runs (main_step s)
  | runs_send i m s t : runs (Goes s) → y_ti s !! i = Some t →
      runs (Goes (s <| y_ti ::= <[i := t <| t_queue ::= λ l, l ++ [m] |> <| t_sent ::= λ l, l ++ [m] |>]> |>)).

(** pthread_cond_wait may return without a signal. *)
Definition spurious (t : tinfo) : option tinfo :=
  match t_pc t with HAsleep => Some (t <| t_pc := HWoken |>) | _ => None end.
End Shared.

(** ** pollmsg.c *)

Module Copied.
(** A queue, the datagrams in its socket, the message its thread holds. *)
Record tinfo := Tinfo {
  c_queue : list bytes; c_held : option bytes; c_sock : list bytes; c_sent : list bytes; c_shown : list bytes }.
#[export] Instance tinfo_rebuild : Rebuild tinfo := λ t,
  Tinfo (c_queue t) (c_held t) (c_sock t) (c_sent t) (c_shown t).

(** main with its buffer. *)
Inductive mpc := MPoll | MScan (i : nat) (rev : list bool).
Record sys := Sys { z_ti : list tinfo; z_main : mpc; z_buf : bytes }.
#[export] Instance sys_rebuild : Rebuild sys := λ s, Sys (z_ti s) (z_main s) (z_buf s).

(** [junk]: what is in the buffer at the start. *)
Definition start (junk : bytes) : sys := Sys (replicate NQ (Tinfo [] None [] [] [])) MPoll junk.

Definition thread_start (t : tinfo) : option tinfo :=
  match c_held t, c_queue t with
  | None, m :: r => Some (t <| c_queue := r |> <| c_held := Some (msgrcv m) |>)
  | Some b, _ => Some (t <| c_held := None |> <| c_sock ::= λ l, l ++ [b] |>)
  | None, [] => None
  end.

Definition main_step (s : sys) : next sys :=
  match z_main s with
  | MPoll =>
      let rev := (λ t, (0 <? length (c_sock t))%nat) <$> z_ti s in
      if existsb id rev then Goes (s <| z_main := MScan 0 rev |>) else Blocked
  | MScan i rev =>
      if (i <? NQ)%nat then
        if default false (rev !! i) then
          match z_ti s !! i with
          | None => Overrun
          | Some t =>
              match c_sock t with
              | [] => Blocked
              | b :: r =>
                  let buf := take MAXMSZ b ++ drop (length (take MAXMSZ b)) (z_buf s) in
                  let n := length (take MAXMSZ b) in
                  if (n <? length buf)%nat then
                    let buf := <[n := NUL]> buf in
                    Goes (s <| z_buf := buf |> <| z_ti ::= <[i := t <| c_sock := r |> <| c_shown ::= λ l, l ++ [cstr buf] |>]> |>
                            <| z_main := MScan (S i) rev |>)
                  else Overrun
              end
          end
        else Goes (s <| z_main := MScan (S i) rev |>)
      else Goes (s <| z_main := MPoll |>)
  end.

Inductive runs (junk : bytes) : next sys → Prop :=
  | runs_start : runs junk (Goes (start junk))
  | runs_helper i s t t' : runs junk (Goes s) → z_ti s !! i = Some t → thread_start t = Some t' →
      runs junk (Goes (s <| z_ti ::= <[i := t']> |>))
  | runs_main s : runs junk (Goes s) → runs junk (main_step s)
  | runs_send i m s t : runs junk (Goes s) → z_ti s !! i = Some t →
      runs junk (Goes (s <| z_ti ::= <[i := t <| c_queue ::= λ l, l ++ [m] |> <| c_sent ::= λ l, l ++ [m] |>]> |>)).
End Copied.

(** * Properties *)

(** What printf shows of a message. *)
Definition printed (m : bytes) : bytes := cstr (msgrcv m).

Lemma msgrcv_length m : (length (msgrcv m) <= MAXMSZ)%nat.
Proof. unfold msgrcv. rewrite length_take. lia. Qed.

Lemma cstr_terminated (b r : bytes) : (0 < length r)%nat → cstr (<[length b := NUL]> (b ++ r)) = cstr b.
Proof.
  destruct r as [|c r]; [cbn; lia|]. intros _. induction b as [|x b IH]; [done|].
  change (<[length (x :: b) := NUL]> ((x :: b) ++ c :: r)) with (x :: <[length b := NUL]> (b ++ c :: r)).
  cbn [cstr]. case_decide; [done|]. by rewrite IH.
Qed.

(** Queues of which one entry changes. *)
Lemma forall_insert {A} (P : nat → A → Prop) (l : list A) i x : (∀ j y, l !! j = Some y → P j y) → P i x →
  ∀ j y, <[i := x]> l !! j = Some y → P j y.
Proof. intros H Hx j y [(-> & <- & _)|[_ Hy]]%list_lookup_insert_Some; [done|by apply H]. Qed.

Module SharedProps.
Import Shared.

(** What main is doing with a queue. *)
Inductive role := RNone | RShow | RLock | RSignal | RUnlock.
Definition role_of (m : mpc) (i : nat) : role :=
  match m with
  | MPoll | MScan _ _ => RNone
  | MShow j _ => if decide (i = j) then RShow else RNone
  | MLock j _ => if decide (i = j) then RLock else RNone
  | MSignal j _ => if decide (i = j) then RSignal else RNone
  | MUnlock j _ => if decide (i = j) then RUnlock else RNone
  end.

(** The states of the helper, main, the mutex, the socket, and whether the message in the
    shared memory is still to be shown. *)
Definition table (r : role) (pc : hpc) (mu : option thread) (sk : nat) (pending : bool) : bool :=
  match pc, r, mu, sk, pending with
  | (HClear | HRecv), RNone, None, O, false => true
  | HLock, RNone, None, O, true => true
  | HWrite, RNone, Some Helper, O, true => true
  | HWait, RNone, Some Helper, S O, true => true
  | HWait, RShow, Some Helper, O, true => true
  | HWait, RLock, Some Helper, O, false => true
  | HAsleep, RNone, None, S O, true => true
  | HAsleep, RShow, None, O, true => true
  | HAsleep, RLock, None, O, false => true
  | HAsleep, RSignal, Some Main, O, false => true
  | HWoken, RUnlock, Some Main, O, false => true
  | HWoken, RNone, None, O, false => true
  | HUnlock, RNone, Some Helper, O, false => true
  | _, _, _, _, _ => false
  end.

Definition in_memory (t : tinfo) (m : bytes) : Prop :=
  t_text t = msgrcv m ++ drop (length (msgrcv m)) blank ∧ t_len t = length (msgrcv m).

Record qinv (r : role) (t : tinfo) (done : list bytes) (pend : option bytes) : Prop := Qinv {
  q_sent : t_sent t = done ++ option_list pend ++ t_queue t;
  q_shown : t_shown t = printed <$> done;
  q_table : table r (t_pc t) (t_mutex t) (t_sock t) (bool_decide (is_Some pend)) = true;
  q_blank : t_pc t = HRecv → t_text t = blank;
  q_memory : ∀ m, pend = Some m → in_memory t m }.
Definition queue_ok (r : role) (t : tinfo) : Prop := ∃ done pend, qinv r t done pend.

Lemma shared_helper_ok r t t' : queue_ok r t → helper t = Some t' → queue_ok r t'.
Proof.
  destruct t as [pc text len sk mu q sent shown]. intros (done & pend & [H1 H2 H3 H4 H5]). unfold helper; cbn -[blank msgrcv] in *.
  destruct pc; cbn in H3; try (destruct r, mu as [[]|], sk as [|[|]], pend as [m|]; try discriminate H3; cbn -[blank msgrcv]; intros [= <-]);
    try (eexists _, _; split; cbn -[blank msgrcv]; [exact H1|exact H2|done|done|]; by intros m' [= <-]; apply H5); try done.
  destruct r, mu as [[]|], sk as [|[|]], pend as [m|]; try discriminate H3. destruct q as [|m q]; [done|]. intros [= <-].
  exists done, (Some m). split; cbn -[blank msgrcv]; [by rewrite H1|done|done|done|]. intros m' [= <-]. split; cbn -[blank msgrcv]; [|done]. by rewrite H4.
Qed.
Lemma helper_sock t t' : helper t = Some t' → (t_sock t <= t_sock t')%nat.
Proof.
  destruct t as [pc text len sk mu q sent shown]. unfold helper, lock. destruct pc; cbn -[blank msgrcv].
  all: try destruct mu as [?|]; try destruct q as [|m q]; try done; intros [= <-]; cbn -[blank msgrcv]; lia.
Qed.

Lemma shared_send_ok r t m : queue_ok r t → queue_ok r (t <| t_queue ::= λ l, l ++ [m] |> <| t_sent ::= λ l, l ++ [m] |>).
Proof.
  destruct t as [pc text len sk mu q sent shown]. intros (done & pend & [H1 H2 H3 H4 H5]). exists done, pend. cbn -[blank msgrcv] in *.
  split; cbn -[blank msgrcv]; try done. by rewrite H1, <- !(assoc_L (++)).
Qed.

Lemma read_ok t n : queue_ok RNone t → t_sock t = S n → queue_ok RShow (t <| t_sock := n |>).
Proof.
  destruct t as [pc text len sk mu q sent shown]. intros (done & pend & [H1 H2 H3 H4 H5]) Hn. cbn -[blank msgrcv] in *. subst sk.
  exists done, pend. destruct pc, mu as [[]|], n as [|n], pend as [m|]; try discriminate H3; split; cbn -[blank msgrcv]; try done.
Qed.

Lemma blank_left m : (0 < length (drop (length (msgrcv m)) blank))%nat.
Proof. pose proof (msgrcv_length m) as H. rewrite length_drop. unfold blank. rewrite length_replicate. unfold MAXMSZ in *. lia. Qed.

Lemma show_ok t : queue_ok RShow t → ∃ t', show t = Goes t' ∧ queue_ok RLock t'.
Proof.
  destruct t as [pc text len sk mu q sent shown]. intros (done & pend & [H1 H2 H3 H4 H5]). cbn -[blank msgrcv] in *.
  destruct pc, mu as [[]|], sk as [|sk], pend as [m|]; try discriminate H3; destruct (H5 m eq_refl) as [Ht Hl]; cbn -[blank msgrcv] in Ht, Hl.
  all: pose proof (blank_left m) as Hd.
  all: unfold show; cbn -[blank msgrcv Nat.ltb]; rewrite Ht, Hl, length_app, (proj2 (Nat.ltb_lt _ _)) by lia; eexists; (split; [done|]).
  all: exists (done ++ [m]), None; split; cbn -[blank msgrcv]; try done; [by rewrite H1, <- (assoc_L (++))|].
  all: by rewrite fmap_app, H2, cstr_terminated.
Qed.

Lemma lock_ok t t' : queue_ok RLock t → lock Main id t = Some t' → queue_ok RSignal t'.
Proof.
  destruct t as [pc text len sk mu q sent shown]. intros (done & pend & [H1 H2 H3 H4 H5]). cbn -[blank msgrcv] in *.
  destruct pc, mu as [[]|], sk as [|sk], pend as [m|]; try discriminate H3; try done. intros [= <-].
  exists done, None. by split.
Qed.

Lemma signal_ok t : queue_ok RSignal t → queue_ok RUnlock (signal t).
Proof.
  destruct t as [pc text len sk mu q sent shown]. intros (done & pend & [H1 H2 H3 H4 H5]). cbn -[blank msgrcv] in *.
  destruct pc, mu as [[]|], sk as [|sk], pend as [m|]; try discriminate H3. exists done, None. by split.
Qed.

Lemma unlock_ok t : queue_ok RUnlock t → queue_ok RNone (t <| t_mutex := None |>).
Proof.
  destruct t as [pc text len sk mu q sent shown]. intros (done & pend & [H1 H2 H3 H4 H5]). cbn -[blank msgrcv] in *.
  destruct pc, mu as [[]|], sk as [|sk], pend as [m|]; try discriminate H3. exists done, None. by split.
Qed.

(** ** All queues *)

Definition busy (m : mpc) : option nat :=
  match m with MPoll | MScan _ _ => None | MShow j _ | MLock j _ | MSignal j _ | MUnlock j _ => Some j end.
(** Queues whose revents main has still to look at. *)
Definition announced (m : mpc) (i : nat) : bool :=
  match m with
  | MPoll => false
  | MScan j rev => (j <=? i)%nat && default false (rev !! i)
  | MShow j rev | MLock j rev | MSignal j rev | MUnlock j rev => (S j <=? i)%nat && default false (rev !! i)
  end.

Record inv (s : sys) : Prop := Inv {
  i_len : length (y_ti s) = NQ;
  i_ok : ∀ i t, y_ti s !! i = Some t → queue_ok (role_of (y_main s) i) t;
  i_busy : ∀ i, busy (y_main s) = Some i → is_Some (y_ti s !! i);
  i_rev : ∀ i, announced (y_main s) i = true → ∃ t, y_ti s !! i = Some t ∧ (0 < t_sock t)%nat }.

(** Another state of one queue, which leaves the socket as it is or fills it. *)
Lemma tinfo_upd s i t t' : inv s → y_ti s !! i = Some t → queue_ok (role_of (y_main s) i) t' → (t_sock t <= t_sock t')%nat →
  inv (s <| y_ti ::= <[i := t']> |>).
Proof.
  destruct s as [ti m]. intros [H1 H2 H3 H4] Hi Hq Hs. cbn in *. split; cbn.
  - by rewrite length_insert.
  - intros j y [(-> & <- & _)|[_ Hj]]%list_lookup_insert_Some; [done|by apply H2].
  - intros j Hj. destruct (H3 j Hj) as [y Hy]. destruct (decide (i = j)) as [->|Hij].
    + rewrite list_lookup_insert_eq; [done|by eapply lookup_lt_Some].
    + by rewrite list_lookup_insert_ne.
  - intros j Hj. destruct (H4 j Hj) as (y & Hy & Hp). destruct (decide (i = j)) as [->|Hij].
    + exists t'. rewrite list_lookup_insert_eq; [split; [done|]|by eapply lookup_lt_Some]. simplify_eq. lia.
    + exists y. by rewrite list_lookup_insert_ne.
Qed.

(** Main takes the next step with queue [i]. *)
Lemma inv_main ti m m' i t t' : inv (Sys ti m) → ti !! i = Some t → queue_ok (role_of m' i) t' →
  (∀ j, j ≠ i → role_of m j = role_of m' j) → (∀ j, busy m' = Some j → j = i) →
  (∀ j, announced m' j = true → j ≠ i ∧ announced m j = true) → inv (Sys (<[i := t']> ti) m').
Proof.
  intros [H1 H2 H3 H4] Hi Hq Hr Hb Ha. cbn in *. split; cbn.
  - by rewrite length_insert.
  - intros j y [(-> & <- & _)|[Hij Hj]]%list_lookup_insert_Some; [done|]. rewrite <- Hr by done. by apply H2.
  - intros j ->%Hb. rewrite list_lookup_insert_eq; [done|by eapply lookup_lt_Some].
  - intros j [Hij (y & Hy & Hp)%H4]%Ha. exists y. by rewrite list_lookup_insert_ne.
Qed.

Lemma announced_S (j k : nat) (rev : list bool) : (S k <=? j)%nat && default false (rev !! j) = true → j ≠ k ∧ (k <=? j)%nat && default false (rev !! j) = true.
Proof. rewrite !andb_true_iff, !Nat.leb_le. intros [? ->]. split; [lia|]. split; [lia|done]. Qed.

Lemma shared_main_ok s : inv s → match main_step s with Goes s' => inv s' | Blocked => True | Overrun => False end.
Proof.
  destruct s as [ti m]. intros Hi. pose proof Hi as [H1 H2 H3 H4]. cbn in *. unfold main_step; cbn -[blank msgrcv NQ Nat.ltb].
  destruct m as [|i rev|i rev|i rev|i rev|i rev].
  - destruct (existsb _ _) eqn:E; [|done]. split; cbn; [done|done|done|]. intros i Ha.
    rewrite list_lookup_fmap in Ha. destruct (ti !! i) as [t|] eqn:Ht; [|done]. exists t. split; [done|]. by apply Nat.ltb_lt.
  - destruct (i <? NQ)%nat eqn:Hn; [|by (cbn; split; cbn)].
    destruct (default false (rev !! i)) eqn:Hr.
    + destruct (H4 i) as (t & Ht & Hs); [by unfold announced; rewrite Nat.leb_refl, Hr|]. unfold main_at; cbn. rewrite Ht.
      destruct (t_sock t) as [|n] eqn:En; [lia|]. cbn -[blank msgrcv].
      eapply inv_main; [exact Hi|exact Ht| | | |].
      * cbn. rewrite decide_True by done. apply read_ok; [|done]. by apply (H2 i).
      * intros j Hj. cbn. by rewrite decide_False.
      * by intros j [= <-].
      * intros j. apply announced_S.
    + split; cbn; [done|done|done|]. intros j [_ Ha]%announced_S. by apply H4.
  - destruct (H3 i eq_refl) as [t Ht]. unfold main_at; cbn -[blank msgrcv]. rewrite Ht. pose proof (H2 i t Ht) as Hq. cbn in Hq. rewrite decide_True in Hq by done.
    destruct (show_ok t Hq) as (t' & -> & Hq'). cbn -[blank msgrcv]. eapply inv_main; [exact Hi|exact Ht| | | |].
    + cbn. by rewrite decide_True.
    + intros j Hj. cbn. by rewrite !decide_False.
    + by intros j [= <-].
    + intros j Ha. split; [|done]. apply announced_S in Ha. by destruct Ha.
  - destruct (H3 i eq_refl) as [t Ht]. unfold main_at; cbn -[blank lock]. rewrite Ht. pose proof (H2 i t Ht) as Hq. cbn in Hq. rewrite decide_True in Hq by done.
    destruct (lock Main id t) as [t'|] eqn:El; [|done]. cbn -[blank msgrcv]. eapply inv_main; [exact Hi|exact Ht| | | |].
    + cbn. rewrite decide_True by done. by eapply lock_ok.
    + intros j Hj. cbn. by rewrite !decide_False.
    + by intros j [= <-].
    + intros j Ha. split; [|done]. apply announced_S in Ha. by destruct Ha.
  - destruct (H3 i eq_refl) as [t Ht]. unfold main_at; cbn -[blank msgrcv]. rewrite Ht. pose proof (H2 i t Ht) as Hq. cbn in Hq. rewrite decide_True in Hq by done.
    eapply inv_main; [exact Hi|exact Ht| | | |].
    + cbn. rewrite decide_True by done. by apply signal_ok.
    + intros j Hj. cbn. by rewrite !decide_False.
    + by intros j [= <-].
    + intros j Ha. split; [|done]. apply announced_S in Ha. by destruct Ha.
  - destruct (H3 i eq_refl) as [t Ht]. unfold main_at; cbn -[blank msgrcv]. rewrite Ht. pose proof (H2 i t Ht) as Hq. cbn in Hq. rewrite decide_True in Hq by done.
    eapply inv_main; [exact Hi|exact Ht| | | |].
    + cbn. by apply unlock_ok.
    + intros j Hj. cbn. by rewrite decide_False.
    + done.
    + intros j Ha. split; [|done]. apply announced_S in Ha. by destruct Ha.
Qed.
Lemma start_inv : inv start.
Proof.
  split; [done| |done|done]. intros i t Ht. unfold start in Ht. cbn -[blank NQ] in Ht. apply lookup_replicate in Ht as [-> _].
  exists [], None. by split.
Qed.

Lemma shared_runs_inv o : runs o → match o with Goes s => inv s | Blocked => True | Overrun => False end.
Proof.
  induction 1 as [|i s t t' _ IH Ht Hh|s _ IH|i m s t _ IH Ht].
  - apply start_inv.
  - apply (tinfo_upd s i t t'); [done|done| |by apply helper_sock]. eapply shared_helper_ok; [|done]. by apply (i_ok s IH i t).
  - by apply shared_main_ok.
  - apply (tinfo_upd s i t); [done|done| |by destruct t]. apply shared_send_ok. by apply (i_ok s IH i t).
Qed.

(** Nobody can go on. *)
Lemma stopped s : inv s → main_step s = Blocked → (∀ i t, y_ti s !! i = Some t → helper t = None) →
  ∀ i t, y_ti s !! i = Some t → t_shown t = printed <$> t_sent t.
Proof.
  destruct s as [ti m]. intros Hi Hm Hh i t Ht. pose proof Hi as [H1 H2 H3 H4]. cbn in *.
  unfold main_step in Hm; cbn -[blank msgrcv NQ Nat.ltb] in Hm. destruct m as [|j rev|j rev|j rev|j rev|j rev].
  - destruct (existsb _ _) eqn:E; [done|]. assert ((0 <? t_sock t)%nat = false) as Hs.
    { apply not_true_iff_false. intros Hs. apply not_true_iff_false in E. apply E, existsb_exists. exists true. split; [|done].
      apply list_elem_of_In, list_elem_of_lookup. exists i. rewrite list_lookup_fmap, Ht. cbn -[Nat.ltb]. by rewrite Hs. }
    specialize (Hh i t Ht). destruct (H2 i t Ht) as (done & pend & [Q1 Q2 Q3 Q4 Q5]).
    destruct t as [pc text len sk mu q sent shown]. cbn -[blank msgrcv] in *. destruct sk as [|sk]; [|done].
    destruct pc, mu as [[]|], pend as [m|]; try discriminate Q3; try discriminate Hh.
    destruct q as [|m q]; [|discriminate Hh]. cbn in Q1. by rewrite app_nil_r in Q1; rewrite Q1.
  - destruct (j <? NQ)%nat; [|done]. destruct (default false (rev !! j)) eqn:Hr; [|done].
    destruct (H4 j) as (t0 & Ht0 & Hs); [by unfold announced; rewrite Nat.leb_refl, Hr|]. unfold main_at in Hm; cbn in Hm. rewrite Ht0 in Hm.
    destruct (t_sock t0); [lia|done].
  - destruct (H3 j eq_refl) as [t0 Ht0]. unfold main_at in Hm; cbn -[blank] in Hm. rewrite Ht0 in Hm. by destruct (show t0).
  - destruct (H3 j eq_refl) as [t0 Ht0]. unfold main_at in Hm; cbn -[blank lock] in Hm. rewrite Ht0 in Hm.
    pose proof (H2 j t0 Ht0) as (done & pend & [Q1 Q2 Q3 Q4 Q5]). cbn in Q3. rewrite decide_True in Q3 by done. specialize (Hh j t0 Ht0).
    destruct t0 as [pc text len sk mu q sent shown]. cbn -[blank msgrcv] in *.
    by destruct pc, mu as [[]|], sk as [|sk], pend as [?|].
  - destruct (H3 j eq_refl) as [t0 Ht0]. unfold main_at in Hm; cbn -[blank] in Hm. by rewrite Ht0 in Hm.
  - destruct (H3 j eq_refl) as [t0 Ht0]. unfold main_at in Hm; cbn -[blank] in Hm. by rewrite Ht0 in Hm.
Qed.

(** pollmsg2.c, when pthread_cond_wait returns only after a signal: main never writes
    behind a message; it prints the messages of each queue in their order, each once, each
    cut to MAXMSZ bytes, though they stand in memory that its thread uses again; and when no
    thread can go on all messages have been printed: the signal, which main sends under
    the mutex the thread has held since it wrote to the socket, is never lost. *)
Theorem pollmsg2_messages o (Hruns : runs o) : o ≠ Overrun ∧ ∀ s, o = Goes s →
  (∀ i t, y_ti s !! i = Some t → ∃ done rest, t_sent t = done ++ rest ∧ t_shown t = printed <$> done) ∧
  (main_step s = Blocked → (∀ i t, y_ti s !! i = Some t → helper t = None) →
    ∀ i t, y_ti s !! i = Some t → t_shown t = printed <$> t_sent t).
Proof.
  pose proof (shared_runs_inv o Hruns) as H. split; [by intros ->|]. intros s ->. split.
  - intros i t Ht. destruct (i_ok s H i t Ht) as (done & pend & [Q1 Q2 _ _ _]). by eexists done, _.
  - by apply stopped.
Qed.

(** When pthread_cond_wait returns without a signal, the next message takes the place of one
    that has not been printed. *)
Fixpoint helpers (n : nat) (t : tinfo) : option tinfo := match n with O => Some t | S n => helper t ≫= helpers n end.
Definition ex_asleep : tinfo :=
  Tinfo HAsleep (str "first" ++ drop 5 blank) 5 1 None [str "second"] [str "first"; str "second"] [].
Lemma pollmsg2_spurious : queue_ok RNone ex_asleep ∧
  (t1 ← spurious ex_asleep; t2 ← helpers 6 t1; match show t2 with Goes t3 => Some (t_shown t3) | _ => None end) = Some [str "second"].
Proof.
  split; [|by vm_compute]. exists [], (Some (str "first")). split; [done|done|done|done|]. intros m [= <-]. by split.
Qed.
End SharedProps.

Module CopiedProps.
Import Copied.

(** The messages that have been printed, that are in the socket, and that the thread holds. *)
Definition queue_ok (t : tinfo) : Prop := ∃ done sock held,
  c_sent t = done ++ sock ++ option_list held ++ c_queue t ∧ c_shown t = printed <$> done ∧
  c_sock t = msgrcv <$> sock ∧ c_held t = msgrcv <$> held.

Record inv (s : sys) : Prop := Inv {
  i_len : length (z_ti s) = NQ;
  i_buf : length (z_buf s) = MAXMSZ;
  i_ok : ∀ i t, z_ti s !! i = Some t → queue_ok t }.

Lemma copied_helper_ok t t' : queue_ok t → thread_start t = Some t' → queue_ok t'.
Proof.
  destruct t as [q h sk sent shown]. intros (done & sock & held & H1 & H2 & H3 & H4). unfold thread_start; cbn -[msgrcv] in *.
  destruct held as [m|]; cbn -[msgrcv] in H4; subst h.
  - intros [= <-]. exists done, (sock ++ [m]), None. cbn -[msgrcv]. split_and!; [by rewrite H1, <- (assoc_L (++))|done|by rewrite H3, fmap_app|done].
  - destruct q as [|m q]; [done|]. intros [= <-]. by exists done, sock, (Some m).
Qed.

Lemma copied_send_ok t m : queue_ok t → queue_ok (t <| c_queue ::= λ l, l ++ [m] |> <| c_sent ::= λ l, l ++ [m] |>).
Proof.
  destruct t as [q h sk sent shown]. intros (done & sock & held & H1 & H2 & H3 & H4). cbn -[msgrcv] in *.
  exists done, sock, held. cbn -[msgrcv]. split_and!; [by rewrite H1, <- !(assoc_L (++))|done|done|done].
Qed.

Definition short_messages (s : sys) : Prop := ∀ i t, z_ti s !! i = Some t → Forall (λ m, (length m < MAXMSZ)%nat) (c_sent t).

Lemma take_msgrcv m : take MAXMSZ (msgrcv m) = msgrcv m.
Proof. apply take_ge, msgrcv_length. Qed.

Lemma copied_main_ok s : inv s → match main_step s with Goes s' => inv s' | Blocked => True | Overrun => ¬ short_messages s end.
Proof.
  destruct s as [ti m buf]. intros Hi. pose proof Hi as [H1 H2 H3]. cbn -[MAXMSZ NQ] in *.
  unfold main_step; cbn -[NQ Nat.ltb MAXMSZ msgrcv]. destruct m as [|i rev].
  - by destruct (existsb _ _).
  - destruct (i <? NQ)%nat eqn:Hn; [|by split]. destruct (default false (rev !! i)); [|by split].
    destruct (ti !! i) as [t|] eqn:Ht.
    2:{ apply lookup_ge_None in Ht. apply Nat.ltb_lt in Hn. lia. }
    pose proof (H3 i t Ht) as (done & sock & held & Q1 & Q2 & Q3 & Q4). rewrite Q3. destruct sock as [|m sock]; [done|].
    cbn [fmap list_fmap]. rewrite take_msgrcv, length_app, length_drop, H2. pose proof (msgrcv_length m) as Hm.
    destruct (Nat.ltb_spec (length (msgrcv m)) (length (msgrcv m) + (MAXMSZ - length (msgrcv m)))) as [Hl|Hl].
    + split; cbn -[NQ MAXMSZ msgrcv].
      * by rewrite length_insert.
      * rewrite length_insert, length_app, length_drop, H2. lia.
      * intros j y [(-> & <- & _)|[_ Hj]]%list_lookup_insert_Some; [|by eapply H3].
        exists (done ++ [m]), sock, held. destruct t as [q h sk sent shown]; cbn -[msgrcv MAXMSZ] in *. split_and!; [by rewrite Q1, <- (assoc_L (++))| |done|done].
        rewrite fmap_app, Q2, cstr_terminated; [done|]. rewrite length_drop, H2. lia.
    + intros Hs. specialize (Hs i t Ht). rewrite Q1, !Forall_app, Forall_cons in Hs. destruct Hs as (_ & (Hs & _) & _).
      unfold msgrcv in Hl. rewrite length_take in Hl. lia.
Qed.

Lemma copied_runs_inv junk s : length junk = MAXMSZ → runs junk (Goes s) → inv s.
Proof.
  intros Hj. assert (∀ o, runs junk o → ∀ s, o = Goes s → inv s) as H; [|by intros; eapply H].
  induction 1 as [|i s0 t t' _ IH Ht Hh|s0 _ IH|i m s0 t _ IH Ht]; intros s1 E.
  - injection E as <-. split; [done|done|]. intros i t [-> _]%lookup_replicate. by exists [], [], None.
  - injection E as <-. destruct (IH s0 eq_refl) as [I1 I2 I3]. destruct s0 as [ti m buf]. cbn -[msgrcv] in *. split; cbn -[msgrcv]; [by rewrite length_insert|done|].
    intros j y [(-> & <- & _)|[_ Hy]]%list_lookup_insert_Some; [|by apply (I3 j)]. eapply copied_helper_ok; [|done]. by eapply I3.
  - pose proof (copied_main_ok s0 (IH s0 eq_refl)) as Hm. by rewrite E in Hm.
  - injection E as <-. destruct (IH s0 eq_refl) as [I1 I2 I3]. destruct s0 as [ti mp buf]. cbn -[msgrcv] in *. split; cbn -[msgrcv]; [by rewrite length_insert|done|].
    intros j y [(-> & <- & _)|[_ Hy]]%list_lookup_insert_Some; [|by apply (I3 j)]. apply (copied_send_ok t m). by eapply I3.
Qed.

(** pollmsg.c prints the messages of each queue in their order, each once, and with messages
    of less than MAXMSZ bytes main writes only into its buffer. *)
Lemma pollmsg_messages junk s : length junk = MAXMSZ → runs junk (Goes s) →
  (∀ i t, z_ti s !! i = Some t → ∃ done rest, c_sent t = done ++ rest ∧ c_shown t = printed <$> done) ∧
  (short_messages s → main_step s ≠ Overrun).
Proof.
  intros Hj Hruns. pose proof (copied_runs_inv junk s Hj Hruns) as Hi. split.
  - intros i t Ht. destruct (i_ok s Hi i t Ht) as (done & sock & held & H1 & H2 & _). by eexists done, _.
  - intros Hs E. pose proof (copied_main_ok s Hi) as H. by rewrite E in H.
Qed.

(** A message of MAXMSZ bytes makes main write behind its buffer. *)
Lemma pollmsg_overrun (junk m : bytes) : length junk = MAXMSZ → length m = MAXMSZ → ∃ s, runs junk (Goes s) ∧ main_step s = Overrun.
Proof.
  intros Hj Hm. pose proof (runs_start junk) as H. pose proof (runs_send junk 0 m _ _ H eq_refl) as H1.
  pose proof (runs_helper junk 0 _ _ _ H1 eq_refl eq_refl) as H2. pose proof (runs_helper junk 0 _ _ _ H2 eq_refl eq_refl) as H3.
  pose proof (runs_main junk _ H3) as H4. eexists. split; [exact H4|]. cbn -[MAXMSZ msgrcv Nat.ltb take drop].
  rewrite take_msgrcv, length_app, length_drop, Hj. unfold msgrcv. rewrite take_ge by lia. by rewrite Hm.
Qed.
End CopiedProps.
